(* ===== verification/_CoqProject ===== *)
-Q . S2P
Prelude.v
Json.v
ToolSchema.v
ToolWire.v
Tools.v
AuditLog.v
Autonomy.v
ToolPolicy.v
ToolRunner.v
Persistence.v
Permissions.v
Retrieval.v
DriveAcl.v
Chunking.v
Keys.v
Egress.v
Cron.v
Runs.v
Schedules.v
Accounting.v
Context.v
Streams.v
Grounding.v
ChatStream.v
ChatTurn.v
Answer.v
ChatAnswer.v
ChatCommit.v
ChatRun.v
ChatSettle.v
ChatGuarantees.v
Reasoning.v
Gateway.v
Media.v
Stitching.v
Transcripts.v
Ingest.v
IngestFence.v
Uploads.v
