(* ===== verification/Prelude.v ===== *)
(** * Lumen Copilot backend: verification development

    Lumen Copilot is a multi-tenant assistant over a team's documents.  This library
    models the Python backend, [src/backend/app] (paths below are relative to it), as
    executable definitions translated from the source, and proves what its parts promise
    each other and their users.

    ** The program and the files

    A chat answer is the longest path.  [services/chat_runtime.py] assembles a prompt
    ([Context]), asks a provider through [llm/gateway.py] ([Gateway], [ToolWire],
    [Reasoning]), runs the tools the model calls through [services/tools/runner.py]
    ([ToolRunner], [ToolSchema], [ToolPolicy], [Autonomy]), grounds its text in evidence
    ([Grounding], [Answer], [Retrieval], [Permissions]) and streams it to the client
    ([ChatStream], [Streams]).  Runs and schedules start answers without a client ([Runs],
    [Schedules], [Cron]).  Uploads, ingestion and connectors bring the documents in
    ([Uploads], [Ingest], [Media], [Chunking], [Keys], [DriveAcl], [Egress]).

    - [Prelude] (this file): the error monad [res], Python strings as lists of code points
      ([pystr], written [cp "..."]) and their methods, [sorted], generic lemmas on
      lists and the tactics of the development.
    - [Json]: the values of [json], with Python's dict order.
    - Tools.  [Tools]: [domain/tools.py], [services/tools/types.py].  [ToolSchema]:
      [domain/tool_schema.py].  [ToolWire]: [llm/tool_names.py], [llm/tool_wire.py].
      [AuditLog]: [domain/audit.py], [services/audit.py].  [Autonomy]:
      [services/autonomy_policy_service.py].  [ToolPolicy]: the registry, aliases, tenant
      policy and gate of [services/tools/] and [services/tool_policy_service.py].
      [ToolRunner]: [services/tools/runner.py], one call.  [Persistence]: its finalisation
      under interleaving.
    - Reading.  [Permissions]: [retrieval/permissions.py], [search/filters.py] and the WHERE
      clause of [retrieval/queries.py].  [Retrieval]: [retrieval/queries.py],
      [retrieval/service.py], [services/citation_access.py].  [DriveAcl]:
      [connectors/gdrive/acl.py].
    - Documents.  [Uploads]: [services/document_upload_service.py], [api/v2/uploads.py],
      [tasks/upload_janitor.py], [storage/validation.py].  [Ingest]: [tasks/ingest.py] with
      its repositories, [tasks/index_sync.py], the writes of [search/store.py],
      [ingestion/fingerprint.py] and what else works on a document, as programs of atomic
      operations.  [IngestFence]: the theorem about their interleavings.  [Media]:
      [ingestion/media.py], the parser of [llm/openrouter_stt.py] and the checks of the
      transcript repository.  [Stitching], [Transcripts]: the theorems about them.
      [Chunking]: [ingestion/chunking.py].  [Keys]: [storage/keys.py].  [Egress]:
      [net/egress.py], [connectors/web/fetch.py].
    - Runs.  [Cron]: [domain/scheduling.py].  [Runs]: [services/runs_service.py],
      [domain/escalation.py].  [Schedules]: [services/schedules_service.py],
      [tasks/scheduler.py].  [Accounting]: [sandbox/accounting.py].
    - Answers.  [Context]: [llm/context.py].  [Streams]: [realtime/backplane.py],
      [services/chat_stream_access.py], [services/stream_cancellation.py].  [Reasoning]:
      [llm/reasoning_guard.py].  [Gateway]: [llm/gateway.py].  [Grounding]:
      [services/tools/handles.py], [db/evidence_handles.py], [domain/chat.py].  The rest is
      [services/chat_runtime.py]: [ChatStream] (state and wire of an answer), [ChatTurn]
      (one model turn: retries, fail-over), [Answer] (the pure parts: folding tool results,
      selecting and settling the text), [ChatAnswer] (the answer loop), [ChatCommit] (what
      holds when it commits), [ChatRun] ([run] with its error arms), [ChatSettle] (how every
      run settles) and [ChatGuarantees] (the theorems about [run]).

    ** How code is modelled

    A pure function is a Rocq function with the source's name and branches.  A function that
    raises returns [res E A].  Stateful code takes and returns its state: [ToolRunner]
    keeps a log of its effects next to the state; the chat runtime is a computation in a
    state-and-exception monad over the environment [Env], which says at each await how a
    publish or commit ends and whether a Stop, a shutdown or a deadline arrives; uploads
    are computations whose commits and provider calls may fail before or after they took
    effect; ingestion is a tree of atomic operations, each a function of the world's
    answer (a commit that is lost or unknown, a request that fails half done, a heartbeat
    that is due).  Code that other workers interleave with is a step relation with a step for each
    database statement, Redis command or transaction ([Persistence], [Runs], [Streams],
    [Accounting], [Ingest]); an atomic [UPDATE ... WHERE] is one step.  Instants are
    integers (microseconds or milliseconds, as each file says); floats are rationals, rounded
    as binary64 does where the code's arithmetic depends on it ([Media.binary64]).

    ** What is shown

    - Tools: a handler runs only when the call passed every gate, and a write only after a
      durable record bound to its arguments ([handler_only_when_governed],
      [write_tier_needs_durable_intent]); each returning call leaves one result, one trace row
      and its audit events ([returning_run_is_recorded]), in ordinal order under any
      interleaving, and none is left behind ([rows_in_ordinal_order], [drain_completes]).
      Arguments are accepted just when they fit the closed schema, and then hold no
      undeclared field in what it reaches through [properties] and [items]
      ([accepted_arguments_fit]),
      references always resolve or fail in the end ([local_schema_terminates]), and provider
      names round-trip ([tool_names_round_trip]).
    - Answers: whatever fails or stops a run, what the client is told agrees with what is
      stored, texts included when the backplane took every piece of text and retraction
      ([done_is_stored], [cancelled_is_stored], [failure_is_taken_back]), envelopes are in
      order with one terminal ([one_terminal_in_order]), the usage of every event that was
      handled to its end is recorded once ([usage_is_recorded_once]; [stop_drops_a_report]
      shows one that was not), budgets hold ([run_within_budgets]).  Citations stand for
      evidence the model was shown and are read again before they are stored
      ([fold_results_grounded], [cited_evidence_rechecked],
      [concurrent_answers_keep_handles]).
    - Providers: reasoning and internal prompts are kept out of streamed text however it is
      sliced ([guard_is_chunk_independent], [tagged_reasoning_hidden],
      [streamed_text_is_guarded]); tool calls are assembled from their own fragments
      ([tool_calls_are_assembled]); the gateway satisfies the interface [Classified] that
      the theorems about answers assume of a provider ([gateway_is_classified]); embeddings
      are matched to their inputs ([embeddings_in_input_order]).
    - Prompts: an accepted transcript fits ([fit_transcript_fits]).
    - Streams: Redis replay and pub/sub refine one queue ([subscriber_refines_queue]), an
      answer reaches its subscriber whole ([answer_delivered_whole]), and Stop answers only
      the owner with the stream's own end ([stop_acknowledges_terminal]).
    - Reading: the SQL predicate is the documented rule ([document_permitted_iff]), the
      engine's filter agrees with it ([engine_filter_equiv_sql]), and a search returns
      nothing else ([search_returns_permitted]).
    - Documents: uploads stay well formed through crashes and are recovered, the object
      of a document excepted once its deletion was begun
      ([upload_sessions_well_formed], [recovery_completes], [failed_deletion_keeps_the_row]);
      only the owner of an attempt publishes a document, and only when the index shows its
      chunks, releases of documents that await re-embedding apart ([ingestion_is_fenced]); chunks are exact slices that cover the text
      ([chunk_text_exact]); fetches never connect to blocked addresses
      ([fetch_never_connects_inside]).
    - Recordings: the audio plan covers a file ([audio_plan_covers]), what the provider
      answers is checked and survives its checkpoint ([provider_words_checked]), overlapping
      transcriptions are aligned as well as any matching does ([alignment_is_best]) and
      stitched without losing, repeating or inventing a word or merging two speakers
      ([every_utterance_once], [speakers_kept_apart]), names come from what was said
      ([inferred_names_backed]), and the chunks that are searched are exact, timed
      passages of the result ([transcript_is_evidence]).
    - Runs: each ends once ([runs_end_once]), under one worker as long as no owner
      resumes, reroutes or cancels it ([one_worker_per_run], [two_resumes_two_workers]); a
      fire of a schedule passes its gates ([dispatch_gates]), and the next run is the next
      matching minute ([next_run_is_first]); the accounting scripts, over keys that time
      out by their own EXPIRE and TTL arithmetic, refine a reference that may forget what
      is over, and keep each tenant's caps ([redis_refines_memory], [caps_hold]); a lease
      time that shrinks costs half a second ([shrunk_lease_is_lost]).

    ** Fuel and bounds

    Recursion that is not structural has fuel, and a theorem that it is enough or the bound
    that the code has.  [ToolSchema]: [frames] is the interpreter's recursion limit (running
    out is [RecursionError], as in Python); [local_fuel] is the number of references a
    chain can visit before it repeats one.  [Cron.scan]: the minutes of the two-year
    lookahead.  [Context]: one unit for each message.  [ChatTurn.run_attempts]: one for each
    route, the fallbacks and the first.  [Grounding.free_from]: one more than the number of
    taken handles.  [Chunking.chunk_loop]: the length of the text, each window advances.
    [Egress.fetch_hops]: the redirect cap of the code.  [Media]: the audio plan has a span
    for each step of chunk less overlap ([plan_fuel]), the way back through the alignment
    its row and column, a pattern search the length of its text and one; [Ingest.batches]
    the number of chunks.

    ** Parameters and hypotheses

    Third-party and external code is an argument, in a class where several definitions
    share it: [SchemaLib] (jsonschema, with [ValidatorLaws] for its keywords), [Host] (the runner, database and helpers as an answer
    sees them), [Llm] (what a provider streams; [Classified] is discharged by [Gateway]),
    [Vendor] (LiteLLM's helpers, [json], hashing), [Unicode] (case and alphanumerics beyond
    ASCII, with laws of the Unicode tables), [AnswerText] (CommonMark, hashing, URL
    splitting), [MediaHost] (case folding and [float] of a string), [IngestHost] (file
    parsers and their diagnostics, SHA-256, build metadata), Redis in [Accounting] (with its documented command laws and
    key deadlines), DNS and HTTP in
    [Egress], the time-zone database in [Cron].  [usage_is_recorded_once] assumes
    acknowledged commits (a commit that raises has not happened); the findings say why.
    Its reports are those the gateway's stream hands to the runtime; what the gateway
    drops with a faulting stream of the provider is not among them, nor is the usage of
    the suggestions' call, which has a row of its own ([WSuggestionUsage]).

    ** Not modelled

    HTTP routers, request validation and dependency injection; ORM mappings and sessions;
    authentication tokens and password hashing; configuration, logging, tracing and
    metrics; document parsers, FFmpeg and ffprobe (calls into libraries and processes);
    enqueueing of tasks, except as the deliveries it leads to; network clients of
    Google Drive, OAuth, MCP, Docker, object storage and OpenSearch beyond the calls named
    above; the administration services of assistants, collections, groups, grants and
    providers.  Of the chat runtime: the bridges to MCP, the sandbox, artifacts and
    transcripts, the watcher that turns a cancel flag into an interruption, and closing of
    sessions.  The frontend and the migrations are other languages or generated.

    Prelude: notations, the error monad, Python strings and generic lemmas. *)

From stdpp Require Import base list strings pretty sorting sets.
From Stdlib Require Import Lia.

(** ** Scope, identifiers *)

Declare Scope lumen_scope.
Delimit Scope lumen_scope with lumen.

(** UUIDs are 128-bit integers; only their identity matters to the code. *)
Abbreviation uuid := N (only parsing).

(** A Python [str] is a sequence of Unicode code points. *)
Abbreviation pystr := (list N) (only parsing).

(** The code points of an ASCII literal. *)
Definition cp (s : string) : pystr :=
  Ascii.N_of_ascii <$> String.list_ascii_of_string s.
Arguments cp _%_string.

(** ** The error monad

    Python exceptions that the code raises on purpose are values of the error
    type [E]; [Ok] is a normal return. *)

Inductive res (E A : Type) : Type :=
| Ok (a : A)
| Err (e : E).
Arguments Ok {E A} a.
Arguments Err {E A} e.

Global Instance res_ret E : MRet (res E) := fun A a => Ok a.
Global Instance res_bind E : MBind (res E) :=
  fun A B k m => match m with Ok a => k a | Err e => Err e end.
Global Instance res_fmap E : FMap (res E) :=
  fun A B f m => match m with Ok a => Ok (f a) | Err e => Err e end.

Definition is_ok {E A} (m : res E A) : bool :=
  match m with Ok _ => true | Err _ => false end.

(** [guard_or e b k] is [if not b: raise e] followed by [k]. *)
Definition guard_or {E A} (e : E) (b : bool) (k : res E A) : res E A :=
  if b then k else Err e.

Section res_lemmas.
Context {E A B : Type}.

Lemma bind_ok (m : res E A) (k : A -> res E B) b :
  m ≫= k = Ok b <-> exists a, m = Ok a /\ k a = Ok b.
Proof.
  split; [destruct m; simpl; [eauto|discriminate]|].
  by intros (a & -> & ?).
Qed.

Lemma bind_err (m : res E A) (k : A -> res E B) e :
  m ≫= k = Err e <-> m = Err e \/ exists a, m = Ok a /\ k a = Err e.
Proof.
  split.
  - destruct m; simpl; intros H; [right; eauto|left; congruence].
  - by intros [->|(a & -> & ?)].
Qed.

Lemma guard_or_ok (e : E) b (k : res E A) a :
  guard_or e b k = Ok a <-> b = true /\ k = Ok a.
Proof. destruct b; simpl; intuition congruence. Qed.

Lemma guard_or_err (e e' : E) b (k : res E A) :
  guard_or e b k = Err e' <-> (b = false /\ e = e') \/ (b = true /\ k = Err e').
Proof. destruct b; simpl; intuition congruence. Qed.
End res_lemmas.

(** Truthiness of a Python [str | None]: [None] and [""] are both false. *)
Definition truthy (s : option pystr) : bool :=
  match s with Some (_ :: _) => true | _ => false end.

(** [a or b] on strings. *)
Definition str_or (a b : pystr) : pystr := match a with [] => b | _ => a end.

(** Membership of a code point or a string in a finite Python set. *)
Definition mem {A} `{EqDecision A} (x : A) (l : list A) : bool :=
  bool_decide (x ∈ l).

Lemma mem_true {A} `{EqDecision A} (x : A) l : mem x l = true <-> x ∈ l.
Proof. apply bool_decide_eq_true. Qed.

Lemma mem_false {A} `{EqDecision A} (x : A) l : mem x l = false <-> x ∉ l.
Proof. apply bool_decide_eq_false. Qed.

(** ** Python strings *)

(** [str.isspace] of one code point: bidirectional type WS, B or S, or
    category Zs. *)
Definition py_whitespace : list N :=
  [9; 10; 11; 12; 13; 28; 29; 30; 31; 32; 133; 160; 5760;
   8192; 8193; 8194; 8195; 8196; 8197; 8198; 8199; 8200; 8201; 8202;
   8232; 8233; 8239; 8287; 12288]%N.
Definition py_isspace (c : N) : bool := mem c py_whitespace.

Fixpoint drop_while {A} (p : A -> bool) (l : list A) : list A :=
  match l with
  | [] => []
  | x :: l' => if p x then drop_while p l' else l
  end.

(** [s.lstrip()], [s.rstrip()], [s.strip()]. *)
Definition py_lstrip (s : pystr) : pystr := drop_while py_isspace s.
Definition py_rstrip (s : pystr) : pystr := reverse (drop_while py_isspace (reverse s)).
Definition py_strip (s : pystr) : pystr := py_rstrip (py_lstrip s).

(** [not s.strip()] *)
Definition blank (s : pystr) : bool := forallb py_isspace s.

(** [s.startswith(p)], [s.endswith(p)] *)
Fixpoint py_startswith (p s : pystr) : bool :=
  match p, s with
  | [], _ => true
  | _, [] => false
  | a :: p', b :: s' => N.eqb a b && py_startswith p' s'
  end.
Definition py_endswith (p s : pystr) : bool := py_startswith (reverse p) (reverse s).

(** Substring test [a in b]. *)
Fixpoint py_substr (a b : pystr) : bool :=
  py_startswith a b || match b with [] => false | _ :: b' => py_substr a b' end.

(** [sep.join(l)] *)
Fixpoint py_join (sep : pystr) (l : list pystr) : pystr :=
  match l with
  | [] => []
  | [x] => x
  | x :: l' => x ++ sep ++ py_join sep l'
  end.

(** [s.split(c)] on one character. *)
Fixpoint py_split (c : N) (s : pystr) : list pystr :=
  match s with
  | [] => [[]]
  | x :: s' =>
      match py_split c s' with
      | [] => [[x]]
      | w :: ws => if N.eqb x c then [] :: w :: ws else (x :: w) :: ws
      end
  end.

(** [s.partition(c)] on one character: what comes before the first [c], and
    what comes after it when there is one. *)
Fixpoint py_partition (c : N) (s : pystr) : pystr * option pystr :=
  match s with
  | [] => ([], None)
  | x :: s' => if N.eqb x c then ([], Some s')
               else let '(a, b) := py_partition c s' in (x :: a, b)
  end.

(** [s.split()]: the maximal runs of non-whitespace; [w] is the open run. *)
Fixpoint words_from (w s : pystr) : list pystr :=
  match s with
  | [] => match w with [] => [] | _ => [w] end
  | c :: s' =>
      if py_isspace c then match w with [] => words_from [] s' | _ => w :: words_from [] s' end
      else words_from (w ++ [c]) s'
  end.
Definition py_words (s : pystr) : list pystr := words_from [] s.

(** The order of Python strings: lexicographic on code points. *)
Fixpoint str_leb (a b : pystr) : bool :=
  match a, b with
  | [], _ => true
  | _, [] => false
  | x :: a', y :: b' => if N.eqb x y then str_leb a' b' else N.ltb x y
  end.

(** [sorted(l, key=...)]: a stable sort by insertion. *)
Fixpoint py_insert {A} (leb : A -> A -> bool) (x : A) (l : list A) : list A :=
  match l with
  | [] => [x]
  | y :: l' => if leb x y then x :: l else y :: py_insert leb x l'
  end.
Fixpoint py_sorted {A} (leb : A -> A -> bool) (l : list A) : list A :=
  match l with
  | [] => []
  | x :: l' => py_insert leb x (py_sorted leb l')
  end.

(** ** Automation *)

Create Rewrite HintDb lumen.
#[export] Hint Rewrite @mem_true @mem_false andb_true_iff andb_false_iff
  orb_true_iff orb_false_iff negb_true_iff negb_false_iff
  bool_decide_eq_true bool_decide_eq_false : lumen.

(** Turn boolean facts into propositions, everywhere. *)
Ltac to_prop := repeat (progress autorewrite with lumen in *).

(** Case analysis on the innermost scrutinee of the goal, keeping equations. *)
Ltac break_goal :=
  match goal with
  | |- context [match ?x with _ => _ end] =>
      lazymatch x with context [match _ with _ => _ end] => fail | _ => idtac end;
      let E := fresh "E" in destruct x eqn:E
  end.
Ltac break_hyp H :=
  match type of H with
  | context [match ?x with _ => _ end] =>
      lazymatch x with context [match _ with _ => _ end] => fail | _ => idtac end;
      let E := fresh "E" in destruct x eqn:E
  end.

(** ** Lemmas on Python strings *)

Lemma drop_while_all {A} (p : A -> bool) l : forallb p l = true -> drop_while p l = [].
Proof. induction l as [|x l IH]; simpl; [done|]. destruct (p x); simpl; naive_solver. Qed.

Lemma drop_while_nil {A} (p : A -> bool) l : drop_while p l = [] <-> forallb p l = true.
Proof.
  split; [|apply drop_while_all].
  induction l as [|x l IH]; simpl; [done|]. destruct (p x); simpl; naive_solver.
Qed.

Lemma drop_while_head {A} (p : A -> bool) l x l' :
  drop_while p l = x :: l' -> p x = false.
Proof. induction l as [|y l IH]; simpl; [done|]. destruct (p y) eqn:E; naive_solver. Qed.

Lemma drop_while_suffix {A} (p : A -> bool) l :
  exists l', l = l' ++ drop_while p l /\ forallb p l' = true.
Proof.
  induction l as [|x l IH]; [by exists []|]. simpl. destruct (p x) eqn:E.
  - destruct IH as (l' & Hl & Hp). exists (x :: l'). simpl. rewrite E, Hp, <-Hl. done.
  - by exists [].
Qed.

Lemma forallb_reverse {A} (p : A -> bool) l : forallb p (reverse l) = forallb p l.
Proof.
  induction l as [|x l IH]; [done|].
  rewrite reverse_cons, forallb_app, IH. simpl. destruct (p x), (forallb p l); done.
Qed.

Lemma blank_strip s : blank s = true <-> py_strip s = [].
Proof.
  unfold blank, py_strip, py_rstrip, py_lstrip. split.
  - intros H. by rewrite (drop_while_all _ _ H).
  - intros H. apply (f_equal reverse) in H. rewrite reverse_involutive in H.
    apply drop_while_nil in H. rewrite forallb_reverse in H.
    destruct (drop_while_suffix py_isspace s) as (l' & Hl & Hp).
    by rewrite Hl, forallb_app, Hp, H.
Qed.

Lemma py_startswith_spec p s : py_startswith p s = true <-> p `prefix_of` s.
Proof.
  revert s. induction p as [|a p IH]; intros s; simpl.
  - split; [intros _; by apply prefix_nil|done].
  - destruct s as [|b s]; simpl.
    + split; [done|]. intros H. by apply prefix_nil_not in H.
    + rewrite andb_true_iff, N.eqb_eq, IH. split.
      * intros [-> ?]. by apply prefix_cons.
      * intros H. split; [by eapply prefix_cons_inv_1|by eapply prefix_cons_inv_2].
Qed.

(** ** Lemmas on sorting *)

Section sorting.
Context {A : Type} (leb : A -> A -> bool).

Lemma py_insert_perm x l : py_insert leb x l ≡ₚ x :: l.
Proof.
  induction l as [|y l IH]; simpl; [done|]. destruct (leb x y); [done|].
  rewrite IH. apply perm_swap.
Qed.

Lemma py_sorted_perm l : py_sorted leb l ≡ₚ l.
Proof.
  induction l as [|x l IH]; simpl; [done|]. by rewrite py_insert_perm, IH.
Qed.

Lemma py_insert_sorted (Htot : forall a b, leb a b = true \/ leb b a = true) x l :
  Sorted (fun a b => leb a b = true) l ->
  Sorted (fun a b => leb a b = true) (py_insert leb x l).
Proof.
  induction 1 as [|y l Hl IH Hhd]; simpl; [by repeat constructor|].
  destruct (leb x y) eqn:E; [by repeat constructor|].
  constructor; [done|]. destruct l as [|z l]; simpl; [constructor; destruct (Htot x y); congruence|].
  destruct (leb x z); constructor; [destruct (Htot x y); congruence|by inversion Hhd].
Qed.

Lemma py_sorted_sorted (Htot : forall a b, leb a b = true \/ leb b a = true) l :
  Sorted (fun a b => leb a b = true) (py_sorted leb l).
Proof. induction l; simpl; [constructor|by apply py_insert_sorted]. Qed.

Lemma elem_of_py_sorted x l : x ∈ py_sorted leb l <-> x ∈ l.
Proof. by rewrite py_sorted_perm. Qed.
End sorting.

Lemma str_leb_refl a : str_leb a a = true.
Proof. induction a; simpl; [done|]. by rewrite N.eqb_refl. Qed.

Lemma str_leb_antisym a b : str_leb a b = true -> str_leb b a = true -> a = b.
Proof.
  revert b. induction a as [|x a IH]; intros [|y b]; simpl; try done.
  rewrite (N.eqb_sym y x). destruct (N.eqb_spec x y) as [->|].
  - intros. f_equal. by apply IH.
  - rewrite !N.ltb_lt. lia.
Qed.

Lemma str_leb_total a b : str_leb a b = true \/ str_leb b a = true.
Proof.
  revert b. induction a as [|x a IH]; intros [|y b]; simpl; try (by left); try (by right).
  rewrite (N.eqb_sym y x). destruct (N.eqb_spec x y) as [->|]; [apply IH|].
  rewrite !N.ltb_lt. lia.
Qed.

Lemma str_leb_trans a b c : str_leb a b = true -> str_leb b c = true -> str_leb a c = true.
Proof.
  revert b c. induction a as [|x a IH]; intros [|y b] [|z c]; simpl; try done.
  destruct (N.eqb_spec x y), (N.eqb_spec y z), (N.eqb_spec x z);
    rewrite ?N.ltb_lt; subst; eauto; lia.
Qed.

(** [sorted(set(l))] depends only on the set. *)
Lemma py_sorted_set (l l' : list pystr) :
  (forall x, x ∈ l <-> x ∈ l') ->
  py_sorted str_leb (remove_dups l) = py_sorted str_leb (remove_dups l').
Proof.
  intros Hl. eapply (StronglySorted_unique_strong (fun a b => str_leb a b = true)).
  - intros ?? _ _. apply str_leb_antisym.
  - apply Sorted_StronglySorted, py_sorted_sorted, str_leb_total. exact str_leb_trans.
  - apply Sorted_StronglySorted, py_sorted_sorted, str_leb_total. exact str_leb_trans.
  - rewrite !py_sorted_perm. apply NoDup_Permutation; [apply NoDup_remove_dups..|].
    intros x. by rewrite !elem_of_remove_dups.
Qed.

(** Monadic map and fold over a list. *)
Fixpoint mapR {E A B} (f : A -> res E B) (l : list A) : res E (list B) :=
  match l with
  | [] => Ok []
  | x :: l => y ← f x; ys ← mapR f l; Ok (y :: ys)
  end.
Fixpoint foldR {E A S} (f : S -> A -> res E S) (s : S) (l : list A) : res E S :=
  match l with [] => Ok s | x :: l => s' ← f s x; foldR f s' l end.

Lemma mapR_ok {E A B} (f : A -> res E B) l l' y :
  mapR f l = Ok l' -> y ∈ l' -> exists x, x ∈ l /\ f x = Ok y.
Proof.
  revert l'. induction l as [|x l IH]; intros l' Hm Hy; simpl in Hm.
  - simplify_eq. by apply elem_of_nil in Hy.
  - apply bind_ok in Hm as (z & Hz & (zs & Hzs & [= <-])%bind_ok).
    apply elem_of_cons in Hy as [->|Hy]; [exists x; set_solver|].
    destruct (IH zs Hzs Hy) as (x' & Hx & ?). exists x'. set_solver.
Qed.

Lemma mapR_Forall2 {E A B} (f : A -> res E B) l l' :
  mapR f l = Ok l' <-> Forall2 (fun x y => f x = Ok y) l l'.
Proof.
  revert l'. induction l as [|x l IH]; intros l'; simpl.
  - split; [intros [= <-]; constructor|]. by intros ->%Forall2_nil_inv_l.
  - rewrite bind_ok. split.
    + intros (y & Hy & (ys & Hys & [= <-])%bind_ok). constructor; [done|by apply IH].
    + intros (y & ys & Hy & Hys & ->)%Forall2_cons_inv_l. exists y. split; [done|].
      apply bind_ok. exists ys. split; [by apply IH|done].
Qed.

Lemma mapR_elem {E A B} (f : A -> res E B) l l' x :
  mapR f l = Ok l' -> x ∈ l -> exists y, f x = Ok y /\ y ∈ l'.
Proof.
  revert l'. induction l as [|x' l IH]; intros l' Hm Hx; [by apply elem_of_nil in Hx|].
  simpl in Hm. apply bind_ok in Hm as (z & Hz & (zs & Hzs & [= <-])%bind_ok).
  apply elem_of_cons in Hx as [->|Hx]; [exists z; set_solver|].
  destruct (IH zs Hzs Hx) as (y & ? & ?). exists y. set_solver.
Qed.

(** ** Lemmas on lists *)

(** An element that cannot be in [A] occurs in [A ++ B] only after all of [A]. *)
Lemma split_after {T} (P : T -> Prop) A B pre x post :
  A ++ B = pre ++ x :: post -> Forall (fun y => ~ P y) A -> P x ->
  exists mid, pre = A ++ mid /\ B = mid ++ x :: post.
Proof.
  revert pre. induction A as [|a A IH]; intros pre Heq HA Hx; simpl in *; [by exists pre|].
  apply Forall_cons in HA as [Ha HA]. destruct pre as [|p pre]; simplify_eq/=; [done|].
  destruct (IH pre) as (mid & -> & ->); eauto.
Qed.

Lemma forallb_take {A} (p : A -> bool) n l : forallb p l = true -> forallb p (take n l) = true.
Proof.
  intros Hl. rewrite <-(take_drop n l), forallb_app in Hl. by apply andb_true_iff in Hl as [? _].
Qed.

(** ** Substrings *)

Lemma py_substr_spec a b : py_substr a b = true <-> exists x y, b = x ++ a ++ y.
Proof.
  revert a. induction b as [|c b IH]; intros a; simpl.
  - rewrite orb_false_r, py_startswith_spec. split.
    + intros [y Hy]. by exists [], y.
    + intros (x & y & Hy). symmetry in Hy. apply app_nil in Hy as [-> Hy]. by exists y.
  - rewrite orb_true_iff, py_startswith_spec, IH. split.
    + intros [[y Hy]|(x & y & ->)]; [by exists [], y|by exists (c :: x), y].
    + intros ([|c' x] & y & Hy); simplify_eq/=; [left; by exists y|right; by exists x, y].
Qed.

Lemma py_substr_nil b : py_substr [] b = true.
Proof. by destruct b. Qed.

Lemma py_substr_app a b x y : py_substr a b = true -> py_substr a (x ++ b ++ y) = true.
Proof.
  rewrite !py_substr_spec. intros (u & v & ->). exists (x ++ u), (v ++ y). by rewrite <-!app_assoc.
Qed.

Lemma py_substr_bind a (l : list pystr) (f : pystr -> pystr) :
  a ∈ l -> py_substr a (f a) = true -> py_substr a (l ≫= f) = true.
Proof.
  intros Ha Hf. apply list_elem_of_split in Ha as (l1 & l2 & ->).
  rewrite bind_app, bind_cons. by apply py_substr_app.
Qed.
