(* ===== verification/Json.v ===== *)
(** * JSON values

    The values Python's [json] decodes and that tool arguments, tool payloads
    and stored evidence are made of ([dict[str, Any]]).  A Python [dict] keeps
    insertion order and has unique keys; it is an association list here and
    [dict_get]/[dict_set] are its reads and writes. *)

From stdpp Require Import base list strings sets.
From Stdlib Require Import QArith Bool.
From S2P Require Import Prelude.

Inductive json : Type :=
| JNull
| JBool (b : bool)
| JInt (n : Z)
| JFloat (q : Q)
| JStr (s : pystr)
| JArr (l : list json)
| JObj (kvs : list (pystr * json)).

(** Decidable equality of bindings, given one of values. *)
Definition prod_eq_dec_with {V} (f : forall x y : V, {x = y} + {x <> y})
    (p q : pystr * V) : {p = q} + {p <> q}.
Proof.
  destruct p as [k v], q as [k' v'].
  destruct (List.list_eq_dec N.eq_dec k k'), (f v v'); [left|right..]; congruence.
Defined.

Global Instance json_eq_dec : EqDecision json.
Proof.
  unfold EqDecision, Decision. fix go 1.
  intros [|b|n|[qn qd]|s|l|kvs] [|b'|n'|[qn' qd']|s'|l'|kvs']; try (right; congruence).
  - by left.
  - destruct (bool_dec b b'); [left|right]; congruence.
  - destruct (Z.eq_dec n n'); [left|right]; congruence.
  - destruct (Z.eq_dec qn qn'), (Pos.eq_dec qd qd'); [left|right..]; congruence.
  - destruct (List.list_eq_dec N.eq_dec s s'); [left|right]; congruence.
  - destruct (List.list_eq_dec go l l'); [left|right]; congruence.
  - destruct (List.list_eq_dec (prod_eq_dec_with go) kvs kvs'); [left|right]; congruence.
Defined.

(** Python [==] on decoded values: numbers (and booleans) compare by value,
    lists by position, dicts by their bindings whatever their order. *)
Definition json_number (j : json) : option Q :=
  match j with
  | JBool b => Some (if b then 1 else 0)%Q
  | JInt n => Some (inject_Z n)
  | JFloat q => Some q
  | _ => None
  end.

Fixpoint py_eq (a b : json) : bool :=
  match a, b with
  | JNull, JNull => true
  | JStr s, JStr t => bool_decide (s = t)
  | JArr l, JArr l' =>
      (fix go l l' := match l, l' with
        | [], [] => true
        | x :: l, y :: l' => py_eq x y && go l l'
        | _, _ => false
        end) l l'
  | JObj d, JObj d' =>
      Nat.eqb (length d) (length d') &&
      forallb (fun '(k, v) =>
        match List.find (fun p => bool_decide (p.1 = k)) d' with
        | Some (_, w) => py_eq v w
        | None => false
        end) d
  | _, _ =>
      match json_number a, json_number b with
      | Some p, Some q => Qeq_bool p q
      | _, _ => false
      end
  end.

(** [dict[str, Any]] *)
Abbreviation dict := (list (pystr * json)) (only parsing).

(** ** Reading and writing a dict *)

(** [d.get(k)] as an option: the first binding of [k]. *)
Fixpoint dict_get {V} (k : pystr) (d : list (pystr * V)) : option V :=
  match d with
  | [] => None
  | (k', v) :: d' => if decide (k = k') then Some v else dict_get k d'
  end.

(** [d[k] = v]: an existing key keeps its place. *)
Fixpoint dict_set {V} (k : pystr) (v : V) (d : list (pystr * V)) : list (pystr * V) :=
  match d with
  | [] => [(k, v)]
  | (k', v') :: d' =>
      if decide (k = k') then (k', v) :: d' else (k', v') :: dict_set k v d'
  end.

(** Python truth value testing on a decoded JSON value. *)
Definition json_truthy (j : json) : bool :=
  match j with
  | JNull => false
  | JBool b => b
  | JInt n => negb (Z.eqb n 0)
  | JFloat q => negb (Qeq_bool q 0)
  | JStr s => match s with [] => false | _ => true end
  | JArr l => match l with [] => false | _ => true end
  | JObj l => match l with [] => false | _ => true end
  end.

Section dict_lemmas.
Context {V : Type}.
Implicit Types (d : list (pystr * V)) (k : pystr) (v : V).

Lemma dict_get_set_eq k v d : dict_get k (dict_set k v d) = Some v.
Proof.
  induction d as [|[k' v'] d IH]; simpl; [by rewrite decide_True|].
  case_decide as E; simpl; [by rewrite decide_True|by rewrite decide_False].
Qed.

Lemma dict_get_set_ne k k' v d :
  k <> k' -> dict_get k (dict_set k' v d) = dict_get k d.
Proof.
  intros Hne. induction d as [|[k2 v2] d IH]; simpl; [by rewrite decide_False|].
  case_decide as E; simpl; [subst; by rewrite !decide_False|].
  case_decide; [done|apply IH].
Qed.

Lemma dict_get_In k v d : dict_get k d = Some v -> (k, v) ∈ d.
Proof.
  induction d as [|[k' v'] d IH]; simpl; [done|].
  case_decide; [|set_solver]. intros [= ->]. subst. set_solver.
Qed.

Lemma dict_get_none k d : dict_get k d = None <-> k ∉ d.*1.
Proof.
  induction d as [|[k' v] d IH]; simpl; [set_solver|].
  case_decide as E; [subst; set_solver|]. rewrite IH. set_solver.
Qed.

Lemma dict_set_fresh k v d : dict_get k d = None -> dict_set k v d = d ++ [(k, v)].
Proof.
  induction d as [|[k' v'] d IH]; simpl; [done|].
  case_decide; [done|]. intros Hn. by rewrite IH.
Qed.

Lemma dict_get_elem k v d : NoDup d.*1 -> dict_get k d = Some v <-> (k, v) ∈ d.
Proof.
  intros Hnd. split; [apply dict_get_In|].
  induction d as [|[k' v'] d IH]; simpl in *; [set_solver|].
  apply NoDup_cons in Hnd as [Hni Hnd]. intros [[= <- <-]|Hin]%elem_of_cons.
  - by rewrite decide_True.
  - rewrite decide_False; [by apply IH|]. intros ->. apply Hni.
    by apply (list_elem_of_fmap_2 fst) in Hin.
Qed.

Lemma dict_get_app k d d' :
  dict_get k (d ++ d') = match dict_get k d with Some v => Some v | None => dict_get k d' end.
Proof. induction d as [|[k' v] d IH]; simpl; [done|]. by case_decide. Qed.
End dict_lemmas.

(** [d.pop(k, None)] *)
Definition dict_pop {V} (k : pystr) (d : list (pystr * V)) : list (pystr * V) :=
  filter (fun p => p.1 <> k) d.

(** [{**d, **e}] *)
Definition dict_merge {V} (d e : list (pystr * V)) : list (pystr * V) :=
  foldl (fun d p => dict_set p.1 p.2 d) d e.

Definition dict_has {V} (k : pystr) (d : list (pystr * V)) : bool :=
  match dict_get k d with Some _ => true | None => false end.

Lemma dict_get_pop_ne {V} k k' (d : list (pystr * V)) :
  k <> k' -> dict_get k (dict_pop k' d) = dict_get k d.
Proof.
  intros Hne. unfold dict_pop. induction d as [|[k2 v2] d IH]; [done|].
  rewrite filter_cons. simpl. case_decide; simpl.
  - case_decide; [done|apply IH].
  - rewrite decide_False by naive_solver. apply IH.
Qed.

Lemma dict_get_pop_eq {V} k (d : list (pystr * V)) : dict_get k (dict_pop k d) = None.
Proof.
  unfold dict_pop. induction d as [|[k2 v2] d IH]; [done|].
  rewrite filter_cons. simpl. case_decide; simpl; [|apply IH].
  rewrite decide_False by naive_solver. apply IH.
Qed.

(** An induction principle that reaches the values inside lists and dicts. *)
Section json_ind.
Variable P : json -> Prop.
Hypothesis Hnull : P JNull.
Hypothesis Hbool : forall b, P (JBool b).
Hypothesis Hint : forall n, P (JInt n).
Hypothesis Hfloat : forall q, P (JFloat q).
Hypothesis Hstr : forall s, P (JStr s).
Hypothesis Harr : forall l, Forall P l -> P (JArr l).
Hypothesis Hobj : forall d, Forall (fun p => P p.2) d -> P (JObj d).

Fixpoint json_nested_ind (j : json) : P j :=
  match j with
  | JNull => Hnull
  | JBool b => Hbool b
  | JInt n => Hint n
  | JFloat q => Hfloat q
  | JStr s => Hstr s
  | JArr l => Harr l
      ((fix go l : Forall P l :=
          match l with
          | [] => Forall_nil_2 _
          | x :: l => Forall_cons_2 _ _ _ (json_nested_ind x) (go l)
          end) l)
  | JObj d => Hobj d
      ((fix go d : Forall (fun p => P p.2) d :=
          match d with
          | [] => Forall_nil_2 _
          | x :: d => Forall_cons_2 _ _ _ (json_nested_ind x.2) (go d)
          end) d)
  end.
End json_ind.

Lemma dict_get_pop {V} (k k' : pystr) (d : list (pystr * V)) v :
  dict_get k (dict_pop k' d) = Some v -> dict_get k d = Some v.
Proof.
  destruct (decide (k = k')) as [->|Hne]; [by rewrite dict_get_pop_eq|].
  by rewrite dict_get_pop_ne.
Qed.
