(* ===== verification/ToolSchema.v ===== *)
(** * Tool argument schemas

    [backend/app/domain/tool_schema.py]: the closed projection of a tool's JSON
    schema ([_composed], [_closed], [strict_schema]), the legacy-omission
    normalisation of a model's arguments ([legacy_arguments]) and the validation
    that stands between them and a handler ([validate_arguments]).

    The [jsonschema] validator is a parameter ([SchemaLib]).  Python recursion
    is bounded by the interpreter's frame limit: [frames] is that bound, and a
    call that exhausts it raises [RecursionError], which the code catches with
    every other [Exception]; a cyclic [$ref] ends there.  Dicts have unique keys
    and values are immutable here, so [deepcopy] is the identity. *)

From stdpp Require Import base list strings sets.
From Stdlib Require Import Lia.
From S2P Require Import Prelude Json.

(** ** Python built-ins on decoded values *)

(** Why a schema computation stops: a [SchemaError] or any other [Exception]. *)
Inductive sexn : Type := ESchema | EOther.

(** [list(x)], [for _ in x] *)
Definition py_iter (x : json) : res sexn (list json) :=
  match x with
  | JArr l => Ok l
  | JStr s => Ok ((fun c => JStr [c]) <$> s)
  | JObj d => Ok ((fun p => JStr p.1) <$> d)
  | _ => Err EOther
  end.

(** [x.items()], [x.get(...)]: only a dict has them. *)
Definition py_items (x : json) : res sexn (list (pystr * json)) :=
  match x with JObj d => Ok d | _ => Err EOther end.

(** [set(x)]: every element must be hashable. *)
Definition py_hashable (x : json) : bool :=
  match x with JArr _ | JObj _ => false | _ => true end.
Definition py_set (x : json) : res sexn (list json) :=
  l ← py_iter x; if forallb py_hashable l then Ok l else Err EOther.

(** [x in l] for a list [l] *)
Definition py_mem (x : json) (l : list json) : bool := existsb (py_eq x) l.

(** [x in c] for any container [c] *)
Definition py_in (x c : json) : res sexn bool :=
  match c with
  | JArr l => Ok (py_mem x l)
  | JStr s => match x with JStr t => Ok (py_substr t s) | _ => Err EOther end
  | JObj d => if py_hashable x
      then Ok (match x with JStr k => dict_has k d | _ => false end) else Err EOther
  | _ => Err EOther
  end.

Definition get_or (k : pystr) (d : dict) (default : json) : json :=
  match dict_get k d with Some v => v | None => default end.

(** [s.replace(ab, c)] for a two-character [ab]. *)
Fixpoint py_replace2 (a b c : N) (s : pystr) : pystr :=
  match s with
  | x :: ((y :: s') as t) =>
      if N.eqb x a && N.eqb y b then c :: py_replace2 a b c s' else x :: py_replace2 a b c t
  | _ => s
  end.

(** [dict(x)]: a dict, or a sequence of pairs.  A pair whose key is not a string
    would give a value outside JSON; it is refused. *)
Definition py_pair (x : json) : res sexn (pystr * json) :=
  match x with
  | JArr [JStr k; v] => Ok (k, v)
  | JStr [a; b] => Ok ([a], JStr [b])
  | JObj [(k, _); (k', _)] => Ok (k, JStr k')
  | _ => Err EOther
  end.
Definition py_dict (x : json) : res sexn dict :=
  match x with
  | JObj d => Ok d
  | _ => l ← py_iter x; kvs ← mapR py_pair l; Ok (dict_merge [] kvs)
  end.

(** ** The validator library *)

(** One validation error, with the attributes the message uses: the absolute
    path (its parts as strings), the failed keyword, the keyword's value, the
    instance and the schema it was checked against. *)
Record schema_violation := mk_violation {
  ve_path : list pystr;
  ve_validator : pystr;
  ve_value : json;
  ve_instance : json;
  ve_schema : dict
}.

(** [Draft202012Validator] with an empty registry. *)
Class SchemaLib := {
  frames : nat;                                      (** frames left to Python recursion *)
  check_schema : dict -> bool;                       (** [check_schema] returns *)
  is_valid : dict -> dict -> json -> res sexn bool;  (** root, evolved schema, instance *)
  iter_errors : dict -> dict -> res sexn (list schema_violation);  (** schema, arguments *)
  json_str : json -> pystr                           (** [str(value)] *)
}.

(** ** Shape tests *)

Definition _object_schema (schema : dict) : bool :=
  match dict_get (cp "type") schema with
  | Some (JStr s) => bool_decide (s = cp "object")
  | Some (JArr l) => py_mem (JStr (cp "object")) l
  | _ => false
  end || dict_has (cp "properties") schema.

Definition ref_is_remote (node : dict) (key : pystr) : bool :=
  match dict_get key node with
  | Some (JStr ref) => negb (py_startswith (cp "#") ref)
  | _ => false
  end.

Fixpoint _remote_reference (node : json) : bool :=
  match node with
  | JArr l => existsb _remote_reference l
  | JObj d => ref_is_remote d (cp "$ref") || ref_is_remote d (cp "$dynamicRef")
      || existsb (fun p => _remote_reference p.2) d
  | _ => false
  end.

(** ** Local references *)

(** One JSON pointer step. *)
Definition pointer_step (target : json) (part : pystr) : json :=
  let key := py_replace2 126 48 126 (py_replace2 126 49 47 part) in
  match target with
  | JObj d => match dict_get key d with Some v => v | None => JNull end
  | _ => JNull
  end.

(** The node's local reference, when it has one. *)
Definition local_ref (node : dict) : option pystr :=
  match dict_get (cp "$ref") node with
  | Some (JStr ref) => if py_startswith (cp "#/") ref then Some ref else None
  | _ => None
  end.

(** The loop of [_local_schema]. *)
Fixpoint local_loop (fuel : nat) (visited : list pystr) (node root : dict) : option dict :=
  match fuel with
  | O => None
  | S fuel =>
      match local_ref node with
      | None => Some node
      | Some ref =>
          if mem ref visited then Some node
          else match foldl pointer_step (JObj root) (py_split 47 (drop 2 ref)) with
               | JObj target =>
                   local_loop fuel (ref :: visited)
                     (dict_merge target (dict_pop (cp "$ref") node)) root
               | _ => Some node
               end
      end
  end.

(** The strings of a value: every local reference met is one of them. *)
Fixpoint json_strings (j : json) : list pystr :=
  match j with
  | JStr s => [s]
  | JArr l => l ≫= json_strings
  | JObj d => d ≫= (fun p => json_strings p.2)
  | _ => []
  end.

(** Iterations that suffice: each consumes a string of the root or the node's own. *)
Definition local_fuel (root : dict) : nat := 3 + length (json_strings (JObj root)).

Definition _local_schema (node root : dict) : dict :=
  match local_loop (local_fuel root) [] node root with Some d => d | None => node end.

(** ** Composition of [allOf] *)

(** [properties[name] = child], intersecting with an earlier declaration. *)
Definition merge_property (properties : dict) (p : pystr * json) : dict :=
  match dict_get p.1 properties with
  | Some old => dict_set p.1 (JObj [(cp "allOf", JArr [old; p.2])]) properties
  | None => dict_set p.1 p.2 properties
  end.

(** [required.extend(name for name in ... if name not in required)] *)
Definition extend_required (required : list json) (names : list json) : list json :=
  foldl (fun req name => if py_mem name req then req else req ++ [name]) required names.

(** Does a fragment close or pattern its own scope? *)
Definition scoped_fragment (fragment : dict) : bool :=
  dict_has (cp "additionalProperties") fragment
  || dict_has (cp "patternProperties") fragment
  || dict_has (cp "unevaluatedProperties") fragment.

(** What the branch loop accumulates. *)
Record composing := mk_composing {
  co_properties : dict;
  co_required : list json;
  co_fragments : list json;
  co_object : bool
}.

(** One object branch, already composed. *)
Definition add_fragment (c : composing) (fragment : dict) : res sexn composing :=
  items ← py_items (get_or (cp "properties") fragment (JObj []));
  names ← py_iter (get_or (cp "required") fragment (JArr []));
  let fragment' := if scoped_fragment fragment then fragment
    else dict_pop (cp "required") (dict_pop (cp "properties") fragment) in
  Ok (mk_composing
        (foldl merge_property (co_properties c) items)
        (extend_required (co_required c) names)
        (match fragment' with [] => co_fragments c | _ => co_fragments c ++ [JObj fragment'] end)
        (co_object c || _object_schema fragment)).

(** The assignments that end [_composed]. *)
Definition store_composed (schema : dict) (c : composing) : dict :=
  let result := match co_properties c, co_object c with
    | [], false => schema
    | _, _ => dict_set (cp "properties") (JObj (co_properties c)) schema
    end in
  let result := match co_required c with
    | [] => result
    | _ => dict_set (cp "required") (JArr (co_required c)) result
    end in
  match co_fragments c with
  | [] => dict_pop (cp "allOf") result
  | _ => dict_set (cp "allOf") (JArr (co_fragments c)) result
  end.

Fixpoint _composed (fuel : nat) (schema root : dict) : res sexn dict :=
  match fuel with
  | O => Err EOther
  | S fuel =>
      match dict_get (cp "allOf") schema with
      | Some (JArr branches) =>
          properties ← py_dict (get_or (cp "properties") schema (JObj []));
          required ← py_iter (get_or (cp "required") schema (JArr []));
          c ← foldR (fun c branch =>
            match branch with
            | JObj b => fragment ← _composed fuel (_local_schema b root) root; add_fragment c fragment
            | _ => Ok (mk_composing (co_properties c) (co_required c)
                         (co_fragments c ++ [branch]) (co_object c))
            end) (mk_composing properties required [] false) branches;
          Ok (store_composed schema c)
      | _ => Ok schema
      end
  end.

(** ** Closing *)

Definition DICT_KEYS : list pystr :=
  [cp "$defs"; cp "definitions"; cp "properties"; cp "patternProperties"].
Definition SCHEMA_KEYS : list pystr :=
  [cp "items"; cp "not"; cp "if"; cp "then"; cp "else"; cp "contains"].
Definition LIST_KEYS : list pystr := [cp "anyOf"; cp "oneOf"; cp "allOf"; cp "prefixItems"].

(** Apply [f] to the subschemas of one value; what is not a dict stays. *)
Definition close_value (f : dict -> res sexn dict) (v : json) : res sexn json :=
  match v with JObj d => r ← f d; Ok (JObj r) | _ => Ok v end.

(** The three loops over the keyword groups, on [result[key]]. *)
Definition close_dict_key (f : dict -> res sexn dict) (result : dict) (key : pystr)
    : res sexn dict :=
  match dict_get key result with
  | Some (JObj d) =>
      d' ← mapR (fun p => v ← close_value f p.2; Ok (p.1, v)) d;
      Ok (dict_set key (JObj d') result)
  | _ => Ok result
  end.
Definition close_schema_key (f : dict -> res sexn dict) (result : dict) (key : pystr)
    : res sexn dict :=
  match dict_get key result with
  | Some (JObj d) => d' ← f d; Ok (dict_set key (JObj d') result)
  | _ => Ok result
  end.
Definition close_list_key (f : bool -> dict -> res sexn dict) (result : dict) (key : pystr)
    : res sexn dict :=
  match dict_get key result with
  | Some (JArr l) =>
      l' ← mapR (close_value (f (negb (bool_decide (key = cp "allOf"))))) l;
      Ok (dict_set key (JArr l') result)
  | _ => Ok result
  end.

(** An optional property of a strict schema admits null. *)
Definition nullable (v : json) : json :=
  JObj [(cp "anyOf", JArr [v; JObj [(cp "type", JStr (cp "null"))]])].

(** The closing assignments of an object schema. *)
Definition close_object_schema (strict : bool) (result : dict) : res sexn dict :=
  let result := dict_set (cp "additionalProperties") (JBool false) result in
  if strict then
    required ← py_set (get_or (cp "required") result (JArr []));
    properties ← py_items (get_or (cp "properties") result (JObj []));
    let properties := (fun p =>
      (p.1, if py_mem (JStr p.1) required then p.2 else nullable p.2)) <$> properties in
    Ok (dict_set (cp "required") (JArr ((fun p => JStr p.1) <$> properties))
         (dict_set (cp "properties") (JObj properties) result))
  else Ok result.

Fixpoint _closed (fuel : nat) (schema root : dict) (strict close_object : bool)
    : res sexn dict :=
  match fuel with
  | O => Err EOther
  | S fuel =>
      result ← _composed fuel schema root;
      result ← foldR (close_dict_key (fun d => _closed fuel d root strict true)) result DICT_KEYS;
      result ← foldR (close_schema_key (fun d => _closed fuel d root strict true)) result SCHEMA_KEYS;
      result ← foldR (close_list_key (fun c d => _closed fuel d root strict c)) result LIST_KEYS;
      let result := if strict then dict_pop (cp "default") result else result in
      if close_object && _object_schema result then close_object_schema strict result
      else Ok result
  end.

(** ** Messages *)

Definition INVALID_SCHEMA : pystr :=
  cp "Tool schema is invalid; ask an administrator to repair it.".
Definition REMOTE_SCHEMA : pystr :=
  cp "Tool schema uses an unsupported remote reference; ask an administrator to repair it.".
Definition INVALID_REFERENCE : pystr :=
  cp "Tool schema reference is invalid; ask an administrator to repair it.".

(** ** Placeholders *)

Definition _PLACEHOLDERS : list json := [JStr []; JStr (cp "null"); JArr []].

Definition _placeholder (value schema : json) (root : dict) : res sexn bool :=
  if negb (mem value _PLACEHOLDERS) then Ok false
  else
    let schema := match schema with JObj d => _local_schema d root | _ => [] end in
    named ← py_in value (get_or (cp "enum") schema (JArr []));
    Ok (negb named && match dict_get (cp "const") schema with
                      | Some c => negb (py_eq c value)
                      | None => true
                      end).

(** [prefix[index] if index < len(prefix) else items] *)
Definition item_schema (prefix : json) (items : option json) (index : nat)
    : res sexn (option json) :=
  match prefix with
  | JArr l => Ok (match l !! index with Some s => Some s | None => items end)
  | JStr s => Ok (match s !! index with Some c => Some (JStr [c]) | None => items end)
  | JObj d => if index <? length d then Err EOther else Ok items
  | _ => Err EOther
  end%nat.

(** ** Legacy omission *)

Section schema.
Context `{SchemaLib}.

(** One binding of an argument dict: [None] when it is omitted. *)
Definition legacy_binding (rec : json -> dict -> res sexn json) (root schema : dict)
    (required : list json) (placeholders : bool) (p : pystr * json)
    : res sexn (option (pystr * json)) :=
  properties ← py_items (get_or (cp "properties") schema (JObj []));
  let child := dict_get p.1 properties in
  let optional := dict_has p.1 properties && negb (py_mem (JStr p.1) required) in
  omit ← ((if negb optional then Ok false
          else if bool_decide (p.2 = JNull) then Ok true
          else if negb placeholders then Ok false
          else _placeholder p.2 (match child with Some c => c | None => JNull end) root)
          : res sexn bool);
  if omit : bool then Ok None
  else match child with
       | Some (JObj c) => v ← rec p.2 c; Ok (Some (p.1, v))
       | _ => Ok (Some p)
       end.

(** The items of an argument list. *)
Fixpoint legacy_items (rec : json -> dict -> res sexn json) (prefix : json)
    (items : option json) (index : nat) (l : list json) : res sexn (list json) :=
  match l with
  | [] => Ok []
  | x :: l =>
      child ← item_schema prefix items index;
      x' ← (match child with Some (JObj c) => rec x c | _ => Ok x end : res sexn json);
      l' ← legacy_items rec prefix items (S index) l;
      Ok (x' :: l')
  end.

(** The first branch whose candidate is valid wins. *)
Fixpoint legacy_branches (rec : json -> dict -> res sexn json)
    (close : dict -> res sexn dict) (root : dict) (result : json) (branches : list json)
    : res sexn json :=
  match branches with
  | [] => Ok result
  | JObj branch :: branches =>
      candidate ← rec result branch;
      closed_root ← close root;
      closed_branch ← close branch;
      valid ← is_valid closed_root closed_branch candidate;
      if valid : bool then Ok candidate else legacy_branches rec close root result branches
  | _ :: branches => legacy_branches rec close root result branches
  end.

Fixpoint _legacy_value (fuel : nat) (root : dict) (placeholders : bool) (value : json)
    (schema : dict) : res sexn json :=
  match fuel with
  | O => Err EOther
  | S fuel =>
      schema ← _composed fuel (_local_schema schema root) root;
      let rec := _legacy_value fuel root placeholders in
      result ← (match value with
        | JObj kvs =>
            required ← py_set (get_or (cp "required") schema (JArr []));
            kvs' ← mapR (legacy_binding rec root schema required placeholders) kvs;
            Ok (JObj (omap id kvs'))
        | JArr l =>
            l' ← legacy_items rec (get_or (cp "prefixItems") schema (JArr []))
                   (dict_get (cp "items") schema) 0 l;
            Ok (JArr l')
        | _ => Ok value
        end : res sexn json);
      foldR (fun result key =>
        branches ← py_iter (get_or key schema (JArr []));
        legacy_branches rec (fun d => _closed fuel d root false true) root result branches)
        result [cp "anyOf"; cp "oneOf"]
  end.

(** [_legacy_arguments]: the assertion holds of every dict (below). *)
Definition _legacy_arguments (arguments schema root : dict) (placeholders : bool)
    : res sexn dict :=
  result ← _legacy_value frames root placeholders (JObj arguments) schema;
  match result with JObj d => Ok d | _ => Err EOther end.

Definition schema_error (schema : dict) : option pystr :=
  if _remote_reference (JObj schema) then Some REMOTE_SCHEMA
  else if check_schema schema then None else Some INVALID_SCHEMA.

Definition legacy_arguments (arguments schema : dict) (omit_placeholders : bool) : dict :=
  match schema_error schema with
  | Some _ => arguments
  | None => match _legacy_arguments arguments schema schema omit_placeholders with
            | Ok d => d
            | Err _ => arguments
            end
  end.

Definition strict_schema (schema : dict) : res pystr dict :=
  match schema_error schema with
  | Some configuration_error => Err configuration_error
  | None => match _closed frames schema schema true true with
            | Ok d => Ok d
            | Err _ => Err INVALID_SCHEMA
            end
  end.

(** ** Validation *)

(** The order of [(path, validator)] keys. *)
Fixpoint strs_leb (a b : list pystr) : bool :=
  match a, b with
  | [], _ => true
  | _, [] => false
  | x :: a', y :: b' => if decide (x = y) then strs_leb a' b' else str_leb x y
  end.
Definition violation_leb (a b : schema_violation) : bool :=
  if decide (ve_path a = ve_path b) then str_leb (ve_validator a) (ve_validator b)
  else strs_leb (ve_path a) (ve_path b).

(** [min(errors, key=...)]: the first of the least. *)
Fixpoint min_violation (e : schema_violation) (l : list schema_violation) : schema_violation :=
  match l with
  | [] => e
  | x :: l => min_violation (if violation_leb e x then e else x) l
  end.

Definition json_keys (j : json) : list pystr :=
  match j with JObj d => fst <$> d | JArr l => omap (fun x => match x with JStr s => Some s | _ => None end) l | _ => [] end.

Definition BOUND_KEYWORDS : list pystr :=
  [cp "type"; cp "enum"; cp "minimum"; cp "maximum"; cp "minLength"; cp "maxLength";
   cp "minItems"; cp "maxItems"].

Definition describe_violation (error : schema_violation) : pystr :=
  let path := str_or (py_join (cp ".") (ve_path error)) (cp "arguments") in
  let constraint := ve_validator error in
  let '(path, detail) :=
    if decide (constraint = cp "required") then
      let missing := filter (fun k => k ∉ json_keys (ve_instance error)) (json_keys (ve_value error)) in
      (path, cp "provide required field(s) " ++ py_join (cp ", ") missing)
    else if decide (constraint = cp "additionalProperties") then
      let declared := json_keys (get_or (cp "properties") (ve_schema error) (JObj [])) in
      let extras := py_sorted str_leb
        (filter (fun k => k ∉ declared) (json_keys (ve_instance error))) in
      (match extras with e :: _ => path ++ cp "." ++ take 80 e | [] => path end,
       cp "remove unknown properties; use only the advertised fields")
    else if mem constraint BOUND_KEYWORDS then
      (path, cp "must satisfy " ++ constraint ++ cp " " ++ json_str (ve_value error))
    else (path, cp "must satisfy " ++ constraint ++ cp "; check the advertised schema") in
  cp "Invalid " ++ path ++ cp ": " ++ detail ++ cp ". Correct the arguments and retry.".

Definition argument_errors (arguments schema : dict) : res sexn (list schema_violation) :=
  closed ← _closed frames schema schema false true;
  if check_schema closed then iter_errors closed arguments else Err ESchema.

Definition validate_arguments (arguments schema : dict) : option pystr :=
  match schema_error schema with
  | Some configuration_error => Some configuration_error
  | None =>
      match argument_errors arguments schema with
      | Err ESchema => Some INVALID_SCHEMA
      | Err EOther => Some INVALID_REFERENCE
      | Ok [] => None
      | Ok (e :: errors) => Some (describe_violation (min_violation e errors))
      end
  end.
End schema.

(** ** Local references terminate *)

Definition strings_of (d : dict) : list pystr := json_strings (JObj d).

Lemma strings_get (k : pystr) (d : dict) v s :
  dict_get k d = Some v -> s ∈ json_strings v -> s ∈ strings_of d.
Proof.
  intros Hg Hs. apply dict_get_In in Hg. apply list_elem_of_bind. by exists (k, v).
Qed.

Lemma pointer_strings parts (t : json) s :
  s ∈ json_strings (foldl pointer_step t parts) -> s ∈ json_strings t.
Proof.
  revert t. induction parts as [|p parts IH]; intros t; simpl; [done|].
  intros Hs%IH. destruct t; simpl in Hs; try by apply elem_of_nil in Hs.
  destruct (dict_get _ kvs) eqn:E; [by eapply strings_get|by apply elem_of_nil in Hs].
Qed.

Lemma local_ref_string (d : dict) ref :
  local_ref d = Some ref -> dict_get (cp "$ref") d = Some (JStr ref).
Proof.
  unfold local_ref. destruct (dict_get _ d) as [[]|]; try done.
  destruct (py_startswith _ _); congruence.
Qed.

Lemma dict_get_foldl_ne (k : pystr) (e d : dict) :
  dict_get k e = None -> dict_get k (dict_merge d e) = dict_get k d.
Proof.
  unfold dict_merge. revert d. induction e as [|[k' v] e IH]; intros d; simpl; [done|].
  case_decide; [done|]. intros Hn. rewrite IH by done. by apply dict_get_set_ne.
Qed.

Lemma local_loop_total fuel visited node root :
  NoDup visited ->
  (forall r, local_ref node = Some r -> r ∈ visited \/ visited = [] \/ r ∈ strings_of root) ->
  (forall r, r ∈ visited -> r ∈ strings_of root \/ last visited = Some r) ->
  length (strings_of root) + 2 <= fuel + length visited ->
  0 < fuel ->
  is_Some (local_loop fuel visited node root).
Proof.
  revert visited node. induction fuel as [|fuel IH]; [lia|].
  intros visited node Hnd Hnode Hvis Hlen _. simpl.
  destruct (local_ref node) as [ref|] eqn:Eref; [|eauto].
  destruct (mem ref visited) eqn:Emem; [eauto|].
  destruct (foldl pointer_step (JObj root) (py_split 47 (drop 2 ref))) as [| | | | | |target] eqn:Et;
    eauto.
  apply mem_false in Emem.
  assert (length (ref :: visited) <= 1 + length (strings_of root)) as Hbound.
  { destruct visited as [|v0 vs0]; [simpl; lia|].
    destruct (Hnode ref eq_refl) as [?|[?|Hr]]; [done|done|].
    assert (exists l0, last (v0 :: vs0) = Some l0) as [l0 Hl0] by (by apply last_is_Some).
    assert (NoDup (ref :: v0 :: vs0)) as Hnd' by (by apply NoDup_cons).
    transitivity (length (l0 :: strings_of root)); [|simpl; lia].
    apply submseteq_length, NoDup_submseteq; [done|].
    intros x [->|Hx]%elem_of_cons; [by right|].
    apply elem_of_cons. destruct (Hvis x Hx) as [|Hl]; [by right|left; congruence]. }
  apply IH; simpl in *; try lia.
  - by apply NoDup_cons.
  - intros r Hr%local_ref_string.
    rewrite dict_get_foldl_ne in Hr by apply dict_get_pop_eq. right. right.
    eapply (pointer_strings (py_split 47 (drop 2 ref)) (JObj root)). rewrite Et.
    eapply strings_get; [done|]. by apply list_elem_of_singleton.
  - intros r [->|Hr]%elem_of_cons.
    + destruct visited as [|v0 vs0]; [by right|].
      destruct (Hnode ref eq_refl) as [?|[?|?]]; [done|done|by left].
    + destruct (Hvis r Hr) as [|Hl]; [by left|]. right.
      destruct visited; [by apply elem_of_nil in Hr|done].
Qed.

Lemma local_loop_mono n m visited node root d :
  local_loop n visited node root = Some d -> n <= m -> local_loop m visited node root = Some d.
Proof.
  revert m visited node. induction n as [|n IH]; intros m visited node Hl Hm; [done|].
  destruct m as [|m]; [lia|]. cbn [local_loop] in *.
  destruct (local_ref node); [|done]. destruct (mem _ _); [done|].
  destruct (foldl _ _ _); try done. apply IH; [done|lia].
Qed.

(** ** Closed schemas

    [subschema_at k v c d]: the value [v] of keyword [k] holds the subschema
    [d]; [c] says whether its object closes itself ([allOf] fragments leave
    that to the schema that composes them).  These are the positions that are
    closed; a [$ref] that points elsewhere and the remaining keywords of JSON
    Schema ([additionalProperties], [unevaluatedItems], [dependentSchemas], ...)
    are not. *)
Inductive subschema_at (k : pystr) : json -> bool -> dict -> Prop :=
| sub_dict e n d :
    k ∈ [cp "$defs"; cp "definitions"; cp "properties"; cp "patternProperties"] ->
    (n, JObj d) ∈ e -> subschema_at k (JObj e) true d
| sub_schema d :
    k ∈ [cp "items"; cp "not"; cp "if"; cp "then"; cp "else"; cp "contains"] ->
    subschema_at k (JObj d) true d
| sub_list l d :
    k ∈ [cp "anyOf"; cp "oneOf"; cp "allOf"; cp "prefixItems"] -> JObj d ∈ l ->
    subschema_at k (JArr l) (negb (bool_decide (k = cp "allOf"))) d.

(** An object schema that admits only what it declares, and in strict mode
    requires all of it. *)
Definition object_closed (strict : bool) (s : dict) : Prop :=
  dict_get (cp "additionalProperties") s = Some (JBool false) /\
  (strict = true -> exists properties,
    dict_get (cp "properties") s = Some (JObj properties) /\
    dict_get (cp "required") s = Some (JArr ((fun p => JStr p.1) <$> properties))).

(** Closed at every depth. *)
Inductive closed_schema (strict : bool) : bool -> dict -> Prop :=
| closed_intro c s :
    (c = true -> _object_schema s = true -> object_closed strict s) ->
    (forall k v c' d, dict_get k s = Some v -> subschema_at k v c' d ->
                      closed_schema strict c' d) ->
    closed_schema strict c s.

(** The subschemas under one keyword are closed. *)
Definition closed_key (strict : bool) (k : pystr) (s : dict) : Prop :=
  forall v c d, dict_get k s = Some v -> subschema_at k v c d -> closed_schema strict c d.

(** The keyword groups do not overlap. *)
Lemma dict_keys_only k : k ∈ DICT_KEYS -> k ∉ SCHEMA_KEYS /\ k ∉ LIST_KEYS.
Proof. revert k. apply Forall_forall, (bool_decide_unpack _). by vm_compute. Qed.
Lemma schema_keys_only k : k ∈ SCHEMA_KEYS -> k ∉ DICT_KEYS /\ k ∉ LIST_KEYS.
Proof. revert k. apply Forall_forall, (bool_decide_unpack _). by vm_compute. Qed.
Lemma list_keys_only k : k ∈ LIST_KEYS -> k ∉ DICT_KEYS /\ k ∉ SCHEMA_KEYS.
Proof. revert k. apply Forall_forall, (bool_decide_unpack _). by vm_compute. Qed.

Lemma foldR_keys (step : dict -> pystr -> res sexn dict) (P : pystr -> dict -> Prop) keys s s' :
  (forall s k s', k ∈ keys -> step s k = Ok s' ->
     P k s' /\ forall k', k' <> k -> dict_get k' s' = dict_get k' s) ->
  (forall s s' k, dict_get k s' = dict_get k s -> P k s -> P k s') ->
  NoDup keys -> foldR step s keys = Ok s' ->
  (forall k, k ∈ keys -> P k s') /\ (forall k, k ∉ keys -> dict_get k s' = dict_get k s).
Proof.
  intros Hstep Hext. revert s. induction keys as [|k keys IH]; intros s Hnd Hf; simpl in Hf.
  - simplify_eq. split; [|done]. by intros k ?%elem_of_nil.
  - apply bind_ok in Hf as (s1 & H1 & Hf). apply NoDup_cons in Hnd as [Hk Hnd].
    destruct (Hstep s k s1) as [HP Hother]; [by left|done|].
    destruct (IH ltac:(intros ????; apply Hstep; by right) s1 Hnd Hf) as [HPs Hrest]. split.
    + intros k' [->|?]%elem_of_cons; [|by apply HPs]. eapply Hext; [by apply Hrest|done].
    + intros k' [Hne ?]%not_elem_of_cons. rewrite Hrest, Hother by done. done.
Qed.

Section closing.
Context (strict : bool) (f : bool -> dict -> res sexn dict).
Hypothesis f_closed : forall c d r, f c d = Ok r -> closed_schema strict c r.

Lemma close_value_ok c v d : close_value (f c) v = Ok (JObj d) -> closed_schema strict c d.
Proof.
  intros Hv. destruct v; cbn in Hv; try discriminate Hv.
  apply bind_ok in Hv as (r & Hr & [= <-]). by eapply f_closed.
Qed.

Lemma close_dict_key_ok s k s' :
  k ∈ DICT_KEYS -> close_dict_key (f true) s k = Ok s' ->
  closed_key strict k s' /\ forall k', k' <> k -> dict_get k' s' = dict_get k' s.
Proof.
  intros Hk Hs. destruct (dict_keys_only k Hk) as [Hks Hkl].
  unfold close_dict_key in Hs. destruct (dict_get k s) as [[]|] eqn:E; simplify_eq;
    try (split; [|done]; intros v c d; rewrite E; intros [= <-]; by inversion 1).
  apply bind_ok in Hs as (d' & Hm & [= <-]). split; [|by intros; apply dict_get_set_ne].
  intros v c d. rewrite dict_get_set_eq. intros [= <-]. inversion 1; subst.
  2:{ match goal with H : k ∈ _ :: _ |- _ => destruct (Hks H) end. }
  eapply mapR_ok in Hm as (x & _ & Hx); [|done]. apply bind_ok in Hx as (w & Hw & ?).
  simplify_eq. by eapply close_value_ok.
Qed.

Lemma close_schema_key_ok s k s' :
  k ∈ SCHEMA_KEYS -> close_schema_key (f true) s k = Ok s' ->
  closed_key strict k s' /\ forall k', k' <> k -> dict_get k' s' = dict_get k' s.
Proof.
  intros Hk Hs. destruct (schema_keys_only k Hk) as [Hkd Hkl].
  unfold close_schema_key in Hs. destruct (dict_get k s) as [[]|] eqn:E; simplify_eq;
    try (split; [|done]; intros v c d; rewrite E; intros [= <-]; by inversion 1).
  apply bind_ok in Hs as (d' & Hm & [= <-]). split; [|by intros; apply dict_get_set_ne].
  intros v c d. rewrite dict_get_set_eq. intros [= <-]. inversion 1; subst; [done|].
  by eapply f_closed.
Qed.

Lemma close_list_key_ok s k s' :
  k ∈ LIST_KEYS -> close_list_key f s k = Ok s' ->
  closed_key strict k s' /\ forall k', k' <> k -> dict_get k' s' = dict_get k' s.
Proof.
  intros Hk Hs. destruct (list_keys_only k Hk) as [Hkd Hks].
  unfold close_list_key in Hs. destruct (dict_get k s) as [[]|] eqn:E; simplify_eq;
    try (split; [|done]; intros v c d; rewrite E; intros [= <-]; by inversion 1).
  apply bind_ok in Hs as (d' & Hm & [= <-]). split; [|by intros; apply dict_get_set_ne].
  intros v c d. rewrite dict_get_set_eq. intros [= <-]. inversion 1; subst.
  eapply mapR_ok in Hm as (x & _ & Hx); [|done]. by eapply close_value_ok.
Qed.
End closing.

(** Every keyword that holds subschemas. *)
Lemma subschema_key k v c d :
  subschema_at k v c d -> k ∈ DICT_KEYS \/ k ∈ SCHEMA_KEYS \/ k ∈ LIST_KEYS.
Proof. inversion 1; subst; auto. Qed.

Lemma closed_schema_keys strict c s :
  (forall k, k ∈ DICT_KEYS \/ k ∈ SCHEMA_KEYS \/ k ∈ LIST_KEYS -> closed_key strict k s) ->
  (c = true -> _object_schema s = true -> object_closed strict s) ->
  closed_schema strict c s.
Proof.
  intros Hk Hc. constructor; [done|]. intros k v c' d Hg Hs.
  by eapply Hk; [eapply subschema_key| |].
Qed.

(** A keyword that holds no subschema leaves the others' closure alone. *)
Lemma closed_key_ext strict k s s' :
  dict_get k s' = dict_get k s -> closed_key strict k s -> closed_key strict k s'.
Proof. intros He Hk v c d. rewrite He. apply Hk. Qed.

Definition plain_key (k : pystr) : Prop :=
  k ∉ DICT_KEYS /\ k ∉ SCHEMA_KEYS /\ k ∉ LIST_KEYS.

Lemma plain_ne k k' :
  plain_key k -> k' ∈ DICT_KEYS \/ k' ∈ SCHEMA_KEYS \/ k' ∈ LIST_KEYS -> k' <> k.
Proof. intros (?&?&?) Hk ->. naive_solver. Qed.

Lemma properties_key : cp "properties" ∈ DICT_KEYS.
Proof. apply (bool_decide_unpack _). by vm_compute. Qed.
Lemma items_key : cp "items" ∈ SCHEMA_KEYS.
Proof. apply (bool_decide_unpack _). by vm_compute. Qed.
Lemma plain_key_default : plain_key (cp "default").
Proof. apply (bool_decide_unpack _). by vm_compute. Qed.
Lemma plain_key_additional : plain_key (cp "additionalProperties").
Proof. apply (bool_decide_unpack _). by vm_compute. Qed.
Lemma plain_key_required : plain_key (cp "required").
Proof. apply (bool_decide_unpack _). by vm_compute. Qed.

Lemma closed_leaf strict (d : dict) :
  Forall (fun p => plain_key p.1 /\ p.1 <> cp "properties") d ->
  dict_get (cp "type") d = Some (JStr (cp "null")) -> closed_schema strict true d.
Proof.
  intros Hd Ht. constructor.
  - unfold _object_schema. rewrite Ht, bool_decide_false by done. simpl.
    unfold dict_has. destruct (dict_get (cp "properties") d) eqn:E; [|done].
    apply dict_get_In in E. rewrite Forall_forall in Hd.
    by destruct (Hd _ E) as [_ Hne].
  - intros k v c e Hg Hs%subschema_key. apply dict_get_In in Hg.
    rewrite Forall_forall in Hd. destruct (Hd _ Hg) as [(?&?&?) _]. naive_solver.
Qed.

Lemma nullable_closed strict v d :
  nullable v = JObj d ->
  (forall e, v = JObj e -> closed_schema strict true e) -> closed_schema strict true d.
Proof.
  intros [= <-] Hv. constructor; [done|]. intros k w c e Hg Hs.
  apply dict_get_In, list_elem_of_singleton in Hg as [= -> ->].
  inversion Hs as [| |l d' _ Hin]; subst. apply elem_of_cons in Hin as [<-|Hin].
  - by apply Hv.
  - apply list_elem_of_singleton in Hin as [= ->]. apply closed_leaf; [|done].
    constructor; [|constructor]. apply (bool_decide_unpack _). by vm_compute.
Qed.

Lemma get_or_set_ne k k' v (d : dict) default :
  k <> k' -> get_or k (dict_set k' v d) default = get_or k d default.
Proof. intros. unfold get_or. by rewrite dict_get_set_ne. Qed.

(** The properties read with the default [{}]. *)
Lemma get_or_items k (d : dict) l p :
  py_items (get_or k d (JObj [])) = Ok l -> p ∈ l -> dict_get k d = Some (JObj l).
Proof.
  unfold get_or. destruct (dict_get k d) as [v|]; simpl.
  - destruct v; simpl; congruence.
  - intros [= <-] Hp. by apply elem_of_nil in Hp.
Qed.

(** The closing assignments touch no subschema but the nullable properties. *)
Lemma close_object_schema_ok strict s r :
  (forall k, k ∈ DICT_KEYS \/ k ∈ SCHEMA_KEYS \/ k ∈ LIST_KEYS -> closed_key strict k s) ->
  close_object_schema strict s = Ok r -> closed_schema strict true r.
Proof.
  intros Hs Hr. unfold close_object_schema in Hr. destruct strict.
  - apply bind_ok in Hr as (required & _ & (props & Hprops & [= <-])%bind_ok).
    rewrite get_or_set_ne in Hprops by done.
    set (props' := _ <$> props).
    apply closed_schema_keys.
    + intros k Hk. destruct (decide (k = cp "properties")) as [->|Hne].
      * intros v c d. rewrite dict_get_set_ne, dict_get_set_eq by done. intros [= <-].
        inversion 1 as [e n d' _ Hin|d' Hsk|]; subst;
          [|exfalso; by apply (proj1 (schema_keys_only _ Hsk)), properties_key].
        apply list_elem_of_fmap in Hin as ([n' w] & [= -> Hw] & Hin). simpl in Hw.
        assert (forall e', w = JObj e' -> closed_schema true true e') as Hcl.
        { intros e' ->. eapply (Hs (cp "properties")); [auto using properties_key|by eapply get_or_items|].
          eapply sub_dict; [apply properties_key|done]. }
        case_match; [by apply Hcl|]. by eapply nullable_closed.
      * eapply closed_key_ext; [|by apply Hs].
        pose proof (plain_ne _ _ plain_key_additional Hk).
        pose proof (plain_ne _ _ plain_key_required Hk). by rewrite !dict_get_set_ne.
    + intros _ _. split.
      * rewrite !dict_get_set_ne by done. apply dict_get_set_eq.
      * intros _. exists props'. split; [|apply dict_get_set_eq].
        rewrite dict_get_set_ne by done. apply dict_get_set_eq.
  - simplify_eq. apply closed_schema_keys.
    + intros k Hk. eapply closed_key_ext; [|by apply Hs].
      apply dict_get_set_ne. by apply (plain_ne _ _ plain_key_additional Hk).
    + intros _ _. split; [apply dict_get_set_eq|done].
Qed.

Lemma keys_nodup : NoDup DICT_KEYS /\ NoDup SCHEMA_KEYS /\ NoDup LIST_KEYS.
Proof. apply (bool_decide_unpack _). by vm_compute. Qed.

(** What [_closed] returns is closed at every depth, for any frame limit. *)
Lemma closed_spec `{SchemaLib} fuel s root strict c r :
  _closed fuel s root strict c = Ok r -> closed_schema strict c r.
Proof.
  revert s c r. induction fuel as [|fuel IH]; intros s c r; [done|].
  cbn [_closed]. destruct keys_nodup as (Hd & Hs & Hl).
  intros (s0 & _ & (s1 & H1 & (s2 & H2 & (s3 & H3 & Hr)%bind_ok)%bind_ok)%bind_ok)%bind_ok.
  pose (f := fun c d => _closed fuel d root strict c).
  assert (forall c d r, f c d = Ok r -> closed_schema strict c r) as Hf
    by (intros c' d r' Hr'; exact (IH d c' r' Hr')).
  destruct (foldR_keys _ (closed_key strict) _ _ _ (close_dict_key_ok strict f Hf)
              (fun s s' k => closed_key_ext strict k s s') Hd H1) as [K1 _].
  destruct (foldR_keys _ (closed_key strict) _ _ _ (close_schema_key_ok strict f Hf)
              (fun s s' k => closed_key_ext strict k s s') Hs H2) as [K2 E2].
  destruct (foldR_keys _ (closed_key strict) _ _ _ (close_list_key_ok strict f Hf)
              (fun s s' k => closed_key_ext strict k s s') Hl H3) as [K3 E3].
  set (s4 := if strict then dict_pop (cp "default") s3 else s3) in *.
  assert (forall k, k ∈ DICT_KEYS \/ k ∈ SCHEMA_KEYS \/ k ∈ LIST_KEYS ->
                    closed_key strict k s4) as Hk.
  { intros k Hk. eapply (closed_key_ext _ _ s3).
    { unfold s4. destruct strict; [|done].
      apply dict_get_pop_ne. by apply (plain_ne _ _ plain_key_default Hk). }
    destruct Hk as [Hk|[Hk|Hk]]; [| |by apply K3].
    - destruct (dict_keys_only _ Hk). eapply closed_key_ext; [by apply E3|].
      eapply closed_key_ext; [by apply E2|by apply K1].
    - destruct (schema_keys_only _ Hk). eapply closed_key_ext; [by apply E3|by apply K2]. }
  destruct (c && _object_schema s4) eqn:Ec.
  - apply andb_true_iff in Ec as [-> _]. by eapply close_object_schema_ok.
  - simplify_eq. apply closed_schema_keys; [done|]. intros -> Ho. by rewrite Ho in Ec.
Qed.

(** ** What normalisation may change

    [pruned ph v v']: [v'] is [v] without some null (with [ph], placeholder)
    entries of its dicts; nothing else differs. *)
Definition omittable (ph : bool) (v : json) : Prop :=
  v = JNull \/ (ph = true /\ v ∈ _PLACEHOLDERS).

Create HintDb pruned.

Inductive pruned (ph : bool) : json -> json -> Prop :=
| pr_same v : pruned ph v v
| pr_arr l l' : Forall2 (pruned ph) l l' -> pruned ph (JArr l) (JArr l')
| pr_obj d d' : pruned_dict ph d d' -> pruned ph (JObj d) (JObj d')
with pruned_dict (ph : bool) : dict -> dict -> Prop :=
| pd_nil : pruned_dict ph [] []
| pd_keep k v v' d d' : pruned ph v v' -> pruned_dict ph d d' ->
    pruned_dict ph ((k, v) :: d) ((k, v') :: d')
| pd_drop k v d d' : omittable ph v -> pruned_dict ph d d' ->
    pruned_dict ph ((k, v) :: d) d'.

#[local] Hint Constructors pruned pruned_dict : pruned.

Lemma pruned_dict_refl ph d : pruned_dict ph d d.
Proof. induction d as [|[k v] d IH]; eauto with pruned. Qed.

Lemma pruned_obj_inv ph d d' : pruned ph (JObj d) (JObj d') -> pruned_dict ph d d'.
Proof. inversion 1; subst; [apply pruned_dict_refl|done]. Qed.

Lemma omittable_pruned ph v v' : pruned ph v v' -> omittable ph v' -> omittable ph v.
Proof.
  intros Hp [->|[-> Hin]]; [left; by inversion Hp|].
  unfold _PLACEHOLDERS in Hin. rewrite !elem_of_cons in Hin.
  destruct Hin as [->|[->|[->|?%elem_of_nil]]]; [..|done];
    (inversion Hp as [|l l' Hl|]; subst; [right; split; [done|]; set_solver|..]).
  apply Forall2_nil_inv_r in Hl as ->. right. split; [done|]. set_solver.
Qed.

Lemma pruned_dict_trans ph d d' d'' :
  Forall (fun p => forall y z, pruned ph p.2 y -> pruned ph y z -> pruned ph p.2 z) d ->
  pruned_dict ph d d' -> pruned_dict ph d' d'' -> pruned_dict ph d d''.
Proof.
  intros Hd Hp. revert d''. induction Hp as [|k v v' d d' Hv Hp IH|k v d d' Ho Hp IH];
    intros d'' Hq; [done| |]; apply Forall_cons in Hd as [Hk Hd].
  - inversion Hq; subst; [constructor; [by eapply Hk|by apply IH]|].
    apply pd_drop; [by eapply omittable_pruned|by apply IH].
  - apply pd_drop; [done|by apply IH].
Qed.

Lemma pruned_list_trans ph l l' l'' :
  Forall (fun x => forall y z, pruned ph x y -> pruned ph y z -> pruned ph x z) l ->
  Forall2 (pruned ph) l l' -> Forall2 (pruned ph) l' l'' -> Forall2 (pruned ph) l l''.
Proof.
  intros Hl Hp. revert l''. induction Hp as [|x y l l' Hxy Hp IH]; intros l'' Hq;
    inversion Hq; subst; [done|]. apply Forall_cons in Hl as [Hx Hl].
  constructor; [by eapply Hx|by apply IH].
Qed.

Lemma pruned_trans ph x y z : pruned ph x y -> pruned ph y z -> pruned ph x z.
Proof.
  revert y z. induction x as [| | | | |l IH|d IH] using json_nested_ind; intros y z Hxy Hyz;
    inversion Hxy; subst; try done.
  - inversion Hyz; subst; [done|]. constructor. by eapply pruned_list_trans.
  - inversion Hyz; subst; [done|]. constructor. by eapply pruned_dict_trans.
Qed.

Section legacy.
Context `{SchemaLib}.

Lemma placeholder_omittable v s root : _placeholder v s root = Ok true -> v ∈ _PLACEHOLDERS.
Proof. unfold _placeholder. destruct (mem v _) eqn:E; [by apply mem_true in E|done]. Qed.

Section rec.
Context (ph : bool) (root : dict) (rec : json -> dict -> res sexn json).
Hypothesis rec_pruned : forall v s r, rec v s = Ok r -> pruned ph v r.

Lemma legacy_binding_ok s required p o :
  legacy_binding rec root s required ph p = Ok o ->
  match o with
  | None => omittable ph p.2
  | Some p' => p'.1 = p.1 /\ pruned ph p.2 p'.2
  end.
Proof.
  unfold legacy_binding. intros (props & _ & (omit & Ho & Hr)%bind_ok)%bind_ok.
  destruct omit.
  - simplify_eq. destruct (negb _); [done|]. case_bool_decide; [by left|].
    destruct ph; simpl in Ho; [|done]. right. split; [done|]. by eapply placeholder_omittable.
  - destruct (dict_get p.1 props) as [[]|]; simplify_eq; try (split; [done|constructor]).
    apply bind_ok in Hr as (v & Hv & [= <-]). split; [done|]. by eapply rec_pruned.
Qed.

Lemma legacy_bindings_ok s required kvs os :
  mapR (legacy_binding rec root s required ph) kvs = Ok os -> pruned_dict ph kvs (omap id os).
Proof.
  revert os. induction kvs as [|[k v] kvs IH]; intros os Hm; cbn in Hm; [simplify_eq; constructor|].
  apply bind_ok in Hm as (o & Ho%legacy_binding_ok & (os' & Hos & [= <-])%bind_ok).
  destruct o as [[k' v']|]; simpl in *; [destruct Ho as [-> ?]|]; constructor; auto.
Qed.

Lemma legacy_items_ok prefix items l i l' :
  legacy_items rec prefix items i l = Ok l' -> Forall2 (pruned ph) l l'.
Proof.
  revert i l'. induction l as [|x l IH]; intros i l' Hm; cbn in Hm; [simplify_eq; constructor|].
  apply bind_ok in Hm as (child & _ & (x' & Hx & (l2 & Hl & [= <-])%bind_ok)%bind_ok).
  constructor; [|by eapply IH].
  destruct child as [[]|]; simplify_eq; try constructor. by eapply rec_pruned.
Qed.

Lemma legacy_branches_ok close result branches r :
  legacy_branches rec close root result branches = Ok r -> pruned ph result r.
Proof.
  induction branches as [|b branches IH]; cbn; [intros [= ->]; constructor|].
  destruct b; try exact IH.
  intros (c & Hc & (? & _ & (? & _ & (valid & _ & Hr)%bind_ok)%bind_ok)%bind_ok)%bind_ok.
  destruct valid; [|by apply IH]. simplify_eq. by eapply rec_pruned.
Qed.
End rec.

Lemma legacy_value_ok fuel root ph v s r :
  _legacy_value fuel root ph v s = Ok r -> pruned ph v r.
Proof.
  revert v s r. induction fuel as [|fuel IH]; intros v s r; [done|]. cbn [_legacy_value].
  intros (s' & _ & (v1 & Hv & Hr)%bind_ok)%bind_ok. cbn [foldR] in Hr.
  apply bind_ok in Hr as (v2 & (b1 & _ & H1)%bind_ok & (v3 & (b2 & _ & H2)%bind_ok & [= <-])%bind_ok).
  apply (pruned_trans ph v v1); [|apply (pruned_trans ph v1 v2)];
    [|by eapply legacy_branches_ok..].
  destruct v; simplify_eq; try constructor.
  - apply bind_ok in Hv as (l' & Hl & [= <-]). constructor. by eapply legacy_items_ok.
  - apply bind_ok in Hv as (req & _ & (kvs' & Hk & [= <-])%bind_ok). constructor.
    by eapply legacy_bindings_ok.
Qed.
Lemma legacy_arguments_cases arguments schema ph :
  legacy_arguments arguments schema ph = arguments \/
  _legacy_value frames schema ph (JObj arguments) schema
    = Ok (JObj (legacy_arguments arguments schema ph)).
Proof.
  unfold legacy_arguments, _legacy_arguments. destruct (schema_error schema); [by left|].
  destruct (_legacy_value _ _ _ _ _) as [[]|]; simpl; auto.
Qed.

(** The value of a required field of a schema without alternatives stays. *)
Lemma legacy_value_required fuel root ph kvs s s' required r name v :
  _composed fuel (_local_schema s root) root = Ok s' ->
  dict_get (cp "anyOf") s' = None -> dict_get (cp "oneOf") s' = None ->
  dict_get (cp "required") s' = Some (JArr required) -> JStr name ∈ required ->
  (name, v) ∈ kvs -> _legacy_value (S fuel) root ph (JObj kvs) s = Ok (JObj r) ->
  exists v', (name, v') ∈ r /\ pruned ph v v'.
Proof.
  intros Hs Ha Ho Hreq Hin Hkv. cbn [_legacy_value]. rewrite Hs.
  assert (get_or (cp "required") s' (JArr []) = JArr required) as Hr1
    by (unfold get_or; by rewrite Hreq).
  assert (get_or (cp "anyOf") s' (JArr []) = JArr []) as Ha1 by (unfold get_or; by rewrite Ha).
  assert (get_or (cp "oneOf") s' (JArr []) = JArr []) as Ho1 by (unfold get_or; by rewrite Ho).
  cbn [mbind res_bind foldR]. rewrite Hr1, Ha1, Ho1.
  intros (v1 & Hv & Hr)%bind_ok. cbn in Hr. simplify_eq. apply bind_ok in Hv as (req & Hset & (kvs' & Hm & [= <-])%bind_ok).
  unfold py_set in Hset. simpl in Hset. case_match; simplify_eq.
  destruct (mapR_elem _ _ _ _ Hm Hkv) as (o & Hob & Hoin).
  assert (exists p', o = Some p') as [p' ->].
  { unfold legacy_binding in Hob. apply bind_ok in Hob as (props & _ & (omit & Hom & Hob)%bind_ok).
    simpl in Hom, Hob.
    replace (py_mem (JStr name) req) with true in Hom.
    2:{ symmetry. apply existsb_exists. exists (JStr name). split; [by apply list_elem_of_In|].
        by apply bool_decide_eq_true. }
    rewrite andb_false_r in Hom. simpl in Hom. simplify_eq.
    repeat case_match; simplify_eq; eauto. apply bind_ok in Hob as (? & ? & [= <-]); eauto. }
  apply (legacy_binding_ok ph root) in Hob as [Hn Hp]; [|by intros; eapply legacy_value_ok].
  destruct p' as [n' v']. simpl in *. subst. exists v'. split; [|done].
  apply list_elem_of_omap. by exists (Some (name, v')).
Qed.

Lemma strict_schema_is_closed (schema r : dict) :
  strict_schema schema = Ok r -> closed_schema true true r.
Proof.
  unfold strict_schema. destruct (schema_error schema); [done|].
  destruct (_closed _ _ _ _ _) eqn:E; [|done]. intros [= <-]. exact (closed_spec _ _ _ _ _ _ E).
Qed.

(** ** What the validator promises

    The documented meaning of [properties], [items] and [additionalProperties] in a
    schema that names no other dialect; [pattern_matches] is its regular expressions. *)
Definition plain_schema (s : dict) : Prop := dict_get (cp "$schema") s = None.
Class ValidatorLaws := {
  pattern_matches : pystr -> pystr -> bool;
  no_errors_valid s d : iter_errors s d = Ok [] -> is_valid s s (JObj d) = Ok true;
  additional_false root s e name :
    plain_schema s -> is_valid root s (JObj e) = Ok true ->
    dict_get (cp "additionalProperties") s = Some (JBool false) -> name ∈ e.*1 ->
    (exists properties, dict_get (cp "properties") s = Some (JObj properties) /\ name ∈ properties.*1)
    \/ (exists patterns p, dict_get (cp "patternProperties") s = Some (JObj patterns)
         /\ p ∈ patterns.*1 /\ pattern_matches p name = true);
  property_valid root s e properties name d v :
    plain_schema s -> is_valid root s (JObj e) = Ok true ->
    dict_get (cp "properties") s = Some (JObj properties) -> dict_get name properties = Some (JObj d) ->
    (name, v) ∈ e -> is_valid root d v = Ok true;
  item_valid root s l d v :
    plain_schema s -> is_valid root s (JArr l) = Ok true ->
    dict_get (cp "items") s = Some (JObj d) -> dict_get (cp "prefixItems") s = None ->
    v ∈ l -> is_valid root d v = Ok true
}.

Section validator.
Context `{!ValidatorLaws}.

(** [s] declares the field [name]. *)
Definition declared (s : dict) (name : pystr) : Prop :=
  (exists properties, dict_get (cp "properties") s = Some (JObj properties) /\ name ∈ properties.*1)
  \/ (exists patterns p, dict_get (cp "patternProperties") s = Some (JObj patterns)
       /\ p ∈ patterns.*1 /\ pattern_matches p name = true).

(** Below the schema [s] and the value [v] that it is applied to, the schema [s'] is
    applied to [v']. *)
Inductive governs (s : dict) : json -> dict -> json -> Prop :=
| gov_self v : plain_schema s -> governs s v s v
| gov_property e properties name d v s' v' :
    plain_schema s -> dict_get (cp "properties") s = Some (JObj properties) ->
    dict_get name properties = Some (JObj d) -> (name, v) ∈ e ->
    governs d v s' v' -> governs s (JObj e) s' v'
| gov_item l d v s' v' :
    plain_schema s -> dict_get (cp "items") s = Some (JObj d) -> dict_get (cp "prefixItems") s = None ->
    v ∈ l -> governs d v s' v' -> governs s (JArr l) s' v'.

Lemma governed_valid root s v s' v' :
  governs s v s' v' -> closed_schema false true s -> is_valid root s v = Ok true ->
  closed_schema false true s' /\ is_valid root s' v' = Ok true /\ plain_schema s'.
Proof.
  induction 1 as [s v Hp|s e properties name d v s' v' Hp Eps Ed Hin _ IH|s l d v s' v' Hp Ei Epre Hin _ IH];
    intros Hcl Hv; [done|apply IH..].
  - inversion Hcl as [? ? _ Hsub]. apply (Hsub _ _ true d Eps), (sub_dict _ _ name); [apply properties_key|].
    by apply dict_get_In.
  - by eapply property_valid.
  - inversion Hcl as [? ? _ Hsub]. apply (Hsub _ _ true d Ei), sub_schema, items_key.
  - by eapply item_valid.
Qed.
End validator.

(** ** Properties *)

(** The loop that resolves a chain of local references always ends, however
    the references of the schema point at each other: the fuel of the model is
    enough, and more changes nothing. *)
Theorem local_schema_terminates (n : nat) (node root : dict) :
  local_fuel root <= n -> local_loop n [] node root = Some (_local_schema node root).
Proof.
  intros Hn. unfold _local_schema.
  destruct (local_loop_total (local_fuel root) [] node root) as [d Hd].
  - constructor.
  - auto.
  - by intros r ?%elem_of_nil.
  - unfold local_fuel, strings_of. simpl. lia.
  - unfold local_fuel. lia.
  - rewrite Hd. by eapply local_loop_mono.
Qed.

(** Normalising a model's arguments only drops entries of objects, and only
    entries that are null (or, for read-only tools, placeholders); every other
    value, and the order of the entries, is the model's own, whatever the
    schema says. *)
Theorem legacy_arguments_prune (arguments schema : dict) (omit_placeholders : bool) :
  pruned_dict omit_placeholders arguments (legacy_arguments arguments schema omit_placeholders).
Proof.
  destruct (legacy_arguments_cases arguments schema omit_placeholders) as [->|Hv].
  - apply pruned_dict_refl.
  - by eapply pruned_obj_inv, legacy_value_ok.
Qed.

(** Normalisation keeps every field that a schema without alternatives
    requires. *)
Theorem required_fields_kept (arguments schema s' : dict) (required : list json)
    (omit_placeholders : bool) (name : pystr) (v : json) :
  _composed (pred frames) (_local_schema schema schema) schema = Ok s' ->
  dict_get (cp "anyOf") s' = None -> dict_get (cp "oneOf") s' = None ->
  dict_get (cp "required") s' = Some (JArr required) -> JStr name ∈ required ->
  (name, v) ∈ arguments ->
  exists v', (name, v') ∈ legacy_arguments arguments schema omit_placeholders
    /\ pruned omit_placeholders v v'.
Proof.
  intros Hs Ha Ho Hreq Hin Hkv.
  destruct (legacy_arguments_cases arguments schema omit_placeholders) as [->|Hv].
  - exists v. split; [done|constructor].
  - destruct frames as [|n] eqn:Ef; [done|]. cbn [pred] in Hs.
    exact (legacy_value_required n schema _ _ _ s' required _ name v Hs Ha Ho Hreq Hin Hkv Hv).
Qed.


End legacy.

(** ** Concrete inputs

    A validator of declared and required fields, at every depth; a pattern admits
    the name that it spells. *)
Definition demo_violations (s : dict) (args : dict) : list schema_violation :=
  let declared := json_keys (get_or (cp "properties") s (JObj []))
    ++ json_keys (get_or (cp "patternProperties") s (JObj [])) in
  let required := json_keys (get_or (cp "required") s (JArr [])) in
  (if forallb (fun k => dict_has k args) required then []
   else [mk_violation [] (cp "required") (get_or (cp "required") s (JArr [])) (JObj args) s])
  ++ (if negb (dict_has (cp "additionalProperties") s)
         || forallb (fun p => mem p.1 declared) args then []
      else [mk_violation [] (cp "additionalProperties") (JBool false) (JObj args) s]).

(** The names of the object under a keyword, and its subschema of a name. *)
Definition names_under (k : pystr) (s : dict) : list pystr :=
  match dict_get k s with Some (JObj d) => d.*1 | _ => [] end.
Definition property_of (s : dict) (n : pystr) : option dict :=
  match dict_get (cp "properties") s with
  | Some (JObj ps) => match dict_get n ps with Some (JObj d) => Some d | _ => None end
  | _ => None
  end.
Definition items_of (s : dict) : option dict :=
  match dict_get (cp "items") s, dict_get (cp "prefixItems") s with
  | Some (JObj d), None => Some d
  | _, _ => None
  end.
Fixpoint fits (s : dict) (v : json) : bool :=
  match v with
  | JObj e =>
      bool_decide (demo_violations s e = [])
      && (negb (bool_decide (dict_get (cp "additionalProperties") s = Some (JBool false)))
          || forallb (fun p => mem p.1 (names_under (cp "properties") s ++ names_under (cp "patternProperties") s)) e)
      && forallb (fun p => match property_of s p.1 with Some d => fits d p.2 | None => true end) e
  | JArr l => match items_of s with Some d => forallb (fits d) l | None => true end
  | _ => true
  end.

#[local] Instance demo_schema_lib : SchemaLib := {|
  frames := 40;
  check_schema := fun _ => true;
  is_valid := fun _ s v => Ok (fits s v);
  iter_errors := fun s d =>
    Ok (match demo_violations s d with
        | [] => if fits s (JObj d) then [] else [mk_violation [] (cp "properties") JNull (JObj d) s]
        | l => l
        end);
  json_str := fun _ => []
|}.

Lemma fits_object s e : fits s (JObj e) = true ->
  (dict_get (cp "additionalProperties") s = Some (JBool false) -> forall n, n ∈ e.*1 ->
     n ∈ names_under (cp "properties") s ++ names_under (cp "patternProperties") s)
  /\ forall n v d, (n, v) ∈ e -> property_of s n = Some d -> fits d v = true.
Proof.
  cbn [fits]. intros [[_ Ha]%andb_true_iff Hp]%andb_true_iff. split.
  - intros Ead n (p & -> & Hin)%list_elem_of_fmap. rewrite bool_decide_true in Ha by done. simpl in Ha.
    rewrite forallb_forall in Ha. specialize (Ha p (proj1 (list_elem_of_In _ _) Hin)).
    unfold mem in Ha. by apply bool_decide_eq_true in Ha.
  - intros n v d Hin Ed. rewrite forallb_forall in Hp. specialize (Hp _ (proj1 (list_elem_of_In _ _) Hin)).
    simpl in Hp. by rewrite Ed in Hp.
Qed.
Lemma names_under_In k s n : n ∈ names_under k s -> exists d, dict_get k s = Some (JObj d) /\ n ∈ d.*1.
Proof.
  unfold names_under. destruct (dict_get k s) as [[]|]; try by intros ?%elem_of_nil. intros Hn. by eexists.
Qed.

#[local] Instance demo_laws : ValidatorLaws.
Proof.
  refine {| pattern_matches := fun p n => bool_decide (p = n) |}.
  - intros s d E. change (Ok (fits s (JObj d)) = Ok (E := sexn) true). unfold iter_errors, demo_schema_lib in E.
    destruct (demo_violations s d); [|done]. by destruct (fits s (JObj d)).
  - intros root s e n _ [= Hv] Ead Hn. destruct (fits_object _ _ Hv) as [Ha _].
    destruct (proj1 (elem_of_app _ _ _) (Ha Ead n Hn)) as [(d & Ed & Hd)%names_under_In|(d & Ed & Hd)%names_under_In].
    + left. by exists d.
    + right. exists d, n. split_and!; [done..|]. by apply bool_decide_eq_true.
  - intros root s e ps n d v _ [= Hv] Eps Ed Hin. destruct (fits_object _ _ Hv) as [_ Hp]. simpl. f_equal.
    apply (Hp n); [done|]. unfold property_of. by rewrite Eps, Ed.
  - intros root s l d v _ [= Hv] Ei Epre Hin. simpl. f_equal. cbn [fits] in Hv. unfold items_of in Hv.
    rewrite Ei, Epre in Hv. rewrite forallb_forall in Hv. by apply Hv, list_elem_of_In.
Qed.

(** A schema whose field [q] is required and [k] optional, with a reference. *)
Definition demo_schema : dict :=
  [(cp "type", JStr (cp "object"));
   (cp "properties", JObj [(cp "q", JObj [(cp "$ref", JStr (cp "#/$defs/text"))]);
                           (cp "k", JObj [(cp "type", JStr (cp "integer"))])]);
   (cp "required", JArr [JStr (cp "q")]);
   (cp "$defs", JObj [(cp "text", JObj [(cp "type", JStr (cp "string"))])])].

Example demo_legacy :
  legacy_arguments [(cp "q", JStr (cp "x")); (cp "k", JNull)] demo_schema false
    = [(cp "q", JStr (cp "x"))]
  /\ validate_arguments [(cp "k", JInt 3)] demo_schema
    = Some (cp "Invalid arguments: provide required field(s) q. Correct the arguments and retry.").
Proof. split; vm_compute; reflexivity. Qed.

(** A reference cycle: [a] points at [b], [b] at [a]. *)
Definition demo_cycle : dict :=
  [(cp "$defs", JObj [(cp "a", JObj [(cp "$ref", JStr (cp "#/$defs/b"))]);
                      (cp "b", JObj [(cp "$ref", JStr (cp "#/$defs/a"))])]);
   (cp "$ref", JStr (cp "#/$defs/a"))].

Lemma local_schema_terminates_witness :
  local_fuel demo_cycle <= 9 /\
  local_loop 9 [] demo_cycle demo_cycle = Some (_local_schema demo_cycle demo_cycle).
Proof.
  split; [vm_compute; lia|]. apply (local_schema_terminates 9 demo_cycle demo_cycle).
  vm_compute; lia.
Defined.

Lemma required_fields_kept_witness :
  exists v', (cp "q", v') ∈ legacy_arguments
      [(cp "q", JNull); (cp "k", JNull)] demo_schema false /\ pruned false JNull v'.
Proof.
  apply (required_fields_kept [(cp "q", JNull); (cp "k", JNull)] demo_schema
           demo_schema [JStr (cp "q")] false (cp "q") JNull);
    [vm_compute; reflexivity..|apply list_elem_of_singleton; reflexivity
    |apply elem_of_cons; left; reflexivity].
Defined.

(** With alternatives the guarantee fails: a required nullable field that a
    branch merely declares is dropped, and the call is then refused for the
    missing field although the model's arguments were valid. *)
Definition demo_anyof : dict :=
  [(cp "type", JStr (cp "object"));
   (cp "properties", JObj [(cp "a", JObj [(cp "type", JArr [JStr (cp "string"); JStr (cp "null")])])]);
   (cp "required", JArr [JStr (cp "a")]);
   (cp "anyOf", JArr [JObj [(cp "properties", JObj [(cp "a", JObj [])])]])].

Example required_null_dropped_by_branch :
  validate_arguments [(cp "a", JNull)] demo_anyof = None /\
  legacy_arguments [(cp "a", JNull)] demo_anyof false = [] /\
  validate_arguments [] demo_anyof <> None.
Proof. split_and!; vm_compute; congruence. Qed.

(** A nested object: an undeclared field in it is refused. *)
Definition demo_filter : dict :=
  [(cp "type", JStr (cp "object")); (cp "properties", JObj [(cp "year", JObj [])])].
Definition demo_nested : dict :=
  [(cp "type", JStr (cp "object"));
   (cp "properties", JObj [(cp "filters", JObj [(cp "type", JStr (cp "array")); (cp "items", JObj demo_filter)])])].
Definition demo_filters (name : pystr) : dict := [(cp "filters", JArr [JObj [(name, JInt 2024)]])].
Definition demo_filter_closed : dict := dict_set (cp "additionalProperties") (JBool false) demo_filter.
Definition demo_filters_closed : dict := [(cp "type", JStr (cp "array")); (cp "items", JObj demo_filter_closed)].
Definition demo_nested_closed : dict :=
  match _closed 40 demo_nested demo_nested false true with Ok d => d | Err _ => [] end.

Example undeclared_filter_refused : validate_arguments (demo_filters (cp "yeer")) demo_nested <> None.
Proof. vm_compute. congruence. Qed.

