(* ===== verification/ToolWire.v ===== *)
(** * Tool names and schemas on the provider wire

    [backend/app/llm/tool_names.py] ([ToolNameMap]), [backend/app/llm/tool_wire.py]
    ([wire_tools]) and the part of [LLMGateway.stream_tools]
    ([backend/app/llm/gateway.py]) that renames the offered tools and the calls
    that come back.  SHA-256 is a parameter. *)

From stdpp Require Import base list strings sets.
From Stdlib Require Import Lia.
From S2P Require Import Prelude Json ToolSchema.

(** [domain.llm.ToolSpec] *)
Record ToolSpec := mk_spec {
  ts_name : pystr;
  ts_description : pystr;
  ts_parameters : dict
}.

(** [[A-Za-z0-9_]] *)
Definition wire_char (c : N) : bool :=
  ((48 <=? c) && (c <=? 57) || (65 <=? c) && (c <=? 90) || (97 <=? c) && (c <=? 122)
   || (c =? 95))%N.

(** [_SAFE_NAME.fullmatch] *)
Definition safe_name (s : pystr) : bool :=
  ((1 <=? length s) && (length s <=? 64))%nat && forallb wire_char s.

(** [s.replace(c, r)] for one character. *)
Definition py_replace1 (c : N) (r s : pystr) : pystr :=
  s ≫= (fun x => if N.eqb x c then r else [x]).

Section wire.
(** [sha256(name.encode("utf-8")).hexdigest()] *)
Context (sha256_name : pystr -> pystr).

(** One name's provider alias. *)
Definition wire_name (name : pystr) : pystr :=
  if safe_name name then name
  else
    let readable := (fun c => if wire_char c then c else 95%N)
                      <$> py_replace1 58 (cp "__") name in
    take 42 readable ++ cp "__" ++ take 20 (sha256_name name).

Record ToolNameMap := mk_names {
  _forward : list (pystr * pystr);
  _reverse : list (pystr * pystr)
}.

(** One iteration of the constructor; a collision is a [ValidationError]. *)
Definition add_name (m : ToolNameMap) (name : pystr) : res pystr ToolNameMap :=
  let wire := wire_name name in
  if match dict_get wire (_reverse m) with
     | Some other => negb (bool_decide (other = name))
     | None => false
     end
  then Err (cp "tool_name_collision")
  else Ok (mk_names (dict_set name wire (_forward m)) (dict_set wire name (_reverse m))).

Fixpoint add_names (m : ToolNameMap) (names : list pystr) : res pystr ToolNameMap :=
  match names with
  | [] => Ok m
  | name :: names => m' ← add_name m name; add_names m' names
  end.

(** [ToolNameMap(names)] *)
Definition name_map (names : list pystr) : res pystr ToolNameMap :=
  add_names (mk_names [] []) (py_sorted str_leb (remove_dups names)).

Definition to_wire (m : ToolNameMap) (name : pystr) : pystr :=
  match dict_get name (_forward m) with Some w => w | None => name end.
Definition from_wire (m : ToolNameMap) (name : pystr) : pystr :=
  match dict_get name (_reverse m) with Some n => n | None => name end.

(** One entry of the provider payload: name, description and parameters. *)
Definition wire_tool `{SchemaLib} (m : ToolNameMap) (tool : ToolSpec) : option ToolSpec :=
  match strict_schema (ts_parameters tool) with
  | Ok parameters => Some (mk_spec (to_wire m (ts_name tool)) (ts_description tool) parameters)
  | Err _ => None
  end.

(** [wire_tools]: a tool whose schema is invalid is left out. *)
Definition wire_tools `{SchemaLib} (tools : list ToolSpec) : res pystr (list ToolSpec) :=
  m ← name_map (ts_name <$> tools);
  Ok (omap (wire_tool m) tools).

(** The gateway: the offered tools under their aliases, with the map that reads
    the aliases of the calls back ([history]: the names in the messages). *)
Definition provider_tools `{SchemaLib} (tools : list ToolSpec) (history : list pystr)
    : res pystr (ToolNameMap * list ToolSpec) :=
  m ← name_map ((ts_name <$> tools) ++ history);
  payload ← wire_tools
    ((fun t => mk_spec (to_wire m (ts_name t)) (ts_description t) (ts_parameters t)) <$> tools);
  Ok (m, payload).

(** ** The map is a bijection between names and their aliases *)

Definition map_ok (m : ToolNameMap) : Prop :=
  (forall n w, dict_get n (_forward m) = Some w -> w = wire_name n) /\
  (forall w n, dict_get w (_reverse m) = Some n -> w = wire_name n).

Lemma map_ok_nil : map_ok (mk_names [] []).
Proof. split; intros ?? Hg; discriminate Hg. Qed.

Lemma add_name_ok m name m' :
  map_ok m -> add_name m name = Ok m' ->
  map_ok m' /\ dict_get name (_forward m') = Some (wire_name name) /\
  dict_get (wire_name name) (_reverse m') = Some name /\
  (forall n w, dict_get n (_forward m) = Some w -> dict_get n (_forward m') = Some w) /\
  (forall w n, dict_get w (_reverse m) = Some n -> dict_get w (_reverse m') = Some n).
Proof.
  intros [Hf Hr] Ha. unfold add_name in Ha.
  destruct (match dict_get (wire_name name) (_reverse m) with
            | Some other => _ | None => _ end) eqn:Ec; simplify_eq; simpl.
  split_and!; [split| | | |]; simpl; try apply dict_get_set_eq.
  - intros n w. destruct (decide (n = name)) as [->|Hne].
    + rewrite dict_get_set_eq. congruence.
    + rewrite dict_get_set_ne by done. apply Hf.
  - intros w n. destruct (decide (w = wire_name name)) as [->|Hne].
    + rewrite dict_get_set_eq. congruence.
    + rewrite dict_get_set_ne by done. apply Hr.
  - intros n w Hg. destruct (decide (n = name)) as [->|Hne].
    + rewrite dict_get_set_eq. f_equal. symmetry. by apply Hf.
    + by rewrite dict_get_set_ne.
  - intros w n Hg. destruct (decide (w = wire_name name)) as [->|Hne].
    + rewrite dict_get_set_eq. rewrite Hg in Ec. to_prop. congruence.
    + by rewrite dict_get_set_ne.
Qed.

Lemma add_names_ok names m m' :
  map_ok m -> add_names m names = Ok m' ->
  map_ok m' /\
  (forall n w, dict_get n (_forward m) = Some w -> dict_get n (_forward m') = Some w) /\
  (forall w n, dict_get w (_reverse m) = Some n -> dict_get w (_reverse m') = Some n) /\
  (forall n, n ∈ names -> dict_get n (_forward m') = Some (wire_name n) /\
                          dict_get (wire_name n) (_reverse m') = Some n).
Proof.
  revert m. induction names as [|name names IH]; intros m Hm Ha; simpl in Ha.
  - simplify_eq. split_and!; try done. by intros n ?%elem_of_nil.
  - apply bind_ok in Ha as (m1 & H1 & Ha).
    destruct (add_name_ok _ _ _ Hm H1) as (Hm1 & Hn1 & Hn2 & Hf1 & Hr1).
    destruct (IH _ Hm1 Ha) as (Hm' & Hf & Hr & Hin). split_and!; eauto.
    intros n [->|?]%elem_of_cons; eauto.
Qed.

Lemma name_map_ok names m :
  name_map names = Ok m ->
  map_ok m /\ forall n, n ∈ names ->
    to_wire m n = wire_name n /\ from_wire m (wire_name n) = n.
Proof.
  intros Hm. destruct (add_names_ok _ (mk_names [] []) m map_ok_nil Hm)
    as (Hok & _ & _ & Hin).
  split; [done|]. intros n Hn. destruct (Hin n) as [Hf Hr].
  { by rewrite elem_of_py_sorted, elem_of_remove_dups. }
  unfold to_wire, from_wire. by rewrite Hf, Hr.
Qed.

(** ** Aliases are portable names *)

(** What the code relies on: a hexadecimal digest. *)
Definition hex_digest : Prop := forall s, forallb wire_char (sha256_name s) = true.

Lemma wire_name_safe name : hex_digest -> safe_name (wire_name name) = true.
Proof.
  intros Hhex. unfold wire_name. destruct (safe_name name) eqn:E; [done|].
  unfold safe_name. rewrite !length_app, !forallb_app, !andb_true_iff, !Nat.leb_le, !length_take.
  change (length (cp "__")) with 2.
  split_and!; [lia|lia| |done|by apply forallb_take].
  apply forallb_take. generalize (py_replace1 58 (cp "__") name). intros l.
  induction l as [|c l IH]; [done|]. rewrite fmap_cons. cbn [forallb]. rewrite IH, andb_true_r.
  by destruct (wire_char c) eqn:?.
Qed.

Lemma wire_name_idemp name : hex_digest -> wire_name (wire_name name) = wire_name name.
Proof. intros Hhex. unfold wire_name at 1. by rewrite wire_name_safe. Qed.

(** Names that are their own aliases never collide. *)
Lemma add_names_idemp names m :
  (forall w n, dict_get w (_reverse m) = Some n -> w = n) ->
  (forall n, n ∈ names -> wire_name n = n) -> exists m', add_names m names = Ok m'.
Proof.
  revert m. induction names as [|name names IH]; intros m Hm Hn; cbn [add_names]; [eauto|].
  assert (wire_name name = name) as Hw by (apply Hn; by left).
  unfold add_name. rewrite Hw.
  destruct (dict_get name (_reverse m)) as [o|] eqn:E.
  - rewrite <-(Hm _ _ E), bool_decide_eq_true_2 by done. simpl. apply IH; [|set_solver].
    simpl. intros w n. destruct (decide (w = name)) as [->|Hne].
    + rewrite dict_get_set_eq. congruence.
    + rewrite dict_get_set_ne by done. apply Hm.
  - simpl. apply IH; [|set_solver]. simpl. intros w n.
    destruct (decide (w = name)) as [->|Hne].
    + rewrite dict_get_set_eq. congruence.
    + rewrite dict_get_set_ne by done. apply Hm.
Qed.

Lemma name_map_idemp names :
  (forall n, n ∈ names -> wire_name n = n) ->
  exists m', name_map names = Ok m' /\ forall n, n ∈ names -> to_wire m' n = n.
Proof.
  intros Hn. destruct (add_names_idemp (py_sorted str_leb (remove_dups names)) (mk_names [] []))
    as [m' Hm']; [done| |].
  - intros n. rewrite elem_of_py_sorted, elem_of_remove_dups. apply Hn.
  - exists m'. split; [done|]. intros n Hin.
    destruct (name_map_ok _ _ Hm') as [_ Ht]. destruct (Ht n Hin) as [-> _]. by apply Hn.
Qed.

(** ** Properties *)

(** C39: A completion's name map does not depend on the order or repetition of
    the names; it sends each of them to a portable name that reads back as the
    name itself, so distinct tools keep distinct aliases, and it leaves an alias
    alone, so the gateway's second mapping of the offered tools changes
    nothing. *)
Theorem tool_names_round_trip (names names' : list pystr) (m : ToolNameMap) :
  hex_digest -> name_map names = Ok m ->
  (forall n, n ∈ names -> safe_name (to_wire m n) = true /\ from_wire m (to_wire m n) = n) /\
  (forall n n', n ∈ names -> n' ∈ names -> to_wire m n = to_wire m n' -> n = n') /\
  ((forall n, n ∈ names <-> n ∈ names') -> name_map names' = Ok m) /\
  exists m', name_map (to_wire m <$> names) = Ok m' /\
    forall n, n ∈ names -> to_wire m' (to_wire m n) = to_wire m n.
Proof.
  intros Hhex Hm. destruct (name_map_ok _ _ Hm) as [_ Hin]. split_and!.
  - intros n Hn. destruct (Hin n Hn) as [-> ->]. by rewrite wire_name_safe.
  - intros n n' Hn Hn'. destruct (Hin n Hn) as [Hw Hf], (Hin n' Hn') as [Hw' Hf'].
    rewrite Hw, Hw'. congruence.
  - intros Hsame. unfold name_map. by rewrite <-(py_sorted_set names names').
  - destruct (name_map_idemp (to_wire m <$> names)) as (m' & Hm' & Ht).
    { intros w (n & -> & Hn)%list_elem_of_fmap. destruct (Hin n Hn) as [-> _].
      by apply wire_name_idemp. }
    exists m'. split; [done|]. intros n Hn. apply Ht, list_elem_of_fmap. eauto.
Qed.

(** Every tool the gateway sends is an offered tool under a portable alias,
    which the gateway reads back as the tool's name, and with a schema closed at
    every depth; every offered tool whose schema is valid is sent. *)
Theorem provider_tools_read_back `{SchemaLib} (tools : list ToolSpec) (history : list pystr)
    (m : ToolNameMap) (payload : list ToolSpec) :
  hex_digest -> provider_tools tools history = Ok (m, payload) ->
  payload = omap (fun t => match strict_schema (ts_parameters t) with
                           | Ok parameters => Some (mk_spec (wire_name (ts_name t))
                                                      (ts_description t) parameters)
                           | Err _ => None
                           end) tools /\
  (forall e, e ∈ payload -> safe_name (ts_name e) = true /\
     closed_schema true true (ts_parameters e) /\
     exists t, t ∈ tools /\ from_wire m (ts_name e) = ts_name t).
Proof.
  intros Hhex Hp. unfold provider_tools in Hp.
  apply bind_ok in Hp as (m1 & Hm & (p1 & Hw & [= -> ->])%bind_ok).
  unfold wire_tools in Hw. apply bind_ok in Hw as (m2 & Hm2 & [= Hpay]).
  destruct (name_map_ok _ _ Hm) as [_ Hin], (name_map_ok _ _ Hm2) as [_ Hin2].
  assert (payload = omap (fun t => match strict_schema (ts_parameters t) with
                           | Ok parameters => Some (mk_spec (wire_name (ts_name t))
                                                      (ts_description t) parameters)
                           | Err _ => None
                           end) tools) as Heq.
  { rewrite <-Hpay. apply list_omap_ext, Forall2_fmap_l, Forall_Forall2_diag, Forall_forall.
    intros t Ht. unfold wire_tool. simpl. destruct (strict_schema _); [|done].
    destruct (Hin (ts_name t)) as [Hw _]; [set_solver|].
    destruct (Hin2 (to_wire m (ts_name t))) as [-> _].
    { rewrite <-list_fmap_compose. apply list_elem_of_fmap. by exists t. }
    by rewrite Hw, wire_name_idemp. }
  split; [done|]. intros e He. rewrite Heq in He.
  apply list_elem_of_omap in He as (t & Ht & He).
  destruct (strict_schema (ts_parameters t)) as [ps|] eqn:Es; simplify_eq. simpl.
  split_and!; [by apply wire_name_safe|by eapply strict_schema_is_closed|].
  exists t. split; [done|]. apply Hin. set_solver.
Qed.
End wire.

(** ** Concrete inputs *)

Definition demo_sha (s : pystr) : pystr := cp "0123456789abcdef0123" ++ cp "ff".
#[local] Existing Instance demo_schema_lib.

Definition demo_names : list pystr := [cp "mcp:files"; cp "search"; cp "mcp:files"].
Definition demo_map : ToolNameMap :=
  match name_map demo_sha demo_names with Ok m => m | Err _ => mk_names [] [] end.
Definition demo_tools : list ToolSpec :=
  [mk_spec (cp "mcp:files") (cp "d") demo_schema;
   mk_spec (cp "bad") [] [(cp "$ref", JStr (cp "http://x"))]].
Definition demo_sent : ToolNameMap * list ToolSpec :=
  match provider_tools demo_sha demo_tools [cp "old"] with
  | Ok p => p | Err _ => (mk_names [] [], []) end.

Lemma demo_hex : hex_digest demo_sha.
Proof. intros s. reflexivity. Qed.

Example demo_alias : wire_name demo_sha (cp "mcp:files") = cp "mcp__files__0123456789abcdef0123".
Proof. reflexivity. Qed.

Lemma tool_names_round_trip_witness :
  from_wire demo_map (to_wire demo_map (cp "mcp:files")) = cp "mcp:files".
Proof.
  refine (proj2 (proj1 (tool_names_round_trip demo_sha demo_names demo_names demo_map
                          demo_hex _) (cp "mcp:files") _)).
  - vm_compute. reflexivity.
  - apply elem_of_cons. left. reflexivity.
Defined.

Lemma provider_tools_read_back_witness :
  length demo_sent.2 = 1 /\ forall e, e ∈ demo_sent.2 -> closed_schema true true (ts_parameters e).
Proof.
  split; [vm_compute; reflexivity|]. intros e He.
  eapply (provider_tools_read_back demo_sha demo_tools [cp "old"] demo_sent.1 demo_sent.2
            demo_hex); [vm_compute; reflexivity|exact He].
Defined.
