(* ===== verification/Tools.v ===== *)
(** * The tool vocabulary

    [backend/app/domain/tools.py] (risk tiers, error codes, [ToolResult]),
    [backend/app/domain/retrieval.py] ([RetrievedPassage]) and
    [backend/app/services/tools/types.py] (tool definitions, approval requests,
    records and decisions, the deny-all gate). *)

From stdpp Require Import base list strings gmap.
From Stdlib Require Import QArith.
From S2P Require Import Prelude Json.
Open Scope Z_scope.

(** [domain.llm.ToolCall] *)
Record ToolCall := mk_call {
  tc_id : pystr;
  tc_name : pystr;
  tc_arguments : dict
}.

(** ** Risk tiers (domain/tools.py, [RiskTier]) *)

Inductive RiskTier : Type := T0 | T1 | T2 | T3.

Global Instance RiskTier_eq : EqDecision RiskTier.
Proof. solve_decision. Defined.

Definition level (t : RiskTier) : Z :=
  match t with T0 => 0 | T1 => 1 | T2 => 2 | T3 => 3 end.

Definition is_write_tier (t : RiskTier) : bool := level T2 <=? level t.

(** ** Error codes and approval reasons *)

Definition ERROR_NOT_PERMITTED : pystr := cp "tool_not_permitted".
Definition ERROR_NOT_FOUND : pystr := cp "tool_not_found".
Definition ERROR_APPROVAL_DENIED : pystr := cp "approval_denied".
Definition ERROR_AUTONOMY_DENIED : pystr := cp "autonomy_denied".
Definition ERROR_TOOL_ERROR : pystr := cp "tool_error".
Definition ERROR_TOOL_TIMEOUT : pystr := cp "tool_timeout".
Definition ERROR_BAD_ARGS : pystr := cp "tool_bad_args".

Definition APPROVAL_REASON_POLICY_ABSENT : pystr := cp "tool_policy_absent".
Definition APPROVAL_REASON_POLICY_DISABLED : pystr := cp "tool_policy_disabled".
Definition APPROVAL_REASON_APPROVAL_UNAVAILABLE : pystr := cp "approval_required_unavailable".
Definition APPROVAL_REASON_POLICY_UNREADABLE : pystr := cp "tool_policy_unreadable".
Definition APPROVAL_REASON_GATE_INERT : pystr := cp "approval_gate_inert".
Definition APPROVAL_REASON_RECORD_INVALID : pystr := cp "approval_record_invalid".
Definition APPROVAL_SCOPE_TENANT_PREAPPROVAL : pystr := cp "tenant_preapproval".

(** ** Passages (domain/retrieval.py, domain/ingestion.py) *)

Record SourceLocation := mk_location {
  loc_kind : pystr;
  loc_name : pystr;
  loc_number : Z;
  loc_char_start : Z;
  loc_char_end : Z
}.

Record RetrievedPassage := mk_passage {
  rp_chunk_id : uuid;
  rp_document_id : uuid;
  rp_document_name : pystr;
  rp_ord : Z;
  rp_text : pystr;
  rp_char_start : Z;
  rp_char_end : Z;
  rp_score : Q;
  rp_source_locations : list SourceLocation;
  rp_time_start_ms : option Z;
  rp_time_end_ms : option Z;
  rp_transcript_segment_id : option uuid;
  rp_speaker_id : option pystr;
  rp_speaker_name : option pystr
}.

(** ** Tool results *)

(** [ToolResult]: the record before its [__post_init__] check. *)
Record ToolResult := mk_result {
  tr_call_id : pystr;
  tr_name : pystr;
  tr_ok : bool;
  tr_content : pystr;
  tr_summary : option pystr;
  tr_payload : dict;
  tr_error : option pystr;
  tr_duration_ms : Z;
  tr_hit_count : Z;
  tr_passages : list RetrievedPassage;
  tr_document_ids : list uuid;
  tr_denied_reason : option pystr;
  tr_source_document_ids : option (list uuid)
}.

(** [ToolResult.__post_init__]: success XOR error code. *)
Definition tool_result_post_init (r : ToolResult) : res pystr ToolResult :=
  if tr_ok r && bool_decide (tr_error r <> None) then
    Err (cp "a successful ToolResult must not carry an error code")
  else if negb (tr_ok r) && negb (truthy (tr_error r)) then
    Err (cp "a failed ToolResult must carry a non-empty error code")
  else Ok r.

(** The invariant the constructor guards. *)
Definition well_formed_result (r : ToolResult) : Prop :=
  if tr_ok r then tr_error r = None
  else exists c s, tr_error r = Some (c :: s).

(** [ToolResult.failure(...)]: the record it builds, and the constructor call. *)
Definition failure_result (call_id name error content : pystr) (summary : option pystr)
    (duration_ms : Z) (denied_reason : option pystr) : ToolResult := {|
  tr_call_id := call_id; tr_name := name; tr_ok := false;
  tr_content := content;
  tr_summary := match summary with Some s => Some s | None => Some error end;
  tr_payload := []; tr_error := Some error; tr_duration_ms := duration_ms;
  tr_hit_count := 0; tr_passages := []; tr_document_ids := [];
  tr_denied_reason := denied_reason; tr_source_document_ids := None |}.

Definition failure (call_id name error content : pystr) (summary : option pystr)
    (duration_ms : Z) (denied_reason : option pystr) : res pystr ToolResult :=
  tool_result_post_init
    (failure_result call_id name error content summary duration_ms denied_reason).

(** [ToolHandlerResult]: what a handler returns. *)
Record ToolHandlerResult := mk_body {
  hr_content : pystr;
  hr_ok : bool;
  hr_summary : option pystr;
  hr_payload : dict;
  hr_error : option pystr;
  hr_hit_count : Z;
  hr_passages : list RetrievedPassage;
  hr_document_ids : list uuid;
  hr_denied_reason : option pystr;
  hr_source_document_ids : option (list uuid)
}.

Lemma tool_result_post_init_ok r r' :
  tool_result_post_init r = Ok r' <-> r' = r /\ well_formed_result r.
Proof.
  unfold tool_result_post_init, well_formed_result.
  destruct (tr_ok r), (tr_error r) as [[|c s]|]; simpl;
    try case_bool_decide; simpl; split; intros; destruct_and?; simplify_eq; eauto;
    try (exfalso; naive_solver).
Qed.

Lemma failure_well_formed call_id name error content summary ms reason :
  error <> [] ->
  well_formed_result (failure_result call_id name error content summary ms reason).
Proof. unfold well_formed_result. simpl. destruct error; [done|eauto]. Qed.

(** With a non-empty error code the check always passes: the callers below,
    which all pass one, use [failure_result] directly. *)
Lemma failure_never_raises call_id name error content summary ms reason :
  error <> [] ->
  failure call_id name error content summary ms reason =
    Ok (failure_result call_id name error content summary ms reason).
Proof.
  intros Hne. apply tool_result_post_init_ok. split; [done|by apply failure_well_formed].
Qed.

(** ** Principals and contexts *)

Record Principal := mk_principal { user_id : uuid; tenant_id : uuid }.

(** The part of [ToolContext] the runner reads or sets: who asks, the
    invocation id it allocates and the catalog it passes on. *)
Record ToolContext := mk_context {
  principal : Principal;
  tool_invocation_id : option uuid;
  allowed_tools : gset pystr;
  simulate_writes : bool
}.

(** ** Tool definitions *)

(** How an awaited handler ends. *)
Inductive handler_outcome : Type :=
| HReturn (body : ToolHandlerResult)
| HTimeoutError                 (** the handler itself raises [TimeoutError] *)
| HException                    (** any other [Exception] *)
| HCancelled                    (** [asyncio.CancelledError] *)
| HCancellationPending.         (** [ToolCancellationPending] *)

(** A handler run takes some time (seconds) and ends in an outcome. *)
Abbreviation handler := (dict -> ToolContext -> Q * handler_outcome) (only parsing).

Record ToolDefinition := mk_tool {
  td_name : pystr;
  td_description : pystr;
  td_json_schema : dict;
  td_handler : handler;
  td_risk_tier : RiskTier;
  td_requires_approval : bool;
  td_read_only : bool;
  td_timeout_seconds : option Q;
  td_default_offered : bool
}.

(** [ToolDefinition.__post_init__]: the registration-time governance checks. *)
Definition tool_definition_post_init (d : ToolDefinition) : res pystr ToolDefinition :=
  if blank (td_name d) then
    Err (cp "a tool definition requires a non-empty name")
  else if td_read_only d && bool_decide (td_risk_tier d <> T0) then
    Err (cp "read-only tool must be risk tier T0")
  else if td_read_only d && td_requires_approval d then
    Err (cp "read-only tool cannot require approval")
  else if is_write_tier (td_risk_tier d) && negb (td_requires_approval d) then
    Err (cp "write-tier tool must require approval")
  else Ok d.

(** What every constructed definition satisfies. *)
Definition well_governed (d : ToolDefinition) : Prop :=
  blank (td_name d) = false /\
  (td_read_only d = true -> td_risk_tier d = T0 /\ td_requires_approval d = false) /\
  (is_write_tier (td_risk_tier d) = true -> td_requires_approval d = true).

Lemma tool_definition_post_init_ok d d' :
  tool_definition_post_init d = Ok d' <-> d' = d /\ well_governed d.
Proof.
  unfold tool_definition_post_init, well_governed.
  destruct (blank (td_name d)), (td_read_only d), (td_requires_approval d),
    (td_risk_tier d); simpl; intuition congruence.
Qed.

(** ** Approval *)

Record ApprovalRequest := mk_request {
  ar_call_id : pystr;
  ar_tool_name : pystr;
  ar_risk_tier : RiskTier;
  ar_principal : Principal;
  ar_arguments : dict;
  ar_arguments_hash : pystr
}.

Record ApprovalRecord := mk_record {
  rec_scope : pystr;
  rec_policy_id : option uuid;
  rec_approved_by : option uuid;
  rec_arguments_hash : option pystr
}.

Record ApprovalDecision := mk_decision {
  ad_approved : bool;
  ad_reason : option pystr;
  ad_detail : option pystr;
  ad_approval : option ApprovalRecord
}.

Definition allow (approval : option ApprovalRecord) : ApprovalDecision :=
  mk_decision true None None approval.

Definition deny (reason detail : pystr) : ApprovalDecision :=
  mk_decision false (Some reason) (Some detail) None.

(** A gate answers with a plain [bool] or an [ApprovalDecision]. *)
Inductive gate_answer : Type :=
| GateBool (b : bool)
| GateDecision (d : ApprovalDecision).

(** The [ApprovalGate] protocol, as an interface the runner is proved against. *)
Class ApprovalGate (G : Type) := gate_request : G -> ApprovalRequest -> gate_answer.

(** [repr] of a string, used in messages only. *)
Class PyRepr := py_repr : pystr -> pystr.

(** [DenyAllApprovalGate]. *)
Inductive DenyAllApprovalGate : Type := deny_all_gate.

Global Instance deny_all_request `{PyRepr} : ApprovalGate DenyAllApprovalGate :=
  fun _ req => GateDecision (deny APPROVAL_REASON_GATE_INERT
    (cp "Tool " ++ py_repr (ar_tool_name req) ++ cp " needs approval, which is not available "
     ++ cp "here, so the call was refused. The action was not performed.")).
