(* ===== verification/AuditLog.v ===== *)
(** * The audit envelope and sink

    [backend/app/domain/audit.py] (the closed action taxonomy, actors and the
    fail-closed envelope check) and [AuditSink.emit] of
    [backend/app/services/audit.py]. *)

From stdpp Require Import base list strings.
From S2P Require Import Prelude Json.
Open Scope Z_scope.

Inductive AuditOutcome : Type := ALLOWED | DENIED | ERROR.

Global Instance AuditOutcome_eq : EqDecision AuditOutcome.
Proof. solve_decision. Defined.

(** The taxonomy: the only permitted actions. *)
Inductive AuditAction : Type :=
| AUTH_LOGIN
| AUTH_LOGIN_FAILED
| AUTH_LOGOUT
| COLLECTION_CREATED
| COLLECTION_DELETED
| DOCUMENT_UPLOAD_STARTED
| DOCUMENT_UPLOAD_ABORTED
| DOCUMENT_UPLOAD_EXPIRED
| DOCUMENT_UPLOADED
| DOCUMENT_TRANSCRIBED
| DOCUMENT_VIEWED
| DOCUMENT_DOWNLOADED
| DOCUMENT_DELETED
| SOURCE_ADDED
| SOURCE_SYNCED
| SOURCE_DELETED
| SOURCE_CONNECTED
| USER_IDENTITY_ATTESTED
| RETRIEVAL_QUERY
| ANSWER_GENERATED
| ANSWER_CANCELLED
| SESSION_SUMMARIZED
| EVIDENCE_REHYDRATED
| PERMISSION_DENIED
| PERMISSION_GRANTED
| GROUP_CREATED
| GROUP_UPDATED
| GROUP_DELETED
| GROUP_MEMBER_ADDED
| GROUP_MEMBER_REMOVED
| PERMISSION_REVOKED
| TENANT_SETTINGS_UPDATED
| TENANT_BRANDING_UPDATED
| USER_AVATAR_UPDATED
| SECRET_CREATED
| SECRET_ACCESSED
| SECRET_DELETED
| ARTIFACT_CREATED
| ARTIFACT_DOWNLOADED
| ARTIFACT_DELETED
| TOOL_INVOKED
| TOOL_RESULT
| TOOL_POLICY_UPDATED
| ASSISTANT_CREATED
| ASSISTANT_UPDATED
| ASSISTANT_DELETED
| ASSISTANT_PUBLISHED
| ASSISTANT_ROLLED_BACK
| ASSISTANT_CERTIFIED
| ASSISTANT_FEATURED
| ASSISTANT_DEPRECATED
| ASSISTANT_DISABLED
| ASSISTANT_OWNERSHIP_TRANSFERRED
| ASSISTANT_TESTED
| ASSISTANT_DRAFTED
| RUN_STARTED
| RUN_FINISHED
| RUN_ESCALATED
| RUN_RESUMED
| RUN_CANCELLED
| RUN_REROUTED
| SCHEDULE_CREATED
| SCHEDULE_UPDATED
| SCHEDULE_DELETED
| SCHEDULE_PAUSED
| SCHEDULE_RESUMED
| SCHEDULE_RUN_NOW
| RUN_DELIVERED
| RUN_DELIVERY_READ
| RUN_DIGEST_SENT
| CODE_RUN_STARTED
| CODE_RUN_FINISHED
| CODE_RUN_DENIED
| CODE_RUN_CANCELLED
| SANDBOX_SESSION_CREATED
| SANDBOX_SESSION_RESET
| SANDBOX_SESSION_CLOSED
| SANDBOX_POLICY_UPDATED
| AUTONOMY_CAP_UPDATED
| MCP_SERVER_REGISTERED
| MCP_SERVER_UPDATED
| MCP_SERVER_DELETED
| MCP_SERVER_TESTED
| LLM_PROVIDER_CREATED
| LLM_PROVIDER_UPDATED
| LLM_PROVIDER_DELETED
| LLM_PROVIDER_DISCOVERED
| LLM_PROVIDER_CONNECTION_TESTED
| ACTION_REQUESTED
| ACTION_APPROVED
| ACTION_EXECUTED.

Definition action_value (a : AuditAction) : pystr :=
  match a with
  | AUTH_LOGIN => cp "auth.login"
  | AUTH_LOGIN_FAILED => cp "auth.login_failed"
  | AUTH_LOGOUT => cp "auth.logout"
  | COLLECTION_CREATED => cp "collection.created"
  | COLLECTION_DELETED => cp "collection.deleted"
  | DOCUMENT_UPLOAD_STARTED => cp "document.upload_started"
  | DOCUMENT_UPLOAD_ABORTED => cp "document.upload_aborted"
  | DOCUMENT_UPLOAD_EXPIRED => cp "document.upload_expired"
  | DOCUMENT_UPLOADED => cp "document.uploaded"
  | DOCUMENT_TRANSCRIBED => cp "document.transcribed"
  | DOCUMENT_VIEWED => cp "document.viewed"
  | DOCUMENT_DOWNLOADED => cp "document.downloaded"
  | DOCUMENT_DELETED => cp "document.deleted"
  | SOURCE_ADDED => cp "source.added"
  | SOURCE_SYNCED => cp "source.synced"
  | SOURCE_DELETED => cp "source.deleted"
  | SOURCE_CONNECTED => cp "source.connected"
  | USER_IDENTITY_ATTESTED => cp "user.identity_attested"
  | RETRIEVAL_QUERY => cp "retrieval.query"
  | ANSWER_GENERATED => cp "answer.generated"
  | ANSWER_CANCELLED => cp "answer.cancelled"
  | SESSION_SUMMARIZED => cp "session.summarized"
  | EVIDENCE_REHYDRATED => cp "retrieval.evidence_rehydrated"
  | PERMISSION_DENIED => cp "permission.denied"
  | PERMISSION_GRANTED => cp "permission.granted"
  | GROUP_CREATED => cp "group.created"
  | GROUP_UPDATED => cp "group.updated"
  | GROUP_DELETED => cp "group.deleted"
  | GROUP_MEMBER_ADDED => cp "group.member_added"
  | GROUP_MEMBER_REMOVED => cp "group.member_removed"
  | PERMISSION_REVOKED => cp "permission.revoked"
  | TENANT_SETTINGS_UPDATED => cp "tenant.settings_updated"
  | TENANT_BRANDING_UPDATED => cp "tenant.branding_updated"
  | USER_AVATAR_UPDATED => cp "user.avatar_updated"
  | SECRET_CREATED => cp "secret.created"
  | SECRET_ACCESSED => cp "secret.accessed"
  | SECRET_DELETED => cp "secret.deleted"
  | ARTIFACT_CREATED => cp "artifact.created"
  | ARTIFACT_DOWNLOADED => cp "artifact.downloaded"
  | ARTIFACT_DELETED => cp "artifact.deleted"
  | TOOL_INVOKED => cp "tool.invoked"
  | TOOL_RESULT => cp "tool.result"
  | TOOL_POLICY_UPDATED => cp "tool_policy.updated"
  | ASSISTANT_CREATED => cp "assistant.created"
  | ASSISTANT_UPDATED => cp "assistant.updated"
  | ASSISTANT_DELETED => cp "assistant.deleted"
  | ASSISTANT_PUBLISHED => cp "assistant.published"
  | ASSISTANT_ROLLED_BACK => cp "assistant.rolled_back"
  | ASSISTANT_CERTIFIED => cp "assistant.certified"
  | ASSISTANT_FEATURED => cp "assistant.featured"
  | ASSISTANT_DEPRECATED => cp "assistant.deprecated"
  | ASSISTANT_DISABLED => cp "assistant.disabled"
  | ASSISTANT_OWNERSHIP_TRANSFERRED => cp "assistant.ownership_transferred"
  | ASSISTANT_TESTED => cp "assistant.tested"
  | ASSISTANT_DRAFTED => cp "assistant.drafted"
  | RUN_STARTED => cp "run.started"
  | RUN_FINISHED => cp "run.finished"
  | RUN_ESCALATED => cp "run.escalated"
  | RUN_RESUMED => cp "run.resumed"
  | RUN_CANCELLED => cp "run.cancelled"
  | RUN_REROUTED => cp "run.rerouted"
  | SCHEDULE_CREATED => cp "schedule.created"
  | SCHEDULE_UPDATED => cp "schedule.updated"
  | SCHEDULE_DELETED => cp "schedule.deleted"
  | SCHEDULE_PAUSED => cp "schedule.paused"
  | SCHEDULE_RESUMED => cp "schedule.resumed"
  | SCHEDULE_RUN_NOW => cp "schedule.run_now"
  | RUN_DELIVERED => cp "run.delivered"
  | RUN_DELIVERY_READ => cp "run.delivery_read"
  | RUN_DIGEST_SENT => cp "run.digest_sent"
  | CODE_RUN_STARTED => cp "code_run.started"
  | CODE_RUN_FINISHED => cp "code_run.finished"
  | CODE_RUN_DENIED => cp "code_run.denied"
  | CODE_RUN_CANCELLED => cp "code_run.cancelled"
  | SANDBOX_SESSION_CREATED => cp "sandbox_session.created"
  | SANDBOX_SESSION_RESET => cp "sandbox_session.reset"
  | SANDBOX_SESSION_CLOSED => cp "sandbox_session.closed"
  | SANDBOX_POLICY_UPDATED => cp "sandbox_policy.updated"
  | AUTONOMY_CAP_UPDATED => cp "autonomy_cap.updated"
  | MCP_SERVER_REGISTERED => cp "mcp_server.registered"
  | MCP_SERVER_UPDATED => cp "mcp_server.updated"
  | MCP_SERVER_DELETED => cp "mcp_server.deleted"
  | MCP_SERVER_TESTED => cp "mcp_server.tested"
  | LLM_PROVIDER_CREATED => cp "llm_provider.created"
  | LLM_PROVIDER_UPDATED => cp "llm_provider.updated"
  | LLM_PROVIDER_DELETED => cp "llm_provider.deleted"
  | LLM_PROVIDER_DISCOVERED => cp "llm_provider.discovered"
  | LLM_PROVIDER_CONNECTION_TESTED => cp "llm_provider.connection_tested"
  | ACTION_REQUESTED => cp "action.requested"
  | ACTION_APPROVED => cp "action.approved"
  | ACTION_EXECUTED => cp "action.executed"
  end.

(** Every member, in declaration order ([list(AuditAction)]). *)
Definition all_actions : list AuditAction :=
  [AUTH_LOGIN; AUTH_LOGIN_FAILED; AUTH_LOGOUT; COLLECTION_CREATED;
   COLLECTION_DELETED; DOCUMENT_UPLOAD_STARTED; DOCUMENT_UPLOAD_ABORTED; DOCUMENT_UPLOAD_EXPIRED;
   DOCUMENT_UPLOADED; DOCUMENT_TRANSCRIBED; DOCUMENT_VIEWED; DOCUMENT_DOWNLOADED;
   DOCUMENT_DELETED; SOURCE_ADDED; SOURCE_SYNCED; SOURCE_DELETED;
   SOURCE_CONNECTED; USER_IDENTITY_ATTESTED; RETRIEVAL_QUERY; ANSWER_GENERATED;
   ANSWER_CANCELLED; SESSION_SUMMARIZED; EVIDENCE_REHYDRATED; PERMISSION_DENIED;
   PERMISSION_GRANTED; GROUP_CREATED; GROUP_UPDATED; GROUP_DELETED;
   GROUP_MEMBER_ADDED; GROUP_MEMBER_REMOVED; PERMISSION_REVOKED; TENANT_SETTINGS_UPDATED;
   TENANT_BRANDING_UPDATED; USER_AVATAR_UPDATED; SECRET_CREATED; SECRET_ACCESSED;
   SECRET_DELETED; ARTIFACT_CREATED; ARTIFACT_DOWNLOADED; ARTIFACT_DELETED;
   TOOL_INVOKED; TOOL_RESULT; TOOL_POLICY_UPDATED; ASSISTANT_CREATED;
   ASSISTANT_UPDATED; ASSISTANT_DELETED; ASSISTANT_PUBLISHED; ASSISTANT_ROLLED_BACK;
   ASSISTANT_CERTIFIED; ASSISTANT_FEATURED; ASSISTANT_DEPRECATED; ASSISTANT_DISABLED;
   ASSISTANT_OWNERSHIP_TRANSFERRED; ASSISTANT_TESTED; ASSISTANT_DRAFTED; RUN_STARTED;
   RUN_FINISHED; RUN_ESCALATED; RUN_RESUMED; RUN_CANCELLED;
   RUN_REROUTED; SCHEDULE_CREATED; SCHEDULE_UPDATED; SCHEDULE_DELETED;
   SCHEDULE_PAUSED; SCHEDULE_RESUMED; SCHEDULE_RUN_NOW; RUN_DELIVERED;
   RUN_DELIVERY_READ; RUN_DIGEST_SENT; CODE_RUN_STARTED; CODE_RUN_FINISHED;
   CODE_RUN_DENIED; CODE_RUN_CANCELLED; SANDBOX_SESSION_CREATED; SANDBOX_SESSION_RESET;
   SANDBOX_SESSION_CLOSED; SANDBOX_POLICY_UPDATED; AUTONOMY_CAP_UPDATED; MCP_SERVER_REGISTERED;
   MCP_SERVER_UPDATED; MCP_SERVER_DELETED; MCP_SERVER_TESTED; LLM_PROVIDER_CREATED;
   LLM_PROVIDER_UPDATED; LLM_PROVIDER_DELETED; LLM_PROVIDER_DISCOVERED; LLM_PROVIDER_CONNECTION_TESTED;
   ACTION_REQUESTED; ACTION_APPROVED; ACTION_EXECUTED].

(** [AuditAction(s)]: lookup by value; [None] is the [ValueError]. *)
Definition action_of_value (s : pystr) : option AuditAction :=
  snd <$> list_find (fun a => action_value a = s) all_actions.

(** ** Actors *)

Record AuditActor := mk_actor {
  actor_id : option uuid;
  is_system : bool;
  is_anonymous : bool
}.

Definition actor_user (u : uuid) : AuditActor := mk_actor (Some u) false false.
Definition actor_system : AuditActor := mk_actor None true false.
Definition actor_anonymous : AuditActor := mk_actor None false true.

(** ** The envelope *)

(** The [action] argument: the enum, or a taxonomy string. *)
Inductive action_arg : Type := AEnum (a : AuditAction) | AStr (s : pystr).

(** [_coerce_action]; [Err] is [AuditEnvelopeError]. *)
Definition _coerce_action (a : action_arg) : res unit AuditAction :=
  match a with
  | AEnum a => Ok a
  | AStr s => match action_of_value s with Some a => Ok a | None => Err tt end
  end.

(** [x is None or not str(x).strip()] *)
Definition missing (s : option pystr) : bool :=
  match s with None => true | Some s => blank s end.

Definition validate_envelope (tenant_id : option uuid) (action : option action_arg)
    (resource_type : option pystr) (outcome : option AuditOutcome)
    (resource_id request_id source_ip : option pystr) : res unit AuditAction :=
  match tenant_id, action with
  | None, _ => Err tt
  | _, None => Err tt
  | Some _, Some a =>
      if missing resource_type then Err tt
      else match outcome with
      | None => Err tt
      | Some _ =>
          if missing resource_id then Err tt
          else if missing request_id then Err tt
          else if missing source_ip then Err tt
          else _coerce_action a
      end
  end.

(** ** The sink ([AuditSink.emit])

    A stored event; [ev_id] is the identity the caller supplied, if any, and
    [ev_durable] says whether the record was committed independently
    ([record_committed]) or flushed in the caller's transaction ([record]). *)
Record AuditEvent := mk_event {
  ev_id : option uuid;
  ev_tenant : uuid;
  ev_action : AuditAction;
  ev_actor : option uuid;
  ev_resource_type : pystr;
  ev_resource_id : pystr;
  ev_outcome : AuditOutcome;
  ev_request_id : pystr;
  ev_source_ip : pystr;
  ev_metadata : dict;
  ev_durable : bool
}.

(** [emit] validates first; only a valid envelope reaches the repository. *)
Definition emit (repository_tenant : uuid) (event_id : option uuid) (action : action_arg)
    (actor : AuditActor) (resource_type : pystr) (outcome : AuditOutcome)
    (resource_id request_id source_ip : pystr) (metadata : dict) (durable : bool)
    : res unit AuditEvent :=
  a ← validate_envelope (Some repository_tenant) (Some action) (Some resource_type)
        (Some outcome) (Some resource_id) (Some request_id) (Some source_ip);
  Ok {| ev_id := event_id; ev_tenant := repository_tenant; ev_action := a;
        ev_actor := actor_id actor; ev_resource_type := resource_type;
        ev_resource_id := resource_id; ev_outcome := outcome;
        ev_request_id := request_id; ev_source_ip := source_ip;
        ev_metadata := metadata; ev_durable := durable |}.

(** ** Lemmas *)

Lemma action_of_value_of a : action_of_value (action_value a) = Some a.
Proof. destruct a; vm_compute; reflexivity. Qed.

Lemma all_actions_complete a : a ∈ all_actions.
Proof.
  pose proof (action_of_value_of a) as H. unfold action_of_value in H.
  apply fmap_Some in H as ([i a'] & (Hl & _)%list_find_Some & ->).
  by eapply list_elem_of_lookup_2.
Qed.

Lemma action_of_value_Some s a : action_of_value s = Some a <-> s = action_value a.
Proof.
  split; [|intros ->; apply action_of_value_of].
  unfold action_of_value. destruct (list_find _ all_actions) as [[i a']|] eqn:E; simpl; [|done].
  intros [= ->]. apply list_find_Some in E as (_ & Hs & _). done.
Qed.

Lemma action_value_inj a b : action_value a = action_value b -> a = b.
Proof.
  intros H. pose proof (action_of_value_of a) as Ha. rewrite H, action_of_value_of in Ha.
  congruence.
Qed.

Global Instance AuditAction_eq : EqDecision AuditAction.
Proof.
  intros a b. destruct (decide (action_value a = action_value b)) as [H|H].
  - left. by apply action_value_inj.
  - right. intros ->. by apply H.
Defined.

(** What [_coerce_action] means: the enum itself, or the member of that value. *)
Definition action_denotes (arg : action_arg) (a : AuditAction) : Prop :=
  match arg with AEnum a' => a' = a | AStr s => s = action_value a end.

Lemma coerce_action_ok arg a : _coerce_action arg = Ok a <-> action_denotes arg a.
Proof.
  destruct arg as [a'|s]; simpl; [split; congruence|].
  destruct (action_of_value s) as [a'|] eqn:E.
  - apply action_of_value_Some in E. subst s. split.
    + by intros [= ->].
    + intros ->%action_value_inj. done.
  - split; [done|]. intros ->. by rewrite action_of_value_of in E.
Qed.

(** A field is present: not [None] and not blank. *)
Definition present (s : option pystr) : Prop := exists t, s = Some t /\ blank t = false.

Lemma missing_false s : missing s = false <-> present s.
Proof.
  unfold present. destruct s as [t|]; simpl; split; [|naive_solver|done|naive_solver]; eauto.
Qed.

Lemma validate_envelope_inv tid act rt out rid rq ip a :
  validate_envelope tid act rt out rid rq ip = Ok a <->
  (exists t, tid = Some t) /\ (exists arg, act = Some arg /\ action_denotes arg a) /\
  (exists o, out = Some o) /\ present rt /\ present rid /\ present rq /\ present ip.
Proof.
  rewrite <-!missing_false. unfold validate_envelope. split.
  - intros H. repeat break_hyp H; try discriminate H.
    apply coerce_action_ok in H. repeat split; eauto.
  - intros ([t ->] & (arg & -> & Ha) & [o ->] & -> & -> & -> & ->).
    by apply coerce_action_ok.
Qed.

Lemma emit_ok tenant eid arg actor rt out rid rq ip md durable e :
  emit tenant eid arg actor rt out rid rq ip md durable = Ok e ->
  exists a, action_denotes arg a /\
    blank rt = false /\ blank rid = false /\ blank rq = false /\ blank ip = false /\
    e = mk_event eid tenant a (actor_id actor) rt rid out rq ip md durable.
Proof.
  unfold emit. intros (a & Hv & [= <-])%bind_ok.
  apply validate_envelope_inv in Hv as (_ & (arg' & [= <-] & Ha) & _ & Hrt & Hrid & Hrq & Hip).
  unfold present in *. naive_solver.
Qed.

Lemma emit_enum tenant eid a actor rt out rid rq ip md durable :
  blank rt = false -> blank rid = false -> blank rq = false -> blank ip = false ->
  emit tenant eid (AEnum a) actor rt out rid rq ip md durable =
  Ok (mk_event eid tenant a (actor_id actor) rt rid out rq ip md durable).
Proof. intros H1 H2 H3 H4. unfold emit, validate_envelope. simpl. by rewrite H1, H2, H3, H4. Qed.

Lemma emit_blank_resource tenant eid arg actor rt out rid rq ip md durable :
  blank rid = true ->
  emit tenant eid arg actor rt out rid rq ip md durable = Err tt.
Proof.
  intros H. unfold emit, validate_envelope. simpl. rewrite H. by destruct (blank rt).
Qed.

(** ** Properties *)

(** The envelope check accepts an event exactly when every required field
    is present and non-blank and the action belongs to the closed taxonomy, and
    it then returns that member (INV-6, fail closed). *)
Theorem validate_envelope_accepts_iff tid act rt out rid rq ip a :
  validate_envelope tid act rt out rid rq ip = Ok a <->
  (exists t, tid = Some t) /\
  (act = Some (AEnum a) \/ act = Some (AStr (action_value a))) /\
  (exists o, out = Some o) /\ present rt /\ present rid /\ present rq /\ present ip.
Proof.
  rewrite validate_envelope_inv. split; intros (Ht & Ha & Hrest); (split; [done|split; [|done]]).
  - destruct Ha as ([a'|s] & -> & Hd); simpl in Hd; subst; auto.
  - destruct Ha as [->| ->]; eexists; split; done.
Qed.
