(* ===== verification/Autonomy.v ===== *)
(** * Assistant autonomy and the tenant cap

    [AutonomyLevel] of [backend/app/domain/entities.py] and
    [backend/app/services/autonomy_policy_service.py]. *)

From stdpp Require Import base list strings gmap.
From S2P Require Import Prelude Json AuditLog.
Open Scope Z_scope.

Inductive AutonomyLevel : Type := SUGGEST | DRAFT | ACT_WITH_APPROVAL | ACT_AUTO.

Global Instance AutonomyLevel_eq : EqDecision AutonomyLevel.
Proof. solve_decision. Defined.

Definition autonomy_value (l : AutonomyLevel) : pystr :=
  match l with
  | SUGGEST => cp "suggest"
  | DRAFT => cp "draft"
  | ACT_WITH_APPROVAL => cp "act_with_approval"
  | ACT_AUTO => cp "act_auto"
  end.

Definition _AUTONOMY_ORDER : list AutonomyLevel :=
  [SUGGEST; DRAFT; ACT_WITH_APPROVAL; ACT_AUTO].

(** [_AUTONOMY_ORDER.index(self)] *)
Fixpoint index_of (x : AutonomyLevel) (l : list AutonomyLevel) : Z :=
  match l with
  | [] => 0
  | y :: l' => if decide (x = y) then 0 else 1 + index_of x l'
  end.
Definition rank (l : AutonomyLevel) : Z := index_of l _AUTONOMY_ORDER.

Definition clamped_to (l cap : AutonomyLevel) : AutonomyLevel :=
  if rank l <=? rank cap then l else cap.

(** ** The per-tenant cap *)

Definition _NO_CAP_DEFAULT : AutonomyLevel := ACT_AUTO.

Record TenantAutonomyPolicy := mk_autonomy_policy {
  tap_tenant : uuid;
  tap_max_autonomy : AutonomyLevel;
  tap_updated_by : option uuid
}.

(** The table has one row per tenant ([tenant_id] is unique). *)
Abbreviation autonomy_table := (gmap N TenantAutonomyPolicy) (only parsing).

Record AutonomyPolicyView := mk_autonomy_view {
  apv_max_autonomy : AutonomyLevel;
  apv_is_default : bool;
  apv_levels : list AutonomyLevel
}.

Definition _view (cap : option AutonomyLevel) : AutonomyPolicyView :=
  {| apv_max_autonomy := match cap with Some c => c | None => _NO_CAP_DEFAULT end;
     apv_is_default := match cap with Some _ => false | None => true end;
     apv_levels := _AUTONOMY_ORDER |}.

(** [AutonomyPolicyService.get_policy] *)
Definition get_policy (tenant : uuid) (t : autonomy_table) : AutonomyPolicyView :=
  _view (tap_max_autonomy <$> t !! tenant).

(** [TenantAutonomyPolicyRepository.upsert] *)
Definition upsert_cap (tenant : uuid) (max : AutonomyLevel) (by_ : option uuid)
    (t : autonomy_table) : TenantAutonomyPolicy * autonomy_table :=
  let row := mk_autonomy_policy tenant max by_ in (row, <[tenant := row]> t).

(** [AutonomyPolicyService.set_policy]: upsert, then the audit event; a sink
    that refuses the envelope raises and the transaction is rolled back. *)
Definition set_cap (tenant : uuid) (tenant_str : pystr) (max : AutonomyLevel)
    (actor : uuid) (request_id source_ip : pystr) (t : autonomy_table)
    : res unit (AutonomyPolicyView * AuditEvent * autonomy_table) :=
  let '(stored, t') := upsert_cap tenant max (Some actor) t in
  ev ← emit tenant None (AEnum AUTONOMY_CAP_UPDATED) (actor_user actor) (cp "tenant")
         ALLOWED tenant_str request_id source_ip
         [(cp "max_autonomy", JStr (autonomy_value (tap_max_autonomy stored)))] false;
  Ok (_view (Some (tap_max_autonomy stored)), ev, t').

(** [AutonomyPolicyReader.effective_cap]; [None] is a failed read. *)
Definition effective_cap (tenant : uuid) (read : option autonomy_table) : AutonomyLevel :=
  match read with
  | None => _NO_CAP_DEFAULT
  | Some t =>
      match t !! tenant with
      | Some cap => tap_max_autonomy cap
      | None => _NO_CAP_DEFAULT
      end
  end.

(** [AutonomyPolicyReader.clamp] *)
Definition clamp (tenant : uuid) (read : option autonomy_table) (l : AutonomyLevel)
    : AutonomyLevel := clamped_to l (effective_cap tenant read).

(** ** Lemmas *)

Lemma rank_inj a b : rank a = rank b -> a = b.
Proof. by destruct a, b. Qed.

Lemma rank_bounds a : 0 <= rank a <= 3.
Proof. destruct a; vm_compute; split; discriminate. Qed.

Lemma clamped_to_rank l cap : rank (clamped_to l cap) = Z.min (rank l) (rank cap).
Proof. unfold clamped_to. destruct (Z.leb_spec (rank l) (rank cap)); lia. Qed.

Lemma set_cap_ok tenant ts max actor rq ip t v e t' :
  set_cap tenant ts max actor rq ip t = Ok (v, e, t') ->
  t' = <[tenant := mk_autonomy_policy tenant max (Some actor)]> t /\
  v = _view (Some max) /\ ev_action e = AUTONOMY_CAP_UPDATED /\ ev_tenant e = tenant.
Proof.
  unfold set_cap. simpl. intros (ev & He & [= <- <- <-])%bind_ok.
  apply emit_ok in He as (a & Ha & _ & _ & _ & _ & ->). simpl in *. by subst a.
Qed.

(** ** Properties *)

(** The effective autonomy of an assistant is the meet of its own level and
    the tenant cap in the order suggest < draft < act_with_approval < act_auto:
    it is one of the two, below both, and the greatest such level; an absent or
    unreadable cap leaves the assistant's own level, and so no read, whatever
    it returns, raises an assistant above its own level. *)
Theorem clamp_is_meet tenant read l :
  let eff := clamp tenant read l in
  rank eff <= rank l /\
  rank eff <= rank (effective_cap tenant read) /\
  (eff = l \/ eff = effective_cap tenant read) /\
  (forall m, rank m <= rank l -> rank m <= rank (effective_cap tenant read) ->
     rank m <= rank eff) /\
  ((read = None \/ exists t, read = Some t /\ t !! tenant = None) -> eff = l).
Proof.
  unfold clamp. set (cap := effective_cap tenant read).
  pose proof (clamped_to_rank l cap) as Hr.
  repeat split; try lia.
  - unfold clamped_to. case_match; auto.
  - intros H. assert (cap = ACT_AUTO) as Hc.
    { unfold cap, effective_cap. destruct H as [->|(t & -> & ->)]; done. }
    apply rank_inj. rewrite Hr, Hc. pose proof (rank_bounds l).
    change (rank ACT_AUTO) with 3. lia.
Qed.
