(* ===== verification/ToolPolicy.v ===== *)
(** * Tool registry, tenant tool policy and the policy approval gate

    [backend/app/services/tools/registry.py], [.../tools/compatibility.py],
    [backend/app/services/tool_policy_service.py], [.../tools/gate.py], the
    repository calls they use and the computation of the offered tools at the
    start of an answer ([backend/app/services/chat_runtime.py]). *)

From stdpp Require Import base list strings gmap.
From Stdlib Require Import QArith.
From S2P Require Import Prelude Json Tools AuditLog.
Open Scope Z_scope.

(** ** The registry *)

(** A module of the impls package: its name and its [TOOLS], whose elements
    may be something else than a [ToolDefinition] ([None] here). *)
Record tool_module := mk_module {
  mod_name : pystr;
  mod_tools : option (list (option ToolDefinition))
}.

(** The [{name: ToolDefinition}] dict, in insertion order. *)
Abbreviation registry := (list (pystr * ToolDefinition)) (only parsing).

(** The inner loop over one module's definitions; [Err] is the duplicate name. *)
Fixpoint register_defs (defs : list (option ToolDefinition)) (found : registry)
    : res pystr registry :=
  match defs with
  | [] => Ok found
  | None :: rest => register_defs rest found
  | Some d :: rest =>
      match dict_get (td_name d) found with
      | Some _ => Err (td_name d)
      | None => register_defs rest (dict_set (td_name d) d found)
      end
  end.

Fixpoint register_modules (mods : list tool_module) (found : registry)
    : res pystr registry :=
  match mods with
  | [] => Ok found
  | m :: rest =>
      match mod_tools m with
      | None => register_modules rest found
      | Some defs => found' ← register_defs defs found; register_modules rest found'
      end
  end.

Definition _registry (package : list tool_module) : res pystr registry :=
  register_modules (py_sorted (fun a b => str_leb (mod_name a) (mod_name b)) package) [].

(** [get_tool]; [Err] is [UnknownToolError]. *)
Definition get_tool (reg : registry) (name : pystr) : res unit ToolDefinition :=
  match dict_get name reg with Some d => Ok d | None => Err tt end.

Definition has_tool (reg : registry) (name : pystr) : bool :=
  match dict_get name reg with Some _ => true | None => false end.

Definition registered_names (reg : registry) : gset pystr := list_to_set reg.*1.

Definition all_tools (reg : registry) : list ToolDefinition :=
  omap (fun name => dict_get name reg) (py_sorted str_leb reg.*1).

Definition default_allowlist (reg : registry) : gset pystr :=
  list_to_set (fst <$> filter (fun p => td_read_only p.2 = true /\
    td_requires_approval p.2 = false /\ td_default_offered p.2 = true) reg).

(** [tool_specs]: name, description and parameters of the offered tools. *)
Definition tool_specs (reg : registry) (names : option (gset pystr))
    : list (pystr * pystr * dict) :=
  omap (fun name =>
    if match names with None => true | Some allowed => bool_decide (name ∈ allowed) end
    then (fun d => (td_name d, td_description d, td_json_schema d)) <$> dict_get name reg
    else None) (py_sorted str_leb reg.*1).

(** ** Legacy names (compatibility.py) *)

Definition FAMILIES : list (gset pystr) :=
  [ {[ cp "search_passages"; cp "search_text" ]};
    {[ cp "find_documents"; cp "search_documents"; cp "list_documents" ]};
    {[ cp "read_document"; cp "get_document" ]} ].

Definition LEGACY : gset pystr :=
  {[ cp "search_text"; cp "search_documents"; cp "list_documents"; cp "get_document" ]}.

Definition permitted_names (allowed blocked : gset pystr) : gset pystr :=
  allowed ∖ foldl (fun denied family =>
    if bool_decide (family ∩ blocked = ∅) then denied else denied ∪ family)
    blocked FAMILIES.

(** ** Tenant tool policy *)

Record TenantToolPolicy := mk_policy {
  tp_id : uuid;
  tp_tenant_id : uuid;
  tp_tool_name : pystr;
  tp_enabled : bool;
  tp_requires_approval : bool;
  tp_updated_by : option uuid
}.

(** The table, keyed by its unique constraint [(tenant_id, tool_name)]. *)
Abbreviation policy_table := (gmap (N * pystr) TenantToolPolicy) (only parsing).

Record EffectiveToolDecision := mk_effective {
  ed_tool_name : pystr;
  ed_enabled : bool;
  ed_requires_approval : bool;
  ed_is_default : bool
}.

Definition effective_tool_decision (tool_name : pystr) (override : option TenantToolPolicy)
    (registry_requires_approval : bool) : EffectiveToolDecision :=
  match override with
  | None => mk_effective tool_name true registry_requires_approval true
  | Some p => mk_effective tool_name (tp_enabled p) (tp_requires_approval p) false
  end.

(** [TenantToolPolicyRepository.upsert]; [new_id] is the id the database gives
    an inserted row. *)
Definition upsert (tenant : uuid) (new_id : uuid) (tool_name : pystr)
    (enabled requires_approval : bool) (updated_by : option uuid) (db : policy_table)
    : policy_table :=
  let row := match db !! (tenant, tool_name) with
    | None => mk_policy new_id tenant tool_name enabled requires_approval updated_by
    | Some r => mk_policy (tp_id r) (tp_tenant_id r) (tp_tool_name r)
                  enabled requires_approval updated_by
    end in
  <[(tenant, tool_name) := row]> db.

Record ToolPolicyEntryView := mk_entry {
  pe_tool_name : pystr;
  pe_risk_tier : RiskTier;
  pe_read_only : bool;
  pe_enabled : bool;
  pe_requires_approval : bool;
  pe_is_default : bool;
  pe_description : pystr
}.

(** [ToolPolicyService._entry] *)
Definition _entry (d : ToolDefinition) (override : option TenantToolPolicy)
    : ToolPolicyEntryView :=
  let dec := effective_tool_decision (td_name d) override (td_requires_approval d) in
  {| pe_tool_name := td_name d; pe_risk_tier := td_risk_tier d;
     pe_read_only := td_read_only d; pe_enabled := ed_enabled dec;
     pe_requires_approval := ed_requires_approval dec; pe_is_default := ed_is_default dec;
     pe_description := td_description d |}.

(** [ToolPolicyService.list_policy] *)
Definition list_policy (reg : registry) (tenant : uuid) (db : policy_table)
    : list ToolPolicyEntryView :=
  (fun d => _entry d (db !! (tenant, td_name d))) <$> all_tools reg.

Inductive policy_error : Type := UnknownTool | AuditRefused.

(** [ToolPolicyService.set_policy] *)
Definition set_policy (reg : registry) (tenant new_id : uuid) (tool_name : pystr)
    (enabled requires_approval : bool) (actor : uuid) (request_id source_ip : pystr)
    (db : policy_table)
    : res policy_error (list ToolPolicyEntryView * AuditEvent * policy_table) :=
  if negb (has_tool reg tool_name) then Err UnknownTool
  else
    let db' := upsert tenant new_id tool_name enabled requires_approval (Some actor) db in
    match emit tenant None (AEnum TOOL_POLICY_UPDATED) (actor_user actor) (cp "tool")
            ALLOWED tool_name request_id source_ip
            [(cp "tool_name", JStr tool_name); (cp "enabled", JBool enabled);
             (cp "requires_approval", JBool requires_approval)] false with
    | Err _ => Err AuditRefused
    | Ok ev => Ok (list_policy reg tenant db', ev, db')
    end.

(** ** The policy approval gate (gate.py) *)

Record PolicyApprovalGate := mk_gate {
  pg_registry : registry;
  pg_tenant_id : uuid;
  pg_read : option policy_table        (** [None]: the policy read raises *)
}.

(** The arrow of "Admin -> Tool governance" is U+2192. *)
Definition admin_governance : pystr := cp "Admin " ++ [8594%N] ++ cp " Tool governance".

Section gate.
Context `{PyRepr}.

Definition gate_decide (g : PolicyApprovalGate) (request : ApprovalRequest)
    : ApprovalDecision :=
  let tool := ar_tool_name request in
  match pg_read g with
  | None => deny APPROVAL_REASON_POLICY_UNREADABLE
      (cp "Tool " ++ py_repr tool ++ cp " could not be checked against this workspace's tool policy, so it was refused rather than run unchecked. Try again shortly.")
  | Some db =>
      let policy := db !! (pg_tenant_id g, tool) in
      let registry_requires_approval :=
        match get_tool (pg_registry g) tool with
        | Ok d => td_requires_approval d
        | Err _ => is_write_tier (ar_risk_tier request)
        end in
      let decision := effective_tool_decision tool policy registry_requires_approval in
      match policy with
      | None =>
          if negb (ed_requires_approval decision) then allow None
          else deny APPROVAL_REASON_POLICY_ABSENT
            (cp "Tool " ++ py_repr tool ++ cp " is not enabled for this workspace " ++ [8212%N]
             ++ cp " no tool policy grants it. An admin can enable it under "
             ++ admin_governance ++ cp ".")
      | Some p =>
          if negb (ed_enabled decision) then
            deny APPROVAL_REASON_POLICY_DISABLED
              (cp "Tool " ++ py_repr tool ++ cp " is switched off for this workspace. An admin can enable it under " ++ admin_governance ++ cp ".")
          else if ed_requires_approval decision then
            deny APPROVAL_REASON_APPROVAL_UNAVAILABLE
              (cp "Tool " ++ py_repr tool ++ cp " is enabled but still marked 'requires approval', and there is no approver on this surface, so it cannot be approved and the call was refused. An admin must clear 'requires approval' for it under " ++ admin_governance ++ cp " to pre-approve it.")
          else if negb (is_write_tier (ar_risk_tier request)) then allow None
          else allow (Some {|
            rec_scope := APPROVAL_SCOPE_TENANT_PREAPPROVAL;
            rec_policy_id := Some (tp_id p);
            rec_approved_by := tp_updated_by p;
            rec_arguments_hash := Some (ar_arguments_hash request) |})
      end
  end.

Global Instance policy_gate_request : ApprovalGate PolicyApprovalGate :=
  fun g request => GateDecision (gate_decide g request).
End gate.

(** ** The tools offered to an answer (chat_runtime.py) *)

Record offered_tools := mk_offered {
  of_allowed : gset pystr;
  of_executable : gset pystr;
  of_approval_required : gset pystr
}.

(** [overrides = {policy.tool_name: policy for policy in policies}] for the
    tenant's rows. *)
Definition tenant_overrides (tenant : uuid) (db : policy_table) (name : pystr)
    : option TenantToolPolicy := db !! (tenant, name).

Definition override_names (tenant : uuid) (db : policy_table) : gset pystr :=
  set_map snd (filter (fun k : N * pystr => k.1 = tenant) (dom db)).

(** The decision of one name; a tool outside the registry requires approval. *)
Definition runtime_decision (reg : registry) (tenant : uuid) (db : policy_table)
    (name : pystr) : EffectiveToolDecision :=
  effective_tool_decision name (tenant_overrides tenant db name)
    (match get_tool reg name with Ok d => td_requires_approval d | Err _ => true end).

Definition approval_blocked_reads : gset pystr :=
  LEGACY ∪ {[ cp "search_passages"; cp "find_documents"; cp "read_document" ]}.

(** [config_allowed] is [assistant_config.allowed], [None] for ad-hoc chat. *)
Definition resolve_offered (reg : registry) (tenant : uuid) (db : policy_table)
    (config_allowed : option (gset pystr)) : offered_tools :=
  let allowed := match config_allowed with Some a => a | None => default_allowlist reg end in
  let names := allowed ∪ LEGACY ∪ override_names tenant db in
  let decision := runtime_decision reg tenant db in
  let blocked := filter (fun name => ed_enabled (decision name) = false \/
    (ed_requires_approval (decision name) = true /\ name ∈ approval_blocked_reads)) names in
  let approval_required := filter (fun name => ed_is_default (decision name) = false /\
    ed_requires_approval (decision name) = true) names in
  let allowed' := permitted_names allowed blocked in
  {| of_allowed := allowed';
     of_executable := match config_allowed with
       | None => permitted_names (allowed' ∪ LEGACY) blocked
       | Some _ => allowed'
       end;
     of_approval_required := approval_required |}.

(** ** Lemmas *)

(** A registry maps each name to a definition of that name, once. *)
Definition registry_ok (reg : registry) : Prop :=
  NoDup reg.*1 /\ forall name d, (name, d) ∈ reg -> td_name d = name.

Lemma register_defs_ok defs found reg :
  registry_ok found -> register_defs defs found = Ok reg ->
  registry_ok reg /\ (forall p, p ∈ reg <-> p ∈ found \/
    exists d, Some d ∈ defs /\ p = (td_name d, d)).
Proof.
  revert found. induction defs as [|[d|] defs IH]; simpl; intros found Hok Hr.
  - simplify_eq. split; [done|]. set_solver.
  - destruct (dict_get _ found) eqn:Hfresh; [done|].
    apply IH in Hr as [Hok' Hel].
    + split; [done|]. intros p. rewrite Hel, dict_set_fresh by done. set_solver.
    + rewrite dict_set_fresh by done. destruct Hok as [Hnd Hname]. split.
      * rewrite fmap_app. apply NoDup_app. split; [done|]. split; [|apply NoDup_singleton].
        apply dict_get_none in Hfresh. set_solver.
      * intros name d' [?|?]%elem_of_app; [by apply Hname|]. set_solver.
  - destruct (IH found Hok Hr) as [Hok' Hel]. split; [done|].
    intros p. rewrite Hel. set_solver.
Qed.

Lemma register_modules_ok mods found reg :
  registry_ok found -> register_modules mods found = Ok reg ->
  registry_ok reg /\ (forall p, p ∈ reg <-> p ∈ found \/
    exists m defs d, m ∈ mods /\ mod_tools m = Some defs /\ Some d ∈ defs /\ p = (td_name d, d)).
Proof.
  revert found. induction mods as [|m mods IH]; simpl; intros found Hok Hr.
  - simplify_eq. split; [done|]. set_solver.
  - destruct (mod_tools m) as [defs|] eqn:Em.
    + apply bind_ok in Hr as (found' & Hd & Hr).
      apply register_defs_ok in Hd as [Hok' Hel']; [|done].
      apply IH in Hr as [Hok'' Hel]; [|done]. split; [done|].
      intros p. rewrite Hel, Hel'. set_solver.
    + apply IH in Hr as [Hok' Hel]; [|done]. split; [done|].
      intros p. rewrite Hel. set_solver.
Qed.

Lemma registry_spec pkg reg :
  _registry pkg = Ok reg ->
  registry_ok reg /\ (forall p, p ∈ reg <->
    exists m defs d, m ∈ pkg /\ mod_tools m = Some defs /\ Some d ∈ defs /\ p = (td_name d, d)).
Proof.
  intros Hr. apply register_modules_ok in Hr as [Hok Hel].
  - split; [done|]. intros p. rewrite Hel. setoid_rewrite elem_of_py_sorted. set_solver.
  - split; [apply NoDup_nil_2|set_solver].
Qed.

Lemma get_tool_ok reg name d :
  registry_ok reg -> get_tool reg name = Ok d <-> (name, d) ∈ reg.
Proof.
  intros [Hnd _]. rewrite <-(dict_get_elem name d reg Hnd). unfold get_tool.
  destruct (dict_get name reg); split; congruence.
Qed.

Lemma elem_of_all_tools reg d :
  registry_ok reg -> d ∈ all_tools reg <-> (td_name d, d) ∈ reg.
Proof.
  intros [Hnd Hname]. unfold all_tools. rewrite list_elem_of_omap.
  setoid_rewrite elem_of_py_sorted. setoid_rewrite dict_get_elem; [|done]. split.
  - intros (name & _ & Hin). by rewrite (Hname _ _ Hin).
  - intros Hin. exists (td_name d). split; [|done].
    by apply (list_elem_of_fmap_2 fst) in Hin.
Qed.

(** The gate's verdict, in one line. *)
Definition pre_approved (builtin_requires : bool) (row : option TenantToolPolicy) : bool :=
  match row with
  | None => negb builtin_requires
  | Some p => tp_enabled p && negb (tp_requires_approval p)
  end.

Definition builtin_requires (reg : registry) (req : ApprovalRequest) : bool :=
  match get_tool reg (ar_tool_name req) with
  | Ok d => td_requires_approval d
  | Err _ => is_write_tier (ar_risk_tier req)
  end.

Section gate_lemmas.
Context `{PyRepr}.

Lemma gate_decide_approved g req :
  ad_approved (gate_decide g req) =
  match pg_read g with
  | None => false
  | Some db => pre_approved (builtin_requires (pg_registry g) req)
                 (db !! (pg_tenant_id g, ar_tool_name req))
  end.
Proof.
  unfold gate_decide, pre_approved, builtin_requires.
  destruct (pg_read g) as [db|]; [|done].
  destruct (db !! _) as [p|]; simpl.
  - destruct (tp_enabled p), (tp_requires_approval p); simpl; try done.
    by destruct (is_write_tier _).
  - by destruct (match get_tool _ _ with Ok _ => _ | Err _ => _ end).
Qed.

Lemma gate_decide_record g req r :
  ad_approval (gate_decide g req) = Some r ->
  is_write_tier (ar_risk_tier req) = true /\
  exists db p, pg_read g = Some db /\ db !! (pg_tenant_id g, ar_tool_name req) = Some p /\
    tp_enabled p = true /\ tp_requires_approval p = false /\
    r = mk_record APPROVAL_SCOPE_TENANT_PREAPPROVAL (Some (tp_id p)) (tp_updated_by p)
          (Some (ar_arguments_hash req)).
Proof.
  unfold gate_decide. destruct (pg_read g) as [db|]; [|done].
  destruct (db !! _) as [p|] eqn:Hp; simpl.
  - destruct (tp_enabled p) eqn:?, (tp_requires_approval p) eqn:?; simpl; try done.
    destruct (is_write_tier _) eqn:?; simpl; [|done].
    intros [= <-]. split; [done|]. eauto 10.
  - by destruct (match get_tool _ _ with Ok _ => _ | Err _ => _ end).
Qed.
End gate_lemmas.

Lemma permitted_names_spec name allowed blocked :
  name ∈ permitted_names allowed blocked <->
  name ∈ allowed /\ (name ∉ blocked) /\
  forall family, family ∈ FAMILIES -> name ∈ family -> family ∩ blocked = ∅.
Proof.
  unfold permitted_names. rewrite elem_of_difference.
  assert (forall fams (acc : gset pystr), name ∈ foldl (fun denied family =>
      if bool_decide (family ∩ blocked = ∅) then denied else denied ∪ family) acc fams <->
    name ∈ acc \/ exists family, family ∈ fams /\ name ∈ family /\ family ∩ blocked <> ∅) as Hf.
  { induction fams as [|f fams IH]; intros acc; cbn [foldl]; [set_solver|].
    rewrite IH. case_bool_decide; set_solver. }
  rewrite Hf. split.
  - intros (Ha & Hn). split_and!; [done|tauto|]. intros f Hf1 Hf2.
    destruct (decide (f ∩ blocked = ∅)); [done|]. exfalso. eauto 10.
  - intros (Ha & Hb & Hfam). split; [done|]. intros [?|(f & ? & ? & Hne)]; [done|].
    by apply Hne, Hfam.
Qed.

Lemma disabled_not_offered reg tenant db config_allowed name :
  ed_enabled (runtime_decision reg tenant db name) = false ->
  (name ∉ of_allowed (resolve_offered reg tenant db config_allowed)) /\
  name ∉ of_executable (resolve_offered reg tenant db config_allowed).
Proof.
  intros Hdis. unfold resolve_offered; cbn [of_allowed of_executable].
  set (allowed := match config_allowed with Some a => a | None => _ end).
  set (blocked := filter _ _).
  assert (name ∈ allowed ∪ LEGACY -> name ∈ blocked) as Hb.
  { intros Hin. unfold blocked. apply elem_of_filter. split; [by left|set_solver]. }
  assert (forall a', a' ⊆ allowed ∪ LEGACY -> name ∉ permitted_names a' blocked) as Hp.
  { intros a' Hsub (Ha & Hnb & _)%permitted_names_spec. by apply Hnb, Hb, Hsub. }
  split; [apply Hp; set_solver|]. destruct config_allowed as [a|]; [apply Hp; set_solver|].
  apply Hp. intros x [Hx|Hx]%elem_of_union; [|set_solver].
  apply permitted_names_spec in Hx as [Hx _]. set_solver.
Qed.

Lemma upsert_lookup_ne tenant new_id tool en ra by_ db k :
  k <> (tenant, tool) -> upsert tenant new_id tool en ra by_ db !! k = db !! k.
Proof. intros Hne. unfold upsert. by rewrite lookup_insert_ne. Qed.

Lemma upsert_lookup_eq tenant new_id tool en ra by_ db :
  exists p, upsert tenant new_id tool en ra by_ db !! (tenant, tool) = Some p /\
    tp_enabled p = en /\ tp_requires_approval p = ra /\ tp_updated_by p = by_ /\
    tp_id p = match db !! (tenant, tool) with Some r => tp_id r | None => new_id end.
Proof.
  unfold upsert. rewrite lookup_insert_eq.
  destruct (db !! (tenant, tool)); eexists; split_and!; reflexivity.
Qed.

Lemma set_policy_ok reg tenant new_id tool en ra actor rq ip db entries ev db' :
  set_policy reg tenant new_id tool en ra actor rq ip db = Ok (entries, ev, db') ->
  has_tool reg tool = true /\ db' = upsert tenant new_id tool en ra (Some actor) db /\
  entries = list_policy reg tenant db' /\ ev_action ev = TOOL_POLICY_UPDATED /\
  ev_tenant ev = tenant /\ ev_actor ev = Some actor /\ ev_resource_id ev = tool.
Proof.
  unfold set_policy. destruct (has_tool reg tool); [|done].
  destruct (emit _ _ _ _ _ _ _ _ _ _ _) as [e|] eqn:He; [|done]. intros [= <- <- <-].
  apply emit_ok in He as (a & Ha & _ & _ & _ & _ & ->). simpl in Ha. subst a. done.
Qed.

(** ** Properties *)

(** The admin listing, the approval gate and the offered tools never
    disagree.  For every registered tool and every tenant policy table, the
    gate approves a call exactly when the tenant's listing shows the tool
    enabled and not requiring approval; the runtime's decision carries the same
    flags; and a tool listed as disabled is neither offered nor executable. *)
Theorem surfaces_agree `{PyRepr} pkg reg tenant db d request config_allowed
    (Hreg : _registry pkg = Ok reg) (Hd : (td_name d, d) ∈ reg)
    (Hreq : ar_tool_name request = td_name d) :
  exists e, e ∈ list_policy reg tenant db /\ pe_tool_name e = td_name d /\
    ad_approved (gate_decide (mk_gate reg tenant (Some db)) request)
      = pe_enabled e && negb (pe_requires_approval e) /\
    ed_enabled (runtime_decision reg tenant db (td_name d)) = pe_enabled e /\
    ed_requires_approval (runtime_decision reg tenant db (td_name d))
      = pe_requires_approval e /\
    (pe_enabled e = false ->
      (td_name d ∉ of_allowed (resolve_offered reg tenant db config_allowed)) /\
      td_name d ∉ of_executable (resolve_offered reg tenant db config_allowed)).
Proof.
  apply registry_spec in Hreg as [Hok _].
  assert (get_tool reg (td_name d) = Ok d) as Hget by (by apply get_tool_ok).
  exists (_entry d (db !! (tenant, td_name d))). split_and!.
  - apply list_elem_of_fmap. exists d. split; [done|]. by apply elem_of_all_tools.
  - done.
  - rewrite gate_decide_approved. simpl. unfold builtin_requires.
    rewrite Hreq, Hget. unfold _entry. by destruct (db !! _).
  - unfold runtime_decision, _entry, tenant_overrides. by destruct (db !! _).
  - unfold runtime_decision, _entry, tenant_overrides. rewrite Hget. by destruct (db !! _).
  - intros Hoff. apply disabled_not_offered. revert Hoff.
    unfold runtime_decision, _entry, tenant_overrides. by destruct (db !! _).
Qed.

(** Setting a policy takes effect at the next gate decision and nowhere
    else.  A write naming an unregistered tool is refused; an accepted write is
    audited, and afterwards the tenant's gate approves that tool exactly when
    the admin enabled it without requiring approval, the record of a T2+
    approval naming that admin and the call's argument hash, while the gate of
    every other tenant, and of this tenant for every other tool, decides as
    before. *)
Theorem set_policy_governs_gate `{PyRepr} reg tenant new_id tool en ra actor rq ip db entries ev db'
    (Hset : set_policy reg tenant new_id tool en ra actor rq ip db = Ok (entries, ev, db')) :
  (has_tool reg tool = true /\ ev_action ev = TOOL_POLICY_UPDATED /\ ev_actor ev = Some actor) /\
  (forall req, ar_tool_name req = tool ->
    let d := gate_decide (mk_gate reg tenant (Some db')) req in
    ad_approved d = en && negb ra /\
    (is_write_tier (ar_risk_tier req) = true -> ad_approved d = true ->
      exists r, ad_approval d = Some r /\ rec_approved_by r = Some actor /\
        rec_policy_id r <> None /\ rec_arguments_hash r = Some (ar_arguments_hash req))) /\
  (forall tenant' req, tenant' <> tenant \/ ar_tool_name req <> tool ->
    gate_decide (mk_gate reg tenant' (Some db')) req =
    gate_decide (mk_gate reg tenant' (Some db)) req).
Proof.
  apply set_policy_ok in Hset as (Hhas & -> & _ & Hact & _ & Hactor & _).
  split_and!; [done|done|done| |].
  - intros req <-. destruct (upsert_lookup_eq tenant new_id (ar_tool_name req) en ra (Some actor) db)
      as (p & Hp & Hen & Hra & Hby & Hid).
    cbv zeta. rewrite gate_decide_approved. simpl. rewrite Hp. simpl.
    rewrite Hen, Hra. split; [done|].
    intros Hw Happ. unfold gate_decide. simpl. rewrite Hp. simpl. rewrite Hen, Hra, Hw.
    destruct en, ra; try done. simpl. eexists. split_and!; [reflexivity|done|done|done].
  - intros tenant' req Hne. unfold gate_decide. simpl.
    rewrite upsert_lookup_ne by (intros [= ??]; naive_solver). done.
Qed.

(** ** Witnesses *)

Definition demo_handler : handler := fun _ _ => (0%Q,
  HReturn (mk_body (cp "ok") true None [] None 0 [] [] None None)).
Definition demo_tool : ToolDefinition :=
  mk_tool (cp "send_mail") (cp "Send a mail.") [] demo_handler T2 true false None false.
Definition demo_package : list tool_module :=
  [mk_module (cp "mail") (Some [Some demo_tool])].
Definition demo_registry : registry := [(cp "send_mail", demo_tool)].
Definition demo_principal : Principal := mk_principal 7 1.
Definition demo_request : ApprovalRequest :=
  mk_request (cp "c1") (cp "send_mail") T2 demo_principal [] (cp "hash").
Definition demo_table : policy_table :=
  {[ (1%N, cp "send_mail") := mk_policy 5 1 (cp "send_mail") false true None ]}.
#[local] Instance demo_repr : PyRepr := fun s => s.

Lemma surfaces_agree_witness :
  _registry demo_package = Ok demo_registry /\
  exists e, e ∈ list_policy demo_registry 1%N demo_table /\ pe_tool_name e = cp "send_mail" /\
    ad_approved (gate_decide (mk_gate demo_registry 1%N (Some demo_table)) demo_request)
      = pe_enabled e && negb (pe_requires_approval e) /\
    ed_enabled (runtime_decision demo_registry 1%N demo_table (cp "send_mail")) = pe_enabled e /\
    ed_requires_approval (runtime_decision demo_registry 1%N demo_table (cp "send_mail"))
      = pe_requires_approval e /\
    (pe_enabled e = false ->
      (cp "send_mail" ∉ of_allowed (resolve_offered demo_registry 1%N demo_table
        (Some {[cp "send_mail"]}))) /\
      cp "send_mail" ∉ of_executable (resolve_offered demo_registry 1%N demo_table
        (Some {[cp "send_mail"]}))).
Proof.
  split; [reflexivity|].
  apply (surfaces_agree demo_package demo_registry 1%N demo_table demo_tool demo_request
    (Some {[cp "send_mail"]})); [reflexivity| |reflexivity].
  apply list_elem_of_here.
Defined.

Lemma set_policy_governs_gate_witness :
  exists entries ev db',
    set_policy demo_registry 1%N 9%N (cp "send_mail") true false 42%N (cp "r") (cp "ip") demo_table
      = Ok (entries, ev, db') /\
    ad_approved (gate_decide (mk_gate demo_registry 1%N (Some db')) demo_request) = true.
Proof.
  eexists _, _, _. split; [reflexivity|].
  eapply (set_policy_governs_gate demo_registry 1%N 9%N (cp "send_mail") true false 42%N
    (cp "r") (cp "ip") demo_table _ _ _ eq_refl); reflexivity.
Defined.
