(* ===== verification/ToolRunner.v ===== *)
(** * The governed tool runner

    [backend/app/services/tools/runner.py]: resolve, allow-list, argument
    validation, autonomy, approval, intent, bounded execution, ordered
    persistence.  A run is a state transformer over [rstate]; the effects other
    components observe (audit events, trace rows, gate requests, handler calls,
    call scopes) are recorded in [st_log] in the order they happen. *)

From stdpp Require Import base list strings gmap pretty.
From Stdlib Require Import QArith.
From S2P Require Import Prelude Json ToolSchema Tools AuditLog Autonomy ToolPolicy.
Open Scope Z_scope.

(** One [tool_invocations] row. *)
Record ToolInvocationRow := mk_row {
  row_invocation_id : uuid;
  row_tool_name : pystr;
  row_args_hash : pystr;
  row_ok : bool;
  row_duration_ms : Z;
  row_session_id : option uuid;
  row_message_id : option uuid;
  row_error : option pystr;
  row_result_summary : option pystr;
  row_ordinal : N
}.

Inductive event : Type :=
| EGate (req : ApprovalRequest)
| EAudit (id : uuid) (e : AuditEvent)
| EHandler (tool : ToolDefinition) (name : pystr) (args : dict) (ctx : ToolContext)
| ERow (row : ToolInvocationRow)
| EScopeEnter
| EScopeExit.

(** What the runner takes from the standard library, the clock and the
    database. *)
Class RunnerHost := {
  json_dumps_sorted : dict -> pystr;         (** json.dumps(d, sort_keys=True, default=repr) *)
  sha256_hex : pystr -> pystr;               (** sha256(s.encode()).hexdigest() *)
  uuid5 : uuid -> pystr -> uuid;
  uuid_str : uuid -> pystr;
  elapsed_ms : list event -> Z;              (** the monotonic clock, at a point of the run *)
  fresh_event_id : list event -> uuid;       (** the id the database gives an audit event *)
  store_up : list event -> bool              (** does the next write succeed *)
}.

(** ** State and control flow *)

(** A finished shared web search: its result, or how its task ended. *)
Inductive web_task : Type :=
| TDone (r : ToolResult)
| TCancelled
| TRaised.

Record rstate := mk_state {
  st_ordinal : N;                            (** [_ordinal]: the next ordinal to claim *)
  st_next : N;                               (** [_next_persist_ordinal] *)
  st_aborted : bool;                         (** [_persistence_aborted] *)
  st_web : list (pystr * (pystr * web_task));  (** [_web_executions]: key -> origin, task *)
  st_origins : list (pystr * pystr);         (** [_web_origins]: call id -> origin *)
  st_log : list event
}.

(** Exceptions that leave the runner; [XBlocked] is not one: the call waits on
    the persistence condition. *)
Inductive exn : Type :=
| XCancelled
| XCancellationPending
| XStore            (** an audit envelope or a write was refused *)
| XBlocked.

Definition M (A : Type) : Type := rstate -> (exn + A) * rstate.

Global Instance M_ret : MRet M := fun A a s => (inr a, s).
Global Instance M_bind : MBind M := fun A B k m s =>
  match m s with (inr a, s') => k a s' | (inl x, s') => (inl x, s') end.

Definition throw {A} (x : exn) : M A := fun s => (inl x, s).
Definition get : M rstate := fun s => (inr s, s).
Definition modify (f : rstate -> rstate) : M unit := fun s => (inr tt, f s).
(** [try: m finally: f], where [f] does not raise. *)
Definition finally {A} (m : M A) (f : rstate -> rstate) : M A :=
  fun s => let '(o, s') := m s in (o, f s').
(** [try: m except CancelledError: h; raise] *)
Definition on_cancel {A B} (m : M A) (h : M B) : M A := fun s =>
  match m s with
  | (inl XCancelled, s') =>
      match h s' with (inl x, s2) => (inl x, s2) | (inr _, s2) => (inl XCancelled, s2) end
  | r => r
  end.

Definition add_log (e : event) (s : rstate) : rstate :=
  mk_state (st_ordinal s) (st_next s) (st_aborted s) (st_web s) (st_origins s) (st_log s ++ [e]).
Definition tell (e : event) : M unit := modify (add_log e).
Definition advance (s : rstate) : rstate :=
  mk_state (st_ordinal s) (st_next s + 1)%N (st_aborted s) (st_web s) (st_origins s) (st_log s).
Definition set_web (w : list (pystr * (pystr * web_task))) (s : rstate) : rstate :=
  mk_state (st_ordinal s) (st_next s) (st_aborted s) w (st_origins s) (st_log s).
Definition set_origins (o : list (pystr * pystr)) (s : rstate) : rstate :=
  mk_state (st_ordinal s) (st_next s) (st_aborted s) (st_web s) o (st_log s).

(** ** The runner *)

Record runner (G : Type) := mk_runner {
  r_registry : registry;
  r_allowed : gset pystr;
  r_extra_tools : list (pystr * ToolDefinition);
  r_autonomy : AutonomyLevel;
  r_approval_required_tools : gset pystr;
  r_gate : G;
  r_tenant : uuid;
  r_actor : AuditActor;
  r_request_id : pystr;
  r_source_ip : pystr;
  r_session_id : option uuid;
  r_namespace : uuid
}.
Arguments r_registry {G}. Arguments r_allowed {G}. Arguments r_extra_tools {G}.
Arguments r_autonomy {G}. Arguments r_approval_required_tools {G}. Arguments r_gate {G}.
Arguments r_tenant {G}. Arguments r_actor {G}. Arguments r_request_id {G}.
Arguments r_source_ip {G}. Arguments r_session_id {G}. Arguments r_namespace {G}.

Inductive _AutonomyDecision : Type := AD_ALLOW | AD_APPROVE | AD_DENY.

Definition _requires_autonomy_approval (d : ToolDefinition) : bool :=
  bool_decide (td_risk_tier d = T1) && negb (td_requires_approval d).

Definition _autonomy_decision (a : AutonomyLevel) : _AutonomyDecision :=
  if decide (a = ACT_AUTO) then AD_ALLOW
  else if decide (a = ACT_WITH_APPROVAL) then AD_APPROVE
  else AD_DENY.

(** [_as_decision] *)
Definition _as_decision (v : gate_answer) : ApprovalDecision :=
  match v with GateDecision d => d | GateBool b => mk_decision b None None None end.

(** Python's [a or b] on optional strings. *)
Definition or_str (a b : option pystr) : option pystr := if truthy a then a else b.

Section runner.
Context `{PyRepr} `{RunnerHost} `{SchemaLib} {G : Type} `{ApprovalGate G}.
Implicit Types (r : runner G) (call : ToolCall) (ctx : ToolContext).

Definition hash_args (arguments : dict) : pystr := sha256_hex (json_dumps_sorted arguments).

(** [_resolve] *)
Definition _resolve r (name : pystr) : option ToolDefinition :=
  match dict_get name (r_extra_tools r) with
  | Some d => Some d
  | None => match get_tool (r_registry r) name with Ok d => Some d | Err _ => None end
  end.

Definition is_concurrency_safe r (name : pystr) : bool :=
  match dict_get name (r_extra_tools r) with
  | Some _ => false
  | None => match _resolve r name with None => true | Some d => td_read_only d end
  end.

Definition requires_call_scope r (name : pystr) : bool :=
  match dict_get name (r_extra_tools r) with
  | Some _ => false
  | None => match _resolve r name with
            | None => false
            | Some d => td_read_only d && bool_decide (name ∈ r_allowed r)
            end
  end.

(** [claim_ordinal] *)
Definition claim_ordinal : M N := fun s =>
  (inr (st_ordinal s),
   mk_state (st_ordinal s + 1)%N (st_next s) (st_aborted s) (st_web s) (st_origins s) (st_log s)).

(** [abort_persistence] *)
Definition abort_persistence : M unit := modify (fun s =>
  mk_state (st_ordinal s) (st_next s) true (st_web s) (st_origins s) (st_log s)).

(** One audit event through the sink, given the id the database assigns. *)
Definition sink_emit r (action : AuditAction) (name : pystr) (outcome : AuditOutcome)
    (metadata : dict) (durable : bool) : M uuid :=
  s ← get;
  match emit (r_tenant r) None (AEnum action) (r_actor r) (cp "tool") outcome name
          (r_request_id r) (r_source_ip r) metadata durable with
  | Err _ => throw XStore
  | Ok e =>
      if store_up (st_log s) then
        let id := fresh_event_id (st_log s) in
        _ ← tell (EAudit id e); mret id
      else throw XStore
  end.

Definition record_row (row : ToolInvocationRow) : M unit :=
  s ← get; if store_up (st_log s) then tell (ERow row) else throw XStore.

Definition opt_json (f : uuid -> pystr) (o : option uuid) : json :=
  match o with Some u => JStr (f u) | None => JNull end.

Definition _approval_metadata (a : ApprovalRecord) : dict :=
  [(cp "approval_scope", JStr (rec_scope a));
   (cp "approved_by", opt_json uuid_str (rec_approved_by a));
   (cp "approval_policy_id", opt_json uuid_str (rec_policy_id a))].

(** The [metadata] of [_finalise]. *)
Definition finalise_metadata (s : rstate) call (args_hash : pystr) (ordinal : N)
    (result : ToolResult) (reason : option pystr) (approval : option ApprovalRecord)
    (invoked_event_id : option uuid) : dict :=
  [(cp "tool", JStr (tc_name call)); (cp "call_id", JStr (tc_id call));
   (cp "args_hash", JStr args_hash); (cp "ok", JBool (tr_ok result));
   (cp "ordinal", JInt (Z.of_N ordinal))]
  ++ (match approval with Some a => _approval_metadata a | None => [] end)
  ++ (match invoked_event_id with
      | Some i => [(cp "invoked_event_id", JStr (uuid_str i))] | None => [] end)
  ++ (match tr_error result with
      | Some (c :: e) => [(cp "error", JStr (c :: e))] | _ => [] end)
  ++ (match reason with
      | Some (c :: e) => [(cp "denied_reason", JStr (c :: e))] | _ => [] end)
  ++ (match dict_get (tc_id call) (st_origins s) with
      | Some origin => [(cp "execution_call_id", JStr origin);
                        (cp "deduplicated", JBool (bool_decide (origin <> tc_id call)))]
      | None => [] end).

Definition _finalise r call (args_hash : pystr) (message_id : option uuid) (ordinal : N)
    (result : ToolResult) (outcome : AuditOutcome) (denied_reason : option pystr)
    (approval : option ApprovalRecord) (invoked_event_id : option uuid) : M ToolResult :=
  let reason := or_str denied_reason (tr_denied_reason result) in
  s ← get;
  let metadata := finalise_metadata s call args_hash ordinal result reason approval
                    invoked_event_id in
  if st_aborted s then throw XCancelled
  else if negb (N.eqb (st_next s) ordinal) then throw XBlocked
  else
    _ ← finally (
      _ ← (match invoked_event_id with
           | None => _ ← sink_emit r TOOL_INVOKED (tc_name call) outcome metadata false; mret tt
           | Some _ => mret tt
           end);
      _ ← sink_emit r TOOL_RESULT (tc_name call) outcome
            (metadata ++ [(cp "duration_ms", JInt (tr_duration_ms result))])
            (match invoked_event_id with Some _ => true | None => false end);
      record_row {|
        row_invocation_id := uuid5 (r_namespace r) (cp (pretty ordinal));
        row_tool_name := tc_name call; row_args_hash := args_hash; row_ok := tr_ok result;
        row_duration_ms := tr_duration_ms result; row_session_id := r_session_id r;
        row_message_id := message_id; row_error := tr_error result;
        row_result_summary := tr_summary result; row_ordinal := ordinal |}) advance;
    mret result.

(** [_complete] *)
Definition _complete call (body : ToolHandlerResult) (duration_ms : Z) : ToolResult :=
  if negb (hr_ok body) then
    failure_result (tc_id call) (tc_name call)
      (match hr_error body with Some (c :: e) => c :: e | _ => ERROR_TOOL_ERROR end)
      (hr_content body) (hr_summary body) duration_ms (hr_denied_reason body)
  else {|
    tr_call_id := tc_id call; tr_name := tc_name call; tr_ok := true;
    tr_content := hr_content body; tr_summary := hr_summary body;
    tr_payload := hr_payload body; tr_error := None; tr_duration_ms := duration_ms;
    tr_hit_count := hr_hit_count body; tr_passages := hr_passages body;
    tr_document_ids := hr_document_ids body; tr_denied_reason := None;
    tr_source_document_ids := hr_source_document_ids body |}.

(** [asyncio.wait_for(handler, timeout)]: a handler still running at the
    timeout is cancelled and [TimeoutError] raised. *)
Definition wait_for (timeout : option Q) (run : Q * handler_outcome) : handler_outcome :=
  match timeout with
  | None => snd run
  | Some t => if Qle_bool (fst run) t then snd run else HTimeoutError
  end.

Definition _execute r (definition : ToolDefinition) call ctx : M ToolResult :=
  let ctx' := mk_context (principal ctx) (tool_invocation_id ctx) (r_allowed r)
                (simulate_writes ctx) in
  _ ← tell (EHandler definition (tc_name call) (tc_arguments call) ctx');
  s ← get;
  let ms := elapsed_ms (st_log s) in
  match wait_for (td_timeout_seconds definition)
          (td_handler definition (tc_arguments call) ctx') with
  | HReturn body => mret (_complete call body ms)
  | HTimeoutError => mret (failure_result (tc_id call) (tc_name call) ERROR_TOOL_TIMEOUT
      (cp "The tool timed out before returning a result.") (Some (cp "timed out")) ms None)
  | HException => mret (failure_result (tc_id call) (tc_name call) ERROR_TOOL_ERROR
      (cp "The tool failed to complete. You may try a different approach.")
      (Some (cp "tool error")) ms None)
  | HCancelled => throw XCancelled
  | HCancellationPending => throw XCancellationPending
  end.

(** The awaited shared task, as the calls that join it see it. *)
Definition task_of (o : exn + ToolResult) : web_task :=
  match o with inr res => TDone res | inl XCancelled => TCancelled | inl _ => TRaised end.

Definition strip_query (args : dict) : dict :=
  match dict_get (cp "query") args with
  | Some (JStr q) => dict_set (cp "query") (JStr (py_strip q)) args
  | _ => args
  end.

Definition web_key ctx (arguments : dict) : pystr :=
  hash_args [(cp "tenant", JStr (uuid_str (tenant_id (principal ctx))));
             (cp "user", JStr (uuid_str (user_id (principal ctx))));
             (cp "args", JObj arguments)].

(** [replace(result, call_id=..., ...)] for a call that joined [origin]. *)
Definition reuse_result call (origin : pystr) (ms : Z) (res : ToolResult) : ToolResult := {|
  tr_call_id := tc_id call; tr_name := tc_name call; tr_ok := tr_ok res;
  tr_content := tr_content res;
  tr_summary := if decide (origin = tc_id call) then tr_summary res
    else Some (cp "Reused identical web search: " ++
               match tr_summary res with Some s => s | None => cp "None" end);
  tr_payload := tr_payload res; tr_error := tr_error res; tr_duration_ms := ms;
  tr_hit_count := tr_hit_count res; tr_passages := tr_passages res;
  tr_document_ids := tr_document_ids res; tr_denied_reason := tr_denied_reason res;
  tr_source_document_ids := tr_source_document_ids res |}.

Definition shareable r (definition : ToolDefinition) call : bool :=
  bool_decide (tc_name call = cp "web_search")
  && bool_decide (dict_get (tc_name call) (r_extra_tools r) = None)
  && td_read_only definition && negb (td_requires_approval definition).

(** A shared search that starts its own task: the task's fate decides what
    stays in [_web_executions] (only a finished, successful one is reused). *)
Definition _web_fresh r (definition : ToolDefinition) call (arguments : dict)
    (key : pystr) ctx : M ToolResult := fun s =>
  let s1 := set_origins (dict_set (tc_id call) (tc_id call) (st_origins s)) s in
  let '(o, s2) := _execute r definition
        (mk_call (tc_id call) (tc_name call) arguments) ctx s1 in
  let web := match task_of o with
    | TDone res => if tr_ok res then dict_set key (tc_id call, TDone res) (st_web s2)
                   else dict_pop key (st_web s2)
    | TCancelled => dict_pop key (st_web s2)
    | TRaised => dict_set key (tc_id call, TRaised) (st_web s2)
    end in
  match o with
  | inl x => (inl x, set_web web s2)
  | inr res => (inr (reuse_result call (tc_id call) (elapsed_ms (st_log s2)) res),
                set_web web s2)
  end.

(** [_execute_shared], for calls that run one after the other. *)
Definition _execute_shared r (definition : ToolDefinition) call ctx : M ToolResult :=
  if negb (shareable r definition call) then _execute r definition call ctx
  else fun s =>
    let arguments := strip_query (tc_arguments call) in
    let key := web_key ctx arguments in
    let fresh := _web_fresh r definition call arguments key ctx in
    match dict_get key (st_web s) with
    | Some (origin, TDone res) =>
        if tr_ok res then
          (inr (reuse_result call origin (elapsed_ms (st_log s)) res),
           set_origins (dict_set (tc_id call) origin (st_origins s)) s)
        else fresh (set_web (dict_pop key (st_web s)) s)
    | Some (_, TCancelled) => fresh (set_web (dict_pop key (st_web s)) s)
    | Some (_, TRaised) => (inl XCancellationPending, s)
    | None => fresh s
    end.

(** ** Admission: steps (1) to (4) of [_run_governed]

    A refused call carries the result it is finalised with; an admitted one
    the definition, the normalised call, its argument hash and the approval
    record that authorised it. *)
Inductive admission : Type :=
| Refused (args_hash : pystr) (result : ToolResult) (denied_reason : option pystr)
| Accepted (definition : ToolDefinition) (call : ToolCall) (args_hash : pystr)
    (granted : option ApprovalRecord).

(** Does the record authorise this T2+ call? *)
Definition record_authorises (tier : RiskTier) (granted : option ApprovalRecord)
    (args_hash : pystr) : bool :=
  bool_decide (tier = T2) &&
  match granted with
  | None => false
  | Some g => bool_decide (rec_scope g = APPROVAL_SCOPE_TENANT_PREAPPROVAL)
      && match rec_policy_id g with Some _ => true | None => false end
      && bool_decide (rec_arguments_hash g = Some args_hash)
  end.

(** Step (4), the approval seam, for a call that must clear the gate. *)
Definition approve r (definition : ToolDefinition) call (args_hash : pystr) ctx
    : M admission :=
  let request := mk_request (tc_id call) (tc_name call) (td_risk_tier definition)
                   (principal ctx) (tc_arguments call) args_hash in
  _ ← tell (EGate request);
  s ← get;
  let approval := _as_decision (gate_request (r_gate r) request) in
  let granted := ad_approval approval in
  let invalid := ad_approved approval && is_write_tier (td_risk_tier definition)
    && negb (record_authorises (td_risk_tier definition) granted args_hash) in
  let approval := if invalid then deny APPROVAL_REASON_RECORD_INVALID
      (cp "The approval record does not authorise this tool call. The action was not performed.")
    else approval in
  let granted := if invalid then None else granted in
  if negb (ad_approved approval) then
    mret (Refused args_hash
      (failure_result (tc_id call) (tc_name call) ERROR_APPROVAL_DENIED
        (match ad_detail approval with
         | Some (c :: d) => c :: d
         | _ => cp "Tool " ++ py_repr (tc_name call) ++ cp " requires approval, which was not granted. The action was not performed."
         end)
        (Some (match ad_reason approval with
               | Some (c :: d) => cp "approval denied: " ++ (c :: d)
               | _ => cp "approval denied"
               end))
        (elapsed_ms (st_log s)) None)
      (ad_reason approval))
  else mret (Accepted definition call args_hash granted).

Definition admit_call r call ctx : M admission :=
  s ← get;
  let args_hash := hash_args (tc_arguments call) in
  let ms := elapsed_ms (st_log s) in
  match _resolve r (tc_name call) with
  | None => mret (Refused args_hash
      (failure_result (tc_id call) (tc_name call) ERROR_NOT_FOUND
        (cp "Unknown tool: " ++ tc_name call) (Some (cp "unknown tool")) ms None) None)
  | Some definition =>
      if negb (bool_decide (tc_name call ∈ r_allowed r)) then
        mret (Refused args_hash
          (failure_result (tc_id call) (tc_name call) ERROR_NOT_PERMITTED
            (cp "Tool " ++ py_repr (tc_name call) ++ cp " is not permitted for this session. Use one of the available tools instead.")
            (Some (cp "not permitted")) ms None) None)
      else
        let arguments := legacy_arguments (tc_arguments call) (td_json_schema definition)
                           (td_read_only definition) in
        match validate_arguments arguments (td_json_schema definition) with
        | Some argument_error => mret (Refused args_hash
            (failure_result (tc_id call) (tc_name call) ERROR_BAD_ARGS argument_error
              (Some (cp "invalid arguments; correct the advertised fields")) ms None) None)
        | None =>
            let call := mk_call (tc_id call) (tc_name call) arguments in
            let args_hash := hash_args arguments in
            let decision := _autonomy_decision (r_autonomy r) in
            if _requires_autonomy_approval definition
               && match decision with AD_DENY => true | _ => false end then
              mret (Refused args_hash
                (failure_result (tc_id call) (tc_name call) ERROR_AUTONOMY_DENIED
                  (cp "Tool " ++ py_repr (tc_name call) ++ cp " takes an action this assistant's autonomy level ("
                   ++ py_repr (autonomy_value (r_autonomy r))
                   ++ cp ") does not permit. Raise the assistant's autonomy to act on it.")
                  (Some (cp "autonomy denied")) ms None) None)
            else
              let requires_gate := _requires_autonomy_approval definition
                && match decision with AD_APPROVE => true | _ => false end in
              if td_requires_approval definition
                 || bool_decide (td_risk_tier definition = T1)
                 || requires_gate
                 || bool_decide (tc_name call ∈ r_approval_required_tools r)
              then approve r definition call args_hash ctx
              else mret (Accepted definition call args_hash None)
        end
  end.

(** ** Steps (4b) to (7) *)

(** The approval-bearing intent, committed before any side effect. *)
Definition commit_intent r call (args_hash : pystr) (message_id : option uuid)
    (ordinal : N) (granted : option ApprovalRecord) : M (option uuid) :=
  match granted with
  | None => mret None
  | Some g =>
      id ← sink_emit r TOOL_INVOKED (tc_name call) ALLOWED
        ([(cp "tool", JStr (tc_name call)); (cp "call_id", JStr (tc_id call));
          (cp "args_hash", JStr args_hash); (cp "ordinal", JInt (Z.of_N ordinal));
          (cp "session_id", opt_json uuid_str (r_session_id r));
          (cp "message_id", opt_json uuid_str message_id)] ++ _approval_metadata g) true;
      mret (Some id)
  end.

(** [scope]: the isolated context a concurrent call executes in, if any. *)
Definition execute_in_scope r (definition : ToolDefinition) call ctx
    (scope : option ToolContext) : M ToolResult :=
  match scope with
  | None => _execute_shared r definition call ctx
  | Some scoped_context =>
      _ ← tell EScopeEnter;
      finally (_execute_shared r definition call scoped_context) (add_log EScopeExit)
  end.

Definition _run_governed r call ctx (message_id : option uuid) (ordinal : N)
    (scope : option ToolContext) : M ToolResult :=
  let ctx := mk_context (principal ctx)
               (Some (uuid5 (r_namespace r) (cp (pretty ordinal))))
               (allowed_tools ctx) (simulate_writes ctx) in
  a ← admit_call r call ctx;
  match a with
  | Refused args_hash result denied_reason =>
      _finalise r call args_hash message_id ordinal result DENIED denied_reason None None
  | Accepted definition call args_hash granted =>
      invoked_event_id ← commit_intent r call args_hash message_id ordinal granted;
      result ← on_cancel (execute_in_scope r definition call ctx scope)
        (s ← get;
         _finalise r call args_hash message_id ordinal
           (failure_result (tc_id call) (tc_name call) (cp "tool_cancelled")
             (cp "The tool call was cancelled.") (Some (cp "cancelled"))
             (elapsed_ms (st_log s)) None) ERROR None None None);
      _finalise r call args_hash message_id ordinal result
        (if tr_ok result then ALLOWED else ERROR) None granted invoked_event_id
  end.

(** [run]; the telemetry span around it only observes. *)
Definition run r call ctx (message_id : option uuid) (ordinal : option N)
    (scope : option ToolContext) : M ToolResult :=
  ordinal ← (match ordinal with None => claim_ordinal | Some o => mret o end);
  _run_governed r call ctx message_id ordinal scope.
End runner.

(** ** Lemmas: control flow *)

Section runner_lemmas.
Context `{PyRepr} `{RunnerHost} `{SchemaLib} {G : Type} `{ApprovalGate G}.
Implicit Types (r : runner G) (call : ToolCall) (ctx : ToolContext) (s : rstate).

Lemma M_bind_eq {A B} (m : M A) (k : A -> M B) s o s' :
  (m ≫= k) s = (o, s') <->
  (exists a s1, m s = (inr a, s1) /\ k a s1 = (o, s')) \/
  (exists x, m s = (inl x, s') /\ o = inl x).
Proof.
  unfold mbind, M_bind. destruct (m s) as [[x|a] s1]; split.
  - intros [= <- <-]. right. eauto.
  - intros [(?&?&[=]&_)|(?&[= -> ->]&->)]. done.
  - intros Hk. left. eauto.
  - intros [(?&?&[= <- <-]&?)|(?&[=]&_)]. done.
Qed.

Lemma M_get_bind {B} (k : rstate -> M B) s : (get ≫= k) s = k s s.
Proof. done. Qed.

Lemma M_tell_bind {B} e (k : unit -> M B) s : (tell e ≫= k) s = k tt (add_log e s).
Proof. done. Qed.

Lemma M_ret_eq {A} (a : A) s o s' : (mret a : M A) s = (o, s') <-> o = inr a /\ s' = s.
Proof. unfold mret, M_ret. naive_solver. Qed.

(** The audit event the sink stores. *)
Definition tool_event r (a : AuditAction) name out md durable : AuditEvent :=
  mk_event None (r_tenant r) a (actor_id (r_actor r)) (cp "tool") name out
    (r_request_id r) (r_source_ip r) md durable.

Definition app_log (evs : list event) s : rstate :=
  mk_state (st_ordinal s) (st_next s) (st_aborted s) (st_web s) (st_origins s)
    (st_log s ++ evs).

Lemma app_log_nil s : app_log [] s = s.
Proof. unfold app_log. rewrite app_nil_r. by destruct s. Qed.

Lemma app_log_app l1 l2 s : app_log l2 (app_log l1 s) = app_log (l1 ++ l2) s.
Proof. unfold app_log. simpl. by rewrite app_assoc. Qed.

(** [m] writes the events [f log] one after the other: a store failure stops
    it after some of them, and it only returns once all are written. *)
Definition emits {A} (m : M A) (f : list event -> list event) : Prop :=
  forall s o s', m s = (o, s') -> exists pre, pre `prefix_of` f (st_log s) /\
    s' = app_log pre s /\ (o = inl XStore \/ (exists a, o = inr a /\ pre = f (st_log s))).

Lemma emits_ret {A} (a : A) : emits (mret a) (fun _ => []).
Proof.
  intros s o s' [-> ->]%M_ret_eq. exists []. rewrite app_log_nil.
  split; [apply prefix_nil|]. split; [done|]. right. by exists a.
Qed.

Lemma emits_bind {A B} (m : M A) (k : A -> M B) f g :
  emits m f -> (forall a, emits (k a) g) ->
  emits (m ≫= k) (fun l => f l ++ g (l ++ f l)).
Proof.
  intros Hm Hk s o s' [(a & s1 & Em & Ek)|(x & Em & ->)]%M_bind_eq.
  - apply Hm in Em as (pre & _ & -> & [[=]|(a' & [= <-] & ->)]).
    apply Hk in Ek as (pre' & Hpre & -> & Ho). exists (f (st_log s) ++ pre').
    rewrite app_log_app. split; [by apply prefix_app|]. split; [done|].
    destruct Ho as [->|(b & -> & ->)]; [by left|right; eauto].
  - apply Hm in Em as (pre & Hpre & -> & [[= ->]|(a & [=] & _)]).
    exists pre. split; [by apply prefix_app_r|]. auto.
Qed.

Lemma emits_ext {A} (m : M A) f g :
  emits m f -> (forall l, f l = g l) -> emits m g.
Proof. intros Hm Hfg s o s' Hs. rewrite <-Hfg. by apply Hm. Qed.

Lemma emits_sink r a name out md durable :
  emits (sink_emit r a name out md durable)
    (fun l => [EAudit (fresh_event_id l) (tool_event r a name out md durable)]).
Proof.
  intros s o s'. unfold sink_emit. rewrite M_get_bind.
  destruct (emit _ _ _ _ _ _ _ _ _ _ _) as [e|[]] eqn:He.
  - apply emit_ok in He as (a' & Ha & _ & _ & _ & _ & ->). simpl in Ha. subst a'.
    destruct (store_up _); intros [= <- <-].
    + eexists. split; [done|]. split; [reflexivity|]. right; eauto.
    + exists []. rewrite app_log_nil. auto using prefix_nil.
  - intros [= <- <-]. exists []. rewrite app_log_nil. auto using prefix_nil.
Qed.

Lemma emits_row row : emits (record_row row) (fun _ => [ERow row]).
Proof.
  intros s o s'. unfold record_row. rewrite M_get_bind.
  destruct (store_up _); intros [= <- <-].
  - eexists. split; [done|]. split; [reflexivity|]. right; eauto.
  - exists []. rewrite app_log_nil. auto using prefix_nil.
Qed.

(** ** Lemmas: finalisation *)

Definition result_row r call args_hash message_id ordinal (result : ToolResult)
    : ToolInvocationRow :=
  mk_row (uuid5 (r_namespace r) (cp (pretty ordinal))) (tc_name call) args_hash
    (tr_ok result) (tr_duration_ms result) (r_session_id r) message_id (tr_error result)
    (tr_summary result) ordinal.

(** The records of one finalised call, appended to the log [l]. *)
Definition records_at r call args_hash message_id ordinal (result : ToolResult)
    (outcome : AuditOutcome) (md : dict) (invoked_event_id : option uuid)
    (l : list event) : list event :=
  let first := match invoked_event_id with
    | None => [EAudit (fresh_event_id l)
                 (tool_event r TOOL_INVOKED (tc_name call) outcome md false)]
    | Some _ => []
    end in
  first ++
  [EAudit (fresh_event_id (l ++ first))
     (tool_event r TOOL_RESULT (tc_name call) outcome
        (md ++ [(cp "duration_ms", JInt (tr_duration_ms result))])
        (match invoked_event_id with Some _ => true | None => false end));
   ERow (result_row r call args_hash message_id ordinal result)].

Definition finalise_records r s call args_hash message_id ordinal result outcome
    denied_reason approval (invoked_event_id : option uuid) : list event :=
  records_at r call args_hash message_id ordinal result outcome
    (finalise_metadata s call args_hash ordinal result
       (or_str denied_reason (tr_denied_reason result)) approval invoked_event_id)
    invoked_event_id (st_log s).

Definition is_record (e : event) : Prop :=
  match e with EAudit _ _ | ERow _ => True | _ => False end.

Lemma finalise_records_record r s call h mid ord res out why ap inv :
  Forall is_record (finalise_records r s call h mid ord res out why ap inv).
Proof. unfold finalise_records, records_at. destruct inv; repeat constructor. Qed.

(** What a finalisation does: nothing (aborted, or not its turn), or it
    advances the drain and appends a prefix of the records, all of them when
    it returns. *)
Inductive finalised r s call h mid ord (res : ToolResult) out why ap inv
    : (exn + ToolResult) * rstate -> Prop :=
| fin_aborted : st_aborted s = true ->
    finalised r s call h mid ord res out why ap inv (inl XCancelled, s)
| fin_blocked : st_aborted s = false -> st_next s <> ord ->
    finalised r s call h mid ord res out why ap inv (inl XBlocked, s)
| fin_failed evs s' : st_aborted s = false -> st_next s = ord ->
    evs `prefix_of` finalise_records r s call h mid ord res out why ap inv ->
    s' = advance (app_log evs s) ->
    finalised r s call h mid ord res out why ap inv (inl XStore, s')
| fin_done s' : st_aborted s = false -> st_next s = ord ->
    s' = advance (app_log (finalise_records r s call h mid ord res out why ap inv) s) ->
    finalised r s call h mid ord res out why ap inv (inr res, s').

Lemma finalise_cases r call h mid ord res out why ap inv s :
  finalised r s call h mid ord res out why ap inv
    (_finalise r call h mid ord res out why ap inv s).
Proof.
  unfold _finalise. rewrite M_get_bind.
  destruct (st_aborted s) eqn:Ha; [by constructor|].
  destruct (N.eqb_spec (st_next s) ord) as [Hn|Hn]; cbn [negb]; [|by constructor].
  set (md := finalise_metadata s call h ord res (or_str why (tr_denied_reason res)) ap inv).
  match goal with |- context [finally ?m advance] => set (body := m) end.
  assert (emits body (records_at r call h mid ord res out md inv)) as Hb.
  { destruct inv as [inv|]; eapply emits_ext.
    - apply emits_bind; [apply emits_ret|intros _].
      apply emits_bind; [apply emits_sink|intros _; apply emits_row].
    - done.
    - apply emits_bind; [apply emits_bind; [apply emits_sink|intros _; apply emits_ret]|intros _].
      apply emits_bind; [apply emits_sink|intros _; apply emits_row].
    - done. }
  destruct (body s) as [o1 s1] eqn:E1.
  destruct (Hb _ _ _ E1) as (pre & Hpre & -> & Ho).
  unfold mbind, M_bind, finally. rewrite E1.
  destruct Ho as [->|([] & -> & ->)]; [by eapply fin_failed|by apply fin_done].
Qed.
End runner_lemmas.

(** ** Lemmas: execution *)

Section execution_lemmas.
Context `{PyRepr} `{RunnerHost} `{SchemaLib} {G : Type} `{ApprovalGate G}.
Implicit Types (r : runner G) (call : ToolCall) (ctx : ToolContext) (s : rstate).

(** Executing a call touches neither the ordinals nor the abort flag. *)
Definition same_drain s s' : Prop :=
  st_ordinal s' = st_ordinal s /\ st_next s' = st_next s /\ st_aborted s' = st_aborted s.

(** The handler of [d] is called on the call's arguments, in a context with
    the runner's catalog and the principal of [c]. *)
Definition handler_event r (d : ToolDefinition) call (c : ToolContext) (e : event) : Prop :=
  exists args hctx, e = EHandler d (tc_name call) args hctx /\
    (args = tc_arguments call \/ args = strip_query (tc_arguments call)) /\
    allowed_tools hctx = r_allowed r /\ principal hctx = principal c.

Definition exec_exn (o : exn + ToolResult) : Prop :=
  match o with inl XStore | inl XBlocked => False | _ => True end.

(** Every finished search kept for reuse succeeded with a well-formed result. *)
Definition web_ok s : Prop :=
  forall k o res, dict_get k (st_web s) = Some (o, TDone res) ->
    tr_ok res = true /\ well_formed_result res.

(** A result answers the call it is returned for. *)
Definition answers call (res : ToolResult) : Prop :=
  well_formed_result res /\ tr_call_id res = tc_id call /\ tr_name res = tc_name call.

Definition good_result call (o : exn + ToolResult) : Prop :=
  match o with inr res => answers call res | inl _ => True end.

Lemma complete_answers call body ms : answers call (_complete call body ms).
Proof.
  unfold _complete, answers, well_formed_result. destruct (hr_ok body); simpl; [done|].
  destruct (hr_error body) as [[|c e]|]; unfold ERROR_TOOL_ERROR; simpl; eauto.
Qed.

Lemma failure_answers call error content summary ms why :
  error <> [] ->
  answers call (failure_result (tc_id call) (tc_name call) error content summary ms why).
Proof. intros. split; [by apply failure_well_formed|done]. Qed.

Lemma execute_spec r d call ctx s o s' :
  _execute r d call ctx s = (o, s') ->
  s' = add_log (EHandler d (tc_name call) (tc_arguments call)
    (mk_context (principal ctx) (tool_invocation_id ctx) (r_allowed r) (simulate_writes ctx))) s /\
  exec_exn o /\ good_result call o.
Proof.
  unfold _execute. rewrite M_tell_bind, M_get_bind.
  destruct (wait_for _ _); intros [= <- <-];
    (split; [done|]; split; [done|]; unfold good_result);
    first [done|apply complete_answers|by apply failure_answers].
Qed.

Lemma web_ok_pop s k : web_ok s -> web_ok (set_web (dict_pop k (st_web s)) s).
Proof. intros Hw k' o res Hg. simpl in Hg. by eapply Hw, dict_get_pop. Qed.

Lemma web_ok_set s k o t :
  web_ok s -> (forall res, t = TDone res -> tr_ok res = true /\ well_formed_result res) ->
  web_ok (set_web (dict_set k (o, t) (st_web s)) s).
Proof.
  intros Hw Ht k' o' res Hg. simpl in Hg. destruct (decide (k' = k)) as [->|Hne].
  - rewrite dict_get_set_eq in Hg. naive_solver.
  - rewrite dict_get_set_ne in Hg by done. by eapply Hw.
Qed.

Lemma reuse_answers call origin ms res :
  well_formed_result res -> answers call (reuse_result call origin ms res).
Proof. done. Qed.

(** What an execution, shared or not, does. *)
Definition executed r (d : ToolDefinition) call c s (o : exn + ToolResult) s' : Prop :=
  (exists evs, st_log s' = st_log s ++ evs /\
     (evs = [] \/ exists e, evs = [e] /\ handler_event r d call c e)) /\
  same_drain s s' /\ exec_exn o /\ (web_ok s -> good_result call o /\ web_ok s').

Lemma executed_one r d call c s o s' args hctx :
  st_log s' = st_log s ++ [EHandler d (tc_name call) args hctx] ->
  args = tc_arguments call \/ args = strip_query (tc_arguments call) ->
  allowed_tools hctx = r_allowed r -> principal hctx = principal c ->
  same_drain s s' -> exec_exn o -> (web_ok s -> good_result call o /\ web_ok s') ->
  executed r d call c s o s'.
Proof.
  intros Hlog Hargs Hal Hpr Hsame Hexn Hweb. split_and!; try done.
  eexists. split; [exact Hlog|]. right. eexists. split; [done|]. by exists args, hctx.
Qed.

Lemma web_fresh_spec r d call ctx key s o s' :
  _web_fresh r d call (strip_query (tc_arguments call)) key ctx s = (o, s') ->
  executed r d call ctx s o s'.
Proof.
  unfold _web_fresh. destruct (_execute _ _ _ _ _) as [o1 s2] eqn:He.
  apply execute_spec in He as (-> & Hexn & Hgood). intros Hs.
  destruct o1 as [x|res]; injection Hs as <- <-;
    (eapply executed_one; [reflexivity|by right|done|done|done|done|intros Hw]).
  - split; [done|]. destruct x; try done;
      [by apply (web_ok_pop (add_log _ (set_origins _ s)))
      |by apply (web_ok_set (add_log _ (set_origins _ s)))].
  - split; [by apply reuse_answers, Hgood|]. simpl. destruct (tr_ok res) eqn:?.
    + apply (web_ok_set (add_log _ (set_origins _ s))); [done|].
      intros ? [= <-]. split; [done|apply Hgood].
    + by apply (web_ok_pop (add_log _ (set_origins _ s))).
Qed.

Lemma execute_shared_spec r d call ctx s o s' :
  _execute_shared r d call ctx s = (o, s') -> executed r d call ctx s o s'.
Proof.
  unfold _execute_shared. destruct (shareable _ _ _); simpl.
  - assert (forall k s1, _web_fresh r d call (strip_query (tc_arguments call))
        (web_key ctx (strip_query (tc_arguments call))) ctx
        (set_web (dict_pop k (st_web s)) s) = (o, s') -> executed r d call ctx s o s') as Hpop.
    { intros k _ (Hlog & Hsame & Hexn & Hweb)%web_fresh_spec. split_and!; try done.
      intros Hw. apply Hweb. by apply web_ok_pop. }
    destruct (dict_get _ (st_web s)) as [[origin [res| |]]|] eqn:Eg; try by apply (Hpop _ s).
    + destruct (tr_ok res) eqn:Hok; [|by apply (Hpop _ s)]. intros [= <- <-].
      split_and!; [exists []; rewrite app_nil_r; auto|done|done|].
      intros Hw. split; [|exact Hw]. apply reuse_answers. by apply Hw in Eg as [_ ?].
    + intros [= <- <-]. split_and!; [exists []; rewrite app_nil_r; auto|done|done|done].
    + apply web_fresh_spec.
  - intros He. apply execute_spec in He as (-> & Hexn & Hgood).
    eapply executed_one; [reflexivity|by left|done|done|done|done|done].
Qed.
End execution_lemmas.

(** ** Lemmas: admission and the governed path *)

Section governed_lemmas.
Context `{PyRepr} `{RunnerHost} `{SchemaLib} {G : Type} `{ApprovalGate G}.
Implicit Types (r : runner G) (call : ToolCall) (ctx : ToolContext) (s : rstate).

(** Must this definition's call clear the gate? *)
Definition needs_gate r (d : ToolDefinition) (name : pystr) : Prop :=
  td_requires_approval d = true \/ td_risk_tier d = T1 \/
  name ∈ r_approval_required_tools r.

(** The gate said yes, with this record. *)
Definition gate_approved r (d : ToolDefinition) call (args_hash : pystr)
    (granted : option ApprovalRecord) : Prop :=
  exists p, let a := _as_decision (gate_request (r_gate r)
      (mk_request (tc_id call) (tc_name call) (td_risk_tier d) p (tc_arguments call) args_hash)) in
    ad_approved a = true /\ ad_approval a = granted.

(** Everything an admitted call has passed. *)
Record governed r call (d : ToolDefinition) (call' : ToolCall) (args_hash : pystr)
    (granted : option ApprovalRecord) : Prop := {
  gov_resolved : _resolve r (tc_name call) = Some d;
  gov_allowed : tc_name call ∈ r_allowed r;
  gov_call : call' = mk_call (tc_id call) (tc_name call)
    (legacy_arguments (tc_arguments call) (td_json_schema d) (td_read_only d));
  gov_valid : validate_arguments (tc_arguments call') (td_json_schema d) = None;
  gov_hash : args_hash = hash_args (tc_arguments call');
  gov_autonomy : td_risk_tier d = T1 -> td_requires_approval d = false ->
    rank ACT_WITH_APPROVAL <= rank (r_autonomy r);
  gov_gate : needs_gate r d (tc_name call) -> gate_approved r d call' args_hash granted;
  gov_record : needs_gate r d (tc_name call) -> is_write_tier (td_risk_tier d) = true ->
    record_authorises (td_risk_tier d) granted args_hash = true;
  gov_none : ~ needs_gate r d (tc_name call) -> granted = None
}.

(** A refusal's result is a well-formed failure. *)
Definition refusal call (res : ToolResult) : Prop :=
  tr_ok res = false /\ answers call res.

Lemma refusal_failure call error content summary ms why :
  error <> [] ->
  refusal call (failure_result (tc_id call) (tc_name call) error content summary ms why).
Proof. intros. split; [done|by apply failure_answers]. Qed.

Definition is_gate (e : event) : Prop := match e with EGate _ => True | _ => False end.

Definition admission_ok r call (a : admission) : Prop :=
  match a with
  | Refused _ res _ => refusal call res
  | Accepted d call' h granted => governed r call d call' h granted
  end.

Lemma record_not_authorised tier granted h :
  true && is_write_tier tier && negb (record_authorises tier granted h) = false ->
  is_write_tier tier = true -> record_authorises tier granted h = true.
Proof. by destruct (is_write_tier tier), (record_authorises tier granted h). Qed.

Lemma approve_spec r d call h ctx s :
  exists a, approve r d call h ctx s = (inr a, add_log (EGate (mk_request (tc_id call)
      (tc_name call) (td_risk_tier d) (principal ctx) (tc_arguments call) h)) s) /\
    match a with
    | Refused _ res _ => refusal call res
    | Accepted d' call' h' granted => d' = d /\ call' = call /\ h' = h /\
        gate_approved r d call h granted /\
        (is_write_tier (td_risk_tier d) = true ->
          record_authorises (td_risk_tier d) granted h = true)
    end.
Proof.
  unfold approve. rewrite M_tell_bind, M_get_bind. cbv zeta.
  set (req := mk_request _ _ _ _ _ _).
  set (a := _as_decision (gate_request (r_gate r) req)).
  destruct (ad_approved a && is_write_tier (td_risk_tier d)
    && negb (record_authorises (td_risk_tier d) (ad_approval a) h)) eqn:Einv; cbn [ad_approved deny negb].
  - eexists. split; [reflexivity|]. by apply refusal_failure.
  - destruct (ad_approved a) eqn:Eapp; cbn [negb]; eexists; (split; [reflexivity|]).
    + split_and!; [done..| |by apply record_not_authorised].
      exists (principal ctx). by split.
    + by apply refusal_failure.
Qed.

Lemma autonomy_not_denied a :
  match _autonomy_decision a with AD_DENY => true | _ => false end = false ->
  rank ACT_WITH_APPROVAL <= rank a.
Proof. destruct a; vm_compute; congruence. Qed.

(** Steps (1) to (4) always decide, and log gate requests at most. *)
Lemma admit_spec r call ctx s :
  exists a evs, admit_call r call ctx s = (inr a, app_log evs s) /\
    Forall is_gate evs /\ admission_ok r call a.
Proof.
  unfold admit_call. rewrite M_get_bind. cbv zeta.
  assert (forall a, admission_ok r call a -> exists a' evs,
    (mret a : M admission) s = (inr a', app_log evs s) /\ Forall is_gate evs /\
    admission_ok r call a') as Hret.
  { intros a Ha. exists a, []. rewrite app_log_nil. by split_and!; [| |]. }
  destruct (_resolve r (tc_name call)) as [d|] eqn:Er; [|by apply Hret, refusal_failure].
  destruct (bool_decide (tc_name call ∈ r_allowed r)) eqn:Eal; cbn [negb];
    [|by apply Hret, refusal_failure].
  apply bool_decide_eq_true in Eal.
  set (args := legacy_arguments _ _ _).
  destruct (validate_arguments args (td_json_schema d)) as [err|] eqn:Ev;
    [by apply Hret, refusal_failure|].
  set (call' := mk_call _ _ args). set (h := hash_args args).
  destruct (_requires_autonomy_approval d && _) eqn:Eau;
    [by apply Hret, (refusal_failure call)|].
  assert (td_risk_tier d = T1 -> td_requires_approval d = false ->
    rank ACT_WITH_APPROVAL <= rank (r_autonomy r)) as Hautonomy.
  { intros Ht1 Hreq. apply autonomy_not_denied.
    unfold _requires_autonomy_approval in Eau. by rewrite bool_decide_true, Hreq in Eau. }
  destruct (td_requires_approval d || _ || _ || _) eqn:Egate.
  - destruct (approve_spec r d call' h ctx s) as (a & -> & Ha).
    exists a, [EGate (mk_request (tc_id call') (tc_name call') (td_risk_tier d) (principal ctx)
      (tc_arguments call') h)]. split_and!; [done|by repeat constructor|].
    destruct a as [| d' c' h' granted]; [done|].
    destruct Ha as (-> & -> & -> & Hga & Hrec). split; try done.
    intros Hn. exfalso. apply Hn. unfold needs_gate. to_prop.
    unfold _requires_autonomy_approval in Egate. to_prop. tauto.
  - apply Hret. assert (~ needs_gate r d (tc_name call)) as Hn.
    { unfold needs_gate. to_prop. destruct_and?. intros [?|[?|?]]; congruence || done. }
    by split.
Qed.
End governed_lemmas.

(** ** Lemmas: the whole governed path *)

Section run_lemmas.
Context `{PyRepr} `{RunnerHost} `{SchemaLib} {G : Type} `{ApprovalGate G}.
Implicit Types (r : runner G) (call : ToolCall) (ctx : ToolContext) (s : rstate).

Definition exec_event r (d : ToolDefinition) call (c : ToolContext) (e : event) : Prop :=
  e = EScopeEnter \/ e = EScopeExit \/ handler_event r d call c e.

Definition scope_context ctx (scope : option ToolContext) : ToolContext :=
  match scope with Some c => c | None => ctx end.

(** Executing an admitted call logs only its scope and its handler. *)
Definition exec_step r d call c s (o : exn + ToolResult) s' : Prop :=
  (exists evs, st_log s' = st_log s ++ evs /\ Forall (exec_event r d call c) evs) /\
  same_drain s s' /\ exec_exn o /\ (web_ok s -> good_result call o /\ web_ok s').

Lemma executed_step r d call c s o s' :
  executed r d call c s o s' -> exec_step r d call c s o s'.
Proof.
  intros ((evs & Hlog & He) & ? & ? & ?). split_and!; try done.
  exists evs. split; [done|]. destruct He as [->|(e & -> & He)]; [done|].
  apply Forall_singleton. by right; right.
Qed.

Lemma execute_in_scope_spec r d call ctx scope s o s' :
  execute_in_scope r d call ctx scope s = (o, s') ->
  exec_step r d call (scope_context ctx scope) s o s'.
Proof.
  destruct scope as [c|]; cbn [execute_in_scope scope_context];
    [|by intros ?%execute_shared_spec%executed_step].
  rewrite M_tell_bind. unfold finally.
  destruct (_execute_shared r d call c (add_log EScopeEnter s)) as [o1 s1] eqn:He.
  intros [= -> <-]. apply execute_shared_spec, executed_step in He
    as ((evs & Hlog & Hev) & Hsame & Hexn & Hweb).
  split_and!; [|exact Hsame|done|exact Hweb].
  exists (EScopeEnter :: evs ++ [EScopeExit]). split.
  - simpl. rewrite Hlog. simpl. by rewrite <-!app_assoc.
  - constructor; [by left|]. apply Forall_app. split; [done|].
    apply Forall_singleton. by right; left.
Qed.

(** The intent committed for a granted call. *)
Definition intent_metadata r call h mid (ordinal : N) (g : ApprovalRecord) : dict :=
  [(cp "tool", JStr (tc_name call)); (cp "call_id", JStr (tc_id call));
   (cp "args_hash", JStr h); (cp "ordinal", JInt (Z.of_N ordinal));
   (cp "session_id", opt_json uuid_str (r_session_id r));
   (cp "message_id", opt_json uuid_str mid)] ++ _approval_metadata g.

Definition intent_events r call h mid ordinal (granted : option ApprovalRecord)
    (l : list event) : list event :=
  match granted with
  | None => []
  | Some g => [EAudit (fresh_event_id l) (tool_event r TOOL_INVOKED (tc_name call) ALLOWED
                (intent_metadata r call h mid ordinal g) true)]
  end.

Lemma emits_intent r call h mid ordinal granted :
  emits (commit_intent r call h mid ordinal granted)
    (intent_events r call h mid ordinal granted).
Proof.
  destruct granted as [g|]; [|apply emits_ret]. eapply emits_ext.
  - unfold commit_intent. apply emits_bind; [apply emits_sink|intros id; apply emits_ret].
  - done.
Qed.

Lemma commit_intent_returns r call h mid ordinal granted s inv s' :
  commit_intent r call h mid ordinal granted s = (inr inv, s') ->
  s' = app_log (intent_events r call h mid ordinal granted (st_log s)) s /\
  inv = (match granted with Some _ => Some (fresh_event_id (st_log s)) | None => None end).
Proof.
  intros Hc. pose proof Hc as Hem. apply emits_intent in Hem as (pre & _ & -> & [[=]|(inv' & _ & ->)]).
  split; [done|]. destruct granted as [g|]; [|by apply M_ret_eq in Hc as [[= ->] _]].
  unfold commit_intent in Hc. apply M_bind_eq in Hc as [(id & s1 & Hs & Hr)|(? & _ & [=])].
  apply M_ret_eq in Hr as [[= ->] _]. unfold sink_emit in Hs. rewrite M_get_bind in Hs.
  destruct (emit _ _ _ _ _ _ _ _ _ _ _) as [e|[]]; [|done].
  destruct (store_up _); [|done]. by injection Hs as <- _.
Qed.

(** What one governed call does, whatever happens. *)
Inductive ran r call ctx mid ord scope s : (exn + ToolResult) * rstate -> Prop :=
| ran_refused gates h res why out :
    Forall is_gate gates -> refusal call res ->
    finalised r (app_log gates s) call h mid ord res DENIED why None None out ->
    ran r call ctx mid ord scope s out
| ran_no_intent gates d call' h granted pre :
    Forall is_gate gates -> governed r call d call' h granted ->
    pre `prefix_of` intent_events r call' h mid ord granted (st_log s ++ gates) ->
    ran r call ctx mid ord scope s (inl XStore, app_log (gates ++ pre) s)
| ran_executed gates d call' h granted intent s1 o1 s2 inv out :
    Forall is_gate gates -> governed r call d call' h granted ->
    intent = intent_events r call' h mid ord granted (st_log s ++ gates) ->
    inv = (match granted with Some _ => Some (fresh_event_id (st_log s ++ gates))
                            | None => None end) ->
    s1 = app_log (gates ++ intent) s ->
    (exists c, principal c = principal (scope_context ctx scope) /\
      exec_step r d call' c s1 o1 s2) ->
    (match o1 with
     | inr res => finalised r s2 call' h mid ord res
         (if tr_ok res then ALLOWED else ERROR) None granted inv out
     | inl XCancelled => exists res out', refusal call' res /\
         finalised r s2 call' h mid ord res ERROR None None None out' /\
         out.2 = out'.2 /\ (out.1 = inl XCancelled \/ exists x, out'.1 = inl x /\ out.1 = inl x)
     | inl x => out = (inl x, s2)
     end) ->
    ran r call ctx mid ord scope s out.

Lemma run_governed_spec r call ctx mid ord scope s :
  ran r call ctx mid ord scope s (_run_governed r call ctx mid ord scope s).
Proof.
  unfold _run_governed.
  set (ctx' := mk_context (principal ctx) _ _ _).
  destruct (admit_spec r call ctx' s) as (a & gates & Ha & Hgates & Hok).
  unfold mbind at 1, M_bind at 1. rewrite Ha.
  destruct a as [h res why|d call' h granted].
  { eapply ran_refused; [done..|]. apply finalise_cases. }
  destruct (commit_intent r call' h mid ord granted (app_log gates s)) as [[x|inv] s1] eqn:Hc;
    unfold mbind at 1, M_bind at 1; rewrite Hc.
  { apply emits_intent in Hc as (pre & Hpre & -> & [[= ->]|(?&[=]&_)]).
    rewrite app_log_app. by eapply ran_no_intent. }
  apply commit_intent_returns in Hc as [-> Hinv]. rewrite app_log_app.
  set (s1 := app_log (gates ++ _) s).
  destruct (execute_in_scope r d call' ctx' scope s1) as [o1 s2] eqn:He.
  pose proof (execute_in_scope_spec _ _ _ _ _ _ _ _ He) as Hx.
  eapply (ran_executed _ _ _ _ _ _ _ gates d call' h granted _ s1 o1 s2 inv);
    [done..|by exists (scope_context ctx' scope); destruct scope|].
  unfold mbind, M_bind, on_cancel. rewrite He. destruct o1 as [x|res].
  - destruct x; try reflexivity. unfold get.
    match goal with |- context [_finalise r call' h mid ord ?rs ERROR None None None s2] =>
      pose proof (finalise_cases r call' h mid ord rs ERROR None None None s2) as Hf;
      exists rs, (_finalise r call' h mid ord rs ERROR None None None s2) end.
    destruct (_finalise _ _ _ _ _ _ _ _ _ _ s2) as [[x|y] s3];
      (split; [by apply refusal_failure|]); (split; [exact Hf|]); (split; [done|]);
      [right; by exists x|by left].
  - apply finalise_cases.
Qed.
End run_lemmas.

(** ** Lemmas: reading a run off its log *)

Section log_lemmas.
Context `{PyRepr} `{RunnerHost} `{SchemaLib} {G : Type} `{ApprovalGate G}.
Implicit Types (r : runner G) (call : ToolCall) (ctx : ToolContext) (s : rstate).

Definition is_handler (e : event) : Prop :=
  match e with EHandler _ _ _ _ => True | _ => False end.

Lemma not_handler_gate evs : Forall is_gate evs -> Forall (fun e => ~ is_handler e) evs.
Proof. intros Hl. eapply Forall_impl; [exact Hl|]. intros []; simpl; tauto. Qed.

Lemma not_handler_record evs : Forall is_record evs -> Forall (fun e => ~ is_handler e) evs.
Proof. intros Hl. eapply Forall_impl; [exact Hl|]. intros []; simpl; tauto. Qed.

Lemma intent_records r call h mid ord granted l :
  Forall is_record (intent_events r call h mid ord granted l).
Proof. destruct granted; repeat constructor. Qed.

Lemma prefix_Forall {A} (P : A -> Prop) l k : l `prefix_of` k -> Forall P k -> Forall P l.
Proof. by intros [k' ->] [? _]%Forall_app. Qed.

Lemma finalised_log r s call h mid ord res out why ap inv o s' :
  finalised r s call h mid ord res out why ap inv (o, s') ->
  exists evs, st_log s' = st_log s ++ evs /\ Forall is_record evs.
Proof.
  inversion 1; subst; try (exists []; by rewrite app_nil_r).
  - eexists. split; [reflexivity|].
    pose proof (finalise_records_record r s call h mid (st_next s) res out why ap inv) as Hr.
    by eapply prefix_Forall.
  - eexists. split; [reflexivity|]. apply finalise_records_record.
Qed.

Lemma no_handler_here l pre e post :
  Forall (fun e => ~ is_handler e) l -> is_handler e -> l <> pre ++ e :: post.
Proof. intros Hl He ->. apply Forall_app in Hl as [_ Hl]. by inversion Hl. Qed.

(** A handler call in the log of a run: everything that was decided, and
    logged, before it. *)
Lemma ran_handler r call ctx mid ord scope s o s' pre e post :
  ran r call ctx mid ord scope s (o, s') ->
  st_log s' = st_log s ++ pre ++ e :: post -> is_handler e ->
  exists gates d call' h granted c mid',
    governed r call d call' h granted /\
    principal c = principal (scope_context ctx scope) /\
    handler_event r d call' c e /\
    pre = gates ++ intent_events r call' h mid ord granted (st_log s ++ gates) ++ mid'.
Proof.
  intros Hran Hlog He.
  inversion Hran as [gates h res why out Hg Href Hfin Heq
    |gates d call' h granted ev Hg Hgov Hpre Heq
    |gates d call' h granted intent s1 o1 s2 inv out Hg Hgov Hint Hinv Hs1
      (c & Hc & (evs & Hevs & Hall) & _) Hrest Heq]; subst.
  - apply finalised_log in Hfin as (evs & Hevs & Hrec). exfalso. simpl in Hevs.
    rewrite Hlog, <-app_assoc in Hevs. apply app_inv_head in Hevs. symmetry in Hevs.
    revert Hevs. apply no_handler_here; [|done]. apply Forall_app.
    auto using not_handler_gate, not_handler_record.
  - exfalso. simpl in Hlog. apply app_inv_head in Hlog. revert Hlog.
    apply no_handler_here; [|done]. apply Forall_app. split; [by apply not_handler_gate|].
    apply not_handler_record. eapply prefix_Forall; [exact Hpre|]. apply intent_records.
  - assert (exists evs', st_log s' = st_log s2 ++ evs' /\ Forall is_record evs') as (fin & Hf & Hrec).
    { destruct o1 as [[]|res].
      - destruct Hrest as (rs & [o3 s3] & _ & Hfin & Hs & _). simpl in Hs. subst s3.
        by apply finalised_log in Hfin.
      - injection Hrest as -> ->. exists []. by rewrite app_nil_r.
      - injection Hrest as -> ->. exists []. by rewrite app_nil_r.
      - injection Hrest as -> ->. exists []. by rewrite app_nil_r.
      - by apply finalised_log in Hrest. }
    rewrite Hlog, Hevs in Hf. simpl in Hf. rewrite <-!app_assoc in Hf.
    apply app_inv_head in Hf. rewrite app_assoc in Hf. symmetry in Hf.
    apply (split_after is_handler) in Hf as (m1 & -> & Hf); [|apply Forall_app;
      auto using not_handler_gate, not_handler_record, intent_records|done].
    assert (e ∈ evs) as Hin.
    { assert (e ∈ evs ++ fin) as [?|Hin]%elem_of_app; [rewrite Hf; set_solver|done|].
      rewrite Forall_forall in Hrec. apply Hrec in Hin. by destruct e. }
    rewrite Forall_forall in Hall. apply Hall in Hin.
    exists gates, d, call', h, granted, c, m1. split_and!; try done.
    + by destruct Hin as [->|[->|?]].
    + by rewrite <-app_assoc.
Qed.

(** The claimed ordinal, and the state after claiming it. *)
Definition run_ordinal s (ordinal : option N) : N :=
  match ordinal with None => st_ordinal s | Some o => o end.
Definition run_start s (ordinal : option N) : rstate :=
  match ordinal with None => snd (claim_ordinal s) | Some _ => s end.

Lemma run_spec r call ctx mid ordinal scope s :
  ran r call ctx mid (run_ordinal s ordinal) scope (run_start s ordinal)
    (run r call ctx mid ordinal scope s).
Proof. destruct ordinal; apply run_governed_spec. Qed.

Lemma run_start_log s ordinal : st_log (run_start s ordinal) = st_log s.
Proof. by destruct ordinal. Qed.

Lemma run_handler r call ctx mid ordinal scope s o s' pre d name args hctx post :
  run r call ctx mid ordinal scope s = (o, s') ->
  st_log s' = st_log s ++ pre ++ EHandler d name args hctx :: post ->
  exists gates call' h granted mid',
    governed r call d call' h granted /\
    name = tc_name call /\ (args = tc_arguments call' \/ args = strip_query (tc_arguments call')) /\
    allowed_tools hctx = r_allowed r /\
    principal hctx = principal (scope_context ctx scope) /\
    pre = gates ++ intent_events r call' h mid (run_ordinal s ordinal) granted (st_log s ++ gates)
            ++ mid'.
Proof.
  intros Hrun Hlog. pose proof (run_spec r call ctx mid ordinal scope s) as Hran.
  rewrite Hrun in Hran. rewrite <-(run_start_log s ordinal) in Hlog.
  destruct (ran_handler _ _ _ _ _ _ _ _ _ _ _ _ Hran Hlog I)
    as (gates & d' & call' & h & granted & c & m & Hgov & Hpr & (a & hc & [= <- -> <- <-] & Ha & Hal & Hp) & Hpre).
  rewrite run_start_log in Hpre. exists gates, call', h, granted, m. split_and!; try done.
  - by rewrite (gov_call _ _ _ _ _ _ Hgov).
  - by rewrite Hp.
Qed.
End log_lemmas.

(** ** Lemmas: what a returning run leaves behind *)

Section return_lemmas.
Context `{PyRepr} `{RunnerHost} `{SchemaLib} {G : Type} `{ApprovalGate G}.
Implicit Types (r : runner G) (call : ToolCall) (ctx : ToolContext) (s : rstate).

Definition is_row (e : event) : Prop := match e with ERow _ => True | _ => False end.

(** The last two records of a returning call. *)
Definition result_records r call h mid ordinal (res : ToolResult) (out : AuditOutcome)
    (evs : list event) : Prop :=
  exists id md durable, evs =
    [EAudit id (tool_event r TOOL_RESULT (tc_name call) out md durable);
     ERow (result_row r call h mid ordinal res)] /\
    dict_get (cp "args_hash") md = Some (JStr h) /\
    dict_get (cp "ordinal") md = Some (JInt (Z.of_N ordinal)) /\
    dict_get (cp "ok") md = Some (JBool (tr_ok res)).

Definition is_invoked r call (e : event) : Prop :=
  exists id out md durable,
    e = EAudit id (tool_event r TOOL_INVOKED (tc_name call) out md durable).

Lemma finalise_records_split r s call h mid ord res out why ap inv :
  exists first last, finalise_records r s call h mid ord res out why ap inv = first ++ last /\
    result_records r call h mid ord res out last /\ Forall (fun e => ~ is_row e) first /\
    (inv = None -> Exists (is_invoked r call) first).
Proof.
  unfold finalise_records, records_at. eexists _, _. split; [reflexivity|]. split_and!.
  - eexists _, _, _. split; [reflexivity|].
    unfold finalise_metadata. split_and!; vm_compute; reflexivity.
  - destruct inv; repeat constructor; tauto.
  - intros ->. constructor. eexists _, _, _, _. reflexivity.
Qed.

Lemma not_row_gate evs : Forall is_gate evs -> Forall (fun e => ~ is_row e) evs.
Proof. intros Hl. eapply Forall_impl; [exact Hl|]. intros []; simpl; tauto. Qed.

Lemma not_row_exec r d call c evs :
  Forall (exec_event r d call c) evs -> Forall (fun e => ~ is_row e) evs.
Proof.
  intros Hl. eapply Forall_impl; [exact Hl|]. intros e He.
  destruct He as [->|[->|(? & ? & -> & _)]]; simpl; tauto.
Qed.

Lemma intent_invoked r call h mid ord granted l :
  Forall (fun e => ~ is_row e) (intent_events r call h mid ord granted l) /\
  (granted <> None -> Exists (is_invoked r call) (intent_events r call h mid ord granted l)).
Proof.
  destruct granted; simpl; split; try done.
  - repeat constructor. tauto.
  - intros _. constructor. eexists _, _, _, _. reflexivity.
Qed.

(** A returning run: its result, its drain step and its records. *)
Definition returned r call mid ord s (res : ToolResult) s' : Prop :=
  answers call res /\ st_aborted s = false /\ st_next s = ord /\
  st_next s' = (ord + 1)%N /\ st_aborted s' = false /\
  exists pre last h out, st_log s' = st_log s ++ pre ++ last /\
    Forall (fun e => ~ is_row e) pre /\ Exists (is_invoked r call) pre /\
    result_records r call h mid ord res out last /\
    (out = ALLOWED <-> tr_ok res = true).

Lemma finalised_returned r call call' mid ord h s0 s pre res out why ap inv res' s' :
  finalised r s call' h mid ord res out why ap inv (inr res', s') ->
  tc_id call' = tc_id call -> tc_name call' = tc_name call ->
  answers call res -> st_aborted s = st_aborted s0 -> st_next s = st_next s0 ->
  st_log s = st_log s0 ++ pre -> Forall (fun e => ~ is_row e) pre ->
  (inv <> None -> Exists (is_invoked r call) pre) ->
  (out = ALLOWED <-> tr_ok res = true) ->
  returned r call mid ord s0 res' s'.
Proof.
  intros Hfin Hid Hname Hres Hab Hnx Hlog Hpre Hinv Hout.
  inversion Hfin; subst. unfold returned. cbn [advance app_log st_next st_aborted st_log].
  destruct (finalise_records_split r s call' h mid (st_next s) res' out why ap inv)
    as (first & last & Heq & Hlast & Hfirst & Hi).
  split_and!; try congruence.
  exists (pre ++ first), last, h, out. split_and!; [| | | |done].
  - by rewrite Hlog, Heq, <-!app_assoc.
  - by apply Forall_app.
  - apply Exists_app. destruct inv; [left; by apply Hinv|right].
    unfold is_invoked. rewrite <-Hname. by apply Hi.
  - unfold result_records, result_row in *. by rewrite <-Hname.
Qed.

Lemma ran_returned r call ctx mid ord scope s res s' :
  ran r call ctx mid ord scope s (inr res, s') -> web_ok s ->
  returned r call mid ord s res s' .
Proof.
  intros Hran Hweb.
  inversion Hran as [gates h res0 why out Hg [Hno Hans] Hfin Heq|
    |gates d call' h granted intent s1 o1 s2 inv out Hg Hgov Hint Hinv Hs1
      (c & Hc & (evs & Hevs & Hall) & (_ & Hnx & Hab) & _ & Hw) Hrest Heq]; subst.
  - eapply finalised_returned; [exact Hfin|done..| |done|by rewrite Hno].
    by apply not_row_gate.
  - pose proof (gov_call _ _ _ _ _ _ Hgov) as Hcall.
    assert (tc_id call' = tc_id call /\ tc_name call' = tc_name call) as [Hid Hname] by (by subst call').
    destruct o1 as [[]|res1]; try (by injection Hrest).
    + destruct Hrest as (? & [] & _ & _ & _ & [[=]|(? & _ & [=])]).
    + destruct (Hw Hweb) as [(Hwf & Hi & Hn) _].
      destruct (intent_invoked r call' h mid ord granted (st_log s ++ gates)) as [Hrow Hinv].
      eapply finalised_returned; [exact Hrest|done|done| |exact Hab|exact Hnx| | | |].
      * split_and!; congruence || done.
      * rewrite Hevs. simpl. rewrite <-!app_assoc. reflexivity.
      * apply Forall_app. split; [by apply not_row_gate|]. apply Forall_app.
        split; [done|by eapply not_row_exec].
      * intros Hne. apply Exists_app. right. apply Exists_app. left.
        unfold is_invoked in *. rewrite <-Hname. apply Hinv. by destruct granted.
      * by destruct (tr_ok res1).
Qed.
End return_lemmas.

(** ** Properties *)

Section properties.
Context `{PyRepr} `{RunnerHost} `{SchemaLib} {G : Type} `{ApprovalGate G}.

(** C1: no tool handler ever runs ungoverned.  Whenever a run calls a handler,
    the called name resolved to that handler's definition and is on the run's
    allow-list, the arguments handed over are the validated ones, a T1 tool
    that does not itself require approval runs only at [act_with_approval] or
    above, a tool that must clear the approval gate was approved by it for
    exactly these arguments, and the handler sees the run's own catalog and
    the caller's identity. *)
Theorem handler_only_when_governed (r : runner G) call ctx mid ordinal scope s o s'
    pre d name args hctx post
    (Hrun : run r call ctx mid ordinal scope s = (o, s'))
    (Hlog : st_log s' = st_log s ++ pre ++ EHandler d name args hctx :: post) :
  _resolve r name = Some d /\ name = tc_name call /\ name ∈ r_allowed r /\
  (exists validated, validate_arguments validated (td_json_schema d) = None /\
    validated = legacy_arguments (tc_arguments call) (td_json_schema d) (td_read_only d) /\
    (args = validated \/ args = strip_query validated) /\
    (td_risk_tier d = T1 -> td_requires_approval d = false ->
      rank ACT_WITH_APPROVAL <= rank (r_autonomy r)) /\
    (td_requires_approval d = true \/ td_risk_tier d = T1 \/
       name ∈ r_approval_required_tools r ->
      exists p, ad_approved (_as_decision (gate_request (r_gate r)
        (mk_request (tc_id call) name (td_risk_tier d) p validated (hash_args validated))))
        = true)) /\
  allowed_tools hctx = r_allowed r /\
  principal hctx = principal (match scope with Some c => c | None => ctx end).
Proof.
  destruct (run_handler _ _ _ _ _ _ _ _ _ _ _ _ _ _ _ Hrun Hlog)
    as (gates & call' & h & granted & m & [Hres Hall Hcall Hval Hh Haut Hgate Hrec Hnone] & -> & Hargs & Hal & Hpr & _).
  split_and!; try done. subst call'. eexists. split_and!; [exact Hval|done|done|done|].
  intros [p [Happ _]]%Hgate. exists p. subst h. exact Happ.
Qed.

(** C2: no side effect without a durable, bound intent.  When the handler of a
    T2 tool runs, a tenant pre-approval record naming its policy and the hash
    of exactly these arguments exists, and the [tool.invoked] audit event
    carrying that record and hash was committed durably before the handler
    was called; a T3 tool never runs, whatever the gate answers. *)
Theorem write_tier_needs_durable_intent (r : runner G) call ctx mid ordinal scope s o s'
    pre d name args hctx post
    (Hrun : run r call ctx mid ordinal scope s = (o, s'))
    (Hlog : st_log s' = st_log s ++ pre ++ EHandler d name args hctx :: post)
    (Hd : well_governed d) (Hw : is_write_tier (td_risk_tier d) = true) :
  td_risk_tier d = T2 /\
  exists g validated id intent, pre = id ++ [intent] ++ drop (S (length id)) pre /\
    validated = legacy_arguments (tc_arguments call) (td_json_schema d) (td_read_only d) /\
    rec_scope g = APPROVAL_SCOPE_TENANT_PREAPPROVAL /\ rec_policy_id g <> None /\
    rec_arguments_hash g = Some (hash_args validated) /\
    exists ev_id md, intent = EAudit ev_id (mk_event None (r_tenant r) TOOL_INVOKED
        (actor_id (r_actor r)) (cp "tool") name ALLOWED (r_request_id r) (r_source_ip r) md true) /\
      dict_get (cp "args_hash") md = Some (JStr (hash_args validated)) /\
      dict_get (cp "approval_policy_id") md = Some (opt_json uuid_str (rec_policy_id g)) /\
      dict_get (cp "approved_by") md = Some (opt_json uuid_str (rec_approved_by g)).
Proof.
  destruct (run_handler _ _ _ _ _ _ _ _ _ _ _ _ _ _ _ Hrun Hlog)
    as (gates & call' & h & granted & m & Hgov & -> & _ & _ & _ & Hpre).
  pose proof (gov_record _ _ _ _ _ _ Hgov
    (or_introl (proj2 (proj2 Hd) Hw)) Hw) as Hrec.
  unfold record_authorises in Hrec. destruct granted as [g|]; to_prop; [|naive_solver].
  destruct Hrec as (Ht2 & (Hscope & Hpid) & Hhash). split; [done|].
  assert (h = hash_args (legacy_arguments (tc_arguments call) (td_json_schema d) (td_read_only d))) as Hh.
  { by rewrite (gov_hash _ _ _ _ _ _ Hgov), (gov_call _ _ _ _ _ _ Hgov). }
  subst h. eexists g, _, gates, _. split_and!; [|done|done|by destruct (rec_policy_id g)|done|].
  - rewrite Hpre at 1. f_equal. simpl intent_events. simpl. f_equal. rewrite Hpre.
    rewrite <-Nat.add_1_r, <-drop_drop, drop_app_length. done.
  - eexists _, _. split_and!; [rewrite (gov_call _ _ _ _ _ _ Hgov); reflexivity|reflexivity..].
Qed.

(** C32: A run that returns has been accounted for exactly once.  Its result
    answers the call and is well formed (success xor an error code), the call
    held the ordinal the drain was waiting for and the drain moved on by one,
    and its last two records are the [tool.result] audit event and the only
    trace row of the run, both carrying the call's argument hash, ordinal and
    outcome, after a [tool.invoked] event. *)
Theorem returning_run_is_recorded (r : runner G) call ctx mid ordinal scope s res s'
    (Hrun : run r call ctx mid ordinal scope s = (inr res, s'))
    (Hweb : web_ok s) :
  (well_formed_result res /\ tr_call_id res = tc_id call /\ tr_name res = tc_name call) /\
  st_next s = run_ordinal s ordinal /\ st_next s' = (run_ordinal s ordinal + 1)%N /\
  st_aborted s = false /\ st_aborted s' = false /\
  exists pre h out id md durable, st_log s' = st_log s ++ pre ++
      [EAudit id (tool_event r TOOL_RESULT (tc_name call) out md durable);
       ERow (result_row r call h mid (run_ordinal s ordinal) res)] /\
    Forall (fun e => ~ is_row e) pre /\ Exists (is_invoked r call) pre /\
    dict_get (cp "args_hash") md = Some (JStr h) /\
    dict_get (cp "ordinal") md = Some (JInt (Z.of_N (run_ordinal s ordinal))) /\
    dict_get (cp "ok") md = Some (JBool (tr_ok res)) /\
    (out = ALLOWED <-> tr_ok res = true).
Proof.
  pose proof (run_spec r call ctx mid ordinal scope s) as Hran. rewrite Hrun in Hran.
  apply ran_returned in Hran as (Hans & Hab & Hnx & Hnx' & Hab' & pre & last & h & out & Hlog
    & Hrow & Hinv & (id & md & dur & -> & Hh & Hord & Hok) & Hout);
    [|by destruct ordinal].
  rewrite run_start_log in Hlog.
  split_and!; [apply Hans..|by destruct ordinal|done|by destruct ordinal|done|].
  by exists pre, h, out, id, md, dur.
Qed.
End properties.

(** The deny-all gate: a run behind it calls no handler that needs approval. *)
Section gates.
Context `{PyRepr} `{RunnerHost} `{SchemaLib}.

(** Behind the deny-all gate only ungoverned tools run.  A run whose gate
    is [DenyAllApprovalGate] never calls the handler of a tool that requires
    approval, is above tier T0, or is on the tenant's approval list. *)
Theorem deny_all_runs_reads_only (r : runner DenyAllApprovalGate) call ctx mid ordinal scope s
    o s' pre d name args hctx post
    (Hrun : run r call ctx mid ordinal scope s = (o, s'))
    (Hlog : st_log s' = st_log s ++ pre ++ EHandler d name args hctx :: post)
    (Hd : well_governed d) :
  td_risk_tier d = T0 /\ td_requires_approval d = false /\
  name ∉ r_approval_required_tools r.
Proof.
  destruct (run_handler _ _ _ _ _ _ _ _ _ _ _ _ _ _ _ Hrun Hlog)
    as (gates & call' & h & granted & m & Hgov & -> & _).
  assert (~ needs_gate r d (tc_name call)) as Hn.
  { intros (p & [=] & _)%(gov_gate _ _ _ _ _ _ Hgov). }
  unfold needs_gate in Hn. destruct Hd as (_ & _ & Hw).
  split_and!; [|by destruct (td_requires_approval d); [tauto|]|tauto].
  destruct (td_risk_tier d) eqn:Ht; [done|tauto|..];
    (exfalso; apply Hn; left; by apply Hw).
Qed.

(** The tenant's tool policy is enforced at execution.  Behind the policy
    gate of a tenant, when the handler of a tool that needs approval runs, the
    policy table was readable and the tenant's policy pre-approves that tool
    (its row enables it without approval, or it has no row and its built-in
    default needs none, a tool outside the registry being below T2); with no readable table none runs. *)
Theorem policy_gate_enforced (r : runner PolicyApprovalGate) call ctx mid ordinal scope s
    o s' pre d name args hctx post
    (Hrun : run r call ctx mid ordinal scope s = (o, s'))
    (Hlog : st_log s' = st_log s ++ pre ++ EHandler d name args hctx :: post)
    (Hneeds : td_requires_approval d = true \/ td_risk_tier d = T1 \/
              name ∈ r_approval_required_tools r) :
  exists db, pg_read (r_gate r) = Some db /\
    match db !! (pg_tenant_id (r_gate r), name) with
    | Some row => tp_enabled row = true /\ tp_requires_approval row = false
    | None => match get_tool (pg_registry (r_gate r)) name with
              | Ok builtin => td_requires_approval builtin = false
              | Err _ => is_write_tier (td_risk_tier d) = false
              end
    end.
Proof.
  destruct (run_handler _ _ _ _ _ _ _ _ _ _ _ _ _ _ _ Hrun Hlog)
    as (gates & call' & h & granted & m & Hgov & -> & _).
  apply (gov_gate _ _ _ _ _ _ Hgov) in Hneeds as (p & Happ & _). simpl in Happ.
  unfold policy_gate_request in Happ. simpl in Happ.
  rewrite gate_decide_approved in Happ. destruct (pg_read (r_gate r)) as [db|]; [|done].
  exists db. split; [done|]. rewrite (gov_call _ _ _ _ _ _ Hgov) in Happ.
  unfold pre_approved, builtin_requires in Happ. simpl in Happ.
  destruct (db !! _) as [row|]; to_prop; [done|].
  by destruct (get_tool _ _); to_prop.
Qed.
End gates.

(** ** Witnesses *)

Section witness.
#[local] Existing Instance demo_repr.
#[local] Existing Instance demo_schema_lib.
#[local] Instance demo_host : RunnerHost := {|
  json_dumps_sorted d := [N.of_nat (length d)];
  sha256_hex s := cp "sha:" ++ s;
  uuid5 ns s := (ns + N.of_nat (length s))%N;
  uuid_str u := [u];
  elapsed_ms l := Z.of_nat (length l);
  fresh_event_id l := N.of_nat (length l);
  store_up _ := true
|}.

Definition demo_runner {G} (gate : G) (level : AutonomyLevel) : runner G := {|
  r_registry := [(cp "send_mail", demo_tool);
                 (cp "search", mk_tool (cp "search") [] [] demo_handler T0 false true None true)];
  r_allowed := {[cp "send_mail"; cp "search"]}; r_extra_tools := []; r_autonomy := level;
  r_approval_required_tools := {[cp "send_mail"]}; r_gate := gate;
  r_tenant := 1; r_actor := actor_user 7; r_request_id := cp "r"; r_source_ip := cp "ip";
  r_session_id := None; r_namespace := 0 |}.

Definition demo_preapproved : policy_table :=
  {[ (1%N, cp "send_mail") := mk_policy 5 1 (cp "send_mail") true false (Some 42%N) ]}.
Definition demo_policy_runner : runner PolicyApprovalGate :=
  demo_runner (mk_gate demo_registry 1 (Some demo_preapproved)) ACT_WITH_APPROVAL.
Definition demo_context : ToolContext := mk_context demo_principal None ∅ false.
Definition demo_start : rstate := mk_state 0 0 false [] [] [].
Definition demo_hctx : ToolContext :=
  mk_context demo_principal (Some 1%N) {[cp "send_mail"; cp "search"]} false.
Definition mail_call : ToolCall := mk_call (cp "c1") (cp "send_mail") [].
Definition mail_run := run demo_policy_runner mail_call demo_context None None None demo_start.
Definition mail_log : list event := st_log mail_run.2.
Definition search_runner : runner DenyAllApprovalGate := demo_runner deny_all_gate SUGGEST.
Definition search_run := run search_runner (mk_call (cp "c2") (cp "search") []) demo_context
  None None None demo_start.

Lemma mail_log_handler : st_log mail_run.2 = st_log demo_start ++ take 2 mail_log ++
  EHandler demo_tool (cp "send_mail") [] demo_hctx :: drop 3 mail_log.
Proof. vm_compute. reflexivity. Qed.

Lemma demo_tool_governed : well_governed demo_tool.
Proof. split_and!; vm_compute; congruence. Qed.

Lemma handler_only_when_governed_witness :
  r_gate demo_policy_runner = mk_gate demo_registry 1 (Some demo_preapproved) /\
  cp "send_mail" ∈ r_allowed demo_policy_runner.
Proof.
  split; [reflexivity|].
  apply (handler_only_when_governed demo_policy_runner mail_call demo_context None None None
    demo_start mail_run.1 mail_run.2 (take 2 mail_log) demo_tool (cp "send_mail") [] demo_hctx
    (drop 3 mail_log) (surjective_pairing _) mail_log_handler).
Defined.

Lemma write_tier_needs_durable_intent_witness :
  is_write_tier (td_risk_tier demo_tool) = true /\ td_risk_tier demo_tool = T2.
Proof.
  split; [reflexivity|].
  apply (write_tier_needs_durable_intent demo_policy_runner mail_call demo_context None None None
    demo_start mail_run.1 mail_run.2 (take 2 mail_log) demo_tool (cp "send_mail") [] demo_hctx
    (drop 3 mail_log) (surjective_pairing _) mail_log_handler demo_tool_governed eq_refl).
Defined.

Definition mail_result : ToolResult :=
  match mail_run.1 with
  | inr res => res
  | inl _ => failure_result [] [] [] [] None 0 None
  end.

Lemma mail_run_returns : mail_run = (inr mail_result, mail_run.2).
Proof. reflexivity. Qed.

Lemma returning_run_is_recorded_witness :
  tr_ok mail_result = true /\ tr_call_id mail_result = cp "c1" /\ st_next mail_run.2 = 1%N.
Proof.
  split; [reflexivity|].
  destruct (returning_run_is_recorded demo_policy_runner mail_call demo_context None None None
    demo_start mail_result mail_run.2 mail_run_returns) as ((_ & Hid & _) & _ & Hnext & _).
  - intros k o res [=].
  - split; [exact Hid|exact Hnext].
Defined.

Lemma policy_gate_enforced_witness :
  td_requires_approval demo_tool = true /\
  exists db, pg_read (r_gate demo_policy_runner) = Some db.
Proof.
  split; [reflexivity|].
  destruct (policy_gate_enforced demo_policy_runner mail_call demo_context None None None
    demo_start mail_run.1 mail_run.2 (take 2 mail_log) demo_tool (cp "send_mail") [] demo_hctx
    (drop 3 mail_log) (surjective_pairing _) mail_log_handler (or_introl eq_refl))
    as (db & Hdb & _).
  exists db. exact Hdb.
Defined.

Lemma deny_all_runs_reads_only_witness :
  exists d, td_risk_tier d = T0 /\ cp "search" ∉ r_approval_required_tools search_runner.
Proof.
  exists (mk_tool (cp "search") [] [] demo_handler T0 false true None true). split; [reflexivity|].
  apply (deny_all_runs_reads_only search_runner (mk_call (cp "c2") (cp "search") []) demo_context
    None None None demo_start search_run.1 search_run.2 []
    (mk_tool (cp "search") [] [] demo_handler T0 false true None true) (cp "search") [] demo_hctx
    (drop 1 (st_log search_run.2)) (surjective_pairing _)).
  - vm_compute. reflexivity.
  - split_and!; vm_compute; intuition congruence.
Defined.

(** A call whose tool name is blank leaves as an error: the audit envelope
    refuses an event about a blank resource. *)
Lemma blank_name_raises :
  (run search_runner (mk_call (cp "c3") (cp "") []) demo_context None None None demo_start).1
    = inl XStore.
Proof. vm_compute. reflexivity. Qed.
End witness.
