(* ===== verification/Persistence.v ===== *)
(** * Ordered persistence of concurrent tool calls

    [ToolRunner._finalise] of [backend/app/services/tools/runner.py] under
    arbitrary interleaving: calls claim an ordinal when they start, finish in any
    order, and each waits on the persistence condition until its ordinal is the
    next one to write ([claim_ordinal], [_finalise], [abort_persistence]). *)

From stdpp Require Import base list strings gmap.
From Stdlib Require Import Sorted Lia.
From S2P Require Import Prelude Json Tools AuditLog Autonomy ToolPolicy ToolRunner.
Open Scope Z_scope.

(** A call that has claimed its ordinal; once executed it is ready to finalise. *)
Record finalisation := mk_fin {
  f_call : ToolCall;
  f_hash : pystr;
  f_mid : option uuid;
  f_ord : N;
  f_result : ToolResult;
  f_outcome : AuditOutcome;
  f_reason : option pystr;
  f_approval : option ApprovalRecord;
  f_invoked : option uuid
}.

(** The ordinals of the trace rows, in the order they were written. *)
Definition row_of (e : event) : option N :=
  match e with ERow row => Some (row_ordinal row) | _ => None end.
Definition rows (l : list event) : list N := omap row_of l.

Section coordinator.
Context `{PyRepr} `{RunnerHost} {G : Type} `{ApprovalGate G}.
Variable r : runner G.

Definition finish (f : finalisation) : M ToolResult :=
  _finalise r (f_call f) (f_hash f) (f_mid f) (f_ord f) (f_result f) (f_outcome f)
    (f_reason f) (f_approval f) (f_invoked f).

(** The calls still to be finalised, and the runner's state. *)
Abbreviation world := (list finalisation * rstate)%type.

Inductive step : world -> world -> Prop :=
| step_claim w s f s' :                       (** a call starts: it claims an ordinal *)
    claim_ordinal s = (inr (f_ord f), s') -> step (w, s) (w ++ [f], s')
| step_work w s evs s' :                      (** some call makes progress *)
    rows evs = [] -> same_drain s s' -> st_log s' = st_log s ++ evs ->
    step (w, s) (w, s')
| step_lost pre f post s :                    (** a call ends without finalising *)
    step (pre ++ f :: post, s) (pre ++ post, s)
| step_finish pre f post s o s' :             (** a waiting call is woken *)
    finish f s = (o, s') -> o <> inl XBlocked ->
    step (pre ++ f :: post, s) (pre ++ post, s')
| step_abort w s s' :
    abort_persistence s = (inr tt, s') -> step (w, s) (w, s').

(** A runner as it is constructed. *)
Definition fresh (s : rstate) : Prop :=
  st_ordinal s = 0%N /\ st_next s = 0%N /\ st_aborted s = false /\ rows (st_log s) = [].

Definition reachable (w : world) : Prop :=
  exists s, fresh s /\ rtc step ([], s) w.

(** Wake the waiting calls one after the other in the order [l]; the ones
    whose turn has not come wait again. *)
Fixpoint wake_all (l : list finalisation) (s : rstate) : list finalisation * rstate :=
  match l with
  | [] => ([], s)
  | f :: l' =>
      let '(o, s1) := finish f s in
      let '(waiting, s2) := wake_all l' s1 in
      (match o with inl XBlocked => f :: waiting | _ => waiting end, s2)
  end.

(** [n] rounds of wake-ups ([Condition.notify_all]). *)
Fixpoint drain (n : nat) (w : list finalisation * rstate) : list finalisation * rstate :=
  match n with 0%nat => w | S n' => let '(l, s) := w in drain n' (wake_all l s) end.
End coordinator.

(** ** Lemmas *)

Section lemmas.
Context `{PyRepr} `{RunnerHost} {G : Type} `{ApprovalGate G}.
Variable r : runner G.

Lemma rows_app l1 l2 : rows (l1 ++ l2) = rows l1 ++ rows l2.
Proof. apply omap_app. Qed.

Lemma rows_records s f :
  rows (finalise_records r s (f_call f) (f_hash f) (f_mid f) (f_ord f) (f_result f)
    (f_outcome f) (f_reason f) (f_approval f) (f_invoked f)) = [f_ord f].
Proof. unfold finalise_records, records_at. by destruct (f_invoked f). Qed.

Lemma rows_prefix l k x : l `prefix_of` k -> rows k = [x] -> rows l = [] \/ rows l = [x].
Proof.
  intros [k' ->]. rewrite rows_app. destruct (rows l) as [|a [|b l']]; simpl; [auto| |done].
  intros [= -> _]. auto.
Qed.

(** What waking a call does to the drain and to the rows. *)
Lemma finish_cases f s o s' :
  finish r f s = (o, s') ->
  (st_aborted s = true /\ o = inl XCancelled /\ s' = s) \/
  (st_aborted s = false /\ st_next s <> f_ord f /\ o = inl XBlocked /\ s' = s) \/
  (st_aborted s = false /\ st_next s = f_ord f /\ st_next s' = (f_ord f + 1)%N /\
   st_aborted s' = false /\ st_ordinal s' = st_ordinal s /\
   ((o = inl XStore /\ (rows (st_log s') = rows (st_log s) \/
       rows (st_log s') = rows (st_log s) ++ [f_ord f])) \/
    (o = inr (f_result f) /\ rows (st_log s') = rows (st_log s) ++ [f_ord f]))).
Proof.
  intros Hf. pose proof (finalise_cases r (f_call f) (f_hash f) (f_mid f) (f_ord f) (f_result f)
    (f_outcome f) (f_reason f) (f_approval f) (f_invoked f) s) as Hc.
  unfold finish in Hf. rewrite Hf in Hc.
  inversion Hc as [Ha|Ha Hn|evs s1 Ha Hn Hp Hs|s1 Ha Hn Hs]; subst.
  - by left.
  - by right; left.
  - right; right. simpl. rewrite rows_app.
    destruct (rows_prefix _ _ _ Hp (rows_records s f)) as [->| ->];
      rewrite ?app_nil_r; split_and!; try done; [by rewrite Hn| |by rewrite Hn|]; auto 10.
  - right; right. simpl. rewrite rows_app, rows_records.
    split_and!; try done; [by rewrite Hn|]. auto 10.
Qed.

(** The invariant of every reachable state. *)
Definition ordered_rows (l : list N) (n : N) : Prop :=
  StronglySorted N.lt l /\ Forall (fun o => o < n)%N l.

Lemma ordered_rows_snoc l n m : ordered_rows l n -> (n <= m)%N -> ordered_rows (l ++ [m]) (m + 1).
Proof.
  intros [Hs Hl] Hnm. split.
  - induction l as [|a l IH]; simpl; [by repeat constructor|].
    apply StronglySorted_inv in Hs as [Hs Ha]. apply Forall_cons in Hl as [? Hl].
    constructor; [by apply IH|]. apply Forall_app. split; [done|]. repeat constructor. lia.
  - apply Forall_app. split; [|repeat constructor; lia].
    eapply Forall_impl; [exact Hl|]. simpl. lia.
Qed.

Lemma ordered_rows_mono l n m : ordered_rows l n -> (n <= m)%N -> ordered_rows l m.
Proof.
  intros [Hs Hl] ?. split; [done|]. eapply Forall_impl; [exact Hl|]. simpl. lia.
Qed.

Record ok_world (w : list finalisation * rstate) : Prop := {
  ow_rows : ordered_rows (rows (st_log w.2)) (st_next w.2);
  ow_nodup : NoDup (f_ord <$> w.1);
  ow_range : Forall (fun f => st_next w.2 <= f_ord f < st_ordinal w.2)%N w.1 ;
  ow_next : (st_next w.2 <= st_ordinal w.2)%N
}.

Lemma ok_world_drop pre f post s :
  ok_world (pre ++ f :: post, s) -> ok_world (pre ++ post, s).
Proof.
  intros [Hr Hn Hp Hx]. split; simpl in *; try done.
  - rewrite fmap_app in *. simpl in Hn. rewrite <-Permutation_middle in Hn.
    by apply NoDup_cons in Hn as [_ ?].
  - apply Forall_app in Hp as [? [_ ?]%Forall_cons]. by apply Forall_app.
Qed.

Lemma ok_world_finish pre f post s o s' :
  ok_world (pre ++ f :: post, s) -> finish r f s = (o, s') -> o <> inl XBlocked ->
  ok_world (pre ++ post, s').
Proof.
  intros Hok Hf Hne.
  destruct (finish_cases f s o s' Hf) as [(_ & _ & ->)|[(_ & _ & -> & _)|
    (_ & Hn & Hn' & _ & Ho & Hrows)]]; [by eapply ok_world_drop|done|].
  pose proof (ok_world_drop _ _ _ _ Hok) as [_ Hnd Hrg _].
  destruct Hok as [Hr Hndf Hrgf Hx]. simpl in *.
  apply Forall_app in Hrgf as [_ [Hff _]%Forall_cons].
  split; simpl; [|done| |lia].
  - rewrite Hn'. destruct Hrows as [[_ [->| ->]]|[_ ->]].
    + eapply ordered_rows_mono; [exact Hr|lia].
    + eapply ordered_rows_snoc; [exact Hr|lia].
    + eapply ordered_rows_snoc; [exact Hr|lia].
  - apply Forall_forall. intros g Hg. rewrite Forall_forall in Hrg.
    pose proof (Hrg g Hg) as Hgr. rewrite Hn', Ho.
    assert (f_ord g <> f_ord f); [|lia]. intros Heq.
    rewrite fmap_app in Hndf. simpl in Hndf. rewrite <-Permutation_middle in Hndf.
    apply NoDup_cons in Hndf as [Hni _]. apply Hni. rewrite <-fmap_app, <-Heq.
    by apply list_elem_of_fmap_2.
Qed.

Lemma ok_world_step w w' : ok_world w -> step r w w' -> ok_world w'.
Proof.
  intros Hok Hstep. destruct Hstep as [w s f s' Hc|w s evs s' Hev (Ho & Hn & Ha) Hlog
    |pre f post s|pre f post s o s' Hf Hne|w s s' Hab].
  - destruct Hok as [Hr Hnd Hrg Hx]. unfold claim_ordinal in Hc. injection Hc as Hord <-.
    simpl in *. split; simpl; [done| | |lia].
    + rewrite fmap_app. apply NoDup_app. split_and!; [done| |apply NoDup_singleton].
      intros o (g & -> & Hg)%list_elem_of_fmap Hin%list_elem_of_singleton.
      rewrite Forall_forall in Hrg. apply Hrg in Hg. lia.
    + apply Forall_app. split; [|repeat constructor; lia].
      eapply Forall_impl; [exact Hrg|]. simpl. lia.
  - destruct Hok as [Hr Hnd Hrg Hx]. simpl in *.
    split; simpl; rewrite ?Hlog, ?rows_app, ?Hev, ?app_nil_r, ?Hn, ?Ho; done.
  - by eapply ok_world_drop.
  - by eapply ok_world_finish.
  - unfold abort_persistence, modify in Hab. injection Hab as <-. by destruct Hok.
Qed.

Lemma ok_world_reachable w : reachable r w -> ok_world w.
Proof.
  intros (s & (Ho & Hn & Ha & Hr) & Hrtc).
  assert (ok_world ([], s)) as H0'.
  { split; simpl; rewrite ?Hr, ?Ho, ?Hn; repeat constructor; lia. }
  clear Ho Hn Ha Hr. induction Hrtc as [|w1 w2 w3 H12 _ IH]; [done|].
  apply IH. by eapply ok_world_step.
Qed.

(** A waiting call whose ordinal is the next one finishes when woken. *)
Lemma finish_next f s o s' :
  finish r f s = (o, s') -> st_aborted s = false -> st_next s = f_ord f ->
  o <> inl XBlocked /\ st_next s' = (f_ord f + 1)%N /\ st_aborted s' = false /\
  st_ordinal s' = st_ordinal s.
Proof.
  intros Hf Ha Hn. destruct (finish_cases f s o s' Hf) as [(? & _)|[(_ & ? & _)|
    (_ & _ & Hn' & Ha' & Ho & Hrows)]]; try congruence.
  split_and!; try done. destruct Hrows as [[-> _]|[-> _]]; done.
Qed.
End lemmas.

(** ** Lemmas: the drain completes *)

(** [n] consecutive ordinals. *)
Fixpoint count_from (x : N) (n : nat) : list N :=
  match n with 0%nat => [] | S n' => x :: count_from (x + 1) n' end.

Section drain_lemmas.
Context `{PyRepr} `{RunnerHost} {G : Type} `{ApprovalGate G}.
Variable r : runner G.

Lemma count_from_bound x n y : y ∈ count_from x n -> (x <= y)%N.
Proof.
  revert x. induction n as [|n IH]; intros x; simpl; [by intros ?%elem_of_nil|].
  intros [->|Hy%IH]%elem_of_cons; lia.
Qed.

Lemma count_from_next x n (l : list N) :
  x :: l ≡ₚ count_from x n -> exists n', n = S n' /\ l ≡ₚ count_from (x + 1) n'.
Proof.
  destruct n as [|n]; simpl; intros Hp.
  - by apply Permutation_length in Hp.
  - exists n. split; [done|]. by apply Permutation_cons_inv in Hp.
Qed.

(** Every write of a waiting call succeeds. *)
Definition writes_succeed (l : list finalisation) : Prop :=
  forall f s, f ∈ l -> st_aborted s = false -> st_next s = f_ord f ->
    (finish r f s).1 = inr (f_result f).

Lemma finish_row f s o s' :
  finish r f s = (o, s') -> st_next s = f_ord f -> st_aborted s = false ->
  o = inr (f_result f) -> rows (st_log s') = rows (st_log s) ++ [f_ord f].
Proof.
  intros Hf Hn Ha ->. destruct (finish_cases r f s _ s' Hf) as [(_ & [=] & _)|[(_ & _ & [=] & _)|
    (_ & _ & _ & _ & _ & [[[=] _]|[_ Hrow]])]]. done.
Qed.

Lemma wake_all_spec l : forall b s n w s',
  st_aborted s = false -> f_ord <$> (b ++ l) ≡ₚ count_from (st_next s) n ->
  wake_all r l s = (w, s') ->
  exists k n', n = (k + n')%nat /\ st_next s' = (st_next s + N.of_nat k)%N /\
    st_aborted s' = false /\ f_ord <$> (b ++ w) ≡ₚ count_from (st_next s') n' /\
    (st_next s ∈ f_ord <$> l -> (1 <= k)%nat) /\ w ⊆ l /\
    (writes_succeed l -> rows (st_log s') = rows (st_log s) ++ count_from (st_next s) k).
Proof.
  induction l as [|f l IH]; intros b s n w s' Ha Hp Hw; simpl in Hw.
  { injection Hw as <- <-. exists 0%nat, n.
    split_and!; try done; [lia|by intros ?%elem_of_nil|].
    intros _. simpl. by rewrite app_nil_r. }
  destruct (finish r f s) as [o s1] eqn:Hf.
  destruct (wake_all r l s1) as [w2 s2] eqn:Hw2.
  destruct (decide (st_next s = f_ord f)) as [Hn|Hn].
  - destruct (finish_next r f s o s1 Hf Ha Hn) as (Hne & Hn1 & Ha1 & _).
    assert (w = w2 /\ s' = s2) as [-> ->] by (destruct o as [[]|]; by simplify_eq).
    assert (exists n', n = S n' /\ f_ord <$> b ++ l ≡ₚ count_from (st_next s1) n')
      as (n' & -> & Hp1).
    { rewrite Hn1, <-Hn. apply count_from_next. rewrite <-Hp, !fmap_app. simpl.
      by rewrite Hn, Permutation_middle. }
    destruct (IH b s1 n' w2 s2 Ha1 Hp1 Hw2) as (k & n2 & -> & Hk & Ha2 & Hp2 & _ & Hsub & Hrow).
    exists (S k), n2. split_and!; try done; [rewrite Hk; lia|lia|set_solver|].
    intros Hs. rewrite Hrow by (intros g t Hg; apply Hs; set_solver).
    rewrite (finish_row _ _ _ _ Hf Hn Ha).
    + simpl. by rewrite <-app_assoc, Hn1, Hn.
    + change o with ((o, s1).1). rewrite <-Hf. apply Hs; set_solver.
  - assert (o = inl XBlocked /\ s1 = s) as [-> ->].
    { destruct (finish_cases r f s o s1 Hf) as [(? & _)|[(_ & _ & -> & ->)|(_ & ? & _)]];
        congruence || done. }
    injection Hw as <- <-.
    assert (f_ord <$> ((b ++ [f]) ++ l) ≡ₚ count_from (st_next s) n) as Hp1
      by by rewrite <-app_assoc.
    destruct (IH (b ++ [f]) s n w2 s2 Ha Hp1 Hw2)
      as (k & n2 & -> & Hk & Ha2 & Hp2 & Hin & Hsub & Hrow).
    exists k, n2. split_and!; try done; [by rewrite <-app_assoc in Hp2| |set_solver|].
    + intros [Heq|?]%elem_of_cons; [done|by apply Hin].
    + intros Hs. apply Hrow. intros g t Hg. apply Hs. set_solver.
Qed.

Lemma drain_spec m : forall l s n w s',
  (n <= m)%nat -> st_aborted s = false -> f_ord <$> l ≡ₚ count_from (st_next s) n ->
  drain r m (l, s) = (w, s') ->
  w = [] /\ st_next s' = (st_next s + N.of_nat n)%N /\ st_aborted s' = false /\
  (writes_succeed l -> rows (st_log s') = rows (st_log s) ++ count_from (st_next s) n).
Proof.
  induction m as [|m IH]; intros l s n w s' Hnm Ha Hp; simpl.
  - intros [= <- <-]. assert (n = 0%nat) as -> by lia. simpl in *.
    apply Permutation_nil_r, fmap_nil_inv in Hp as ->.
    split_and!; [done|lia|done|]. intros _. by rewrite app_nil_r.
  - destruct (wake_all r l s) as [l1 s1] eqn:Hw. intros Hd.
    destruct (wake_all_spec l [] s n l1 s1 Ha Hp Hw)
      as (k & n' & -> & Hk & Ha1 & Hp1 & Hin & Hsub & Hrow).
    assert (n' <= m)%nat.
    { destruct (k + n')%nat as [|n2] eqn:E; [lia|]. enough (1 <= k)%nat by lia.
      apply Hin. change l with ([] ++ l). rewrite Hp. set_solver. }
    destruct (IH l1 s1 n' w s' ltac:(lia) Ha1 Hp1 Hd) as (-> & Hn' & Ha' & Hrow').
    split_and!; [done|rewrite Hn', Hk; lia|done|].
    intros Hs. rewrite Hrow' by (intros g t Hg; apply Hs; set_solver).
    rewrite Hrow by done. rewrite <-app_assoc. f_equal. rewrite Hk.
    clear. generalize (st_next s). induction k as [|k IHk]; intros x; simpl; [by rewrite N.add_0_r|].
    f_equal. rewrite <-IHk. f_equal. f_equal. lia.
Qed.
End drain_lemmas.

(** ** Properties *)

Section properties.
Context `{PyRepr} `{RunnerHost} {G : Type} `{ApprovalGate G}.
Variable r : runner G.

(** C22: whatever order concurrent calls finish in, trace rows are written in
    ordinal order.  In every reachable state of a runner, under any
    interleaving of claims, executions, losses, wake-ups and an abort, the
    rows written so far have strictly increasing ordinals, all below the next
    ordinal to write; no two calls in flight hold the same ordinal; and once
    persistence is aborted no wake-up writes anything. *)
Theorem rows_in_ordinal_order w s (Hw : reachable r (w, s)) :
  StronglySorted N.lt (rows (st_log s)) /\
  Forall (fun o => o < st_next s)%N (rows (st_log s)) /\
  NoDup (f_ord <$> w) /\
  (st_aborted s = true -> forall f o s', f ∈ w -> finish r f s = (o, s') ->
    o = inl XCancelled /\ s' = s).
Proof.
  apply (ok_world_reachable r) in Hw as [[Hs Hl] Hn _ _]. simpl in *.
  split_and!; try done. intros Ha f o s' _ Hf.
  destruct (finish_cases r f s o s' Hf) as [(_ & -> & ->)|[(? & _)|(? & _)]];
    [done|congruence..].
Qed.

(** The drain never deadlocks.  When every call in flight is ready to
    finalise and they hold the consecutive ordinals from the next one on, as
    many rounds of wake-ups as there are calls, in whatever order each round
    wakes them, leave no call waiting and move the next ordinal past all of
    them; and when the writes succeed the rows appended are exactly these
    ordinals in order. *)
Theorem drain_completes l s
    (Ha : st_aborted s = false)
    (Hp : f_ord <$> l ≡ₚ count_from (st_next s) (length l)) :
  exists s', drain r (length l) (l, s) = ([], s') /\
    st_next s' = (st_next s + N.of_nat (length l))%N /\ st_aborted s' = false /\
    ((forall f s, f ∈ l -> st_aborted s = false -> st_next s = f_ord f ->
        (finish r f s).1 = inr (f_result f)) ->
      rows (st_log s') = rows (st_log s) ++ count_from (st_next s) (length l)).
Proof.
  destruct (drain r (length l) (l, s)) as [w s'] eqn:Hd.
  destruct (drain_spec r _ l s _ w s' (le_n _) Ha Hp Hd) as (-> & Hn & Ha' & Hrow).
  exists s'. by split_and!.
Qed.
End properties.

(** ** Witnesses *)

Section witness.
#[local] Existing Instance demo_repr.
#[local] Existing Instance demo_host.

Definition demo_fin (ordinal : N) : finalisation :=
  mk_fin mail_call (cp "h") None ordinal
    (failure_result (cp "c1") (cp "send_mail") ERROR_TOOL_ERROR [] None 0 None)
    ERROR None None None.
Definition two_claimed : rstate := mk_state 2 0 false [] [] [].

Lemma rows_in_ordinal_order_witness :
  reachable search_runner ([demo_fin 0], mk_state 1 0 false [] [] []) /\
  NoDup (f_ord <$> [demo_fin 0]).
Proof.
  assert (reachable search_runner ([demo_fin 0], mk_state 1 0 false [] [] [])) as Hr.
  { exists demo_start. split; [repeat split|]. apply rtc_once.
    apply (step_claim search_runner [] demo_start (demo_fin 0)). reflexivity. }
  split; [exact Hr|].
  apply (rows_in_ordinal_order search_runner _ _ Hr).
Defined.

Lemma drain_completes_witness :
  exists s', drain search_runner 2 ([demo_fin 1; demo_fin 0], two_claimed) = ([], s') /\
    st_next s' = 2%N.
Proof.
  destruct (drain_completes search_runner [demo_fin 1; demo_fin 0] two_claimed eq_refl
    (perm_swap 0%N 1%N [])) as (s' & Hd & Hn & _).
  exists s'. split; [exact Hd|exact Hn].
Defined.

Lemma two_finish_out_of_order :
  rows (st_log (drain search_runner 2 ([demo_fin 1; demo_fin 0], two_claimed)).2) = [0; 1]%N.
Proof. vm_compute. reflexivity. Qed.
End witness.
