(* ===== verification/Permissions.v ===== *)
(** * The retrieval permission predicate

    [backend/app/retrieval/permissions.py] ([AllowSet]), the WHERE clause of
    [backend/app/retrieval/queries.py] ([_grant_exists], [_acl_principal_overlap],
    [_document_permitted]), its search-engine counterpart in
    [backend/app/search/filters.py] ([SearchAllowFilter]), and the repository
    reads that resolve an allow-set ([group_ids_for_user],
    [granted_resource_ids] of [backend/app/db/repositories.py]). *)

From stdpp Require Import base list strings gmap.
From S2P Require Import Prelude Json Tools.
Open Scope Z_scope.

(** ** The rows the predicate reads *)

Record Grant := mk_grant {
  g_tenant_id : uuid;
  g_resource_type : pystr;
  g_resource_id : uuid;
  g_principal_type : pystr;
  g_principal_id : uuid
}.

Record Document := mk_document {
  d_id : uuid;
  d_tenant_id : uuid;
  d_owner_id : uuid;
  d_collection_id : uuid;
  d_source_id : option uuid;
  d_filename : pystr;
  d_kind : pystr;
  d_duration_ms : option Z;
  d_status : pystr;
  d_ingestion_attempts : Z;
  d_acl_enforced : bool;
  d_acl_principals : option (list pystr);
  d_acl_synced_at : option Z;            (** an instant, in seconds *)
  d_acl_scope_ids : option (list pystr)
}.

Record Group := mk_group { gr_id : uuid; gr_tenant_id : uuid; gr_kind : pystr }.
Record GroupMember := mk_member { gm_tenant_id : uuid; gm_group_id : uuid; gm_user_id : uuid }.

(** ** SQL conditions: three-valued logic

    A [WHERE] keeps a row only when its condition is true, not unknown. *)

Abbreviation sql_bool := (option bool) (only parsing).

Definition sql_and (a b : sql_bool) : sql_bool :=
  match a, b with
  | Some false, _ | _, Some false => Some false
  | Some true, x => x
  | None, _ => None
  end.
Definition sql_or (a b : sql_bool) : sql_bool :=
  match a, b with
  | Some true, _ | _, Some true => Some true
  | Some false, x => x
  | None, _ => None
  end.
Definition sql_ors (l : list sql_bool) : sql_bool := foldr sql_or (Some false) l.
Definition sql_true (a : sql_bool) : bool := match a with Some true => true | _ => false end.

(** A comparison with a nullable column is unknown on NULL. *)
Definition sql_cmp {A} (p : A -> bool) (x : option A) : sql_bool := p <$> x.

(** [p in s]; [LIKE '%' || escaped p || '%']. *)
Fixpoint contains (p s : pystr) : bool :=
  py_startswith p s || match s with [] => false | _ :: s' => contains p s' end.

(** ** What the host gives: ids as text, the JSON text of a string array *)

Definition quote : N := 34%N.
(** A string whose JSON rendering is itself between quotes. *)
Definition plain (s : pystr) : Prop :=
  Forall (fun c => c <> quote /\ c <> 92 /\ 32 <= c /\ c < 127)%N s.

Definition json_array_text (l : list pystr) : pystr :=
  cp "[" ++ py_join (cp ", ") ((fun p => quote :: p ++ [quote]) <$> l) ++ cp "]".

Class TextHost := {
  str_uuid : uuid -> pystr;
  str_uuid_inj : forall a b, str_uuid a = str_uuid b -> a = b;
  str_uuid_plain : forall a, plain (str_uuid a);
  (** [cast(column, String)] of a JSON array of strings; both dialects render
      plain strings between quotes, separated by a comma and a space. *)
  json_text : list pystr -> pystr;
  json_text_plain : forall l, Forall plain l -> json_text l = json_array_text l;
  (** [isoformat] of a UTC instant *)
  isoformat : Z -> pystr;
  isoformat_inj : forall a b, isoformat a = isoformat b -> a = b
}.

(** ** AllowSet (retrieval/permissions.py) *)

Record AllowSet := mk_allow {
  as_tenant_id : uuid;
  as_owner_ids : gset uuid;
  as_grant_principal_id : uuid;
  as_acl_principals : list pystr;        (** a frozenset, in sorted order *)
  as_group_ids : gset uuid
}.

Section allow_set.
Context `{TextHost}.

Definition user_principal (u : uuid) : pystr := cp "user:" ++ str_uuid u.
Definition tenant_principal : pystr := cp "tenant".

Definition for_user (tenant user : uuid) (group_ids : gset uuid) : AllowSet := {|
  as_tenant_id := tenant; as_owner_ids := {[user]}; as_grant_principal_id := user;
  as_acl_principals := py_sorted str_leb [user_principal user; tenant_principal];
  as_group_ids := group_ids |}.

Definition for_principal (p : Principal) (group_ids : gset uuid) : AllowSet :=
  for_user (tenant_id p) (user_id p) group_ids.

Definition permits_owner (a : AllowSet) (owner : uuid) : bool :=
  bool_decide (owner ∈ as_owner_ids a).
End allow_set.

(** ** The SQL predicate (retrieval/queries.py) *)

(** Does this grant go to the requester: their user, or one of their groups? *)
Definition principal_match (grantee : uuid) (groups : gset uuid) (g : Grant) : bool :=
  (bool_decide (g_principal_type g = cp "user") && N.eqb (g_principal_id g) grantee)
  || (bool_decide (groups <> ∅)
      && bool_decide (g_principal_type g = cp "group") && bool_decide (g_principal_id g ∈ groups)).

Definition _grant_exists (a : AllowSet) (grants : list Grant) (d : Document) : bool :=
  existsb (fun g =>
    N.eqb (g_tenant_id g) (as_tenant_id a)
    && principal_match (as_grant_principal_id a) (as_group_ids a) g
    && ((bool_decide (g_resource_type g = cp "document") && N.eqb (g_resource_id g) (d_id d))
        || (bool_decide (g_resource_type g = cp "collection")
            && N.eqb (g_resource_id g) (d_collection_id d)))) grants.

Section predicate.
Context `{TextHost}.

Definition _acl_principal_overlap (a : AllowSet) (d : Document) : sql_bool :=
  sql_ors ((fun p => sql_cmp (contains (quote :: p ++ [quote]))
                       (json_text <$> d_acl_principals d)) <$> as_acl_principals a).

(** [acl_freshness_floor], for the configured window in hours. *)
Definition acl_freshness_floor (max_age_hours now : Z) : Z := now - max_age_hours * 3600.

Definition _document_permitted (a : AllowSet) (grants : list Grant) (floor : Z)
    (d : Document) : sql_bool :=
  sql_or
    (sql_and (Some (negb (d_acl_enforced d)))
       (sql_or (Some (bool_decide (d_owner_id d ∈ as_owner_ids a)))
               (Some (_grant_exists a grants d))))
    (sql_and (sql_and (Some (d_acl_enforced d)) (_acl_principal_overlap a d))
       (sql_cmp (fun t => floor <=? t) (d_acl_synced_at d))).
End predicate.

(** ** Resolving the allow-set and the grants (db/repositories.py) *)

Definition group_ids_for_user (tenant user : uuid) (members : list GroupMember)
    (groups : list Group) : res unit (gset uuid) :=
  let explicit : gset uuid := list_to_set (omap (fun m =>
    if N.eqb (gm_tenant_id m) tenant && N.eqb (gm_user_id m) user
    then Some (gm_group_id m) else None) members) in
  match filter (fun g => gr_tenant_id g = tenant /\ gr_kind g = cp "system") groups with
  | [] => Ok explicit
  | [system] => Ok ({[gr_id system]} ∪ explicit)
  | _ => Err tt                                  (* one_or_none raises *)
  end.

Definition granted_resource_ids (tenant principal : uuid) (group_ids : gset uuid)
    (grants : list Grant) : gset uuid * gset uuid :=
  let rows := filter (fun g => g_tenant_id g = tenant /\
                        principal_match principal group_ids g = true) grants in
  (list_to_set (omap (fun g =>
     if decide (g_resource_type g = cp "document") then Some (g_resource_id g) else None) rows),
   list_to_set (omap (fun g =>
     if decide (g_resource_type g = cp "document") then None
     else if decide (g_resource_type g = cp "collection") then Some (g_resource_id g)
     else None) rows)).

(** ** The engine filter (search/filters.py) *)

(** The query clauses the filter is built from. *)
Inductive clause : Type :=
| CTerm (field : pystr) (v : json)
| CTerms (field : pystr) (vs : list json)
| CRangeGte (field : pystr) (v : json)
| CFilter (l : list clause)               (** bool.filter *)
| CShould (l : list clause).              (** bool.should, minimum_should_match 1 *)

Record SearchAllowFilter := mk_filter {
  sf_tenant_id : uuid;
  sf_owner_ids : gset uuid;
  sf_granted_document_ids : gset uuid;
  sf_granted_collection_ids : gset uuid;
  sf_acl_principals : list pystr
}.

(** [__post_init__] *)
Definition search_allow_filter_post_init (f : SearchAllowFilter) : res pystr SearchAllowFilter :=
  if bool_decide (sf_owner_ids f = ∅) then
    Err (cp "SearchAllowFilter requires a non-empty owner set (the requester always allows their own resources).")
  else Ok f.

Section engine_filter.
Context `{TextHost}.

Definition id_strings (s : gset uuid) : list json :=
  JStr <$> py_sorted str_leb (str_uuid <$> elements s).

Definition to_engine_filter (f : SearchAllowFilter) (floor : Z) : list clause :=
  let owner_or_grant :=
    [CTerms (cp "owner_id") (id_strings (sf_owner_ids f))]
    ++ (if bool_decide (sf_granted_document_ids f = ∅) then []
        else [CTerms (cp "document_id") (id_strings (sf_granted_document_ids f))])
    ++ (if bool_decide (sf_granted_collection_ids f = ∅) then []
        else [CTerms (cp "collection_id") (id_strings (sf_granted_collection_ids f))]) in
  let not_enforced_branch :=
    CFilter [CTerm (cp "acl_enforced") (JBool false); CShould owner_or_grant] in
  let enforced_branch :=
    CFilter [CTerm (cp "acl_enforced") (JBool true);
             CTerms (cp "acl_principals") (JStr <$> py_sorted str_leb (sf_acl_principals f));
             CRangeGte (cp "acl_synced_at") (JStr (isoformat floor))] in
  [CTerm (cp "tenant_id") (JStr (str_uuid (sf_tenant_id f)));
   CShould [not_enforced_branch; enforced_branch]].

(** [_allow_filter] of retrieval/service.py. *)
Definition _allow_filter (a : AllowSet) (grants : list Grant) : res pystr SearchAllowFilter :=
  let '(docs, colls) := granted_resource_ids (as_tenant_id a) (as_grant_principal_id a)
                          (as_group_ids a) grants in
  search_allow_filter_post_init
    (mk_filter (as_tenant_id a) (as_owner_ids a) docs colls (as_acl_principals a)).
End engine_filter.

(** ** The index document and the engine (tasks/index_sync.py, search/store.py) *)

(** The fields of a chunk's index document that the filter reads, as
    [_to_indexed] and [_bulk_batch] write them. *)
Section index_document.
Context `{TextHost}.

Definition index_document (chunk_id chunk_tenant : uuid) (embedding_fingerprint : option pystr)
    (d : Document) : dict :=
  [(cp "chunk_id", JStr (str_uuid chunk_id));
   (cp "tenant_id", JStr (str_uuid chunk_tenant));
   (cp "document_id", JStr (str_uuid (d_id d)));
   (cp "owner_id", JStr (str_uuid (d_owner_id d)));
   (cp "collection_id", JStr (str_uuid (d_collection_id d)));
   (cp "ingestion_attempt", JInt (d_ingestion_attempts d));
   (cp "embedding_fingerprint",
      JStr (match embedding_fingerprint with Some f => f | None => [] end));
   (cp "acl_enforced", JBool (d_acl_enforced d));
   (cp "acl_principals", JArr (JStr <$> py_sorted str_leb
      (match d_acl_principals d with Some l => l | None => [] end)));
   (cp "acl_synced_at",
      match d_acl_synced_at d with Some t => JStr (isoformat t) | None => JNull end);
   (cp "acl_scope_ids", JArr (JStr <$> py_sorted str_leb
      (match d_acl_scope_ids d with Some l => l | None => [] end)))].
End index_document.

(** The values a field is indexed under: a null or missing field has none, an
    array one per element. *)
Definition field_values (field : pystr) (doc : dict) : list json :=
  match dict_get field doc with
  | None | Some JNull => []
  | Some (JArr l) => l
  | Some v => [v]
  end.

(** The search engine's documented query semantics. *)
Class SearchEngine `{TextHost} := {
  engine_match : clause -> dict -> bool;
  match_term f v doc : engine_match (CTerm f v) doc = true <-> v ∈ field_values f doc;
  match_terms f vs doc :
    engine_match (CTerms f vs) doc = true <-> exists v, v ∈ vs /\ v ∈ field_values f doc;
  match_range f lo doc : engine_match (CRangeGte f (JStr (isoformat lo))) doc = true <->
    exists t, JStr (isoformat t) ∈ field_values f doc /\ lo <= t;
  match_filter l doc :
    engine_match (CFilter l) doc = true <-> Forall (fun c => engine_match c doc = true) l;
  match_should l doc :
    engine_match (CShould l) doc = true <-> Exists (fun c => engine_match c doc = true) l
}.

(** ** What the predicate means *)

(** The grant [g] covers the document [d]: directly, or through its collection. *)
Definition covers (g : Grant) (d : Document) : Prop :=
  (g_resource_type g = cp "document" /\ g_resource_id g = d_id d) \/
  (g_resource_type g = cp "collection" /\ g_resource_id g = d_collection_id d).

(** The grant goes to this user, or to a group of theirs. *)
Definition granted_to (user : uuid) (groups : gset uuid) (g : Grant) : Prop :=
  (g_principal_type g = cp "user" /\ g_principal_id g = user) \/
  (g_principal_type g = cp "group" /\ g_principal_id g ∈ groups).

(** The rule of the specification: exclusive modes, deny by default. *)
Definition may_read `{TextHost} (tenant user : uuid) (groups : gset uuid)
    (grants : list Grant) (floor : Z) (d : Document) : Prop :=
  if d_acl_enforced d then
    exists acl synced, d_acl_principals d = Some acl /\
      (user_principal user ∈ acl \/ tenant_principal ∈ acl) /\
      d_acl_synced_at d = Some synced /\ floor <= synced
  else
    d_owner_id d = user \/
    exists g, g ∈ grants /\ g_tenant_id g = tenant /\ granted_to user groups g /\ covers g d.

(** ** Lemmas: matching a principal in the JSON text *)

Lemma contains_spec p s : contains p s = true <-> exists A B, s = A ++ p ++ B.
Proof.
  induction s as [|c s IH]; cbn [contains]; rewrite orb_true_iff, py_startswith_spec.
  - split.
    + intros [[B ->]|[=]]. by exists [], B.
    + intros (A & B & HAB). left. symmetry in HAB.
      apply app_nil in HAB as [-> HAB]. by exists B.
  - rewrite IH. split.
    + intros [[B ->]|(A & B & ->)]; [by exists [], B|by exists (c :: A), B].
    + intros ([|c' A] & B & HAB); [left; by exists B|right].
      injection HAB as _ ->. by exists A, B.
Qed.

(** Two ways to cut a text at a quote: at the first one, or after it. *)
Lemma quote_split u X A Y :
  quote ∉ u -> u ++ quote :: X = A ++ quote :: Y ->
  (A = u /\ X = Y) \/ exists A', A = u ++ quote :: A' /\ X = A' ++ quote :: Y.
Proof.
  revert A. induction u as [|c u IH]; intros A Hu Heq.
  - destruct A as [|a A]; simpl in Heq; injection Heq; [by left|].
    intros HX <-. right. by exists A.
  - destruct A as [|a A]; simpl in Heq; injection Heq.
    + intros _ ->. exfalso. apply Hu. left.
    + intros HX <-. destruct (IH A) as [[-> ->]|(A' & -> & ->)]; [set_solver|done|by left|].
      right. by exists A'.
Qed.

Lemma plain_no_quote s : plain s -> quote ∉ s.
Proof. intros Hs Hin. eapply Forall_forall in Hs; [|exact Hin]. naive_solver. Qed.

Definition quoted (p : pystr) : pystr := quote :: p ++ [quote].

Lemma quoted_app p X : quoted p ++ X = quote :: p ++ quote :: X.
Proof. unfold quoted. simpl. by rewrite <-app_assoc. Qed.

Lemma no_quote_inside u A Y : quote ∉ u -> u <> A ++ quote :: Y.
Proof. intros Hu ->. apply Hu. set_solver. Qed.

(** A quoted word of a rendered list is an element, or the separator. *)
Lemma quoted_in_join l : forall u p A B,
  Forall plain l -> quote ∉ p -> quote ∉ u ->
  u ++ py_join (cp ", ") (quoted <$> l) ++ cp "]" = A ++ quoted p ++ B ->
  p ∈ l \/ p = cp ", ".
Proof.
  induction l as [|x l IH]; intros u p A B Hl Hp Hu Heq.
  - exfalso. revert Heq. rewrite quoted_app. simpl. apply no_quote_inside.
    apply not_elem_of_app. split; [done|]. apply not_elem_of_cons. split; [done|set_solver].
  - apply Forall_cons in Hl as [Hx Hl]. apply plain_no_quote in Hx.
    assert (exists V, py_join (cp ", ") (quoted <$> (x :: l)) ++ cp "]" = quoted x ++ V /\
      (V = cp "]" \/ V = cp ", " ++ py_join (cp ", ") (quoted <$> l) ++ cp "]" /\ l <> []))
      as (V & HV & HVc).
    { destruct l as [|y l]; [by exists (cp "]"); auto|]. eexists.
      split; [|right; split; [reflexivity|done]]. cbn [fmap list_fmap py_join].
      by rewrite <-!app_assoc. }
    rewrite HV, !quoted_app in Heq.
    apply quote_split in Heq as [[-> Heq]|(A1 & -> & Heq)]; [| |done].
    { apply quote_split in Heq as [[-> _]|(A' & Hpx & _)]; [left; left| |done].
      exfalso. by apply (no_quote_inside p x A'). }
    apply quote_split in Heq as [[-> Heq]|(A2 & -> & Heq)]; [| |done].
    + destruct HVc as [->|[-> Hne]].
      { exfalso. revert Heq. apply no_quote_inside. set_solver. }
      destruct l as [|y l]; [done|].
      assert (exists W, py_join (cp ", ") (quoted <$> (y :: l)) ++ cp "]" = quote :: W) as [W HW].
      { destruct l as [|z l]; simpl; eexists; reflexivity. }
      rewrite HW in Heq.
      apply quote_split in Heq as [[-> _]|(A' & Hpx & _)]; [by right| |set_solver].
      exfalso. by apply (no_quote_inside p (cp ", ") A').
    + destruct HVc as [->|[-> Hne]].
      { exfalso. revert Heq. apply no_quote_inside. set_solver. }
      destruct (IH (cp ", ") p A2 B) as [Hin|Hsep]; try done; [set_solver| |left; by right|by right].
      rewrite Heq. by rewrite quoted_app.
Qed.

Lemma quoted_in_list l p :
  p ∈ l -> exists A B, py_join (cp ", ") (quoted <$> l) = A ++ quoted p ++ B.
Proof.
  induction l as [|x l IH]; [by intros ?%elem_of_nil|].
  intros [->|Hin]%elem_of_cons.
  - destruct l as [|y l]; [exists [], []; by rewrite app_nil_r|].
    eexists [], _. cbn [fmap list_fmap py_join app]. reflexivity.
  - destruct (IH Hin) as (A & B & Heq). destruct l as [|y l]; [by apply elem_of_nil in Hin|].
    exists (quoted x ++ cp ", " ++ A), B. cbn [fmap list_fmap py_join] in *.
    rewrite Heq. by rewrite <-!app_assoc.
Qed.

Lemma contains_json l p :
  Forall plain l -> quote ∉ p -> p <> cp ", " ->
  contains (quoted p) (json_array_text l) = true <-> p ∈ l.
Proof.
  intros Hl Hp Hne. rewrite contains_spec. unfold json_array_text. fold quoted. split.
  - intros (A & B & Heq). destruct (quoted_in_join l (cp "[") p A B Hl Hp) as [?|?]; try done.
    change (quote ∉ [91%N]). apply not_elem_of_cons. split; [done|set_solver].
  - intros (A & B & Heq)%quoted_in_list. exists (cp "[" ++ A), (B ++ cp "]").
    fold (quoted) in *. rewrite Heq. by rewrite <-!app_assoc.
Qed.

(** ** Lemmas: three-valued logic *)

Lemma sql_and_true a b : sql_true (sql_and a b) = true <-> sql_true a = true /\ sql_true b = true.
Proof. destruct a as [[]|], b as [[]|]; simpl; intuition congruence. Qed.

Lemma sql_or_true a b : sql_true (sql_or a b) = true <-> sql_true a = true \/ sql_true b = true.
Proof. destruct a as [[]|], b as [[]|]; simpl; intuition congruence. Qed.

Lemma sql_ors_true l : sql_true (sql_ors l) = true <-> exists a, a ∈ l /\ sql_true a = true.
Proof.
  induction l as [|a l IH]; simpl.
  - split; [done|]. by intros (a & ?%elem_of_nil & _).
  - rewrite sql_or_true, IH. set_solver.
Qed.

Lemma sql_cmp_true {A} (p : A -> bool) x :
  sql_true (sql_cmp p x) = true <-> exists a, x = Some a /\ p a = true.
Proof. destruct x; simpl; [destruct (p a) eqn:?|]; naive_solver. Qed.

#[export] Hint Rewrite sql_and_true sql_or_true sql_ors_true @sql_cmp_true N.eqb_eq : lumen.

(** ** Lemmas: who the requester is *)

Section requester.
Context `{TextHost}.

Lemma cp_plain s : forallb (fun c => negb (N.eqb c quote) && negb (N.eqb c 92)
  && N.leb 32 c && N.ltb c 127)%N (cp s) = true -> plain (cp s).
Proof.
  intros Hf. apply Forall_forall. intros c Hc. rewrite forallb_forall in Hf.
  apply list_elem_of_In in Hc. apply Hf in Hc. to_prop.
  destruct Hc as (((Hq & Hb) & Hl) & Hr). apply N.eqb_neq in Hq, Hb.
  apply N.leb_le in Hl. apply N.ltb_lt in Hr. done.
Qed.

Lemma user_principal_plain u : plain (user_principal u).
Proof. apply Forall_app. split; [by apply cp_plain|apply str_uuid_plain]. Qed.

Lemma requester_principals tenant user groups p :
  p ∈ as_acl_principals (for_user tenant user groups) <->
  p = user_principal user \/ p = tenant_principal.
Proof. cbn [for_user as_acl_principals]. rewrite elem_of_py_sorted. set_solver. Qed.

Lemma overlap_spec tenant user groups d :
  (forall l, d_acl_principals d = Some l -> Forall plain l) ->
  sql_true (_acl_principal_overlap (for_user tenant user groups) d) = true <->
  exists acl, d_acl_principals d = Some acl /\
    (user_principal user ∈ acl \/ tenant_principal ∈ acl).
Proof.
  intros Hplain. unfold _acl_principal_overlap. rewrite sql_ors_true.
  assert (forall p acl, p = user_principal user \/ p = tenant_principal ->
    d_acl_principals d = Some acl ->
    contains (quoted p) (json_text acl) = true <-> p ∈ acl) as Hone.
  { intros p acl Hp Hacl. rewrite json_text_plain by eauto. apply contains_json; [by eauto| |].
    - apply plain_no_quote. destruct Hp as [->| ->]; [apply user_principal_plain|by apply cp_plain].
    - by destruct Hp as [->| ->]. }
  split.
  - intros (a & (p & -> & Hp%requester_principals)%list_elem_of_fmap & Ht).
    apply sql_cmp_true in Ht as (t & Hacl & Hc).
    apply fmap_Some in Hacl as (acl & Hacl & ->). exists acl. split; [done|].
    apply (Hone p acl Hp Hacl) in Hc. by destruct Hp as [->| ->]; [left|right].
  - intros (acl & Hacl & Hin).
    assert (exists p, (p = user_principal user \/ p = tenant_principal) /\ p ∈ acl)
      as (p & Hp & Hpin) by (destruct Hin; eauto).
    eexists. split; [apply list_elem_of_fmap; exists p; split; [reflexivity|]|].
    + by apply requester_principals.
    + apply sql_cmp_true. exists (json_text acl). rewrite Hacl. split; [done|].
      by apply (Hone p acl).
Qed.
End requester.

(** ** Lemmas: grants *)

Lemma principal_match_spec user groups g :
  principal_match user groups g = true <-> granted_to user groups g.
Proof. unfold principal_match, granted_to. to_prop. set_solver. Qed.

Lemma grant_exists_spec a grants d :
  _grant_exists a grants d = true <->
  exists g, g ∈ grants /\ g_tenant_id g = as_tenant_id a /\
    granted_to (as_grant_principal_id a) (as_group_ids a) g /\ covers g d.
Proof.
  unfold _grant_exists, covers. rewrite existsb_exists. setoid_rewrite <-list_elem_of_In.
  setoid_rewrite andb_true_iff. setoid_rewrite andb_true_iff.
  setoid_rewrite principal_match_spec. setoid_rewrite orb_true_iff.
  setoid_rewrite andb_true_iff. setoid_rewrite N.eqb_eq. setoid_rewrite bool_decide_eq_true.
  naive_solver.
Qed.

(** The resolved id sets hold exactly what the requester was granted. *)
Lemma granted_ids_spec tenant user groups grants docs colls :
  granted_resource_ids tenant user groups grants = (docs, colls) ->
  (forall i, i ∈ docs <-> exists g, g ∈ grants /\ g_tenant_id g = tenant /\
     granted_to user groups g /\ g_resource_type g = cp "document" /\ g_resource_id g = i) /\
  (forall i, i ∈ colls <-> exists g, g ∈ grants /\ g_tenant_id g = tenant /\
     granted_to user groups g /\ g_resource_type g = cp "collection" /\ g_resource_id g = i).
Proof.
  unfold granted_resource_ids. intros [= <- <-].
  split; intros i; rewrite elem_of_list_to_set, list_elem_of_omap;
    setoid_rewrite list_elem_of_filter; setoid_rewrite principal_match_spec; split.
  - intros (g & ((Ht & Hg) & Hin) & Hi). case_decide; simplify_eq. by exists g.
  - intros (g & Hin & Ht & Hg & Hr & <-). exists g. by rewrite decide_True.
  - intros (g & ((Ht & Hg) & Hin) & Hi). repeat case_decide; simplify_eq. by exists g.
  - intros (g & Hin & Ht & Hg & Hr & <-). exists g. rewrite decide_False by (rewrite Hr; done).
    by rewrite decide_True.
Qed.

(** ** Lemmas: the predicate *)

Section predicate_lemmas.
Context `{TextHost}.

Lemma document_permitted_spec tenant user groups grants floor d :
  (forall l, d_acl_principals d = Some l -> Forall plain l) ->
  sql_true (_document_permitted (for_user tenant user groups) grants floor d) = true <->
  may_read tenant user groups grants floor d.
Proof.
  intros Hplain. unfold _document_permitted, may_read. to_prop.
  rewrite overlap_spec by done. setoid_rewrite Z.leb_le.
  assert (sql_true (Some (_grant_exists (for_user tenant user groups) grants d)) = true <->
    exists g, g ∈ grants /\ g_tenant_id g = tenant /\ granted_to user groups g /\ covers g d)
    as -> by (rewrite <-(grant_exists_spec (for_user tenant user groups));
              simpl; by destruct (_grant_exists _ _ _)).
  assert (sql_true (Some (bool_decide (d_owner_id d ∈ as_owner_ids (for_user tenant user groups))))
    = true <-> d_owner_id d = user) as ->
    by (simpl; case_bool_decide; set_solver).
  destruct (d_acl_enforced d); simpl; split.
  - intros [[? _]|((_ & acl & ? & ?) & t & ? & ?)]; [done|]. by exists acl, t.
  - intros (acl & t & ? & ? & ? & ?). right. split; [|by exists t]. split; [done|]. by exists acl.
  - intros [[_ ?]|((? & _) & _)]; done.
  - intros ?. left. by split.
Qed.

(** *** The engine filter *)

Lemma elem_of_id_strings s i : JStr (str_uuid i) ∈ id_strings s <-> i ∈ s.
Proof.
  unfold id_strings. rewrite list_elem_of_fmap. setoid_rewrite elem_of_py_sorted.
  setoid_rewrite list_elem_of_fmap. setoid_rewrite elem_of_elements. split.
  - intros (t & [= Hi] & j & -> & Hj). by apply str_uuid_inj in Hi as ->.
  - intros Hi. eauto.
Qed.

Lemma allow_filter_ok tenant user groups grants :
  exists docs colls,
    granted_resource_ids tenant user groups grants = (docs, colls) /\
    _allow_filter (for_user tenant user groups) grants =
      Ok (mk_filter tenant {[user]} docs colls (as_acl_principals (for_user tenant user groups))).
Proof.
  unfold _allow_filter. cbn [for_user as_tenant_id as_grant_principal_id as_group_ids].
  destruct (granted_resource_ids _ _ _ _) as [docs colls]. exists docs, colls. split; [done|].
  unfold search_allow_filter_post_init. cbn [sf_owner_ids]. by rewrite bool_decide_false by set_solver.
Qed.
End predicate_lemmas.

Section engine_lemmas.
Context `{SearchEngine}.

(** A [terms] clause over a set of ids, on a field that holds one id. *)
Lemma match_ids f s doc i :
  field_values f doc = [JStr (str_uuid i)] ->
  engine_match (CTerms f (id_strings s)) doc = true <-> i ∈ s.
Proof.
  intros Hf. rewrite match_terms, Hf. setoid_rewrite list_elem_of_singleton.
  rewrite <-elem_of_id_strings. naive_solver.
Qed.

(** The clause a non-empty granted set adds. *)
Lemma match_granted f s doc i :
  field_values f doc = [JStr (str_uuid i)] ->
  Exists (fun c => engine_match c doc = true)
    (if bool_decide (s = ∅) then [] else [CTerms f (id_strings s)]) <-> i ∈ s.
Proof.
  intros Hf. case_bool_decide as Hs.
  - subst. rewrite Exists_nil. set_solver.
  - rewrite Exists_cons, Exists_nil, match_ids by done. tauto.
Qed.

Lemma match_owner_or_grant cid ct fp d owners docs colls :
  Exists (fun c => engine_match c (index_document cid ct fp d) = true)
    ([CTerms (cp "owner_id") (id_strings owners)]
     ++ (if bool_decide (docs = ∅) then [] else [CTerms (cp "document_id") (id_strings docs)])
     ++ (if bool_decide (colls = ∅) then [] else [CTerms (cp "collection_id") (id_strings colls)]))
  <-> d_owner_id d ∈ owners \/ d_id d ∈ docs \/ d_collection_id d ∈ colls.
Proof.
  rewrite !Exists_app, Exists_cons, Exists_nil, match_ids by reflexivity.
  rewrite !match_granted by reflexivity. tauto.
Qed.

Lemma field_acl cid ct fp d :
  field_values (cp "acl_principals") (index_document cid ct fp d) =
  JStr <$> py_sorted str_leb (match d_acl_principals d with Some l => l | None => [] end).
Proof. reflexivity. Qed.

Lemma match_acl cid ct fp d ps :
  engine_match (CTerms (cp "acl_principals") (JStr <$> py_sorted str_leb ps))
    (index_document cid ct fp d) = true <->
  exists acl p, d_acl_principals d = Some acl /\ p ∈ ps /\ p ∈ acl.
Proof.
  rewrite match_terms, field_acl. setoid_rewrite list_elem_of_fmap.
  setoid_rewrite elem_of_py_sorted. split.
  - intros (v & (p & -> & Hp) & (p' & [= <-] & Hp')).
    destruct (d_acl_principals d) as [acl|]; [by exists acl, p|by apply elem_of_nil in Hp'].
  - intros (acl & p & -> & Hp & Hacl). exists (JStr p). split; by exists p.
Qed.

Lemma match_synced cid ct fp d lo :
  engine_match (CRangeGte (cp "acl_synced_at") (JStr (isoformat lo)))
    (index_document cid ct fp d) = true <->
  exists t, d_acl_synced_at d = Some t /\ lo <= t.
Proof.
  rewrite match_range. unfold field_values. cbn [dict_get index_document].
  change (dict_get (cp "acl_synced_at") (index_document cid ct fp d))
    with (Some (match d_acl_synced_at d with Some t => JStr (isoformat t) | None => JNull end)).
  destruct (d_acl_synced_at d) as [t0|]; split.
  - intros (t & [= Ht%isoformat_inj]%list_elem_of_singleton & ?). exists t0. by subst.
  - intros (t & [= ->] & ?). exists t. split; [by apply list_elem_of_singleton|done].
  - intros (t & ?%elem_of_nil & _). done.
  - by intros (t & ? & _).
Qed.
End engine_lemmas.

(** ** Properties *)

Section properties.
Context `{SearchEngine}.

(** C17: the SQL predicate is the specified rule.  For every requester and
    document, the [WHERE] condition is true exactly when either the document
    is not ACL-enforced and the requester owns it or holds, as a user or
    through a group, a grant of their tenant on it or on its collection; or it
    is ACL-enforced and its mirrored list names the requester or the tenant
    and was synced inside the freshness window. *)
Theorem document_permitted_iff tenant user groups grants floor d
    (Hplain : forall l, d_acl_principals d = Some l -> Forall plain l) :
  sql_true (_document_permitted (for_user tenant user groups) grants floor d) = true <->
  (if d_acl_enforced d then
     exists acl synced, d_acl_principals d = Some acl /\
       (cp "user:" ++ str_uuid user ∈ acl \/ cp "tenant" ∈ acl) /\
       d_acl_synced_at d = Some synced /\ floor <= synced
   else
     d_owner_id d = user \/
     exists g, g ∈ grants /\ g_tenant_id g = tenant /\
       ((g_principal_type g = cp "user" /\ g_principal_id g = user) \/
        (g_principal_type g = cp "group" /\ g_principal_id g ∈ groups)) /\
       ((g_resource_type g = cp "document" /\ g_resource_id g = d_id d) \/
        (g_resource_type g = cp "collection" /\ g_resource_id g = d_collection_id d))).
Proof. by apply document_permitted_spec. Qed.

(** C18: the engine filter and the SQL predicate admit the same documents.  For
    a chunk's index document as the index sync writes it, every clause of the
    requester's engine filter matches exactly when the chunk is of the
    requester's tenant and the SQL predicate admits its document. *)
Theorem engine_filter_equiv_sql tenant user groups grants floor d cid ct fp f
    (Hplain : forall l, d_acl_principals d = Some l -> Forall plain l)
    (Hf : _allow_filter (for_user tenant user groups) grants = Ok f) :
  Forall (fun c => engine_match c (index_document cid ct fp d) = true)
    (to_engine_filter f floor) <->
  ct = tenant /\
  sql_true (_document_permitted (for_user tenant user groups) grants floor d) = true.
Proof.
  destruct (allow_filter_ok tenant user groups grants) as (docs & colls & Hids & Hok).
  rewrite Hf in Hok. injection Hok as ->.
  apply granted_ids_spec in Hids as [Hdocs Hcolls].
  rewrite document_permitted_spec by done. unfold to_engine_filter, may_read.
  cbn [sf_tenant_id sf_owner_ids sf_granted_document_ids sf_granted_collection_ids sf_acl_principals].
  rewrite !Forall_cons, Forall_nil, match_term, match_should, Exists_cons, Exists_cons, Exists_nil,
    !match_filter, !Forall_cons, !Forall_nil, !match_term, match_should, match_owner_or_grant,
    match_acl, match_synced, Hdocs, Hcolls.
  change (field_values (cp "tenant_id") (index_document cid ct fp d)) with [JStr (str_uuid ct)].
  change (field_values (cp "acl_enforced") (index_document cid ct fp d)) with
    [JBool (d_acl_enforced d)].
  rewrite !list_elem_of_singleton. setoid_rewrite (requester_principals tenant user groups).
  assert (JStr (str_uuid tenant) = JStr (str_uuid ct) <-> ct = tenant) as ->
    by (split; [intros [= Heq]; symmetry; by apply str_uuid_inj|by intros ->]).
  unfold covers. destruct (d_acl_enforced d); split.
  - intros (-> & [([=] & _)|[(_ & (acl & p & Hacl & Hp & Hin) & (t & Ht & Hle) & _)|[]]] & _).
    split; [done|]. exists acl, t. split_and!; try done. by destruct Hp as [->| ->]; [left|right].
  - intros (-> & acl & t & Hacl & Hp & Ht & Hle). split_and!; [done| |done]. right; left.
    split_and!; [done| |by exists t|done]. exists acl.
    destruct Hp; eexists; split_and!; [done|by left|done|done|by right|done].
  - intros (-> & [(_ & Hog & _)|[([=] & _)|[]]] & _). split; [done|].
    rewrite elem_of_singleton in Hog. destruct Hog as [?|[(g & ? & ? & ? & ? & ?)|(g & ? & ? & ? & ? & ?)]];
      [by left|right; exists g; split_and!; auto..].
  - intros (-> & Hog). split_and!; [done| |done]. left. split_and!; [done| |done].
    rewrite elem_of_singleton.
    destruct Hog as [?|(g & ? & ? & ? & [[? ?]|[? ?]])]; [by left|right; left; by exists g|right; right; by exists g].
Qed.

(** Absence is denial.  An enforced document is never readable through
    ownership or a grant, only through its mirrored list: with an empty, stale
    or missing mirror nobody reads it, whoever owns it and whatever was
    granted. *)
Theorem enforced_ignores_ownership tenant user groups grants floor d
    (Henf : d_acl_enforced d = true)
    (Hmirror : d_acl_principals d = None \/ d_acl_principals d = Some [] \/
      d_acl_synced_at d = None \/ exists t, d_acl_synced_at d = Some t /\ t < floor) :
  sql_true (_document_permitted (for_user tenant user groups) grants floor d) = false.
Proof.
  apply not_true_iff_false. unfold _document_permitted. to_prop. rewrite Henf.
  intros [[[=] _]|((_ & Ho) & t & Ht & Hle)]. apply Z.leb_le in Hle.
  destruct Hmirror as [Hn|[Hn|[Hn|(t' & Hn & Hlt)]]]; rewrite ?Hn in *; simplify_eq; try lia.
  - apply overlap_spec in Ho as (acl & Hacl & _); [congruence|intros l Hl; congruence].
  - apply overlap_spec in Ho as (acl & Hacl & Hin); 
      [|intros l Hl; rewrite Hn in Hl; by injection Hl as <-].
    rewrite Hn in Hacl. injection Hacl as <-. by destruct Hin as [?%elem_of_nil|?%elem_of_nil].
Qed.
End properties.

(** ** Witnesses: a concrete host and engine *)

Section witness.
Definition demo_isoformat (t : Z) : pystr := if t <? 0 then [0; Z.to_N (- t)]%N else [1; Z.to_N t]%N.
Definition demo_iso_decode (s : pystr) : option Z :=
  match s with
  | [0; n]%N => if (0 <? Z.of_N n) then Some (- Z.of_N n) else None
  | [1; n]%N => Some (Z.of_N n)
  | _ => None
  end.

Lemma demo_iso_decode_encode t : demo_iso_decode (demo_isoformat t) = Some t.
Proof.
  unfold demo_isoformat, demo_iso_decode. destruct (Z.ltb_spec t 0).
  - rewrite Z2N.id by lia. destruct (Z.ltb_spec 0 (- t)); [|lia]. f_equal. lia.
  - rewrite Z2N.id by lia. done.
Qed.

Lemma demo_iso_decode_spec s t : demo_iso_decode s = Some t <-> s = demo_isoformat t.
Proof.
  split; [|intros ->; apply demo_iso_decode_encode].
  destruct s as [|[|[]] [|n []]]; simpl; try done; unfold demo_isoformat.
  - destruct (Z.ltb_spec 0 (Z.of_N n)); [|done]. intros [= <-].
    destruct (Z.ltb_spec (- Z.of_N n) 0); [|lia]. by rewrite Z.opp_involutive, N2Z.id.
  - intros [= <-]. destruct (Z.ltb_spec (Z.of_N n) 0); [lia|]. by rewrite N2Z.id.
Qed.

#[local] Program Instance demo_text : TextHost := {|
  str_uuid u := replicate (N.to_nat u) 97%N;
  json_text := json_array_text;
  isoformat := demo_isoformat
|}.
Next Obligation.
  simpl. intros a b Heq. apply (f_equal length) in Heq. rewrite !length_replicate in Heq. lia.
Qed.
Next Obligation.
  simpl. intros a. apply Forall_replicate. unfold quote. repeat split; lia.
Qed.
Next Obligation. done. Qed.
Next Obligation.
  simpl. intros a b Heq. apply (f_equal demo_iso_decode) in Heq.
  rewrite !demo_iso_decode_encode in Heq. congruence.
Qed.

Definition demo_range (v j : json) : bool :=
  match v, j with
  | JStr lo, JStr s =>
      match demo_iso_decode lo, demo_iso_decode s with Some l, Some t => l <=? t | _, _ => false end
  | _, _ => false
  end.

Fixpoint demo_match (c : clause) (doc : dict) : bool :=
  match c with
  | CTerm f v => bool_decide (v ∈ field_values f doc)
  | CTerms f vs => existsb (fun v => bool_decide (v ∈ field_values f doc)) vs
  | CRangeGte f v => existsb (demo_range v) (field_values f doc)
  | CFilter l => forallb (fun c => demo_match c doc) l
  | CShould l => existsb (fun c => demo_match c doc) l
  end.

#[local] Program Instance demo_engine : SearchEngine := {| engine_match := demo_match |}.
Next Obligation. intros. apply bool_decide_eq_true. Qed.
Next Obligation.
  intros. simpl. rewrite existsb_exists. setoid_rewrite <-list_elem_of_In.
  by setoid_rewrite bool_decide_eq_true.
Qed.
Next Obligation.
  intros f lo doc. cbn [demo_match]. rewrite existsb_exists. setoid_rewrite <-list_elem_of_In.
  cbn [isoformat demo_text]. split.
  - intros (v & Hin & Hr). destruct v; try done. unfold demo_range in Hr.
    rewrite demo_iso_decode_encode in Hr.
    destruct (demo_iso_decode s) as [t|] eqn:Ht; [|done].
    apply demo_iso_decode_spec in Ht as ->. apply Z.leb_le in Hr. by exists t.
  - intros (t & Hin & Hle). eexists. split; [exact Hin|]. unfold demo_range.
    rewrite !demo_iso_decode_encode. by apply Z.leb_le.
Qed.
Next Obligation.
  intros. simpl. rewrite forallb_forall, Forall_forall. by setoid_rewrite list_elem_of_In.
Qed.
Next Obligation.
  intros. simpl. rewrite existsb_exists, Exists_exists. by setoid_rewrite list_elem_of_In.
Qed.

(** An ACL-enforced document shared with the tenant, synced at 1000. *)
Definition demo_document : Document :=
  mk_document 10 1 7 20 None (cp "plan.md") (cp "document") None (cp "ready") 1 true
    (Some [cp "tenant"]) (Some 1000) None.

Lemma demo_document_plain l : d_acl_principals demo_document = Some l -> Forall plain l.
Proof. intros [= <-]. repeat constructor; simpl; by compute. Qed.

Lemma document_permitted_iff_witness :
  sql_true (_document_permitted (for_user 1 8 ∅) [] 500 demo_document) = true.
Proof.
  apply (document_permitted_iff 1 8 ∅ [] 500 demo_document demo_document_plain).
  simpl. exists [cp "tenant"], 1000. split_and!; [done|right; apply list_elem_of_here|done|lia].
Defined.

Lemma engine_filter_equiv_sql_witness :
  exists f, _allow_filter (for_user 1 8 ∅) [] = Ok f /\
    Forall (fun c => engine_match c (index_document 3 1 None demo_document) = true)
      (to_engine_filter f 500).
Proof.
  eexists. split; [reflexivity|].
  apply (engine_filter_equiv_sql 1 8 ∅ [] 500 demo_document 3 1 None _ demo_document_plain eq_refl).
  split; [reflexivity|]. vm_compute. reflexivity.
Defined.

Lemma enforced_ignores_ownership_witness :
  sql_true (_document_permitted (for_user 1 7 ∅) [] 2000 demo_document) = false.
Proof.
  apply (enforced_ignores_ownership 1 7 ∅ [] 2000 demo_document eq_refl).
  right; right; right. exists 1000. split; [reflexivity|lia].
Defined.
End witness.
