(* ===== verification/Retrieval.v ===== *)
(** * The retrieval chokepoint

    The queries of [backend/app/retrieval/queries.py], the passage search and
    read-back of [backend/app/retrieval/service.py], and the read-time re-check of
    stored citations in [backend/app/services/citation_access.py].  A query is a
    filter of the tables by its [WHERE] clause; the search engine, the embedding
    gateway and the full-text operators are parameters. *)

From stdpp Require Import base list strings gmap.
From Stdlib Require Import QArith.
From S2P Require Import Prelude Json Tools AuditLog Permissions.
Open Scope Z_scope.

(** ** Tables *)

Record Chunk := mk_chunk {
  c_id : uuid;
  c_tenant_id : uuid;
  c_document_id : uuid;
  c_ord : Z;
  c_text : pystr;
  c_char_start : Z;
  c_char_end : Z;
  c_time_start_ms : option Z;
  c_time_end_ms : option Z;
  c_transcript_segment_id : option uuid;
  c_speaker_id : option pystr;
  c_speaker_name : option pystr;
  c_embedding_fingerprint : option pystr;
  c_source_locations : list SourceLocation
}.

Record TranscriptSegment := mk_segment {
  s_id : uuid; s_tenant_id : uuid; s_document_id : uuid
}.

Record Database := mk_db {
  db_documents : list Document;
  db_chunks : list Chunk;
  db_segments : list TranscriptSegment;
  db_grants : list Grant;
  db_groups : list Group;
  db_members : list GroupMember
}.

(** ** Passage rows *)

Record PassageRow := mk_passage_row {
  pr_chunk_id : uuid;
  pr_document_id : uuid;
  pr_document_name : pystr;
  pr_document_kind : pystr;
  pr_duration_ms : option Z;
  pr_ord : Z;
  pr_text : pystr;
  pr_char_start : Z;
  pr_char_end : Z;
  pr_time_start_ms : option Z;
  pr_time_end_ms : option Z;
  pr_transcript_segment_id : option uuid;
  pr_transcript_segment_document_id : option uuid;
  pr_speaker_id : option pystr;
  pr_speaker_name : option pystr;
  pr_ingestion_attempt : Z;
  pr_embedding_fingerprint : option pystr;
  pr_source_locations : list SourceLocation
}.

Definition is_none {A} (o : option A) : bool := match o with None => true | _ => false end.

Definition _valid_passage_provenance (row : PassageRow) : bool :=
  if decide (pr_document_kind row = cp "document") then
    is_none (pr_time_start_ms row) && is_none (pr_time_end_ms row)
    && is_none (pr_transcript_segment_id row)
    && is_none (pr_transcript_segment_document_id row)
    && is_none (pr_speaker_id row) && is_none (pr_speaker_name row)
  else if negb (mem (pr_document_kind row) [cp "audio"; cp "video"]) then false
  else
    match pr_duration_ms row, pr_time_start_ms row, pr_time_end_ms row with
    | Some duration, Some start, Some stop =>
        (0 <=? start) && (start <? stop) && (stop <=? duration)
        && (is_none (pr_transcript_segment_id row)
            || bool_decide (pr_transcript_segment_document_id row = Some (pr_document_id row)))
        && (is_none (pr_speaker_name row) || negb (is_none (pr_speaker_id row)))
    | _, _, _ => false
    end.

(** ** Queries *)

Definition READY : pystr := cp "ready".

(** [x IN l] on a non-null and on a nullable column. *)
Definition sql_in (x : uuid) (l : list uuid) : bool := mem x l.
Definition sql_in_opt (x : option uuid) (l : list uuid) : bool :=
  match x with Some x => mem x l | None => false end.

(** The optional narrowing filters: [None] is no filter. *)
Definition _document_scope (collection_ids source_ids document_ids : option (list uuid))
    (d : Document) : bool :=
  match collection_ids with Some l => sql_in (d_collection_id d) l | None => true end
  && match source_ids with Some l => sql_in_opt (d_source_id d) l | None => true end
  && match document_ids with Some l => sql_in (d_id d) l | None => true end.

Section queries.
Context `{TextHost}.
Variable db : Database.
Variable floor : Z.
Implicit Types (a : AllowSet).

Definition permitted a (d : Document) : bool :=
  N.eqb (d_tenant_id d) (as_tenant_id a)
  && sql_true (_document_permitted a (db_grants db) floor d).

Definition is_ready (d : Document) : bool := bool_decide (d_status d = READY).

Definition get_permitted_document a (document_id : uuid) : option Document :=
  find (fun d => N.eqb (d_id d) document_id && permitted a d) (db_documents db).

Definition permitted_document_ids a (document_ids : list uuid) : gset uuid :=
  list_to_set (d_id <$> filter (fun d => d_id d ∈ document_ids /\ permitted a d = true)
    (db_documents db)).

Definition document_ids_for_sources a (source_ids : list uuid) : list uuid :=
  py_sorted N.leb (d_id <$> filter (fun d => permitted a d && is_ready d
    && sql_in_opt (d_source_id d) source_ids = true) (db_documents db)).

Definition permitted_document_names a (document_ids : list uuid)
    (collection_ids source_ids : option (list uuid)) : list (uuid * pystr) :=
  (fun d => (d_id d, d_filename d)) <$>
    filter (fun d => permitted a d && sql_in (d_id d) document_ids
      && _document_scope collection_ids source_ids None d = true) (db_documents db).

(** [chunks JOIN documents]. *)
Definition chunk_rows : list (Chunk * Document) :=
  c ← db_chunks db;
  (fun d => (c, d)) <$> filter (fun d => d_id d = c_document_id c) (db_documents db).

Definition valid_chunk_pairs (tenant : uuid) (chunk_ids : list uuid) : list (uuid * uuid) :=
  (fun cd => (c_id cd.1, c_document_id cd.1)) <$>
    filter (fun cd => N.eqb (c_tenant_id cd.1) tenant && sql_in (c_id cd.1) chunk_ids
      && is_ready cd.2 = true) chunk_rows.

Definition _permission_filter a (cd : Chunk * Document) : bool :=
  N.eqb (c_tenant_id cd.1) (as_tenant_id a) && is_ready cd.2
  && sql_true (_document_permitted a (db_grants db) floor cd.2).

(** The transcript segment joined to a chunk: its document. *)
Definition segment_document (c : Chunk) : option uuid :=
  s_document_id <$> find (fun s =>
    bool_decide (c_transcript_segment_id c = Some (s_id s))
    && N.eqb (s_tenant_id s) (c_tenant_id c)) (db_segments db).

Definition passage_row (cd : Chunk * Document) : PassageRow :=
  let '(c, d) := cd in {|
  pr_chunk_id := c_id c; pr_document_id := c_document_id c; pr_document_name := d_filename d;
  pr_document_kind := d_kind d; pr_duration_ms := d_duration_ms d; pr_ord := c_ord c;
  pr_text := c_text c; pr_char_start := c_char_start c; pr_char_end := c_char_end c;
  pr_time_start_ms := c_time_start_ms c; pr_time_end_ms := c_time_end_ms c;
  pr_transcript_segment_id := c_transcript_segment_id c;
  pr_transcript_segment_document_id := segment_document c;
  pr_speaker_id := c_speaker_id c; pr_speaker_name := c_speaker_name c;
  pr_ingestion_attempt := d_ingestion_attempts d;
  pr_embedding_fingerprint := c_embedding_fingerprint c;
  pr_source_locations := c_source_locations c |}.

(** The rows of [load_passages]: a dict from chunk id to row, in row order. *)
Definition load_passages a (chunk_ids : list uuid)
    (collection_ids document_ids source_ids : option (list uuid)) : list PassageRow :=
  filter (fun row => _valid_passage_provenance row = true)
    (passage_row <$> filter (fun cd => sql_in (c_id cd.1) chunk_ids
       && _document_scope collection_ids source_ids document_ids cd.2
       && _permission_filter a cd = true) chunk_rows).

Definition rows_get (rows : list PassageRow) (chunk_id : uuid) : option PassageRow :=
  find (fun row => N.eqb (pr_chunk_id row) chunk_id) rows.

(** Documents in filename order (the database's collation is a parameter). *)
Definition document_listing (name_leb : pystr -> pystr -> bool) a (p : Document -> bool)
    (collection_ids source_ids : option (list uuid)) (k : nat) : list (uuid * pystr) :=
  take k ((fun d => (d_id d, d_filename d)) <$>
    py_sorted (fun x y => if decide (d_filename x = d_filename y) then N.leb (d_id x) (d_id y)
                          else name_leb (d_filename x) (d_filename y))
      (filter (fun d => permitted a d && is_ready d && p d
         && _document_scope collection_ids source_ids None d = true) (db_documents db))).

(** [ilike] and [lower] are the database's. *)
Definition document_search name_leb (ilike : pystr -> pystr -> bool) a (name_or_query : pystr)
    (k : nat) collection_ids source_ids :=
  document_listing name_leb a (fun d => ilike (d_filename d) (cp "%" ++ name_or_query ++ cp "%"))
    collection_ids source_ids k.

Definition list_documents name_leb a (k : nat) collection_ids source_ids :=
  document_listing name_leb a (fun _ => true) collection_ids source_ids k.

Definition documents_by_exact_name name_leb (lower : pystr -> pystr) a (name : pystr) (k : nat)
    collection_ids source_ids :=
  document_listing name_leb a (fun d => bool_decide (lower (d_filename d) = lower (py_strip name)))
    collection_ids source_ids k.

(** The document's text: its chunks in order. *)
Definition load_document_text a (document_id : uuid)
    (collection_ids source_ids : option (list uuid)) : option (uuid * pystr * pystr) :=
  d ← find (fun d => N.eqb (d_id d) document_id && permitted a d && is_ready d
              && _document_scope collection_ids source_ids None d) (db_documents db);
  let chunks := filter (fun c => c_document_id c = d_id d /\ c_tenant_id c = as_tenant_id a)
                  (db_chunks db) in
  Some (document_id, d_filename d,
        concat (c_text <$> py_sorted (fun x y => c_ord x <=? c_ord y) chunks)).

Definition document_id_for_permitted_chunk a (chunk_id : uuid)
    (collection_ids source_ids : option (list uuid)) : option uuid :=
  (fun cd => c_document_id cd.1) <$>
    find (fun cd => N.eqb (c_id cd.1) chunk_id
      && _document_scope collection_ids source_ids None cd.2
      && _permission_filter a cd) chunk_rows.
End queries.

(** ** The retrieval service *)

Record SearchHit := mk_hit {
  sh_chunk_id : uuid;
  sh_document_id : uuid;
  sh_score : Q;
  sh_ingestion_attempt : Z;
  sh_embedding_fingerprint : pystr
}.

Definition _MAX_K : Z := 100.
Definition _clamp_k (k : Z) : Z := Z.max 1 (Z.min _MAX_K k).

(** Failures of the models and the engine ([DependencyError] and the like). *)
Inductive service_error : Type := Dependency | MultipleResults | InvalidFilter (m : pystr).

(** The embedding gateway, the engine's answer to a hybrid query (a filter, the
    query text, its vector and [k]) and the index's embedding space. *)
Class RetrievalHost := {
  vector : Type;
  embed : pystr -> res service_error vector;
  engine_search : list clause -> pystr -> vector -> Z -> res service_error (list SearchHit);
  index_fingerprint : pystr
}.

Section service.
Context `{TextHost} `{RetrievalHost}.
Variable db : Database.
Variable floor : Z.

Definition _resolve_allow_set (p : Principal) : res service_error AllowSet :=
  match group_ids_for_user (tenant_id p) (user_id p) (db_members db) (db_groups db) with
  | Ok groups => Ok (for_principal p groups)
  | Err _ => Err MultipleResults
  end.

(** The filters of [_hybrid_body], the same list in both legs. *)
Definition hybrid_filters (f : SearchAllowFilter)
    (collection_ids document_ids : option (list uuid)) : list clause :=
  to_engine_filter f floor
  ++ [CTerm (cp "embedding_fingerprint") (JStr index_fingerprint)]
  ++ (match collection_ids with
      | Some (c :: l) => [CTerms (cp "collection_id") (JStr <$> py_sorted str_leb (str_uuid <$> c :: l))]
      | _ => [] end)
  ++ (match document_ids with
      | Some (d :: l) => [CTerms (cp "document_id") (JStr <$> py_sorted str_leb (str_uuid <$> d :: l))]
      | _ => [] end).

Definition passage_of (row : PassageRow) (score : Q) : RetrievedPassage := {|
  rp_chunk_id := pr_chunk_id row; rp_document_id := pr_document_id row;
  rp_document_name := pr_document_name row; rp_ord := pr_ord row; rp_text := pr_text row;
  rp_char_start := pr_char_start row; rp_char_end := pr_char_end row; rp_score := score;
  rp_source_locations := pr_source_locations row;
  rp_time_start_ms := pr_time_start_ms row; rp_time_end_ms := pr_time_end_ms row;
  rp_transcript_segment_id := pr_transcript_segment_id row;
  rp_speaker_id := pr_speaker_id row; rp_speaker_name := pr_speaker_name row |}.

(** Hydrating the hits in engine order, dropping the ones Postgres does not
    confirm or that another generation produced. *)
Definition hydrate (rows : list PassageRow) (hits : list SearchHit) : list RetrievedPassage :=
  omap (fun hit =>
    row ← rows_get rows (sh_chunk_id hit);
    if decide (sh_ingestion_attempt hit = pr_ingestion_attempt row /\
               Some (sh_embedding_fingerprint hit) = pr_embedding_fingerprint row)
    then Some (passage_of row (sh_score hit)) else None) hits.

Definition _search_permitted (p : Principal) (query : pystr) (k : Z)
    (collection_ids document_ids source_ids : option (list uuid))
    : res service_error (list RetrievedPassage * Z) :=
  a ← _resolve_allow_set p;
  let scoped := match source_ids with
    | None => Some document_ids
    | Some srcs =>
        let ids := document_ids_for_sources db floor a srcs in
        let effective := match document_ids with
          | None => ids
          | Some docs => filter (fun d => d ∈ ids) docs
          end in
        match effective with [] => None | _ => Some (Some effective) end
    end in
  match scoped with
  | None => Ok ([], 0)
  | Some effective_document_ids =>
      f ← (match _allow_filter a (db_grants db) with
           | Ok f => Ok f | Err m => Err (InvalidFilter m) end);
      v ← embed query;
      hits ← engine_search (hybrid_filters f collection_ids effective_document_ids) query v k;
      match hits with
      | [] => Ok ([], 0)
      | _ =>
          let rows := load_passages db floor a (sh_chunk_id <$> hits) collection_ids
                        effective_document_ids source_ids in
          Ok (hydrate rows hits, Z.of_nat (length hits))
      end
  end.

Definition search (p : Principal) (query : pystr) (k : Z)
    (collection_ids document_ids source_ids : option (list uuid))
    : res service_error (list RetrievedPassage) :=
  if blank query then Ok []
  else fst <$> _search_permitted p query (_clamp_k k) collection_ids document_ids source_ids.

Definition read_passages (p : Principal) (chunk_ids : list uuid)
    (collection_ids document_ids source_ids : option (list uuid))
    : res service_error (list RetrievedPassage) :=
  a ← _resolve_allow_set p;
  Ok ((fun row => passage_of row 0%Q) <$>
    load_passages db floor a chunk_ids collection_ids document_ids source_ids).

Definition get_document (p : Principal) (document_id : uuid)
    (collection_ids source_ids : option (list uuid))
    : res service_error (option (uuid * pystr * pystr)) :=
  a ← _resolve_allow_set p;
  Ok (load_document_text db floor a document_id collection_ids source_ids).
End service.

(** ** Read-time re-check of stored citations (services/citation_access.py) *)

Record CitationView := mk_citation {
  cv_id : uuid;
  cv_message_id : uuid;
  cv_document_id : uuid;
  cv_document_name : pystr;
  cv_chunk_id : uuid;
  cv_snippet : pystr;
  cv_char_start : Z;
  cv_char_end : Z;
  cv_score : option Q;
  cv_time_start_ms : option Z;
  cv_time_end_ms : option Z;
  cv_transcript_segment_id : option uuid;
  cv_speaker_id : option pystr;
  cv_speaker_name : option pystr;
  cv_redacted : bool;
  cv_handle : option pystr
}.

Definition redact (c : CitationView) : CitationView := {|
  cv_id := cv_id c; cv_message_id := cv_message_id c; cv_document_id := cv_document_id c;
  cv_document_name := []; cv_chunk_id := cv_chunk_id c; cv_snippet := [];
  cv_char_start := cv_char_start c; cv_char_end := cv_char_end c; cv_score := cv_score c;
  cv_time_start_ms := None; cv_time_end_ms := None; cv_transcript_segment_id := None;
  cv_speaker_id := None; cv_speaker_name := None; cv_redacted := true;
  cv_handle := cv_handle c |}.

Section citations.
Context `{TextHost}.
Variable db : Database.
Variable floor : Z.

Definition resolve_permitted_documents (a : AllowSet) (document_ids : list uuid) : gset uuid :=
  match py_sorted N.leb (remove_dups document_ids) with
  | [] => ∅
  | ids => permitted_document_ids db floor a ids
  end.

(** [audit_withholding]: the event it stores, if any. *)
Definition audit_withholding (tenant : uuid) (audit : bool) (actor : uuid)
    (surface resource_type resource_id : pystr) (requested permitted redacted : Z)
    (request_id source_ip : pystr) : option (res unit AuditEvent) :=
  if (redacted <=? 0) || negb audit then None
  else Some (emit tenant None (AEnum EVIDENCE_REHYDRATED) (actor_user actor) resource_type
    ALLOWED resource_id request_id source_ip
    [(cp "surface", JStr surface); (cp "requested_documents", JInt requested);
     (cp "permitted_documents", JInt permitted); (cp "redacted_citations", JInt redacted)]
    false).

(** The redaction of [enforce_citation_permissions], and how many it made. *)
Definition redact_unpermitted (permitted : gset uuid) (cites : list CitationView)
    : list CitationView :=
  (fun c => if decide (cv_document_id c ∈ permitted) then c else redact c) <$> cites.
Definition redacted_count (permitted : gset uuid) (cites : list CitationView) : nat :=
  length (filter (fun c => cv_document_id c ∉ permitted) cites).

Definition enforce_citation_permissions {K} (tenant : uuid) (a : AllowSet)
    (citations_by_key : list (K * list CitationView))
    (surface resource_type resource_id : pystr) (actor : uuid) (audit : bool)
    (request_id source_ip : pystr)
    : list (K * list CitationView) * option (res unit AuditEvent) :=
  let document_ids := remove_dups (cv_document_id <$> concat (snd <$> citations_by_key)) in
  match citations_by_key, document_ids with
  | [], _ | _, [] => (citations_by_key, None)
  | _, _ =>
      let permitted := resolve_permitted_documents a document_ids in
      let redacted := Z.of_nat (sum_list (redacted_count permitted ∘ snd <$> citations_by_key)) in
      ((fun kc => (kc.1, redact_unpermitted permitted kc.2)) <$> citations_by_key,
       audit_withholding tenant audit actor surface resource_type resource_id
         (Z.of_nat (length document_ids)) (Z.of_nat (size permitted)) redacted
         request_id source_ip)
  end.
End citations.

(** ** Lemmas *)

Section lemmas.
Context `{TextHost}.
Variable db : Database.
Variable floor : Z.
Implicit Types (a : AllowSet).

Lemma find_is_Some {A} (p : A -> bool) l : is_Some (find p l) <-> exists x, x ∈ l /\ p x = true.
Proof.
  split.
  - intros [x Hx]. apply find_some in Hx as [Hin Hp]. exists x.
    split; [by apply list_elem_of_In|done].
  - intros (x & Hin & Hp). destruct (find p l) as [y|] eqn:E; [by eexists|].
    apply list_elem_of_In in Hin. by rewrite (find_none _ _ E x Hin) in Hp.
Qed.

Lemma find_Some {A} (p : A -> bool) l x : find p l = Some x -> x ∈ l /\ p x = true.
Proof. intros [Hin Hp]%find_some. split; [by apply list_elem_of_In|done]. Qed.

Lemma elem_of_chunk_rows c d :
  (c, d) ∈ chunk_rows db <-> c ∈ db_chunks db /\ d ∈ db_documents db /\ d_id d = c_document_id c.
Proof.
  unfold chunk_rows. rewrite list_elem_of_bind. split.
  - intros (c' & Hin & Hc). apply list_elem_of_fmap in Hin as (d' & [= <- <-] & Hd).
    by apply list_elem_of_filter in Hd as [? ?].
  - intros (Hc & Hd & Hid). exists c. split; [|done]. apply list_elem_of_fmap.
    exists d. split; [done|]. by apply list_elem_of_filter.
Qed.

(** A row of [load_passages]: its chunk and document, permitted and in scope. *)
Lemma load_passages_spec a chunk_ids colls docs srcs row :
  row ∈ load_passages db floor a chunk_ids colls docs srcs ->
  exists c d, c ∈ db_chunks db /\ d ∈ db_documents db /\ d_id d = c_document_id c /\
    row = passage_row db (c, d) /\ c_id c ∈ chunk_ids /\
    _document_scope colls srcs docs d = true /\ c_tenant_id c = as_tenant_id a /\
    d_status d = READY /\ sql_true (_document_permitted a (db_grants db) floor d) = true /\
    _valid_passage_provenance row = true.
Proof.
  unfold load_passages. intros [Hprov Hin]%list_elem_of_filter.
  apply list_elem_of_fmap in Hin as ([c d] & -> & Hin).
  apply list_elem_of_filter in Hin as [Hp Hin]. apply elem_of_chunk_rows in Hin as (Hc & Hd & Hid).
  unfold _permission_filter, sql_in, is_ready in Hp. simpl in Hp. to_prop.
  exists c, d. split_and!; tauto || done.
Qed.

Lemma hydrate_spec rows hits psg :
  psg ∈ hydrate rows hits ->
  exists hit row, hit ∈ hits /\ row ∈ rows /\ pr_chunk_id row = sh_chunk_id hit /\
    psg = passage_of row (sh_score hit) /\
    sh_ingestion_attempt hit = pr_ingestion_attempt row /\
    Some (sh_embedding_fingerprint hit) = pr_embedding_fingerprint row.
Proof.
  unfold hydrate. intros (hit & Hin & Hhit)%list_elem_of_omap.
  destruct (rows_get rows (sh_chunk_id hit)) as [row|] eqn:Hr; simpl in Hhit; [|done].
  case_decide as Hgen; [|done]. injection Hhit as <-.
  apply find_Some in Hr as [Hrow Hid]. to_prop. exists hit, row. by destruct Hgen.
Qed.

Lemma scope_spec colls srcs docs d :
  _document_scope colls srcs docs d = true <->
  (forall l, colls = Some l -> d_collection_id d ∈ l) /\
  (forall l, srcs = Some l -> exists s, d_source_id d = Some s /\ s ∈ l) /\
  (forall l, docs = Some l -> d_id d ∈ l).
Proof.
  unfold _document_scope, sql_in, sql_in_opt. rewrite !andb_true_iff.
  assert (forall (o : option (list uuid)) (p : list uuid -> bool) (P : list uuid -> Prop),
    (forall l, p l = true <-> P l) ->
    match o with Some l => p l | None => true end = true <-> forall l, o = Some l -> P l) as Ho.
  { intros [l|] p P Hp; [|by split]. rewrite Hp. split; [by intros ? ? [= <-]|eauto]. }
  rewrite (Ho colls _ _ (fun l => mem_true (d_collection_id d) l)),
    (Ho docs _ _ (fun l => mem_true (d_id d) l)).
  rewrite (Ho srcs _ (fun l => exists s, d_source_id d = Some s /\ s ∈ l)); [tauto|].
  intros l. destruct (d_source_id d) as [s|]; [|naive_solver].
  rewrite mem_true. naive_solver.
Qed.

Lemma elem_of_permitted_ids a ids i :
  i ∈ permitted_document_ids db floor a ids <->
  i ∈ ids /\ is_Some (get_permitted_document db floor a i).
Proof.
  unfold permitted_document_ids, get_permitted_document.
  rewrite elem_of_list_to_set, list_elem_of_fmap, find_is_Some.
  setoid_rewrite list_elem_of_filter. setoid_rewrite andb_true_iff. setoid_rewrite N.eqb_eq. split.
  - intros (d & -> & (Hin & Hp) & Hd). split; [done|]. exists d. split_and!; [done..|].
    unfold permitted. by rewrite andb_true_iff, N.eqb_eq.
  - intros (Hin & d & Hd & <- & Hp). exists d. unfold permitted in Hp.
    by rewrite andb_true_iff, N.eqb_eq in Hp.
Qed.

Lemma elem_of_resolved a ids i :
  i ∈ resolve_permitted_documents db floor a ids <->
  i ∈ ids /\ is_Some (get_permitted_document db floor a i).
Proof.
  unfold resolve_permitted_documents.
  destruct (py_sorted N.leb (remove_dups ids)) as [|x l] eqn:E.
  - assert (ids = []) as ->; [|split; [set_solver|by intros [?%elem_of_nil _]]].
    destruct ids as [|y ids]; [done|]. exfalso.
    assert (y ∈ py_sorted N.leb (remove_dups (y :: ids))) as Hy
      by (rewrite elem_of_py_sorted, elem_of_remove_dups; apply list_elem_of_here).
    rewrite E in Hy. by apply elem_of_nil in Hy.
  - rewrite <-E, elem_of_permitted_ids, elem_of_py_sorted, elem_of_remove_dups. done.
Qed.
End lemmas.

(** ** Lemmas: citations *)

Section citation_lemmas.
Context `{TextHost}.
Variable db : Database.
Variable floor : Z.
Variable a : AllowSet.

(** What a citation is served as. *)
Definition served (c : CitationView) : CitationView :=
  match get_permitted_document db floor a (cv_document_id c) with
  | Some _ => c
  | None => redact c
  end.
Definition withheld (cites : list CitationView) : nat :=
  length (filter (fun c => get_permitted_document db floor a (cv_document_id c) = None) cites).

Lemma resolved_in ids c :
  cv_document_id c ∈ ids ->
  cv_document_id c ∈ resolve_permitted_documents db floor a ids <->
  get_permitted_document db floor a (cv_document_id c) <> None.
Proof. intros Hin. rewrite elem_of_resolved, <-not_eq_None_Some. tauto. Qed.

Lemma redact_served ids cites :
  (forall c, c ∈ cites -> cv_document_id c ∈ ids) ->
  redact_unpermitted (resolve_permitted_documents db floor a ids) cites = served <$> cites /\
  redacted_count (resolve_permitted_documents db floor a ids) cites = withheld cites.
Proof.
  unfold redact_unpermitted, redacted_count, withheld.
  induction cites as [|c cites IH]; intros Hin; [done|].
  destruct IH as [IH1 IH2]; [set_solver|].
  assert (cv_document_id c ∈ ids) as Hc by set_solver. apply resolved_in in Hc.
  assert (served c = match get_permitted_document db floor a (cv_document_id c) with
    | Some _ => c | None => redact c end) as Hs by done.
  rewrite !fmap_cons, !filter_cons, IH1, Hs. clear Hs.
  destruct (get_permitted_document db floor a (cv_document_id c)) as [d|].
  - rewrite decide_True by by apply Hc. rewrite (decide_False (P := _ ∉ _)) by (intros Hn; by apply Hn, Hc).
    rewrite (decide_False (P := Some d = None)) by done. split; [reflexivity|exact IH2].
  - assert (cv_document_id c ∉ resolve_permitted_documents db floor a ids) as Hn by (intros ?%Hc; done).
    rewrite decide_False by done. rewrite (decide_True (P := _ ∉ _)) by done.
    rewrite (decide_True (P := None = None)) by done. simpl. by rewrite IH2.
Qed.

Lemma withheld_app l1 l2 : withheld (l1 ++ l2) = (withheld l1 + withheld l2)%nat.
Proof. unfold withheld. by rewrite filter_app, length_app. Qed.

Lemma served_all {K} ids (cites : list (K * list CitationView)) :
  (forall c, c ∈ concat (snd <$> cites) -> cv_document_id c ∈ ids) ->
  let permitted := resolve_permitted_documents db floor a ids in
  (fun kc => (kc.1, redact_unpermitted permitted kc.2)) <$> cites
    = (fun kc => (kc.1, served <$> kc.2)) <$> cites /\
  sum_list (redacted_count permitted ∘ snd <$> cites) = withheld (concat (snd <$> cites)).
Proof.
  intros Hin permitted. subst permitted. induction cites as [|[k l] cites IH]; [done|].
  rewrite fmap_cons in Hin. rewrite !fmap_cons. cbn [concat snd fst] in *.
  destruct IH as [IH1 IH2]; [set_solver|].
  destruct (redact_served ids l) as [Hl Hn]; [set_solver|].
  rewrite IH1, Hl, withheld_app, <-IH2, <-Hn. done.
Qed.

Lemma Forall2_served {K} (cites : list (K * list CitationView)) :
  Forall2 (fun kc kc' => kc'.1 = kc.1 /\ Forall2 (fun c c' => c' = served c) kc.2 kc'.2)
    cites ((fun kc : K * list CitationView => (kc.1, served <$> kc.2)) <$> cites).
Proof.
  induction cites as [|[k l] cites IH]; simpl; constructor; [|done]. split; [done|]. simpl.
  induction l; simpl; by constructor.
Qed.

Lemma served_nothing {K} (cites : list (K * list CitationView)) :
  concat (snd <$> cites) = [] ->
  (fun kc : K * list CitationView => (kc.1, served <$> kc.2)) <$> cites = cites.
Proof.
  induction cites as [|[k [|c l]] cites IH]; [done| |done]. intros Hl.
  rewrite fmap_cons, IH by done. done.
Qed.
End citation_lemmas.

(** ** Properties *)

Section properties.
Context `{TextHost} `{RetrievalHost}.

(** C19: passage search never leaks, whatever the search engine answers.  Every
    passage a search returns is a stored chunk of the caller's tenant, read
    from the database (text and offsets included), of a ready document that
    the caller may read now, inside every scope the search was narrowed to,
    with valid media provenance, and produced by the generation and embedding
    space the engine's hit names. *)
Theorem search_returns_permitted db floor p query k colls docs srcs passages groups psg
    (Hplain : forall d l, d ∈ db_documents db -> d_acl_principals d = Some l -> Forall plain l)
    (Hgroups : group_ids_for_user (tenant_id p) (user_id p) (db_members db) (db_groups db)
               = Ok groups)
    (Hsearch : search db floor p query k colls docs srcs = Ok passages)
    (Hin : psg ∈ passages) :
  exists c d, c ∈ db_chunks db /\ d ∈ db_documents db /\ d_id d = c_document_id c /\
    (rp_chunk_id psg = c_id c /\ rp_document_id psg = d_id d /\ rp_text psg = c_text c /\
     rp_document_name psg = d_filename d /\
     rp_char_start psg = c_char_start c /\ rp_char_end psg = c_char_end c) /\
    c_tenant_id c = tenant_id p /\ d_status d = READY /\
    may_read (tenant_id p) (user_id p) groups (db_grants db) floor d /\
    (forall l, colls = Some l -> d_collection_id d ∈ l) /\
    (forall l, srcs = Some l -> exists s, d_source_id d = Some s /\ s ∈ l) /\
    (forall l, docs = Some l -> d_id d ∈ l) /\
    _valid_passage_provenance (passage_row db (c, d)) = true /\
    exists hit, sh_chunk_id hit = c_id c /\ rp_score psg = sh_score hit /\
      sh_ingestion_attempt hit = d_ingestion_attempts d /\
      c_embedding_fingerprint c = Some (sh_embedding_fingerprint hit).
Proof.
  unfold search in Hsearch. destruct (blank query).
  { injection Hsearch as <-. by apply elem_of_nil in Hin. }
  destruct (_search_permitted _ _ _ _ _ _ _ _) as [[res n]|] eqn:Hs; simpl in Hsearch; [|done].
  injection Hsearch as <-. unfold _search_permitted, _resolve_allow_set in Hs.
  rewrite Hgroups in Hs. apply bind_ok in Hs as (a & [= <-] & Hs).
  assert (exists eff, (forall d, _document_scope colls srcs eff d = true ->
      _document_scope colls srcs docs d = true) /\
    exists hits, res = hydrate (load_passages db floor (for_principal p groups)
      (sh_chunk_id <$> hits) colls eff srcs) hits) as (eff & Heff & hits & ->).
  { set (scoped := match srcs with None => _ | Some _ => _ end) in Hs.
    destruct scoped as [eff|] eqn:Hsc; [|injection Hs as <- _; by apply elem_of_nil in Hin].
    exists eff. split.
    - subst scoped. destruct srcs as [srcs|]; [|by injection Hsc as <-].
      destruct docs as [docs|]; [|intros d; rewrite !scope_spec; naive_solver].
      destruct (filter _ docs) as [|x l] eqn:Hf; [done|]. injection Hsc as <-.
      intros d. rewrite !scope_spec. intros (? & ? & Hd). split_and!; try done.
      intros l' [= <-]. specialize (Hd _ eq_refl). rewrite <-Hf in Hd.
      by apply list_elem_of_filter in Hd as [_ ?].
    - apply bind_ok in Hs as (f & _ & Hs). apply bind_ok in Hs as (v & _ & Hs).
      apply bind_ok in Hs as (hits & _ & Hs). exists hits.
      destruct hits; injection Hs as <- _; [by apply elem_of_nil in Hin|done]. }
  apply hydrate_spec in Hin as (hit & row & _ & Hrow & Hid & -> & Hgen & Hfp).
  apply load_passages_spec in Hrow as (c & d & Hc & Hd & Hdc & -> & _ & Hscope & Hten & Hready
    & Hperm & Hprov).
  apply Heff, scope_spec in Hscope as (Hcoll & Hsrc & Hdoc).
  exists c, d. split_and!; try done.
  - apply document_permitted_spec; [|done]. intros l. by apply Hplain.
  - exists hit. simpl in *. by split_and!.
Qed.

(** The read paths agree.  A listing admits exactly the requested ids that
    the point read would return; a document's text is served only when the
    point read would return the document, and narrowing its scope can only
    withhold it; the point read returns a document of the requester's tenant
    that the predicate admits. *)
Theorem read_paths_agree db floor a i ids colls srcs :
  (i ∈ permitted_document_ids db floor a ids <->
     i ∈ ids /\ is_Some (get_permitted_document db floor a i)) /\
  (is_Some (load_document_text db floor a i colls srcs) ->
     is_Some (load_document_text db floor a i None None) /\
     is_Some (get_permitted_document db floor a i)) /\
  (forall d, get_permitted_document db floor a i = Some d ->
     d ∈ db_documents db /\ d_id d = i /\ d_tenant_id d = as_tenant_id a /\
     sql_true (_document_permitted a (db_grants db) floor d) = true).
Proof.
  split_and!.
  - apply elem_of_permitted_ids.
  - unfold load_document_text. intros [x Hx].
    apply bind_Some in Hx as (d & Hd & _). apply find_Some in Hd as [Hd Hp].
    rewrite !andb_true_iff in Hp. destruct Hp as (((Hid & Hp) & Hr) & _). split.
    + assert (is_Some (find (fun d => N.eqb (d_id d) i && permitted db floor a d && is_ready d
        && _document_scope None None None d) (db_documents db))) as [d' ->]; [|by eexists].
      apply find_is_Some. exists d. by rewrite Hid, Hp, Hr.
    + apply find_is_Some. exists d. by rewrite Hid, Hp.
  - intros d Hd. apply find_Some in Hd as [Hd Hp]. unfold permitted in Hp.
    rewrite !andb_true_iff, !N.eqb_eq in Hp. by destruct Hp as (? & ? & ?).
Qed.

(** Stored evidence is re-checked on every read.  Serving a page of
    citations keeps every message and every citation in place; a citation is
    served unchanged exactly when the requester may still read its document,
    and otherwise with its name, snippet, timing and speaker emptied and the
    redaction flag set; nothing withheld means no audit event, and an audited
    read records exactly how many citations were redacted, never their text. *)
Theorem citations_rechecked db floor {K} tenant a (cites : list (K * list CitationView))
    surface rt ri actor audit rid ip out ev
    (Hrun : enforce_citation_permissions db floor tenant a cites surface rt ri actor audit rid ip
            = (out, ev)) :
  Forall2 (fun kc kc' => kc'.1 = kc.1 /\
    Forall2 (fun c c' => c' = match get_permitted_document db floor a (cv_document_id c) with
                                   | Some _ => c | None => redact c end) kc.2 kc'.2) cites out /\
  let withheld := length (filter (fun c => get_permitted_document db floor a (cv_document_id c) = None)
                            (concat (snd <$> cites))) in
  (withheld = 0%nat -> ev = None) /\
  (ev = None -> withheld = 0%nat \/ audit = false) /\
  (forall e, ev = Some (Ok e) -> ev_action e = EVIDENCE_REHYDRATED /\
    dict_get (cp "redacted_citations") (ev_metadata e) = Some (JInt (Z.of_nat withheld))).
Proof.
  unfold enforce_citation_permissions in Hrun.
  destruct cites as [|kc cites0].
  { injection Hrun as <- <-. split; [constructor|].
    split_and!; [done|by left|by intros ? [=]]. }
  cbv beta iota zeta in Hrun. set (cites := kc :: cites0) in *.
  set (ids := remove_dups (cv_document_id <$> concat (snd <$> cites))) in *.
  destruct (served_all db floor a ids cites) as [Hserved Hcount].
  { intros c Hc. unfold ids. apply elem_of_remove_dups, list_elem_of_fmap. by exists c. }
  cbv beta zeta in Hserved, Hcount.
  destruct ids as [|i l] eqn:Hids.
  - assert (concat (snd <$> cites) = []) as Hc.
    { destruct (concat (snd <$> cites)) as [|c l] eqn:E; [done|]. exfalso.
      assert (cv_document_id c ∈ ids) as Hin
        by (unfold ids; apply elem_of_remove_dups; rewrite ?E; apply list_elem_of_here).
      rewrite Hids in Hin. by apply elem_of_nil in Hin. }
    injection Hrun as <- <-.
    rewrite Hc. split; [|split_and!; [done|by left|by intros ? [=]]].
    rewrite <-(served_nothing db floor a cites Hc) at 2. apply Forall2_served.
  - rewrite <-Hids in *.
    apply pair_equal_spec in Hrun as [<- Hev]. split; [rewrite Hserved; apply Forall2_served|].
    rewrite Hcount in Hev. cbv zeta.
    change (length (filter _ (concat (snd <$> cites))))
      with (withheld db floor a (concat (snd <$> cites))).
    set (n := withheld _ _ _ _) in *. unfold audit_withholding in Hev.
    destruct (Z.leb_spec (Z.of_nat n) 0), audit; simpl in Hev; subst ev;
      (split_and!; [done || lia|intros; first [discriminate|left; lia|by right]|]); try done.
    intros e [= He]. apply emit_ok in He as (act & Ha & _ & _ & _ & _ & ->).
    simpl in Ha. by subst act.
Qed.
End properties.

(** ** Witnesses *)

Section witness.
#[local] Existing Instance demo_text.
#[local] Instance demo_retrieval : RetrievalHost := {|
  vector := unit;
  embed _ := Ok tt;
  engine_search _ _ _ _ := Ok [mk_hit 3 10 1%Q 1 (cp "e"); mk_hit 4 11 1%Q 1 (cp "e")];
  index_fingerprint := cp "e"
|}.

Definition demo_chunk : Chunk :=
  mk_chunk 3 1 10 0 (cp "the plan") 0 8 None None None None None (Some (cp "e")) [].
(** A chunk of another owner's document, which the engine should not return. *)
Definition foreign_document : Document :=
  mk_document 11 1 9 20 None (cp "secret.md") (cp "document") None (cp "ready") 1 false None None None.
Definition foreign_chunk : Chunk :=
  mk_chunk 4 1 11 0 (cp "secret") 0 6 None None None None None (Some (cp "e")) [].
Definition demo_db : Database :=
  mk_db [demo_document; foreign_document] [demo_chunk; foreign_chunk] [] [] [] [].

Definition demo_asker : Principal := mk_principal 8 1.
Definition demo_psg : RetrievedPassage :=
  passage_of (passage_row demo_db (demo_chunk, demo_document)) 1%Q.

Lemma demo_search :
  search demo_db 500 demo_asker (cp "plan") 5 None None None = Ok [demo_psg].
Proof. vm_compute. reflexivity. Qed.

Lemma demo_db_plain d l :
  d ∈ db_documents demo_db -> d_acl_principals d = Some l -> Forall plain l.
Proof.
  intros [->|[->|Hd%elem_of_nil]%elem_of_cons]%elem_of_cons Hl; try done.
  by apply demo_document_plain.
Qed.

Lemma search_returns_permitted_witness :
  search demo_db 500 demo_asker (cp "plan") 5 None None None = Ok [demo_psg] /\
  exists d, may_read 1 8 ∅ [] 500 d /\ d_id d = 10%N.
Proof.
  split; [exact demo_search|].
  destruct (search_returns_permitted demo_db 500 demo_asker (cp "plan") 5 None None None
    [demo_psg] ∅ demo_psg demo_db_plain eq_refl demo_search (list_elem_of_here _ _))
    as (c & d & _ & _ & _ & (_ & Hid & _) & _ & _ & Hread & _).
  exists d. split; [exact Hread|exact (eq_sym Hid)].
Defined.

Lemma read_paths_agree_witness :
  is_Some (get_permitted_document demo_db 500 (for_user 1 8 ∅) 10).
Proof.
  apply (read_paths_agree demo_db 500 (for_user 1 8 ∅) 10 [10%N] None None).
  vm_compute. eexists. reflexivity.
Defined.

Definition demo_citation (document : uuid) : CitationView :=
  mk_citation 1 2 document (cp "n") 3 (cp "snippet") 0 8 None None None None None None false None.
Definition demo_cites : list (N * list CitationView) :=
  [(2%N, [demo_citation 10; demo_citation 11])].
Definition demo_checked := enforce_citation_permissions demo_db 500 1 (for_user 1 8 ∅) demo_cites
  (cp "transcript") (cp "chat") (cp "s1") 8 true (cp "r") (cp "ip").

Lemma citations_rechecked_witness :
  demo_checked.1 = [(2%N, [demo_citation 10; redact (demo_citation 11)])] /\
  exists e, demo_checked.2 = Some (Ok e) /\
    dict_get (cp "redacted_citations") (ev_metadata e) = Some (JInt 1).
Proof.
  split; [vm_compute; reflexivity|].
  destruct (citations_rechecked demo_db 500 1 (for_user 1 8 ∅) demo_cites (cp "transcript")
    (cp "chat") (cp "s1") 8 true (cp "r") (cp "ip") demo_checked.1 demo_checked.2
    (surjective_pairing _)) as (_ & _ & _ & Hev).
  destruct demo_checked.2 as [[e|]|] eqn:E; [|vm_compute in E; discriminate E..].
  exists e. split; [reflexivity|]. exact (proj2 (Hev e eq_refl)).
Defined.
End witness.
