(* ===== verification/DriveAcl.v ===== *)
(** * The Drive effective-read ACL mapper

    [map_acl] of [backend/app/connectors/gdrive/acl.py] over the attested-identity
    snapshot [AclMappingContext] of [backend/app/connectors/base.py]: what the
    mirrored principal list of an ACL-enforced document is made of. *)

From stdpp Require Import base list strings gmap.
From S2P Require Import Prelude Json Tools Permissions.

(** [email_to_user_id] holds attested users only, keyed by case-folded email. *)
Record AclMappingContext := mk_ctx {
  email_to_user_id : list (pystr * uuid);
  ctx_tenant_principal : pystr
}.

Section acl.
Context `{TextHost}.
(** [str.casefold] *)
Variable casefold : pystr -> pystr.
Implicit Types (entry raw : dict) (ctx : AclMappingContext).

Definition principal_for_email ctx (email : pystr) : option pystr :=
  user_principal <$> dict_get (casefold email) (email_to_user_id ctx).

Definition CONTENT_READ_ROLES : list pystr :=
  [cp "owner"; cp "organizer"; cp "fileOrganizer"; cp "writer"; cp "commenter"; cp "reader"].

Definition _is_direct entry : bool :=
  match dict_get (cp "permissionDetails") entry with
  | Some (JArr details) => existsb (fun detail =>
      match detail with
      | JObj o => bool_decide (dict_get (cp "inherited") o = Some (JBool false))
      | _ => false
      end) details
  | _ => false
  end.

Definition has_key (k : pystr) (d : dict) : bool :=
  match dict_get k d with Some _ => true | None => false end.

Definition _map_entry entry ctx : option pystr :=
  if match dict_get (cp "deleted") entry with Some v => json_truthy v | None => false end then None
  else if has_key (cp "expirationTime") entry then None
  else if has_key (cp "view") entry then None
  else match dict_get (cp "role") entry with
  | Some (JStr role) =>
      if negb (mem role CONTENT_READ_ROLES) then None
      else match dict_get (cp "type") entry with
      | Some (JStr ty) =>
          if decide (ty = cp "user") then
            match dict_get (cp "emailAddress") entry with
            | Some (JStr (c :: e)) => principal_for_email ctx (c :: e)
            | _ => None
            end
          else if decide (ty = cp "anyone") then Some (ctx_tenant_principal ctx)
          else None
      | _ => None
      end
  | _ => None
  end.

(** [map_acl]: the principals as a list (a [frozenset] in the code). *)
Definition map_acl raw ctx : list pystr :=
  match dict_get (cp "permissions") raw with
  | Some (JArr permissions) =>
      let reduce_to_direct :=
        bool_decide (dict_get (cp "inheritedPermissionsDisabled") raw = Some (JBool true)) in
      remove_dups (omap (fun item : json =>
        match item with
        | JObj o => if reduce_to_direct && negb (_is_direct o) then None else _map_entry o ctx
        | _ => None
        end) permissions)
  | _ => []
  end.

(** An entry that admits the principal [p], as the decision record states it. *)
Definition admits entry ctx (p : pystr) : Prop :=
  (forall v, dict_get (cp "deleted") entry = Some v -> json_truthy v = false) /\
  dict_get (cp "expirationTime") entry = None /\
  dict_get (cp "view") entry = None /\
  (exists role, dict_get (cp "role") entry = Some (JStr role) /\ role ∈ CONTENT_READ_ROLES) /\
  ((dict_get (cp "type") entry = Some (JStr (cp "user")) /\
    exists email u, email <> [] /\ dict_get (cp "emailAddress") entry = Some (JStr email) /\
      dict_get (casefold email) (email_to_user_id ctx) = Some u /\ p = user_principal u) \/
   (dict_get (cp "type") entry = Some (JStr (cp "anyone")) /\ p = ctx_tenant_principal ctx)).

Lemma map_entry_spec entry ctx p : _map_entry entry ctx = Some p <-> admits entry ctx p.
Proof.
  unfold _map_entry, admits, has_key, principal_for_email. split.
  - intros Hm.
    destruct (match dict_get (cp "deleted") entry with Some v => json_truthy v | None => false end)
      eqn:Hd; [done|].
    destruct (dict_get (cp "expirationTime") entry); [done|].
    destruct (dict_get (cp "view") entry); [done|].
    destruct (dict_get (cp "role") entry) as [[| | | |role| |]|]; try done.
    destruct (mem role CONTENT_READ_ROLES) eqn:Hr; [|done]. apply mem_true in Hr.
    destruct (dict_get (cp "type") entry) as [[| | | |ty| |]|]; try done. simpl in Hm.
    split_and!; [intros v Hv; by rewrite Hv in Hd|done..|by exists role|].
    repeat case_decide; subst; try done; [left|right; by simplify_eq].
    destruct (dict_get (cp "emailAddress") entry) as [[| | | |[|c e]| |]|]; try done.
    apply fmap_Some in Hm as (u & Hu & ->). split; [done|]. by exists (c :: e), u.
  - intros (Hd & -> & -> & (role & -> & Hr) & Hcase).
    assert ((match dict_get (cp "deleted") entry with Some v => json_truthy v | None => false end)
      = false) as -> by (destruct (dict_get (cp "deleted") entry); eauto).
    apply mem_true in Hr. rewrite Hr. simpl.
    destruct Hcase as [(-> & [|c e] & u & Hne & -> & Hu & ->)|(-> & ->)]; [done| |done].
    rewrite decide_True by done. by rewrite Hu.
Qed.

(** Mirroring never escalates, and loses nothing it can prove.  A principal
    is in the mapped set exactly when some permission entry of the file admits
    it: not deleted, without expiry or view, with a content-read role, provably
    direct when inheritance is disabled, and either naming the email of an
    attested user (the principal of that user) or open to anyone (the tenant
    principal).  Every other entry grants nobody. *)
Theorem map_acl_never_escalates raw ctx p :
  p ∈ map_acl raw ctx <->
  exists permissions entry, dict_get (cp "permissions") raw = Some (JArr permissions) /\
    JObj entry ∈ permissions /\
    (dict_get (cp "inheritedPermissionsDisabled") raw = Some (JBool true) ->
       exists details d, dict_get (cp "permissionDetails") entry = Some (JArr details) /\
         JObj d ∈ details /\ dict_get (cp "inherited") d = Some (JBool false)) /\
    admits entry ctx p.
Proof.
  assert (forall o, _is_direct o = true <-> exists details d,
    dict_get (cp "permissionDetails") o = Some (JArr details) /\
    JObj d ∈ details /\ dict_get (cp "inherited") d = Some (JBool false)) as Hdirect.
  { intros o. unfold _is_direct. split.
    - destruct (dict_get _ o) as [[| | | | |details|]|]; try done.
      intros (j & Hin & Hj)%existsb_exists. destruct j as [| | | | | |d]; try done.
      apply bool_decide_eq_true in Hj. apply list_elem_of_In in Hin. by exists details, d.
    - intros (details & d & -> & Hin & Hd). apply existsb_exists. exists (JObj d).
      split; [by apply list_elem_of_In|]. by apply bool_decide_eq_true. }
  unfold map_acl. split.
  - destruct (dict_get (cp "permissions") raw) as [[| | | | |permissions|]|];
      try by intros ?%elem_of_nil.
    intros (j & Hin & Hj)%elem_of_remove_dups%list_elem_of_omap.
    destruct j as [| | | | | |entry]; try done.
    case_bool_decide as Hr; simpl in Hj.
    + destruct (_is_direct entry) eqn:Hdir; [|done]. simpl in Hj.
      exists permissions, entry. split_and!; [done|done| |by apply map_entry_spec].
      intros _. by apply Hdirect.
    + exists permissions, entry. split_and!; [done|done|done|by apply map_entry_spec].
  - intros (permissions & entry & -> & Hin & Hdir & Hadm%map_entry_spec).
    apply elem_of_remove_dups, list_elem_of_omap. exists (JObj entry). split; [done|].
    case_bool_decide as Hr; [|done]. apply Hdirect in Hdir; [|done]. by rewrite Hdir.
Qed.
End acl.

(** ** Mirroring and the predicate *)

Section mirror.
Context `{TextHost}.
Variable casefold : pystr -> pystr.

Lemma map_acl_elem raw ctx p :
  p ∈ map_acl casefold raw ctx ->
  (exists u, p = user_principal u) \/ p = ctx_tenant_principal ctx.
Proof.
  unfold map_acl. destruct (dict_get _ raw) as [[| | | | |permissions|]|];
    try by intros ?%elem_of_nil.
  intros (j & _ & Hj)%elem_of_remove_dups%list_elem_of_omap.
  destruct j as [| | | | | |entry]; try done. destruct (_ && _); [done|].
  apply map_entry_spec in Hj as (_ & _ & _ & _ & [(_ & _ & u & _ & _ & _ & ->)|(_ & ->)]);
    [left; by exists u|by right].
Qed.

(** A managed document mirrored from this Drive file. *)
Definition mirrored (d : Document) (raw : dict) (ctx : AclMappingContext) (synced : Z) : Document :=
  mk_document (d_id d) (d_tenant_id d) (d_owner_id d) (d_collection_id d) (d_source_id d)
    (d_filename d) (d_kind d) (d_duration_ms d) (d_status d) (d_ingestion_attempts d) true
    (Some (map_acl casefold raw ctx)) (Some synced) (d_acl_scope_ids d).

(** A mirrored Drive file is readable only by those its source admits.  A
    requester passes the retrieval predicate on the mirrored document exactly
    when the mirror is fresh and the file's permission list maps to their own
    principal or to the whole tenant; who owns the document in Lumen and what
    was granted on it play no part. *)
Theorem mirrored_document_readers d raw ctx synced tenant user groups grants floor
    (Htp : ctx_tenant_principal ctx = cp "tenant") :
  sql_true (_document_permitted (for_user tenant user groups) grants floor
    (mirrored d raw ctx synced)) = true <->
  (floor <= synced)%Z /\
  (cp "user:" ++ str_uuid user ∈ map_acl casefold raw ctx \/ cp "tenant" ∈ map_acl casefold raw ctx).
Proof.
  rewrite document_permitted_spec.
  - unfold may_read, mirrored. simpl. split.
    + intros (acl & s & [= <-] & Hin & [= <-] & Hle). by split.
    + intros (Hle & Hin). by exists (map_acl casefold raw ctx), synced.
  - intros l [= <-]. apply Forall_forall. intros p [[u ->]| ->]%map_acl_elem.
    + apply user_principal_plain.
    + rewrite Htp. by apply cp_plain.
Qed.
End mirror.

(** ** Witness *)

Section witness.
#[local] Existing Instance demo_text.

Definition demo_file : dict :=
  [(cp "permissions", JArr [JObj [(cp "type", JStr (cp "anyone")); (cp "role", JStr (cp "reader"))]])].

Lemma mirrored_document_readers_witness :
  sql_true (_document_permitted (for_user 1 8 ∅) [] 500
    (mirrored (fun s => s) demo_document demo_file (mk_ctx [] (cp "tenant")) 1000)) = true.
Proof.
  apply (mirrored_document_readers (fun s => s) demo_document demo_file (mk_ctx [] (cp "tenant"))
    1000 1 8 ∅ [] 500 eq_refl).
  split; [lia|]. right. vm_compute. left.
Defined.
End witness.
