(* ===== verification/Chunking.v ===== *)
(** * Text chunking with citation offsets

    [chunk_text] of [backend/app/ingestion/chunking.py]: overlapping windows cut at
    a sentence or whitespace boundary where one is near, each chunk carrying its
    exact span in the source text. *)

From stdpp Require Import base list strings sets.
From Stdlib Require Import Sorted Lia.
From S2P Require Import Prelude.
Open Scope nat_scope.

Definition _SENTENCE_ENDINGS : list N := [46; 33; 63; 10]%N.

Record TextChunk := mk_text_chunk {
  ch_ord : nat;
  ch_text : pystr;
  ch_start : nat;
  ch_end : nat
}.

(** [text[a:b]] *)
Definition slice (text : pystr) (a b : nat) : pystr := take (b - a) (drop a text).

(** [for i in range(hi - 1, hi - 1 - n, -1): if p(text[i]): return i + 1] *)
Fixpoint scan_back (p : N -> bool) (text : pystr) (hi n : nat) : option nat :=
  match n with
  | 0 => None
  | S n' =>
      if match text !! (hi - 1) with Some c => p c | None => false end then Some hi
      else scan_back p text (hi - 1) n'
  end.

Definition _find_boundary (text : pystr) (window_start hard_end : nat) : nat :=
  let span := hard_end - window_start in
  let lookback := span / 2 in
  let floor := Nat.max (window_start + 1) (hard_end - lookback) in
  match scan_back (fun c => mem c _SENTENCE_ENDINGS) text hard_end (hard_end - floor) with
  | Some cut => cut
  | None =>
      match scan_back py_isspace text hard_end (hard_end - floor) with
      | Some cut => cut
      | None => hard_end
      end
  end.

Section chunking.
Variable text : pystr.
Variables chunk_size overlap : nat.

(** Where the window that starts at [window_start] is cut. *)
Definition window_cut (window_start : nat) : nat :=
  let total := length text in
  let hard_end := Nat.min (window_start + chunk_size) total in
  let cut := if total <=? hard_end then hard_end
             else _find_boundary text window_start hard_end in
  if (cut <? hard_end) && (cut - window_start <=? overlap) then hard_end else cut.

(** The [while] loop; [None] only when the fuel runs out. *)
Fixpoint chunk_loop (fuel window_start ordinal : nat) : option (list TextChunk) :=
  match fuel with
  | 0 => None
  | S fuel' =>
      if window_start <? length text then
        let cut := window_cut window_start in
        let piece := slice text window_start cut in
        let '(here, ordinal') :=
          if blank piece then ([], ordinal)
          else ([mk_text_chunk ordinal piece window_start cut], S ordinal) in
        if length text <=? cut then Some here
        else rest ← chunk_loop fuel' (cut - overlap) ordinal'; Some (here ++ rest)
      else Some []
  end.
End chunking.

(** [chunk_text]: the outer [None] is running out of fuel. *)
Definition chunk_text (text : pystr) (chunk_size overlap : Z) : option (res pystr (list TextChunk)) :=
  if (chunk_size <=? 0)%Z then Some (Err (cp "chunk_size must be positive"))
  else if ((overlap <? 0) || (chunk_size <=? overlap))%Z then
    Some (Err (cp "overlap must satisfy 0 <= overlap < chunk_size"))
  else if blank text then Some (Ok [])
  else Ok <$> chunk_loop text (Z.to_nat chunk_size) (Z.to_nat overlap) (S (length text)) 0 0.

(** ** Lemmas *)

Lemma scan_back_bound p text hi n cut :
  scan_back p text hi n = Some cut -> n <= hi -> hi - n < cut <= hi.
Proof.
  revert hi. induction n as [|n IH]; intros hi; simpl; [done|].
  destruct (match text !! (hi - 1) with Some c => p c | None => false end).
  - intros [= <-] ?. lia.
  - intros Hs ?. apply IH in Hs; lia.
Qed.

Lemma find_boundary_bound text a b : a < b -> a < _find_boundary text a b <= b.
Proof.
  intros Hab. unfold _find_boundary. set (n := b - _).
  assert (n <= b - a - 1) by (unfold n; lia).
  destruct (scan_back _ text b n) as [cut|] eqn:E1.
  { apply scan_back_bound in E1; lia. }
  destruct (scan_back py_isspace text b n) as [cut|] eqn:E2; [|lia].
  apply scan_back_bound in E2; lia.
Qed.

Lemma slice_lookup text a b i : a <= i < b -> slice text a b !! (i - a) = text !! i.
Proof.
  intros ?. unfold slice. rewrite lookup_take_lt by lia. rewrite lookup_drop. f_equal. lia.
Qed.

Lemma blank_lookup s i c : blank s = true -> s !! i = Some c -> py_isspace c = true.
Proof.
  intros Hb Hi. unfold blank in Hb. rewrite forallb_forall in Hb. apply Hb.
  apply list_elem_of_In. by eapply list_elem_of_lookup_2.
Qed.

Section loop_lemmas.
Variable text : pystr.
Variables chunk_size overlap : nat.
Hypothesis Hsize : overlap < chunk_size.

Abbreviation cut := (window_cut text chunk_size overlap).
Abbreviation loop := (chunk_loop text chunk_size overlap).

(** A window makes progress, and its end passes the overlap. *)
Lemma window_cut_bound start :
  start < length text ->
  start < cut start <= length text /\ cut start - start <= chunk_size /\
  (cut start < length text -> start + overlap < cut start).
Proof.
  intros Hs. unfold window_cut.
  set (hard := Nat.min (start + chunk_size) (length text)).
  assert (start < hard) by (unfold hard; lia).
  pose proof (find_boundary_bound text start hard ltac:(lia)) as Hb.
  destruct (Nat.leb_spec (length text) hard).
  - rewrite (proj2 (Nat.ltb_ge hard hard)) by lia. simpl. unfold hard in *. lia.
  - set (b := _find_boundary text start hard) in *.
    destruct (Nat.ltb_spec b hard), (Nat.leb_spec (b - start) overlap); simpl; unfold hard in *; lia.
Qed.

(** A chunk cut from [text] at or after [from]. *)
Definition chunk_ok (from : nat) (c : TextChunk) : Prop :=
  from <= ch_start c < ch_end c /\ ch_end c <= length text /\
  ch_end c - ch_start c <= chunk_size /\
  ch_text c = slice text (ch_start c) (ch_end c) /\ blank (ch_text c) = false.

Definition before (c c' : TextChunk) : Prop :=
  ch_start c < ch_start c' /\ ch_end c < ch_end c'.

(** The chunks from [start] on. *)
Record chunks_from (start ordinal : nat) (chunks : list TextChunk) : Prop := {
  cf_ok : Forall (chunk_ok start) chunks;
  cf_ends : Forall (fun c => start + overlap < ch_end c \/ ch_end c = length text) chunks;
  cf_ord : ch_ord <$> chunks = seq ordinal (length chunks);
  cf_sorted : StronglySorted before chunks;
  cf_cover : forall i c, start <= i -> text !! i = Some c -> py_isspace c = false ->
    exists ch, ch ∈ chunks /\ ch_start ch <= i < ch_end ch
}.

(** The chunk of one window, if its text is not blank. *)
Definition window_chunks (start ordinal : nat) : list TextChunk :=
  if blank (slice text start (cut start)) then []
  else [mk_text_chunk ordinal (slice text start (cut start)) start (cut start)].

Lemma window_chunks_cover start ordinal i c :
  start <= i < cut start -> text !! i = Some c -> py_isspace c = false ->
  exists ch, ch ∈ window_chunks start ordinal /\ ch_start ch <= i < ch_end ch.
Proof.
  intros Hi Hc Hsp. unfold window_chunks.
  destruct (blank (slice text start (cut start))) eqn:Hb.
  - exfalso. rewrite <-(slice_lookup _ start (cut start)) in Hc by lia.
    apply (blank_lookup _ _ _ Hb) in Hc. congruence.
  - eexists. split; [apply list_elem_of_here|]. simpl. lia.
Qed.

(** Prepending a window to the chunks of the rest. *)
Lemma chunks_from_cons start ordinal rest :
  start < length text -> cut start < length text ->
  chunks_from (cut start - overlap) (ordinal + length (window_chunks start ordinal)) rest ->
  chunks_from start ordinal (window_chunks start ordinal ++ rest).
Proof.
  intros Hs Hc [Hok Hends Hord Hsort Hcov].
  destruct (window_cut_bound start Hs) as (Hb1 & Hb2 & Hb3). specialize (Hb3 Hc).
  assert (forall c, c ∈ rest -> chunk_ok start c /\ start < ch_start c /\ cut start < ch_end c)
    as Hrest.
  { intros c Hin. rewrite Forall_forall in Hok, Hends.
    specialize (Hok c Hin) as (? & ? & ? & ? & ?). specialize (Hends c Hin).
    split_and!; [|lia|lia]. split_and!; try done; lia. }
  split.
  - apply Forall_app. split; [|apply Forall_forall; intros c Hin; by apply Hrest].
    unfold window_chunks. destruct (blank _) eqn:Hbl; [done|].
    apply Forall_singleton. split_and!; simpl; try done; lia.
  - apply Forall_app. split; [|apply Forall_forall; intros c Hin; left; apply Hrest in Hin; lia].
    unfold window_chunks. destruct (blank _); [done|].
    apply Forall_singleton. left. simpl. lia.
  - rewrite fmap_app, length_app, seq_app, Hord. f_equal.
    unfold window_chunks. by destruct (blank _).
  - unfold window_chunks. destruct (blank _); [done|]. simpl. constructor; [done|].
    apply Forall_forall. intros c Hin%Hrest. unfold before. simpl. lia.
  - intros i c Hi Hc' Hsp. destruct (decide (i < cut start)) as [Hlt|Hge].
    + destruct (window_chunks_cover start ordinal i c) as (ch & Hin & ?); [lia|done..|].
      exists ch. set_solver.
    + destruct (Hcov i c) as (ch & Hin & ?); [lia|done..|]. exists ch. set_solver.
Qed.

Lemma chunks_from_last start ordinal :
  start < length text -> length text <= cut start ->
  chunks_from start ordinal (window_chunks start ordinal).
Proof.
  intros Hs Hc. destruct (window_cut_bound start Hs) as (Hb1 & Hb2 & _). split.
  - unfold window_chunks. destruct (blank _) eqn:Hbl; [done|].
    apply Forall_singleton. split_and!; simpl; try done; lia.
  - unfold window_chunks. destruct (blank _); [done|]. apply Forall_singleton. right. simpl. lia.
  - unfold window_chunks. by destruct (blank _).
  - unfold window_chunks. destruct (blank _); repeat constructor.
  - intros i c Hi Hc' Hsp. apply (window_chunks_cover start ordinal i c); try done.
    apply lookup_lt_Some in Hc'. lia.
Qed.

(** Fuel for the remaining text is enough. *)
Lemma chunk_loop_spec fuel : forall start ordinal,
  length text < fuel + start -> start < length text -> exists chunks,
    loop fuel start ordinal = Some chunks /\ chunks_from start ordinal chunks.
Proof.
  induction fuel as [|fuel IH]; intros start ordinal Hf Hs; simpl.
  - lia.
  - rewrite (proj2 (Nat.ltb_lt _ _) Hs).
    destruct (window_cut_bound start Hs) as (Hb1 & Hb2 & Hb3).
    assert ((if blank (slice text start (cut start)) then ([], ordinal)
             else ([mk_text_chunk ordinal (slice text start (cut start)) start (cut start)], S ordinal))
      = (window_chunks start ordinal, ordinal + length (window_chunks start ordinal))) as ->.
    { unfold window_chunks. destruct (blank _); simpl; f_equal; lia. }
    destruct (Nat.leb_spec (length text) (cut start)) as [Hc|Hc].
    + eexists. split; [done|]. by apply chunks_from_last.
    + destruct (IH (cut start - overlap) (ordinal + length (window_chunks start ordinal)))
        as (rest & -> & Hrest); [lia|lia|].
      eexists. split; [done|]. by apply chunks_from_cons.
Qed.
End loop_lemmas.

(** What a valid configuration returns. *)
Lemma chunk_text_from text chunk_size overlap : (0 <= overlap < chunk_size)%Z -> exists chunks,
  chunk_text text chunk_size overlap = Some (Ok chunks) /\ chunks_from text (Z.to_nat chunk_size) (Z.to_nat overlap) 0 0 chunks.
Proof.
  intros Hover. unfold chunk_text. rewrite (proj2 (Z.leb_gt _ _)) by lia.
  rewrite (proj2 (Z.ltb_ge _ _)), (proj2 (Z.leb_gt _ _)) by lia. cbn [orb]. destruct (blank text) eqn:Hblank.
  - exists []. split; [done|]. constructor; try constructor. intros i c _ Hi. by rewrite (blank_lookup _ _ _ Hblank Hi).
  - destruct (chunk_loop_spec text (Z.to_nat chunk_size) (Z.to_nat overlap) ltac:(lia)
      (S (length text)) 0 0) as (chunks & -> & Hc); [lia|by destruct text; [|simpl; lia]|]. by exists chunks.
Qed.
Lemma chunk_text_spec text chunk_size overlap : (0 <= overlap < chunk_size)%Z -> exists chunks,
  chunk_text text chunk_size overlap = Some (Ok chunks)
  /\ Forall (fun c => (ch_start c < ch_end c <= length text) /\ ch_text c = slice text (ch_start c) (ch_end c)
                      /\ blank (ch_text c) = false) chunks
  /\ (forall i c, text !! i = Some c -> py_isspace c = false -> exists ch, ch ∈ chunks /\ ch_start ch <= i < ch_end ch).
Proof.
  intros (chunks & E & [Hok _ _ _ Hcov])%(chunk_text_from text). exists chunks. split; [done|]. split; [|intros i c; apply Hcov; lia].
  eapply Forall_impl; [exact Hok|]. intros c (? & ? & _ & ? & ?). split_and!; try done; lia.
Qed.

(** ** Properties *)

(** C40: chunking always finishes and its offsets are exact.  For a valid
    configuration, the chunks of a text are returned; each chunk's text is the
    slice of the source at its offsets, is at most [chunk_size] long and is not
    blank; the chunks are numbered from zero and both their starts and their
    ends strictly increase; and every character that is not whitespace lies in
    some chunk. *)
Theorem chunk_text_exact text chunk_size overlap
    (Hover : (0 <= overlap < chunk_size)%Z) :
  exists chunks, chunk_text text chunk_size overlap = Some (Ok chunks) /\
    Forall (fun c => ch_start c < ch_end c <= length text /\
      ch_text c = take (ch_end c - ch_start c) (drop (ch_start c) text) /\
      (Z.of_nat (length (ch_text c)) <= chunk_size)%Z /\ blank (ch_text c) = false) chunks /\
    ch_ord <$> chunks = seq 0 (length chunks) /\
    StronglySorted (fun c c' => ch_start c < ch_start c' /\ ch_end c < ch_end c') chunks /\
    (forall i c, text !! i = Some c -> py_isspace c = false ->
      exists ch, ch ∈ chunks /\ ch_start ch <= i < ch_end ch).
Proof.
  destruct (chunk_text_from text chunk_size overlap Hover) as (chunks & E & [Hok _ Hord Hsort Hcov]).
  exists chunks. split_and!; [done| |done|done|].
  - eapply Forall_impl; [exact Hok|]. intros c (? & ? & ? & Ht & ?). split_and!; try done; [lia|].
    rewrite Ht. unfold slice. rewrite length_take, length_drop. lia.
  - intros i c. apply Hcov. lia.
Qed.

(** A misconfigured window fails loudly: a non-positive size, a negative
    overlap or an overlap that reaches the size is refused for every text. *)
Theorem chunk_text_misconfigured text chunk_size overlap :
  (exists m, chunk_text text chunk_size overlap = Some (Err m)) <->
  (chunk_size <= 0 \/ overlap < 0 \/ chunk_size <= overlap)%Z.
Proof.
  unfold chunk_text. destruct (Z.leb_spec chunk_size 0); [split; eauto|].
  destruct (Z.ltb_spec overlap 0), (Z.leb_spec chunk_size overlap); cbn [orb]; try (split; eauto; lia).
  split; [|lia]. intros [m Hm]. destruct (blank text); [done|].
  by destruct (chunk_loop text _ _ _ _ _).
Qed.

Lemma chunk_text_exact_witness :
  chunk_text (cp "One. Two three four") 8 2 <> None /\
  exists chunks, chunk_text (cp "One. Two three four") 8 2 = Some (Ok chunks) /\
    ch_ord <$> chunks = seq 0 (length chunks).
Proof.
  split; [vm_compute; discriminate|].
  destruct (chunk_text_exact (cp "One. Two three four") 8 2) as (chunks & Hc & _ & Hord & _); [lia|].
  exists chunks. split; [exact Hc|exact Hord].
Defined.
