(* ===== verification/Keys.v ===== *)
(** * Object-storage keys and the tenant prefix

    [backend/app/storage/keys.py]: keys are single strings with a tenant segment
    first (or second, under [artifacts/]); the store refuses a key outside the
    caller's prefix.  Hashing and NFKC normalisation are parameters. *)

From stdpp Require Import base list strings sets.
From Stdlib Require Import Lia.
From S2P Require Import Prelude.

(** ** Characters *)

Definition slash : N := 47%N.
Definition dot : N := 46%N.
Definition newline : N := 10%N.

Definition is_alnum (c : N) : bool :=
  ((48 <=? c) && (c <=? 57) || (65 <=? c) && (c <=? 90) || (97 <=? c) && (c <=? 122))%N.
(** [A-Za-z0-9._-] *)
Definition is_safe (c : N) : bool := is_alnum c || mem c [46; 95; 45]%N.

(** The errors of the module: [ValidationError] and [ForbiddenError]. *)
Inductive key_error : Type := InvalidTenantId | CrossTenantDenied.

(** [^[A-Za-z0-9][A-Za-z0-9._-]*$] with [re.match]: [$] also matches before a
    final newline. *)
Definition tenant_re_match (s : pystr) : bool :=
  let body := match reverse s with
              | c :: r => if N.eqb c newline then reverse r else s
              | [] => s
              end in
  match body with
  | c :: rest => is_alnum c && forallb is_safe rest
  | [] => false
  end.

Definition validate_tenant_id (tenant_id : pystr) : res key_error pystr :=
  if tenant_re_match tenant_id then Ok tenant_id else Err InvalidTenantId.

(** [posixpath.basename]: what follows the last slash. *)
Fixpoint basename_from (acc s : pystr) : pystr :=
  match s with
  | [] => acc
  | c :: s' => if N.eqb c slash then basename_from s' s' else basename_from acc s'
  end.
Definition basename (s : pystr) : pystr := basename_from s s.

(** [s.replace] of one backslash by a slash. *)
Definition replace_backslash (s : pystr) : pystr :=
  (fun c => if N.eqb c 92 then slash else c) <$> s.

(** [_SAFE_FILENAME_RE.sub("_", s)]: each maximal unsafe run becomes one "_". *)
Fixpoint collapse_unsafe (in_run : bool) (s : pystr) : pystr :=
  match s with
  | [] => []
  | c :: s' =>
      if is_safe c then c :: collapse_unsafe false s'
      else if in_run then collapse_unsafe true s'
      else 95%N :: collapse_unsafe true s'
  end.

Definition _MAX_FILENAME_LEN : nat := 200.
Definition _FALLBACK_FILENAME : pystr := cp "file".
Definition _ARTIFACT_PREFIX : pystr := cp "artifacts".

Definition sep (a b : pystr) : pystr := a ++ slash :: b.

Definition assert_key_owned_by (key tenant_id : pystr) : res key_error unit :=
  t ← validate_tenant_id tenant_id;
  if py_startswith (sep t []) key then Ok tt else Err CrossTenantDenied.

Definition assert_artifact_key_owned_by (key tenant_id : pystr) : res key_error unit :=
  t ← validate_tenant_id tenant_id;
  if py_startswith (sep _ARTIFACT_PREFIX (sep t [])) key then Ok tt else Err CrossTenantDenied.

(** ** Lemmas *)

Lemma safe_not_slash c : is_safe c = true -> c <> slash.
Proof. by intros Hs ->. Qed.

Lemma safe_no_slash l : forallb is_safe l = true -> slash ∉ l.
Proof.
  intros Hl Hin. rewrite forallb_forall in Hl. apply list_elem_of_In in Hin.
  by apply Hl in Hin.
Qed.

(** A tenant id has no slash and is not empty. *)
Lemma tenant_segment t u : validate_tenant_id t = Ok u -> u = t /\ t <> [] /\ slash ∉ t.
Proof.
  unfold validate_tenant_id, tenant_re_match. intros Hv.
  destruct t as [|c0 t0] eqn:Et; [done|]. rewrite <-Et in *.
  set (body := match reverse t with c :: r => _ | [] => t end) in Hv.
  assert (t = body \/ t = body ++ [newline]) as Hbody.
  { unfold body. destruct (reverse t) as [|c r] eqn:Er; [by left|].
    destruct (N.eqb_spec c newline) as [->|]; [right|by left].
    apply (f_equal reverse) in Er. by rewrite reverse_involutive, reverse_cons in Er. }
  destruct body as [|c rest]; [done|].
  destruct (is_alnum c && forallb is_safe rest) eqn:Hs; [|done]. injection Hv as <-.
  apply andb_true_iff in Hs as [Hc Hrest]. split_and!; [done|by rewrite Et|].
  assert (slash ∉ c :: rest) as Hn.
  { apply not_elem_of_cons. split; [|by apply safe_no_slash].
    intros <-. done. }
  destruct Hbody as [->| ->]; [done|]. set_solver.
Qed.

(** Two slash-free segments before a slash are equal. *)
Lemma segment_inj a b x y : slash ∉ a -> slash ∉ b -> sep a x = sep b y -> a = b /\ x = y.
Proof.
  unfold sep. revert b. induction a as [|c a IH]; intros [|d b] Ha Hb Heq; simpl in *.
  - by injection Heq.
  - injection Heq as <- _. set_solver.
  - injection Heq as -> _. set_solver.
  - injection Heq as -> Heq. destruct (IH b) as [-> ->]; set_solver.
Qed.

(** The prefix test accepts exactly the keys of that tenant. *)
Lemma prefix_segment t rest t' :
  slash ∉ t -> slash ∉ t' -> py_startswith (sep t' []) (sep t rest) = true <-> t' = t.
Proof.
  intros Ht Ht'. rewrite py_startswith_spec. split.
  - intros [y Hy]. unfold sep in Hy at 2. rewrite <-app_assoc in Hy. simpl in Hy.
    by destruct (segment_inj t t' rest y Ht Ht' Hy).
  - intros ->. exists rest. unfold sep. by rewrite <-app_assoc.
Qed.

Lemma owned_iff t rest t' :
  slash ∉ t -> assert_key_owned_by (sep t rest) t' = Ok tt <->
  t' = t /\ validate_tenant_id t' = Ok t'.
Proof.
  intros Ht. unfold assert_key_owned_by. split.
  - intros (v & Hv & Hs)%bind_ok. pose proof (tenant_segment _ _ Hv) as (-> & _ & Hn).
    destruct (py_startswith _ _) eqn:Hp; [|done]. by apply prefix_segment in Hp as ->.
  - intros [-> Hv]. rewrite Hv. simpl. by rewrite (proj2 (prefix_segment t rest t Ht Ht) eq_refl).
Qed.

Lemma artifact_owned_prefix key t :
  assert_artifact_key_owned_by key t = Ok tt ->
  sep _ARTIFACT_PREFIX (sep t []) `prefix_of` key.
Proof.
  intros (v & Hv & Hs)%bind_ok. pose proof (tenant_segment _ _ Hv) as (-> & _ & _).
  destruct (py_startswith _ key) eqn:Hp; [|done]. by apply py_startswith_spec in Hp.
Qed.

Lemma artifact_owned_iff t rest t' :
  slash ∉ t -> assert_artifact_key_owned_by (sep _ARTIFACT_PREFIX (sep t rest)) t' = Ok tt <->
  t' = t /\ validate_tenant_id t' = Ok t'.
Proof.
  intros Ht. exact (owned_iff t rest t' Ht).
Qed.

Lemma collapse_safe b s : forallb is_safe (collapse_unsafe b s) = true.
Proof.
  revert b. induction s as [|c s IH]; intros b; simpl; [done|].
  destruct (is_safe c) eqn:E; simpl; [by rewrite E, IH|]. destruct b; [done|]. simpl. done.
Qed.

(** ** Building keys *)

Section keys.
Variable nfkc : pystr -> pystr.           (** unicodedata.normalize("NFKC", s) *)
Variable bytes : Type.
Variable sha256_hex : bytes -> pystr.

Definition safe_filename (filename : pystr) : pystr :=
  let base := py_strip (basename (replace_backslash filename)) in
  let base := filter (fun c => (c < 128)%N) (nfkc base) in
  let cleaned := collapse_unsafe false base in
  let cleaned := drop_while (N.eqb dot) cleaned in
  str_or (take _MAX_FILENAME_LEN cleaned) _FALLBACK_FILENAME.

Definition build_key (tenant_id : pystr) (data : bytes) (filename : pystr)
    : res key_error pystr :=
  t ← validate_tenant_id tenant_id;
  Ok (sep t (sep (sha256_hex data) (safe_filename filename))).

Definition build_quarantine_key (tenant_id document_id filename : pystr) : res key_error pystr :=
  t ← validate_tenant_id tenant_id;
  d ← validate_tenant_id document_id;
  Ok (sep t (sep (cp "quarantine") (sep d (safe_filename filename)))).

Definition build_artifact_key (tenant_id : pystr) (data : bytes) (filename : pystr)
    (object_id : option pystr) : res key_error pystr :=
  scope ← (match object_id with
           | Some o => v ← validate_tenant_id o; Ok (sep v [])
           | None => Ok []
           end);
  t ← validate_tenant_id tenant_id;
  Ok (sep _ARTIFACT_PREFIX (sep t (scope ++ sep (sha256_hex data) (safe_filename filename)))).

Definition build_avatar_key (tenant_id user_id : pystr) (data : bytes) (filename : pystr)
    : res key_error pystr :=
  t ← validate_tenant_id tenant_id;
  u ← validate_tenant_id user_id;
  Ok (sep t (sep u (sep (sha256_hex data) (safe_filename filename)))).

(** The slug: safe characters, no leading dot, at most 200, never empty. *)
Lemma safe_filename_spec filename :
  let f := safe_filename filename in
  f <> [] /\ (length f <= 200)%nat /\ forallb is_safe f = true /\ head f <> Some dot.
Proof.
  unfold safe_filename. cbv zeta. set (s := collapse_unsafe false _).
  assert (forallb is_safe (drop_while (N.eqb dot) s) = true) as Hs.
  { pose proof (collapse_safe false (filter (fun c => (c < 128)%N)
      (nfkc (py_strip (basename (replace_backslash filename)))))) as Hc. fold s in Hc.
    destruct (drop_while_suffix (N.eqb dot) s) as (pre & Hpre & _).
    rewrite Hpre, forallb_app in Hc. by apply andb_true_iff in Hc as [_ ?]. }
  destruct (drop_while (N.eqb dot) s) as [|c l] eqn:E; [by vm_compute; intuition (congruence || lia)|].
  apply drop_while_head in E. change (take _MAX_FILENAME_LEN (c :: l)) with (c :: take 199 l).
  cbn [str_or]. split_and!; [done| | |].
  - simpl. rewrite length_take. lia.
  - simpl in *. apply andb_true_iff in Hs as [-> Hs]. by apply forallb_take.
  - simpl. intros [= ->]. by rewrite N.eqb_refl in E.
Qed.
End keys.

(** ** Properties *)

Section properties.
Variable nfkc : pystr -> pystr.
Variable bytes : Type.
Variable sha256_hex : bytes -> pystr.

(** Tenants are isolated by construction.  Every key the module builds
    (content, quarantine, avatar) is accepted by the ownership check of the
    tenant it was built for and refused as cross-tenant for every other valid
    tenant id; artifact keys likewise under the artifact check. *)
Theorem built_keys_isolated t other data filename doc user key
    (Hother : validate_tenant_id other = Ok other)
    (Hkey : build_key nfkc bytes sha256_hex t data filename = Ok key \/
            build_quarantine_key nfkc t doc filename = Ok key \/
            build_avatar_key nfkc bytes sha256_hex t user data filename = Ok key) :
  assert_key_owned_by key t = Ok tt /\
  (other <> t -> assert_key_owned_by key other = Err CrossTenantDenied).
Proof.
  assert (exists rest, validate_tenant_id t = Ok t /\ key = sep t rest) as (rest & Hv & ->).
  { destruct Hkey as [Hk|[Hk|Hk]]; apply bind_ok in Hk as (t' & Hv & Hk);
      pose proof (tenant_segment _ _ Hv) as (-> & _ & _);
      try apply bind_ok in Hk as (d & _ & Hk); injection Hk as <-; eauto. }
  pose proof (tenant_segment _ _ Hv) as (_ & _ & Hn). split; [by apply owned_iff|].
  intros Hne. destruct (assert_key_owned_by (sep t rest) other) as [[]|e] eqn:E.
  - apply owned_iff in E as [? _]; done.
  - unfold assert_key_owned_by in E. rewrite Hother in E. simpl in E.
    destruct (py_startswith _ _); congruence.
Qed.

(** Artifact keys are isolated in the same way, and kept apart from
    uploads: the artifact check accepts an upload key only for an upload tenant
    that is itself called "artifacts". *)
Theorem artifact_keys_isolated t other data filename object_id key
    (Hother : validate_tenant_id other = Ok other)
    (Hkey : build_artifact_key nfkc bytes sha256_hex t data filename object_id = Ok key) :
  assert_artifact_key_owned_by key t = Ok tt /\
  (other <> t -> assert_artifact_key_owned_by key other = Err CrossTenantDenied) /\
  (forall upload_tenant data' filename' upload_key,
     build_key nfkc bytes sha256_hex upload_tenant data' filename' = Ok upload_key ->
     assert_artifact_key_owned_by upload_key other = Ok tt -> upload_tenant = cp "artifacts").
Proof.
  assert (exists rest, validate_tenant_id t = Ok t /\ key = sep _ARTIFACT_PREFIX (sep t rest))
    as (rest & Hv & ->).
  { apply bind_ok in Hkey as (scope & _ & Hkey). apply bind_ok in Hkey as (t' & Hv & Hkey).
    pose proof (tenant_segment _ _ Hv) as (-> & _ & _). injection Hkey as <-. eauto. }
  pose proof (tenant_segment _ _ Hv) as (_ & _ & Hn). split_and!; [by apply artifact_owned_iff| |].
  - intros Hne. destruct (assert_artifact_key_owned_by _ other) as [[]|e] eqn:E.
    + apply artifact_owned_iff in E as [? _]; done.
    + unfold assert_artifact_key_owned_by in E. rewrite Hother in E. unfold mbind, res_bind in E.
      destruct (py_startswith _ _); congruence.
  - intros ut d f uk (ut' & Huv & Huk)%bind_ok Hart.
    pose proof (tenant_segment _ _ Huv) as (-> & _ & Hun). injection Huk as <-.
    apply artifact_owned_prefix in Hart as [y Hy].
    change (sep ut (sep (sha256_hex d) (safe_filename nfkc f)) =
            sep (cp "artifacts") (sep other [] ++ y)) in Hy.
    apply segment_inj in Hy as [-> _]; [done|done|].
    by apply safe_no_slash.
Qed.

(** A client-supplied filename can never escape its segment.  Whatever the
    name and whatever Unicode normalisation yields, the slug is not empty, is
    at most 200 characters of letters, digits, ".", "_" and "-", and does not
    start with a dot; so it holds no slash, no control character and is not a
    relative path. *)
Theorem safe_filename_safe filename :
  let f := safe_filename nfkc filename in
  f <> [] /\ (length f <= 200)%nat /\ forallb is_safe f = true /\
  head f <> Some dot /\ (slash ∉ f) /\ f <> cp "." /\ f <> cp "..".
Proof.
  destruct (safe_filename_spec nfkc filename) as (Hne & Hlen & Hsafe & Hdot).
  cbv zeta. split_and!; try done.
  - by apply safe_no_slash.
  - intros Heq. by rewrite Heq in Hdot.
  - intros Heq. by rewrite Heq in Hdot.
Qed.
End properties.

(** ** Witnesses *)

Section witness.
Lemma built_keys_isolated_witness :
  assert_key_owned_by (cp "t1/abc/x.pdf") (cp "t2") = Err CrossTenantDenied.
Proof.
  apply (built_keys_isolated (fun s => s) unit (fun _ => cp "abc") (cp "t1") (cp "t2") tt
    (cp "../x.pdf") [] [] (cp "t1/abc/x.pdf")); [reflexivity|left; reflexivity|].
  vm_compute. discriminate.
Defined.

Lemma artifact_keys_isolated_witness :
  assert_artifact_key_owned_by (cp "artifacts/t1/abc/x.pdf") (cp "t2") = Err CrossTenantDenied.
Proof.
  apply (artifact_keys_isolated (fun s => s) unit (fun _ => cp "abc") (cp "t1") (cp "t2") tt
    (cp "x.pdf") None (cp "artifacts/t1/abc/x.pdf")); [reflexivity|reflexivity|].
  vm_compute. discriminate.
Defined.

(** The tenant pattern also accepts an id that ends in a newline. *)
Lemma tenant_id_accepts_newline :
  validate_tenant_id (cp "abc" ++ [newline]) = Ok (cp "abc" ++ [newline]).
Proof. reflexivity. Qed.

(** An upload key of a tenant called "artifacts" passes the artifact check of
    the tenant that its hash segment spells. *)
Lemma artifact_namespace_confusion :
  build_key (fun s => s) unit (fun _ => cp "abc") (cp "artifacts") tt (cp "x")
    = Ok (cp "artifacts/abc/x") /\
  assert_artifact_key_owned_by (cp "artifacts/abc/x") (cp "abc") = Ok tt.
Proof. split; reflexivity. Qed.
End witness.
