(* ===== verification/Egress.v ===== *)
(** * The SSRF egress guard

    [backend/app/net/egress.py] (the blocked ranges, resolve-all/reject-any, the
    pinning rewrite) and the fetch chokepoint built on it,
    [backend/app/connectors/web/fetch.py].  The address classes are those of
    Python 3.12's [ipaddress]; literal parsing, DNS, URL splitting and the HTTP
    client are parameters, and DNS and the server may answer differently each
    time they are asked. *)

From stdpp Require Import base list strings sets.
From Stdlib Require Import Lia.
From S2P Require Import Prelude Json.
Open Scope Z_scope.

(** ** Addresses and networks *)

Inductive ip : Type :=
| IPv4 (a : Z)       (** 32 bits *)
| IPv6 (a : Z).      (** 128 bits *)

Definition valid_ip (i : ip) : Prop :=
  match i with IPv4 a => 0 <= a < 2 ^ 32 | IPv6 a => 0 <= a < 2 ^ 128 end.

(** [a in network]: equal leading [len] bits. *)
Record network := mk_net { net_base : Z; net_len : Z }.
Definition in_net (width : Z) (a : Z) (n : network) : bool :=
  Z.eqb (Z.shiftr a (width - net_len n)) (Z.shiftr (net_base n) (width - net_len n)).
Definition in4 := in_net 32.
Definition in6 := in_net 128.

Definition quad (a b c d : Z) : Z := a * 2 ^ 24 + b * 2 ^ 16 + c * 2 ^ 8 + d.
Definition net4 (a b c d len : Z) : network := mk_net (quad a b c d) len.
(** An IPv6 network given by its first three groups. *)
Definition net6 (g1 g2 g3 len : Z) : network :=
  mk_net (g1 * 2 ^ 112 + g2 * 2 ^ 96 + g3 * 2 ^ 80) len.

(** *** IPv4 classes *)
Definition v4_private : list network :=
  [net4 0 0 0 0 8; net4 10 0 0 0 8; net4 127 0 0 0 8; net4 169 254 0 0 16;
   net4 172 16 0 0 12; net4 192 0 0 0 24; net4 192 0 0 170 31; net4 192 0 2 0 24;
   net4 192 168 0 0 16; net4 198 18 0 0 15; net4 198 51 100 0 24; net4 203 0 113 0 24;
   net4 240 0 0 0 4; net4 255 255 255 255 32].
Definition v4_private_exceptions : list network := [net4 192 0 0 9 32; net4 192 0 0 10 32].
Definition v4_loopback := net4 127 0 0 0 8.
Definition v4_link_local := net4 169 254 0 0 16.
Definition v4_multicast := net4 224 0 0 0 4.
Definition v4_reserved := net4 240 0 0 0 4.

(** *** IPv6 classes *)
Definition v6_private : list network :=
  [mk_net 1 128; mk_net 0 128; mk_net (65535 * 2 ^ 32) 96; net6 100 65435 1 48;
   net6 256 0 0 64; net6 8193 0 0 23; net6 8193 3512 0 32; net6 8194 0 0 16;
   net6 64512 0 0 7; net6 65152 0 0 10].
Definition v6_private_exceptions : list network :=
  [mk_net (8193 * 2 ^ 112 + 2 ^ 96 + 1) 128; mk_net (8193 * 2 ^ 112 + 2 ^ 96 + 2) 128;
   net6 8193 3 0 32; net6 8193 4 274 48; net6 8193 32 0 28; net6 8193 48 0 28].
Definition v6_link_local := net6 65152 0 0 10.
Definition v6_multicast := net6 65280 0 0 8.
Definition v6_reserved : list network :=
  [net6 0 0 0 8; net6 256 0 0 8; net6 512 0 0 7; net6 1024 0 0 6; net6 2048 0 0 5;
   net6 4096 0 0 4; net6 16384 0 0 3; net6 24576 0 0 3; net6 32768 0 0 3; net6 40960 0 0 3;
   net6 49152 0 0 3; net6 57344 0 0 4; net6 61440 0 0 5; net6 63488 0 0 6; net6 65024 0 0 9].

Definition is_private (i : ip) : bool :=
  match i with
  | IPv4 a => existsb (in4 a) v4_private && negb (existsb (in4 a) v4_private_exceptions)
  | IPv6 a => existsb (in6 a) v6_private && negb (existsb (in6 a) v6_private_exceptions)
  end.
Definition is_loopback (i : ip) : bool :=
  match i with IPv4 a => in4 a v4_loopback | IPv6 a => Z.eqb a 1 end.
Definition is_link_local (i : ip) : bool :=
  match i with IPv4 a => in4 a v4_link_local | IPv6 a => in6 a v6_link_local end.
Definition is_unspecified (i : ip) : bool :=
  match i with IPv4 a => Z.eqb a 0 | IPv6 a => Z.eqb a 0 end.
Definition is_reserved (i : ip) : bool :=
  match i with IPv4 a => in4 a v4_reserved | IPv6 a => existsb (in6 a) v6_reserved end.
Definition is_multicast (i : ip) : bool :=
  match i with IPv4 a => in4 a v4_multicast | IPv6 a => in6 a v6_multicast end.

(** [ipv4_mapped]: [::ffff:a.b.c.d] *)
Definition ipv4_mapped (a : Z) : option Z :=
  if Z.eqb (Z.shiftr a 32) 65535 then Some (Z.land a (2 ^ 32 - 1)) else None.

(** ** The predicate (net/egress.py) *)

Definition _CGNAT_V4 : network := net4 100 64 0 0 10.

Definition is_blocked_ip (i : ip) : bool :=
  let i := match i with
           | IPv6 a => match ipv4_mapped a with Some b => IPv4 b | None => i end
           | IPv4 _ => i
           end in
  if is_loopback i || is_private i || is_link_local i || is_unspecified i || is_reserved i
     || is_multicast i then true
  else match i with IPv4 a => in4 a _CGNAT_V4 | IPv6 _ => false end.

(** ** Resolving and pinning *)

Inductive egress_error : Type := EgressBlocked.

(** [urlsplit]: [us_port = None] when reading [.port] raises [ValueError]. *)
Record url_parts := mk_url {
  us_scheme : pystr;                     (** lower case *)
  us_netloc : pystr;
  us_hostname : option pystr;
  us_port : option (option Z);
  us_path : pystr;
  us_query : pystr;
  us_fragment : pystr
}.

(** What the guard takes from the standard library and the network: literal
    parsing, the [n]-th DNS lookup of a host, URL splitting and joining. *)
Class Net := {
  ip_address : pystr -> option ip;
  getaddrinfo : nat -> pystr -> option (list pystr);
  urlsplit : pystr -> url_parts;
  urlunsplit : pystr -> pystr -> pystr -> pystr -> pystr -> pystr;
  show_port : Z -> pystr
}.

Section egress.
Context `{Net}.

Definition check_ip_literal (host : pystr) : res egress_error unit :=
  match ip_address host with
  | None => Ok tt
  | Some i => if is_blocked_ip i then Err EgressBlocked else Ok tt
  end.

(** The loop over the resolved addresses: all must pass. *)
Fixpoint check_all (addrs : list pystr) : res egress_error (list pystr) :=
  match addrs with
  | [] => Ok []
  | a :: rest =>
      match ip_address a with
      | None => Err EgressBlocked
      | Some i => if is_blocked_ip i then Err EgressBlocked
                  else resolved ← check_all rest; Ok (a :: resolved)
      end
  end.

(** [resolve_safe_ip], for the lookup number [n]. *)
Definition resolve_safe_ip (n : nat) (host : pystr) : res egress_error pystr :=
  match ip_address host with
  | Some i => if is_blocked_ip i then Err EgressBlocked else Ok host
  | None =>
      match getaddrinfo n host with
      | None => Err EgressBlocked
      | Some infos =>
          resolved ← check_all infos;
          match resolved with [] => Err EgressBlocked | a :: _ => Ok a end
      end
  end.

(** [pin_url_to_ip]; [None] is the [ValueError] of an invalid port. *)
Definition pin_netloc (safe_ip : pystr) (port : option Z) : pystr :=
  let host_literal := if mem 58%N safe_ip then cp "[" ++ safe_ip ++ cp "]" else safe_ip in
  match port with
  | Some p => if Z.eqb p 0 then host_literal else host_literal ++ cp ":" ++ show_port p
  | None => host_literal
  end.
Definition pin_url_to_ip (url safe_ip : pystr) : option pystr :=
  let parts := urlsplit url in
  port ← us_port parts;
  Some (urlunsplit (us_scheme parts) (pin_netloc safe_ip port) (us_path parts)
          (us_query parts) (us_fragment parts)).
End egress.

(** ** The fetch chokepoint (connectors/web/fetch.py) *)

Inductive fetch_error : Type :=
| UrlBlocked
| FetchFailed          (** [ConnectorError] "fetch_failed" *)
| BadPort.             (** the [ValueError] of an invalid port *)

Record response := mk_response {
  rs_redirect : option (option pystr);   (** a redirect and its Location header *)
  rs_success : bool;                     (** a 2xx status *)
  rs_content_type : pystr;
  rs_chunks : list (list Byte.byte);
  rs_encoding : option pystr
}.

Record FetchResult := mk_fetched {
  fr_url : pystr; fr_final_url : pystr; fr_content_type : pystr; fr_text : pystr
}.

(** The HTTP client: the answer to the [n]-th request ([None]: a transport
    error), resolving a Location, decoding a body, and the media type of a
    header ([split(";")], [strip], [lower]). *)
Class HttpClient := {
  http_get : nat -> pystr -> option response;
  join_url : pystr -> pystr -> pystr;
  decode : list Byte.byte -> option pystr -> pystr;
  bare_type : pystr -> pystr
}.

Section fetch.
Context `{Net} `{HttpClient}.

Definition _ALLOWED_SCHEMES : list pystr := [cp "http"; cp "https"].

Definition validate_url_syntactic (url : pystr) : res fetch_error pystr :=
  let parts := urlsplit url in
  if negb (mem (us_scheme parts) _ALLOWED_SCHEMES) then Err UrlBlocked
  else match us_hostname parts with
  | None | Some [] => Err UrlBlocked
  | Some host =>
      match ip_address host with
      | None => Ok host
      | Some i => if is_blocked_ip i then Err UrlBlocked else Ok host
      end
  end.

(** [_validate_url] without the port text, which its caller does not use: the
    validated address and the host. *)
Definition _validate_url (n : nat) (url : pystr) : res fetch_error (pystr * pystr) :=
  host ← validate_url_syntactic url;
  safe_ip ← (match ip_address host with
             | None => match resolve_safe_ip n host with Ok a => Ok a | Err _ => Err UrlBlocked end
             | Some _ => Ok host
             end);
  match us_port (urlsplit url) with None => Err BadPort | Some _ => Ok (safe_ip, host) end.

Definition _check_content_type (content_type : pystr) (allowed : list pystr)
    : res fetch_error pystr :=
  let bare := bare_type content_type in
  match bare with
  | [] => Ok bare
  | _ => if mem bare allowed then Ok bare else Err UrlBlocked
  end.

(** [_read_capped]: the size so far and the chunks kept. *)
Fixpoint _read_capped (max_bytes total : Z) (chunks : list (list Byte.byte))
    : res fetch_error (list Byte.byte) :=
  match chunks with
  | [] => Ok []
  | c :: rest =>
      let total := total + Z.of_nat (length c) in
      if max_bytes <? total then Err UrlBlocked
      else body ← _read_capped max_bytes total rest; Ok (c ++ body)
  end.

(** One request sent: the URL connected to, and the address it is pinned to. *)
Record request := mk_sent { rq_url : pystr; rq_safe_ip : pystr; rq_host : pystr }.

(** What a final response becomes. *)
Definition accept_response (url current : pystr) (max_bytes : Z) (allowed : list pystr)
    (r : response) : res fetch_error FetchResult :=
  if negb (rs_success r) then Err FetchFailed
  else
    bare ← _check_content_type (rs_content_type r) allowed;
    body ← _read_capped max_bytes 0 (rs_chunks r);
    Ok (mk_fetched url current bare (decode body (rs_encoding r))).

(** [hops] iterations of the redirect loop, and the requests it sent; the
    hop number indexes the DNS lookup and the HTTP exchange. *)
Fixpoint fetch_hops (url current : pystr) (max_bytes : Z) (allowed : list pystr)
    (hop hops : nat) : res fetch_error FetchResult * list request :=
  match hops with
  | O => (Err UrlBlocked, [])
  | S hops' =>
      match _validate_url hop current with
      | Err e => (Err e, [])
      | Ok (safe_ip, host) =>
          match pin_url_to_ip current safe_ip with
          | None => (Err BadPort, [])
          | Some pinned =>
              let sent := mk_sent pinned safe_ip host in
              match http_get hop pinned with
              | None => (Err FetchFailed, [sent])
              | Some r =>
                  match rs_redirect r with
                  | Some None | Some (Some []) => (Err UrlBlocked, [sent])
                  | Some (Some location) =>
                      let '(o, log) := fetch_hops url (join_url current location) max_bytes
                                         allowed (S hop) hops' in
                      (o, sent :: log)
                  | None => (accept_response url current max_bytes allowed r, [sent])
                  end
              end
          end
      end
  end.

Definition fetch_url (url : pystr) (max_bytes : Z) (max_redirects : nat) (allowed : list pystr) :=
  fetch_hops url url max_bytes allowed 0 (max_redirects + 1).
End fetch.

(** ** Lemmas: address classes *)

(** A network test as a comparison of quotients. *)
Lemma in_net_div w a n :
  0 <= w - net_len n ->
  in_net w a n = true <-> a / 2 ^ (w - net_len n) = net_base n / 2 ^ (w - net_len n).
Proof. intros Hw. unfold in_net. by rewrite Z.eqb_eq, !Z.shiftr_div_pow2 by done. Qed.

Definition octets (a b c d : Z) : Prop :=
  0 <= a < 256 /\ 0 <= b < 256 /\ 0 <= c < 256 /\ 0 <= d < 256.

(** Evaluate the constants of a network test on a quad and leave it to [lia]. *)
Ltac net_lia :=
  intros; unfold octets in *; unfold in4; rewrite in_net_div by (vm_compute; congruence);
  match goal with |- _ / ?k = ?v <-> _ =>
    let k' := eval vm_compute in k in let v' := eval vm_compute in v in
    change v with v'; change k with k' end;
  unfold quad; change (2 ^ 24) with 16777216; change (2 ^ 16) with 65536; change (2 ^ 8) with 256;
  Z.to_euclidean_division_equations; lia.

(** Prove a disjunction by the first disjunct [lia] proves. *)
Ltac pick_lia := lazymatch goal with
  | |- _ \/ _ => first [left; pick_lia|right; pick_lia]
  | |- false = true => fail
  | |- (_ \/ _) /\ ~ _ => split; [pick_lia|lia]
  | _ => lia
  end.

Section quads.
Context {a b c d : Z} (Ho : octets a b c d).

Lemma q_0 : in4 (quad a b c d) (net4 0 0 0 0 8) = true <-> a = 0. Proof. net_lia. Qed.
Lemma q_10 : in4 (quad a b c d) (net4 10 0 0 0 8) = true <-> a = 10. Proof. net_lia. Qed.
Lemma q_127 : in4 (quad a b c d) (net4 127 0 0 0 8) = true <-> a = 127. Proof. net_lia. Qed.
Lemma q_169 : in4 (quad a b c d) (net4 169 254 0 0 16) = true <-> a = 169 /\ b = 254.
Proof. net_lia. Qed.
Lemma q_172 : in4 (quad a b c d) (net4 172 16 0 0 12) = true <-> a = 172 /\ 16 <= b < 32.
Proof. net_lia. Qed.
Lemma q_192_0_0 : in4 (quad a b c d) (net4 192 0 0 0 24) = true <-> a = 192 /\ b = 0 /\ c = 0.
Proof. net_lia. Qed.
Lemma q_192_170 : in4 (quad a b c d) (net4 192 0 0 170 31) = true <->
  a = 192 /\ b = 0 /\ c = 0 /\ (d = 170 \/ d = 171).
Proof. net_lia. Qed.
Lemma q_192_0_2 : in4 (quad a b c d) (net4 192 0 2 0 24) = true <-> a = 192 /\ b = 0 /\ c = 2.
Proof. net_lia. Qed.
Lemma q_192_168 : in4 (quad a b c d) (net4 192 168 0 0 16) = true <-> a = 192 /\ b = 168.
Proof. net_lia. Qed.
Lemma q_198_18 : in4 (quad a b c d) (net4 198 18 0 0 15) = true <-> a = 198 /\ (b = 18 \/ b = 19).
Proof. net_lia. Qed.
Lemma q_198_51 : in4 (quad a b c d) (net4 198 51 100 0 24) = true <-> a = 198 /\ b = 51 /\ c = 100.
Proof. net_lia. Qed.
Lemma q_203 : in4 (quad a b c d) (net4 203 0 113 0 24) = true <-> a = 203 /\ b = 0 /\ c = 113.
Proof. net_lia. Qed.
Lemma q_240 : in4 (quad a b c d) (net4 240 0 0 0 4) = true <-> 240 <= a. Proof. net_lia. Qed.
Lemma q_255 : in4 (quad a b c d) (net4 255 255 255 255 32) = true <->
  a = 255 /\ b = 255 /\ c = 255 /\ d = 255.
Proof. net_lia. Qed.
Lemma q_224 : in4 (quad a b c d) (net4 224 0 0 0 4) = true <-> 224 <= a < 240. Proof. net_lia. Qed.
Lemma q_9 : in4 (quad a b c d) (net4 192 0 0 9 32) = true <-> a = 192 /\ b = 0 /\ c = 0 /\ d = 9.
Proof. net_lia. Qed.
Lemma q_10' : in4 (quad a b c d) (net4 192 0 0 10 32) = true <-> a = 192 /\ b = 0 /\ c = 0 /\ d = 10.
Proof. net_lia. Qed.
Lemma q_cgnat : in4 (quad a b c d) (net4 100 64 0 0 10) = true <-> a = 100 /\ 64 <= b < 128.
Proof. net_lia. Qed.

(** The blocked IPv4 addresses, octet by octet. *)
Definition blocked_quad (a b c d : Z) : Prop :=
  a = 0 \/ a = 10 \/ a = 127 \/ 224 <= a \/ (a = 100 /\ 64 <= b < 128) \/
  (a = 169 /\ b = 254) \/ (a = 172 /\ 16 <= b < 32) \/ (a = 192 /\ b = 168) \/
  (a = 192 /\ b = 0 /\ c = 0 /\ d <> 9 /\ d <> 10) \/ (a = 192 /\ b = 0 /\ c = 2) \/
  (a = 198 /\ (b = 18 \/ b = 19)) \/ (a = 198 /\ b = 51 /\ c = 100) \/
  (a = 203 /\ b = 0 /\ c = 113).

Lemma private_quad : is_private (IPv4 (quad a b c d)) = true <->
  (a = 0 \/ a = 10 \/ a = 127 \/ (a = 169 /\ b = 254) \/ (a = 172 /\ 16 <= b < 32) \/
   (a = 192 /\ b = 0 /\ c = 0) \/ (a = 192 /\ b = 0 /\ c = 2) \/ (a = 192 /\ b = 168) \/
   (a = 198 /\ (b = 18 \/ b = 19)) \/ (a = 198 /\ b = 51 /\ c = 100) \/
   (a = 203 /\ b = 0 /\ c = 113) \/ 240 <= a) /\
  ~ (a = 192 /\ b = 0 /\ c = 0 /\ (d = 9 \/ d = 10)).
Proof.
  unfold is_private, v4_private, v4_private_exceptions. cbn [existsb].
  rewrite andb_true_iff, negb_true_iff, <-not_true_iff_false, !orb_true_iff.
  rewrite q_0, q_10, q_127, q_169, q_172, q_192_0_0, q_192_170, q_192_0_2, q_192_168,
    q_198_18, q_198_51, q_203, q_240, q_255, q_9, q_10'.
  unfold octets in Ho. split; intros [Hin Hex]; split.
  - clear Hex. destruct_or! Hin; try discriminate Hin; pick_lia.
  - intros He. apply Hex. clear Hin Hex. destruct He as (? & ? & ? & [?|?]); pick_lia.
  - clear Hex. destruct_or! Hin; pick_lia.
  - intros He. apply Hex. clear Hin Hex. destruct_or! He; try discriminate He; pick_lia.
Qed.

Lemma blocked_quad_spec : is_blocked_ip (IPv4 (quad a b c d)) = true <-> blocked_quad a b c d.
Proof.
  assert (forall x y : bool, (if x then true else y) = true <-> x = true \/ y = true) as Hif
    by (intros [] []; simpl; intuition congruence).
  unfold is_blocked_ip. rewrite Hif, !orb_true_iff, private_quad.
  unfold is_loopback, is_link_local, is_unspecified, is_reserved, is_multicast, v4_loopback,
    v4_link_local, v4_reserved, v4_multicast, _CGNAT_V4.
  rewrite q_127, q_169, q_240, q_224, q_cgnat, Z.eqb_eq.
  assert (quad a b c d = 0 <-> a = 0 /\ b = 0 /\ c = 0 /\ d = 0) as ->
    by (unfold quad, octets in *; lia).
  unfold blocked_quad, octets in *. split; intros Hb; destruct_or! Hb;
    try (destruct Hb; destruct_or!); try pick_lia.
  destruct (Z.lt_ge_cases a 240); pick_lia.
Qed.
End quads.

(** ** Lemmas: IPv6 *)

(** An IPv4-mapped address is judged as its IPv4 address. *)
Lemma mapped_spec a : 0 <= a < 2 ^ 32 -> ipv4_mapped (65535 * 2 ^ 32 + a) = Some a.
Proof.
  intros Ha. unfold ipv4_mapped. rewrite Z.shiftr_div_pow2 by lia.
  replace ((65535 * 2 ^ 32 + a) / 2 ^ 32) with 65535
    by (change (2 ^ 32) with 4294967296 in *; Z.to_euclidean_division_equations; lia).
  rewrite Z.eqb_refl. f_equal. change (2 ^ 32 - 1) with (Z.ones 32). rewrite Z.land_ones by lia.
  rewrite Z.add_comm, Z.mod_add by lia. by apply Z.mod_small.
Qed.

(** Reserved, local and multicast space leaves only [2000::/3] and [fec0::/10]. *)
Definition global_unicast_v6 (a : Z) : Prop := a / 2 ^ 125 = 1.
Definition site_local_v6 (a : Z) : Prop := a / 2 ^ 118 = 1019.

(** An IPv6 network test by the first 10 bits. *)
Lemma in6_top a n : net_len n <= 10 -> 0 <= net_len n ->
  in6 a n = true <-> (a / 2 ^ 118) / 2 ^ (10 - net_len n) = (net_base n / 2 ^ 118) / 2 ^ (10 - net_len n).
Proof.
  intros Hl Hl0. unfold in6. rewrite in_net_div by lia.
  replace (128 - net_len n) with (118 + (10 - net_len n)) by lia.
  assert (0 < 2 ^ (10 - net_len n)) by (apply Z.pow_pos_nonneg; lia).
  assert (0 < 2 ^ 118) by (vm_compute; reflexivity).
  rewrite Z.pow_add_r by lia. rewrite !Z.div_div by lia. reflexivity.
Qed.

(** The blocked networks with a prefix of at most 10 bits. *)
Definition short_nets : list network :=
  v6_reserved ++ [v6_multicast; v6_link_local; net6 64512 0 0 7].

Definition short_test (h : Z) (n : network) : bool :=
  Z.eqb (h / 2 ^ (10 - net_len n)) (net_base n / 2 ^ 118 / 2 ^ (10 - net_len n)).

Lemma in6_short a n : n ∈ short_nets -> in6 a n = short_test (a / 2 ^ 118) n.
Proof.
  intros Hn. assert (forallb (fun n => (net_len n <=? 10) && (0 <=? net_len n)) short_nets = true)
    as Hlen by reflexivity.
  rewrite forallb_forall in Hlen. apply list_elem_of_In, Hlen in Hn.
  rewrite andb_true_iff, !Z.leb_le in Hn. destruct Hn.
  apply eq_true_iff_eq. unfold short_test. rewrite Z.eqb_eq. by apply in6_top.
Qed.

(** The tests with their constants evaluated: a quotient and its divisor. *)
Definition short_pairs : list (Z * Z) := Eval vm_compute in
  (fun n => (net_base n / 2 ^ 118 / 2 ^ (10 - net_len n), 2 ^ (10 - net_len n))) <$> short_nets.

Lemma short_pairs_test h :
  existsb (short_test h) short_nets = existsb (fun p => Z.eqb (h / p.2) p.1) short_pairs.
Proof.
  transitivity (existsb (fun p => Z.eqb (h / p.2) p.1)
    ((fun n => (net_base n / 2 ^ 118 / 2 ^ (10 - net_len n), 2 ^ (10 - net_len n))) <$> short_nets)).
  - induction short_nets as [|n l IH]; [done|]. by rewrite fmap_cons; cbn [existsb]; rewrite IH.
  - f_equal.
Qed.

Lemma short_nets_cover h : 0 <= h < 1024 ->
  existsb (short_test h) short_nets = false -> h / 2 ^ 7 = 1 \/ h = 1019.
Proof.
  intros Hh. rewrite short_pairs_test. intros Hf.
  assert (forallb (fun h => existsb (fun p => Z.eqb (h / p.2) p.1) short_pairs
    || Z.eqb (h / 2 ^ 7) 1 || Z.eqb h 1019) (seqZ 0 1024) = true) as Hall
    by (vm_compute; reflexivity).
  rewrite forallb_forall in Hall. specialize (Hall h). cbv beta in Hall.
  rewrite Hf in Hall. rewrite !orb_true_iff, !Z.eqb_eq in Hall.
  destruct Hall as [[?|?]|?]; [|done|by left|by right].
  apply list_elem_of_In, elem_of_seqZ. lia.
Qed.

(** No exception to the private networks lies in [fc00::/7]. *)
Lemma ula_exceptions a e :
  In e v6_private_exceptions -> in6 a e = true -> in6 a (net6 64512 0 0 7) = true -> False.
Proof.
  intros He Hin Hula. apply in6_top in Hula; [|done..].
  assert ((a / 2 ^ 118) = 128) as Htop; [|by rewrite Htop in Hula].
  assert (forallb (fun e => (10 <=? net_len e) && (net_len e <=? 128)
    && Z.eqb (net_base e / 2 ^ 118) 128) v6_private_exceptions = true) as Hall by reflexivity.
  rewrite forallb_forall in Hall. apply Hall in He.
  rewrite !andb_true_iff, !Z.leb_le, Z.eqb_eq in He. destruct He as [[H10 H128] Hbase].
  unfold in6 in Hin. rewrite in_net_div in Hin by lia.
  replace 118 with ((128 - net_len e) + (net_len e - 10)) by lia.
  assert (0 < 2 ^ (128 - net_len e)) by (apply Z.pow_pos_nonneg; lia).
  assert (0 < 2 ^ (net_len e - 10)) by (apply Z.pow_pos_nonneg; lia).
  rewrite Z.pow_add_r, <-Z.div_div by lia. rewrite Hin.
  rewrite Z.div_div, <-Z.pow_add_r by lia.
  by replace ((128 - net_len e) + (net_len e - 10)) with 118 by lia.
Qed.

Lemma unblocked_v6 a : 0 <= a < 2 ^ 128 -> is_blocked_ip (IPv6 a) = false ->
  (exists b, ipv4_mapped a = Some b /\ is_blocked_ip (IPv4 b) = false) \/
  global_unicast_v6 a \/ site_local_v6 a.
Proof.
  intros Ha Hb. unfold is_blocked_ip in Hb |- *.
  destruct (ipv4_mapped a) as [b|]; [left; by exists b|right].
  destruct (is_loopback (IPv6 a) || is_private (IPv6 a) || is_link_local (IPv6 a)
    || is_unspecified (IPv6 a) || is_reserved (IPv6 a) || is_multicast (IPv6 a)) eqn:E; [done|].
  rewrite !orb_false_iff in E. destruct E as (((((_ & Hp) & Hl) & _) & Hr) & Hm). clear Hb.
  assert (existsb (short_test (a / 2 ^ 118)) short_nets = false) as Hs.
  { apply not_true_iff_false. intros (n & Hn & Ht)%existsb_exists.
    apply list_elem_of_In in Hn. rewrite <-in6_short in Ht by done.
    unfold short_nets in Hn. rewrite elem_of_app in Hn. destruct Hn as [Hn|Hn].
    - assert (is_reserved (IPv6 a) = true) as Hr'; [|rewrite Hr' in Hr; discriminate Hr].
      apply existsb_exists. exists n. split; [by apply list_elem_of_In|exact Ht].
    - rewrite !elem_of_cons in Hn. destruct Hn as [->|[->|[->|Hn%elem_of_nil]]]; [| | |done].
      + unfold is_multicast in Hm. rewrite Ht in Hm. discriminate Hm.
      + unfold is_link_local in Hl. rewrite Ht in Hl. discriminate Hl.
      + revert Hp. apply not_false_iff_true. unfold is_private. rewrite andb_true_iff. split.
        * apply existsb_exists. exists (net6 64512 0 0 7). split; [|exact Ht].
          unfold v6_private. do 8 right. by left.
        * apply negb_true_iff, not_true_iff_false. intros (e & He & Hin)%existsb_exists.
          exact (ula_exceptions a e He Hin Ht). }
  apply short_nets_cover in Hs as [Hs|Hs].
  - left. unfold global_unicast_v6. replace 125 with (118 + 7) by lia.
    rewrite Z.pow_add_r, <-Z.div_div by lia. done.
  - by right.
  - split; [apply Z.div_pos; lia|]. apply Z.div_lt_upper_bound; [lia|].
    change (2 ^ 118 * 1024) with (2 ^ 128). lia.
Qed.

(** ** Lemmas: resolving and fetching *)

Section fetch_lemmas.
Context `{Net}.

(** A literal the guard accepts. *)
Definition safe_literal (a : pystr) : Prop :=
  exists i, ip_address a = Some i /\ is_blocked_ip i = false.

Lemma check_all_ok addrs resolved :
  check_all addrs = Ok resolved <-> resolved = addrs /\ Forall safe_literal addrs.
Proof.
  revert resolved. induction addrs as [|a addrs IH]; intros resolved; simpl.
  - split; [by intros [= <-]|by intros [-> _]].
  - rewrite Forall_cons. unfold safe_literal at 1. destruct (ip_address a) as [i|];
      [|split; [done|by intros (_ & (j & [=] & _) & _)]].
    destruct (is_blocked_ip i) eqn:Hb;
      [split; [done|intros (_ & (j & [= <-] & Hj) & _); congruence]|]. rewrite bind_ok. split.
    + intros (r & Hr & [= <-]). apply IH in Hr as [-> ?]. eauto.
    + intros (-> & _ & Hall). exists addrs. split; [by apply IH|done].
Qed.

Lemma resolve_safe n host a :
  resolve_safe_ip n host = Ok a -> safe_literal a.
Proof.
  unfold resolve_safe_ip. destruct (ip_address host) as [i|] eqn:Hi.
  - destruct (is_blocked_ip i) eqn:Hb; [done|]. intros [= <-]. by exists i.
  - destruct (getaddrinfo n host) as [infos|]; [|done].
    intros (r & Hr & Ha)%bind_ok. apply check_all_ok in Hr as [-> Hall].
    destruct infos as [|x infos]; [done|]. injection Ha as <-. by apply Forall_cons in Hall as [? _].
Qed.

Context `{HttpClient}.

Lemma validate_url_ok n url a host :
  _validate_url n url = Ok (a, host) ->
  safe_literal a /\ mem (us_scheme (urlsplit url)) _ALLOWED_SCHEMES = true /\
  us_hostname (urlsplit url) = Some host.
Proof.
  unfold _validate_url, validate_url_syntactic. intros (h & Hh & Hv)%bind_ok.
  destruct (mem _ _) eqn:Hs; simpl in Hh; [|done].
  destruct (us_hostname (urlsplit url)) as [[|c l]|] eqn:Hhost; try done.
  assert (h = c :: l /\ forall i, ip_address (c :: l) = Some i -> is_blocked_ip i = false)
    as [-> Hlit].
  { destruct (ip_address (c :: l)) as [i|]; [|by injection Hh as <-].
    destruct (is_blocked_ip i) eqn:Hb; [done|]. injection Hh as <-. split; [done|]. congruence. }
  apply bind_ok in Hv as (a' & Ha & Hv).
  destruct (us_port (urlsplit url)); [|done]. injection Hv as <- <-. split; [|done].
  destruct (ip_address (c :: l)) as [i|] eqn:Hi.
  - injection Ha as <-. exists i. auto.
  - destruct (resolve_safe_ip n (c :: l)) as [b|] eqn:Hr; [|done]. injection Ha as <-.
    by eapply resolve_safe.
Qed.

(** A request the chokepoint may send. *)
Definition pinned_request (q : request) : Prop :=
  safe_literal (rq_safe_ip q) /\
  exists current port, us_port (urlsplit current) = Some port /\
    mem (us_scheme (urlsplit current)) _ALLOWED_SCHEMES = true /\
    rq_url q = urlunsplit (us_scheme (urlsplit current)) (pin_netloc (rq_safe_ip q) port)
      (us_path (urlsplit current)) (us_query (urlsplit current)) (us_fragment (urlsplit current)).

Lemma read_capped_bound max total chunks body :
  _read_capped max total chunks = Ok body -> body = concat chunks /\
  (total <= max -> total + Z.of_nat (length body) <= max).
Proof.
  revert total body. induction chunks as [|c chunks IH]; intros total body; simpl.
  - intros [= <-]. simpl. split; [done|lia].
  - destruct (Z.ltb_spec max (total + Z.of_nat (length c))); [done|].
    intros (b & Hb & [= <-])%bind_ok. apply IH in Hb as [-> Hb]. split; [done|].
    intros _. rewrite length_app. specialize (Hb ltac:(lia)). lia.
Qed.

Definition fetched_ok (max_bytes : Z) (allowed : list pystr) (o : res fetch_error FetchResult)
    (log : list request) : Prop :=
  match o with
  | Err _ => True
  | Ok fetched => exists hop q rsp body, last log = Some q /\ http_get hop (rq_url q) = Some rsp /\
      rs_redirect rsp = None /\ rs_success rsp = true /\
      (bare_type (rs_content_type rsp) = [] \/ bare_type (rs_content_type rsp) ∈ allowed) /\
      body = concat (rs_chunks rsp) /\ Z.of_nat (length body) <= max_bytes /\
      fr_text fetched = decode body (rs_encoding rsp)
  end.

Lemma accept_ok url current max_bytes allowed rsp fetched :
  0 <= max_bytes -> accept_response url current max_bytes allowed rsp = Ok fetched ->
  rs_success rsp = true /\
  (bare_type (rs_content_type rsp) = [] \/ bare_type (rs_content_type rsp) ∈ allowed) /\
  Z.of_nat (length (concat (rs_chunks rsp))) <= max_bytes /\
  fr_text fetched = decode (concat (rs_chunks rsp)) (rs_encoding rsp).
Proof.
  intros Hmax. unfold accept_response. destruct (rs_success rsp); [|done]. cbn [negb].
  intros (bare & Hb & Hk)%bind_ok. apply bind_ok in Hk as (body & Hbody & [= <-]).
  apply read_capped_bound in Hbody as [-> Hlen]. split_and!; [done| |by apply Hlen|done].
  unfold _check_content_type in Hb. destruct (bare_type _) eqn:E; [by left|right].
  destruct (mem _ allowed) eqn:Hm; [|done]. by apply mem_true.
Qed.

Lemma fetch_hops_spec url max_bytes allowed : 0 <= max_bytes ->
  forall hops current hop o log,
  fetch_hops url current max_bytes allowed hop hops = (o, log) ->
  (length log <= hops)%nat /\ Forall pinned_request log /\ fetched_ok max_bytes allowed o log.
Proof.
  intros Hmax. induction hops as [|hops IH]; intros current hop o log; simpl.
  { intros [= <- <-]. by split_and!. }
  destruct (_validate_url hop current) as [[a host]|e] eqn:Hv;
    [|intros [= <- <-]; split_and!; [simpl; lia|done|done]].
  apply validate_url_ok in Hv as (Ha & Hs & Hh).
  unfold pin_url_to_ip. destruct (us_port (urlsplit current)) as [port|] eqn:Hport; simpl;
    [|intros [= <- <-]; split_and!; [simpl; lia|done|done]].
  set (pinned := urlunsplit _ _ _ _ _). set (q := mk_sent pinned a host).
  assert (pinned_request q) as Hq by (split; [done|by exists current, port]).
  destruct (http_get hop pinned) as [rsp|] eqn:Hget;
    [|intros [= <- <-]; split_and!; [simpl; lia|by apply Forall_singleton|done]].
  destruct (rs_redirect rsp) as [[[|c loc]|]|] eqn:Hr;
    try (intros [= <- <-]; split_and!; [simpl; lia|by apply Forall_singleton|done]).
  - destruct (fetch_hops url (join_url current (c :: loc)) max_bytes allowed (S hop) hops)
      as [o' log'] eqn:Hrec. intros [= <- <-].
    apply IH in Hrec as (Hlen & Hall & Hok). split_and!; [simpl; lia|by constructor|].
    destruct o' as [fetched|]; [|done]. simpl in *.
    destruct Hok as (hop' & q' & rsp' & body & Hlast & Hrest). exists hop', q', rsp', body.
    split; [|done]. by destruct log'.
  - intros [= <- <-]. split_and!; [simpl; lia|by apply Forall_singleton|].
    destruct (accept_response _ _ _ _ _) as [fetched|] eqn:Hacc; [|done]. simpl.
    apply accept_ok in Hacc as (Hsucc & Hty & Hlen & Htext); [|done].
    exists hop, q, rsp, (concat (rs_chunks rsp)). by split_and!.
Qed.
End fetch_lemmas.

(** ** Properties *)

(** Exactly the intended IPv4 addresses are refused, however they are
    written.  An IPv4 address is blocked exactly when it is in this-network,
    private, loopback, carrier-grade NAT, link-local (the cloud metadata address
    included), documentation, benchmarking, multicast or reserved space; its
    IPv4-mapped IPv6 form is judged the same; and any other IPv6 address that is
    let through is a global unicast one ([2000::/3]) or in the deprecated
    site-local block [fec0::/10]. *)
Theorem blocked_ranges_exact a b c d (Ho : 0 <= a < 256 /\ 0 <= b < 256 /\ 0 <= c < 256 /\ 0 <= d < 256) :
  (is_blocked_ip (IPv4 (quad a b c d)) = true <->
    (a = 0 \/ a = 10 \/ a = 127 \/ 224 <= a \/ (a = 100 /\ 64 <= b < 128) \/
     (a = 169 /\ b = 254) \/ (a = 172 /\ 16 <= b < 32) \/ (a = 192 /\ b = 168) \/
     (a = 192 /\ b = 0 /\ c = 0 /\ d <> 9 /\ d <> 10) \/ (a = 192 /\ b = 0 /\ c = 2) \/
     (a = 198 /\ (b = 18 \/ b = 19)) \/ (a = 198 /\ b = 51 /\ c = 100) \/
     (a = 203 /\ b = 0 /\ c = 113))) /\
  is_blocked_ip (IPv6 (65535 * 2 ^ 32 + quad a b c d)) = is_blocked_ip (IPv4 (quad a b c d)) /\
  (forall x, 0 <= x < 2 ^ 128 -> is_blocked_ip (IPv6 x) = false -> ipv4_mapped x = None ->
     x / 2 ^ 125 = 1 \/ x / 2 ^ 118 = 1019).
Proof.
  split_and!.
  - by apply blocked_quad_spec.
  - unfold is_blocked_ip. rewrite mapped_spec; [done|].
    unfold quad. change (2 ^ 32) with 4294967296. change (2 ^ 24) with 16777216.
    change (2 ^ 16) with 65536. change (2 ^ 8) with 256. lia.
  - intros x Hx Hb Hm. apply unblocked_v6 in Hb as [(y & Hy & _)|Hg]; [congruence|done|done].
Qed.

Section properties.
Context `{Net}.

(** Resolve-all, reject-any.  A host is resolved to [a] exactly when it is
    itself an unblocked literal, or it is a name, every address the lookup
    returns parses and is unblocked, and [a] is the first of them. *)
Theorem resolve_rejects_any n host a :
  resolve_safe_ip n host = Ok a <->
  (exists i, ip_address host = Some i /\ is_blocked_ip i = false /\ a = host) \/
  (ip_address host = None /\ exists rest, getaddrinfo n host = Some (a :: rest) /\
     forall x, x ∈ a :: rest -> exists i, ip_address x = Some i /\ is_blocked_ip i = false).
Proof.
  unfold resolve_safe_ip. destruct (ip_address host) as [i|] eqn:Hi.
  - destruct (is_blocked_ip i) eqn:Hb; split.
    + done.
    + intros [(j & [= <-] & Hj & _)|[[=] _]]. congruence.
    + intros [= <-]. left. by exists i.
    + intros [(j & [= <-] & Hj & ->)|[[=] _]]. done.
  - split.
    + destruct (getaddrinfo n host) as [infos|]; [|done].
      intros (r & Hr & Ha)%bind_ok. apply check_all_ok in Hr as [-> Hall].
      destruct infos as [|x infos]; [done|]. injection Ha as <-.
      right. split; [done|]. exists infos. split; [done|]. by apply Forall_forall.
    + intros [(j & [=] & _)|(_ & rest & -> & Hall)].
      apply bind_ok. exists (a :: rest). split; [|done]. apply check_all_ok.
      split; [done|]. by apply Forall_forall.
Qed.

Context `{HttpClient}.

(** C23: the server never connects inside.  Whatever the URL, the DNS answers
    (which may change between lookups) and the redirects, every request the
    fetch chokepoint sends goes over http or https to a URL whose network
    location is an address literal that passed the range check for that very
    hop; at most [max_redirects + 1] requests are sent; and a returned result is
    the body of a final success response of an allowed media type within the
    size cap. *)
Theorem fetch_never_connects_inside url max_bytes max_redirects allowed o log
    (Hmax : 0 <= max_bytes)
    (Hfetch : fetch_url url max_bytes max_redirects allowed = (o, log)) :
  (length log <= max_redirects + 1)%nat /\
  Forall pinned_request log /\ fetched_ok max_bytes allowed o log.
Proof. by apply (fetch_hops_spec url max_bytes allowed Hmax _ url 0). Qed.
End properties.

(** ** Witnesses *)

Section witness.
Lemma blocked_ranges_exact_witness :
  is_blocked_ip (IPv4 (quad 169 254 169 254)) = true /\
  is_blocked_ip (IPv6 (65535 * 2 ^ 32 + quad 127 0 0 1)) = is_blocked_ip (IPv4 (quad 127 0 0 1)).
Proof.
  split; [apply (blocked_ranges_exact 169 254 169 254); lia|].
  apply (blocked_ranges_exact 127 0 0 1). lia.
Defined.

#[local] Instance demo_net : Net := {|
  ip_address s := if decide (s = cp "8.8.8.8") then Some (IPv4 (quad 8 8 8 8)) else None;
  getaddrinfo _ _ := Some [cp "8.8.8.8"];
  urlsplit _ := mk_url (cp "http") (cp "example.com") (Some (cp "example.com")) (Some None)
                  (cp "/") [] [];
  urlunsplit sch net path _ _ := sch ++ cp "://" ++ net ++ path;
  show_port _ := []
|}.
#[local] Instance demo_http : HttpClient := {|
  http_get n _ := Some (if Nat.eqb n 0 then mk_response (Some (Some (cp "/b"))) false [] [] None
                        else mk_response None true (cp "text/html") [[Byte.x61]] None);
  join_url _ l := l;
  decode _ _ := cp "a";
  bare_type s := s
|}.
Definition demo_fetch := fetch_url (cp "http://example.com/") 10 5 [cp "text/html"].

Lemma demo_fetch_eq : fetch_url (cp "http://example.com/") 10 5 [cp "text/html"]
  = (demo_fetch.1, demo_fetch.2).
Proof. apply surjective_pairing. Qed.

Lemma fetch_never_connects_inside_witness :
  is_ok demo_fetch.1 = true /\ length demo_fetch.2 = 2%nat /\ Forall pinned_request demo_fetch.2.
Proof.
  split; [vm_compute; reflexivity|]. split; [vm_compute; reflexivity|].
  exact (proj1 (proj2 (fetch_never_connects_inside (cp "http://example.com/") 10 5
    [cp "text/html"] demo_fetch.1 demo_fetch.2 (Zle_bool_imp_le 0 10 eq_refl) demo_fetch_eq))).
Defined.

(** The deprecated site-local block is not refused. *)
Lemma site_local_passes : is_blocked_ip (IPv6 (65216 * 2 ^ 112 + 1)) = false.
Proof. vm_compute. reflexivity. Qed.
End witness.
