(* ===== verification/Cron.v ===== *)
(** * Cron cadences and the next run

    [backend/app/domain/scheduling.py]: parsing and normalising a five-field cron
    expression, the structured cadences that convert to one, and
    [compute_next_run], which scans the minutes after an instant for the first
    whose local wall clock matches.

    An aware [datetime] is its UTC instant in microseconds since 1970.  A
    [ZoneInfo] is its offset function, from a UTC second to the seconds local
    time is ahead; the tz database that yields it is a parameter, as is the
    table of non-ASCII decimal digits [int] accepts.  The calendar is Python's
    own ordinal algorithm, without its year bounds. *)

From stdpp Require Import base list strings pretty sets.
From Stdlib Require Import Lia ZArith.
From S2P Require Import Prelude.
Open Scope Z_scope.

(** ** Errors

    [InvalidCronError] by what it reports, and [InvalidTimezoneError]. *)
Inductive schedule_error : Type :=
| TimeFormat | TimeRange | DayOfWeekRange | DayOfMonthRange
| BadStep | StepNotPositive | BadRange | BadValue | FieldRange | FieldEmpty
| FieldCount (n : nat) | NoFireTime
| InvalidTimezone.

Inductive CadenceUnit : Type := DAY | WEEK | MONTH.

Record StructuredCadence := mk_structured {
  every : CadenceUnit;
  at_time : pystr;
  day_of_week : option Z;
  day_of_month : option Z
}.

Record Cadence := mk_cadence {
  cron : pystr;
  structured : option StructuredCadence
}.

(** ** [int(s)] *)

Section parsing.
(** The decimal value of a non-ASCII digit. *)
Context (unicode_digit : N -> option Z).

Definition decimal_value (c : N) : option Z :=
  if (c <? 128)%N then
    if ((48 <=? c) && (c <=? 57))%N then Some (Z.of_N c - 48) else None
  else unicode_digit c.

(** Digits with single underscores between them; [digit]: the last character
    was one; at most 4300 digits. *)
Fixpoint parse_digits (acc : Z) (count : N) (digit : bool) (s : pystr) : option Z :=
  match s with
  | [] => if digit && (count <=? 4300)%N then Some acc else None
  | c :: s' =>
      if N.eqb c 95 then if digit then parse_digits acc count false s' else None
      else match decimal_value c with
           | Some d => parse_digits (acc * 10 + d) (count + 1)%N true s'
           | None => None
           end
  end.

Definition py_int (s : pystr) : option Z :=
  match py_strip s with
  | 45%N :: s' => Z.opp <$> parse_digits 0 0 false s'
  | 43%N :: s' => parse_digits 0 0 false s'
  | s' => parse_digits 0 0 false s'
  end.

(** ** Structured cadences *)

Definition _validate_hh_mm (at_ : pystr) : res schedule_error (Z * Z) :=
  match py_split 58 at_ with
  | [h; m] =>
      match py_int h, py_int m with
      | Some hour, Some minute =>
          if (0 <=? hour) && (hour <=? 23) && (0 <=? minute) && (minute <=? 59)
          then Ok (hour, minute) else Err TimeRange
      | _, _ => Err TimeFormat
      end
  | _ => Err TimeFormat
  end.

(** [f"{n}"] *)
Definition py_of_int (n : Z) : pystr := cp (pretty n).

Definition space_join (l : list pystr) : pystr := py_join [32%N] l.
Definition star : pystr := cp "*".

Definition _structured_to_cron (sc : StructuredCadence) : res schedule_error pystr :=
  hm ← _validate_hh_mm (at_time sc);
  let '(hour, minute) := (hm : Z * Z) in
  match every sc with
  | DAY => Ok (space_join [py_of_int minute; py_of_int hour; star; star; star])
  | WEEK =>
      let dow := default 1 (day_of_week sc) in
      if (0 <=? dow) && (dow <=? 6)
      then Ok (space_join [py_of_int minute; py_of_int hour; star; star; py_of_int dow])
      else Err DayOfWeekRange
  | MONTH =>
      let dom := default 1 (day_of_month sc) in
      if (1 <=? dom) && (dom <=? 31)
      then Ok (space_join [py_of_int minute; py_of_int hour; py_of_int dom; star; star])
      else Err DayOfMonthRange
  end.

Definition cadence_from_structured (sc : StructuredCadence) : res schedule_error Cadence :=
  c ← _structured_to_cron sc; Ok (mk_cadence c (Some sc)).

(** ** Cron fields *)

(** [range(start, end + 1, step)] *)
Fixpoint range_from (fuel : nat) (start stop step : Z) : list Z :=
  match fuel with
  | O => []
  | S fuel => if start <=? stop then start :: range_from fuel (start + step) stop step else []
  end.
Definition py_range (start stop step : Z) : list Z :=
  range_from (Z.to_nat (stop - start + 1)) start stop step.

(** One comma-separated part of a field. *)
Definition parse_part (low high : Z) (part : pystr) : res schedule_error (list Z) :=
  let '(body, step_str) := py_partition 47 part in
  step ← (match step_str with
          | None => Ok 1
          | Some s => match py_int s with
                      | None => Err BadStep
                      | Some step => if step <=? 0 then Err StepNotPositive else Ok step
                      end
          end : res schedule_error Z);
  bounds ← (if bool_decide (body = star) then Ok (low, high)
            else match py_partition 45 body with
                 | (start_str, Some end_str) =>
                     match py_int start_str, py_int end_str with
                     | Some start, Some stop => Ok (start, stop)
                     | _, _ => Err BadRange
                     end
                 | (_, None) => match py_int body with
                                | Some n => Ok (n, n)
                                | None => Err BadValue
                                end
                 end : res schedule_error (Z * Z));
  let '(start, stop) := (bounds : Z * Z) in
  if (start <? low) || (high <? stop) || (stop <? start) then Err FieldRange
  else Ok (py_range start stop step).

Fixpoint parse_parts (low high : Z) (parts : list pystr) : res schedule_error (list Z) :=
  match parts with
  | [] => Ok []
  | p :: parts =>
      values ← parse_part low high p; rest ← parse_parts low high parts; Ok (values ++ rest)
  end.

(** [_parse_field]; a [frozenset] is the list of its elements. *)
Definition _parse_field (spec : pystr) (low high : Z) : res schedule_error (list Z) :=
  values ← parse_parts low high (py_split 44 spec);
  match values with [] => Err FieldEmpty | _ => Ok values end.

Definition _FIELD_BOUNDS : list (Z * Z) := [(0, 59); (0, 23); (1, 31); (1, 12); (0, 6)].

(** The loop of [_parse_cron] over the fields and their bounds. *)
Fixpoint check_fields (fields : list pystr) (bounds : list (Z * Z)) : res schedule_error unit :=
  match fields, bounds with
  | f :: fields, b :: bounds => _ ← _parse_field f b.1 b.2; check_fields fields bounds
  | _, _ => Ok tt
  end.

Definition _parse_cron (c : pystr) : res schedule_error pystr :=
  let fields := py_words (py_strip c) in
  if Nat.eqb (length fields) 5 then
    _ ← check_fields fields _FIELD_BOUNDS; Ok (space_join fields)
  else Err (FieldCount (length fields)).

Definition cadence_from_cron (c : pystr) : res schedule_error Cadence :=
  normalized ← _parse_cron c; Ok (mk_cadence normalized None).

Record _CronFields := mk_fields {
  minutes : list Z;
  hours : list Z;
  days_of_month : list Z;
  months : list Z;
  days_of_week : list Z
}.

(** [fields[i]] of an expression with fewer fields raises [IndexError]; every
    stored cadence has five. *)
Definition _cron_fields (c : pystr) : res schedule_error _CronFields :=
  match py_words (py_strip c) with
  | f0 :: f1 :: f2 :: f3 :: f4 :: _ =>
      m ← _parse_field f0 0 59; h ← _parse_field f1 0 23; dom ← _parse_field f2 1 31;
      mon ← _parse_field f3 1 12; dow ← _parse_field f4 0 6;
      Ok (mk_fields m h dom mon dow)
  | fields => Err (FieldCount (length fields))
  end.
End parsing.

(** ** Wall-clock time *)

Definition SECOND : Z := 1000000.
Definition MINUTE : Z := 60 * SECOND.
Definition DAY_US : Z := 86400 * SECOND.

(** Days before the year, from 0001-01-01 ([_days_before_year]). *)
Definition _is_leap (y : Z) : bool :=
  (y mod 4 =? 0) && (negb (y mod 100 =? 0) || (y mod 400 =? 0)).

(** [_days_before_month[m]] for months 1 to 12, and the days of the month. *)
Definition _DAYS_BEFORE_MONTH : list Z := [0; 0; 31; 59; 90; 120; 151; 181; 212; 243; 273; 304; 334].
Definition _DAYS_IN_MONTH : list Z := [0; 31; 28; 31; 30; 31; 30; 31; 31; 30; 31; 30; 31].

(** [_ord2ymd] of Python's datetime: the date of a proleptic Gregorian ordinal. *)
Definition _ord2ymd (n : Z) : Z * Z * Z :=
  let n := n - 1 in
  let n400 := n / 146097 in
  let n := n mod 146097 in
  let n100 := n / 36524 in
  let n := n mod 36524 in
  let n4 := n / 1461 in
  let n := n mod 1461 in
  let n1 := n / 365 in
  let n := n mod 365 in
  let year := n400 * 400 + 1 + n100 * 100 + n4 * 4 + n1 in
  if (n1 =? 4) || (n100 =? 4) then (year - 1, 12, 31)
  else
    let leapyear := (n1 =? 3) && (negb (n4 =? 24) || (n100 =? 3)) in
    let month := Z.shiftr (n + 50) 5 in
    let preceding := nth (Z.to_nat month) _DAYS_BEFORE_MONTH 0
                     + (if (2 <? month) && leapyear then 1 else 0) in
    if n <? preceding then
      let month := month - 1 in
      let preceding := preceding - (nth (Z.to_nat month) _DAYS_IN_MONTH 0
                                    + (if (month =? 2) && leapyear then 1 else 0)) in
      (year, month, n - preceding + 1)
    else (year, month, n - preceding + 1).

(** The wall-clock fields the code reads, of local microseconds since 1970. *)
Record wall := mk_wall {
  w_year : Z; w_month : Z; w_day : Z; w_hour : Z; w_minute : Z;
  w_weekday : Z                     (** [weekday()]: Monday is 0 *)
}.

(** 1970-01-01 has ordinal 719163. *)
Definition wall_of (local : Z) : wall :=
  let ordinal := local / DAY_US + 719163 in
  let '(y, m, d) := _ord2ymd ordinal in
  mk_wall y m d (local / (60 * MINUTE) mod 24) (local / MINUTE mod 60) ((ordinal + 6) mod 7).

(** A time zone: seconds ahead of UTC at a UTC second. *)
Definition ZoneInfo : Type := Z -> Z.

(** [t.astimezone(tz)] *)
Definition astimezone (tz : ZoneInfo) (t : Z) : Z := t + tz (t / SECOND) * SECOND.

(** [frozenset] equality. *)
Definition set_eqb (a b : list Z) : bool :=
  forallb (fun x => mem x b) a && forallb (fun x => mem x a) b.

Definition z_range (lo : Z) (n : nat) : list Z := (fun i => lo + Z.of_nat i) <$> seq 0 n.

Definition _matches (fields : _CronFields) (local : wall) : bool :=
  if negb (mem (w_minute local) (minutes fields)) then false
  else if negb (mem (w_hour local) (hours fields)) then false
  else if negb (mem (w_month local) (months fields)) then false
  else
    let dom_restricted := negb (set_eqb (days_of_month fields) (z_range 1 31)) in
    let dow_restricted := negb (set_eqb (days_of_week fields) (z_range 0 7)) in
    let cron_dow := (w_weekday local + 1) mod 7 in
    let dom_ok := mem (w_day local) (days_of_month fields) in
    let dow_ok := mem cron_dow (days_of_week fields) in
    if dom_restricted && dow_restricted then dom_ok || dow_ok
    else if dom_restricted then dom_ok
    else if dow_restricted then dow_ok
    else true.

Definition _MAX_LOOKAHEAD_MINUTES : Z := 366 * 2 * 24 * 60.

(** The scan: the first matching minute among [fuel] from [candidate]. *)
Fixpoint scan (fuel : nat) (fields : _CronFields) (tz : ZoneInfo) (candidate : Z) : option Z :=
  match fuel with
  | O => None
  | S fuel =>
      if _matches fields (wall_of (astimezone tz candidate)) then Some candidate
      else scan fuel fields tz (candidate + MINUTE)
  end.

Section next_run.
Context (unicode_digit : N -> option Z).
(** [ZoneInfo(name)], [None] when it raises. *)
Context (zoneinfo : pystr -> option ZoneInfo).

Definition validate_timezone (name : pystr) : res schedule_error ZoneInfo :=
  if blank name then Err InvalidTimezone
  else match zoneinfo name with Some tz => Ok tz | None => Err InvalidTimezone end.

Definition next_minute (after : Z) : Z := (after / MINUTE + 1) * MINUTE.

(** [compute_next_run]; [after] is the instant, now by default. *)
Definition compute_next_run (cadence : Cadence) (timezone : pystr) (after : Z)
    : res schedule_error Z :=
  tz ← validate_timezone timezone;
  fields ← _cron_fields unicode_digit (cron cadence);
  match scan (Z.to_nat _MAX_LOOKAHEAD_MINUTES) fields tz (next_minute after) with
  | Some t => Ok t
  | None => Err NoFireTime
  end.
End next_run.

(** ** Words *)

(** A non-empty string without whitespace. *)
Definition is_word (w : pystr) : Prop :=
  w <> [] /\ Forall (fun c => py_isspace c = false) w.

Lemma words_from_app w x s :
  Forall (fun c => py_isspace c = false) x -> words_from w (x ++ s) = words_from (w ++ x) s.
Proof.
  intros Hx. revert w. induction Hx as [|c x Hc Hx IH]; intros w; simpl;
    [by rewrite app_nil_r|]. by rewrite Hc, IH, <-app_assoc.
Qed.

Lemma words_join ws : Forall is_word ws -> py_words (space_join ws) = ws.
Proof.
  unfold py_words. induction 1 as [|x l [Hne Hx] Hl IH]; [done|].
  destruct l as [|y l]; cbn [space_join py_join].
  - rewrite <-(app_nil_r x) at 1. rewrite words_from_app by done. simpl. by destruct x.
  - rewrite words_from_app by done. simpl. destruct x; [done|]. f_equal. exact IH.
Qed.

Lemma words_are_words w s :
  Forall (fun c => py_isspace c = false) w -> Forall is_word (words_from w s).
Proof.
  revert w. induction s as [|c s IH]; intros w Hw; simpl.
  - destruct w; constructor; [|constructor]. by split.
  - destruct (py_isspace c) eqn:Ec.
    + destruct w; [by apply IH|]. constructor; [by split|by apply IH].
    + apply IH, Forall_app. by repeat constructor.
Qed.

Lemma words_from_spaces w s sp :
  forallb py_isspace sp = true -> words_from w (s ++ sp) = words_from w s.
Proof.
  intros Hsp. revert w. induction s as [|c s IH]; intros w; simpl.
  - revert w. induction sp as [|c sp IH]; intros w; [done|]. simpl in *.
    apply andb_true_iff in Hsp as [-> Hsp]. rewrite !IH by done. by destruct w.
  - destruct (py_isspace c), w; by rewrite ?IH.
Qed.

Lemma words_strip s : py_words (py_strip s) = py_words s.
Proof.
  unfold py_words, py_strip, py_rstrip, py_lstrip.
  transitivity (words_from [] (drop_while py_isspace s)).
  - generalize (drop_while py_isspace s). intros l.
    destruct (drop_while_suffix py_isspace (reverse l)) as (l' & Hl & Hp).
    apply (f_equal reverse) in Hl. rewrite reverse_involutive, reverse_app in Hl.
    rewrite Hl at 2. symmetry. apply words_from_spaces. by rewrite forallb_reverse.
  - induction s as [|c s IH]; [done|]. simpl. by destruct (py_isspace c) eqn:E; simpl; rewrite ?E.
Qed.

(** ** Parsed fields *)

Lemma elem_of_range_from fuel start stop step x :
  0 < step -> x ∈ range_from fuel start stop step -> start <= x <= stop.
Proof.
  intros Hs. revert start. induction fuel as [|fuel IH]; intros start; simpl.
  - by intros ?%elem_of_nil.
  - destruct (Z.leb_spec start stop); [|by intros ?%elem_of_nil].
    intros [->|Hx%IH]%elem_of_cons; lia.
Qed.

Lemma py_range_nonempty start stop step : start <= stop -> py_range start stop step <> [].
Proof.
  intros Hs. unfold py_range. destruct (Z.to_nat (stop - start + 1)) eqn:E; [lia|]. simpl.
  by rewrite (proj2 (Z.leb_le start stop)) by done.
Qed.

(** A field's values lie within its bounds, and there is one. *)
Definition field_ok (low high : Z) (values : list Z) : Prop :=
  values <> [] /\ forall x, x ∈ values -> low <= x <= high.

Definition fields_ok (f : _CronFields) : Prop :=
  field_ok 0 59 (minutes f) /\ field_ok 0 23 (hours f) /\ field_ok 1 31 (days_of_month f) /\
  field_ok 1 12 (months f) /\ field_ok 0 6 (days_of_week f).

Section parsed.
Context (ud : N -> option Z).

Lemma parse_part_ok low high p values :
  parse_part ud low high p = Ok values -> field_ok low high values.
Proof.
  unfold parse_part. destruct (py_partition 47 p) as [body step_str].
  intros (step & Hstep & ([start stop] & _ & Hv)%bind_ok)%bind_ok.
  assert (0 < step) as Hpos.
  { destruct step_str as [s|]; [|simplify_eq; lia].
    destruct (py_int ud s); [|done]. destruct (Z.leb_spec z 0); simplify_eq. lia. }
  destruct ((start <? low) || (high <? stop) || (stop <? start)) eqn:E; simplify_eq.
  rewrite !orb_false_iff, !Z.ltb_ge in E. destruct E as [[? ?] ?].
  split; [by apply py_range_nonempty|]. intros x Hx%elem_of_range_from; lia.
Qed.

Lemma parse_parts_ok low high parts values x :
  parse_parts ud low high parts = Ok values -> x ∈ values -> low <= x <= high.
Proof.
  revert values. induction parts as [|p parts IH]; intros values; cbn [parse_parts].
  - intros [= <-]. by intros ?%elem_of_nil.
  - intros (v & Hv%parse_part_ok & (rest & Hr & [= <-])%bind_ok)%bind_ok.
    intros [Hx|Hx]%elem_of_app; [by apply Hv|by eapply IH].
Qed.

Lemma parse_field_ok spec low high values :
  _parse_field ud spec low high = Ok values -> field_ok low high values.
Proof.
  unfold _parse_field. intros (v & Hv & Hr)%bind_ok.
  destruct v as [|y v]; simplify_eq. split; [done|]. intros x. by eapply parse_parts_ok.
Qed.

Lemma parse_cron_inv c n :
  _parse_cron ud c = Ok n ->
  n = space_join (py_words c) /\ py_words n = py_words c /\
  exists f, _cron_fields ud c = Ok f /\ fields_ok f.
Proof.
  unfold _parse_cron, _cron_fields. rewrite words_strip.
  pose proof (words_are_words [] c (Forall_nil_2 _)) as Hw. fold (py_words c) in Hw.
  destruct (Nat.eqb_spec (length (py_words c)) 5) as [Hl|]; [|done].
  intros (u & Hc & [= <-])%bind_ok. split_and!; [done|by apply words_join|].
  destruct (py_words c) as [|f0 [|f1 [|f2 [|f3 [|f4 [|]]]]]]; try done.
  cbn [check_fields _FIELD_BOUNDS fst snd] in Hc.
  apply bind_ok in Hc as (m & Hm & (h & Hh & (dm & Hdm & (mo & Hmo & (dw & Hdw & _)%bind_ok)%bind_ok)%bind_ok)%bind_ok).
  rewrite Hm, Hh, Hdm, Hmo, Hdw. eexists. split; [done|].
  apply parse_field_ok in Hm, Hh, Hdm, Hmo, Hdw.
  exact (conj Hm (conj Hh (conj Hdm (conj Hmo Hdw)))).
Qed.
End parsed.

(** ** The scan *)

(** [fires f tz t]: the schedule fires at the instant [t]. *)
Definition fires (f : _CronFields) (tz : ZoneInfo) (t : Z) : bool :=
  _matches f (wall_of (astimezone tz t)).

Lemma scan_Some fuel f tz t0 t :
  scan fuel f tz t0 = Some t ->
  fires f tz t = true /\ exists k : nat, (k < fuel)%nat /\ t = t0 + Z.of_nat k * MINUTE /\
    forall j : nat, (j < k)%nat -> fires f tz (t0 + Z.of_nat j * MINUTE) = false.
Proof.
  revert t0. induction fuel as [|fuel IH]; intros t0; cbn [scan]; [done|].
  destruct (_matches f (wall_of (astimezone tz t0))) eqn:E.
  - intros [= <-]. split; [done|]. exists O. split_and!; [lia|lia|lia].
  - intros (Ht & k & Hk & -> & Hmin)%IH. split; [done|]. exists (S k).
    split_and!; [lia|lia|]. intros [|j] Hj.
    + unfold fires. by rewrite Z.add_0_r.
    + rewrite <-(Hmin j) by lia. f_equal. lia.
Qed.

Lemma scan_None fuel f tz t0 :
  scan fuel f tz t0 = None <->
  forall k : nat, (k < fuel)%nat -> fires f tz (t0 + Z.of_nat k * MINUTE) = false.
Proof.
  revert t0. induction fuel as [|fuel IH]; intros t0; cbn [scan]; [split; [lia|done]|].
  destruct (_matches f (wall_of (astimezone tz t0))) eqn:E.
  - split; [done|]. intros Hk. specialize (Hk O ltac:(lia)). unfold fires in Hk.
    rewrite Z.add_0_r in Hk. congruence.
  - rewrite IH. split.
    + intros H [|k] Hk; [unfold fires; by rewrite Z.add_0_r|].
      rewrite <-(H k) by lia. f_equal. lia.
    + intros H k Hk. rewrite <-(H (S k)) by lia. f_equal. lia.
Qed.

(** ** The calendar *)

(** The month and the day of a date are in range, by the days of the two kinds
    of year. *)
Lemma month_table :
  forallb (fun leapyear : bool => forallb (fun i =>
    let n := Z.of_nat i in
    let month := Z.shiftr (n + 50) 5 in
    let preceding := nth (Z.to_nat month) _DAYS_BEFORE_MONTH 0
                     + (if (2 <? month) && leapyear then 1 else 0) in
    let m := if n <? preceding then month - 1 else month in (1 <=? m) && (m <=? 12))
    (seq 0 365)) [true; false] = true.
Proof. vm_compute. reflexivity. Qed.

Lemma ord2ymd_month n y m d : _ord2ymd n = (y, m, d) -> 1 <= m <= 12.
Proof.
  unfold _ord2ymd. set (n1 := ((n - 1) mod 146097) mod 36524 mod 1461 / 365).
  set (n' := (((n - 1) mod 146097) mod 36524 mod 1461) mod 365).
  destruct ((n1 =? 4) || _); [intros [= <- <- <-]; lia|].
  set (leapyear := (n1 =? 3) && _).
  assert (0 <= n' < 365) as Hn by (apply Z.mod_pos_bound; lia).
  pose proof month_table as Ht. rewrite forallb_forall in Ht.
  specialize (Ht leapyear ltac:(destruct leapyear; simpl; auto)). rewrite forallb_forall in Ht.
  specialize (Ht (Z.to_nat n')). cbv zeta in Ht. rewrite Z2Nat.id in Ht by lia.
  specialize (Ht ltac:(apply in_seq; lia)).
  apply andb_true_iff in Ht as [H1 H2]. apply Z.leb_le in H1, H2.
  destruct (n' <? _); intros [= <- <- <-]; lia.
Qed.

Lemma wall_month local : 1 <= w_month (wall_of local) <= 12.
Proof.
  unfold wall_of. destruct (_ord2ymd _) as [[y m] d] eqn:E. simpl. by eapply ord2ymd_month.
Qed.

(** ** Printed numbers parse back *)

Definition printed_ok (ud : N -> option Z) (n : Z) : Prop :=
  py_int ud (py_of_int n) = Some n /\ is_word (py_of_int n) /\ py_of_int n <> star /\
  py_split 44 (py_of_int n) = [py_of_int n] /\
  (py_partition 47 (py_of_int n)).2 = None /\ py_partition 45 (py_of_int n) = (py_of_int n, None).

Lemma z_range_elem lo n x : x ∈ z_range lo n <-> lo <= x < lo + Z.of_nat n.
Proof.
  unfold z_range. rewrite list_elem_of_fmap. split.
  - intros (i & -> & Hi%elem_of_seq). lia.
  - intros Hx. exists (Z.to_nat (x - lo)). split; [lia|]. apply elem_of_seq. lia.
Qed.

Lemma printed_numbers ud n : 0 <= n <= 59 -> printed_ok ud n.
Proof.
  intros Hn. assert (n ∈ z_range 0 60) as Hin by (apply z_range_elem; lia). clear Hn. revert n Hin.
  apply Forall_forall. unfold printed_ok, is_word. apply (bool_decide_unpack _). by vm_compute.
Qed.

Section cadences.
Context (ud : N -> option Z).

Lemma py_range_one n : py_range n n 1 = [n].
Proof.
  unfold py_range. replace (Z.to_nat (n - n + 1)) with 1%nat by lia. simpl.
  by rewrite Z.leb_refl.
Qed.

(** A printed number is a field of that one value. *)
Lemma number_field n low high :
  0 <= n <= 59 -> low <= n <= high -> _parse_field ud (py_of_int n) low high = Ok [n].
Proof.
  intros Hn Hb. destruct (printed_numbers ud n Hn) as (Hint & _ & Hstar & Hsplit & Hslash & Hdash).
  unfold _parse_field. rewrite Hsplit. cbn [parse_parts]. unfold parse_part.
  destruct (py_partition 47 (py_of_int n)) as [body o] eqn:Ep. simpl in Hslash. subst o.
  assert (body = py_of_int n) as ->.
  { revert body Ep. clear. generalize (py_of_int n). intros l. induction l as [|c l IH]; simpl;
      [congruence|]. destruct (N.eqb c 47); [done|]. destruct (py_partition 47 l) as [a b].
    intros body [= <- ->]. f_equal. by apply IH. }
  cbn [mbind res_bind]. rewrite bool_decide_eq_false_2 by done. rewrite Hdash, Hint.
  cbn [mbind res_bind]. rewrite py_range_one.
  rewrite (proj2 (Z.ltb_ge n low)), (proj2 (Z.ltb_ge high n)), Z.ltb_irrefl by lia. done.
Qed.

Lemma star_fields :
  _parse_field ud star 0 59 = Ok (z_range 0 60) /\ _parse_field ud star 0 23 = Ok (z_range 0 24) /\
  _parse_field ud star 1 31 = Ok (z_range 1 31) /\ _parse_field ud star 1 12 = Ok (z_range 1 12) /\
  _parse_field ud star 0 6 = Ok (z_range 0 7).
Proof. split_and!; vm_compute; reflexivity. Qed.

(** The expression of five words, each a field. *)
Lemma five_fields f0 f1 f2 f3 f4 m h dm mo dw :
  Forall is_word [f0; f1; f2; f3; f4] ->
  _parse_field ud f0 0 59 = Ok m -> _parse_field ud f1 0 23 = Ok h ->
  _parse_field ud f2 1 31 = Ok dm -> _parse_field ud f3 1 12 = Ok mo ->
  _parse_field ud f4 0 6 = Ok dw ->
  let c := space_join [f0; f1; f2; f3; f4] in
  _parse_cron ud c = Ok c /\ _cron_fields ud c = Ok (mk_fields m h dm mo dw).
Proof.
  intros Hw H0 H1 H2 H3 H4 c. unfold _parse_cron, _cron_fields, c.
  rewrite words_strip, words_join by done. cbn [length Nat.eqb check_fields _FIELD_BOUNDS fst snd].
  by rewrite H0, H1, H2, H3, H4.
Qed.

Lemma star_word : is_word star.
Proof. split; [done|]. repeat constructor. Qed.

Lemma validate_hh_mm_range at_ h m :
  _validate_hh_mm ud at_ = Ok (h, m) -> 0 <= h <= 23 /\ 0 <= m <= 59.
Proof.
  unfold _validate_hh_mm. destruct (py_split 58 at_) as [|a [|b [|]]]; try done.
  destruct (py_int ud a), (py_int ud b); try done.
  destruct (_ && _) eqn:E; [|done]. intros [= <- <-].
  rewrite !andb_true_iff, !Z.leb_le in E. lia.
Qed.

(** The days a structured cadence fires on. *)
Definition cadence_day (sc : StructuredCadence) (w : wall) : Prop :=
  match every sc with
  | DAY => True
  | WEEK => (w_weekday w + 1) mod 7 = default 1 (day_of_week sc)
  | MONTH => w_day w = default 1 (day_of_month sc)
  end.

(** The fields of its cron expression. *)
Definition structured_fields (sc : StructuredCadence) (h m : Z) : _CronFields :=
  mk_fields [m] [h]
    (match every sc with MONTH => [default 1 (day_of_month sc)] | _ => z_range 1 31 end)
    (z_range 1 12)
    (match every sc with WEEK => [default 1 (day_of_week sc)] | _ => z_range 0 7 end).

Lemma structured_cron sc c :
  _structured_to_cron ud sc = Ok c ->
  _parse_cron ud c = Ok c /\
  exists h m, _validate_hh_mm ud (at_time sc) = Ok (h, m) /\
    _cron_fields ud c = Ok (structured_fields sc h m).
Proof.
  unfold _structured_to_cron. intros ([h m] & Hhm & Hc)%bind_ok.
  destruct (validate_hh_mm_range _ _ _ Hhm) as [Hh Hm].
  destruct star_fields as (_ & _ & S2 & S3 & S4). pose proof star_word as Hs.
  assert (forall n, 0 <= n <= 59 -> is_word (py_of_int n)) as Hw by (intros; by apply printed_numbers).
  unfold structured_fields. destruct (every sc).
  - injection Hc as <-.
    destruct (five_fields (py_of_int m) (py_of_int h) star star star [m] [h]
      (z_range 1 31) (z_range 1 12) (z_range 0 7)) as [Hp Hf];
      [rewrite !Forall_cons; split_and!; auto; apply Hw; lia|by apply number_field; lia..|done|done|done|].
    split; [exact Hp|]. by exists h, m.
  - destruct (_ && _) eqn:E; [|done]. injection Hc as <-.
    rewrite andb_true_iff, !Z.leb_le in E. set (d := default 1 (day_of_week sc)) in *.
    destruct (five_fields (py_of_int m) (py_of_int h) star star (py_of_int d) [m] [h]
      (z_range 1 31) (z_range 1 12) [d]) as [Hp Hf];
      [rewrite !Forall_cons; split_and!; auto; apply Hw; lia|by apply number_field; lia..|done|done
      |by apply number_field; lia|].
    split; [exact Hp|]. by exists h, m.
  - destruct (_ && _) eqn:E; [|done]. injection Hc as <-.
    rewrite andb_true_iff, !Z.leb_le in E. set (d := default 1 (day_of_month sc)) in *.
    destruct (five_fields (py_of_int m) (py_of_int h) (py_of_int d) star star [m] [h]
      [d] (z_range 1 12) (z_range 0 7)) as [Hp Hf];
      [rewrite !Forall_cons; split_and!; auto; apply Hw; lia|by apply number_field; lia..|done|done|].
    split; [exact Hp|]. by exists h, m.
Qed.
End cadences.

Lemma mem_z_range x lo n : mem x (z_range lo n) = true <-> lo <= x < lo + Z.of_nat n.
Proof. rewrite mem_true. apply z_range_elem. Qed.

Lemma set_eqb_refl l : set_eqb l l = true.
Proof.
  unfold set_eqb. assert (forallb (fun x => mem x l) l = true) as ->; [|done].
  apply forallb_forall. intros x Hx. by apply mem_true, list_elem_of_In.
Qed.

(** A single value is a restriction. *)
Lemma set_eqb_single d lo n : (2 <= n)%nat -> set_eqb [d] (z_range lo n) = false.
Proof.
  intros Hn. apply andb_false_iff. right. apply not_true_iff_false. rewrite forallb_forall.
  intros H. assert (forall x, x ∈ z_range lo n -> x = d) as Hd.
  { intros x Hx%list_elem_of_In. specialize (H x Hx).
    apply mem_true, list_elem_of_singleton in H. done. }
  pose proof (Hd lo ltac:(apply z_range_elem; lia)).
  pose proof (Hd (lo + 1) ltac:(apply z_range_elem; lia)). lia.
Qed.

(** When a structured cadence matches a wall clock. *)
Lemma structured_matches sc h m w :
  1 <= w_month w <= 12 ->
  _matches (structured_fields sc h m) w = true <->
  w_hour w = h /\ w_minute w = m /\ cadence_day sc w.
Proof.
  intros Hmo. unfold _matches, structured_fields, cadence_day.
  cbn [minutes hours days_of_month months days_of_week].
  assert (mem (w_month w) (z_range 1 12) = true) as -> by (apply mem_z_range; lia).
  assert (forall a b : Z, mem a [b] = bool_decide (a = b)) as Hsing.
  { intros a b. apply bool_decide_ext, list_elem_of_singleton. }
  rewrite !Hsing. repeat case_bool_decide; simpl; try (split; [done|tauto]).
  destruct (every sc); rewrite ?set_eqb_refl, ?set_eqb_single, ?Hsing by lia; simpl;
    rewrite ?bool_decide_eq_true; tauto.
Qed.

(** ** Instants and wall clocks *)

Lemma next_minute_after t : t < next_minute t <= t + MINUTE /\ next_minute t mod MINUTE = 0.
Proof.
  unfold next_minute. split; [|apply Z.mod_mul; done].
  pose proof (Z.div_mod t MINUTE ltac:(done)). pose proof (Z.mod_pos_bound t MINUTE ltac:(done)).
  unfold MINUTE, SECOND in *. lia.
Qed.

(** The aligned instants after [t] are those the scan visits. *)
Lemma aligned_visited t u :
  t < u -> u mod MINUTE = 0 -> exists k : nat, u = next_minute t + Z.of_nat k * MINUTE.
Proof.
  intros Hu Ha. exists (Z.to_nat (u / MINUTE - (t / MINUTE + 1))).
  pose proof (Z.div_mod u MINUTE ltac:(done)) as Hd. rewrite Ha in Hd.
  assert (t / MINUTE < u / MINUTE) as Hlt.
  { apply Z.div_lt_upper_bound; [done|]. lia. }
  rewrite Z2Nat.id by lia. unfold next_minute. lia.
Qed.

Section runs.
Context (ud : N -> option Z) (zoneinfo : pystr -> option ZoneInfo).

(** What the scan of a valid cadence answers. *)
Lemma next_run_spec c tzname tz f after :
  validate_timezone zoneinfo tzname = Ok tz -> _cron_fields ud (cron c) = Ok f ->
  match compute_next_run ud zoneinfo c tzname after with
  | Ok t => fires f tz t = true /\ after < t /\ t mod MINUTE = 0 /\
      t <= after + _MAX_LOOKAHEAD_MINUTES * MINUTE /\
      forall u, after < u < t -> u mod MINUTE = 0 -> fires f tz u = false
  | Err e => e = NoFireTime /\
      forall u, after < u -> u mod MINUTE = 0 ->
        u < next_minute after + _MAX_LOOKAHEAD_MINUTES * MINUTE -> fires f tz u = false
  end.
Proof.
  intros Htz Hf. unfold compute_next_run. rewrite Htz, Hf. cbn [mbind res_bind].
  destruct (next_minute_after after) as [Hn Ha].
  assert (0 < MINUTE) as Hpos by done.
  destruct (scan _ _ _ _) as [t|] eqn:Es.
  - apply scan_Some in Es as (Ht & k & Hk & Heq & Hmin). split_and!; [done|lia| | |].
    + subst t. by rewrite Z.mod_add.
    + assert (Z.of_nat k <= _MAX_LOOKAHEAD_MINUTES - 1) by lia. nia.
    + intros u [Hu1 Hu2] Hua. destruct (aligned_visited _ _ Hu1 Hua) as [j ->].
      apply Hmin. nia.
  - split; [done|]. intros u Hu Hua Hlt. destruct (aligned_visited _ _ Hu Hua) as [j ->].
    rewrite scan_None in Es. apply Es. nia.
Qed.

Lemma wall_clock local :
  w_hour (wall_of local) = local / (60 * MINUTE) mod 24 /\
  w_minute (wall_of local) = local / MINUTE mod 60.
Proof. unfold wall_of. by destruct (_ord2ymd _) as [[??]?]. Qed.

(** Within any 1440 minutes, one shows the given time of day. *)
Lemma minute_of_day n h m :
  0 <= h <= 23 -> 0 <= m <= 59 ->
  exists k, 0 <= k < 1440 /\ forall local, local = (n + k) * MINUTE ->
    w_hour (wall_of local) = h /\ w_minute (wall_of local) = m.
Proof.
  intros Hh Hm. exists ((h * 60 + m - n) mod 1440).
  pose proof (Z.mod_pos_bound (h * 60 + m - n) 1440 ltac:(lia)) as Hk. split; [done|].
  intros local ->. destruct (wall_clock ((n + (h * 60 + m - n) mod 1440) * MINUTE)) as [-> ->].
  assert (exists q, n + (h * 60 + m - n) mod 1440 = 1440 * q + h * 60 + m) as [q ->].
  { exists (- ((h * 60 + m - n) / 1440)).
    pose proof (Z.div_mod (h * 60 + m - n) 1440 ltac:(lia)). lia. }
  rewrite (Z.mul_comm 60), <-Z.div_div by done. rewrite Z.div_mul by done.
  split.
  - replace (1440 * q + h * 60 + m) with (m + (24 * q + h) * 60) by lia.
    rewrite Z.div_add by lia. rewrite Z.div_small by lia.
    replace (0 + (24 * q + h)) with (h + q * 24) by lia. rewrite Z.mod_add by lia.
    apply Z.mod_small. lia.
  - replace (1440 * q + h * 60 + m) with (m + (24 * q + h) * 60) by lia.
    rewrite Z.mod_add by lia. apply Z.mod_small. lia.
Qed.

(** In a zone of constant offset a daily cadence has a fire within a day. *)
Lemma daily_fire_exists sc h m off after :
  every sc = DAY -> 0 <= h <= 23 -> 0 <= m <= 59 -> off mod 60 = 0 ->
  exists u, after < u <= after + DAY_US /\ u mod MINUTE = 0 /\
    fires (structured_fields sc h m) (fun _ => off) u = true.
Proof.
  intros He Hh Hm Hoff. destruct (next_minute_after after) as [Hn Ha].
  destruct (minute_of_day (next_minute after / MINUTE + off / 60) h m Hh Hm) as (k & Hk & Hw).
  exists (next_minute after + k * MINUTE). split_and!.
  - unfold MINUTE, SECOND in *. lia.
  - unfold DAY_US, MINUTE, SECOND in *. lia.
  - by rewrite Z.mod_add.
  - unfold fires. apply structured_matches; [apply wall_month|].
    pose proof (Z.div_mod (next_minute after) MINUTE ltac:(done)) as Hd. rewrite Ha in Hd.
    pose proof (Z.div_mod off 60 ltac:(done)) as Ho. rewrite Hoff in Ho.
    destruct (Hw (astimezone (fun _ => off) (next_minute after + k * MINUTE))) as [-> ->].
    { unfold astimezone. unfold MINUTE, SECOND in *. lia. }
    split_and!; [done|done|]. unfold cadence_day. by rewrite He.
Qed.
End runs.

(** ** Properties *)

Section properties.
Context (ud : N -> option Z) (zoneinfo : pystr -> option ZoneInfo).

(** A raw cron expression that is accepted is stored in a normal form that is
    accepted unchanged and has the same fields, every one of them non-empty and
    within its bounds; so computing a stored cadence's next run in a known time
    zone never fails for its syntax. *)
Theorem cron_normal_form (c : pystr) (cad : Cadence) (tzname : pystr) (after : Z) :
  cadence_from_cron ud c = Ok cad ->
  cadence_from_cron ud (cron cad) = Ok cad /\
  _cron_fields ud (cron cad) = _cron_fields ud c /\
  (exists f, _cron_fields ud c = Ok f /\ fields_ok f) /\
  match compute_next_run ud zoneinfo cad tzname after with
  | Ok _ => True
  | Err e => e = NoFireTime \/ e = InvalidTimezone
  end.
Proof.
  unfold cadence_from_cron. intros (n & Hn & [= <-])%bind_ok. simpl.
  destruct (parse_cron_inv ud c n Hn) as (Heq & Hwords & f & Hf & Hok).
  assert (_cron_fields ud n = _cron_fields ud c) as Hfields.
  { unfold _cron_fields. by rewrite !words_strip, Hwords. }
  split_and!; [|done|by exists f|].
  - unfold _parse_cron in *. rewrite words_strip in *. rewrite Hwords.
    destruct (Nat.eqb _ 5); [|done]. destruct (check_fields _ _ _); [|done].
    cbn [mbind res_bind] in *. by rewrite <-Heq.
  - unfold compute_next_run. destruct (validate_timezone zoneinfo tzname) as [tz|e] eqn:Etz.
    + cbn [mbind res_bind cron]. rewrite Hfields, Hf. cbn [mbind res_bind].
      destruct (scan _ _ _ _); [done|by left].
    + right. unfold validate_timezone in Etz. by repeat case_match; simplify_eq.
Qed.

(** A structured cadence converts to a cron expression that parses back
    unchanged, and that matches exactly the wall clocks at its time of day on
    its days: every day, its weekday (Monday by default), or its day of the
    month (the first by default). *)
Theorem structured_round_trip (sc : StructuredCadence) (cad : Cadence) :
  cadence_from_structured ud sc = Ok cad ->
  structured cad = Some sc /\ _parse_cron ud (cron cad) = Ok (cron cad) /\
  exists h m f, _validate_hh_mm ud (at_time sc) = Ok (h, m) /\
    _cron_fields ud (cron cad) = Ok f /\
    forall local, _matches f (wall_of local) = true <->
      w_hour (wall_of local) = h /\ w_minute (wall_of local) = m /\
      cadence_day sc (wall_of local).
Proof.
  unfold cadence_from_structured. intros (c & Hc & [= <-])%bind_ok. simpl.
  destruct (structured_cron ud sc c Hc) as (Hp & h & m & Hhm & Hf). split_and!; [done|done|].
  exists h, m, (structured_fields sc h m). split_and!; [done|done|].
  intros local. apply structured_matches, wall_month.
Qed.

(** C37: The next run is the first whole minute strictly after the given instant
    whose local wall clock matches the cadence, and a fire time is missing only
    when no minute of the two years ahead matches. *)
Theorem next_run_is_first (cad : Cadence) (tzname : pystr) (tz : ZoneInfo) (f : _CronFields)
    (after : Z) :
  validate_timezone zoneinfo tzname = Ok tz -> _cron_fields ud (cron cad) = Ok f ->
  match compute_next_run ud zoneinfo cad tzname after with
  | Ok t => fires f tz t = true /\ after < t /\ t mod MINUTE = 0 /\
      t <= after + _MAX_LOOKAHEAD_MINUTES * MINUTE /\
      forall u, after < u < t -> u mod MINUTE = 0 -> fires f tz u = false
  | Err e => e = NoFireTime /\
      forall u, after < u -> u mod MINUTE = 0 ->
        u < next_minute after + _MAX_LOOKAHEAD_MINUTES * MINUTE -> fires f tz u = false
  end.
Proof. apply next_run_spec. Qed.

(** In a zone of constant whole-minute offset, a daily cadence always has a
    next run, at most a day away, at its local time of day. *)
Theorem daily_run_within_a_day (sc : StructuredCadence) (cad : Cadence) (tzname : pystr)
    (off after : Z) :
  every sc = DAY -> cadence_from_structured ud sc = Ok cad ->
  validate_timezone zoneinfo tzname = Ok (fun _ => off) -> off mod 60 = 0 ->
  exists t h m, compute_next_run ud zoneinfo cad tzname after = Ok t /\
    after < t <= after + DAY_US /\ _validate_hh_mm ud (at_time sc) = Ok (h, m) /\
    w_hour (wall_of (t + off * SECOND)) = h /\ w_minute (wall_of (t + off * SECOND)) = m.
Proof.
  unfold cadence_from_structured. intros Hd (c & Hc & [= <-])%bind_ok Htz Hoff.
  destruct (structured_cron ud sc c Hc) as (_ & h & m & Hhm & Hf).
  destruct (validate_hh_mm_range _ _ _ _ Hhm) as [Hh Hm].
  destruct (daily_fire_exists sc h m off after Hd Hh Hm Hoff) as (u & Hu & Hua & Hfire).
  pose proof (next_run_spec ud zoneinfo (mk_cadence c (Some sc)) tzname _ _ after Htz Hf) as Hspec.
  destruct (compute_next_run _ _ _ _ _) as [t|e].
  - destruct Hspec as (Ht & Hat & _ & _ & Hmin). exists t, h, m.
    apply structured_matches in Ht as (<- & <- & _); [|apply wall_month].
    split_and!; try done. destruct (Z.le_gt_cases t u) as [|Hgt]; [lia|].
    rewrite (Hmin u ltac:(lia) Hua) in Hfire. done.
  - destruct Hspec as [_ Hnone]. rewrite Hnone in Hfire; [done|lia|done|].
    destruct (next_minute_after after). unfold DAY_US, _MAX_LOOKAHEAD_MINUTES, MINUTE, SECOND in *. lia.
Qed.
End properties.

(** ** Concrete inputs *)

Definition demo_digit : N -> option Z := fun _ => None.
Definition demo_zone (name : pystr) : option ZoneInfo :=
  if decide (name = cp "UTC") then Some (fun _ => 0)
  else if decide (name = cp "Asia/Kolkata") then Some (fun _ => 19800)
  else None.

Definition workday : Cadence := mk_cadence (cp "0,30 9-17/4 * * 1-5") None.
Definition daily : StructuredCadence := mk_structured DAY (cp "08:05") None None.
Definition daily_cadence : Cadence := mk_cadence (cp "5 8 * * *") (Some daily).
(** 2024-02-29T00:00:30Z *)
Definition leap_day : Z := 1709164830 * SECOND.

Lemma cron_normal_form_witness :
  cadence_from_cron demo_digit (cp "  0,30 9-17/4  * * 1-5 ") = Ok workday /\
  cadence_from_cron demo_digit (cron workday) = Ok workday.
Proof.
  assert (cadence_from_cron demo_digit (cp "  0,30 9-17/4  * * 1-5 ") = Ok workday) as Hc
    by (vm_compute; reflexivity).
  split; [exact Hc|].
  exact (proj1 (cron_normal_form demo_digit demo_zone _ workday (cp "UTC") leap_day Hc)).
Defined.

Lemma structured_round_trip_witness :
  cadence_from_structured demo_digit daily = Ok daily_cadence /\
  _parse_cron demo_digit (cron daily_cadence) = Ok (cron daily_cadence).
Proof.
  assert (cadence_from_structured demo_digit daily = Ok daily_cadence) as Hc
    by (vm_compute; reflexivity).
  split; [exact Hc|]. exact (proj1 (proj2 (structured_round_trip demo_digit daily daily_cadence Hc))).
Defined.

Definition daily_fields : _CronFields := structured_fields daily 8 5.

Lemma next_run_is_first_witness :
  match compute_next_run demo_digit demo_zone daily_cadence (cp "UTC") leap_day with
  | Ok t => fires daily_fields (fun _ => 0) t = true /\ leap_day < t
  | Err e => e = NoFireTime
  end.
Proof.
  pose proof (next_run_is_first demo_digit demo_zone daily_cadence (cp "UTC") (fun _ => 0)
    daily_fields leap_day ltac:(vm_compute; reflexivity) ltac:(vm_compute; reflexivity)) as H.
  destruct (compute_next_run _ _ _ _ _).
  - exact (conj (proj1 H) (proj1 (proj2 H))).
  - exact (proj1 H).
Defined.

Lemma daily_run_within_a_day_witness :
  exists t, compute_next_run demo_digit demo_zone daily_cadence (cp "Asia/Kolkata") leap_day = Ok t
    /\ t <= leap_day + DAY_US.
Proof.
  destruct (daily_run_within_a_day demo_digit demo_zone daily daily_cadence (cp "Asia/Kolkata")
    19800 leap_day eq_refl ltac:(vm_compute; reflexivity) ltac:(vm_compute; reflexivity)
    ltac:(reflexivity)) as (t & h & m & Ht & [_ Hle] & _).
  exists t. split; [exact Ht|exact Hle].
Defined.

(** A yearly job on 29 February is a valid cadence with a fire time, but its
    next run is refused as impossible from March of a leap year until two years
    before the next one: the lookahead is shorter than the four years between
    leap days. *)
Definition leap_job : Cadence := mk_cadence (cp "0 0 29 2 *") None.
Definition leap_fields : _CronFields := mk_fields [0] [0] [29] [2] (z_range 0 7).
(** 2024-03-01T00:00:00Z and 2028-02-29T00:00:00Z *)
Definition after_leap : Z := 1709251200 * SECOND.
Definition next_leap : Z := 1835395200 * SECOND.

(** No day from 2024-03-01 to 2026-03-03 is a 29 February. *)
Lemma no_leap_day :
  forallb (fun i => let '(y, m, d) := _ord2ymd (19783 + Z.of_nat i + 719163) in
                    negb ((m =? 2) && (d =? 29))) (seq 0 733) = true.
Proof. vm_compute. reflexivity. Qed.

Lemma leap_fields_date w :
  _matches leap_fields w = true -> w_month w = 2 /\ w_day w = 29.
Proof.
  unfold _matches, leap_fields. cbn [minutes hours days_of_month months days_of_week].
  rewrite set_eqb_single, set_eqb_refl by lia. simpl.
  destruct (mem (w_minute w) [0]), (mem (w_hour w) [0]), (mem (w_month w) [2]) eqn:E; try done.
  simpl. intros Hd. apply mem_true, list_elem_of_singleton in E, Hd. done.
Qed.

Example leap_job_refused :
  cadence_from_cron demo_digit (cron leap_job) = Ok leap_job /\
  fires leap_fields (fun _ => 0) next_leap = true /\
  compute_next_run demo_digit demo_zone leap_job (cp "UTC") after_leap = Err NoFireTime.
Proof.
  split_and!; [vm_compute; reflexivity..|].
  pose proof (next_run_spec demo_digit demo_zone leap_job (cp "UTC") (fun _ => 0) leap_fields
    after_leap ltac:(vm_compute; reflexivity) ltac:(vm_compute; reflexivity)) as H.
  destruct (compute_next_run _ _ _ _ _) as [t|e]; [|by destruct H as [-> _]].
  destruct H as (Hf & Hlo & _ & Hhi & _). exfalso. unfold fires, astimezone in Hf.
  rewrite Z.add_0_r in Hf. apply leap_fields_date in Hf. unfold wall_of in Hf.
  pose proof no_leap_day as Hno. rewrite forallb_forall in Hno.
  assert (19783 <= t / DAY_US < 20516) as Hd.
  { unfold after_leap, DAY_US, _MAX_LOOKAHEAD_MINUTES, MINUTE, SECOND in *.
    split; [apply Z.div_le_lower_bound; lia|apply Z.div_lt_upper_bound; lia]. }
  specialize (Hno (Z.to_nat (t / DAY_US - 19783)) ltac:(apply in_seq; lia)).
  rewrite Z2Nat.id in Hno by lia.
  replace (19783 + (t / DAY_US - 19783) + 719163) with (t / DAY_US + 719163) in Hno by lia.
  destruct (_ord2ymd (t / DAY_US + 719163)) as [[y m] d]. simpl in Hf. destruct Hf as [-> ->]. done.
Qed.
