(* ===== verification/Runs.v ===== *)
(** * Headless runs: claims, retries, terminals and controls

    [RunRepository] of [backend/app/db/repositories.py],
    [backend/app/services/runs_service.py] (enqueue, [execute_run], the terminal
    backstop, the stale-run reaper, the owner controls) and
    [backend/app/domain/escalation.py].

    Each database transaction is a step; its reads and its compare-and-set
    update are separate steps, so duplicate deliveries, crashes, the reaper and
    owner controls interleave between them.  A conditional [UPDATE ...
    RETURNING] holds the row lock until its transaction commits, so what the
    transaction writes after it is atomic with it.  Instants are microseconds. *)

From stdpp Require Import base list strings gmap.
From Stdlib Require Import Lia ZArith.
From S2P Require Import Prelude Json AuditLog.
Open Scope Z_scope.

(** ** Entities (domain/entities.py) *)

Inductive RunStatus : Type := QUEUED | RUNNING | SUCCEEDED | FAILED | ESCALATED.
Global Instance RunStatus_eq : EqDecision RunStatus.
Proof. solve_decision. Defined.

Inductive RunTrigger : Type := SCHEDULE | MANUAL.

Record RunError := mk_error { err_code : pystr; err_message : pystr }.

Record Run := mk_run {
  run_id : uuid;
  run_tenant : uuid;
  run_owner : uuid;
  run_assistant : uuid;
  run_version : option uuid;
  run_schedule : option uuid;
  run_session : option uuid;
  run_trigger : RunTrigger;
  run_status : RunStatus;
  run_inputs : dict;
  run_summary : option pystr;
  run_message : option uuid;
  run_error : option RunError;
  started_at : option Z;
  finished_at : option Z;
  created_at : Z
}.

Definition terminal_status (s : RunStatus) : bool :=
  match s with SUCCEEDED | FAILED | ESCALATED => true | _ => false end.
Definition is_terminal (r : Run) : bool := terminal_status (run_status r).

(** ** Escalation (domain/escalation.py) *)

Definition ESCALATION_REASONS : list pystr :=
  [cp "ambiguous"; cp "missing_required_input"; cp "restricted_data"; cp "tool_failed";
   cp "approval_required"].
Definition _RUNTIME_CODE_ALIASES : list (pystr * pystr) :=
  [(cp "approval_denied", cp "approval_required"); (cp "forbidden", cp "restricted_data");
   (cp "permission_denied", cp "restricted_data"); (cp "tool_error", cp "tool_failed")].
Definition _TRANSIENT_REASONS : list pystr :=
  [cp "dependency_unavailable"; cp "model_unavailable"; cp "service_unavailable"].

Definition normalize_reason (code : pystr) : pystr :=
  match dict_get code _RUNTIME_CODE_ALIASES with Some reason => reason | None => code end.

Definition is_transient (error : option RunError) : bool :=
  match error with None => false | Some e => mem (err_code e) _TRANSIENT_REASONS end.

Definition should_escalate (error : option RunError) : bool :=
  match error with
  | None => false
  | Some e => mem (normalize_reason (err_code e)) ESCALATION_REASONS
  end.

Definition classify_terminal (status : RunStatus) (error : option RunError) : RunStatus :=
  if bool_decide (status = FAILED) && should_escalate error then ESCALATED else status.

(** ** The store *)

Inductive run_event : Type :=
| EvAudit (action : AuditAction) (run : uuid) (actor : uuid) (metadata : list (pystr * pystr))
| EvSteps (run : uuid)                        (** the sink's transcript is persisted *)
| EvDeliver (run : uuid) (delivered : bool)   (** [_deliver_terminal_run], and its result *)
| EvDenied (resource : pystr) (id : uuid).    (** a recorded permission denial *)

Record rundb := mk_rundb { rows : gmap uuid Run; events : list run_event }.

Definition emit (e : run_event) (db : rundb) : rundb := mk_rundb (rows db) (events db ++ [e]).

(** [RunRepository.get] *)
Definition get_run (t id : uuid) (db : rundb) : option Run :=
  r ← rows db !! id; if bool_decide (run_tenant r = t) then Some r else None.

Definition get_status (t id : uuid) (db : rundb) : option RunStatus :=
  run_status <$> get_run t id db.

(** [UPDATE runs SET f WHERE tenant AND id AND cond RETURNING *] *)
Definition update_where (t id : uuid) (cond : Run -> bool) (f : Run -> Run) (db : rundb)
    : option Run * rundb :=
  match get_run t id db with
  | Some r => if cond r then (Some (f r), mk_rundb (<[id := f r]> (rows db)) (events db))
              else (None, db)
  | None => (None, db)
  end.

Definition set_status (s : RunStatus) (started finished : option Z) (error : option RunError)
    (r : Run) : Run :=
  mk_run (run_id r) (run_tenant r) (run_owner r) (run_assistant r) (run_version r)
    (run_schedule r) (run_session r) (run_trigger r) s (run_inputs r) (run_summary r)
    (run_message r) error started finished (created_at r).
Definition set_outputs (summary : option pystr) (message session : option uuid) (r : Run) : Run :=
  mk_run (run_id r) (run_tenant r) (run_owner r) (run_assistant r) (run_version r)
    (run_schedule r) (match session with Some _ => session | None => run_session r end)
    (run_trigger r) (run_status r) (run_inputs r)
    (match summary with Some _ => summary | None => run_summary r end)
    (match message with Some _ => message | None => run_message r end)
    (run_error r) (started_at r) (finished_at r) (created_at r).
Definition set_owner (owner : uuid) (r : Run) : Run :=
  mk_run (run_id r) (run_tenant r) owner (run_assistant r) (run_version r)
    (run_schedule r) (run_session r) (run_trigger r) (run_status r) (run_inputs r) (run_summary r)
    (run_message r) (run_error r) (started_at r) (finished_at r) (created_at r).

(** [RunRepository.create]; [id] is fresh. *)
Definition create_run (t id owner assistant : uuid) (version schedule : option uuid)
    (trigger : RunTrigger) (inputs : dict) (now : Z) (db : rundb) : Run * rundb :=
  let r := mk_run id t owner assistant version schedule None trigger QUEUED inputs None None None
             None None now in
  (r, mk_rundb (<[id := r]> (rows db)) (events db)).

Definition count_active_for_schedule (t schedule : uuid) (db : rundb) : nat :=
  length (filter (fun p : uuid * Run =>
    run_tenant p.2 = t /\ run_schedule p.2 = Some schedule /\
    (run_status p.2 = QUEUED \/ run_status p.2 = RUNNING)) (map_to_list (rows db))).

(** SQL [started_at = :expected]; [IS NULL] for [None]. *)
Definition same_start (expected : option Z) (r : Run) : bool :=
  bool_decide (started_at r = expected).

Definition mark_running (t id : uuid) (started : Z) (expected : option Z) : rundb -> option Run * rundb :=
  update_where t id (fun r => bool_decide (run_status r = QUEUED) && same_start expected r)
    (fun r => set_status RUNNING (Some started) (finished_at r) (run_error r) r).

Definition fail_stale_running (t id : uuid) (older_than finished : Z) (error : RunError)
    : rundb -> option Run * rundb :=
  update_where t id
    (fun r => (bool_decide (run_status r = RUNNING)
               || bool_decide (run_status r = QUEUED)
                  && match started_at r with Some _ => true | None => false end)
              && (default (created_at r) (started_at r) <? older_than))
    (fun r => set_status FAILED (started_at r) (Some finished) (Some error) r).

Definition attach_session (t id session : uuid) (db : rundb) : rundb :=
  (update_where t id (fun r => bool_decide (run_status r = RUNNING))
     (set_outputs None None (Some session)) db).2.

(** [WHERE]'s optional conjuncts: an absent argument constrains nothing. *)
Definition expects_status (s : option RunStatus) (r : Run) : bool :=
  match s with Some s => bool_decide (run_status r = s) | None => true end.
Definition expects_start (s : option Z) (r : Run) : bool :=
  match s with Some _ => same_start s r | None => true end.

Definition mark_queued (t id : uuid) (expected : option RunStatus) (preserve : bool)
    (expected_start : option Z) : rundb -> option Run * rundb :=
  update_where t id (fun r => expects_status expected r && expects_start expected_start r)
    (fun r => set_status QUEUED (if preserve then started_at r else None) None None r).

Definition reassign_owner (t id owner : uuid) : rundb -> option Run * rundb :=
  update_where t id (fun _ => true) (set_owner owner).

Definition mark_terminal (t id : uuid) (status : RunStatus) (finished : Z)
    (summary : option pystr) (message session : option uuid) (error : option RunError)
    (expected : option RunStatus) (expected_start : option Z) : rundb -> option Run * rundb :=
  update_where t id (fun r => expects_status expected r && expects_start expected_start r)
    (fun r => set_outputs summary message session
                (set_status status (started_at r) (Some finished) error r)).

(** ** Enqueueing *)

Inductive AssistantStatus : Type := DRAFT | PUBLISHED | DISABLED.
Global Instance AssistantStatus_eq : EqDecision AssistantStatus.
Proof. solve_decision. Defined.

Record Assistant := mk_assistant {
  as_id : uuid; as_owner : uuid; as_status : AssistantStatus
}.

(** What the request path answers with: 404, 409 and 422. *)
Inductive app_error : Type :=
| NotFoundError
| ConflictError (code : pystr)
| ValidationError (code : pystr).

(** [enqueue_manual_run], given the assistant and its head version. *)
Definition enqueue_manual_run (t id owner assistant_id : uuid) (assistant : option Assistant)
    (head : option uuid) (trigger : RunTrigger) (schedule : option uuid) (inputs : dict) (now : Z)
    (db : rundb) : res app_error Run * rundb :=
  match assistant with
  | None => (Err NotFoundError, emit (EvDenied (cp "assistant") assistant_id) db)
  | Some a =>
      if negb (bool_decide (as_owner a = owner)) then
        (Err NotFoundError, emit (EvDenied (cp "assistant") assistant_id) db)
      else if negb (bool_decide (as_status a = PUBLISHED)) then
        (Err (ValidationError (cp "assistant_not_published")), db)
      else match head with
           | None => (Err (ValidationError (cp "assistant_not_published")), db)
           | Some v =>
               let '(r, db') := create_run t id owner (as_id a) (Some v) schedule trigger inputs now db in
               (Ok r, db')
           end
  end.

(** ** Terminals *)

Definition STATUS_FAILED : pystr * pystr := (cp "status", cp "failed").
Definition _audit_run (action : AuditAction) (r : Run) (metadata : list (pystr * pystr))
    : rundb -> rundb := emit (EvAudit action (run_id r) (run_owner r) metadata).

(** A terminal failure with its audit event and delivery, in one transaction;
    [audited] is the row the event is about. *)
Definition conclude_failed (audited : Run -> Run) (metadata : list (pystr * pystr))
    (delivered : bool) (o : option Run * rundb) : option Run * rundb :=
  match o with
  | (Some failed, db) =>
      (Some failed, emit (EvDeliver (run_id failed) delivered)
                      (_audit_run RUN_FINISHED (audited failed) metadata db))
  | (None, db) => (None, db)
  end.

(** [_fail_run] *)
Definition _fail_run (t : uuid) (r : Run) (error : RunError) (finished : Z) (delivered : bool)
    (db : rundb) : rundb :=
  (conclude_failed (fun _ => r) [STATUS_FAILED; (cp "error_code", err_code error)] delivered
     (mark_terminal t (run_id r) FAILED finished None None None (Some error) (Some RUNNING) None db)).2.

(** [ensure_run_terminal_on_failure] *)
Definition ensure_run_terminal_on_failure (t id : uuid) (error : RunError)
    (retry_started_at : option Z) (finished : Z) (delivered : bool) (db : rundb)
    : RunStatus * rundb :=
  match conclude_failed (fun r => r) [STATUS_FAILED; (cp "error_code", err_code error)] delivered
    (mark_terminal t id FAILED finished None None None (Some error)
       (Some (match retry_started_at with Some _ => QUEUED | None => RUNNING end))
       retry_started_at db) with
  | (Some _, db') => (FAILED, db')
  | (None, db') => (default FAILED (get_status t id db'), db')
  end.

Definition STALE_RUN_ERROR : RunError :=
  mk_error (cp "stale_run_timeout")
    (cp "The run did not finish and was marked failed after exceeding the stale-run age limit.").

(** [reap_stale_run] *)
Definition reap_stale_run (t id : uuid) (older_than finished : Z) (delivered : bool) (db : rundb)
    : bool * rundb :=
  match conclude_failed (fun r => r)
    [STATUS_FAILED; (cp "error_code", err_code STALE_RUN_ERROR); (cp "reason", cp "stale_claim")]
    delivered (fail_stale_running t id older_than finished STALE_RUN_ERROR db) with
  | (Some _, db') => (true, db')
  | (None, db') => (false, db')
  end.

(** ** Executing *)

(** Phase 1 reads the run; a run that is not queued is reported as it is. *)
Inductive observation : Type :=
| ObsMissing
| ObsOther (s : RunStatus)
| ObsQueued (r : Run).
Definition observe_run (t id : uuid) (db : rundb) : observation :=
  match get_run t id db with
  | None => ObsMissing
  | Some r => if bool_decide (run_status r = QUEUED) then ObsQueued r else ObsOther (run_status r)
  end.

(** The claim's timestamp, past the previous claim's. *)
Definition claim_time (now : Z) (observed : Run) : Z :=
  match started_at observed with Some s => Z.max now (s + 1) | None => now end.

Inductive claim_result : Type :=
| ClaimLost (s : RunStatus)
| ClaimFailed
| ClaimRaised                      (** an assertion failed; rolled back *)
| Claimed (r : Run) (session : uuid).

(** The rest of phase 1: the compare-and-set claim, the owner and pinned
    version, the chat session ([owner_ok], [version_ok]: what the lookups
    found; [session]: the id a new chat session gets). *)
Definition claim_run (t : uuid) (observed : Run) (now : Z) (owner_ok version_ok : bool)
    (session : uuid) (delivered : bool) (db : rundb) : claim_result * rundb :=
  match mark_running t (run_id observed) (claim_time now observed) (started_at observed) db with
  | (None, db') => (ClaimLost (default FAILED (get_status t (run_id observed) db')), db')
  | (Some r, db') =>
      if negb (owner_ok && version_ok) then
        let reason := if owner_ok then cp "version_missing" else cp "owner_missing" in
        (ClaimFailed, _fail_run t r (mk_error reason
           (cp "The run's owner or pinned version is unavailable.")) now delivered db')
      else match started_at observed, run_session observed with
           | Some _, Some _ => match run_session r with
                               | Some s => (Claimed r s, db')
                               | None => (ClaimRaised, db)
                               end
           | _, _ => (Claimed r session,
                      _audit_run RUN_STARTED r [] (attach_session t (run_id r) session db'))
           end
  end.

(** [RunTranscriptSink.outcome] and what phase 3 reads besides: the response
    message's id, and whether its row was persisted in this session. *)
Record run_outcome := mk_outcome {
  oc_status : RunStatus;
  oc_summary : option pystr;
  oc_error : option RunError;
  oc_message : option uuid;
  oc_persisted : bool
}.

(** The transient branch of [_persist_run_outcome]: taken when budget is left. *)
Definition retries (max_retries attempt : nat) (o : run_outcome) : bool :=
  is_transient (oc_error o) && (attempt <? max_retries)%nat.

Inductive requeue_result : Type :=
| RequeueLost (s : RunStatus)
| Requeued (started : option Z).
Definition requeue_run (t : uuid) (r : Run) (db : rundb) : requeue_result * rundb :=
  match mark_queued t (run_id r) (Some RUNNING) true (started_at r) db with
  | (None, db') => (RequeueLost (default FAILED (get_status t (run_id r) db')), db')
  | (Some r', db') => (Requeued (started_at r'), db')
  end.

(** The message a succeeded run links; [None] is the [RuntimeError]. *)
Definition linked_message (status : RunStatus) (o : run_outcome) : option (option uuid) :=
  if bool_decide (status = SUCCEEDED) then
    match oc_message o with
    | Some m => if oc_persisted o then Some (Some m) else None
    | None => None
    end
  else Some None.

Inductive persist_result : Type :=
| PersistRaised
| PersistLost (s : RunStatus)
| Persisted (s : RunStatus).

(** The write of phase 3, after its read found [current] not terminal. *)
Definition persist_outcome (t : uuid) (current : Run) (session : uuid) (o : run_outcome) (now : Z)
    (delivered : bool) (db : rundb) : persist_result * rundb :=
  let status := classify_terminal (oc_status o) (oc_error o) in
  match linked_message status o with
  | None => (PersistRaised, db)
  | Some message =>
      match mark_terminal t (run_id current) status now (oc_summary o) message (Some session)
              (oc_error o) (Some RUNNING) None db with
      | (None, db') => (PersistLost (default FAILED (get_status t (run_id current) db')), db')
      | (Some finished, db') =>
          let db' := _audit_run RUN_FINISHED current [] (emit (EvSteps (run_id current)) db') in
          let db' := if bool_decide (status = ESCALATED) then
                       _audit_run RUN_ESCALATED current
                         [(cp "reason", match oc_error o with
                                        | Some e => normalize_reason (err_code e)
                                        | None => cp "unknown" end)] db'
                     else db' in
          (Persisted status, emit (EvDeliver (run_id finished) delivered) db')
      end
  end.

(** ** Owner controls *)

(** [_load_escalated]: a run that is not visible leaves a denial. *)
Definition _load_escalated (t id caller : uuid) (db : rundb) : res app_error Run * rundb :=
  match get_run t id db with
  | None => (Err NotFoundError, emit (EvDenied (cp "run") id) db)
  | Some r =>
      if negb (bool_decide (run_owner r = caller)) then
        (Err NotFoundError, emit (EvDenied (cp "run") id) db)
      else if negb (bool_decide (run_status r = ESCALATED)) then
        (Err (ConflictError (cp "run_not_escalated")), db)
      else (Ok r, db)
  end.

Inductive control : Type := CResume | CCancel | CReroute (to_owner : uuid).

(** The checks of [reroute] between the read and the writes; [known]: the target
    is a user of the tenant. *)
Definition reroute_target (c : control) (known : bool) (r : Run) (db : rundb)
    : res app_error unit * rundb :=
  match c with
  | CReroute to_owner =>
      if bool_decide (to_owner = run_owner r) then
        (Err (ValidationError (cp "reroute_same_owner")), db)
      else if known then (Ok tt, db)
      else (Err NotFoundError, emit (EvDenied (cp "user") to_owner) db)
  | _ => (Ok tt, db)
  end.

Definition CANCELLED : RunError :=
  mk_error (cp "cancelled") (cp "The escalated run was cancelled by its owner.").

(** The writes of [resume], [cancel] and [reroute] on the run they loaded. *)
Definition control_write (t caller : uuid) (c : control) (r : Run) (now : Z) (db : rundb)
    : res app_error (Run * bool) * rundb :=
  let db1 := match c with
             | CReroute to_owner => (reassign_owner t (run_id r) to_owner db).2
             | _ => db
             end in
  let '(o, db2) := match c with
    | CCancel => mark_terminal t (run_id r) FAILED now None None None (Some CANCELLED) None None db1
    | _ => mark_queued t (run_id r) None false None db1
    end in
  match o with
  | None => (Err NotFoundError, db2)
  | Some r' =>
      let '(action, requeued) := match c with
        | CResume => (RUN_RESUMED, true) | CCancel => (RUN_CANCELLED, false)
        | CReroute _ => (RUN_REROUTED, true) end in
      (Ok (r', requeued), emit (EvAudit action (run_id r) caller []) db2)
  end.

(** A whole control request, when nothing interleaves. *)
Definition control_run (t caller id : uuid) (c : control) (known : bool) (now : Z) (db : rundb)
    : res app_error (Run * bool) * rundb :=
  match _load_escalated t id caller db with
  | (Err e, db') => (Err e, db')
  | (Ok r, db') => match reroute_target c known r db' with
                   | (Err e, db'') => (Err e, db'')
                   | (Ok _, db'') => control_write t caller c r now db''
                   end
  end.

(** ** Interleavings

    Threads of one tenant's workers, failure handlers and owner requests, by
    what they have read and are about to do. *)
Inductive thread : Type :=
| TObserved (r : Run)                               (** a worker read the queued run *)
| TExecuting (r : Run) (session : uuid)             (** it claimed the run; the runtime runs *)
| TWriting (r : Run) (session : uuid) (o : run_outcome)
                                                    (** phase 3 read a run that is not terminal *)
| TEnsuring (id : uuid) (error : RunError) (retry_started_at : option Z)
                                                    (** a failure handler, before its transaction *)
| TControl (caller : uuid) (c : control) (r : Run). (** a control loaded an escalated run *)

(** The claim a worker executes under. *)
Definition claim_of (th : thread) : option Run :=
  match th with TExecuting r _ | TWriting r _ _ => Some r | _ => None end.

Record world := mk_world { db : rundb; threads : gmap nat thread }.

Section steps.
Context (t : uuid) (max_retries : nat).

(** One transaction or one worker-local event.  [controls]: may owner controls
    be among them? *)
Inductive step (controls : bool) : world -> world -> Prop :=
| step_enqueue w id owner aid a head trigger schedule inputs now r d :
    rows (db w) !! id = None ->
    enqueue_manual_run t id owner aid a head trigger schedule inputs now (db w) = (Ok r, d) ->
    step controls w (mk_world d (threads w))
| step_observe w i id r :
    threads w !! i = None -> observe_run t id (db w) = ObsQueued r ->
    step controls w (mk_world (db w) (<[i := TObserved r]> (threads w)))
| step_claim w i r r' now owner_ok version_ok session session' delivered d :
    threads w !! i = Some (TObserved r) ->
    claim_run t r now owner_ok version_ok session delivered (db w) = (Claimed r' session', d) ->
    step controls w (mk_world d (<[i := TExecuting r' session']> (threads w)))
| step_claim_over w i r now owner_ok version_ok session delivered res d :
    threads w !! i = Some (TObserved r) ->
    claim_run t r now owner_ok version_ok session delivered (db w) = (res, d) ->
    (forall r' s, res <> Claimed r' s) ->
    step controls w (mk_world d (delete i (threads w)))
| step_requeue w i r session o attempt res d :
    threads w !! i = Some (TExecuting r session) -> retries max_retries attempt o = true ->
    requeue_run t r (db w) = (res, d) ->
    step controls w (mk_world d (delete i (threads w)))
| step_requeue_unpublished w i r session o attempt s error d :
    threads w !! i = Some (TExecuting r session) -> retries max_retries attempt o = true ->
    requeue_run t r (db w) = (Requeued s, d) ->
    step controls w (mk_world d (<[i := TEnsuring (run_id r) error s]> (threads w)))
| step_read_outcome w i r session o attempt cur :
    threads w !! i = Some (TExecuting r session) -> retries max_retries attempt o = false ->
    oc_status o = SUCCEEDED \/ oc_status o = FAILED ->
    get_run t (run_id r) (db w) = Some cur -> is_terminal cur = false ->
    step controls w (mk_world (db w) (<[i := TWriting cur session o]> (threads w)))
| step_outcome_over w i r session cur :
    threads w !! i = Some (TExecuting r session) ->
    get_run t (run_id r) (db w) = Some cur -> is_terminal cur = true ->
    step controls w (mk_world (db w) (delete i (threads w)))
| step_persist w i cur session o now delivered res d :
    threads w !! i = Some (TWriting cur session o) ->
    persist_outcome t cur session o now delivered (db w) = (res, d) -> res <> PersistRaised ->
    step controls w (mk_world d (delete i (threads w)))
| step_raise w i th id error :
    threads w !! i = Some th ->
    (match th with
     | TObserved r | TExecuting r _ | TWriting r _ _ => id = run_id r
     | _ => False
     end) ->
    step controls w (mk_world (db w) (<[i := TEnsuring id error None]> (threads w)))
| step_ensure w i id error retry now delivered res d :
    threads w !! i = Some (TEnsuring id error retry) ->
    ensure_run_terminal_on_failure t id error retry now delivered (db w) = (res, d) ->
    step controls w (mk_world d (delete i (threads w)))
| step_crash w i :
    step controls w (mk_world (db w) (delete i (threads w)))
| step_reap w id older_than now delivered res d :
    reap_stale_run t id older_than now delivered (db w) = (res, d) ->
    step controls w (mk_world d (threads w))
| step_denied w resource id :
    step controls w (mk_world (emit (EvDenied resource id) (db w)) (threads w))
| step_control_load w i id caller c known r :
    controls = true -> threads w !! i = None ->
    _load_escalated t id caller (db w) = (Ok r, db w) ->
    reroute_target c known r (db w) = (Ok tt, db w) ->
    step controls w (mk_world (db w) (<[i := TControl caller c r]> (threads w)))
| step_control_write w i caller c r now res d :
    controls = true -> threads w !! i = Some (TControl caller c r) ->
    control_write t caller c r now (db w) = (res, d) ->
    step controls w (mk_world d (delete i (threads w))).

Definition start : world := mk_world (mk_rundb ∅ []) ∅.

Inductive reachable (controls : bool) : world -> Prop :=
| reach_start : reachable controls start
| reach_step w w' : reachable controls w -> step controls w w' -> reachable controls w'.
End steps.

(** ** The store under its updates *)

Lemma update_where_spec t id cond f d o d' :
  update_where t id cond f d = (o, d') ->
  (o = None /\ d' = d) \/
  exists r, rows d !! id = Some r /\ run_tenant r = t /\ cond r = true /\ o = Some (f r) /\
    d' = mk_rundb (<[id := f r]> (rows d)) (events d).
Proof.
  unfold update_where, get_run. destruct (rows d !! id) as [r|] eqn:E; simpl;
    [|intros [= <- <-]; by left].
  case_bool_decide; simpl; [|intros [= <- <-]; by left].
  destruct (cond r) eqn:Ec; intros [= <- <-]; [|by left]. right. by exists r.
Qed.

Lemma get_run_spec t id d r : get_run t id d = Some r <-> rows d !! id = Some r /\ run_tenant r = t.
Proof.
  unfold get_run. destruct (rows d !! id) as [r'|]; simpl; [|naive_solver].
  case_bool_decide; naive_solver.
Qed.

(** The finish events of a run. *)
Definition is_finish (id : uuid) (e : run_event) : bool :=
  match e with EvAudit a r _ _ => bool_decide (a = RUN_FINISHED) && bool_decide (r = id)
          | _ => false end.
Definition finishes (id : uuid) (d : rundb) : nat := length (List.filter (is_finish id) (events d)).

Definition ended (o : option Run) : nat :=
  match o with Some r => if is_terminal r then 1 else 0 | None => 0 end.

(** What every transaction but a retry's does to one run: a terminal row stays
    as it is, a running one stays claimed or ends, and it ends with one finish
    event. *)
Record row_safe (t : uuid) (d d' : rundb) (id : uuid) : Prop := {
  safe_stays : forall r, rows d !! id = Some r -> exists r', rows d' !! id = Some r' /\
    (is_terminal r = true -> r' = r) /\
    (run_status r = RUNNING -> is_terminal r' = true \/
       (run_status r' = RUNNING /\ started_at r' = started_at r));
  safe_keyed : (forall r, rows d !! id = Some r -> run_id r = id /\ run_tenant r = t) ->
    forall r, rows d' !! id = Some r -> run_id r = id /\ run_tenant r = t;
  safe_count : (finishes id d' + ended (rows d !! id) = finishes id d + ended (rows d' !! id))%nat
}.
Definition db_safe (t : uuid) (d d' : rundb) : Prop := forall id, row_safe t d d' id.

Lemma db_safe_refl t d : db_safe t d d.
Proof. intros id. split; [|done|lia]. intros r Hr. exists r. split_and!; auto. Qed.

Lemma db_safe_trans t d1 d2 d3 : db_safe t d1 d2 -> db_safe t d2 d3 -> db_safe t d1 d3.
Proof.
  intros H12 H23 id. destruct (H12 id) as [S1 K1 C1], (H23 id) as [S2 K2 C2]. split; [|auto|lia].
  intros r Hr. destruct (S1 r Hr) as (r2 & Hr2 & T1 & R1).
  destruct (S2 r2 Hr2) as (r3 & Hr3 & T2 & R2). exists r3. split_and!; [done| |].
  - intros Ht. pose proof (T1 Ht) as ->. by apply T2.
  - intros Hrun. destruct (R1 Hrun) as [Ht|[Hr' Hs]].
    + left. by rewrite (T2 Ht).
    + destruct (R2 Hr') as [|[? ?]]; [by left|right; split; congruence].
Qed.

Lemma finishes_app id d l :
  finishes id (mk_rundb (rows d) (events d ++ l))
    = (finishes id d + length (List.filter (is_finish id) l))%nat.
Proof. unfold finishes. simpl. by rewrite List.filter_app, length_app. Qed.

(** One row updated, with events. *)
Lemma update_safe t d id r r' l :
  rows d !! id = Some r -> run_tenant r = t -> is_terminal r = false ->
  run_id r' = run_id r -> run_tenant r' = t ->
  (run_status r = RUNNING -> is_terminal r' = true \/
     (run_status r' = RUNNING /\ started_at r' = started_at r)) ->
  (forall id', length (List.filter (is_finish id') l)
     = if decide (id' = id) then ended (Some r') else 0%nat) ->
  db_safe t d (mk_rundb (<[id := r']> (rows d)) (events d ++ l)).
Proof.
  intros Hr Ht Hnt Hid Ht' Hrun Hl id'. specialize (Hl id').
  assert (finishes id' (mk_rundb (<[id := r']> (rows d)) (events d ++ l))
          = finishes id' d + length (List.filter (is_finish id') l))%nat as Hc.
  { unfold finishes. simpl. by rewrite List.filter_app, length_app. }
  destruct (decide (id' = id)) as [->|Hne].
  - split.
    + intros r0 Hr0. simplify_eq. exists r'. simpl. rewrite lookup_insert_eq.
      split_and!; [done|congruence|done].
    + intros Hk r0. simpl. rewrite lookup_insert_eq. intros [= <-].
      destruct (Hk r Hr). split; congruence.
    + rewrite Hc, Hl, Hr. simpl. rewrite lookup_insert_eq, Hnt. simpl. lia.
  - split.
    + intros r0 Hr0. exists r0. simpl. rewrite lookup_insert_ne by done. split_and!; auto.
    + intros Hk r0. simpl. rewrite lookup_insert_ne by done. apply Hk.
    + rewrite Hc, Hl. simpl. rewrite lookup_insert_ne by done. lia.
Qed.

Definition keyed (t : uuid) (d : rundb) : Prop :=
  forall id r, rows d !! id = Some r -> run_id r = id /\ run_tenant r = t.

Lemma keyed_safe t d d' : keyed t d -> db_safe t d d' -> keyed t d'.
Proof. intros Hk Hs id r. apply (Hs id). intros r' Hr'. by apply Hk. Qed.

(** Appending events that finish nothing. *)
Lemma events_safe t d l :
  (forall id, List.filter (is_finish id) l = []) -> db_safe t d (mk_rundb (rows d) (events d ++ l)).
Proof.
  intros Hl id. split; [|done|rewrite finishes_app, Hl; simpl; lia].
  intros r Hr. exists r. split_and!; auto.
Qed.

(** A conditional terminal failure, with its event and delivery. *)
Lemma conclude_failed_safe t id cond f audited metadata delivered d o d' :
  keyed t d ->
  (forall r, cond r = true -> is_terminal r = false) ->
  (forall r, is_terminal (f r) = true /\ run_id (f r) = run_id r /\ run_tenant (f r) = run_tenant r) ->
  (forall r, run_id r = id -> run_id (audited r) = id) ->
  conclude_failed audited metadata delivered (update_where t id cond f d) = (o, d') ->
  db_safe t d d'.
Proof.
  intros Hk Hc Hf Ha Hu. destruct (update_where t id cond f d) as [o1 d1] eqn:E.
  apply update_where_spec in E as [[-> ->]|(r & Hr & Ht & Hcond & -> & ->)]; simpl in Hu.
  - injection Hu as <- <-. apply db_safe_refl.
  - injection Hu as <- <-. destruct (Hf r) as (Hterm & Hid & Htn), (Hk _ _ Hr) as [Hrid _].
    unfold emit, _audit_run, emit. simpl. rewrite <-app_assoc.
    apply (update_safe t d id r); try done; try congruence; try by apply Hc.
    + intros _. by left.
    + intros id'. simpl. rewrite Ha by congruence. rewrite Hterm.
      case_decide; subst; [by rewrite bool_decide_eq_true_2 by done|].
      by rewrite bool_decide_eq_false_2 by done.
Qed.

Lemma not_terminal_running r : run_status r = RUNNING -> is_terminal r = false.
Proof. unfold is_terminal. by intros ->. Qed.
Lemma not_terminal_queued r : run_status r = QUEUED -> is_terminal r = false.
Proof. unfold is_terminal. by intros ->. Qed.

Lemma ensure_safe t id error retry now delivered d res d' :
  keyed t d -> ensure_run_terminal_on_failure t id error retry now delivered d = (res, d') ->
  db_safe t d d'.
Proof.
  intros Hk. unfold ensure_run_terminal_on_failure, mark_terminal.
  destruct (conclude_failed _ _ _ _) as [o d1] eqn:E. intros H.
  assert (d' = d1) as -> by (destruct o; congruence).
  eapply conclude_failed_safe in E; [exact E|done| |done|done].
  intros r Hc. apply andb_true_iff in Hc as [Hs _]. simpl in Hs. apply bool_decide_eq_true in Hs.
  destruct retry; [by apply not_terminal_queued|by apply not_terminal_running].
Qed.

Lemma fail_run_safe t r error now delivered d :
  keyed t d -> db_safe t d (_fail_run t r error now delivered d).
Proof.
  intros Hk. unfold _fail_run, mark_terminal. destruct (conclude_failed _ _ _ _) as [o d1] eqn:E.
  eapply conclude_failed_safe in E; [exact E|done| |done|done].
  intros r' Hc. apply andb_true_iff in Hc as [Hs _]. simpl in Hs. apply bool_decide_eq_true in Hs.
  by apply not_terminal_running.
Qed.

Lemma reap_safe t id older now delivered d res d' :
  keyed t d -> reap_stale_run t id older now delivered d = (res, d') -> db_safe t d d'.
Proof.
  intros Hk. unfold reap_stale_run, fail_stale_running.
  destruct (conclude_failed _ _ _ _) as [o d1] eqn:E. intros H.
  assert (d' = d1) as -> by (destruct o; congruence).
  eapply conclude_failed_safe in E; [exact E|done| |done|done].
  intros r Hc. apply andb_true_iff in Hc as [Hs _]. apply orb_true_iff in Hs as [Hs|Hs].
  - apply bool_decide_eq_true in Hs. by apply not_terminal_running.
  - apply andb_true_iff in Hs as [Hs _]. apply bool_decide_eq_true in Hs. by apply not_terminal_queued.
Qed.

(** A conditional update of a run that does not end it. *)
Lemma update_where_safe t id cond f d o d' :
  keyed t d ->
  (forall r, cond r = true -> is_terminal r = false) ->
  (forall r, cond r = true -> is_terminal (f r) = false /\ run_id (f r) = run_id r /\
     run_tenant (f r) = run_tenant r /\
     (run_status r = RUNNING -> run_status (f r) = RUNNING /\ started_at (f r) = started_at r)) ->
  update_where t id cond f d = (o, d') -> db_safe t d d'.
Proof.
  intros Hk Hc Hf Hu. apply update_where_spec in Hu as [[-> ->]|(r & Hr & Ht & Hcond & -> & ->)].
  - apply db_safe_refl.
  - destruct (Hf r Hcond) as (Hterm & Hid & Htn & Hrun).
    rewrite <-(app_nil_r (events d)). apply (update_safe t d id r); try done; try congruence.
    + by apply Hc.
    + intros Hr'. right. by apply Hrun.
    + intros id'. simpl. rewrite Hterm. by case_decide.
Qed.

Lemma attach_safe t id session d : keyed t d -> db_safe t d (attach_session t id session d).
Proof.
  intros Hk. unfold attach_session. destruct (update_where _ _ _ _ _) as [o d'] eqn:E. simpl.
  eapply update_where_safe in E; [exact E|done|..]; intros r Hc; apply bool_decide_eq_true in Hc.
  - by apply not_terminal_running.
  - split_and!; try done. by apply not_terminal_running.
Qed.

Lemma claim_safe t r now ok1 ok2 session delivered d res d' :
  keyed t d -> claim_run t r now ok1 ok2 session delivered d = (res, d') ->
  db_safe t d d' /\
  (forall r' s, res = Claimed r' s -> run_id r' = run_id r /\ run_status r' = RUNNING /\
     exists old row, rows d !! run_id r = Some old /\ run_status old = QUEUED /\
       rows d' !! run_id r = Some row /\ run_status row = RUNNING /\
       started_at row = started_at r').
Proof.
  intros Hk Hc. unfold claim_run in Hc.
  destruct (mark_running _ _ _ _ _) as [o d1] eqn:Em.
  assert (db_safe t d d1) as H1.
  { eapply update_where_safe in Em; [exact Em|done|..]; intros r0 Hr0;
      apply andb_true_iff in Hr0 as [Hq%bool_decide_eq_true _]; [by apply not_terminal_queued|].
    split_and!; try done. by rewrite Hq. }
  apply update_where_spec in Em as [[-> ->]|(r0 & Hr0 & Ht & Hq & -> & ->)].
  { simplify_eq. by split. }
  apply andb_true_iff in Hq as [Hq%bool_decide_eq_true _].
  destruct (Hk _ _ Hr0) as [Hid _].
  set (d1 := mk_rundb _ (events d)) in *.
  pose proof (keyed_safe _ _ _ Hk H1) as Hk1.
  destruct (negb (ok1 && ok2)).
  { simplify_eq. split; [|done]. eapply db_safe_trans; [done|by apply fail_run_safe]. }
  assert (forall s, exists row, rows (attach_session t (run_id r) s d1) !! run_id r = Some row /\
            run_status row = RUNNING /\ started_at row = Some (claim_time now r)) as Hatt.
  { intros s. unfold attach_session, update_where, get_run. simpl. rewrite lookup_insert_eq. simpl.
    rewrite bool_decide_eq_true_2 by done. simpl. rewrite lookup_insert_eq. eauto. }
  destruct (started_at r) as [s0|], (run_session r) as [s1|]; simpl in Hc.
  1: destruct (run_session r0) as [s2|]; simplify_eq;
       [|split; [apply db_safe_refl|done]].
  1: { split; [done|]. intros r' s' [= <- <-]. split_and!; [exact Hid|done|].
       exists r0. eexists. split_and!; [done|done|apply lookup_insert_eq|done|done]. }
  all: simplify_eq; simpl; rewrite ?Hid; split;
    [eapply db_safe_trans; [exact H1|]; eapply db_safe_trans; [by apply (attach_safe _ (run_id r) session)|];
     apply events_safe; intros id; reflexivity|];
    intros r' s' [= <- <-]; split_and!; [exact Hid|done|]; destruct (Hatt session) as (row & Hrow & ? & ?);
    exists r0, row; split_and!; done.
Qed.

Lemma classify_not_active o :
  oc_status o = SUCCEEDED \/ oc_status o = FAILED ->
  terminal_status (classify_terminal (oc_status o) (oc_error o)) = true.
Proof.
  unfold classify_terminal. intros [-> | ->]; simpl; [done|].
  by destruct (should_escalate (oc_error o)).
Qed.

Lemma persist_safe t cur session o now delivered d res d' :
  keyed t d -> oc_status o = SUCCEEDED \/ oc_status o = FAILED ->
  persist_outcome t cur session o now delivered d = (res, d') -> db_safe t d d'.
Proof.
  intros Hk Ho Hp. unfold persist_outcome in Hp. pose proof (classify_not_active o Ho) as Hterm.
  set (status := classify_terminal _ _) in *.
  destruct (linked_message status o) as [message|]; [|simplify_eq; apply db_safe_refl].
  destruct (mark_terminal _ _ _ _ _ _ _ _ _ _ _) as [o1 d1] eqn:Em.
  apply update_where_spec in Em as [[-> ->]|(r & Hr & Ht & Hc & -> & ->)].
  { simplify_eq. apply db_safe_refl. }
  apply andb_true_iff in Hc as [Hrun%bool_decide_eq_true _]. destruct (Hk _ _ Hr) as [Hid _].
  simplify_eq. unfold _audit_run, emit. simpl.
  assert (forall l, (forall id', length (List.filter (is_finish id') l)
      = if decide (id' = run_id cur) then 1%nat else 0%nat) ->
    db_safe (run_tenant r) d (mk_rundb (<[run_id cur :=
      set_outputs (oc_summary o) message (Some session)
        (set_status status (started_at r) (Some now) (oc_error o) r)]> (rows d)) (events d ++ l)))
    as Hsafe.
  { intros l Hl. apply (update_safe _ d (run_id cur) r); try done.
    - by apply not_terminal_running.
    - intros _. by left.
    - intros id'. rewrite Hl. unfold ended, is_terminal. simpl. by rewrite Hterm. }
  case_bool_decide; simpl; rewrite <-!app_assoc; apply Hsafe; intros id'; simpl;
    (case_decide; [subst; by rewrite bool_decide_eq_true_2|by rewrite bool_decide_eq_false_2 by done]).
Qed.

Lemma enqueue_safe t id owner aid a head trigger schedule inputs now d r d' :
  rows d !! id = None ->
  enqueue_manual_run t id owner aid a head trigger schedule inputs now d = (Ok r, d') ->
  db_safe t d d'.
Proof.
  intros Hnone He. unfold enqueue_manual_run in He.
  destruct a as [a|]; [|done]. destruct (negb _); [done|]. destruct (negb _); [done|].
  destruct head as [v|]; [|done]. unfold create_run in He. simplify_eq. intros id'.
  destruct (decide (id' = id)) as [->|Hne].
  - split; [congruence| |].
    + intros _ r0. simpl. rewrite lookup_insert_eq. by intros [= <-].
    + unfold finishes. simpl. rewrite lookup_insert_eq, Hnone. simpl. lia.
  - split.
    + intros r0 Hr0. exists r0. simpl. rewrite lookup_insert_ne by done. split_and!; auto.
    + intros Hk r0. simpl. rewrite lookup_insert_ne by done. apply Hk.
    + unfold finishes. simpl. rewrite lookup_insert_ne by done. lia.
Qed.

(** A retry hand-off changes its own run only, from running to queued. *)
Lemma requeue_spec t r d res d' :
  requeue_run t r d = (res, d') ->
  events d' = events d /\ (forall id, id <> run_id r -> rows d' !! id = rows d !! id) /\
  (d' = d \/ exists row row', rows d !! run_id r = Some row /\ run_status row = RUNNING /\
     rows d' !! run_id r = Some row' /\ is_terminal row' = false /\
     run_id row' = run_id row /\ run_tenant row' = run_tenant row).
Proof.
  unfold requeue_run, mark_queued. destruct (update_where _ _ _ _ _) as [o d1] eqn:Eu.
  intros H. assert (d' = d1) as -> by (destruct o; congruence). clear H.
  apply update_where_spec in Eu as [[_ ->]|(row & Hr & _ & Hc & _ & ->)]; [by auto|].
  apply andb_true_iff in Hc as [Hrun%bool_decide_eq_true _]. simpl. split_and!; [done| |].
  - intros id Hne. by rewrite lookup_insert_ne.
  - right. exists row. eexists. rewrite lookup_insert_eq. split_and!; done.
Qed.

(** ** The invariant *)

Record world_ok (t : uuid) (w : world) : Prop := {
  wo_keyed : keyed t (db w);
  wo_claims : forall i th r, threads w !! i = Some th -> claim_of th = Some r ->
    exists row, rows (db w) !! run_id r = Some row /\
      (is_terminal row = true \/ (run_status row = RUNNING /\ started_at row = started_at r));
  wo_unique : forall i j th th' r r', threads w !! i = Some th -> threads w !! j = Some th' ->
    i <> j -> claim_of th = Some r -> claim_of th' = Some r' -> run_id r = run_id r' ->
    ended (rows (db w) !! run_id r) = 1%nat;
  wo_count : forall id, finishes id (db w) = ended (rows (db w) !! id);
  wo_outcome : forall i cur s o, threads w !! i = Some (TWriting cur s o) ->
    oc_status o = SUCCEEDED \/ oc_status o = FAILED
}.

(** A safe transaction with no new claim keeps the invariant. *)
Lemma world_ok_safe t w d ths :
  world_ok t w -> db_safe t (db w) d ->
  (forall i th, ths !! i = Some th -> claim_of th = None \/ exists th0,
     threads w !! i = Some th0 /\ option_map run_id (claim_of th) = option_map run_id (claim_of th0) /\
     option_map started_at (claim_of th) = option_map started_at (claim_of th0)) ->
  (forall i cur s o, ths !! i = Some (TWriting cur s o) ->
     oc_status o = SUCCEEDED \/ oc_status o = FAILED) ->
  world_ok t (mk_world d ths).
Proof.
  intros [Hk Hc Hu Hn _] Hs Hth Ho. split; simpl; [by eapply keyed_safe| | | |done].
  - intros i th r Hi Hcl. destruct (Hth i th Hi) as [|(th0 & Hi0 & Hid & Hst)]; [congruence|].
    rewrite Hcl in Hid, Hst. destruct (claim_of th0) as [r0|] eqn:E0; [|done]. simpl in *.
    destruct (Hc i th0 r0 Hi0 E0) as (row & Hrow & Hcase).
    destruct (safe_stays _ _ _ _ (Hs (run_id r0)) row Hrow) as (row' & Hrow' & Ht & Hr).
    exists row'. injection Hid as ->. injection Hst as ->. split; [done|].
    destruct Hcase as [Hterm|[Hrun Hstart]].
    + left. by rewrite (Ht Hterm).
    + destruct (Hr Hrun) as [|[? ?]]; [by left|right; split; congruence].
  - intros i j th th' r r' Hi Hj Hne Hcl Hcl' Hid.
    destruct (Hth i th Hi) as [|(th0 & Hi0 & Hi1 & _)]; [congruence|].
    destruct (Hth j th' Hj) as [|(th0' & Hj0 & Hj1 & _)]; [congruence|].
    rewrite Hcl in Hi1. rewrite Hcl' in Hj1.
    destruct (claim_of th0) as [r0|] eqn:E0; [|done].
    destruct (claim_of th0') as [r0'|] eqn:E0'; [|done]. simpl in *.
    injection Hi1 as Hi1. injection Hj1 as Hj1.
    pose proof (Hu i j th0 th0' r0 r0' Hi0 Hj0 Hne E0 E0' ltac:(congruence)) as Hend.
    rewrite Hi1. destruct (rows (db w) !! run_id r0) as [row|] eqn:Er; [|done].
    simpl in Hend. destruct (is_terminal row) eqn:Et; [|done].
    destruct (safe_stays _ _ _ _ (Hs (run_id r0)) row Er) as (row' & -> & Ht & _).
    simpl. by rewrite (Ht Et), Et.
  - intros id. pose proof (safe_count _ _ _ _ (Hs id)). rewrite Hn in *. lia.
Qed.

(** Dropping a thread, or replacing it by one without a claim. *)
Lemma threads_delete (ths : gmap nat thread) i j th :
  delete i ths !! j = Some th -> claim_of th = None \/ exists th0, ths !! j = Some th0 /\
    option_map run_id (claim_of th) = option_map run_id (claim_of th0) /\
    option_map started_at (claim_of th) = option_map started_at (claim_of th0).
Proof. intros [_ Hj]%lookup_delete_Some. right. by exists th. Qed.

Lemma threads_insert (ths : gmap nat thread) i th0 j th :
  claim_of th0 = None -> <[i := th0]> ths !! j = Some th ->
  claim_of th = None \/ exists th1, ths !! j = Some th1 /\
    option_map run_id (claim_of th) = option_map run_id (claim_of th1) /\
    option_map started_at (claim_of th) = option_map started_at (claim_of th1).
Proof. intros Hn [[<- <-]|[_ Hj]]%lookup_insert_Some; [by left|right; by exists th]. Qed.

Lemma writing_delete (ths : gmap nat thread) i j cur s o :
  delete i ths !! j = Some (TWriting cur s o) -> ths !! j = Some (TWriting cur s o).
Proof. by intros [_ Hj]%lookup_delete_Some. Qed.

Lemma writing_insert (ths : gmap nat thread) i th0 j cur s o :
  (forall cur s o, th0 <> TWriting cur s o) ->
  <[i := th0]> ths !! j = Some (TWriting cur s o) -> ths !! j = Some (TWriting cur s o).
Proof. intros Hn [[<- ->]|[_ Hj]]%lookup_insert_Some; [by destruct (Hn cur s o)|done]. Qed.

(** A claim: no other worker executes the queued run. *)
Lemma world_ok_claim t w i r now ok1 ok2 session delivered r' s d :
  world_ok t w -> threads w !! i = Some (TObserved r) ->
  claim_run t r now ok1 ok2 session delivered (db w) = (Claimed r' s, d) ->
  world_ok t (mk_world d (<[i := TExecuting r' s]> (threads w))).
Proof.
  intros Hok Hi Hcl. pose proof Hok as [Hk Hc Hu Hn Ho].
  destruct (claim_safe _ _ _ _ _ _ _ _ _ _ Hk Hcl) as [Hs Hnew].
  destruct (Hnew r' s eq_refl) as (Hid & Hrun & old & row & Hold & Hq & Hrow & Hrrun & Hst).
  assert (world_ok t (mk_world d (delete i (threads w)))) as [Hk' Hc' Hu' Hn' Ho'].
  { eapply world_ok_safe; [done|done|apply threads_delete|].
    intros j cur s0 o Hj. by eapply Ho, writing_delete. }
  simpl in *. assert (forall j th r0, threads w !! j = Some th -> claim_of th = Some r0 ->
    run_id r0 <> run_id r) as Hfree.
  { intros j th r0 Hj Hcj Heq. destruct (Hc j th r0 Hj Hcj) as (row0 & Hr0 & Hcase).
    rewrite Heq, Hold in Hr0. injection Hr0 as <-. unfold is_terminal in Hcase.
    rewrite Hq in Hcase. naive_solver. }
  split; simpl; [done| | |done|].
  - intros j th r0 [[<- <-]|[Hne Hj]]%lookup_insert_Some Hcj.
    + injection Hcj as <-. exists row. rewrite Hid. auto.
    + apply (Hc' j th r0); [by rewrite lookup_delete_ne|done].
  - intros j k th th' r0 r0' Hj Hk2 Hne Hcj Hck Heq.
    apply lookup_insert_Some in Hj as [[<- <-]|[Hne1 Hj]];
      apply lookup_insert_Some in Hk2 as [[<- <-]|[Hne2 Hk2]]; try done.
    + injection Hcj as <-. exfalso. apply (Hfree k th' r0'); congruence.
    + injection Hck as <-. exfalso. apply (Hfree j th r0); congruence.
    + apply (Hu' j k th th' r0 r0');
        [by rewrite lookup_delete_ne|by rewrite lookup_delete_ne|done..].
  - intros j cur s0 o Hj. apply (Ho j cur s0 o).
    eapply writing_insert; [|exact Hj]; discriminate.
Qed.

(** A retry hand-off: the only worker of the run leaves it. *)
Lemma world_ok_requeue t w i r session res d ths :
  world_ok t w -> threads w !! i = Some (TExecuting r session) ->
  requeue_run t r (db w) = (res, d) ->
  (forall j th, ths !! j = Some th -> claim_of th = None \/ (j <> i /\ threads w !! j = Some th)) ->
  (forall j cur s o, ths !! j = Some (TWriting cur s o) -> threads w !! j = Some (TWriting cur s o)) ->
  world_ok t (mk_world d ths).
Proof.
  intros [Hk Hc Hu Hn Ho] Hi Hr Hth Hw.
  destruct (requeue_spec _ _ _ _ _ Hr) as (Hev & Hother & Hrow).
  assert (forall id, is_terminal <$> rows d !! id = is_terminal <$> rows (db w) !! id) as Hterm.
  { intros id. destruct (decide (id = run_id r)) as [->|Hne]; [|by rewrite Hother].
    destruct Hrow as [->|(row & row' & -> & Hrun & -> & Ht & _)]; [done|].
    simpl. by rewrite Ht, not_terminal_running. }
  assert (forall id, ended (rows d !! id) = ended (rows (db w) !! id)) as Hend.
  { intros id. specialize (Hterm id).
    destruct (rows d !! id), (rows (db w) !! id); simpl in *; try done. by injection Hterm as ->. }
  split; simpl.
  - intros id r0 Hr0. destruct (decide (id = run_id r)) as [->|Hne].
    + destruct Hrow as [->|(row & row' & Hold & _ & Hnew & _ & Hid & Htn)]; [by apply Hk|].
      simplify_eq. rewrite Hid, Htn. by apply Hk.
    + rewrite Hother in Hr0 by done. by apply Hk.
  - intros j th r0 Hj Hcj. destruct (Hth j th Hj) as [|[Hne Hj0]]; [congruence|].
    destruct (Hc j th r0 Hj0 Hcj) as (row & Hrow0 & Hcase).
    destruct (decide (run_id r0 = run_id r)) as [Heq|Hne'].
    + pose proof (Hu i j _ th r r0 Hi Hj0 ltac:(done) eq_refl Hcj ltac:(done)) as He.
      rewrite Heq in *. rewrite <-Hend in He.
      destruct (rows d !! run_id r) as [row'|] eqn:Er; [|done]. simpl in He.
      exists row'. split; [done|left]. by destruct (is_terminal row').
    + exists row. rewrite Hother by done. done.
  - intros j k th th' r0 r0' Hj Hk2 Hne Hcj Hck Heq. rewrite Hend.
    destruct (Hth j th Hj) as [|[_ Hj0]]; [congruence|].
    destruct (Hth k th' Hk2) as [|[_ Hk0]]; [congruence|]. by eapply (Hu j k th th' r0 r0').
  - intros id. unfold finishes. rewrite Hev, Hend. apply Hn.
  - intros j cur s o Hj. by eapply Ho, Hw.
Qed.

Section invariant.
Context (t : uuid) (max_retries : nat).

(** Every step without owner controls keeps the invariant. *)
Lemma world_ok_step w w' : world_ok t w -> step t max_retries false w w' -> world_ok t w'.
Proof.
  intros Hok Hstep. pose proof Hok as [Hk Hc Hu Hn Ho].
  assert (forall ths, (forall j th, ths !! j = Some th -> claim_of th = None \/
            exists th0, threads w !! j = Some th0 /\
              option_map run_id (claim_of th) = option_map run_id (claim_of th0) /\
              option_map started_at (claim_of th) = option_map started_at (claim_of th0)) ->
          (forall j cur s o, ths !! j = Some (TWriting cur s o) ->
             threads w !! j = Some (TWriting cur s o)) ->
          forall d, db_safe t (db w) d -> world_ok t (mk_world d ths)) as Hsafe.
  { intros ths H1 H2 d Hd. eapply world_ok_safe; [done..|]. intros j cur s o Hj. by eapply Ho, H2. }
  assert (forall i d, db_safe t (db w) d -> world_ok t (mk_world d (delete i (threads w)))) as Hdel.
  { intros i. apply Hsafe; [apply threads_delete|apply writing_delete]. }
  assert (forall i th, claim_of th = None ->
    world_ok t (mk_world (db w) (<[i := th]> (threads w)))) as Hins.
  { intros i th Hn0. apply Hsafe;
      [intros j th1; exact (threads_insert _ i th j th1 Hn0)| |apply db_safe_refl].
    intros j cur s o. apply writing_insert. by intros ??? ->. }
  destruct Hstep as [w id owner aid a head trigger schedule inputs now r d Hnone He|w i id r _ _
    |w i r r' now ok1 ok2 session s delivered d Hi Hcl|w i r now ok1 ok2 session delivered res d Hi Hcl _
    |w i r session o attempt res d Hi _ Hr|w i r session o attempt s error d Hi _ Hr
    |w i r session o attempt cur Hi _ Hout Hget Hterm|w i r session cur _ _ _
    |w i cur session o now delivered res d Hi Hp _|w i th id error _ _
    |w i id error retry now delivered res d _ He|w i|w id older now delivered res d Hr
    |w resource id|?????????|?????????]; try done.
  - apply Hsafe; [intros j th Hj; right; by exists th|done|by eapply enqueue_safe].
  - by apply Hins.
  - by eapply world_ok_claim.
  - apply Hdel. by eapply claim_safe.
  - eapply world_ok_requeue; [done..| |apply writing_delete].
    intros j th [Hne Hj]%lookup_delete_Some. by right.
  - eapply world_ok_requeue; [done..| |].
    + intros j th [[<- <-]|[Hne Hj]]%lookup_insert_Some; [by left|by right].
    + intros j cur s0 o0. apply writing_insert. discriminate.
  - apply get_run_spec in Hget as [Hrow _]. destruct (Hc i _ r Hi eq_refl) as (row & Hrow' & Hcase).
    rewrite Hrow in Hrow'. injection Hrow' as <-.
    destruct Hcase as [|[_ Hst]]; [congruence|]. destruct (Hk _ _ Hrow) as [Hid _].
    eapply world_ok_safe; [done|apply db_safe_refl| |].
    + intros j th [[<- <-]|[Hne Hj]]%lookup_insert_Some; right; [|by exists th].
      exists (TExecuting r session). simpl. split_and!; congruence.
    + intros j cur' s' o' [[<- [= <- <- <-]]|[Hne Hj]]%lookup_insert_Some; [done|by eapply Ho].
  - by apply Hdel, db_safe_refl.
  - apply Hdel. eapply persist_safe; [done|by eapply Ho|done].
  - by apply Hins.
  - apply Hdel. by eapply ensure_safe.
  - apply Hdel, db_safe_refl.
  - apply Hsafe; [intros j th Hj; right; by exists th|done|by eapply reap_safe].
  - apply Hsafe; [intros j th Hj; right; by exists th|done|by apply events_safe].
Qed.

Lemma world_ok_reachable w : reachable t max_retries false w -> world_ok t w.
Proof.
  induction 1 as [|w w' _ IH Hs]; [|by eapply world_ok_step].
  split; simpl; try done; intros; by rewrite ?lookup_empty in *.
Qed.
End invariant.

Lemma step_db t n w w' :
  world_ok t w -> step t n false w w' ->
  db_safe t (db w) (db w') \/ exists r res, requeue_run t r (db w) = (res, db w').
Proof.
  intros [Hk _ _ _ Ho] Hs. destruct Hs; simpl; try done;
    try (left; apply db_safe_refl); try (right; eauto; fail).
  - left. by eapply enqueue_safe.
  - left. by eapply claim_safe.
  - left. by eapply claim_safe.
  - left. eapply persist_safe; [done|by eapply Ho|done].
  - left. by eapply ensure_safe.
  - left. by eapply reap_safe.
  - left. by apply events_safe.
Qed.

(** A run that ended is not a worker's or a reaper's to change. *)
Lemma step_terminal t n w w' id r :
  world_ok t w -> step t n false w w' ->
  rows (db w) !! id = Some r -> is_terminal r = true -> rows (db w') !! id = Some r.
Proof.
  intros Hok Hs Hr Ht. destruct (step_db _ _ _ _ Hok Hs) as [Hsafe|(r0 & res & Hq)].
  - destruct (safe_stays _ _ _ _ (Hsafe id) r Hr) as (r' & Hr' & Heq & _). by rewrite <-(Heq Ht).
  - destruct (requeue_spec _ _ _ _ _ Hq) as (_ & Hother & Hrow).
    destruct (decide (id = run_id r0)) as [->|Hne]; [|by rewrite Hother].
    destruct Hrow as [->|(row & row' & Hold & Hrun & _)]; [done|].
    simplify_eq. apply not_terminal_running in Hrun. congruence.
Qed.

(** Transient faults are retried, never escalated. *)
Lemma transient_not_escalated e : is_transient e = true -> should_escalate e = false.
Proof.
  destruct e as [e|]; [|done]. simpl. rewrite mem_true. intros Hin. revert Hin.
  generalize (err_code e). apply Forall_forall. apply (bool_decide_unpack _). by vm_compute.
Qed.

(** ** Properties *)

Section properties.
Context (t : uuid) (max_retries : nat).

(** C20: However deliveries, retries, crashes, failure handlers and the reaper
    interleave, a run has exactly one finish event when it has ended and none
    before, and once it has ended no worker and no reaper changes it. *)
Theorem runs_end_once (w w' : world) (id : uuid) :
  reachable t max_retries false w -> step t max_retries false w w' ->
  finishes id (db w) = ended (rows (db w) !! id) /\
  forall r, rows (db w) !! id = Some r -> is_terminal r = true -> rows (db w') !! id = Some r.
Proof.
  intros Hw Hs. pose proof (world_ok_reachable _ _ _ Hw) as Hok. split; [apply Hok|].
  intros r. by eapply step_terminal.
Qed.

(** C21: Under deliveries, redeliveries, retries, crashes, failure handlers and the
    reaper, in any interleaving, and while no owner resumes, reroutes or cancels an
    escalated run: a worker executes only a run it holds the claim of - until the run
    has ended it is running under that worker's claim timestamp - and no other worker
    executes it.  (Two resumes of one escalation do break this, see
    [two_resumes_two_workers].) *)
Theorem one_worker_per_run (w : world) (i : nat) (th : thread) (r : Run) :
  reachable t max_retries false w -> threads w !! i = Some th -> claim_of th = Some r ->
  exists row, rows (db w) !! run_id r = Some row /\
    (is_terminal row = true \/
     (run_status row = RUNNING /\ started_at row = started_at r /\
      forall j th' r', j <> i -> threads w !! j = Some th' -> claim_of th' = Some r' ->
        run_id r' <> run_id r)).
Proof.
  intros Hw Hi Hc. pose proof (world_ok_reachable _ _ _ Hw) as [_ Hcl Hu _ _].
  destruct (Hcl i th r Hi Hc) as (row & Hrow & [Ht|[Hrun Hst]]); exists row; [by auto|].
  split; [done|right]. split_and!; [done|done|]. intros j th' r' Hne Hj Hcj Heq.
  pose proof (Hu i j th th' r r' Hi Hj (not_eq_sym Hne) Hc Hcj (eq_sym Heq)) as He.
  rewrite Hrow in He. simpl in He. by rewrite (not_terminal_running _ Hrun) in He.
Qed.

(** The runs the reaper fails: running, or queued by a retry, since before the
    cutoff. *)
Definition stale (older_than : Z) (r : Run) : Prop :=
  (run_status r = RUNNING \/ (run_status r = QUEUED /\ is_Some (started_at r))) /\
  default (created_at r) (started_at r) < older_than.

(** The reaper fails a run exactly when it is a stale claim: it is then
    failed with the stale-run reason and one finish event, a second sweep does
    nothing, and a run that is not stale is left as it is. *)
Theorem reaper_fails_stale_runs (d d' : rundb) (id : uuid) (older_than now : Z)
    (delivered won : bool) :
  keyed t d -> reap_stale_run t id older_than now delivered d = (won, d') ->
  (won = true <-> exists r, rows d !! id = Some r /\ stale older_than r) /\
  (won = false -> d' = d) /\
  (won = true -> exists r', rows d' !! id = Some r' /\ run_status r' = FAILED /\
     run_error r' = Some STALE_RUN_ERROR /\ finishes id d' = S (finishes id d) /\
     reap_stale_run t id older_than now delivered d' = (false, d')).
Proof.
  intros Hk. unfold reap_stale_run, fail_stale_running, stale.
  destruct (update_where _ _ _ _ _) as [o d1] eqn:E.
  assert (forall r, (bool_decide (run_status r = RUNNING) || bool_decide (run_status r = QUEUED)
     && match started_at r with Some _ => true | None => false end)
     && (default (created_at r) (started_at r) <? older_than) = true
     <-> stale older_than r) as Hst.
  { intros r. unfold stale. rewrite andb_true_iff, orb_true_iff, andb_true_iff, !bool_decide_eq_true,
      Z.ltb_lt. destruct (started_at r); rewrite ?is_Some_alt; naive_solver. }
  pose proof E as Ew.
  apply update_where_spec in E as [[-> ->]|(r & Hr & Ht & Hc & -> & ->)].
  - simpl. intros [= <- <-]. split_and!; [|done|done]. split; [done|].
    intros (r & Hr & Hs%Hst). exfalso. unfold update_where, get_run in Ew. rewrite Hr in Ew.
    simpl in Ew. rewrite bool_decide_eq_true_2 in Ew by (by eapply Hk). by rewrite Hs in Ew.
  - simpl. intros [= <- <-]. apply Hst in Hc. destruct (Hk _ _ Hr) as [Hid _].
    split_and!; [split; [eauto|done]|done|]. intros _. eexists. unfold _audit_run, emit.
    cbn [rows events]. rewrite lookup_insert_eq. split_and!; [done|done|done| |].
    + unfold finishes. simpl. rewrite !List.filter_app, !length_app. simpl.
      rewrite bool_decide_eq_true_2 by done. simpl. lia.
    + unfold update_where, get_run. simpl. rewrite lookup_insert_eq. simpl.
      by rewrite bool_decide_eq_true_2 by done.
Qed.

(** Resume, cancel and reroute act only on an escalated run of the caller:
    any other run, or a bad reroute target, is refused and no run changes;
    resume and reroute queue a fresh execution, under the new owner for a
    reroute, cancel fails the run for good, and each leaves its audit event. *)
Theorem controls_act_on_escalated (caller id : uuid) (c : control) (known : bool) (now : Z)
    (d d' : rundb) (res : res app_error (Run * bool)) :
  keyed t d -> control_run t caller id c known now d = (res, d') ->
  match res with
  | Err _ => rows d' = rows d /\
      (events d' = events d \/ exists resource i, events d' = events d ++ [EvDenied resource i])
  | Ok (r', requeued) =>
      exists r, rows d !! id = Some r /\ run_owner r = caller /\ run_status r = ESCALATED /\
        rows d' !! id = Some r' /\
        (forall id', id' <> id -> rows d' !! id' = rows d !! id') /\
        match c with
        | CResume => requeued = true /\ run_status r' = QUEUED /\ started_at r' = None /\
            run_error r' = None /\ run_owner r' = caller /\
            events d' = events d ++ [EvAudit RUN_RESUMED id caller []]
        | CReroute to_owner => requeued = true /\ run_status r' = QUEUED /\ started_at r' = None /\
            run_error r' = None /\ run_owner r' = to_owner /\ to_owner <> caller /\ known = true /\
            events d' = events d ++ [EvAudit RUN_REROUTED id caller []]
        | CCancel => requeued = false /\ run_status r' = FAILED /\ run_error r' = Some CANCELLED /\
            events d' = events d ++ [EvAudit RUN_CANCELLED id caller []]
        end
  end.
Proof.
  intros Hk. unfold control_run, _load_escalated.
  destruct (get_run t id d) as [r|] eqn:Eg; [|intros [= <- <-]; simpl; eauto].
  apply get_run_spec in Eg as [Hr Ht]. destruct (Hk _ _ Hr) as [Hid _].
  case_bool_decide as Ho; simpl; [|intros [= <- <-]; simpl; eauto].
  case_bool_decide as Hs; simpl; [|intros [= <- <-]; eauto].
  destruct (reroute_target c known r d) as [[[]|e] d1] eqn:Et.
  2: { unfold reroute_target in Et. destruct c; simplify_eq.
       destruct (bool_decide _), known; simplify_eq; intros [= <- <-]; simpl; eauto. }
  assert (d1 = d /\ (reroute_target c known r d).1 = Ok tt) as [-> Et1].
  { rewrite Et. split; [|done]. unfold reroute_target in Et. destruct c; simplify_eq; try done.
    destruct (bool_decide _), known; by simplify_eq. }
  clear Et. rename Et1 into Et.
  unfold control_write, mark_queued, mark_terminal, reassign_owner, update_where, get_run.
  destruct c as [| |to_owner]; simpl in Et; simpl; rewrite Hid, Hr; simpl;
    rewrite bool_decide_eq_true_2 by done; simpl.
  - intros [= <- <-]. exists r. simpl. split_and!; try done; [apply lookup_insert_eq|].
    intros id' Hne. by rewrite lookup_insert_ne.
  - intros [= <- <-]. exists r. simpl. split_and!; try done; [apply lookup_insert_eq|].
    intros id' Hne. by rewrite lookup_insert_ne.
  - rewrite ?Hid, lookup_insert_eq. simpl. rewrite bool_decide_eq_true_2 by done. simpl.
    intros [= <- <-]. exists r. simpl. case_bool_decide; [done|].
    destruct known; [|done]. split_and!; try done; [apply lookup_insert_eq| |congruence].
    intros id' Hne. by rewrite !lookup_insert_ne.
Qed.
End properties.

(** ** Concrete histories *)

Definition demo_assistant : Assistant := mk_assistant 100 5 PUBLISHED.
Definition demo_enqueued : rundb :=
  (enqueue_manual_run 1 10 5 100 (Some demo_assistant) (Some 200%N) MANUAL None [] 500 (db start)).2.
Definition demo_run : Run := mk_run 10 1 5 100 (Some 200%N) None None MANUAL QUEUED []
  None None None None None 500.

(** One run, delivered twice: both deliveries read it queued, the first claims
    it. *)
Definition hist1 : world := mk_world demo_enqueued ∅.
Definition hist2 : world := mk_world demo_enqueued {[0%nat := TObserved demo_run]}.
Definition hist3 : world :=
  mk_world demo_enqueued (<[1%nat := TObserved demo_run]> (threads hist2)).
Definition demo_claimed : Run := set_status RUNNING (Some 1000) None None demo_run.
Definition hist4 : world :=
  mk_world (claim_run 1 demo_run 1000 true true 77 true demo_enqueued).2
           (<[0%nat := TExecuting demo_claimed 77]> (threads hist3)).

Lemma hist4_reachable controls : reachable 1 3 controls hist4.
Proof.
  apply (reach_step _ _ _ hist3); [apply (reach_step _ _ _ hist2); [apply (reach_step _ _ _ hist1);
    [apply (reach_step _ _ _ start); [constructor|]|]|]|].
  - eapply (step_enqueue _ _ _ start 10 5 100 (Some demo_assistant) (Some 200%N) MANUAL None [] 500);
      vm_compute; reflexivity.
  - apply (step_observe _ _ _ hist1 0 10 demo_run); vm_compute; reflexivity.
  - apply (step_observe _ _ _ hist2 1 10 demo_run); vm_compute; reflexivity.
  - eapply (step_claim _ _ _ hist3 0 demo_run _ 1000 true true 77 77 true); vm_compute; reflexivity.
Qed.

(** The duplicate's transaction fails; its failure handler fails the run that
    the first delivery is executing. *)
Definition demo_error : RunError := mk_error (cp "internal_error") (cp "The run failed unexpectedly.").
Definition hist5 : world :=
  mk_world (db hist4) (<[1%nat := TEnsuring 10 demo_error None]> (threads hist4)).
Definition hist6 : world :=
  mk_world (ensure_run_terminal_on_failure 1 10 demo_error None 2000 true (db hist5)).2
           (delete 1%nat (threads hist5)).

Example duplicate_fails_the_claimed_run :
  reachable 1 3 false hist6 /\ threads hist6 !! 0%nat = Some (TExecuting demo_claimed 77) /\
  run_status <$> rows (db hist6) !! 10%N = Some FAILED.
Proof.
  split_and!; [|vm_compute; reflexivity..].
  apply (reach_step _ _ _ hist5); [apply (reach_step _ _ _ hist4); [apply hist4_reachable|]|].
  - apply (step_raise _ _ _ hist4 1 (TObserved demo_run)); vm_compute; reflexivity.
  - eapply (step_ensure _ _ _ hist5 1 10 demo_error None 2000 true); vm_compute; reflexivity.
Qed.

(** The first delivery escalates the run; its owner's resume and cancel both
    load it; after the resumed run has succeeded, the cancel fails it. *)
Definition escalating : run_outcome :=
  mk_outcome FAILED None (Some (mk_error (cp "ambiguous") [])) None false.
Definition succeeding : run_outcome := mk_outcome SUCCEEDED None None (Some 300%N) true.
Definition row_of (w : world) : Run := default demo_run (rows (db w) !! 10%N).

Definition race1 : world := mk_world (db hist4) (<[0%nat := TWriting (row_of hist4) 77 escalating]> (threads hist4)).
Definition race2 : world :=
  mk_world (persist_outcome 1 (row_of hist4) 77 escalating 2000 true (db race1)).2 (delete 0%nat (threads race1)).
Definition race3 : world := mk_world (db race2) (<[2%nat := TControl 5 CResume (row_of race2)]> (threads race2)).
Definition race4 : world := mk_world (db race3) (<[3%nat := TControl 5 CCancel (row_of race2)]> (threads race3)).
Definition race5 : world :=
  mk_world (control_write 1 5 CResume (row_of race2) 3000 (db race4)).2 (delete 2%nat (threads race4)).
Definition race6 : world := mk_world (db race5) (<[4%nat := TObserved (row_of race5)]> (threads race5)).
Definition race_claimed : Run := set_status RUNNING (Some 4000) None None (row_of race5).
Definition race7 : world :=
  mk_world (claim_run 1 (row_of race5) 4000 true true 78 true (db race6)).2
           (<[4%nat := TExecuting race_claimed 78]> (threads race6)).
Definition race8 : world := mk_world (db race7) (<[4%nat := TWriting (row_of race7) 78 succeeding]> (threads race7)).
Definition race9 : world :=
  mk_world (persist_outcome 1 (row_of race7) 78 succeeding 5000 true (db race8)).2 (delete 4%nat (threads race8)).
Definition race10 : world :=
  mk_world (control_write 1 5 CCancel (row_of race2) 6000 (db race9)).2 (delete 3%nat (threads race9)).

Example late_cancel_overwrites_success :
  reachable 1 3 true race9 /\ step 1 3 true race9 race10 /\
  run_status (row_of race9) = SUCCEEDED /\ run_status (row_of race10) = FAILED.
Proof.
  split_and!; [|eapply (step_control_write _ _ _ race9 3 5 CCancel (row_of race2) 6000);
    vm_compute; reflexivity|vm_compute; reflexivity..].
  apply (reach_step _ _ _ race8); [apply (reach_step _ _ _ race7); [apply (reach_step _ _ _ race6);
    [apply (reach_step _ _ _ race5); [apply (reach_step _ _ _ race4); [apply (reach_step _ _ _ race3);
    [apply (reach_step _ _ _ race2); [apply (reach_step _ _ _ race1); [apply (reach_step _ _ _ hist4);
    [apply hist4_reachable|]|]|]|]|]|]|]|]|].
  - eapply (step_read_outcome _ _ _ hist4 0 demo_claimed 77 escalating 0); try (vm_compute; reflexivity).
    by right.
  - eapply (step_persist _ _ _ race1 0 (row_of hist4) 77 escalating 2000 true); try (vm_compute; reflexivity).
    done.
  - eapply (step_control_load _ _ _ race2 2 10 5 CResume true); vm_compute; reflexivity.
  - eapply (step_control_load _ _ _ race3 3 10 5 CCancel true); vm_compute; reflexivity.
  - eapply (step_control_write _ _ _ race4 2 5 CResume (row_of race2) 3000); vm_compute; reflexivity.
  - eapply (step_observe _ _ _ race5 4 10); vm_compute; reflexivity.
  - eapply (step_claim _ _ _ race6 4 (row_of race5) _ 4000 true true 78 78 true); vm_compute; reflexivity.
  - eapply (step_read_outcome _ _ _ race7 4 race_claimed 78 succeeding 0); try (vm_compute; reflexivity).
    by left.
  - eapply (step_persist _ _ _ race8 4 (row_of race7) 78 succeeding 5000 true); try (vm_compute; reflexivity).
    done.
Qed.

(** Two resumes of one escalation: the second requeues the run that a worker has
    claimed since, and another worker claims and executes it too. *)
Definition twin4 : world := mk_world (db race3) (<[3%nat := TControl 5 CResume (row_of race2)]> (threads race3)).
Definition twin5 : world :=
  mk_world (control_write 1 5 CResume (row_of race2) 3000 (db twin4)).2 (delete 2%nat (threads twin4)).
Definition twin6 : world := mk_world (db twin5) (<[4%nat := TObserved (row_of twin5)]> (threads twin5)).
Definition twin7 : world :=
  mk_world (claim_run 1 (row_of twin5) 4000 true true 78 true (db twin6)).2
           (<[4%nat := TExecuting (set_status RUNNING (Some 4000) None None (row_of twin5)) 78]> (threads twin6)).
Definition twin8 : world :=
  mk_world (control_write 1 5 CResume (row_of race2) 4500 (db twin7)).2 (delete 3%nat (threads twin7)).
Definition twin9 : world := mk_world (db twin8) (<[5%nat := TObserved (row_of twin8)]> (threads twin8)).
Definition twin10 : world :=
  mk_world (claim_run 1 (row_of twin8) 5000 true true 79 true (db twin9)).2
           (<[5%nat := TExecuting (set_status RUNNING (Some 5000) None None (row_of twin8)) 79]> (threads twin9)).

Lemma race3_reachable : reachable 1 3 true race3.
Proof.
  apply (reach_step _ _ _ race2); [apply (reach_step _ _ _ race1); [apply (reach_step _ _ _ hist4);
    [apply hist4_reachable|]|]|].
  - eapply (step_read_outcome _ _ _ hist4 0 demo_claimed 77 escalating 0); try (vm_compute; reflexivity).
    by right.
  - eapply (step_persist _ _ _ race1 0 (row_of hist4) 77 escalating 2000 true); try (vm_compute; reflexivity).
    done.
  - eapply (step_control_load _ _ _ race2 2 10 5 CResume true); vm_compute; reflexivity.
Qed.

Example two_resumes_two_workers :
  reachable 1 3 true twin10 /\
  exists r1 m1 r2 m2, threads twin10 !! 4%nat = Some (TExecuting r1 m1) /\
    threads twin10 !! 5%nat = Some (TExecuting r2 m2) /\ run_id r1 = run_id r2.
Proof.
  split; [|do 4 eexists; split_and!; vm_compute; reflexivity].
  apply (reach_step _ _ _ twin9); [apply (reach_step _ _ _ twin8); [apply (reach_step _ _ _ twin7);
    [apply (reach_step _ _ _ twin6); [apply (reach_step _ _ _ twin5); [apply (reach_step _ _ _ twin4);
    [apply (reach_step _ _ _ race3); [apply race3_reachable|]|]|]|]|]|]|].
  - eapply (step_control_load _ _ _ race3 3 10 5 CResume true); vm_compute; reflexivity.
  - eapply (step_control_write _ _ _ twin4 2 5 CResume (row_of race2) 3000); vm_compute; reflexivity.
  - eapply (step_observe _ _ _ twin5 4 10); vm_compute; reflexivity.
  - eapply (step_claim _ _ _ twin6 4 (row_of twin5) _ 4000 true true 78 78 true); vm_compute; reflexivity.
  - eapply (step_control_write _ _ _ twin7 3 5 CResume (row_of race2) 4500); vm_compute; reflexivity.
  - eapply (step_observe _ _ _ twin8 5 10); vm_compute; reflexivity.
  - eapply (step_claim _ _ _ twin9 5 (row_of twin8) _ 5000 true true 79 79 true); vm_compute; reflexivity.
Qed.

(** ** Witnesses *)

Definition hist7 : world := mk_world (db hist6) (delete 0%nat (threads hist6)).

Lemma hist6_reachable : reachable 1 3 false hist6.
Proof. exact (proj1 duplicate_fails_the_claimed_run). Qed.

Lemma runs_end_once_witness :
  finishes 10 (db hist6) = 1%nat /\ rows (db hist7) !! 10%N = rows (db hist6) !! 10%N.
Proof.
  destruct (runs_end_once 1 3 hist6 hist7 10 hist6_reachable (step_crash 1 3 false hist6 0))
    as [Hf Hr].
  split; [rewrite Hf; vm_compute; reflexivity|].
  rewrite (Hr (row_of hist6)); vm_compute; reflexivity.
Defined.

Lemma one_worker_per_run_witness :
  exists row, rows (db hist4) !! 10%N = Some row /\
    (is_terminal row = true \/ started_at row = Some 1000).
Proof.
  destruct (one_worker_per_run 1 3 hist4 0 (TExecuting demo_claimed 77) demo_claimed
    (hist4_reachable false) ltac:(vm_compute; reflexivity) eq_refl) as (row & Hrow & Hcase).
  exists row. split; [exact Hrow|]. destruct Hcase as [|(_ & Hs & _)]; [by left|by right].
Defined.

Lemma demo_keyed : keyed 1 (db hist4).
Proof. apply (world_ok_reachable 1 3 hist4), hist4_reachable. Qed.

Lemma reaper_fails_stale_runs_witness :
  (reap_stale_run 1 10 900000 950000 true (db hist4)).1 = true /\
  reap_stale_run 1 10 900000 950000 true (reap_stale_run 1 10 900000 950000 true (db hist4)).2
    = (false, (reap_stale_run 1 10 900000 950000 true (db hist4)).2).
Proof.
  destruct (reaper_fails_stale_runs 1 (db hist4)
    (reap_stale_run 1 10 900000 950000 true (db hist4)).2 10 900000 950000 true true
    demo_keyed ltac:(vm_compute; reflexivity)) as (_ & _ & Hwon).
  split; [vm_compute; reflexivity|]. destruct (Hwon eq_refl) as (r' & _ & _ & _ & _ & Hagain).
  exact Hagain.
Defined.

Definition escalated_db : rundb := db race2.
Lemma escalated_keyed : keyed 1 escalated_db.
Proof.
  apply (world_ok_reachable 1 3 race2).
  apply (reach_step _ _ _ race1); [apply (reach_step _ _ _ hist4); [apply hist4_reachable|]|].
  - eapply (step_read_outcome _ _ _ hist4 0 demo_claimed 77 escalating 0); try (vm_compute; reflexivity).
    by right.
  - eapply (step_persist _ _ _ race1 0 (row_of hist4) 77 escalating 2000 true); try (vm_compute; reflexivity).
    done.
Qed.

Lemma controls_act_on_escalated_witness :
  match (control_run 1 5 10 (CReroute 6) true 7000 escalated_db).1 with
  | Ok (r', requeued) => requeued = true /\ run_status r' = QUEUED /\ run_owner r' = 6%N
  | Err _ => False
  end.
Proof.
  pose proof (controls_act_on_escalated 1 5 10 (CReroute 6) true 7000 escalated_db
    (control_run 1 5 10 (CReroute 6) true 7000 escalated_db).2
    (control_run 1 5 10 (CReroute 6) true 7000 escalated_db).1
    escalated_keyed ltac:(vm_compute; reflexivity)) as H.
  destruct (control_run 1 5 10 (CReroute 6) true 7000 escalated_db) as [[[r' q]|e] d'] eqn:E;
    simpl in *; [|vm_compute in E; discriminate E].
  destruct H as (r & _ & _ & _ & _ & _ & Hq & Hs & _ & _ & Ho & _). exact (conj Hq (conj Hs Ho)).
Defined.
