(* ===== verification/Schedules.v ===== *)
(** * Schedules and their dispatch

    [ScheduleRepository] ([backend/app/db/repositories.py]), the schedule
    use-cases ([backend/app/services/schedules_service.py]) and the dispatch of a
    fire ([_dispatch_fire], [backend/app/tasks/scheduler.py]).

    A request is a function on [sstate]: the schedules and runs of the database, the
    schedules whose Beat entry is projected, and the audit events; its transaction
    is taken at one instant.  The projector is best effort: [saved] says whether
    the write of its entry went through, which the API's [NullScheduleProjector] never
    does, and RedBeat's does unless an exception, of Redis or of the conversion to
    its crontab, is swallowed.  The statements of a dispatch, on the other hand, find
    the database at different moments, as the requests in between left it.  Creation
    and update times are left out, and so is the delivery preference, which these
    operations only carry. *)

From stdpp Require Import base list strings gmap.
From Stdlib Require Import Lia ZArith.
From S2P Require Import Prelude Json AuditLog Cron Runs.
Open Scope Z_scope.

Inductive OverlapPolicy : Type := SKIP | QUEUE | ALLOW.
Global Instance OverlapPolicy_eq : EqDecision OverlapPolicy.
Proof. solve_decision. Defined.

Record Schedule := mk_schedule {
  sc_id : uuid;
  sc_tenant : uuid;
  sc_owner : uuid;
  sc_assistant : uuid;
  sc_cadence : Cadence;
  sc_timezone : pystr;
  sc_inputs : dict;
  sc_overlap : OverlapPolicy;
  sc_enabled : bool;
  sc_next : option Z;
  sc_last_run : option Z;
  sc_last_status : option RunStatus
}.

Inductive sched_event : Type :=
| SAudit (action : AuditAction) (schedule : uuid) (actor : uuid)
| SDenied (resource : pystr) (id : uuid).

Record sstate := mk_sstate {
  schedules : gmap uuid Schedule;
  sruns : rundb;
  projected : gset uuid;
  sevents : list sched_event
}.

(** An operation fails with an application error, or lets a scheduling error
    escape. *)
Inductive sched_exc : Type :=
| App (e : app_error)
| Escaped (e : schedule_error).

(** ** The repository *)

Definition get_schedule (t id : uuid) (s : sstate) : option Schedule :=
  r ← schedules s !! id; if bool_decide (sc_tenant r = t) then Some r else None.

Definition put (r : Schedule) (s : sstate) : sstate :=
  mk_sstate (<[sc_id r := r]> (schedules s)) (sruns s) (projected s) (sevents s).

Definition or_old {A} (new : option A) (old : A) : A := default old new.

(** [update]: only the arguments given are written. *)
Definition patch (cadence : option Cadence) (tz : option pystr) (inputs : option dict)
    (overlap : option OverlapPolicy) (enabled : option bool) (next : option Z) (clear_next : bool)
    (r : Schedule) : Schedule :=
  mk_schedule (sc_id r) (sc_tenant r) (sc_owner r) (sc_assistant r)
    (or_old cadence (sc_cadence r)) (or_old tz (sc_timezone r)) (or_old inputs (sc_inputs r))
    (or_old overlap (sc_overlap r)) (or_old enabled (sc_enabled r))
    (if clear_next then None else match next with Some _ => next | None => sc_next r end)
    (sc_last_run r) (sc_last_status r).

(** A column that is assigned is written when the value differs from the one that was
    [loaded]; otherwise what is [stored] by then stays. *)
Definition assigned {A} `{EqDecision A} (loaded new stored : A) : A :=
  if decide (new = loaded) then stored else new.

(** [record_fire] and [advance_next_run], for the row [old] the session loaded. *)
Definition fired (old : Schedule) (last : Z) (status : RunStatus) (next : option Z) (r : Schedule) : Schedule :=
  mk_schedule (sc_id r) (sc_tenant r) (sc_owner r) (sc_assistant r) (sc_cadence r) (sc_timezone r)
    (sc_inputs r) (sc_overlap r) (sc_enabled r) (assigned (sc_next old) next (sc_next r))
    (assigned (sc_last_run old) (Some last) (sc_last_run r))
    (assigned (sc_last_status old) (Some status) (sc_last_status r)).
Definition advanced (old : Schedule) (next : option Z) (r : Schedule) : Schedule :=
  mk_schedule (sc_id r) (sc_tenant r) (sc_owner r) (sc_assistant r) (sc_cadence r) (sc_timezone r)
    (sc_inputs r) (sc_overlap r) (sc_enabled r) (assigned (sc_next old) next (sc_next r))
    (sc_last_run r) (sc_last_status r).

(** An update by id; [None] when the tenant has no such row. *)
Definition modify_schedule (t id : uuid) (f : Schedule -> Schedule) (s : sstate)
    : option Schedule * sstate :=
  match get_schedule t id s with
  | Some r => (Some (f r), put (f r) s)
  | None => (None, s)
  end.

Definition log_event (e : sched_event) (s : sstate) : sstate :=
  mk_sstate (schedules s) (sruns s) (projected s) (sevents s ++ [e]).

(** [sync] and [remove] of the projector *)
Definition project_remove (saved : bool) (id : uuid) (s : sstate) : sstate :=
  mk_sstate (schedules s) (sruns s) (if saved then projected s ∖ {[id]} else projected s) (sevents s).
Definition project_sync (saved : bool) (r : Schedule) (s : sstate) : sstate :=
  if negb (sc_enabled r) then project_remove saved (sc_id r) s
  else mk_sstate (schedules s) (sruns s) (if saved then {[sc_id r]} ∪ projected s else projected s)
         (sevents s).

(** ** The service *)

Record caller := mk_caller { c_tenant : uuid; c_owner : uuid; c_admin : bool }.

Section service.
Context (ud : N -> option Z) (zoneinfo : pystr -> option ZoneInfo).

Definition next_run (cadence : Cadence) (tz : pystr) (now : Z) : res schedule_error Z :=
  compute_next_run ud zoneinfo cadence tz now.

(** [_validate_cadence] *)
Definition _validate_cadence (cadence : Cadence) (tz : pystr) (now : Z) : res app_error unit :=
  match (_ ← validate_timezone zoneinfo tz; next_run cadence tz now) with
  | Ok _ => Ok tt
  | Err InvalidTimezone => Err (ValidationError (cp "invalid_timezone"))
  | Err _ => Err (ValidationError (cp "invalid_cron"))
  end.

(** [_safe_next_run] *)
Definition _safe_next_run (r : Schedule) (now : Z) : option Z :=
  match next_run (sc_cadence r) (sc_timezone r) now with Ok t => Some t | Err _ => None end.

Definition _may_manage (c : caller) (r : Schedule) : bool :=
  c_admin c || bool_decide (sc_owner r = c_owner c).

(** [_load_managed_or_404]: a denial is recorded. *)
Definition _load_managed_or_404 (c : caller) (id : uuid) (s : sstate) : option Schedule * sstate :=
  match get_schedule (c_tenant c) id s with
  | Some r => if _may_manage c r then (Some r, s) else (None, log_event (SDenied (cp "schedule") id) s)
  | None => (None, log_event (SDenied (cp "schedule") id) s)
  end.

(** [_load_runnable_assistant_or_error], given the lookups. *)
Definition _load_runnable_assistant_or_error (c : caller) (assistant_id : uuid)
    (assistant : option Assistant) (head : option uuid) (s : sstate) : res app_error Assistant * sstate :=
  match assistant with
  | None => (Err NotFoundError, log_event (SDenied (cp "assistant") assistant_id) s)
  | Some a =>
      if negb (c_admin c) && negb (bool_decide (as_owner a = c_owner c)) then
        (Err NotFoundError, log_event (SDenied (cp "assistant") assistant_id) s)
      else if negb (bool_decide (as_status a = PUBLISHED)) then
        (Err (ValidationError (cp "assistant_not_runnable")), s)
      else match head with
           | None => (Err (ValidationError (cp "assistant_not_runnable")), s)
           | Some _ => (Ok a, s)
           end
  end.

(** [create]; [id] is the new row's id. *)
Definition create_schedule (c : caller) (id assistant_id : uuid) (assistant : option Assistant)
    (head : option uuid) (cadence : Cadence) (tz : pystr) (inputs : dict) (overlap : OverlapPolicy)
    (enabled : bool) (now : Z) (saved : bool) (s : sstate) : res sched_exc Schedule * sstate :=
  match _load_runnable_assistant_or_error c assistant_id assistant head s with
  | (Err e, s') => (Err (App e), s')
  | (Ok _, s') =>
      match _validate_cadence cadence tz now with
      | Err e => (Err (App e), s')
      | Ok _ =>
          match (if enabled then Some <$> next_run cadence tz now else Ok None) with
          | Err e => (Err (Escaped e), s')
          | Ok next =>
              let r := mk_schedule id (c_tenant c) (c_owner c) assistant_id cadence tz inputs overlap
                         enabled next None None in
              (Ok r, log_event (SAudit SCHEDULE_CREATED id (c_owner c))
                       (project_sync saved r (put r s')))
          end
      end
  end.

(** [update]; an absent argument is [UNSET]. *)
Definition update_schedule (c : caller) (id : uuid) (cadence : option Cadence) (tz : option pystr)
    (inputs : option dict) (overlap : option OverlapPolicy) (enabled : option bool)
    (now : Z) (saved : bool) (s : sstate) : res sched_exc Schedule * sstate :=
  match _load_managed_or_404 c id s with
  | (None, s') => (Err (App NotFoundError), s')
  | (Some existing, s') =>
      let new_cadence := or_old cadence (sc_cadence existing) in
      let new_timezone := or_old tz (sc_timezone existing) in
      let timing := match cadence, tz with None, None => false | _, _ => true end in
      match (if timing then _validate_cadence new_cadence new_timezone now else Ok tt) with
      | Err e => (Err (App e), s')
      | Ok _ =>
          let new_enabled := or_old enabled (sc_enabled existing) in
          let recompute := timing || match enabled with Some _ => true | None => false end in
          match (if recompute && new_enabled then Some <$> next_run new_cadence new_timezone now
                 else Ok None) with
          | Err e => (Err (Escaped e), s')
          | Ok next =>
              match modify_schedule (c_tenant c) id
                      (patch cadence tz inputs overlap enabled next (recompute && negb new_enabled)) s' with
              | (None, s2) => (Err (App NotFoundError), s2)
              | (Some updated, s2) =>
                  (Ok updated, log_event (SAudit SCHEDULE_UPDATED id (c_owner c))
                                 (project_sync saved updated s2))
              end
          end
      end
  end.

(** [delete] *)
Definition delete_schedule (c : caller) (id : uuid) (saved : bool) (s : sstate)
    : res sched_exc unit * sstate :=
  match _load_managed_or_404 c id s with
  | (None, s') => (Err (App NotFoundError), s')
  | (Some r, s') =>
      let s2 := mk_sstate (delete (sc_id r) (schedules s')) (sruns s') (projected s') (sevents s') in
      (Ok tt, log_event (SAudit SCHEDULE_DELETED (sc_id r) (c_owner c))
                (project_remove saved (sc_id r) s2))
  end.

(** [pause] *)
Definition pause (c : caller) (id : uuid) (saved : bool) (s : sstate) : res sched_exc Schedule * sstate :=
  match _load_managed_or_404 c id s with
  | (None, s') => (Err (App NotFoundError), s')
  | (Some r, s') =>
      if negb (sc_enabled r) then (Ok r, s')
      else match modify_schedule (c_tenant c) (sc_id r)
                   (patch None None None None (Some false) None true) s' with
           | (None, s2) => (Err (App NotFoundError), s2)
           | (Some updated, s2) =>
               (Ok updated, log_event (SAudit SCHEDULE_PAUSED (sc_id r) (c_owner c))
                              (project_remove saved (sc_id r) s2))
           end
  end.

(** [resume] *)
Definition resume (c : caller) (id : uuid) (now : Z) (saved : bool) (s : sstate)
    : res sched_exc Schedule * sstate :=
  match _load_managed_or_404 c id s with
  | (None, s') => (Err (App NotFoundError), s')
  | (Some r, s') =>
      if sc_enabled r then (Ok r, s')
      else match next_run (sc_cadence r) (sc_timezone r) now with
           | Err e => (Err (Escaped e), s')
           | Ok next =>
               match modify_schedule (c_tenant c) (sc_id r)
                       (patch None None None None (Some true) (Some next) false) s' with
               | (None, s2) => (Err (App NotFoundError), s2)
               | (Some updated, s2) =>
                   (Ok updated, log_event (SAudit SCHEDULE_RESUMED (sc_id r) (c_owner c))
                                  (project_sync saved updated s2))
               end
           end
  end.

(** [run_now]; [run] is the new run's id. *)
Definition run_now (c : caller) (id run : uuid) (assistant : option Assistant) (head : option uuid)
    (now : Z) (s : sstate) : res sched_exc Run * sstate :=
  match _load_managed_or_404 c id s with
  | (None, s') => (Err (App NotFoundError), s')
  | (Some r, s') =>
      if negb (sc_enabled r) then (Err (App (ConflictError (cp "schedule_paused"))), s')
      else match _load_runnable_assistant_or_error c (sc_assistant r) assistant head s' with
           | (Err e, s2) => (Err (App e), s2)
           | (Ok _, s2) =>
               match enqueue_manual_run (c_tenant c) run (sc_owner r) (sc_assistant r) assistant head MANUAL
                       (Some (sc_id r)) (sc_inputs r) now (sruns s2) with
               | (Err e, d) =>
                   (Err (App e), mk_sstate (schedules s2) d (projected s2) (sevents s2))
               | (Ok q, d) =>
                   (Ok q, log_event (SAudit SCHEDULE_RUN_NOW (sc_id r) (c_owner c))
                            (mk_sstate (schedules s2) d (projected s2) (sevents s2)))
               end
           end
  end.

(** ** Dispatch *)

Inductive fire_outcome : Type :=
| NoSchedule | SkippedOverlap | DeferredConcurrency | DeferredRate
| AssistantUnavailable | Enqueued (run : Run) | FireFailed.

(** [_dispatch_fire], whose statements find the database at three moments: [s] when
    it loads the schedule, [s1] when it counts the active runs, [s2] when its own
    writes commit.  [cap] is [run_max_in_flight_per_tenant], [admitted] what the rate
    limiter answers when it is asked, [run] the new run's id; a run of a schedule
    deleted meanwhile breaks the foreign key. *)
Definition _dispatch_fire (t id run : uuid) (cap : nat) (admitted : bool)
    (assistant : option Assistant) (head : option uuid) (now : Z) (s s1 s2 : sstate)
    : fire_outcome * sstate :=
  match get_schedule t id s with
  | None => (NoSchedule, s2)
  | Some r =>
      if negb (sc_enabled r) then (NoSchedule, s2)
      else
        let active := count_active_for_schedule t (sc_id r) (sruns s1) in
        let next_at := _safe_next_run r now in
        if (0 <? active)%nat && bool_decide (sc_overlap r = SKIP) then
          (SkippedOverlap, (modify_schedule t (sc_id r) (advanced r next_at) s2).2)
        else if (cap <=? active)%nat then
          (DeferredConcurrency, (modify_schedule t (sc_id r) (advanced r next_at) s2).2)
        else if negb admitted then
          (DeferredRate, (modify_schedule t (sc_id r) (advanced r next_at) s2).2)
        else
          let '(enq, d) := enqueue_manual_run t run (sc_owner r) (sc_assistant r) assistant head
                             SCHEDULE (Some (sc_id r)) (sc_inputs r) now (sruns s2) in
          let s' := mk_sstate (schedules s2) d (projected s2) (sevents s2) in
          match enq with
          | Err _ => (AssistantUnavailable, (modify_schedule t (sc_id r) (fired r now FAILED next_at) s').2)
          | Ok q =>
              match modify_schedule t (sc_id r) (fired r now QUEUED next_at) s' with
              | (Some _, s') => (Enqueued q, s')
              | (None, _) => (FireFailed, s2)
              end
          end
  end.
End service.

(** ** Lemmas *)

(** Rows are stored under their ids. *)
Definition keyed (s : sstate) : Prop := forall id r, schedules s !! id = Some r -> sc_id r = id.

Lemma get_schedule_spec t id s r :
  get_schedule t id s = Some r <-> schedules s !! id = Some r /\ sc_tenant r = t.
Proof.
  unfold get_schedule. destruct (schedules s !! id) as [r'|]; simpl; [|naive_solver].
  case_bool_decide; naive_solver.
Qed.

(** ** Counting a schedule's active runs *)

Definition active_run (t schedule : uuid) (r : Run) : Prop :=
  run_tenant r = t /\ run_schedule r = Some schedule /\
  (run_status r = QUEUED \/ run_status r = RUNNING).

Lemma count_active_insert t schedule id r d :
  rows d !! id = None -> active_run t schedule r ->
  count_active_for_schedule t schedule (mk_rundb (<[id := r]> (rows d)) (events d))
    = S (count_active_for_schedule t schedule d).
Proof.
  intros Hn Ha. unfold count_active_for_schedule. simpl.
  rewrite map_to_list_insert by done. rewrite filter_cons_True by done. done.
Qed.

(** ** Properties *)

Section properties.
Context (ud : N -> option Z) (zoneinfo : pystr -> option ZoneInfo).

(** A dispatch, whatever happens between its statements, creates a run only for a
    schedule that was enabled when it was loaded, passes the overlap and in-flight
    gates at the count and the rate gate, and whose assistant its owner may run; the
    run is queued under the owner, pinned to the head version, and is the only change
    to the runs. Under the skip policy, unless another run came in after the count,
    it is then the schedule's one active run. Every other outcome leaves the runs
    alone. *)
Theorem dispatch_gates (t id run : uuid) (cap : nat) (admitted : bool)
    (assistant : option Assistant) (head : option uuid) (now : Z) (s s1 s2 s' : sstate) (out : fire_outcome) :
  keyed s -> rows (sruns s2) !! run = None ->
  _dispatch_fire ud zoneinfo t id run cap admitted assistant head now s s1 s2 = (out, s') ->
  match out with
  | Enqueued q => exists r a v, schedules s !! id = Some r /\ sc_tenant r = t /\ sc_enabled r = true /\
      (count_active_for_schedule t id (sruns s1) < cap)%nat /\ admitted = true /\
      (sc_overlap r = SKIP -> count_active_for_schedule t id (sruns s2)
         = count_active_for_schedule t id (sruns s1) -> count_active_for_schedule t id (sruns s') = 1%nat) /\
      assistant = Some a /\ as_owner a = sc_owner r /\ as_status a = PUBLISHED /\ head = Some v /\
      run_owner q = sc_owner r /\ run_version q = Some v /\ run_schedule q = Some id /\
      run_status q = QUEUED /\ run_trigger q = SCHEDULE /\
      rows (sruns s') = <[run := q]> (rows (sruns s2))
  | _ => rows (sruns s') = rows (sruns s2)
  end.
Proof.
  intros Hok Hfresh. unfold _dispatch_fire.
  destruct (get_schedule t id s) as [r|] eqn:Eg; [|by intros [= <- <-]].
  apply get_schedule_spec in Eg as [Hr Ht]. pose proof (Hok _ _ Hr) as Hid.
  destruct (sc_enabled r) eqn:Ee; [|by intros [= <- <-]]. simpl. rewrite Hid.
  assert (forall f s0, sruns (modify_schedule t id f s0).2 = sruns s0) as Hm.
  { intros f s0. unfold modify_schedule. by destruct (get_schedule t id s0). }
  destruct ((0 <? _)%nat && bool_decide (sc_overlap r = SKIP)) eqn:Eo;
    [intros [= <- <-]; by rewrite Hm|].
  destruct (Nat.leb_spec cap (count_active_for_schedule t id (sruns s1)));
    [intros [= <- <-]; by rewrite Hm|].
  destruct admitted; simpl; [|intros [= <- <-]; by rewrite Hm].
  destruct (enqueue_manual_run _ _ _ _ _ _ _ _ _ _ _) as [[q|e] d] eqn:Eq.
  2: { intros [= <- <-]. rewrite Hm. simpl. unfold enqueue_manual_run in Eq.
       repeat (case_match; simplify_eq; try done). }
  destruct (modify_schedule t id _ _) as [[o|] s3] eqn:Em; intros [= <- <-]; [|done].
  assert (sruns s3 = d) as -> by (change s3 with (Some o, s3).2; by rewrite <-Em, Hm).
  unfold enqueue_manual_run in Eq.
  destruct assistant as [a|]; [|done].
  destruct (bool_decide (as_owner a = sc_owner r)) eqn:Eow; [|done]. simpl in Eq.
  destruct (bool_decide (as_status a = PUBLISHED)) eqn:Est; [|done]. simpl in Eq.
  destruct head as [v|]; [|done]. unfold create_run in Eq. simplify_eq. to_prop.
  exists r, a, v. split_and!; try done. simpl. intros Hskip Hsame.
  rewrite count_active_insert; [|done|split_and!; [done|done|by left]].
  destruct Eo as [Eo|]; [|done]. apply Nat.ltb_ge in Eo. lia.
Qed.

(** A schedule the caller may not manage answers exactly as one that does
    not exist: not found, with one recorded denial and no other effect. *)
Theorem foreign_schedule_hidden (c : caller) (id run : uuid) (saved : bool) (now : Z)
    (cadence : option Cadence) (tz : option pystr) (inputs : option dict)
    (overlap : option OverlapPolicy) (enabled : option bool) (assistant : option Assistant)
    (head : option uuid) (s : sstate) :
  (forall r, schedules s !! id = Some r -> sc_tenant r = c_tenant c -> _may_manage c r = false) ->
  let hidden := log_event (SDenied (cp "schedule") id) s in
  update_schedule ud zoneinfo c id cadence tz inputs overlap enabled now saved s
    = (Err (App NotFoundError), hidden) /\
  delete_schedule c id saved s = (Err (App NotFoundError), hidden) /\
  pause c id saved s = (Err (App NotFoundError), hidden) /\
  resume ud zoneinfo c id now saved s = (Err (App NotFoundError), hidden) /\
  run_now c id run assistant head now s = (Err (App NotFoundError), hidden).
Proof.
  intros Hno hidden.
  assert (_load_managed_or_404 c id s = (None, hidden)) as Hl.
  { unfold _load_managed_or_404. destruct (get_schedule (c_tenant c) id s) as [r|] eqn:E; [|done].
    apply get_schedule_spec in E as [Hr Ht]. by rewrite (Hno r Hr Ht). }
  unfold update_schedule, delete_schedule, pause, resume, run_now. rewrite Hl. done.
Qed.
End properties.

(** ** Concrete inputs *)

Definition demo_owner : caller := mk_caller 1 5 false.
Definition demo_stranger : caller := mk_caller 1 6 false.
Definition demo_empty : sstate := mk_sstate ∅ (mk_rundb ∅ []) ∅ [].

(** Two daily schedules of one owner that allow overlapping runs. *)
Definition demo_schedule (id : uuid) (overlap : OverlapPolicy) : Schedule :=
  mk_schedule id 1 5 100 daily_cadence (cp "UTC") [] overlap true (Some leap_day) None None.
Definition demo_state (overlap : OverlapPolicy) : sstate :=
  mk_sstate {[1%N := demo_schedule 1 overlap; 2%N := demo_schedule 2 overlap]}
    (mk_rundb ∅ []) {[1%N; 2%N]} [].

Lemma demo_state_keyed overlap : keyed (demo_state overlap).
Proof. unfold keyed. simpl. intros id r [[<- <-]|[_ [<- <-]%lookup_singleton_Some]]%lookup_insert_Some; done. Qed.

Definition demo_fire (id run : uuid) (cap : nat) (s s1 s2 : sstate) : fire_outcome * sstate :=
  _dispatch_fire demo_digit demo_zone 1 id run cap true (Some demo_assistant) (Some 200%N) leap_day s s1 s2.

Lemma dispatch_gates_witness :
  let d := demo_state SKIP in
  match (demo_fire 1 10 5 d d d).1 with
  | Enqueued q => run_owner q = 5%N
  | _ => False
  end.
Proof.
  intros d. pose proof (dispatch_gates demo_digit demo_zone 1 1 10 5 true (Some demo_assistant) (Some 200%N)
    leap_day d d d (demo_fire 1 10 5 d d d).2 (demo_fire 1 10 5 d d d).1 (demo_state_keyed SKIP) eq_refl
    ltac:(unfold demo_fire; apply surjective_pairing)) as H.
  destruct (demo_fire 1 10 5 d d d).1 eqn:E; try (vm_compute in E; discriminate E).
  destruct H as (r & a & v & _ & _ & _ & _ & _ & _ & _ & _ & _ & _ & _ & _ & _ & _ & H).
  vm_compute in E. injection E as <-. reflexivity.
Defined.

(** The owner pauses a schedule while its fire is dispatched: the dispatch enqueues a
    run all the same, and the paused schedule has a next run again. *)
Example pause_lost_to_dispatch :
  let d := demo_state SKIP in
  let paused := (pause demo_owner 1 false d).2 in
  let after := (demo_fire 1 10 5 d d paused).2 in
  (exists r, schedules paused !! 1%N = Some r /\ sc_enabled r = false /\ sc_next r = None)
  /\ rows (sruns after) !! 10%N <> None
  /\ exists r, schedules after !! 1%N = Some r /\ sc_enabled r = false /\ sc_next r <> None.
Proof.
  split_and!; [eexists; split_and!; vm_compute; reflexivity|vm_compute; discriminate|].
  eexists. split_and!; [vm_compute; reflexivity|done|vm_compute; discriminate].
Qed.

Lemma foreign_schedule_hidden_witness :
  pause demo_stranger 1 true (demo_state SKIP)
    = (Err (App NotFoundError), log_event (SDenied (cp "schedule") 1) (demo_state SKIP)).
Proof.
  refine (proj1 (proj2 (proj2 (foreign_schedule_hidden demo_digit demo_zone demo_stranger 1 0 true 0
    None None None None None None None (demo_state SKIP) _)))).
  intros r Hr _. vm_compute in Hr. injection Hr as <-. reflexivity.
Defined.

(** The in-flight cap counts one schedule's runs, not the tenant's: with a cap of
    one, two schedules of a tenant have a run in flight each. *)
Example cap_is_per_schedule :
  let s0 := demo_state ALLOW in
  let s1 := (demo_fire 1 10 1 s0 s0 s0).2 in
  let s2 := (demo_fire 2 11 1 s1 s1 s1).2 in
  length (filter (fun p : uuid * Run => run_tenant p.2 = 1%N /\ run_status p.2 = QUEUED)
            (map_to_list (rows (sruns s2)))) = 2%nat.
Proof. vm_compute. reflexivity. Qed.
