(* ===== verification/Accounting.v ===== *)
(** * Sandbox accounting: leases, daily runtime and their ownership

    [backend/app/sandbox/accounting.py] (the Lua scripts of
    [RedisSandboxAccounting], and [InMemorySandboxAccounting], the reference it
    is documented to agree with).

    Redis is a typeclass: its commands, with the documented laws the scripts
    rely on.  A script is one atomic store transformer; it runs at an instant of the
    server's clock, after the caller read its own.  Instants are microseconds,
    deadlines of keys milliseconds; time-to-live arguments are seconds, as in the code. *)

From stdpp Require Import base list strings gmap fin_maps.
From Stdlib Require Import Lia ZArith Sorted.
From S2P Require Import Prelude Cron.
Open Scope Z_scope.

(** ** Redis *)

(** The value under a key.  An aggregate that becomes empty is removed. *)
Inductive rval : Type :=
| RNone
| RZset (m : gmap pystr Z)
| RHash (m : gmap pystr pystr)
| RInt (n : Z).

Global Instance rval_eq_dec : EqDecision rval.
Proof. solve_decision. Defined.

Definition zset_val (m : gmap pystr Z) : rval := if decide (m = ∅) then RNone else RZset m.
Definition hash_val (m : gmap pystr pystr) : rval := if decide (m = ∅) then RNone else RHash m.
Definition int_val (o : option Z) : rval := match o with None => RNone | Some n => RInt n end.

(** What a read sees, for a key that holds nothing or the read's own type. *)
Definition zset_of (v : rval) : gmap pystr Z := match v with RZset m => m | _ => ∅ end.
Definition hash_of (v : rval) : gmap pystr pystr := match v with RHash m => m | _ => ∅ end.
Definition int_of (v : rval) : Z := match v with RInt n => n | _ => 0 end.

(** A key may carry a deadline, in milliseconds of the server's clock; scripts run
    at an instant of that clock. *)
Class Redis (store : Type) := {
  rget : store -> pystr -> rval;
  deadline : store -> pystr -> option Z;
  zremrangebyscore : pystr -> Z -> store -> store;      (** from -inf to the bound *)
  zadd : pystr -> Z -> pystr -> store -> store;
  zrem : pystr -> pystr -> store -> store;
  hset : pystr -> pystr -> pystr -> store -> store;
  hdel : pystr -> pystr -> store -> store;
  incrby : pystr -> Z -> store -> store;
  set_keepttl : pystr -> Z -> store -> store;
  expire : Z -> pystr -> Z -> store -> store;           (** at an instant, in seconds *)
  purge : Z -> store -> store                           (** the keys past their deadline go *)
}.

Definition MILLISECOND : Z := 1000.
(** A key is gone once the clock is past its deadline. *)
Definition past (at_ : Z) (d : option Z) : bool :=
  match d with Some d => d <? at_ / MILLISECOND | None => false end.
(** [TTL]: the time left in seconds, to the nearest one. *)
Definition ttl {store} `{Redis store} (at_ : Z) (k : pystr) (s : store) : Z :=
  match rget s k, deadline s k with
  | RNone, _ => -2
  | _, None => -1
  | _, Some d => (Z.max 0 (d - at_ / MILLISECOND) + 500) / 1000
  end.

(** [f] changes nothing but the key [k], and leaves its deadline while it exists. *)
Definition only {store} `{Redis store} (k : pystr) (f : store -> store) : Prop :=
  (forall s k', k' <> k -> rget (f s) k' = rget s k' /\ deadline (f s) k' = deadline s k')
  /\ (forall s, rget (f s) k <> RNone -> deadline (f s) k = deadline s k).

(** The documented behaviour of the commands. *)
Class RedisLaws (store : Type) `{Redis store} := {
  zremrangebyscore_only k hi : only k (zremrangebyscore k hi);
  zadd_only k sc x : only k (zadd k sc x);
  zrem_only k x : only k (zrem k x);
  hset_only k f v : only k (hset k f v);
  hdel_only k f : only k (hdel k f);
  incrby_only k d : only k (incrby k d);
  set_keepttl_only k v : only k (set_keepttl k v);
  zremrangebyscore_val k hi s m : rget s k = zset_val m ->
    rget (zremrangebyscore k hi s) k = zset_val (filter (fun p => hi < p.2) m);
  zadd_val k sc x s m : rget s k = zset_val m ->
    rget (zadd k sc x s) k = zset_val (<[x:=sc]> m);
  zrem_val k x s m : rget s k = zset_val m -> rget (zrem k x s) k = zset_val (delete x m);
  hset_val k f v s m : rget s k = hash_val m -> rget (hset k f v s) k = hash_val (<[f:=v]> m);
  hdel_val k f s m : rget s k = hash_val m -> rget (hdel k f s) k = hash_val (delete f m);
  incrby_val k d s o : rget s k = int_val o -> rget (incrby k d s) k = RInt (default 0 o + d);
  set_keepttl_val k v s : rget (set_keepttl k v s) k = RInt v;
  absent_deadline s k : rget s k = RNone -> deadline s k = None;
  expire_val at_ k secs s k' : 0 < secs -> rget (expire at_ k secs s) k' = rget s k';
  expire_deadline at_ k secs s k' : 0 < secs -> deadline (expire at_ k secs s) k'
    = if decide (k' = k /\ rget s k <> RNone) then Some (at_ / MILLISECOND + secs * 1000)
      else deadline s k';
  purge_val at_ s k : rget (purge at_ s) k = if past at_ (deadline s k) then RNone else rget s k;
  purge_deadline at_ s k :
    deadline (purge at_ s) k = if past at_ (deadline s k) then None else deadline s k
}.

(** ** Operations and replies (the protocol [SandboxAccounting]) *)

Inductive op : Type :=
| Acquire (t run : uuid) (max_concurrency ttl_seconds : Z) (owner_token : option uuid)
| Renew (t run owner_token : uuid) (ttl_seconds : Z)
| Release (t run : uuid) (owner_token : option uuid)
| Usage (t : uuid)
| Reserve (t : uuid) (seconds daily_cap_s : Z) (day : option Z)
| Settle (t : uuid) (reserved_seconds actual_seconds : Z) (day : option Z).

Inductive reply : Type :=
| Ans (b : bool)
| Done
| Used (leases seconds : Z)
| AlreadyHeld                                   (** [ExecutionAlreadyAdmitted] *)
| Unavailable.                                  (** [AccountingUnavailable] *)

Section accounting.
Context (str_uuid : uuid -> pystr) (ymd : Z -> pystr).

(** ** Keys *)

Definition _LEASE_PREFIX : pystr := cp "lumen:sandbox:conc".
Definition _DAILY_PREFIX : pystr := cp "lumen:sandbox:daily".
Definition lease_key (t : uuid) : pystr := _LEASE_PREFIX ++ cp ":" ++ str_uuid t.
Definition owners_key (t : uuid) : pystr := lease_key t ++ cp ":owners".
(** The UTC date of an instant, as a day number. *)
Definition utc_day (now : Z) : Z := now / DAY_US.
Definition daily_key_of (t : uuid) (d : Z) : pystr :=
  _DAILY_PREFIX ++ cp ":" ++ str_uuid t ++ cp ":" ++ ymd d.
Definition _daily_key (t : uuid) (now : Z) : pystr := daily_key_of t (utc_day now).
(** [math.ceil] of the seconds to the next midnight, and an hour of grace. *)
Definition _seconds_until_utc_midnight (now : Z) : Z :=
  let left := (utc_day now + 1) * DAY_US - now in
  Z.max 1 (- ((- left) / SECOND)) + 3600.

(** ** The scripts *)

Section redis.
Context {store : Type} `{Redis store}.

(** Each script runs at the instant [at_]; its [now] is the caller's. *)
Definition refresh (at_ : Z) (lease owners : pystr) (ttl_s : Z) (s : store) : store :=
  let s := expire at_ lease (Z.max ttl_s (ttl at_ lease s)) s in
  expire at_ owners (Z.max ttl_s (ttl at_ owners s)) s.

Definition LEASE_ACQUIRE (at_ : Z) (lease owners run : pystr) (cap expiry now ttl_s : Z) (owner : pystr)
    (s : store) : Z * store :=
  let s := zremrangebyscore lease now s in
  let z := zset_of (rget s lease) in
  match z !! run with
  | Some _ => (2, s)
  | None =>
      if cap <=? Z.of_nat (size z) then (0, s)
      else
        let s := zadd lease expiry run s in
        let s := hset owners run owner s in
        (1, refresh at_ lease owners ttl_s s)
  end.

Definition LEASE_RENEW (at_ : Z) (lease owners run owner : pystr) (now expiry ttl_s : Z) (s : store)
    : Z * store :=
  match zset_of (rget s lease) !! run with
  | None => (0, s)
  | Some e =>
      if e <=? now then (0, s)
      else if negb (bool_decide (hash_of (rget s owners) !! run = Some owner)) then (0, s)
      else (1, refresh at_ lease owners ttl_s (zadd lease expiry run s))
  end.

(** The token [None] is the empty argument. *)
Definition LEASE_RELEASE (lease owners run : pystr) (owner : option pystr) (s : store) : store :=
  if match owner with
     | None => false
     | Some o => negb (bool_decide (hash_of (rget s owners) !! run = Some o))
     end then s
  else zrem lease run (hdel owners run s).

Definition DAILY_RESERVE (at_ : Z) (k : pystr) (seconds cap expire_s : Z) (s : store) : Z * store :=
  if cap <? int_of (rget s k) + seconds then (0, s)
  else (1, expire at_ k expire_s (incrby k seconds s)).

Definition DAILY_SETTLE (k : pystr) (delta : Z) (s : store) : store :=
  match rget s k with
  | RNone => s
  | _ =>
      let s := incrby k delta s in
      if int_of (rget s k) <? 0 then set_keepttl k 0 s else s
  end.

Definition CURRENT_USAGE (lease k : pystr) (now : Z) (s : store) : (Z * Z) * store :=
  let s := zremrangebyscore lease now s in
  ((Z.of_nat (size (zset_of (rget s lease))), int_of (rget s k)), s).

(** [RedisSandboxAccounting], one call that read its clock at [now] and whose script
    runs at [at_]. *)
Definition redis_step (at_ now : Z) (o : op) (s : store) : reply * store :=
  match o with
  | Acquire t run cap ttl_s owner =>
      let '(n, s) := LEASE_ACQUIRE at_ (lease_key t) (owners_key t) (str_uuid run) cap
                       (now + ttl_s * SECOND) now ttl_s (str_uuid (default run owner)) s in
      (if Z.eqb n 2 then AlreadyHeld else Ans (Z.eqb n 1), s)
  | Renew t run owner ttl_s =>
      let '(n, s) := LEASE_RENEW at_ (lease_key t) (owners_key t) (str_uuid run) (str_uuid owner)
                       now (now + ttl_s * SECOND) ttl_s s in
      (if Z.eqb n 1 then Done else Unavailable, s)
  | Release t run owner =>
      (Done, LEASE_RELEASE (lease_key t) (owners_key t) (str_uuid run) (str_uuid <$> owner) s)
  | Usage t =>
      let '((n, d), s) := CURRENT_USAGE (lease_key t) (_daily_key t now) now s in
      (Used n d, s)
  | Reserve t seconds cap day =>
      let instant := default now day in
      let '(n, s) := DAILY_RESERVE at_ (_daily_key t instant) seconds cap
                       (_seconds_until_utc_midnight instant) s in
      (Ans (Z.eqb n 1), s)
  | Settle t reserved actual day =>
      (Done, DAILY_SETTLE (_daily_key t (default now day)) (actual - reserved) s)
  end.
End redis.

(** ** The in-memory reference *)

Record mem := mk_mem {
  _leases : gmap uuid (gmap uuid Z);
  _owners : gmap (uuid * uuid) uuid;
  _daily : gmap pystr Z
}.
Definition mem_empty : mem := mk_mem ∅ ∅ ∅.
Definition leases_of (m : mem) (t : uuid) : gmap uuid Z := default ∅ (_leases m !! t).
Definition live {K} `{Countable K} (now : Z) (l : gmap K Z) : gmap K Z :=
  filter (fun p => now < p.2) l.
Definition spent (m : mem) (k : pystr) : Z := default 0 (_daily m !! k).

Definition mem_step (now : Z) (o : op) (m : mem) : reply * mem :=
  match o with
  | Acquire t run cap ttl_s owner =>
      let members := live now (leases_of m t) in
      if bool_decide (is_Some (members !! run)) then (AlreadyHeld, m)
      else if cap <=? Z.of_nat (size members) then
        (Ans false, mk_mem (<[t:=members]> (_leases m)) (_owners m) (_daily m))
      else
        (Ans true, mk_mem (<[t:=<[run:=now + ttl_s * SECOND]> members]> (_leases m))
                     (<[(t, run):=default run owner]> (_owners m)) (_daily m))
  | Renew t run owner ttl_s =>
      let members := leases_of m t in
      if (default 0 (members !! run) <=? now)
         || negb (bool_decide (_owners m !! (t, run) = Some owner)) then (Unavailable, m)
      else (Done, mk_mem (<[t:=<[run:=now + ttl_s * SECOND]> members]> (_leases m))
                    (_owners m) (_daily m))
  | Release t run owner =>
      if match owner with
         | None => false
         | Some o => negb (bool_decide (_owners m !! (t, run) = Some o))
         end then (Done, m)
      else (Done, mk_mem (alter (delete run) t (_leases m)) (delete (t, run) (_owners m)) (_daily m))
  | Usage t =>
      (Used (Z.of_nat (size (live now (leases_of m t)))) (spent m (_daily_key t now)), m)
  | Reserve t seconds cap day =>
      let k := _daily_key t (default now day) in
      if cap <? spent m k + seconds then (Ans false, m)
      else (Ans true, mk_mem (_leases m) (_owners m) (<[k:=spent m k + seconds]> (_daily m)))
  | Settle t reserved actual day =>
      let k := _daily_key t (default now day) in
      (Done, mk_mem (_leases m) (_owners m)
               (<[k:=Z.max 0 (spent m k + actual - reserved)]> (_daily m)))
  end.


(** ** Histories *)

(** A call over the network: answered, lost before it reached Redis, or executed
    with its reply lost.  The caller reads its clock at [c_now]; what it sent is
    executed at [c_at]. *)
Inductive delivery : Type := Answered | Lost | ReplyLost.
Global Instance delivery_eq_dec : EqDecision delivery.
Proof. solve_decision. Defined.
Record call := mk_call { c_now : Z; c_at : Z; c_net : delivery; c_op : op }.

(** What the caller sees of a failed call: release and settle only log it. *)
Definition unanswered (o : op) : reply :=
  match o with Release _ _ _ | Settle _ _ _ _ => Done | _ => Unavailable end.
Definition over_network {S} (c : call) (f : S -> reply * S) (s : S) : reply * S :=
  match c_net c with Lost => (unanswered (c_op c), s) | _ => f s end.
(** What the caller sees of the answer [a]. *)
Definition heard (c : call) (a : reply) : reply :=
  match c_net c with Answered => a | _ => unanswered (c_op c) end.

Definition mem_call (c : call) : mem -> reply * mem := over_network c (mem_step (c_now c) (c_op c)).

(** The calls of a history against Redis and what their scripts answer, in the order in which it executes them;
    keys whose deadline has passed are gone. *)
Section runs.
Context {store : Type} `{Redis store}.
Definition redis_call (c : call) (s : store) : reply * store :=
  over_network c (redis_step (c_at c) (c_now c) (c_op c)) (purge (c_at c) s).
Fixpoint redis_run (s : store) (calls : list call) : list reply :=
  match calls with
  | [] => []
  | c :: calls => let '(a, s) := redis_call c s in a :: redis_run s calls
  end.
Definition redis_replies (s : store) (calls : list call) : list reply :=
  zip_with heard calls (redis_run s calls).
End runs.

(** ** What the reference may forget *)

(** A daily counter outlives its day by the hour of grace. *)
Definition grace_end (d : Z) : Z := (d + 1) * DAY_US + 3600 * SECOND.

(** The in-memory accounting keeps everything.  Redis may have dropped a lease
    that has expired - up to [early] before, see below - and a counter whose day
    and hour of grace are over. *)
Record forgets (at_ : Z) (early : uuid -> Z) (m m' : mem) : Prop := {
  fg_leases t run e : leases_of m' t !! run = Some e -> leases_of m t !! run = Some e;
  fg_kept t run e : leases_of m t !! run = Some e -> at_ + early t < e ->
    leases_of m' t !! run = Some e;
  fg_owners : _owners m' = _owners m;
  fg_daily t d : spent m' (daily_key_of t d) = spent m (daily_key_of t d)
    \/ (grace_end d < at_ /\ spent m' (daily_key_of t d) = 0)
}.

(** [TTL] answers in whole seconds, so a refresh that keeps the deadline of a
    longer lease may shorten it by half a second.  For each tenant: the longest
    lease time that it was granted, and half a second for each shorter one. *)
Record slack := mk_slack { sl_longest : uuid -> Z; sl_early : uuid -> Z }.
Definition no_slack : slack := mk_slack (fun _ => 0) (fun _ => 0).
Definition granted (t : uuid) (ttl_s : Z) (sl : slack) : slack :=
  if ttl_s <? sl_longest sl t
  then mk_slack (sl_longest sl)
         (fun t' => if decide (t' = t) then sl_early sl t + 500 * MILLISECOND else sl_early sl t')
  else mk_slack (fun t' => if decide (t' = t) then ttl_s else sl_longest sl t') (sl_early sl).
Definition note (o : op) (a : reply) (sl : slack) : slack :=
  match o, a with
  | Acquire t _ _ ttl_s _, Ans true => granted t ttl_s sl
  | Renew t _ _ ttl_s, Done => granted t ttl_s sl
  | _, _ => sl
  end.

(** The reference answers a history: before each call it may forget. *)
Inductive ref_run : mem -> slack -> list call -> list reply -> mem -> slack -> Prop :=
| ref_nil m sl : ref_run m sl [] [] m sl
| ref_call m sl c calls m1 a m2 rs m' sl' :
    forgets (c_at c) (sl_early sl) m m1 -> mem_call c m1 = (a, m2) ->
    ref_run m2 (note (c_op c) a sl) calls rs m' sl' ->
    ref_run m sl (c :: calls) (a :: rs) m' sl'.

(** ** What was granted *)

(** The ledger of a history, from the answers of the scripts that ran: who was
    granted a lease until when, and what was charged to a tenant's day. *)
Record ledger := mk_ledger {
  lg_leases : gmap uuid (gmap uuid (Z * uuid));
  lg_charged : gmap (uuid * Z) Z
}.
Definition lg_empty : ledger := mk_ledger ∅ ∅.
Definition holders (l : ledger) (t : uuid) : gmap uuid (Z * uuid) := default ∅ (lg_leases l !! t).
Definition charged (l : ledger) (t : uuid) (d : Z) : Z := default 0 (lg_charged l !! (t, d)).
Definition hold (t run : uuid) (e : Z) (owner : uuid) (l : ledger) : ledger :=
  mk_ledger (<[t:=<[run:=(e, owner)]> (holders l t)]> (lg_leases l)) (lg_charged l).
Definition charge (t : uuid) (d x : Z) (l : ledger) : ledger :=
  mk_ledger (lg_leases l) (<[(t, d):=x]> (lg_charged l)).

Definition enter (c : call) (a : reply) (l : ledger) : ledger :=
  match c_net c with
  | Lost => l
  | _ =>
      match c_op c, a with
      | Acquire t run _ ttl_s owner, Ans true => hold t run (c_now c + ttl_s * SECOND) (default run owner) l
      | Renew t run owner ttl_s, Done => hold t run (c_now c + ttl_s * SECOND) owner l
      | Release t run token, _ =>
          match holders l t !! run with
          | Some (_, owner) =>
              if bool_decide (token = None \/ token = Some owner)
              then mk_ledger (<[t:=delete run (holders l t)]> (lg_leases l)) (lg_charged l)
              else l
          | None => l
          end
      | Reserve t seconds _ day, Ans true =>
          let d := utc_day (default (c_now c) day) in charge t d (charged l t d + seconds) l
      | Settle t reserved actual day, _ =>
          let d := utc_day (default (c_now c) day) in
          charge t d (Z.max 0 (charged l t d + actual - reserved)) l
      | _, _ => l
      end
  end.

Fixpoint entries (l : ledger) (calls : list call) (answers : list reply) : ledger :=
  match calls, answers with
  | c :: calls, a :: answers => entries (enter c a l) calls answers
  | _, _ => l
  end.
Fixpoint noted (sl : slack) (calls : list call) (answers : list reply) : slack :=
  match calls, answers with
  | c :: calls, a :: answers => noted (note (c_op c) a sl) calls answers
  | _, _ => sl
  end.
(** The leases of a tenant that still run at an instant, [early] before the end not counted. *)
Definition running (at_ early : Z) (h : gmap uuid (Z * uuid)) : gmap uuid (Z * uuid) :=
  filter (fun p => at_ + early < p.2.1) h.

(** ** Agreement of a store with the reference *)

Section agreement.
Context `{!Inj (=) (=) str_uuid} `{!Inj (=) (=) ymd}.
Context (str_uuid_length : forall t, length (str_uuid t) = 36%nat).
Context {store : Type} `{RedisLaws store}.

(** The deadlines [d] and [d'] of a tenant's two keys cover its leases [l]: the
    owners go last, and no lease is lost more than [early] before its expiry. *)
Definition covered (at_ early longest : Z) (l : gmap uuid Z) (d d' : option Z) : Prop :=
  l <> ∅ -> exists n n', d = Some n /\ d' = Some n' /\ n <= n' /\
    forall run e, l !! run = Some e ->
      e - early < (n + 1) * MILLISECOND /\ e <= at_ + longest * SECOND.

Record agree (at_ : Z) (sl : slack) (m : mem) (s : store) : Prop := {
  ag_leases t : rget s (lease_key t) = zset_val (kmap str_uuid (leases_of m t));
  ag_owners t : exists h, rget s (owners_key t) = hash_val h /\
    forall run, is_Some (leases_of m t !! run) ->
      exists o, _owners m !! (t, run) = Some o /\ h !! str_uuid run = Some (str_uuid o);
  ag_daily t d : exists o, rget s (daily_key_of t d) = int_val o /\
    default 0 o = spent m (daily_key_of t d);
  ag_covered t : covered at_ (sl_early sl t) (sl_longest sl t) (leases_of m t)
    (deadline s (lease_key t)) (deadline s (owners_key t));
  ag_grace t d n : deadline s (daily_key_of t d) = Some n -> grace_end d <= n * MILLISECOND;
  ag_early t : 0 <= sl_early sl t;
  ag_spent t d : 0 <= spent m (daily_key_of t d)
}.

(** *** Keys *)

Lemma lease_key_inj t t' : lease_key t = lease_key t' -> t = t'.
Proof. unfold lease_key. intros Hk. by repeat apply app_inv_head in Hk; apply (inj str_uuid). Qed.

Lemma owners_key_inj t t' : owners_key t = owners_key t' -> t = t'.
Proof. unfold owners_key. by intros ?%app_inv_tail%lease_key_inj. Qed.

Lemma lease_not_owners t t' : lease_key t <> owners_key t'.
Proof.
  intros Hk%(f_equal length). revert Hk. unfold owners_key, lease_key.
  rewrite !length_app, !str_uuid_length. simpl. lia.
Qed.

Lemma daily_not_conc t d l : daily_key_of t d <> _LEASE_PREFIX ++ l.
Proof. unfold daily_key_of. by vm_compute. Qed.

Lemma lease_not_daily t t' d : lease_key t <> daily_key_of t' d.
Proof. intros Hk. symmetry in Hk. by eapply daily_not_conc. Qed.

Lemma owners_not_daily t t' d : owners_key t <> daily_key_of t' d.
Proof.
  unfold owners_key, lease_key. rewrite <-app_assoc. intros Hk. symmetry in Hk.
  by eapply daily_not_conc.
Qed.

Lemma daily_key_inj t d t' d' : daily_key_of t d = daily_key_of t' d' -> t = t' /\ d = d'.
Proof.
  unfold daily_key_of. intros Hk. do 2 apply app_inv_head in Hk.
  apply app_inj_1 in Hk as [->%(inj str_uuid) Hk]; [|by rewrite !str_uuid_length].
  apply app_inv_head in Hk. by apply (inj ymd) in Hk.
Qed.

(** *** Live leases *)

Lemma live_lookup {K} `{Countable K} now (l : gmap K Z) k e :
  live now l !! k = Some e <-> l !! k = Some e /\ now < e.
Proof. unfold live. by rewrite map_lookup_filter_Some. Qed.

Lemma live_later {K} `{Countable K} now now' (l : gmap K Z) :
  now <= now' -> live now' (live now l) = live now' l.
Proof.
  intros Hn. apply map_eq. intros k. apply option_eq. intros e.
  rewrite !live_lookup. split; [by intros [[] ?]|intros [? ?]; auto with lia].
Qed.

Lemma live_kmap now (l : gmap uuid Z) : live now (kmap str_uuid l) = kmap str_uuid (live now l).
Proof.
  apply map_eq. intros k. apply option_eq. intros e. rewrite live_lookup, !lookup_kmap_Some by done.
  setoid_rewrite live_lookup. naive_solver.
Qed.

Lemma live_insert {K} `{Countable K} now (l : gmap K Z) k e :
  now < e -> live now (<[k:=e]> l) = <[k:=e]> (live now l).
Proof. intros He. unfold live. by rewrite map_filter_insert_True. Qed.

Lemma live_delete {K} `{Countable K} now (l : gmap K Z) k :
  live now (delete k l) = delete k (live now l).
Proof. unfold live. by rewrite map_filter_delete. Qed.

Lemma zset_of_val z : zset_of (zset_val z) = z.
Proof. unfold zset_val. by case_decide. Qed.
Lemma hash_of_val h : hash_of (hash_val h) = h.
Proof. unfold hash_val. by case_decide. Qed.
Lemma int_of_val o : int_of (int_val o) = default 0 o.
Proof. by destruct o. Qed.

Lemma covered_later at_ at' early longest l d d' :
  at_ <= at' -> covered at_ early longest l d d' -> covered at' early longest l d d'.
Proof.
  intros Hle Hc Hl. destruct (Hc Hl) as (n & n' & -> & -> & Hn & Hall).
  exists n, n'. split_and!; [done..|]. intros run e He. destruct (Hall run e He). lia.
Qed.

Lemma agree_later at_ at' sl m s : at_ <= at' -> agree at_ sl m s -> agree at' sl m s.
Proof. intros Hle [Hl Ho Hd Hc Hg He Hs]. split; try done. intros t. by eapply covered_later. Qed.

(** Fewer leases are covered too. *)
Lemma covered_subset at_ early longest l l' d d' :
  l' ⊆ l -> covered at_ early longest l d d' -> covered at_ early longest l' d d'.
Proof.
  intros Hsub Hc Hl'. destruct Hc as (n & n' & -> & -> & Hn & Hall).
  { intros ->. apply Hl', map_eq. intros k. apply eq_None_not_Some. intros [e He].
    by pose proof (lookup_weaken _ _ _ _ He Hsub). }
  exists n, n'. split_and!; [done..|]. intros run e He. apply (Hall run). exact (lookup_weaken _ _ _ _ He Hsub).
Qed.

(** A refresh covers the leases it keeps and the one it was made for. *)
Definition left_s (at_ : Z) (d : option Z) : Z :=
  match d with None => -1 | Some d => (Z.max 0 (d - at_ / MILLISECOND) + 500) / 1000 end.
Definition refreshed (at_ ttl_s : Z) (d : option Z) : option Z :=
  Some (at_ / MILLISECOND + Z.max ttl_s (left_s at_ d) * 1000).

Lemma left_mono at_ n n' : n <= n' -> left_s at_ (Some n) <= left_s at_ (Some n').
Proof. intros Hn. simpl. apply Z.div_le_mono; lia. Qed.
Lemma left_keeps at_ n : n - 499 <= at_ / MILLISECOND + left_s at_ (Some n) * 1000.
Proof.
  simpl. pose proof (Z.div_mod (Z.max 0 (n - at_ / MILLISECOND) + 500) 1000 ltac:(done)).
  pose proof (Z.mod_pos_bound (Z.max 0 (n - at_ / MILLISECOND) + 500) 1000 ltac:(done)). lia.
Qed.

Lemma covered_refresh at_ now sl t ttl_s l run d d' :
  (l = ∅ -> d = None) -> 0 <= sl_early sl t -> 0 < ttl_s -> now <= at_ ->
  covered at_ (sl_early sl t) (sl_longest sl t) l d d' ->
  covered at_ (sl_early (granted t ttl_s sl) t) (sl_longest (granted t ttl_s sl) t)
    (<[run:=now + ttl_s * SECOND]> l) (refreshed at_ ttl_s d) (refreshed at_ ttl_s d').
Proof.
  intros Hempty Hearly Httl Hnow Hc _. unfold refreshed. eexists _, _. split_and!; [done|done| |].
  - destruct (decide (l = ∅)) as [El|Hl]; [rewrite (Hempty El); unfold left_s at 1; lia|].
    destruct (Hc Hl) as (n & n' & -> & -> & Hn & _). pose proof (left_mono at_ n n' Hn). lia.
  - intros run' e He. set (n0 := at_ / MILLISECOND + Z.max ttl_s (left_s at_ d) * 1000).
    assert (at_ < (at_ / MILLISECOND + 1) * MILLISECOND) as Hms.
    { pose proof (Z.mod_pos_bound at_ MILLISECOND ltac:(done)).
      pose proof (Z.div_mod at_ MILLISECOND ltac:(done)). lia. }
    assert (at_ + ttl_s * SECOND < (n0 + 1) * MILLISECOND) as Hn0.
    { unfold n0, SECOND, MILLISECOND in *. lia. }
    destruct (decide (run' = run)) as [->|Hne].
    + rewrite lookup_insert_eq in He. injection He as <-. unfold granted.
      destruct (ttl_s <? _) eqn:Es; simpl; rewrite decide_True by done; unfold MILLISECOND, SECOND in *; lia.
    + rewrite lookup_insert_ne in He by done.
      destruct Hc as (n & n' & -> & -> & Hn & Hall); [by intros ->|].
      destruct (Hall run' e He) as [H1 H2]. unfold granted.
      destruct (ttl_s <? _) eqn:Es; simpl; rewrite decide_True by done; (split; [|unfold SECOND in *; lia]).
      * pose proof (left_keeps at_ n). unfold n0, MILLISECOND in *. lia.
      * unfold SECOND in *. lia.
Qed.

Lemma granted_other t t' ttl_s sl : t' <> t ->
  sl_early (granted t ttl_s sl) t' = sl_early sl t' /\ sl_longest (granted t ttl_s sl) t' = sl_longest sl t'.
Proof. intros Hne. unfold granted. destruct (_ <? _); simpl; by rewrite ?decide_False. Qed.
Lemma granted_early t ttl_s sl t' : sl_early sl t' <= sl_early (granted t ttl_s sl) t'.
Proof. unfold granted, MILLISECOND. destruct (_ <? _); simpl; [|done]. case_decide; [subst; lia|done]. Qed.

(** A call on the leases of one tenant. *)
Lemma agree_tenant at_ sl sl' m m' s s' t h :
  agree at_ sl m s ->
  (forall k, k <> lease_key t -> k <> owners_key t -> rget s' k = rget s k /\ deadline s' k = deadline s k) ->
  _daily m' = _daily m ->
  (forall t', t' <> t -> leases_of m' t' = leases_of m t') ->
  (forall t' run, t' <> t -> _owners m' !! (t', run) = _owners m !! (t', run)) ->
  (forall t', t' <> t -> sl_early sl' t' = sl_early sl t' /\ sl_longest sl' t' = sl_longest sl t') ->
  0 <= sl_early sl' t ->
  rget s' (lease_key t) = zset_val (kmap str_uuid (leases_of m' t)) ->
  rget s' (owners_key t) = hash_val h ->
  (forall run, is_Some (leases_of m' t !! run) ->
     exists o, _owners m' !! (t, run) = Some o /\ h !! str_uuid run = Some (str_uuid o)) ->
  covered at_ (sl_early sl' t) (sl_longest sl' t) (leases_of m' t)
    (deadline s' (lease_key t)) (deadline s' (owners_key t)) ->
  agree at_ sl' m' s'.
Proof.
  intros [Hl Ho Hd Hc Hg He Hp] Hs Hm Hml Hmo Hsl He' Hz Hh Hown Hcov.
  assert (forall t' d, daily_key_of t' d <> lease_key t /\ daily_key_of t' d <> owners_key t) as Hdk.
  { split; intros Hk; symmetry in Hk; [by apply lease_not_daily in Hk|by apply owners_not_daily in Hk]. }
  assert (forall t', t' <> t -> lease_key t' <> lease_key t /\ lease_key t' <> owners_key t
    /\ owners_key t' <> lease_key t /\ owners_key t' <> owners_key t) as Htk.
  { intros t' Hne. split_and!; [by intros ?%lease_key_inj|apply lease_not_owners| |by intros ?%owners_key_inj].
    intros Hk. symmetry in Hk. by apply lease_not_owners in Hk. }
  split.
  - intros t'. destruct (decide (t' = t)) as [->|Hne]; [done|]. destruct (Htk t' Hne) as (?&?&?&?).
    rewrite Hml by done. by rewrite (proj1 (Hs (lease_key t') ltac:(done) ltac:(done))).
  - intros t'. destruct (decide (t' = t)) as [->|Hne]; [by exists h|]. destruct (Htk t' Hne) as (?&?&?&?).
    destruct (Ho t') as (h' & Hh' & Ho'). exists h'. rewrite Hml by done.
    rewrite (proj1 (Hs (owners_key t') ltac:(done) ltac:(done))). split; [done|].
    intros run Hrun. rewrite Hmo by done. by apply Ho'.
  - intros t' d. unfold spent. rewrite Hm. destruct (Hdk t' d). rewrite (proj1 (Hs (daily_key_of t' d) ltac:(done) ltac:(done))). apply Hd.
  - intros t'. destruct (decide (t' = t)) as [->|Hne]; [done|]. destruct (Htk t' Hne) as (?&?&?&?).
    destruct (Hsl t' Hne) as [-> ->]. rewrite Hml by done.
    rewrite (proj2 (Hs (lease_key t') ltac:(done) ltac:(done))), (proj2 (Hs (owners_key t') ltac:(done) ltac:(done))). apply Hc.
  - intros t' d n. destruct (Hdk t' d). rewrite (proj2 (Hs (daily_key_of t' d) ltac:(done) ltac:(done))). apply Hg.
  - intros t'. destruct (decide (t' = t)) as [->|Hne]; [done|]. rewrite (proj1 (Hsl t' Hne)). apply He.
  - intros t' d. unfold spent. rewrite Hm. apply Hp.
Qed.

(** A call on the counter of one tenant and day. *)
Lemma agree_counter at_ sl m m' s s' t d o :
  agree at_ sl m s ->
  (forall k, k <> daily_key_of t d -> rget s' k = rget s k /\ deadline s' k = deadline s k) ->
  _leases m' = _leases m -> _owners m' = _owners m ->
  (forall k, k <> daily_key_of t d -> spent m' k = spent m k) ->
  rget s' (daily_key_of t d) = int_val o ->
  default 0 o = spent m' (daily_key_of t d) -> 0 <= default 0 o ->
  (forall n, deadline s' (daily_key_of t d) = Some n -> grace_end d <= n * MILLISECOND) ->
  agree at_ sl m' s'.
Proof.
  intros [Hl Ho Hd Hc Hg He Hp] Hs Hml Hmo Hm Hk Hv Hpos Hn. split.
  - intros t'. unfold leases_of. rewrite Hml, (proj1 (Hs _ (lease_not_daily _ _ _))). apply Hl.
  - intros t'. unfold leases_of. rewrite Hml, Hmo, (proj1 (Hs _ (owners_not_daily _ _ _))). apply Ho.
  - intros t' d'. destruct (decide (t' = t /\ d' = d)) as [[-> ->]|Hne]; [by exists o|].
    rewrite (proj1 (Hs (daily_key_of t' d') ltac:(by intros ?%daily_key_inj))), Hm by (by intros ?%daily_key_inj). apply Hd.
  - intros t'. unfold leases_of.
    rewrite Hml, (proj2 (Hs _ (lease_not_daily _ _ _))), (proj2 (Hs _ (owners_not_daily _ _ _))). apply Hc.
  - intros t' d' n. destruct (decide (t' = t /\ d' = d)) as [[-> ->]|Hne]; [apply Hn|].
    rewrite (proj2 (Hs (daily_key_of t' d') ltac:(by intros ?%daily_key_inj))). apply Hg.
  - done.
  - intros t' d'. destruct (decide (t' = t /\ d' = d)) as [[-> ->]|Hne]; [by rewrite <-Hv|].
    rewrite Hm by (by intros ?%daily_key_inj). apply Hp.
Qed.

(** *** Time passes *)

Lemma zset_val_none z : zset_val z = RNone <-> z = ∅.
Proof. unfold zset_val. case_decide; naive_solver. Qed.
Lemma hash_val_none h : hash_val h = RNone <-> h = ∅.
Proof. unfold hash_val. case_decide; naive_solver. Qed.
Lemma lease_kept k (f : store -> store) s z :
  only k f -> rget (f s) k = zset_val z -> z <> ∅ -> deadline (f s) k = deadline s k.
Proof. intros Hf Hz Hne. apply Hf. by rewrite Hz, zset_val_none. Qed.
Lemma hash_kept k (f : store -> store) s h :
  only k f -> rget (f s) k = hash_val h -> h <> ∅ -> deadline (f s) k = deadline s k.
Proof. intros Hf Hz Hne. apply Hf. by rewrite Hz, hash_val_none. Qed.
Lemma kmap_none (l : gmap uuid Z) : (kmap str_uuid l : gmap pystr Z) = ∅ <-> l = ∅.
Proof. by apply kmap_empty_iff. Qed.

Definition purged (at_ : Z) (s : store) (m : mem) : mem :=
  mk_mem (map_imap (fun t l => Some (if past at_ (deadline s (lease_key t)) then ∅ else l)) (_leases m))
         (_owners m)
         (map_imap (fun k n => if past at_ (deadline s k) then None else Some n) (_daily m)).
Lemma purged_leases at_ s m t :
  leases_of (purged at_ s m) t = if past at_ (deadline s (lease_key t)) then ∅ else leases_of m t.
Proof.
  unfold leases_of, purged. simpl. rewrite map_lookup_imap.
  destruct (_leases m !! t); simpl; by destruct (past _ _).
Qed.
Lemma purged_spent at_ s m k :
  spent (purged at_ s m) k = if past at_ (deadline s k) then 0 else spent m k.
Proof.
  unfold spent, purged. simpl. rewrite map_lookup_imap.
  destruct (_daily m !! k); simpl; by destruct (past _ _).
Qed.

Lemma past_true at_ n x : past at_ (Some n) = true -> x < (n + 1) * MILLISECOND -> x <= at_.
Proof.
  simpl. intros Hn%Z.ltb_lt Hx. unfold MILLISECOND in *.
  pose proof (Z.mod_pos_bound at_ 1000 ltac:(done)). pose proof (Z.div_mod at_ 1000 ltac:(done)). lia.
Qed.
Lemma past_mono at_ n n' : n <= n' -> past at_ (Some n') = true -> past at_ (Some n) = true.
Proof. simpl. intros Hn H1%Z.ltb_lt. apply Z.ltb_lt. lia. Qed.

Lemma purge_forgets at0 at_ sl m s :
  agree at0 sl m s -> forgets at_ (sl_early sl) m (purged at_ s m).
Proof.
  intros [Hl Ho Hd Hc Hg He Hp]. split; [| |done|].
  - intros t run e. rewrite purged_leases. destruct (past _ _); [by rewrite lookup_empty|done].
  - intros t run e Hrun Hlt. rewrite purged_leases. destruct (past _ _) eqn:Ep; [|done].
    destruct (Hc t) as (n & n' & En & _ & _ & Hall); [intros E; by rewrite E, lookup_empty in Hrun|].
    rewrite En in Ep. destruct (Hall run e Hrun) as [Hn _]. pose proof (past_true _ _ _ Ep Hn). lia.
  - intros t d. rewrite purged_spent. destruct (deadline s (daily_key_of t d)) as [n|] eqn:En; [|by left].
    destruct (past at_ (Some n)) eqn:Ep; [right|by left]. split; [|done].
    specialize (Hg t d n En). simpl in Ep. apply Z.ltb_lt in Ep. unfold MILLISECOND in *.
    pose proof (Z.mod_pos_bound at_ 1000 ltac:(done)). pose proof (Z.div_mod at_ 1000 ltac:(done)). lia.
Qed.

Lemma purge_agrees at0 at_ sl m s :
  at0 <= at_ -> agree at0 sl m s -> agree at_ sl (purged at_ s m) (purge at_ s).
Proof.
  intros Hle [Hl Ho Hd Hc Hg He Hp].
  assert (forall t, leases_of (purged at_ s m) t <> ∅ ->
    past at_ (deadline s (lease_key t)) = false /\ past at_ (deadline s (owners_key t)) = false
    /\ leases_of m t <> ∅) as Hnp.
  { intros t. rewrite purged_leases. destruct (past at_ (deadline s (lease_key t))) eqn:Ep; [done|].
    intros Hne. split_and!; [done| |done]. destruct (Hc t Hne) as (n & n' & En & En' & Hnn & _).
    rewrite En in Ep. rewrite En'. apply not_true_iff_false. intros Hp'.
    by rewrite (past_mono _ _ _ Hnn Hp') in Ep. }
  split.
  - intros t. rewrite purge_val, purged_leases. destruct (past _ _); [by rewrite kmap_empty|apply Hl].
  - intros t. destruct (Ho t) as (h & Hh & Hrun). rewrite purge_val.
    destruct (past at_ (deadline s (owners_key t))) eqn:Ep.
    + exists ∅. split; [done|]. intros run [e E]. destruct (Hnp t) as (_ & ? & _); [|congruence].
      intros E'. by rewrite E', lookup_empty in E.
    + exists h. split; [done|]. intros run Hr. apply Hrun. rewrite purged_leases in Hr.
      destruct (past at_ (deadline s (lease_key t))); [|done]. destruct Hr as [e Hr]. by rewrite lookup_empty in Hr.
  - intros t d. rewrite purge_val, purged_spent. destruct (past _ _); [by exists None|apply Hd].
  - intros t Hne. destruct (Hnp t Hne) as (E1 & E2 & Hne'). rewrite !purge_deadline, E1, E2.
    rewrite purged_leases, E1. by apply (covered_later at0 at_).
  - intros t d n. rewrite purge_deadline. destruct (past _ _); [done|apply Hg].
  - done.
  - intros t d. rewrite purged_spent. by destruct (past _ _).
Qed.

(** Pruning the expired leases of a tenant. *)
Definition pruned (now : Z) (t : uuid) (m : mem) : mem :=
  mk_mem (alter (live now) t (_leases m)) (_owners m) (_daily m).
Lemma pruned_leases now t m t' :
  leases_of (pruned now t m) t' = if decide (t' = t) then live now (leases_of m t) else leases_of m t'.
Proof.
  unfold leases_of, pruned. simpl. case_decide as Ht; [subst|by rewrite lookup_alter_ne].
  rewrite lookup_alter_eq. destruct (_leases m !! t); simpl; [done|]. unfold live. by rewrite map_filter_empty.
Qed.
Lemma live_subset {K} `{Countable K} now (l : gmap K Z) : live now l ⊆ l.
Proof. apply map_filter_subseteq. Qed.

Lemma prune_forgets now at_ early m t :
  now <= at_ -> 0 <= early t -> forgets at_ early m (pruned now t m).
Proof.
  intros Hn He. split; [| |done|by left].
  - intros t' run e. rewrite pruned_leases. case_decide; [subst; by intros [? _]%live_lookup|done].
  - intros t' run e Hrun Hlt. rewrite pruned_leases. case_decide; [subst|done]. apply live_lookup. split; [done|lia].
Qed.

Lemma prune_agrees at_ now sl m s t :
  agree at_ sl m s -> agree at_ sl (pruned now t m) (zremrangebyscore (lease_key t) now s).
Proof.
  intros Ha. destruct (ag_owners _ _ _ _ Ha t) as (h & Hh & Hown).
  assert (rget (zremrangebyscore (lease_key t) now s) (lease_key t)
    = zset_val (kmap str_uuid (leases_of (pruned now t m) t))) as Hz.
  { rewrite pruned_leases, decide_True by done. rewrite <-live_kmap. apply zremrangebyscore_val, Ha. }
  assert (owners_key t <> lease_key t) as Hne by (intros E; symmetry in E; by apply lease_not_owners in E).
  apply (agree_tenant at_ sl sl m _ s _ t h); try done.
  - intros k Hk _. by apply zremrangebyscore_only.
  - intros t' Ht. by rewrite pruned_leases, decide_False.
  - apply Ha.
  - by rewrite (proj1 (proj1 (zremrangebyscore_only _ _) _ _ Hne)).
  - intros run [e E]. apply Hown. rewrite pruned_leases, decide_True in E by done.
    apply live_lookup in E as [E _]. by exists e.
  - intros Hl. rewrite (proj2 (proj1 (zremrangebyscore_only _ _) _ _ Hne)).
    rewrite (lease_kept _ _ _ _ (zremrangebyscore_only _ _) Hz) by (by rewrite kmap_none).
    revert Hl. rewrite pruned_leases, decide_True by done.
    apply (covered_subset _ _ _ _ _ _ _ (live_subset now (leases_of m t))), Ha.
Qed.

(** The same reference, written differently. *)
Lemma agree_same at_ sl m m' s :
  (forall t, leases_of m' t = leases_of m t) -> _owners m' = _owners m -> _daily m' = _daily m ->
  agree at_ sl m s -> agree at_ sl m' s.
Proof.
  intros Hl Ho Hd [? ? ? ? ? ? ?]. split; unfold spent; intros; rewrite ?Hl, ?Ho, ?Hd in *; eauto.
Qed.

(** *** The scripts *)

Lemma ttl_left at_ k s : rget s k <> RNone -> ttl at_ k s = left_s at_ (deadline s k).
Proof. unfold ttl. destruct (rget s k); [done|..]; by destruct (deadline s k). Qed.

Lemma refresh_spec at_ lease owners ttl_s s :
  0 < ttl_s -> lease <> owners -> rget s lease <> RNone -> rget s owners <> RNone ->
  let s' := refresh at_ lease owners ttl_s s in
  (forall k, rget s' k = rget s k)
  /\ (forall k, k <> lease -> k <> owners -> deadline s' k = deadline s k)
  /\ deadline s' lease = refreshed at_ ttl_s (deadline s lease)
  /\ deadline s' owners = refreshed at_ ttl_s (deadline s owners).
Proof.
  intros Ht Hne Hl Ho. unfold refresh. set (s1 := expire at_ lease _ s).
  assert (forall k, rget s1 k = rget s k) as Hv by (intros k; apply expire_val; lia).
  assert (forall k, deadline s1 k = if decide (k = lease /\ rget s lease <> RNone)
    then Some (at_ / MILLISECOND + Z.max ttl_s (ttl at_ lease s) * 1000) else deadline s k) as Hd.
  { intros k. apply expire_deadline. lia. }
  cbv zeta. split_and!.
  - intros k. by rewrite expire_val by lia.
  - intros k H1 H2. rewrite expire_deadline by lia. rewrite decide_False by tauto. by rewrite Hd, decide_False by tauto.
  - rewrite expire_deadline by lia. rewrite decide_False by (intros [? _]; done). rewrite Hd, decide_True by done.
    unfold refreshed. by rewrite ttl_left.
  - rewrite expire_deadline by lia. rewrite decide_True by (by rewrite Hv).
    unfold refreshed. rewrite ttl_left by (by rewrite Hv). by rewrite Hd, decide_False by (intros [? _]; congruence).
Qed.

Lemma seconds_enough at_ instant :
  instant <= at_ ->
  grace_end (utc_day instant)
    <= (at_ / MILLISECOND + _seconds_until_utc_midnight instant * 1000) * MILLISECOND.
Proof.
  intros Hi. unfold _seconds_until_utc_midnight, grace_end, utc_day, MILLISECOND, DAY_US, SECOND.
  set (d := instant / (86400 * 1000000)). set (left := (d + 1) * (86400 * 1000000) - instant).
  pose proof (Z.mod_pos_bound at_ 1000 ltac:(done)). pose proof (Z.div_mod at_ 1000 ltac:(done)).
  pose proof (Z.mod_pos_bound (- left) 1000000 ltac:(done)). pose proof (Z.div_mod (- left) 1000000 ltac:(done)). lia.
Qed.
Lemma seconds_positive now : 0 < _seconds_until_utc_midnight now.
Proof. unfold _seconds_until_utc_midnight. lia. Qed.

Lemma leases_insert m t x o d t' :
  leases_of (mk_mem (<[t:=x]> (_leases m)) o d) t' = if decide (t' = t) then x else leases_of m t'.
Proof.
  unfold leases_of. simpl. case_decide as Ht; [subst; by rewrite lookup_insert_eq|].
  by rewrite lookup_insert_ne.
Qed.

(** The calls the sandbox service makes: times to live are positive, a settlement
    only refunds, and a clock is read before the script runs. *)
Definition good_call (at_ now : Z) (o : op) : Prop :=
  0 < now <= at_ /\
  match o with
  | Acquire _ _ _ ttl_s _ | Renew _ _ _ ttl_s => 0 < ttl_s
  | Reserve _ seconds _ day => 0 <= seconds /\ default now day <= at_
  | Settle _ reserved actual _ => actual <= reserved
  | Release _ _ _ | Usage _ => True
  end.

Definition steps_agree (at_ now : Z) (sl : slack) (o : op) (m : mem) (s : store) : Prop :=
  exists m1, forgets at_ (sl_early sl) m m1
    /\ (redis_step at_ now o s).1 = (mem_step now o m1).1
    /\ agree at_ (note o (mem_step now o m1).1 sl) (mem_step now o m1).2 (redis_step at_ now o s).2.

Lemma forgets_refl at_ early m : forgets at_ early m m.
Proof. split; try done. by left. Qed.
Lemma forgets_trans at_ early m1 m2 m3 :
  forgets at_ early m1 m2 -> forgets at_ early m2 m3 -> forgets at_ early m1 m3.
Proof.
  intros [L K O D] [L' K' O' D']. split; [by eauto|by eauto|by rewrite O'|].
  intros t d. destruct (D' t d) as [->|[? ?]]; [apply D|by right].
Qed.

Lemma size_kmap (l : gmap uuid Z) : size (kmap str_uuid l : gmap pystr Z) = size l.
Proof.
  induction l as [|k e l Hk IH] using map_ind; [by rewrite kmap_empty|].
  rewrite kmap_insert, !map_size_insert_None, IH by (done || by rewrite lookup_kmap). done.
Qed.
Lemma insert_not_empty {A} (l : gmap pystr A) k x : <[k:=x]> l <> ∅.
Proof. apply insert_non_empty. Qed.

(** Writing a lease: the membership, its owner and the refresh. *)
Lemma lease_written at_ now sl m s s2 t run o ttl_s h :
  agree at_ sl m s -> 0 < ttl_s -> now <= at_ ->
  (forall k, k <> lease_key t -> k <> owners_key t -> rget s2 k = rget s k /\ deadline s2 k = deadline s k) ->
  rget s2 (lease_key t) = zset_val (<[str_uuid run:=now + ttl_s * SECOND]> (kmap str_uuid (leases_of m t))) ->
  rget s2 (owners_key t) = hash_val h -> h !! str_uuid run = Some (str_uuid o) ->
  (forall r, r <> run -> is_Some (leases_of m t !! r) ->
     exists o', _owners m !! (t, r) = Some o' /\ h !! str_uuid r = Some (str_uuid o')) ->
  deadline s2 (lease_key t) = deadline s (lease_key t) ->
  deadline s2 (owners_key t) = deadline s (owners_key t) ->
  agree at_ (granted t ttl_s sl)
    (mk_mem (<[t:=<[run:=now + ttl_s * SECOND]> (leases_of m t)]> (_leases m))
            (<[(t, run):=o]> (_owners m)) (_daily m))
    (refresh at_ (lease_key t) (owners_key t) ttl_s s2).
Proof.
  intros Ha Httl Hnow Hs Hz Hh Hrun Hothers Hdl Hdo.
  assert (rget s2 (lease_key t) <> RNone) as Hz1 by (rewrite Hz, zset_val_none; apply insert_not_empty).
  assert (rget s2 (owners_key t) <> RNone) as Hh1.
  { rewrite Hh, hash_val_none. intros ->. by rewrite lookup_empty in Hrun. }
  destruct (refresh_spec at_ _ _ _ _ Httl (lease_not_owners t t) Hz1 Hh1) as (Hv & Hd & Hdl' & Hdo').
  apply (agree_tenant at_ sl _ m _ s _ t h); try done.
  - intros k Hk1 Hk2. rewrite Hv, Hd by done. by apply Hs.
  - intros t' Hne. by rewrite leases_insert, decide_False.
  - intros t' r Hne. simpl. by rewrite lookup_insert_ne by congruence.
  - intros t' Hne. by apply granted_other.
  - etransitivity; [apply (ag_early _ _ _ _ Ha t)|apply granted_early].
  - rewrite Hv, Hz, leases_insert, decide_True by done. by rewrite kmap_insert.
  - by rewrite Hv.
  - intros r. rewrite leases_insert, decide_True by done. simpl.
    destruct (decide (r = run)) as [->|Hne]; [exists o; by rewrite lookup_insert_eq|].
    rewrite !lookup_insert_ne by congruence. by apply (Hothers r Hne).
  - rewrite leases_insert, decide_True, Hdl', Hdo', Hdl, Hdo by done.
    apply covered_refresh; [|apply Ha|done|done|apply Ha].
    intros E. apply absent_deadline. by rewrite (ag_leases _ _ _ _ Ha), E, kmap_empty.
Qed.

Lemma acquire_agrees at_ now sl m s t run cap ttl_s owner :
  agree at_ sl m s -> good_call at_ now (Acquire t run cap ttl_s owner) ->
  steps_agree at_ now sl (Acquire t run cap ttl_s owner) m s.
Proof.
  intros Ha0 [[_ Hnow] Httl]. pose proof (prune_agrees at_ now sl m s t Ha0) as Ha.
  exists (pruned now t m). split; [apply prune_forgets; [done|apply Ha0]|].
  assert (live now (leases_of (pruned now t m) t) = leases_of (pruned now t m) t) as El.
  { rewrite pruned_leases, decide_True by done. by rewrite live_later by lia. }
  set (m1 := pruned now t m) in *. clearbody m1.
  simpl. unfold LEASE_ACQUIRE. set (s1 := zremrangebyscore _ _ s) in *. clearbody s1.
  rewrite El, (ag_leases _ _ _ _ Ha t), zset_of_val, lookup_kmap by done.
  destruct (leases_of m1 t !! run) as [e|] eqn:Erun.
  { rewrite bool_decide_true by eauto. by split. }
  rewrite bool_decide_false by (by intros [? ?]). rewrite size_kmap.
  destruct (cap <=? _) eqn:Ecap; (split; [done|]); simpl.
  { apply (agree_same at_ sl m1); [|done..|done]. intros t'. rewrite leases_insert. by case_decide; subst. }
  destruct (ag_owners _ _ _ _ Ha t) as (h & Hh & Hown).
  assert (owners_key t <> lease_key t) as Hne by (intros E; symmetry in E; by apply lease_not_owners in E).
  assert (rget (zadd (lease_key t) (now + ttl_s * SECOND) (str_uuid run) s1) (lease_key t)
    = zset_val (<[str_uuid run:=now + ttl_s * SECOND]> (kmap str_uuid (leases_of m1 t)))) as Hz.
  { apply zadd_val, Ha. }
  set (sz := zadd _ _ _ s1) in *.
  assert (rget (hset (owners_key t) (str_uuid run) (str_uuid (default run owner)) sz) (owners_key t)
    = hash_val (<[str_uuid run:=str_uuid (default run owner)]> h)) as Hh2.
  { apply hset_val. unfold sz. by rewrite (proj1 (proj1 (zadd_only _ _ _) _ _ Hne)). }
  apply (lease_written at_ now sl m1 s1 _ t run _ ttl_s (<[str_uuid run:=str_uuid (default run owner)]> h)); [done..| | |exact Hh2| | | |].
  - intros k Hk1 Hk2. destruct (proj1 (hset_only (owners_key t) (str_uuid run) (str_uuid (default run owner))) sz k Hk2) as [-> ->].
    by apply zadd_only.
  - by rewrite (proj1 (proj1 (hset_only _ _ _) _ _ (lease_not_owners t t))).
  - by rewrite lookup_insert_eq.
  - intros r Hr Hin. rewrite lookup_insert_ne by (by intros ?%(inj str_uuid)). by apply Hown.
  - rewrite (proj2 (proj1 (hset_only _ _ _) _ _ (lease_not_owners t t))).
    apply (lease_kept _ _ _ _ (zadd_only _ _ _) Hz), insert_not_empty.
  - rewrite (hash_kept _ _ _ _ (hset_only _ _ _) Hh2) by apply insert_not_empty.
    apply (proj2 (proj1 (zadd_only _ _ _) _ _ Hne)).
Qed.

(** Two token comparisons agree. *)
Lemma token_agrees (o token : uuid) :
  bool_decide (Some (str_uuid o) = Some (str_uuid token)) = bool_decide (Some o = Some token).
Proof. apply bool_decide_ext. split; [by intros [= ->%(inj str_uuid)]|by intros [= ->]]. Qed.

Lemma renew_agrees at_ now sl m s t run owner ttl_s :
  agree at_ sl m s -> good_call at_ now (Renew t run owner ttl_s) ->
  steps_agree at_ now sl (Renew t run owner ttl_s) m s.
Proof.
  intros Ha [[Hpos Hnow] Httl]. exists m. split; [apply forgets_refl|].
  destruct (ag_owners _ _ _ _ Ha t) as (h & Hh & Hown).
  assert (owners_key t <> lease_key t) as Hne by (intros E; symmetry in E; by apply lease_not_owners in E).
  simpl. unfold LEASE_RENEW. rewrite (ag_leases _ _ _ _ Ha t), zset_of_val, Hh, hash_of_val, lookup_kmap by done.
  destruct (leases_of m t !! run) as [e|] eqn:Erun; simpl.
  2: { rewrite (proj2 (Z.leb_le _ _)) by lia. by split. }
  destruct (e <=? now) eqn:Ee; simpl; [by split|].
  destruct (Hown run) as (o & Eo & Eh); [by eexists|]. rewrite Eo, Eh, token_agrees.
  case_bool_decide as Ho; simpl; (split; [done|]); [|done].
  injection Ho as ->.
  replace (_owners m) with (<[(t, run):=owner]> (_owners m)) by (by apply insert_id).
  pose proof (zadd_val (lease_key t) (now + ttl_s * SECOND) (str_uuid run) s _ (ag_leases _ _ _ _ Ha t)) as Hz.
  apply (lease_written at_ now sl m s _ t run owner ttl_s h); [done..| |exact Hz| |done| | |].
  - intros k Hk1 _. by apply zadd_only.
  - by rewrite (proj1 (proj1 (zadd_only _ _ _) _ _ Hne)).
  - intros r _ Hin. by apply Hown.
  - apply (lease_kept _ _ _ _ (zadd_only _ _ _) Hz), insert_not_empty.
  - apply (proj2 (proj1 (zadd_only _ _ _) _ _ Hne)).
Qed.

(** The effect of a release, when the token does not prevent it. *)
Definition mem_released (t run : uuid) (m : mem) : mem :=
  mk_mem (alter (delete run) t (_leases m)) (delete (t, run) (_owners m)) (_daily m).
Definition store_released (t run : uuid) (s : store) : store :=
  zrem (lease_key t) (str_uuid run) (hdel (owners_key t) (str_uuid run) s).

Lemma released_leases t run m t' :
  leases_of (mem_released t run m) t'
  = if decide (t' = t) then delete run (leases_of m t) else leases_of m t'.
Proof.
  unfold leases_of, mem_released. simpl. case_decide as Ht; [subst|by rewrite lookup_alter_ne].
  rewrite lookup_alter_eq. destruct (_leases m !! t); simpl; [done|by rewrite delete_empty].
Qed.

(** A released lease is gone on both sides; whether a side forgets the owner of a
    run that holds no lease does not matter. *)
Lemma released_agree at_ sl m s t run (hm sm : bool) :
  agree at_ sl m s -> (is_Some (leases_of m t !! run) -> hm = sm) ->
  agree at_ sl (if hm then m else mem_released t run m) (if sm then s else store_released t run s).
Proof.
  intros Ha Hsame. destruct (ag_owners _ _ _ _ Ha t) as (h & Hh & Hown).
  assert (owners_key t <> lease_key t) as Hne by (intros E; symmetry in E; by apply lease_not_owners in E).
  set (m' := if hm then m else _). set (s' := if sm then s else _).
  assert (leases_of m' t = if sm then leases_of m t else delete run (leases_of m t)) as El.
  { assert (hm = sm \/ leases_of m t !! run = None) as [E|E].
    { destruct (leases_of m t !! run); [left; apply Hsame; by eexists|by right]. }
    - unfold m'. rewrite E. destruct sm; [done|]. by rewrite released_leases, decide_True.
    - rewrite delete_id by done. unfold m'. destruct hm; [by destruct sm|].
      rewrite released_leases, decide_True by done. rewrite delete_id by done. by destruct sm. }
  assert (forall r, is_Some (leases_of m' t !! r) -> is_Some (leases_of m t !! r)
    /\ (sm = false -> r <> run) /\ (hm = false -> r <> run)) as Hr.
  { intros r [e E]. assert (leases_of m t !! r = Some e /\ (sm = false -> r <> run)) as [E1 E2].
    { rewrite El in E. destruct sm; [by split|]. apply lookup_delete_Some in E as [? ?]. by split. }
    split_and!; [by eexists|done|]. intros Eh ->. revert E. unfold m'. rewrite Eh, released_leases, decide_True by done.
    by rewrite lookup_delete_eq. }
  assert (rget s' (lease_key t) = zset_val (kmap str_uuid (leases_of m' t))) as Hz.
  { rewrite El. unfold s'. destruct sm; [apply Ha|]. rewrite kmap_delete by done. apply zrem_val.
    rewrite (proj1 (proj1 (hdel_only _ _) _ _ (lease_not_owners t t))). apply Ha. }
  assert (rget s' (owners_key t) = hash_val (if sm then h else delete (str_uuid run) h)) as Hh'.
  { unfold s'. destruct sm; [done|]. unfold store_released.
    rewrite (proj1 (proj1 (zrem_only _ _) _ _ Hne)). by apply hdel_val. }
  assert (forall r, is_Some (leases_of m' t !! r) ->
    exists o, _owners m' !! (t, r) = Some o /\ (if sm then h else delete (str_uuid run) h) !! str_uuid r = Some (str_uuid o)) as Ho.
  { intros r Hin. destruct (Hr r Hin) as (Hin' & Hsm & Hhm). destruct (Hown r Hin') as (o & Eo & Eh). exists o. split.
    - unfold m'. destruct hm; [done|]. simpl. rewrite lookup_delete_ne; [done|]. intros [= ->]. by apply Hhm.
    - destruct sm; [done|]. rewrite lookup_delete_ne; [done|]. intros ->%(inj str_uuid). by apply Hsm. }
  apply (agree_tenant at_ sl sl m m' s s' t (if sm then h else delete (str_uuid run) h)); try done.
  - intros k Hk1 Hk2. unfold s'. destruct sm; [done|]. unfold store_released.
    destruct (proj1 (zrem_only (lease_key t) (str_uuid run)) (hdel (owners_key t) (str_uuid run) s) k Hk1) as [-> ->].
    by apply hdel_only.
  - unfold m'. by destruct hm.
  - intros t' Ht. unfold m'. destruct hm; [done|]. by rewrite released_leases, decide_False.
  - intros t' r Ht. unfold m'. destruct hm; [done|]. simpl. by rewrite lookup_delete_ne by congruence.
  - apply Ha.
  - intros Hl. assert (leases_of m' t ⊆ leases_of m t) as Hsub.
    { rewrite El. destruct sm; [done|apply delete_subseteq]. }
    assert (deadline s' (lease_key t) = deadline s (lease_key t)) as ->.
    { unfold s' in *. destruct sm; [done|]. unfold store_released in *.
      rewrite (lease_kept _ _ _ _ (zrem_only _ _) Hz) by (by rewrite kmap_none).
      apply (proj2 (proj1 (hdel_only _ _) _ _ (lease_not_owners t t))). }
    assert (deadline s' (owners_key t) = deadline s (owners_key t)) as ->.
    { unfold s' in *. destruct sm; [done|]. unfold store_released in *.
      rewrite (proj2 (proj1 (zrem_only _ _) _ _ Hne)).
      rewrite (proj1 (proj1 (zrem_only _ _) _ _ Hne)) in Hh'.
      apply (hash_kept _ _ _ _ (hdel_only _ _) Hh'). intros E.
      apply map_choose in Hl as (r & e & Er). destruct (Ho r) as (o & _ & Eo); [by eexists|].
      by rewrite E, lookup_empty in Eo. }
    exact (covered_subset _ _ _ _ _ _ _ Hsub (ag_covered _ _ _ _ Ha t) Hl).
Qed.

Lemma release_agrees at_ now sl m s t run owner :
  agree at_ sl m s -> steps_agree at_ now sl (Release t run owner) m s.
Proof.
  intros Ha. exists m. split; [apply forgets_refl|].
  destruct (ag_owners _ _ _ _ Ha t) as (h & Hh & Hown).
  simpl. unfold LEASE_RELEASE. rewrite Hh, hash_of_val.
  fold (mem_released t run m). fold (store_released t run s).
  match goal with |- context [if ?b then (Done, m) else _] => set (hm := b) end.
  match goal with |- context [if ?b then s else _] => set (sm := b) end.
  split; [by destruct hm|].
  replace (if hm then (Done, m) else (Done, mem_released t run m)).2
    with (if hm then m else mem_released t run m) by (by destruct hm).
  apply released_agree; [done|]. intros Hlive. unfold hm, sm. destruct owner as [o|]; [|done]. simpl.
  destruct (Hown run Hlive) as (o' & -> & ->). by rewrite token_agrees.
Qed.

Lemma usage_agrees at_ now sl m s t :
  agree at_ sl m s -> good_call at_ now (Usage t) -> steps_agree at_ now sl (Usage t) m s.
Proof.
  intros Ha0 [[_ Hnow] _]. pose proof (prune_agrees at_ now sl m s t Ha0) as Ha.
  exists (pruned now t m). split; [apply prune_forgets; [done|apply Ha0]|]. split; [|exact Ha].
  simpl. destruct (ag_daily _ _ _ _ Ha t (utc_day now)) as (o & Ho & Hs).
  rewrite (ag_leases _ _ _ _ Ha t), zset_of_val, size_kmap. unfold _daily_key.
  rewrite Ho, int_of_val, Hs. rewrite pruned_leases, decide_True, live_later by (done || lia). done.
Qed.

Lemma spent_insert m l o k x k' :
  spent (mk_mem l o (<[k:=x]> (_daily m))) k' = if decide (k' = k) then x else spent m k'.
Proof.
  unfold spent. simpl. case_decide as Hk; [subst; by rewrite lookup_insert_eq|].
  by rewrite lookup_insert_ne.
Qed.

Lemma reserve_agrees at_ now sl m s t seconds cap day :
  agree at_ sl m s -> good_call at_ now (Reserve t seconds cap day) ->
  steps_agree at_ now sl (Reserve t seconds cap day) m s.
Proof.
  intros Ha [_ [Hsec Hday]]. exists m. split; [apply forgets_refl|].
  set (instant := default now day) in *. set (d := utc_day instant).
  destruct (ag_daily _ _ _ _ Ha t d) as (o & Ho & Hs). pose proof (ag_spent _ _ _ _ Ha t d) as Hp.
  simpl. unfold DAILY_RESERVE, _daily_key. fold instant. fold d.
  rewrite Ho, int_of_val, Hs. destruct (cap <? _); simpl; (split; [done|]); [done|].
  pose proof (seconds_positive instant) as Hpos.
  pose proof (incrby_val (daily_key_of t d) seconds s o Ho) as Hi. set (s1 := incrby _ _ s) in *.
  eapply (agree_counter at_ sl m _ s _ t d (Some (default 0 o + seconds))); [done| |done|done| | | | |].
  - intros k Hk. rewrite expire_val, expire_deadline by done. rewrite decide_False by tauto. by apply incrby_only.
  - intros k Hk. by rewrite spent_insert, decide_False.
  - by rewrite expire_val by done.
  - rewrite spent_insert, decide_True by done. simpl. by rewrite Hs.
  - simpl. rewrite Hs. lia.
  - intros n. rewrite expire_deadline by done. rewrite decide_True by (by rewrite Hi).
    intros [= <-]. by apply seconds_enough.
Qed.

Lemma settle_agrees at_ now sl m s t reserved actual day :
  agree at_ sl m s -> good_call at_ now (Settle t reserved actual day) ->
  steps_agree at_ now sl (Settle t reserved actual day) m s.
Proof.
  intros Ha [_ Hle]. exists m. split; [apply forgets_refl|]. split; [done|]. simpl.
  unfold DAILY_SETTLE, _daily_key. set (d := utc_day (default now day)). set (k := daily_key_of t d).
  destruct (ag_daily _ _ _ _ Ha t d) as (o & Ho & Hs). pose proof (ag_spent _ _ _ _ Ha t d) as Hp.
  pose proof (ag_grace _ _ _ _ Ha t d) as Hg. fold k in Ho, Hs, Hp, Hg.
  assert (forall k' x, k' <> k -> spent (mk_mem (_leases m) (_owners m) (<[k:=x]> (_daily m))) k' = spent m k') as Hne.
  { intros k' x Hk. by rewrite spent_insert, decide_False. }
  rewrite Ho. destruct o as [n|]; simpl in Hs |- *.
  - pose proof (incrby_val k (actual - reserved) s (Some n) Ho) as Hi. set (s1 := incrby _ _ s) in *.
    assert (deadline s1 k = deadline s k) as Hd.
    { apply (proj2 (incrby_only k (actual - reserved)) s). fold s1. by rewrite Hi. }
    rewrite Hi. simpl. destruct (n + (actual - reserved) <? 0) eqn:En.
    + eapply (agree_counter at_ sl m _ s _ t d (Some 0)); [done| |done|done|by intros; apply Hne| | |done|].
      * intros k' Hk. destruct (proj1 (set_keepttl_only k 0) s1 k' Hk) as [-> ->]. by apply incrby_only.
      * apply set_keepttl_val.
      * rewrite spent_insert, decide_True by done. simpl. lia.
      * intros x. fold k. rewrite (proj2 (set_keepttl_only k 0) s1) by (by rewrite set_keepttl_val). rewrite Hd. apply Hg.
    + eapply (agree_counter at_ sl m _ s _ t d (Some (n + (actual - reserved)))); [done| |done|done|by intros; apply Hne|done| | |].
      * intros k' Hk. by apply incrby_only.
      * rewrite spent_insert, decide_True by done. simpl. lia.
      * simpl. lia.
      * intros x. fold k. rewrite Hd. apply Hg.
  - eapply (agree_counter at_ sl m _ s _ t d None); [done|done|done|done|by intros; apply Hne|done| |done|done].
    rewrite spent_insert, decide_True by done. simpl. lia.
Qed.

Lemma step_agrees at_ now sl m s o :
  agree at_ sl m s -> good_call at_ now o -> steps_agree at_ now sl o m s.
Proof.
  intros Ha Hgood. destruct o.
  - by apply acquire_agrees.
  - by apply renew_agrees.
  - by apply release_agrees.
  - by apply usage_agrees.
  - by apply reserve_agrees.
  - by apply settle_agrees.
Qed.

(** *** Histories *)

(** The calls of a history, in the order of execution. *)
Definition history (from : Z) (calls : list call) : Prop :=
  StronglySorted Z.le (from :: (c_at <$> calls)) /\
  Forall (fun c => good_call (c_at c) (c_now c) (c_op c)) calls.
Lemma history_cons from c calls :
  history from (c :: calls) ->
  from <= c_at c /\ good_call (c_at c) (c_now c) (c_op c) /\ history (c_at c) calls.
Proof.
  intros [Hs [Hg Hgs]%Forall_cons]. apply StronglySorted_inv in Hs as [Hs Hf].
  apply Forall_cons in Hf as [? _]. done.
Qed.

Lemma call_agrees at0 c sl m s :
  at0 <= c_at c -> agree at0 sl m s -> good_call (c_at c) (c_now c) (c_op c) ->
  exists m1, forgets (c_at c) (sl_early sl) m m1
    /\ (redis_call c s).1 = (mem_call c m1).1
    /\ agree (c_at c) (note (c_op c) (mem_call c m1).1 sl) (mem_call c m1).2 (redis_call c s).2.
Proof.
  intros Hle Ha Hg. pose proof (purge_agrees _ _ _ _ _ Hle Ha) as Hp.
  pose proof (purge_forgets _ (c_at c) _ _ _ Ha) as Hf. unfold redis_call, mem_call, over_network.
  destruct (step_agrees _ _ _ _ _ _ Hp Hg) as (m1 & Hf1 & Hr & Hs).
  destruct (c_net c).
  1,3: exists m1; split; [by eapply forgets_trans|done].
  exists (purged (c_at c) s m). split; [done|]. split; [done|]. by destruct (c_op c).
Qed.

Lemma run_agrees from sl m s calls :
  history from calls -> agree from sl m s ->
  exists m' sl', ref_run m sl calls (redis_run s calls) m' sl'.
Proof.
  revert from sl m s. induction calls as [|c calls IH]; intros from sl m s Hh Ha.
  - exists m, sl. constructor.
  - apply history_cons in Hh as (Hle & Hg & Hh).
    destruct (call_agrees _ c _ _ _ Hle Ha Hg) as (m1 & Hf & Hr & Ha'). simpl.
    destruct (redis_call c s) as [a s'] eqn:E1. simpl in Hr, Ha'. subst a.
    destruct (IH _ _ _ _ Hh Ha') as (m' & sl' & Hrun). exists m', sl'.
    by eapply (ref_call _ _ _ _ m1 _ (mem_call c m1).2); [|apply surjective_pairing|].
Qed.

Lemma empty_agrees from s : (forall k, rget s k = RNone) -> agree from no_slack mem_empty s.
Proof.
  intros Hs. assert (forall t, leases_of mem_empty t = ∅) as El.
  { intros t. unfold leases_of. simpl. by rewrite lookup_empty. }
  split.
  - intros t. by rewrite Hs, El, kmap_empty.
  - intros t. exists ∅. rewrite Hs. split; [done|]. intros run. rewrite El, lookup_empty. by intros [? ?].
  - intros t d. exists None. rewrite Hs. split; [done|]. unfold spent. simpl. by rewrite lookup_empty.
  - intros t Hne. by rewrite El in Hne.
  - intros t d n. by rewrite absent_deadline.
  - done.
  - intros t d. unfold spent. simpl. by rewrite lookup_empty.
Qed.

(** *** The ledger is what the reference holds *)

Section caps.
Context (cap dcap : uuid -> Z).

(** The caps a tenant's calls come with, and a reservation that reaches Redis
    before the hour of grace of its day is over. *)
Definition capped (c : call) : Prop :=
  match c_op c with
  | Acquire t _ n _ _ => n <= cap t
  | Reserve t _ n day => n <= dcap t /\ c_at c <= grace_end (utc_day (default (c_now c) day))
  | _ => True
  end.

Record kept (at_ : Z) (early : uuid -> Z) (m : mem) (l : ledger) : Prop := {
  kp_leases t run e o : holders l t !! run = Some (e, o) -> at_ + early t < e ->
    leases_of m t !! run = Some e /\ _owners m !! (t, run) = Some o;
  kp_size t : Z.of_nat (size (leases_of m t)) <= cap t;
  kp_spent t d : charged l t d = spent m (daily_key_of t d) \/
    (grace_end d < at_ /\ spent m (daily_key_of t d) = 0);
  kp_charged t d : 0 <= charged l t d <= dcap t
}.

Lemma kept_later at_ at' early early' m l :
  at_ <= at' -> (forall t, early t <= early' t) -> kept at_ early m l -> kept at' early' m l.
Proof.
  intros Hle He [Hl Hs Hc Hp]. split; [|done| |done].
  - intros t run e o Hin Hlt. apply (Hl t run e o Hin). specialize (He t). lia.
  - intros t d. destruct (Hc t d) as [?|[? ?]]; [by left|right]. split; [lia|done].
Qed.
Lemma kept_forgets at_ early m m' l : forgets at_ early m m' -> kept at_ early m l -> kept at_ early m' l.
Proof.
  intros [L K O D] [Hl Hs Hc Hp]. split; [| | |done].
  - intros t run e o Hin Hlt. destruct (Hl t run e o Hin Hlt) as [H1 H2]. rewrite O. split; [by apply K|done].
  - intros t. specialize (Hs t). assert (size (leases_of m' t) <= size (leases_of m t))%nat; [|lia].
    apply map_subseteq_size, map_subseteq_spec. intros run e. apply L.
  - intros t d. destruct (D t d) as [->|?]; [apply Hc|by right].
Qed.

Lemma holders_hold t run e o l t' :
  holders (hold t run e o l) t' = if decide (t' = t) then <[run:=(e, o)]> (holders l t) else holders l t'.
Proof.
  unfold holders, hold. simpl. case_decide; [subst; by rewrite lookup_insert_eq|by rewrite lookup_insert_ne].
Qed.
Lemma charged_charge t d x l t' d' :
  charged (charge t d x l) t' d' = if decide (t' = t /\ d' = d) then x else charged l t' d'.
Proof.
  unfold charged, charge. simpl. case_decide as E; [destruct E; subst; by rewrite lookup_insert_eq|].
  rewrite lookup_insert_ne; [done|]. intros [= ? ?]. by apply E.
Qed.

(** Writing a lease on both sides. *)
Lemma kept_hold at_ early m l t run e o members :
  kept at_ early m l -> (forall r e', leases_of m t !! r = Some e' -> at_ + early t < e' -> members !! r = Some e') ->
  Z.of_nat (size (<[run:=e]> members)) <= cap t ->
  kept at_ early (mk_mem (<[t:=<[run:=e]> members]> (_leases m)) (<[(t, run):=o]> (_owners m)) (_daily m))
    (hold t run e o l).
Proof.
  intros [Hl Hs Hc Hp] Hm Hsize. split.
  - intros t' r e' o'. rewrite holders_hold, leases_insert. case_decide as Et; [subst t'|].
    + destruct (decide (r = run)) as [->|Hne]; simpl.
      * rewrite !lookup_insert_eq. by intros [= -> ->] _.
      * rewrite !lookup_insert_ne by congruence. intros Hin Hlt. destruct (Hl _ _ _ _ Hin Hlt). split; [by apply Hm|done].
    + simpl. rewrite lookup_insert_ne by congruence. apply Hl.
  - intros t'. rewrite leases_insert. case_decide; [by subst|done].
  - done.
  - done.
Qed.

Lemma kept_charge at_ early m l t d x y :
  kept at_ early m l -> (x = y \/ (grace_end d < at_ /\ y = 0)) -> 0 <= x <= dcap t ->
  kept at_ early (mk_mem (_leases m) (_owners m) (<[daily_key_of t d:=y]> (_daily m))) (charge t d x l).
Proof.
  intros [Hl Hs Hc Hp] Hxy Hx. split; [done|done| |].
  - intros t' d'. rewrite charged_charge, spent_insert. case_decide as E.
    + destruct E as [-> ->]. by rewrite decide_True.
    + rewrite decide_False; [apply Hc|]. intros Hk. by apply daily_key_inj in Hk.
  - intros t' d'. rewrite charged_charge. case_decide as E; [destruct E as [-> _]; done|apply Hp].
Qed.

Lemma live_keeps at_ now early (l : gmap uuid Z) r e :
  now <= at_ -> 0 <= early -> l !! r = Some e -> at_ + early < e -> live now l !! r = Some e.
Proof. intros. apply live_lookup. split; [done|lia]. Qed.

Lemma acquire_kept c at_ early m l t run n ttl_s owner a m' :
  c_net c <> Lost -> c_op c = Acquire t run n ttl_s owner -> c_now c <= at_ -> 0 <= early t -> n <= cap t ->
  kept at_ early m l -> mem_step (c_now c) (c_op c) m = (a, m') -> kept at_ early m' (enter c a l).
Proof.
  intros Hnet Eo Hnow He Hcap Hk. unfold enter. rewrite Eo. simpl.
  destruct (c_net c); [|done|]; clear Hnet.
  all: case_bool_decide as Hin; [by intros [= <- <-]|].
  all: destruct (n <=? _) eqn:En; intros [= <- <-]; simpl.
  1,3: destruct Hk as [Hl Hs Hc Hp]; split; [|intros t'|done|done].
  1,3: intros t' r e o Hr Hlt; destruct (Hl _ _ _ _ Hr Hlt); rewrite leases_insert; case_decide; [subst|done];
    split; [by eapply live_keeps|done].
  1,2: rewrite leases_insert; case_decide; [subst|done]; specialize (Hs t);
    pose proof (map_subseteq_size _ _ (live_subset (c_now c) (leases_of m t))); lia.
  all: apply kept_hold; [done|by intros; eapply live_keeps|];
    rewrite map_size_insert_None by (by apply eq_None_not_Some); lia.
Qed.

Lemma renew_kept c at_ early m l t run owner ttl_s a m' :
  c_net c <> Lost -> c_op c = Renew t run owner ttl_s -> 0 < c_now c ->
  kept at_ early m l -> mem_step (c_now c) (c_op c) m = (a, m') -> kept at_ early m' (enter c a l).
Proof.
  intros Hnet Eo Hnow Hk. unfold enter. rewrite Eo. simpl.
  destruct (_ || _) eqn:E; [by intros [= <- <-]; destruct (c_net c)|].
  apply orb_false_iff in E as [E1 E2]. apply negb_false_iff, bool_decide_eq_true in E2. intros [= <- <-].
  replace (_owners m) with (<[(t, run):=owner]> (_owners m)) by (by apply insert_id).
  assert (kept at_ early (mk_mem (<[t:=<[run:=c_now c + ttl_s * SECOND]> (leases_of m t)]> (_leases m))
    (<[(t, run):=owner]> (_owners m)) (_daily m)) (hold t run (c_now c + ttl_s * SECOND) owner l)).
  { apply kept_hold; [done|done|]. destruct (leases_of m t !! run) eqn:El; simpl in E1; [|lia].
    rewrite map_size_insert_Some by (by eexists). apply Hk. }
  by destruct (c_net c).
Qed.

Lemma release_kept c at_ early m l t run token a m' :
  c_net c <> Lost -> c_op c = Release t run token ->
  kept at_ early m l -> mem_step (c_now c) (c_op c) m = (a, m') -> kept at_ early m' (enter c a l).
Proof.
  intros Hnet Eo Hk E. assert (enter c a l = match holders l t !! run with
    | Some (_, owner) => if bool_decide (token = None \/ token = Some owner)
        then mk_ledger (<[t:=delete run (holders l t)]> (lg_leases l)) (lg_charged l) else l
    | None => l end) as ->. { unfold enter. rewrite Eo. by destruct (c_net c). }
  rewrite Eo in E. simpl in E. fold (mem_released t run m) in E.
  match type of E with (if ?b then _ else _) = _ => set (hm := b) in E end.
  assert (m' = if hm then m else mem_released t run m) as -> by (by destruct hm; injection E as _ <-). clear E.
  set (l' := match holders l t !! run with Some _ => _ | None => _ end).
  assert (lg_charged l' = lg_charged l) as Ec.
  { unfold l'. destruct (holders l t !! run) as [[e o]|]; [|done]. by case_bool_decide. }
  assert (forall t' r e o, holders l' t' !! r = Some (e, o) -> holders l t' !! r = Some (e, o)
    /\ ((t', r) = (t, run) -> exists tok, token = Some tok /\ tok <> o)) as Hl'.
  { intros t' r e o. unfold l'. destruct (holders l t !! run) as [[e0 o0]|] eqn:Er.
    - case_bool_decide as Hd.
      + unfold holders. simpl. destruct (decide (t' = t)) as [->|Hne].
        * rewrite lookup_insert_eq. simpl. rewrite lookup_delete_Some. intros [Hr Hin]. split; [done|congruence].
        * rewrite lookup_insert_ne by done. intros Hin. split; [done|congruence].
      + intros Hin. split; [done|]. intros [= -> ->]. rewrite Er in Hin. injection Hin as -> ->.
        destruct token as [tok|]; [|tauto]. exists tok. split; [done|]. intros ->. tauto.
    - intros Hin. split; [done|]. intros [= -> ->]. congruence. }
  destruct Hk as [Hl Hs Hc Hp]. split.
  - intros t' r e o Hin Hlt. destruct (Hl' _ _ _ _ Hin) as [Hin' Hne]. destruct (Hl _ _ _ _ Hin' Hlt) as [E1 E2].
    destruct hm eqn:Eh; [done|]. assert ((t', r) <> (t, run)) as Hd.
    { intros Ep. destruct (Hne Ep) as (tok & -> & Htok). unfold hm in Eh. simpl in Eh. injection Ep as -> ->.
      apply negb_false_iff, bool_decide_eq_true in Eh. congruence. }
    rewrite released_leases. simpl. rewrite lookup_delete_ne by congruence. split; [|done].
    case_decide; [subst|done]. rewrite lookup_delete_ne; [done|congruence].
  - intros t'. destruct hm; [done|]. rewrite released_leases. case_decide; [subst|done]. specialize (Hs t).
    assert (delete run (leases_of m t) ⊆ leases_of m t) as Hd%map_subseteq_size by apply delete_subseteq. lia.
  - intros t' d. unfold charged. rewrite Ec. unfold spent. destruct hm; apply Hc.
  - intros t' d. unfold charged. rewrite Ec. apply Hp.
Qed.

Lemma daily_kept c at_ early m l a m' :
  c_net c <> Lost -> good_call at_ (c_now c) (c_op c) -> capped c -> c_at c = at_ ->
  (match c_op c with Reserve _ _ _ _ | Settle _ _ _ _ => True | _ => False end) ->
  kept at_ early m l -> mem_step (c_now c) (c_op c) m = (a, m') -> kept at_ early m' (enter c a l).
Proof.
  intros Hnet [_ Hg] Hcap Hat Hop Hk. unfold enter, capped in *.
  destruct (c_op c) as [| | | |t secs n day|t reserved actual day]; try done; simpl in *; unfold _daily_key in *;
    set (d := utc_day (default (c_now c) day)) in *.
  - destruct Hcap as [Hn Hgr]. destruct (n <? _) eqn:En; intros [= <- <-]; [by destruct (c_net c)|].
    assert (kept at_ early (mk_mem (_leases m) (_owners m)
      (<[daily_key_of t d:=spent m (daily_key_of t d) + secs]> (_daily m))) (charge t d (charged l t d + secs) l)).
    { destruct (kp_spent _ _ _ _ Hk t d) as [E|[? _]]; [|lia]. pose proof (kp_charged _ _ _ _ Hk t d).
      apply kept_charge; [done|left; by rewrite E|]. rewrite E in *. lia. }
    by destruct (c_net c).
  - intros [= <- <-]. pose proof (kp_charged _ _ _ _ Hk t d) as Hp.
    assert (kept at_ early (mk_mem (_leases m) (_owners m)
      (<[daily_key_of t d:=Z.max 0 (spent m (daily_key_of t d) + actual - reserved)]> (_daily m)))
      (charge t d (Z.max 0 (charged l t d + actual - reserved)) l)).
    { apply kept_charge; [done| |lia]. destruct (kp_spent _ _ _ _ Hk t d) as [E|[? E]]; rewrite E; [by left|right].
      split; [done|lia]. }
    by destruct (c_net c).
Qed.

Lemma call_kept c early m l a m' :
  (forall t, 0 <= early t) -> good_call (c_at c) (c_now c) (c_op c) -> capped c ->
  kept (c_at c) early m l -> mem_call c m = (a, m') -> kept (c_at c) early m' (enter c a l).
Proof.
  intros He Hg Hcap Hk. unfold mem_call, over_network.
  destruct (decide (c_net c = Lost)) as [Hn|Hn].
  { rewrite Hn. unfold enter. rewrite Hn. by intros [= _ <-]. }
  intros E. assert (mem_step (c_now c) (c_op c) m = (a, m')) as E' by (by destruct (c_net c)). clear E.
  pose proof Hg as [[Hpos Hnow] _]. pose proof Hcap as Hcap'. unfold capped in Hcap'.
  destruct (c_op c) as [t run n ttl_s owner|t run owner ttl_s|t run token|t|t secs n day|t reserved actual day] eqn:Eo.
  - rewrite <-Eo in E'. by eapply acquire_kept.
  - rewrite <-Eo in E'. by eapply renew_kept.
  - rewrite <-Eo in E'. by eapply release_kept.
  - injection E' as <- <-. unfold enter. rewrite Eo. by destruct (c_net c).
  - rewrite <-Eo in *. eapply daily_kept; try done. by rewrite Eo.
  - rewrite <-Eo in *. eapply daily_kept; try done. by rewrite Eo.
Qed.

Lemma note_early o a sl t : sl_early sl t <= sl_early (note o a sl) t.
Proof. unfold note. repeat case_match; try done; apply granted_early. Qed.

Lemma run_kept from sl m l calls rs m' sl' :
  (forall t, 0 <= sl_early sl t) -> history from calls -> Forall capped calls ->
  ref_run m sl calls rs m' sl' -> kept from (sl_early sl) m l ->
  sl' = noted sl calls rs /\
  forall at_, from <= at_ -> Forall (fun c => c_at c <= at_) calls ->
    kept at_ (sl_early sl') m' (entries l calls rs).
Proof.
  intros He Hh Hcap Hrun. revert from l He Hh Hcap.
  induction Hrun as [m sl|m sl c calls m1 a m2 rs m' sl' Hf Hm Hrun IH]; intros from l He Hh Hcap Hk.
  - split; [done|]. intros at_ Hle _. simpl. by apply (kept_later from at_ (sl_early sl)).
  - apply history_cons in Hh as (Hle & Hg & Hh). apply Forall_cons in Hcap as [Hc Hcap].
    assert (kept (c_at c) (sl_early sl) m2 (enter c a l)) as Hk2.
    { eapply (call_kept c _ m1); try done. apply (kept_forgets _ _ m); [done|]. by apply (kept_later from _ (sl_early sl)). }
    destruct (IH (c_at c) (enter c a l)) as [Esl Hall]; [|done|done| |].
    + intros t. etransitivity; [apply He|apply note_early].
    + by apply (kept_later (c_at c) _ (sl_early sl)); [|intros t; apply note_early|].
    + split; [done|]. intros at_ Hat [Hc' Hcs]%Forall_cons. simpl. by apply Hall.
Qed.

Lemma running_size at_ early m l t :
  kept at_ early m l -> Z.of_nat (size (running at_ (early t) (holders l t))) <= cap t.
Proof.
  intros Hk. etransitivity; [|apply (kp_size _ _ _ _ Hk t)]. apply inj_le.
  rewrite <-(map_size_fmap fst (running _ _ _)). apply map_subseteq_size, map_subseteq_spec.
  intros run e. rewrite lookup_fmap. unfold running.
  destruct (filter _ _ !! run) as [[e' o]|] eqn:E; [|done]. simpl. intros [= ->].
  apply map_lookup_filter_Some in E as [Hin Hlt]. simpl in Hlt. by destruct (kp_leases _ _ _ _ Hk _ _ _ _ Hin Hlt).
Qed.
End caps.

(** The lease times that a history asks for, for a tenant. *)
Definition asks (t : uuid) (ttl_s : Z) (c : call) : Prop :=
  match c_op c with
  | Acquire t' _ _ n _ | Renew t' _ _ n => t' = t -> n = ttl_s
  | _ => True
  end.
Lemma steady_slack t ttl_s calls rs sl :
  Forall (asks t ttl_s) calls -> sl_longest sl t <= ttl_s ->
  sl_early (noted sl calls rs) t = sl_early sl t.
Proof.
  revert rs sl. induction calls as [|c calls IH]; intros rs sl Hall Hl; [done|].
  destruct rs as [|a rs]; [done|]. apply Forall_cons in Hall as [Hc Hall]. simpl.
  assert (sl_early (note (c_op c) a sl) t = sl_early sl t /\ sl_longest (note (c_op c) a sl) t <= ttl_s) as [E1 E2].
  { unfold note, asks, granted in *. repeat case_match; simplify_eq; simpl; try done;
      repeat case_decide; subst; try done; specialize (Hc eq_refl); subst; lia. }
  rewrite IH by done. exact E1.
Qed.

(** C33: Whatever calls interleave, however late a script runs after its caller read
    its clock, and whichever calls or replies the network loses: the Lua scripts answer
    every history as the in-memory accounting does that may have dropped what is over -
    a lease after its expiry (at most half a second before, for each lease that the
    tenant was granted since for less time than an earlier one), and a counter after
    its day and the hour of grace. *)
Theorem redis_refines_memory (s : store) (calls : list call) (from : Z) :
  (forall k, rget s k = RNone) -> history from calls ->
  exists answers m' sl', ref_run mem_empty no_slack calls answers m' sl'
    /\ redis_replies s calls = zip_with heard calls answers.
Proof.
  intros Hs Hh. destruct (run_agrees from no_slack mem_empty s calls Hh (empty_agrees from s Hs)) as (m' & sl' & Hrun).
  by exists (redis_run s calls), m', sl'.
Qed.

(** C34: However many producers race for admission, whatever the network loses and
    however late a script runs, at no moment do more leases granted to a tenant still
    run than the tenant's own concurrency cap allows, nor is a day charged more than
    its daily cap.  A lease counts until its expiry where the tenant's lease time does
    not change, and up to the slack before it where it does. *)
Theorem caps_hold (s : store) (calls : list call) (from at_ : Z) (cap dcap : uuid -> Z) (t : uuid) :
  (forall k, rget s k = RNone) -> history from calls ->
  (forall t, 0 <= cap t /\ 0 <= dcap t) -> Forall (capped cap dcap) calls ->
  from <= at_ -> Forall (fun c => c_at c <= at_) calls ->
  let granted := entries lg_empty calls (redis_run s calls) in
  let early := sl_early (noted no_slack calls (redis_run s calls)) t in
  Z.of_nat (size (running at_ early (holders granted t))) <= cap t
  /\ (forall d, 0 <= charged granted t d <= dcap t)
  /\ (forall ttl_s, 0 <= ttl_s -> Forall (asks t ttl_s) calls -> early = 0).
Proof.
  intros Hs Hh Hcap Hcalls Hfrom Hat. destruct (run_agrees from no_slack mem_empty s calls Hh (empty_agrees from s Hs))
    as (m' & sl' & Hrun).
  assert (kept cap dcap from (sl_early no_slack) mem_empty lg_empty) as Hk.
  { split.
    - intros t' run e o. unfold holders. simpl. by rewrite !lookup_empty.
    - intros t'. unfold leases_of. simpl. rewrite lookup_empty. simpl. rewrite map_size_empty. apply Hcap.
    - intros t' d. left. unfold charged, spent. simpl. by rewrite !lookup_empty.
    - intros t' d. unfold charged. simpl. rewrite lookup_empty. simpl. split; [done|apply Hcap]. }
  destruct (run_kept cap dcap from no_slack mem_empty lg_empty calls _ m' sl' (fun _ => Z.le_refl 0) Hh Hcalls Hrun Hk) as [Esl Hall].
  specialize (Hall at_ Hfrom Hat). rewrite Esl in Hall. cbv zeta. split_and!.
  - by apply (running_size cap dcap _ (sl_early (noted no_slack calls (redis_run s calls))) m').
  - intros d. apply Hall.
  - intros ttl_s Ht Hasks. by rewrite (steady_slack t ttl_s).
Qed.
End agreement.
End accounting.

(** ** A store with these laws *)

(** Keys with their value and deadline; an empty aggregate is no key. *)
Abbreviation demo_store := (gmap pystr (rval * option Z)).
Definition demo_get (s : demo_store) (k : pystr) : rval := default RNone (fst <$> s !! k).
Definition demo_deadline (s : demo_store) (k : pystr) : option Z :=
  match s !! k with Some (RNone, _) | None => None | Some (_, d) => d end.
Definition demo_put (k : pystr) (v : rval) (s : demo_store) : demo_store :=
  match v with RNone => delete k s | _ => <[k:=(v, demo_deadline s k)]> s end.

Global Instance demo_redis : Redis demo_store := {
  rget := demo_get;
  deadline := demo_deadline;
  zremrangebyscore k hi s := demo_put k (zset_val (filter (fun p => hi < p.2) (zset_of (demo_get s k)))) s;
  zadd k sc x s := demo_put k (zset_val (<[x:=sc]> (zset_of (demo_get s k)))) s;
  zrem k x s := demo_put k (zset_val (delete x (zset_of (demo_get s k)))) s;
  hset k f v s := demo_put k (hash_val (<[f:=v]> (hash_of (demo_get s k)))) s;
  hdel k f s := demo_put k (hash_val (delete f (hash_of (demo_get s k)))) s;
  incrby k d s := demo_put k (RInt (int_of (demo_get s k) + d)) s;
  set_keepttl k v s := demo_put k (RInt v) s;
  expire at_ k secs s :=
    if secs <=? 0 then delete k s
    else if decide (demo_get s k = RNone) then s
    else <[k:=(demo_get s k, Some (at_ / MILLISECOND + secs * 1000))]> s;
  purge at_ s := filter (fun p => past at_ (demo_deadline s p.1) = false) s
}.

Lemma demo_put_get k v s k' : demo_get (demo_put k v s) k' = if decide (k' = k) then v else demo_get s k'.
Proof.
  unfold demo_get, demo_put. case_decide as E; [subst|].
  - destruct v; by rewrite ?lookup_delete_eq, ?lookup_insert_eq.
  - destruct v; by rewrite ?lookup_delete_ne, ?lookup_insert_ne by done.
Qed.
Lemma demo_put_only (k : pystr) (v : demo_store -> rval) : only k (fun s => demo_put k (v s) s).
Proof.
  unfold only. simpl. split.
  - intros s k' Hne. rewrite demo_put_get, decide_False by done. split; [done|].
    unfold demo_deadline, demo_put. destruct (v s); by rewrite ?lookup_delete_ne, ?lookup_insert_ne by done.
  - intros s. rewrite demo_put_get, decide_True by done. unfold demo_put. intros Hv.
    destruct (v s); [done|..]; unfold demo_deadline at 1; by rewrite lookup_insert_eq.
Qed.
Lemma demo_purge_lookup (at_ : Z) (s : demo_store) (k : pystr) :
  (purge at_ s : demo_store) !! k = if past at_ (demo_deadline s k) then None else s !! k.
Proof.
  simpl. destruct (s !! k) as [p|] eqn:E.
  - destruct (past _ _) eqn:Ep.
    + apply map_lookup_filter_None. right. intros p' _. simpl. by rewrite Ep.
    + by apply map_lookup_filter_Some.
  - destruct (past _ _); apply map_lookup_filter_None; by left.
Qed.

Global Instance demo_laws : RedisLaws demo_store.
Proof.
  split.
  1-7: intros; apply demo_put_only.
  1-7: intros; etransitivity; [apply demo_put_get|rewrite decide_True by done; simpl in *; try done].
  1-3: by match goal with Hk : _ = zset_val _ |- _ => rewrite Hk, zset_of_val end.
  1-2: by match goal with Hk : _ = hash_val _ |- _ => rewrite Hk, hash_of_val end.
  - match goal with Hk : _ = int_val _ |- _ => rewrite Hk end. by rewrite int_of_val.
  - simpl. unfold demo_get, demo_deadline. intros s k. destruct (s !! k) as [[v d]|]; [|done]. simpl. by intros ->.
  - simpl. intros at_ k secs s k' Hs. rewrite (proj2 (Z.leb_gt _ _)) by done. case_decide as E; [done|].
    unfold demo_get at 1. destruct (decide (k' = k)) as [->|Hne]; [by rewrite lookup_insert_eq|by rewrite lookup_insert_ne].
  - simpl. intros at_ k secs s k' Hs. rewrite (proj2 (Z.leb_gt _ _)) by done. destruct (decide (demo_get s k = RNone)) as [E|E].
    { by rewrite decide_False by tauto. }
    unfold demo_deadline at 1. case_decide as Hk.
    + destruct Hk as [-> _]. rewrite lookup_insert_eq. by destruct (demo_get s k).
    + rewrite lookup_insert_ne; [done|]. intros ->. tauto.
  - intros at_ s k. change (default RNone (fst <$> (purge at_ s : demo_store) !! k)
      = if past at_ (demo_deadline s k) then RNone else demo_get s k).
    rewrite demo_purge_lookup. by destruct (past _ _).
  - intros at_ s k. change (demo_deadline (purge at_ s) k
      = if past at_ (demo_deadline s k) then None else demo_deadline s k).
    unfold demo_deadline at 1. rewrite demo_purge_lookup. by destruct (past _ _).
Qed.

(** Identifiers and dates written injectively. *)
Definition demo_uuid (n : uuid) : pystr := n :: replicate 35 0%N.
Definition demo_ymd (d : Z) : pystr := [if d <? 0 then 1%N else 0%N; Z.abs_N d].

Global Instance demo_uuid_inj : Inj (=) (=) demo_uuid.
Proof. by intros ?? [= ->]. Qed.
Global Instance demo_ymd_inj : Inj (=) (=) demo_ymd.
Proof. intros a b. unfold demo_ymd. repeat case_match; intros [=]; lia. Qed.

(** Three producers race for two slots; one is refused, a reply is lost, a script
    runs a second after its caller read the clock, and the refused run enters after
    the first lease has expired. *)
Definition demo_call (read at_ : Z) (net : delivery) (o : op) : call :=
  mk_call (read * SECOND) (at_ * SECOND) net o.
Definition demo_calls : list call :=
  [demo_call 10 10 Answered (Acquire 1 7 2 60 (Some 70%N));
   demo_call 11 12 ReplyLost (Acquire 1 8 2 60 None);
   demo_call 12 12 Answered (Acquire 1 9 2 60 None);
   demo_call 13 13 Answered (Reserve 1 30 100 None);
   demo_call 14 14 Lost (Reserve 1 30 100 None);
   demo_call 20 20 Answered (Settle 1 30 5 None);
   demo_call 21 21 Answered (Usage 1);
   demo_call 70 70 Answered (Acquire 1 9 2 60 None)].
(** By then the keys of the leases are gone. *)
Definition demo_late : call := demo_call 200 201 Answered (Usage 1).

Ltac in_order :=
  split; [repeat (constructor; [|by repeat constructor; vm_compute]); constructor|];
  repeat constructor; by vm_compute.
Lemma demo_history : history 0 demo_calls.
Proof. in_order. Qed.
Lemma demo_long_history : history 0 (demo_calls ++ [demo_late]).
Proof. in_order. Qed.
Lemma demo_capped : Forall (capped (fun _ => 2) (fun _ => 100)) demo_calls.
Proof. repeat constructor; by vm_compute. Qed.
Lemma demo_empty k : rget (∅ : demo_store) k = RNone.
Proof. done. Qed.

Lemma redis_refines_memory_witness :
  (exists answers m' sl', ref_run demo_uuid demo_ymd mem_empty no_slack (demo_calls ++ [demo_late]) answers m' sl'
     /\ redis_replies demo_uuid demo_ymd (∅ : demo_store) (demo_calls ++ [demo_late])
        = zip_with heard (demo_calls ++ [demo_late]) answers)
  /\ redis_replies demo_uuid demo_ymd (∅ : demo_store) (demo_calls ++ [demo_late])
     = [Ans true; Unavailable; Ans false; Ans true; Unavailable; Done; Used 2 5; Ans true; Used 0 5].
Proof.
  split; [|by vm_compute].
  apply (redis_refines_memory demo_uuid demo_ymd (fun _ => eq_refl) ∅ (demo_calls ++ [demo_late]) 0
    demo_empty demo_long_history).
Defined.

(** The leases granted, and what the day was charged. *)
Definition demo_ledger : ledger :=
  entries lg_empty demo_calls (redis_run demo_uuid demo_ymd (∅ : demo_store) demo_calls).
Lemma caps_hold_witness :
  Z.of_nat (size (running (70 * SECOND) 0 (holders demo_ledger 1))) <= 2
  /\ size (running (70 * SECOND) 0 (holders demo_ledger 1)) = 2%nat
  /\ 0 <= charged demo_ledger 1 0 <= 100 /\ charged demo_ledger 1 0 = 5.
Proof.
  destruct (caps_hold demo_uuid demo_ymd (fun _ => eq_refl) ∅ demo_calls 0 (70 * SECOND) (fun _ => 2) (fun _ => 100) 1%N
    demo_empty demo_history) as (Hl & Hd & Hslack).
  - intros t. split; vm_compute; done.
  - exact demo_capped.
  - by vm_compute.
  - repeat constructor; by vm_compute.
  - rewrite (Hslack 60) in Hl; [|done|by repeat (constructor; [vm_compute; done|]); constructor].
    split; [exact Hl|]. split; [by vm_compute|]. split; [apply (Hd 0)|by vm_compute].
Defined.

(** Where a tenant's lease time shrinks, the slack is real: the refresh for a lease of
    300 seconds sets the deadline of a lease of 900 seconds to the 899 that [TTL]
    answers, the keys go 400 milliseconds early, and three runs hold two slots. *)
Definition shrunk_calls : list call :=
  let ms n := n * MILLISECOND in
  [mk_call (ms 1000) (ms 1000) Answered (Acquire 1 7 2 900 None);
   mk_call (ms 1600) (ms 1600) Answered (Acquire 1 8 2 300 None);
   mk_call (ms 900700) (ms 900700) Answered (Acquire 1 9 2 300 None);
   mk_call (ms 900800) (ms 900800) Answered (Acquire 1 10 2 300 None)].
Lemma shrunk_lease_is_lost :
  redis_run demo_uuid demo_ymd (∅ : demo_store) shrunk_calls = [Ans true; Ans true; Ans true; Ans true]
  /\ size (running (900800 * MILLISECOND) 0 (holders (entries lg_empty shrunk_calls
       (redis_run demo_uuid demo_ymd (∅ : demo_store) shrunk_calls)) 1)) = 3%nat.
Proof. split; by vm_compute. Qed.
