(* ===== verification/Context.v ===== *)
(** * Token-budgeted prompt assembly

    [backend/app/llm/context.py]: the message costs, [assemble_context],
    [fit_transcript] with its three degrade steps (shed history, compact tool
    results, refuse), and the message type of [backend/app/domain/llm.py].

    The token counter is a seam of the code and a parameter here, as are
    [json.dumps] and SHA-256.  The two lists the code indexes together, the
    messages and their costs, are one list of pairs.  The rendering of a stored
    summary into its message is not modelled: the reserved messages are an
    argument. *)

From stdpp Require Import base list strings sets.
From Stdlib Require Import Lia ZArith.
From S2P Require Import Prelude Json ToolSchema ToolWire Tools.
Open Scope Z_scope.

(** ** Messages (domain/llm.py) *)

Inductive Role : Type := SYSTEM | USER | ASSISTANT | TOOL.
Global Instance Role_eq : EqDecision Role.
Proof. solve_decision. Defined.

Record ChatMessage := mk_message {
  m_role : Role;
  m_content : pystr;
  m_tool_calls : list ToolCall;
  m_tool_call_id : option pystr;
  m_name : option pystr;
  m_source_document_ids : option (list uuid)
}.

Definition set_content (c : pystr) (m : ChatMessage) : ChatMessage :=
  mk_message (m_role m) c (m_tool_calls m) (m_tool_call_id m) (m_name m) (m_source_document_ids m).

Definition role_value (r : Role) : pystr :=
  match r with
  | SYSTEM => cp "system" | USER => cp "user" | ASSISTANT => cp "assistant" | TOOL => cp "tool"
  end.

(** ** Settings *)

Record ContextConfig := mk_config {
  fallback_max_input_tokens : Z;
  output_headroom_tokens : Z;
  compaction_digest_chars : nat;
  compaction_chunk_size : nat;
  proactive_compaction_enabled : bool
}.

Definition _SAFETY_MARGIN_TOKENS : Z := 1024.
Definition _DEFAULT_RETRIEVAL_K : Z := 6.
Definition _TIGHT_RETRIEVAL_K : Z := 3.
Definition _ROOMY_MAX_K : Z := 50.
Definition _ROOMY_SNIPPET_BUDGET : Z := 600.
Definition _TIGHT_SNIPPET_BUDGET : Z := 300.
Definition _MESSAGE_FRAMING_TOKENS : Z := 4.
Definition _ARRAY_FRAMING_TOKENS : Z := 2.

Record ContextBudget := mk_budget {
  cb_messages : list ChatMessage;
  input_budget_tokens : Z;
  estimated_tokens : Z;
  dropped_history_messages : nat;
  retrieval_k : Z;
  max_k : Z;
  snippet_budget : Z
}.

Definition CONTEXT_TOO_LARGE : pystr := cp "context_too_large".

(** ** Digests *)

(** [list(dict.fromkeys(l))] *)
Definition py_fromkeys (l : list pystr) : list pystr := reverse (remove_dups (reverse l)).

Definition _COMPACTION_MARKER : pystr :=
  [10; 91; 8230]%N
  ++ cp " earlier tool output truncated to fit the context window; the answer's recorded citations preserve the cited evidence "
  ++ [8230; 93]%N.
Definition RETAINED_HEADER : pystr := 10%N :: cp "[cited evidence retained verbatim:]".
Definition retained_line (s : pystr) : pystr := [10; 8226; 32]%N ++ s.

Definition retained_snippets (head : pystr) (cited_snippets : list pystr) : list pystr :=
  filter (fun s => s <> [] /\ py_substr s head = false) (py_fromkeys cited_snippets).

Definition _context_digest (content : pystr) (digest_chars : nat) (cited_snippets : list pystr)
    : pystr :=
  if (length content <=? Nat.max 1 digest_chars)%nat then content
  else
    let head := py_rstrip (take (Nat.max 1 digest_chars) content) in
    let retained := retained_snippets head cited_snippets in
    head
    ++ (match retained with [] => [] | _ => RETAINED_HEADER ++ (retained ≫= retained_line) end)
    ++ _COMPACTION_MARKER.

(** ** Positions in a transcript *)

(** The last index whose message satisfies [p]. *)
Fixpoint last_index (p : ChatMessage -> bool) (i : nat) (l : list ChatMessage) : option nat :=
  match l with
  | [] => None
  | m :: l => match last_index p (S i) l with
              | Some j => Some j
              | None => if p m then Some i else None
              end
  end.

Definition is_question (m : ChatMessage) : bool :=
  bool_decide (m_role m = USER) && match m_tool_call_id m with None => true | _ => false end.
Definition _last_question_index (messages : list ChatMessage) : nat :=
  default (length messages) (last_index is_question 0 messages).

Definition has_calls (m : ChatMessage) : bool :=
  match m_tool_calls m with [] => false | _ => true end.
Definition is_group (m : ChatMessage) : bool := bool_decide (m_role m = ASSISTANT) && has_calls m.
Definition _last_tool_group_start (messages : list ChatMessage) (tail_start : nat) : nat :=
  default (length messages) (last_index is_group tail_start (drop tail_start messages)).

(** The number of leading messages that are tool results. *)
Fixpoint results_run (l : list ChatMessage) : nat :=
  match l with
  | m :: l => match m_tool_call_id m with Some _ => S (results_run l) | None => O end
  | [] => O
  end.

Definition _oldest_sheddable_span (messages : list ChatMessage) (tail_start : nat)
    : option (nat * nat) :=
  if (tail_start <=? 1)%nat then None
  else
    m ← messages !! 1%nat;
    if has_calls m
    then Some (1%nat, (2 + results_run (take (tail_start - 2) (drop 2 messages)))%nat)
    else Some (1%nat, 2%nat).

Section context.
Context `{SchemaLib}.
(** [sha256] hex digest, [json.dumps(x)], [json.dumps(x, sort_keys=True)]. *)
Context (sha256_name : pystr -> pystr) (dumps dumps_sorted : json -> pystr).
(** The token counter of the answer's model. *)
Context (count : pystr -> Z).

(** ** Costs *)

Definition call_json (m : ToolNameMap) (tc : ToolCall) : json :=
  JObj [(cp "id", JStr (tc_id tc)); (cp "type", JStr (cp "function"));
        (cp "function", JObj [(cp "name", JStr (to_wire m (tc_name tc)));
                              (cp "arguments", JStr (dumps (JObj (tc_arguments tc))))])].

Definition _message_wire_text (m : ChatMessage) : res pystr pystr :=
  names ← name_map sha256_name ((tc_name <$> m_tool_calls m) ++ option_list (m_name m));
  Ok (dumps_sorted (JObj (
    [(cp "role", JStr (role_value (m_role m))); (cp "content", JStr (m_content m))]
    ++ (if has_calls m then [(cp "tool_calls", JArr (call_json names <$> m_tool_calls m))] else [])
    ++ (match m_tool_call_id m with Some i => [(cp "tool_call_id", JStr i)] | None => [] end)
    ++ (match m_name m with Some n => [(cp "name", JStr (to_wire names n))] | None => [] end)))).

Definition _msg_cost (m : ChatMessage) : res pystr Z :=
  text ← _message_wire_text m; Ok (count text + _MESSAGE_FRAMING_TOKENS).

Definition tool_json (t : ToolSpec) : json :=
  JObj [(cp "type", JStr (cp "function"));
        (cp "function", JObj [(cp "name", JStr (ts_name t));
                              (cp "description", JStr (ts_description t));
                              (cp "parameters", JObj (ts_parameters t))])].
Definition _tools_wire_text (tools : list ToolSpec) : res pystr pystr :=
  payload ← wire_tools sha256_name tools; Ok (dumps_sorted (JArr (tool_json <$> payload))).

Definition sum_Z (l : list Z) : Z := foldr Z.add 0 l.

Definition estimate_message_tokens (messages : list ChatMessage) (tools : list ToolSpec)
    : res pystr Z :=
  text ← _tools_wire_text tools;
  costs ← mapR _msg_cost messages;
  Ok (count text + _ARRAY_FRAMING_TOKENS + sum_Z costs).

(** The window left for input; [max_input] is [resolve(model)], and 0 or [None]
    take the fallback. *)
Definition input_budget (max_input : option Z) (cfg : ContextConfig) : Z :=
  let window := match max_input with
    | Some n => if Z.eqb n 0 then fallback_max_input_tokens cfg else n
    | None => fallback_max_input_tokens cfg
    end in
  Z.max (window - output_headroom_tokens cfg - _SAFETY_MARGIN_TOKENS) 1.

(** What the read surfaces report: the budget, and whether the window is known.  A
    window of 0 is known here. *)
Definition input_budget_for_model (resolved : option Z) (cfg : ContextConfig) : Z * bool :=
  let window := default (fallback_max_input_tokens cfg) resolved in
  (Z.max 1 (window - output_headroom_tokens cfg - _SAFETY_MARGIN_TOKENS), bool_decide (is_Some resolved)).
(** It is the budget that answers are assembled under, unless the resolver says 0. *)
Lemma reported_budget resolved cfg :
  resolved <> Some 0 -> (input_budget_for_model resolved cfg).1 = input_budget resolved cfg.
Proof.
  unfold input_budget, input_budget_for_model. destruct resolved as [n|]; simpl; [|intros; lia].
  intros Hn. rewrite (proj2 (Z.eqb_neq n 0)) by congruence. lia.
Qed.

(** ** Assembly *)

(** The loop over the history, newest first; the result is newest first. *)
Fixpoint take_recent (remaining spent : Z) (newest_first : list ChatMessage)
    : res pystr (list ChatMessage * Z) :=
  match newest_first with
  | [] => Ok ([], spent)
  | m :: older =>
      tokens ← _msg_cost m;
      if remaining <? spent + tokens then Ok ([], spent)
      else
        kept ← take_recent remaining (spent + tokens) older;
        Ok (m :: kept.1, kept.2)
  end.

(** [(remaining - spent) < 0.15 * budget] *)
Definition tight (left budget : Z) : bool := 20 * left <? 3 * budget.

Definition assemble_context (max_input : option Z) (cfg : ContextConfig) (system_prompt : pystr)
    (reserved history : list ChatMessage) (question : pystr) (tools : list ToolSpec)
    : res pystr ContextBudget :=
  let budget := input_budget max_input cfg in
  let system_message := mk_message SYSTEM system_prompt [] None None (Some []) in
  let question_message := mk_message USER question [] None None (Some []) in
  tools_text ← _tools_wire_text tools;
  system_cost ← _msg_cost system_message;
  question_cost ← _msg_cost question_message;
  reserved_costs ← mapR _msg_cost reserved;
  let base := system_cost + question_cost + count tools_text + _ARRAY_FRAMING_TOKENS in
  let fixed := base + sum_Z reserved_costs in
  let shed := (budget <? fixed) && negb (bool_decide (reserved = [])) in
  let reserved := if shed then [] else reserved in
  let fixed := if shed then base else fixed in
  guard_or CONTEXT_TOO_LARGE (fixed <=? budget) (
    let remaining := budget - fixed in
    kept ← take_recent remaining 0 (reverse history);
    let dropped := (length history - length kept.1)%nat in
    let is_tight := tight (remaining - kept.2) budget in
    Ok (mk_budget ([system_message] ++ reserved ++ reverse kept.1 ++ [question_message])
          budget (fixed + kept.2) dropped
          (if is_tight then _TIGHT_RETRIEVAL_K else _DEFAULT_RETRIEVAL_K)
          (if is_tight then _TIGHT_RETRIEVAL_K else _ROOMY_MAX_K)
          (if is_tight then _TIGHT_SNIPPET_BUDGET else _ROOMY_SNIPPET_BUDGET))).

(** ** Fitting a grown transcript *)

(** The messages with their costs, and the running total. *)
Abbreviation costed := (list (ChatMessage * Z))%type.
Abbreviation fitting := (costed * Z)%type.

(** [cited_snippets]: the snippets cited from each call's result. *)
Section citations.
Context (cited_snippets : list (pystr * list pystr)) (digest_chars : nat).

Definition snippets_of (m : ChatMessage) : list pystr :=
  match m_tool_call_id m with Some i => default [] (dict_get i cited_snippets) | None => [] end.
Definition is_cited (m : ChatMessage) : bool :=
  match m_tool_call_id m with Some i => dict_has i cited_snippets | None => false end.

(** Digest the result at an index, if that is strictly cheaper. *)
Definition compact_one (f : fitting) (i : nat) : res pystr fitting :=
  match f.1 !! i with
  | None => Ok f
  | Some (m, cost) =>
      let digested := set_content (_context_digest (m_content m) digest_chars (snippets_of m)) m in
      new_cost ← _msg_cost digested;
      if cost <=? new_cost then Ok f
      else Ok (<[i:=(digested, new_cost)]> f.1, f.2 + (new_cost - cost))
  end.

Definition is_result (tier_cited : bool) (m : ChatMessage) : bool :=
  bool_decide (m_role m = TOOL) && bool_decide (is_cited m = tier_cited).

(** The indices of the results of a tier in a range. *)
Definition is_candidate (tier_cited : bool) (wc : costed) (i : nat) : bool :=
  match wc !! i with Some (m, _) => is_result tier_cited m | None => false end.
Definition candidates (tier_cited : bool) (wc : costed) (from len : nat) : list nat :=
  List.filter (is_candidate tier_cited wc) (seq from len).

Definition _compact_superseded_tool_results (f : fitting) (tail_start : nat) : res pystr fitting :=
  let protected_from := _last_tool_group_start (fst <$> f.1) tail_start in
  foldR compact_one f (candidates true f.1 tail_start (protected_from - tail_start)).

(** One tier's loop over chunks of candidates. *)
Fixpoint compact_chunks (fuel : nat) (budget : Z) (chunk_size : nat) (todo : list nat) (f : fitting)
    : res pystr fitting :=
  match fuel with
  | O => Ok f
  | S fuel =>
      if (budget <? f.2) && negb (bool_decide (todo = [])) then
        f ← foldR compact_one f (take chunk_size todo);
        compact_chunks fuel budget chunk_size (drop chunk_size todo) f
      else Ok f
  end.

Definition compact_tier (budget : Z) (chunk_size tail_start : nat) (f : fitting) (tier_cited : bool)
    : res pystr fitting :=
  if f.2 <=? budget then Ok f
  else
    let todo := candidates tier_cited f.1 tail_start (length f.1 - tail_start) in
    compact_chunks (length todo) budget chunk_size todo f.

Definition _compact_oldest_tool_results (budget : Z) (chunk_size tail_start : nat) (f : fitting)
    : res pystr fitting :=
  foldR (compact_tier budget chunk_size tail_start) f [false; true].
End citations.

(** The loop that sheds whole units of history, oldest first. *)
Fixpoint shed_history (fuel : nat) (budget : Z) (tail_start : nat) (f : fitting) : fitting * nat :=
  match fuel with
  | O => (f, tail_start)
  | S fuel =>
      if budget <? f.2 then
        match _oldest_sheddable_span (fst <$> f.1) tail_start with
        | None => (f, tail_start)
        | Some (start, end_) =>
            shed_history fuel budget (tail_start - (end_ - start))
              (take start f.1 ++ drop end_ f.1,
               f.2 - sum_Z (snd <$> take (end_ - start) (drop start f.1)))
        end
      else (f, tail_start)
  end.

Definition fit_transcript (max_input : option Z) (cfg : ContextConfig) (messages : list ChatMessage)
    (tools : list ToolSpec) (cited_snippets : list (pystr * list pystr))
    : res pystr (list ChatMessage) :=
  let budget := input_budget max_input cfg in
  costs ← mapR _msg_cost messages;
  tools_text ← _tools_wire_text tools;
  let total := count tools_text + _ARRAY_FRAMING_TOKENS + sum_Z costs in
  let f := (zip messages costs, total) in
  f ← (if proactive_compaction_enabled cfg && negb (bool_decide (cited_snippets = []))
       then _compact_superseded_tool_results cited_snippets (compaction_digest_chars cfg) f
              (_last_question_index messages)
       else Ok f);
  if f.2 <=? budget then Ok (fst <$> f.1)
  else
    let '(f, tail_start) := shed_history (length f.1) budget (_last_question_index (fst <$> f.1)) f in
    f ← (if budget <? f.2
         then _compact_oldest_tool_results cited_snippets (compaction_digest_chars cfg) budget
                (Nat.max 1 (compaction_chunk_size cfg)) tail_start f
         else Ok f);
    guard_or CONTEXT_TOO_LARGE (f.2 <=? budget) (Ok (fst <$> f.1)).

(** ** Digests preserve cited evidence *)

(** A digest keeps every cited snippet that the content had. *)
Lemma context_digest_keeps content d snippets s :
  s ∈ snippets -> py_substr s content = true ->
  py_substr s (_context_digest content d snippets) = true.
Proof.
  intros Hs Hin. unfold _context_digest. case_match; [done|]. set (head := py_rstrip _).
  destruct (decide (s = [])) as [->|Hne]; [apply py_substr_nil|].
  destruct (py_substr s head) eqn:Eh; [by apply (py_substr_app _ _ [])|].
  assert (s ∈ retained_snippets head snippets) as Hr.
  { apply list_elem_of_filter. split; [done|]. unfold py_fromkeys.
    by rewrite elem_of_reverse, elem_of_remove_dups, elem_of_reverse. }
  apply py_substr_app. destruct (retained_snippets head snippets) as [|r l] eqn:E;
    [by apply elem_of_nil in Hr|]. rewrite <-E in *.
  rewrite <-(app_nil_r (retained_snippets _ _ ≫= _)). apply py_substr_app, py_substr_bind; [done|].
  apply py_substr_spec. exists [10; 8226; 32]%N, []. by rewrite app_nil_r.
Qed.

Section fitting.
Context (cited_snippets : list (pystr * list pystr)) (digest_chars : nat).
Abbreviation cited := (snippets_of cited_snippets).
Abbreviation compact := (compact_one cited_snippets digest_chars).

(** [m'] is [m], or the tool result [m] with its content digested and the
    snippets cited from it still in it. *)
Definition digest_of (m m' : ChatMessage) : Prop :=
  m' = m \/
  (m_role m = TOOL /\ m' = set_content (m_content m') m /\
   forall s, s ∈ cited m -> py_substr s (m_content m) = true ->
             py_substr s (m_content m') = true).

Lemma digest_of_trans m1 m2 m3 : digest_of m1 m2 -> digest_of m2 m3 -> digest_of m1 m3.
Proof.
  intros [->|(Hr & H2 & Hs)] [->|(Hr' & H3 & Hs')]; unfold digest_of; auto.
  right. rewrite H2 in H3, Hs'. split_and!; [done|by destruct m1, m3|].
  intros s Hin Hc. apply Hs'; [done|by apply Hs].
Qed.

Lemma digest_of_role m m' : digest_of m m' -> m_role m' = m_role m.
Proof. intros [->|(Hr & -> & _)]; done. Qed.

(** Digested from index [tail] on, never at a higher cost. *)
Definition cheaper (p p' : ChatMessage * Z) : Prop := digest_of p.1 p'.1 /\ p'.2 <= p.2.
Definition compacted (tail : nat) (wc wc' : costed) : Prop :=
  take tail wc' = take tail wc /\ Forall2 cheaper wc wc'.

Lemma compacted_refl tail wc : compacted tail wc wc.
Proof.
  split; [done|]. apply Forall2_same_length_lookup. split; [done|].
  intros i p p' -> [= ->]. split; [by left|done].
Qed.

Lemma compacted_trans tail wc1 wc2 wc3 :
  compacted tail wc1 wc2 -> compacted tail wc2 wc3 -> compacted tail wc1 wc3.
Proof.
  intros [Ht H12] [Ht' H23]. split; [by rewrite Ht'|]. eapply Forall2_trans; [|done..].
  intros p1 p2 p3 [Hd Hc] [Hd' Hc']. split; [by eapply digest_of_trans|lia].
Qed.

(** The costs are those of the messages, and the total is their sum above the
    fixed cost. *)
Definition accounted (fixed : Z) (f : fitting) : Prop :=
  Forall (fun p => _msg_cost p.1 = Ok p.2) f.1 /\ f.2 = fixed + sum_Z (snd <$> f.1).

Lemma sum_Z_cons x l : sum_Z (x :: l) = x + sum_Z l.
Proof. done. Qed.

Lemma sum_Z_app l l' : sum_Z (l ++ l') = sum_Z l + sum_Z l'.
Proof. induction l as [|x l IH]; simpl; [done|]. unfold sum_Z in *. simpl. lia. Qed.

Lemma sum_Z_insert l i x y : l !! i = Some x -> sum_Z (<[i:=y]> l) = sum_Z l + (y - x).
Proof.
  intros Hi. rewrite <-(take_drop_middle l i x Hi) at 2.
  rewrite insert_take_drop by (by eapply lookup_lt_Some). rewrite !sum_Z_app.
  change (x :: drop (S i) l) with ([x] ++ drop (S i) l).
  change (y :: drop (S i) l) with ([y] ++ drop (S i) l). rewrite !sum_Z_app. simpl. lia.
Qed.

Lemma cost_set_content m c x : _msg_cost m = Ok c -> exists c', _msg_cost (set_content x m) = Ok c'.
Proof.
  unfold _msg_cost, _message_wire_text. simpl. intros (t & (names & -> & _)%bind_ok & _)%bind_ok.
  simpl. eauto.
Qed.

(** A step of the compaction at a tool result. *)
Lemma compact_one_ok fixed tail i f :
  accounted fixed f -> (tail <= i)%nat -> (forall p, f.1 !! i = Some p -> m_role p.1 = TOOL) ->
  exists f', compact f i = Ok f' /\ accounted fixed f' /\ compacted tail f.1 f'.1.
Proof.
  intros [Hc Ht] Hi Hrole. unfold compact_one.
  destruct (f.1 !! i) as [[m c]|] eqn:Ei; [|exists f; split_and!; by try apply compacted_refl].
  set (d := set_content _ m). pose proof (proj1 (Forall_lookup _ _) Hc i (m, c) Ei) as Hmc.
  destruct (cost_set_content _ _ (m_content d) Hmc) as [c' Hc']. simpl in Hmc.
  change (_msg_cost d = Ok c') in Hc'. rewrite Hc'. cbn.
  destruct (c <=? c') eqn:Ecmp; [exists f; split_and!; by try apply compacted_refl|].
  eexists. split; [done|]. split; [split; simpl|].
  - by apply Forall_insert.
  - rewrite list_fmap_insert. simpl. rewrite (sum_Z_insert _ _ c); [lia|].
    by rewrite list_lookup_fmap, Ei.
  - split; simpl; [by apply take_insert_ge|]. apply Forall2_same_length_lookup.
    rewrite length_insert. split; [done|]. intros j p p' Hj Hj'.
    destruct (decide (j = i)) as [->|Hne].
    + rewrite list_lookup_insert_eq in Hj' by (by eapply lookup_lt_Some). simplify_eq.
      split; simpl; [|lia]. right. split_and!; [by apply (Hrole (m, c))|done|].
      intros s Hs Hin. by apply context_digest_keeps.
    + rewrite list_lookup_insert_ne in Hj' by done. simplify_eq. split; [by left|done].
Qed.

Lemma compact_fold_ok fixed tail l f :
  accounted fixed f ->
  Forall (fun i => (tail <= i)%nat /\ forall p, f.1 !! i = Some p -> m_role p.1 = TOOL) l ->
  exists f', foldR compact f l = Ok f' /\ accounted fixed f' /\ compacted tail f.1 f'.1.
Proof.
  revert f. induction l as [|i l IH]; intros f Hf Hl; simpl.
  - exists f. split_and!; [done|done|apply compacted_refl].
  - apply Forall_cons in Hl as [[Hi Hr] Hl].
    destruct (compact_one_ok _ _ _ _ Hf Hi Hr) as (f1 & -> & Hf1 & H1). simpl.
    destruct (IH f1 Hf1) as (f2 & ? & ? & H2).
    + eapply Forall_impl; [exact Hl|]. intros j [Hj Hrj]. split; [done|]. intros p' Hp'.
      destruct (Forall2_lookup_r _ _ _ _ _ (proj2 H1) Hp') as (p & Hp & [Hd _]).
      rewrite (digest_of_role _ _ Hd). by apply Hrj.
    + exists f2. split_and!; [done|done|by eapply compacted_trans].
Qed.

Lemma candidates_ok tier wc from len tail :
  (tail <= from)%nat ->
  Forall (fun i => (tail <= i)%nat /\ forall p, wc !! i = Some p -> m_role p.1 = TOOL)
    (candidates cited_snippets tier wc from len).
Proof.
  intros Hf. apply Forall_forall. intros i Hi%list_elem_of_In.
  apply filter_In in Hi as [Hi Hc]. apply in_seq in Hi. split; [lia|].
  intros [m c] Hp. unfold is_candidate in Hc. rewrite Hp in Hc. unfold is_result in Hc.
  apply andb_true_iff in Hc as [Hr _]. by apply bool_decide_eq_true in Hr.
Qed.

Lemma compact_chunks_ok fixed tail fuel budget chunk todo f :
  accounted fixed f ->
  Forall (fun i => (tail <= i)%nat /\ forall p, f.1 !! i = Some p -> m_role p.1 = TOOL) todo ->
  exists f', compact_chunks cited_snippets digest_chars fuel budget chunk todo f = Ok f' /\
    accounted fixed f' /\ compacted tail f.1 f'.1.
Proof.
  revert todo f. induction fuel as [|fuel IH]; intros todo f Hf Ht; simpl.
  { exists f. split_and!; [done|done|apply compacted_refl]. }
  destruct (_ && _); [|exists f; split_and!; [done|done|apply compacted_refl]].
  rewrite <-(take_drop chunk todo) in Ht. apply Forall_app in Ht as [Ht1 Ht2].
  destruct (compact_fold_ok _ _ _ _ Hf Ht1) as (f1 & -> & Hf1 & H1). simpl.
  destruct (IH (drop chunk todo) f1 Hf1) as (f2 & ? & ? & H2).
  - eapply Forall_impl; [exact Ht2|]. intros j [Hj Hrj]. split; [done|]. intros p' Hp'.
    destruct (Forall2_lookup_r _ _ _ _ _ (proj2 H1) Hp') as (p & Hp & [Hd _]).
    rewrite (digest_of_role _ _ Hd). by apply Hrj.
  - exists f2. split_and!; [done|done|by eapply compacted_trans].
Qed.

(** The fuel of the chunk loop, its number of candidates, is enough. *)
Lemma compact_chunks_fuel n budget chunk todo f :
  (1 <= chunk)%nat -> (length todo <= n)%nat ->
  compact_chunks cited_snippets digest_chars n budget chunk todo f
  = compact_chunks cited_snippets digest_chars (length todo) budget chunk todo f.
Proof.
  intros Hc. remember (length todo) as len eqn:El. assert (length todo <= len)%nat as Hl by lia.
  clear El. revert n todo f Hl. induction len as [|len IH]; intros n todo f Hl Hn.
  - destruct todo as [|]; simpl in Hl; [|lia]. destruct n; simpl; [done|].
    by rewrite andb_false_r.
  - destruct n as [|n]; [lia|]. simpl. destruct (_ && _) eqn:E; [|done].
    destruct (foldR _ f (take chunk todo)) as [f1|]; simpl; [|done]. apply IH; [|lia].
    rewrite length_drop. lia.
Qed.

Lemma compact_oldest_ok fixed budget chunk tail f :
  accounted fixed f ->
  exists f', _compact_oldest_tool_results cited_snippets digest_chars budget chunk tail f = Ok f' /\
    accounted fixed f' /\ compacted tail f.1 f'.1.
Proof.
  assert (forall tier f, accounted fixed f ->
    exists f', compact_tier cited_snippets digest_chars budget chunk tail f tier = Ok f' /\
      accounted fixed f' /\ compacted tail f.1 f'.1) as Htier.
  { intros tier f0 Hf. unfold compact_tier.
    destruct (f0.2 <=? budget); [exists f0; split_and!; [done|done|apply compacted_refl]|].
    apply compact_chunks_ok; [done|]. by apply candidates_ok. }
  intros Hf. unfold _compact_oldest_tool_results. simpl.
  destruct (Htier false f Hf) as (f1 & -> & Hf1 & H1). simpl.
  destruct (Htier true f1 Hf1) as (f2 & -> & Hf2 & H2). simpl.
  exists f2. split_and!; [done|done|by eapply compacted_trans].
Qed.

(** Compaction moves no message: the question stays where it is. *)
Lemma last_index_ext p i l l' :
  Forall2 (fun m m' => p m = p m') l l' -> last_index p i l = last_index p i l'.
Proof.
  intros Hl. revert i. induction Hl as [|m m' l l' Hm _ IH]; intros i; simpl; [done|].
  by rewrite IH, Hm.
Qed.

Lemma digest_of_question m m' : digest_of m m' -> is_question m = is_question m'.
Proof. by intros [->|(Hr & -> & _)]. Qed.

Lemma question_compacted tail wc wc' :
  compacted tail wc wc' ->
  _last_question_index (fst <$> wc') = _last_question_index (fst <$> wc).
Proof.
  intros [_ Hwc]. unfold _last_question_index.
  rewrite !length_fmap, (Forall2_length _ _ _ Hwc). f_equal. symmetry. apply last_index_ext.
  apply Forall2_fmap. eapply Forall2_impl; [exact Hwc|]. intros p p' [Hd _]. by apply digest_of_question.
Qed.

Lemma last_index_bound p i l j : last_index p i l = Some j -> (i <= j < i + length l)%nat.
Proof.
  revert i. induction l as [|m l IH]; intros i; simpl; [done|].
  destruct (last_index p (S i) l) eqn:E.
  - intros [= ->]. apply IH in E. lia.
  - destruct (p m); [|done]. intros [= ->]. lia.
Qed.

Lemma question_bound messages : (_last_question_index messages <= length messages)%nat.
Proof.
  unfold _last_question_index. destruct (last_index _ _ _) eqn:E; simpl; [|done].
  apply last_index_bound in E. lia.
Qed.

(** *** Shedding *)

(** Every tool result follows its call, or another result of that call; [open]
    says that the message before is one of these. *)
Fixpoint paired (open : bool) (l : list ChatMessage) : Prop :=
  match l with
  | [] => True
  | m :: l =>
      (is_Some (m_tool_call_id m) -> open = true) /\
      paired (has_calls m || (open && bool_decide (is_Some (m_tool_call_id m)))) l
  end.

Lemma paired_after_results l : paired true l -> paired false (drop (results_run l) l).
Proof.
  induction l as [|m l IH]; [done|]. simpl. destruct (m_tool_call_id m) as [i|] eqn:Ei.
  - intros [_ Hl]. apply IH. rewrite bool_decide_true in Hl by eauto. by rewrite orb_true_r in Hl.
  - intros [_ Hl]. simpl. rewrite Ei. split; [by intros [? ?]|].
    rewrite bool_decide_false in Hl by (by intros [? ?]). exact Hl.
Qed.

Lemma results_run_bound l : (results_run l <= length l)%nat.
Proof. induction l as [|m l IH]; simpl; [done|]. destruct (m_tool_call_id m); lia. Qed.

Lemma sum_take_drop l n : sum_Z (take n l) + sum_Z (drop n l) = sum_Z l.
Proof. by rewrite <-sum_Z_app, take_drop. Qed.

(** One iteration on a transcript whose first message is the head [h]. *)
Lemma span_ok h q messages :
  (S q <= length messages)%nat ->
  exists e, _oldest_sheddable_span (h :: messages) (S (S q)) = Some (1%nat, S e) /\
    (1 <= e <= S q)%nat /\
    (paired false (take (S q) messages) -> paired false (drop e (take (S q) messages))).
Proof.
  destruct messages as [|m messages]; simpl; [lia|]. intros Hq.
  unfold _oldest_sheddable_span. simpl. rewrite Nat.sub_0_r, drop_0.
  destruct (has_calls m) eqn:Em; simpl.
  - pose proof (results_run_bound (take q messages)) as Hb. rewrite length_take in Hb.
    eexists. split; [done|]. split; [lia|]. simpl. intros [_ Hl]. by apply paired_after_results.
  - exists 1%nat. split; [done|]. split; [lia|]. simpl. by intros [_ Hl].
Qed.

Lemma shed_ok fixed fuel budget (h : ChatMessage * Z) (rest : costed) q total :
  (q <= length rest)%nat -> (q <= fuel)%nat -> accounted fixed (h :: rest, total) ->
  exists k total',
    shed_history fuel budget (S q) (h :: rest, total) = ((h :: drop k rest, total'), S (q - k)) /\
    (k <= q)%nat /\ accounted fixed (h :: drop k rest, total') /\ (total' <= budget \/ k = q) /\
    (paired false (take q (fst <$> rest)) -> paired false (drop k (take q (fst <$> rest)))).
Proof.
  revert rest q total. induction fuel as [|fuel IH]; intros rest q total Hq Hfuel Hf.
  { exists O, total. rewrite Nat.sub_0_r. assert (q = 0)%nat as -> by lia.
    split_and!; [done|lia|done|by right|done]. }
  cbn [shed_history fst snd]. destruct (budget <? total) eqn:Eb.
  2: { exists O, total. rewrite Nat.sub_0_r. split_and!; [done|lia|done|left; lia|done]. }
  destruct q as [|q].
  { exists O, total. split_and!; [done|lia|done|by right|done]. }
  destruct (span_ok h.1 q (fst <$> rest)) as (e & He & Hb & Hp); [by rewrite length_fmap|].
  rewrite fmap_cons, He. cbn [drop take app].
  set (total1 := total - _).
  assert (accounted fixed (h :: drop e rest, total1)) as Hf1.
  { destruct Hf as [Hc Ht]. apply Forall_cons in Hc as [Hh Hc]. split; cbn [fst snd] in *.
    - constructor; [done|]. by apply Forall_drop.
    - unfold total1. rewrite fmap_cons, sum_Z_cons in *. rewrite Nat.sub_succ, Nat.sub_0_r.
      rewrite drop_0, fmap_take, fmap_drop.
      pose proof (sum_take_drop (snd <$> rest) e). lia. }
  destruct (IH (drop e rest) (S q - e)%nat total1) as (k & t' & Hs & Hk & Hf' & Hdone & Hpk);
    [rewrite length_drop; lia|lia|done|].
  exists (e + k)%nat, t'. replace (S (S q) - (S e - 1))%nat with (S (S q - e)) by lia.
  rewrite drop_drop in *. split_and!.
  - etrans; [exact Hs|]. by replace (S q - (e + k))%nat with (S q - e - k)%nat by lia.
  - lia.
  - done.
  - destruct Hdone; [by left|right; lia].
  - intros Hpair. specialize (Hp Hpair). rewrite fmap_drop in Hpk.
    rewrite <-drop_drop. rewrite take_drop_commute in Hpk.
    replace (e + (S q - e))%nat with (S q) in Hpk by lia. auto.
Qed.
End fitting.

(** ** The estimate of an accounted transcript *)

Definition fixed_of (text : pystr) : Z := count text + _ARRAY_FRAMING_TOKENS.

Lemma costed_zip messages costs :
  mapR _msg_cost messages = Ok costs ->
  (zip messages costs).*1 = messages /\ (zip messages costs).*2 = costs /\
  Forall (fun p => _msg_cost p.1 = Ok p.2) (zip messages costs).
Proof.
  intros Hm%mapR_Forall2. pose proof (Forall2_length _ _ _ Hm) as Hl.
  split_and!; [apply fst_zip; lia|apply snd_zip; lia|].
  induction Hm as [|x y l l' Hx _ IH]; simpl in *; constructor; auto.
Qed.

Lemma costed_back (wc : costed) :
  Forall (fun p => _msg_cost p.1 = Ok p.2) wc -> mapR _msg_cost wc.*1 = Ok wc.*2.
Proof.
  intros Hw. apply mapR_Forall2. induction Hw as [|p wc Hp _ IH]; constructor; auto.
Qed.

Lemma estimate_accounted tools text f :
  _tools_wire_text tools = Ok text -> accounted (fixed_of text) f ->
  estimate_message_tokens f.1.*1 tools = Ok f.2.
Proof.
  intros Ht [Hc Hs]. unfold estimate_message_tokens. rewrite Ht. simpl.
  rewrite (costed_back _ Hc). simpl. by rewrite Hs.
Qed.

(** The stages of [fit_transcript], given the costs. *)
Section stages.
Context (max_input : option Z) (cfg : ContextConfig) (cited_snippets : list (pystr * list pystr)).
Abbreviation budget := (input_budget max_input cfg).
Abbreviation digest_chars := (compaction_digest_chars cfg).

Definition proactive (f : fitting) (q : nat) : res pystr fitting :=
  if proactive_compaction_enabled cfg && negb (bool_decide (cited_snippets = []))
  then _compact_superseded_tool_results cited_snippets digest_chars f q
  else Ok f.

Lemma proactive_ok fixed f q :
  accounted fixed f ->
  exists f', proactive f q = Ok f' /\ accounted fixed f' /\ compacted cited_snippets q f.1 f'.1.
Proof.
  intros Hf. unfold proactive. destruct (_ && _).
  - apply compact_fold_ok; [done|]. by apply candidates_ok.
  - exists f. split_and!; [done|done|apply compacted_refl].
Qed.

(** Once the history is shed, what is left of the transcript. *)
Definition shed_of (k q : nat) (wc : costed) : costed :=
  take 1 (take q wc) ++ drop (1 + k) (take q wc) ++ drop q wc.

Lemma shed_stage fixed f q :
  (q <= length f.1)%nat -> accounted fixed f ->
  exists k total ts, shed_history (length f.1) budget q f = ((shed_of k q f.1, total), ts) /\
    (ts <= 1 + (q - 1 - k))%nat /\ (ts = q - k)%nat /\ (k <= q - 1)%nat /\
    accounted fixed (shed_of k q f.1, total) /\ (total <= budget \/ k = (q - 1)%nat) /\
    (paired false (drop 1 (take q f.1.*1)) -> paired false (drop (1 + k) (take q f.1.*1))).
Proof.
  intros Hq Hf. destruct f as [wc total]. simpl in *. destruct q as [|q].
  - exists O, total, O. unfold shed_of. simpl. rewrite !drop_0.
    split_and!; [|lia|lia|lia|done|by right|done].
    destruct (length wc); simpl; [done|]. by destruct (budget <? total).
  - destruct wc as [|h rest]; simpl in Hq; [lia|].
    destruct (shed_ok fixed (length (h :: rest)) budget h rest q total)
      as (k & t' & Hs & Hk & Hf' & Hdone & Hp); [lia|simpl; lia|done|].
    exists k, t', (S (q - k)). unfold shed_of. simpl take. simpl drop.
    assert (drop k (take q rest) ++ drop q rest = drop k rest) as Hd.
    { rewrite <-drop_app_le, take_drop; [done|]. rewrite length_take. lia. }
    replace (take 0 (take q rest)) with ([] : costed) by done. simpl.
    rewrite Hd. split_and!; [exact Hs|lia|lia|lia|done| |done].
    destruct Hdone; [by left|right; lia].
Qed.
End stages.

Lemma fit_transcript_stages max_input cfg messages tools cited_snippets costs text :
  mapR _msg_cost messages = Ok costs -> _tools_wire_text tools = Ok text ->
  let q := _last_question_index messages in
  let budget := input_budget max_input cfg in
  exists f1, accounted (fixed_of text) f1 /\ compacted cited_snippets q (zip messages costs) f1.1 /\
    (proactive_compaction_enabled cfg = false -> f1.1 = zip messages costs) /\
    ((f1.2 <= budget /\ fit_transcript max_input cfg messages tools cited_snippets = Ok f1.1.*1) \/
     budget < f1.2 /\ exists k f2, (k <= q - 1)%nat /\ accounted (fixed_of text) f2 /\
       compacted cited_snippets (q - k) (shed_of k q f1.1) f2.1 /\
       (paired false (drop 1 (take q messages)) -> paired false (drop (1 + k) (take q messages))) /\
       (f2.2 <= budget \/ k = (q - 1)%nat) /\
       fit_transcript max_input cfg messages tools cited_snippets
       = guard_or CONTEXT_TOO_LARGE (f2.2 <=? budget) (Ok f2.1.*1)).
Proof.
  intros Hcosts Ht q budget. destruct (costed_zip _ _ Hcosts) as (Hz1 & Hz2 & Hz).
  set (f0 := (zip messages costs, fixed_of text + sum_Z costs) : fitting).
  assert (accounted (fixed_of text) f0) as Hf0 by (split; simpl; [done|by rewrite Hz2]).
  unfold fit_transcript. rewrite Hcosts, Ht. cbn [mbind res_bind].
  change (count text + _ARRAY_FRAMING_TOKENS + sum_Z costs) with (fixed_of text + sum_Z costs).
  fold f0. fold (proactive cfg cited_snippets f0 (_last_question_index messages)). fold q.
  destruct (proactive_ok cfg cited_snippets (fixed_of text) f0 q Hf0) as (f1 & Hp & Hf1 & H1).
  exists f1. split; [done|]. split; [exact H1|]. split.
  { intros Hoff. unfold proactive in Hp. rewrite Hoff in Hp. by injection Hp as <-. }
  rewrite Hp. cbn [mbind res_bind]. fold budget.
  destruct (f1.2 <=? budget) eqn:E1; [left; split; [lia|done]|]. right. split; [lia|].
  rewrite (question_compacted _ _ _ _ H1). simpl fst in *. rewrite Hz1. fold q.
  assert (length f1.1 = length messages) as Hlen.
  { rewrite <-(Forall2_length _ _ _ (proj2 H1)). simpl. rewrite <-Hz1 at 2. by rewrite length_fmap. }
  assert (take q f1.1.*1 = take q messages) as Htake.
  { rewrite <-fmap_take, (proj1 H1). simpl. by rewrite fmap_take, Hz1. }
  destruct (shed_stage max_input cfg (fixed_of text) f1 q)
    as (k & total & ts & Hs & _ & Hts & Hk & Hf2 & Hdone & Hpair);
    [rewrite Hlen; apply question_bound|done|].
  fold budget in Hs, Hdone. rewrite Hs. rewrite Htake in Hpair. simpl snd. simpl fst.
  destruct (budget <? total) eqn:E2.
  - destruct (compact_oldest_ok cited_snippets (compaction_digest_chars cfg) (fixed_of text) budget
      (Nat.max 1 (compaction_chunk_size cfg)) ts _ Hf2) as (f3 & Hc & Hf3 & H3).
    rewrite Hc. cbn [mbind res_bind]. exists k, f3. rewrite <-Hts. split_and!; try done.
    destruct Hdone; [lia|by right].
  - cbn [mbind res_bind]. exists k, (shed_of k q f1.1, total). split_and!; try done.
    apply compacted_refl.
Qed.

(** ** Properties *)

Lemma sum_cheaper cited_snippets (wc wc' : costed) :
  Forall2 (cheaper cited_snippets) wc wc' -> sum_Z wc'.*2 <= sum_Z wc.*2.
Proof.
  induction 1 as [|p p' wc wc' [_ Hp] _ IH]; [done|]. rewrite !fmap_cons, !sum_Z_cons. lia.
Qed.

Lemma digests_of cited_snippets (wc wc' : costed) :
  Forall2 (cheaper cited_snippets) wc wc' -> Forall2 (digest_of cited_snippets) wc.*1 wc'.*1.
Proof. intros Hw. apply Forall2_fmap. eapply Forall2_impl; [exact Hw|]. by intros p p' [? _]. Qed.

Lemma fit_costed max_input cfg messages tools cited_snippets ms :
  fit_transcript max_input cfg messages tools cited_snippets = Ok ms ->
  exists costs text, mapR _msg_cost messages = Ok costs /\ _tools_wire_text tools = Ok text.
Proof.
  unfold fit_transcript. intros (costs & Hc & (text & Ht & _)%bind_ok)%bind_ok. eauto.
Qed.

(** The messages left of a transcript when [k] messages of history are shed. *)
Definition shed_messages (k q : nat) (messages : list ChatMessage) : list ChatMessage :=
  take 1 (take q messages) ++ drop (1 + k) (take q messages) ++ drop q messages.

Lemma shed_of_messages k q (wc : costed) : (shed_of k q wc).*1 = shed_messages k q wc.*1.
Proof. unfold shed_of, shed_messages. by rewrite !fmap_app, !fmap_take, !fmap_drop, !fmap_take. Qed.

Lemma take_shed k q messages :
  (k <= q - 1)%nat -> (q <= length messages)%nat ->
  take (q - k) (shed_messages k q messages) = take 1 (take q messages) ++ drop (1 + k) (take q messages).
Proof.
  intros Hk Hq. unfold shed_messages. rewrite (assoc_L (++)). apply take_app_length'.
  rewrite length_app, length_drop, !length_take. lia.
Qed.

Lemma digests_shed cited_snippets k q l l' :
  Forall2 (digest_of cited_snippets) l l' ->
  Forall2 (digest_of cited_snippets) (shed_messages k q l) (shed_messages k q l').
Proof.
  intros Hl. unfold shed_messages. repeat apply Forall2_app;
    repeat (apply Forall2_take || apply Forall2_drop); done.
Qed.

(** C35: A transcript that is accepted fits the model's input budget.  It is the
    given transcript with some of the oldest history shed, in whole tool groups,
    and some tool results of the current answer digested: the system head, the
    question, every role, identifier and tool call, and the order are kept, and
    a snippet cited from a result stays in it verbatim. *)
Theorem fit_transcript_fits max_input cfg messages tools cited_snippets ms :
  fit_transcript max_input cfg messages tools cited_snippets = Ok ms ->
  let q := _last_question_index messages in
  (exists n, estimate_message_tokens ms tools = Ok n /\ n <= input_budget max_input cfg) /\
  exists k, Forall2 (digest_of cited_snippets) (shed_messages k q messages) ms /\
    take (q - k) ms = take (q - k) (shed_messages k q messages) /\
    (paired false (drop 1 (take q messages)) -> paired false (drop (1 + k) (take q messages))).
Proof.
  intros Hfit q. destruct (fit_costed _ _ _ _ _ _ Hfit) as (costs & text & Hc & Ht).
  destruct (costed_zip _ _ Hc) as (Hz & _ & _).
  destruct (fit_transcript_stages max_input cfg messages tools cited_snippets costs text Hc Ht)
    as (f1 & Hf1 & [H1t H1] & _ & [(Hle & Hok)|(_ & k & f2 & Hk & Hf2 & [H2t H2] & Hp & _ & Hok)]).
  - rewrite Hfit in Hok. injection Hok as ->. split.
    { eexists. split; [by eapply estimate_accounted|done]. }
    exists O. fold q in H1t. assert (shed_messages 0 q messages = messages) as ->.
    { unfold shed_messages. rewrite (assoc_L (++)), !take_drop. done. }
    split_and!; [by rewrite <-Hz at 1; apply digests_of| |done].
    by rewrite Nat.sub_0_r, <-fmap_take, H1t, fmap_take, Hz.
  - rewrite Hfit in Hok. destruct (f2.2 <=? _) eqn:E; simpl in Hok; [|done].
    injection Hok as ->. split.
    { eexists. split; [by eapply estimate_accounted|lia]. }
    fold q in H1t, H2t, H2, Hp, Hk. 
    assert (Forall2 (digest_of cited_snippets) messages f1.1.*1) as Hd1.
    { rewrite <-Hz at 1. by apply digests_of. }
    assert (take q f1.1.*1 = take q messages) as Ht1 by by rewrite <-fmap_take, H1t, fmap_take, Hz.
    exists k. split_and!; [| |done].
    + apply digests_of in H2. rewrite shed_of_messages in H2.
      eapply Forall2_trans; [|by apply digests_shed|exact H2]. by apply digest_of_trans.
    + pose proof (question_bound messages) as Hq. fold q in Hq.
      rewrite <-fmap_take, H2t, fmap_take, shed_of_messages.
      rewrite !take_shed, Ht1 by (done || by rewrite <-(Forall2_length _ _ _ Hd1)). done.
Qed.

(** A transcript is refused only if its head and the current answer alone
    exceed the budget; one that fits as it is, and is not compacted ahead of
    need, is left alone. *)
Theorem fit_transcript_refuses_last max_input cfg messages tools cited_snippets n :
  let q := _last_question_index messages in
  let budget := input_budget max_input cfg in
  is_ok (mapR _msg_cost messages) = true ->
  estimate_message_tokens (shed_messages (q - 1) q messages) tools = Ok n ->
  (n <= budget -> exists ms, fit_transcript max_input cfg messages tools cited_snippets = Ok ms) /\
  (forall n', estimate_message_tokens messages tools = Ok n' -> n' <= budget ->
     proactive_compaction_enabled cfg = false ->
     fit_transcript max_input cfg messages tools cited_snippets = Ok messages).
Proof.
  intros q budget Hcosts Hest. destruct (mapR _msg_cost messages) as [costs|] eqn:Hc; [|done].
  pose proof Hest as Hest'. unfold estimate_message_tokens in Hest'.
  apply bind_ok in Hest' as (text & Ht & _). destruct (costed_zip _ _ Hc) as (Hz & Hz2 & Hzc).
  destruct (fit_transcript_stages max_input cfg messages tools cited_snippets costs text Hc Ht)
    as (f1 & Hf1 & H1 & Hoff & Hcases). fold q budget in H1, Hcases.
  pose proof (estimate_accounted _ _ _ Ht Hf1) as He1. split.
  - intros Hn. destruct Hcases as [(_ & ->)|(_ & k & f2 & Hk & Hf2 & H2 & _ & [Hle| ->] & ->)]; [by eauto| |].
    { rewrite (proj2 (Z.leb_le _ _)) by done. simpl. eauto. }
    assert (accounted (fixed_of text)
      (shed_of (q - 1) q (zip messages costs), n)) as [_ Hsum].
    { split; simpl.
      - unfold shed_of. rewrite !Forall_app. split_and!; by repeat (apply Forall_take || apply Forall_drop).
      - revert Hest. unfold estimate_message_tokens. rewrite Ht. cbn [mbind res_bind].
        rewrite <-Hz at 1. rewrite <-shed_of_messages, costed_back; [|].
        + cbn [mbind res_bind]. by intros [= <-].
        + unfold shed_of. rewrite !Forall_app.
          split_and!; by repeat (apply Forall_take || apply Forall_drop). }
    rewrite (proj2 (Z.leb_le _ _)); [simpl; eauto|]. destruct Hf2 as [_ ->].
    pose proof (sum_cheaper _ _ _ (proj2 H2)) as Hs2.
    assert (sum_Z (shed_of (q - 1) q f1.1).*2 <= sum_Z (shed_of (q - 1) q (zip messages costs)).*2) as Hs1.
    { apply (sum_cheaper cited_snippets). unfold shed_of. repeat apply Forall2_app;
        repeat (apply Forall2_take || apply Forall2_drop); apply H1. }
    simpl in Hsum. lia.
  - intros n' Hn' Hle Hpro. specialize (Hoff Hpro).
    assert (f1.2 = n') as Hf. { rewrite Hoff, Hz in He1. congruence. }
    destruct Hcases as [(_ & ->)|(Hgt & _)]; [by rewrite Hoff, Hz|lia].
Qed.

Lemma reverse_take_reverse {A} (l : list A) j :
  (j <= length l)%nat -> reverse (take j (reverse l)) = drop (length l - j) l.
Proof.
  intros Hj. rewrite <-(take_drop (length l - j) l) at 1. rewrite reverse_app.
  rewrite take_app_length' by (rewrite length_reverse, length_drop; lia). apply reverse_involutive.
Qed.

Lemma take_recent_ok remaining spent l kept spent' :
  take_recent remaining spent l = Ok (kept, spent') ->
  exists j costs, (j <= length l)%nat /\ kept = take j l /\ mapR _msg_cost kept = Ok costs /\
    spent' = spent + sum_Z costs /\ (spent <= remaining -> spent' <= remaining) /\
    ((j < length l)%nat -> exists m c, l !! j = Some m /\ _msg_cost m = Ok c /\ remaining < spent' + c).
Proof.
  revert spent kept. induction l as [|m l IH]; intros spent kept; simpl.
  - intros [= <- <-]. exists O, []. split_and!; [done|done|done|simpl; lia|done|lia].
  - destruct (_msg_cost m) as [c|] eqn:Em; [|done]. cbn [mbind res_bind].
    destruct (remaining <? spent + c) eqn:Er.
    + intros [= <- <-]. exists O, []. split_and!; [simpl; lia|done|done|simpl; lia|done|].
      intros _. exists m, c. split_and!; [done|done|lia].
    + destruct (take_recent remaining (spent + c) l) as [[kept1 spent1]|] eqn:Et; [|done].
      intros [= <- <-]. destruct (IH _ _ Et) as (j & costs & Hj & -> & Hc & Hs & Hb & Hn).
      exists (S j), (c :: costs). rewrite sum_Z_cons. simpl. rewrite Em, Hc. simpl.
      split_and!; [lia|done|done|lia|lia|]. intros Hlt. apply Hn. lia.
Qed.

Lemma take_recent_total remaining spent l :
  is_ok (mapR _msg_cost l) = true -> is_ok (take_recent remaining spent l) = true.
Proof.
  revert spent. induction l as [|m l IH]; intros spent; simpl; [done|].
  destruct (_msg_cost m) as [c|]; [|done]. simpl. destruct (mapR _msg_cost l); [|done]. intros _.
  destruct (_ <? _); [done|]. specialize (IH (spent + c) eq_refl).
  by destruct (take_recent _ _ l).
Qed.

Lemma estimate_app ms1 ms2 tools text c1 c2 :
  _tools_wire_text tools = Ok text -> mapR _msg_cost ms1 = Ok c1 -> mapR _msg_cost ms2 = Ok c2 ->
  estimate_message_tokens (ms1 ++ ms2) tools = Ok (fixed_of text + sum_Z c1 + sum_Z c2).
Proof.
  intros Ht H1%mapR_Forall2 H2%mapR_Forall2. unfold estimate_message_tokens. rewrite Ht.
  cbn [mbind res_bind]. rewrite (proj2 (mapR_Forall2 _ _ (c1 ++ c2))) by by apply Forall2_app.
  cbn [mbind res_bind]. rewrite sum_Z_app. f_equal. unfold fixed_of. lia.
Qed.

Definition system_of (p : pystr) : ChatMessage := mk_message SYSTEM p [] None None (Some []).
Definition question_of (p : pystr) : ChatMessage := mk_message USER p [] None None (Some []).

Lemma sum_reverse l : sum_Z (reverse l) = sum_Z l.
Proof.
  induction l as [|x l IH]; [done|]. rewrite reverse_cons, sum_Z_app, IH, sum_Z_cons. simpl. lia.
Qed.

Lemma fixed_estimate m1 m2 tools n :
  estimate_message_tokens [m1; m2] tools = Ok n ->
  exists text c1 c2, _tools_wire_text tools = Ok text /\ _msg_cost m1 = Ok c1 /\
    _msg_cost m2 = Ok c2 /\ n = fixed_of text + c1 + c2.
Proof.
  unfold estimate_message_tokens, fixed_of.
  intros (text & -> & (cs & Hcs%mapR_Forall2 & [= <-])%bind_ok)%bind_ok.
  apply Forall2_cons_inv_l in Hcs as (c1 & l & H1 & Hl & ->).
  apply Forall2_cons_inv_l in Hl as (c2 & l' & H2 & ->%Forall2_nil_inv_l & ->).
  exists text, c1, c2. rewrite !sum_Z_cons. split_and!; [done..|]. simpl. lia.
Qed.

Lemma costs_nonneg ms cs :
  (forall t, 0 <= count t) -> mapR _msg_cost ms = Ok cs -> 0 <= sum_Z cs.
Proof.
  intros Hpos Hcs%mapR_Forall2. induction Hcs as [|m c ms cs Hc _ IH]; [done|].
  rewrite sum_Z_cons. unfold _msg_cost in Hc. apply bind_ok in Hc as (t & _ & [= <-]).
  pose proof (Hpos t). unfold _MESSAGE_FRAMING_TOKENS. lia.
Qed.

(** The reserved segment is kept, or shed whole when it does not fit. *)
Lemma reserve_choice budget n reserved rc :
  mapR _msg_cost reserved = Ok rc ->
  let shed := (budget <? n + sum_Z rc) && negb (bool_decide (reserved = [])) in
  let r := if shed then [] else reserved in
  let fixed := if shed then n else n + sum_Z rc in
  exists c, (r = reserved \/ r = []) /\ mapR _msg_cost r = Ok c /\ fixed = n + sum_Z c /\
    (budget < fixed -> budget < n) /\
    (r = [] -> reserved = [] \/ exists c, mapR _msg_cost reserved = Ok c /\ budget < n + sum_Z c).
Proof.
  intros Hrc shed r fixed. unfold r, fixed. destruct shed eqn:E; unfold shed in E.
  - apply andb_true_iff in E as [E _]. exists []. split_and!; [by right|done|simpl; lia|done|].
    intros _. right. exists rc. split; [done|lia].
  - exists rc. split_and!; [by left|done|done| |by left]. intros Hlt.
    apply andb_false_iff in E as [E|E]; [lia|]. apply negb_false_iff, bool_decide_eq_true in E.
    subst reserved. injection Hrc as <-. simpl in Hlt. lia.
Qed.

(** An assembled prompt is the system message, the reserved segment or
    nothing, the newest part of the history and the question; its estimate is
    the one of the per-turn check and fits the input budget; the next older
    message would not have fitted.  Assembly is refused exactly when the system
    message, the question and the tools alone do not fit. *)
Theorem assemble_context_fits max_input cfg system_prompt reserved history question tools n :
  let fixed_messages := [system_of system_prompt; question_of question] in
  let budget := input_budget max_input cfg in
  estimate_message_tokens fixed_messages tools = Ok n ->
  is_ok (mapR _msg_cost (reserved ++ reverse history)) = true ->
  match assemble_context max_input cfg system_prompt reserved history question tools with
  | Err e => e = CONTEXT_TOO_LARGE /\ budget < n
  | Ok b => ((forall t, 0 <= count t) -> n <= budget) /\ exists r, (r = reserved \/ r = []) /\
      cb_messages b = [system_of system_prompt] ++ r ++ drop (dropped_history_messages b) history
                      ++ [question_of question] /\
      estimate_message_tokens (cb_messages b) tools = Ok (estimated_tokens b) /\
      estimated_tokens b <= budget /\
      (r = [] -> reserved = [] \/ exists c, mapR _msg_cost reserved = Ok c /\ budget < n + sum_Z c) /\
      ((0 < dropped_history_messages b)%nat ->
       exists m c, history !! pred (dropped_history_messages b) = Some m /\ _msg_cost m = Ok c /\
                   budget < estimated_tokens b + c)
  end.
Proof.
  intros fixed_messages budget Hn Hall. unfold assemble_context.
  destruct (mapR _msg_cost (reserved ++ reverse history)) as [cs|] eqn:Hcs; [|done].
  apply mapR_Forall2, Forall2_app_inv_l in Hcs as (rc & hc & Hrc & Hhc & ->).
  apply mapR_Forall2 in Hrc, Hhc. rewrite Hrc.
  fold (system_of system_prompt). fold (question_of question). fold budget.
  destruct (fixed_estimate _ _ _ _ Hn) as (text & sc & qc & Ht & Hs & Hq & Hnt).
  rewrite Ht, Hs, Hq. cbn [mbind res_bind].
  replace (sc + qc + count text + _ARRAY_FRAMING_TOKENS) with n by (unfold fixed_of in Hnt; lia).
  destruct (reserve_choice budget n reserved rc Hrc) as (c & Hr & Hc & Hfix & Hshed & Hback).
  set (shed := _ && _) in *. set (r := if shed then [] else reserved) in *.
  set (fixed := if shed then n else n + sum_Z rc) in *.
  destruct (fixed <=? budget) eqn:Ef; [|split; [done|apply Hshed; lia]]. cbn [guard_or].
  destruct (take_recent (budget - fixed) 0 (reverse history)) as [[kept spent]|e] eqn:Et.
  2: { pose proof (take_recent_total (budget - fixed) 0 (reverse history)) as Htot.
       rewrite Et, Hhc in Htot. by specialize (Htot eq_refl). }
  cbn [mbind res_bind fst snd]. split.
  { intros Hpos. pose proof (costs_nonneg _ _ Hpos Hc). lia. }
  exists r.
  destruct (take_recent_ok _ _ _ _ _ Et) as (j & costs & Hj & -> & Hkc & -> & Hb & Hnext).
  rewrite length_reverse in Hj, Hnext. simpl. rewrite length_take, length_reverse, Nat.min_l by done.
  rewrite reverse_take_reverse by done. rewrite Hrc in Hback.
  split_and!; [exact Hr|done| |lia|exact Hback|].
  - rewrite <-(reverse_take_reverse _ _ Hj).
    etrans; [apply (estimate_app [system_of system_prompt]
      (r ++ reverse (take j (reverse history)) ++ [question_of question]) tools text [sc]
      (c ++ (reverse costs ++ [qc])) Ht)|].
    + apply mapR_Forall2. by repeat constructor.
    + apply mapR_Forall2. repeat apply Forall2_app; [by apply mapR_Forall2| |by repeat constructor].
      by apply Forall2_reverse, mapR_Forall2.
    + rewrite !sum_Z_app, sum_reverse, !sum_Z_cons. change (sum_Z []) with 0. apply f_equal. lia.
  - intros Hd. destruct Hnext as (m & mc & Hm & Hmc & Hlt); [lia|]. exists m, mc.
    split_and!; [|done|lia]. apply reverse_lookup_Some in Hm as [Hm _].
    by replace (pred (length history - j)) with (length history - S j)%nat by lia.
Qed.
End context.

(** ** A concrete host and transcripts *)

#[local] Existing Instance demo_schema_lib.

Fixpoint demo_dumps (j : json) : pystr :=
  match j with
  | JStr s => 34%N :: s ++ [34%N]
  | JArr l => 91%N :: concat (map demo_dumps l) ++ [93%N]
  | JObj kvs => 123%N :: concat (map (fun p => p.1 ++ 58%N :: demo_dumps p.2) kvs) ++ [125%N]
  | _ => [48%N]
  end.
Definition demo_count (s : pystr) : Z := Z.of_nat (length s).
Definition demo_text (n : nat) : pystr := replicate n 97%N.
Definition demo_search : ToolCall := mk_call (cp "c1") (cp "search") [].
Definition plain (r : Role) (c : pystr) : ChatMessage := mk_message r c [] None None None.
Definition result (id c : pystr) : ChatMessage := mk_message TOOL c [] (Some id) None None.
Definition demo_evidence : pystr := cp "the contract ends in May".

(** A head, an old exchange with a tool call, the question, and a search whose
    result is cited beyond the digest. *)
Definition demo_transcript : list ChatMessage :=
  [plain SYSTEM (cp "rules"); plain USER (demo_text 40);
   mk_message ASSISTANT [] [mk_call (cp "c0") (cp "search") []] None None None;
   result (cp "c0") (demo_text 300);
   plain USER (cp "when does it end?");
   mk_message ASSISTANT [] [demo_search] None None None;
   result (cp "c1") (demo_text 400 ++ demo_evidence ++ demo_text 400)].
Definition demo_cited : list (pystr * list pystr) := [(cp "c1", [demo_evidence])].
Definition demo_config : ContextConfig := mk_config 100000 0 20 4 false.
Definition demo_fit (max_input : Z) : res pystr (list ChatMessage) :=
  fit_transcript demo_sha demo_dumps demo_dumps demo_count (Some max_input) demo_config
    demo_transcript [] demo_cited.
Definition demo_fitted : list ChatMessage := match demo_fit 1600 with Ok ms => ms | Err _ => [] end.

Example demo_fit_sheds :
  (fun m => (m_role m, length (m_content m))) <$> demo_fitted
  = [(SYSTEM, 5%nat); (USER, 17%nat); (ASSISTANT, 0%nat); (TOOL, 206%nat)] /\
  demo_fit 1400 = Err CONTEXT_TOO_LARGE /\ demo_fit 5000 = Ok demo_transcript.
Proof. by vm_compute. Qed.

Lemma fit_transcript_fits_witness :
  demo_fit 1600 = Ok demo_fitted /\
  exists n, estimate_message_tokens demo_sha demo_dumps demo_dumps demo_count demo_fitted [] = Ok n /\
            n <= 576.
Proof.
  assert (demo_fit 1600 = Ok demo_fitted) as Hfit by by vm_compute.
  split; [done|].
  destruct (fit_transcript_fits demo_sha demo_dumps demo_dumps demo_count (Some 1600) demo_config
              demo_transcript [] demo_cited demo_fitted Hfit) as [(n & Hn & Hle) _].
  exists n. split; [done|]. exact Hle.
Defined.

Lemma fit_transcript_refuses_last_witness : exists ms, demo_fit 5000 = Ok ms.
Proof.
  apply (fit_transcript_refuses_last demo_sha demo_dumps demo_dumps demo_count (Some 5000) demo_config
           demo_transcript [] demo_cited 1057).
  - by vm_compute.
  - by vm_compute.
  - by vm_compute.
Defined.

Definition demo_history : list ChatMessage :=
  [plain USER (demo_text 300); plain ASSISTANT (demo_text 50)].
Definition demo_prompt : res pystr ContextBudget :=
  assemble_context demo_sha demo_dumps demo_dumps demo_count (Some 1300) demo_config
    (cp "rules") [plain USER (demo_text 400)] demo_history (cp "and now?") [].

Lemma assemble_context_fits_witness :
  exists b, demo_prompt = Ok b /\ dropped_history_messages b = 1%nat /\ estimated_tokens b <= 276.
Proof.
  assert (exists b, demo_prompt = Ok b /\ dropped_history_messages b = 1%nat) as (b & Hb & Hd)
    by (exists (match demo_prompt with Ok b => b | Err _ => mk_budget [] 0 0 0 0 0 0 end); by vm_compute).
  pose proof (assemble_context_fits demo_sha demo_dumps demo_dumps demo_count (Some 1300) demo_config
    (cp "rules") [plain USER (demo_text 400)] demo_history (cp "and now?") [] 73
    ltac:(by vm_compute) ltac:(by vm_compute)) as Hfit.
  fold demo_prompt in Hfit. rewrite Hb in Hfit. destruct Hfit as (_ & r & _ & _ & _ & Hle & _).
  by exists b.
Defined.
