(* ===== verification/Streams.v ===== *)
(** * Answer streams: publish, replay, subscribe and stop

    [backend/app/realtime/backplane.py] ([RedisBackplane] and
    [InMemoryBackplane]: publish, the bounded replay list, subscribe with its
    post-terminal window, the owner binding, the cancel key, [get_terminal]),
    [backend/app/services/chat_stream_access.py] and
    [backend/app/services/stream_cancellation.py].

    One stream is modelled.  The commands of the producer's Redis pipeline are
    separate steps that interleave with the subscriber's SUBSCRIBE and LRANGE;
    a pub/sub message reaches a subscriber that was subscribed when it was
    published, in order.  Connection handling and the keys' time to live
    (refreshed by every publish) are not modelled. *)

From stdpp Require Import base list strings sets sorting.
From Stdlib Require Import Lia ZArith.
From S2P Require Import Prelude Json Tools.
Open Scope Z_scope.

Abbreviation envelope := dict (only parsing).

(** ** Envelopes *)

Definition typed (t : pystr) (e : envelope) : bool :=
  match dict_get (cp "type") e with Some (JStr s) => bool_decide (s = t) | _ => false end.
Definition _TERMINAL_TYPES : list pystr := [cp "done"; cp "error"; cp "cancelled"].
Definition is_terminal (e : envelope) : bool :=
  match dict_get (cp "type") e with Some (JStr s) => mem s _TERMINAL_TYPES | _ => false end.
Definition _declares_pending_suggestions (e : envelope) : bool :=
  typed (cp "done") e &&
  match dict_get (cp "data") e with
  | Some (JObj d) => match dict_get (cp "pendingSuggestions") d with Some (JBool b) => b | _ => false end
  | _ => false
  end.
Definition _is_suggestions (e : envelope) : bool :=
  typed (cp "event") e &&
  match dict_get (cp "name") e with Some (JStr s) => bool_decide (s = cp "suggestions") | _ => false end.
(** [seq], when it is an [int] (a [bool] is one). *)
Definition seq_of (e : envelope) : option Z :=
  match dict_get (cp "seq") e with
  | Some (JInt n) => Some n
  | Some (JBool b) => Some (if b then 1 else 0)
  | _ => None
  end.

Definition _MAX_REPLAY : nat := 512.

(** ** Subscribers *)

(** What a subscriber reads next: a message, some other pub/sub item, or (only
    noticed in the post-terminal window) the window's deadline. *)
Inductive item : Type := Env (e : envelope) | Noise | Deadline.

Inductive status : Type := Closed | Waiting.

(** [_grace_relay], and its consumer: until the suggestions or the deadline. *)
Fixpoint grace_relay (replayed_seq : Z) (live : list item) : list envelope * status :=
  match live with
  | [] => ([], Waiting)
  | Deadline :: _ => ([], Closed)
  | Noise :: live => grace_relay replayed_seq live
  | Env e :: live =>
      if match seq_of e with Some s => s <=? replayed_seq | None => false end
      then grace_relay replayed_seq live
      else if _is_suggestions e then ([e], Closed)
      else let '(out, st) := grace_relay replayed_seq live in (e :: out, st)
  end.

(** The live loop before a terminal. *)
Fixpoint live_relay (replayed_seq : Z) (live : list item) : list envelope * status :=
  match live with
  | [] => ([], Waiting)
  | (Noise | Deadline) :: live => live_relay replayed_seq live
  | Env e :: live =>
      if match seq_of e with Some s => s <=? replayed_seq | None => false end
      then live_relay replayed_seq live
      else if is_terminal e then
        if _declares_pending_suggestions e
        then let '(out, st) := grace_relay replayed_seq live in (e :: out, st)
        else ([e], Closed)
      else let '(out, st) := live_relay replayed_seq live in (e :: out, st)
  end.

(** [RedisBackplane.subscribe], from its replay snapshot and the live channel. *)
Fixpoint redis_subscribe (replayed_seq : Z) (awaiting : bool) (replay : list envelope)
    (live : list item) : list envelope * status :=
  match replay with
  | [] => if awaiting then grace_relay replayed_seq live else live_relay replayed_seq live
  | e :: replay =>
      let replayed_seq := match seq_of e with Some s => Z.max replayed_seq s | None => replayed_seq end in
      let continue awaiting :=
        let '(out, st) := redis_subscribe replayed_seq awaiting replay live in (e :: out, st) in
      if awaiting then if _is_suggestions e then ([e], Closed) else continue true
      else if is_terminal e then
        if _declares_pending_suggestions e then continue true else ([e], Closed)
      else continue false
  end.

(** [InMemoryBackplane.subscribe]: one queue that starts with the replay. *)
Fixpoint memory_window (queue : list item) : list envelope * status :=
  match queue with
  | [] => ([], Waiting)
  | Deadline :: _ => ([], Closed)
  | Noise :: queue => memory_window queue
  | Env e :: queue =>
      if _is_suggestions e then ([e], Closed)
      else let '(out, st) := memory_window queue in (e :: out, st)
  end.
Fixpoint memory_subscribe (queue : list item) : list envelope * status :=
  match queue with
  | [] => ([], Waiting)
  | (Noise | Deadline) :: queue => memory_subscribe queue
  | Env e :: queue =>
      if is_terminal e then
        if _declares_pending_suggestions e
        then let '(out, st) := memory_window queue in (e :: out, st)
        else ([e], Closed)
      else let '(out, st) := memory_subscribe queue in (e :: out, st)
  end.

(** ** Publishing *)

(** [del buf[0 : len(buf) - _MAX_REPLAY]], and [LTRIM key -_MAX_REPLAY -1]. *)
Definition trim (l : list envelope) : list envelope := drop (length l - _MAX_REPLAY) l.

(** The in-memory buffer after the publishes [l]. *)
Definition memory_replay (l : list envelope) : list envelope :=
  foldl (fun buf e => trim (buf ++ [e])) [] l.

(** The producer's pipeline: RPUSH, LTRIM, PUBLISH, for each envelope. *)
Inductive phase : Type := Idle | Pushed (e : envelope) | Trimmed (e : envelope).

Record channel := mk_channel {
  ch_todo : list envelope;                   (** envelopes still to publish *)
  ch_phase : phase;
  ch_list : list envelope;                   (** the replay list *)
  ch_live : option (list envelope);          (** what the subscription has received *)
  ch_snapshot : option (list envelope)       (** the LRANGE of the subscriber *)
}.

Definition opened (es : list envelope) : channel := mk_channel es Idle [] None None.

Inductive chan_step : channel -> channel -> Prop :=
| cs_rpush e es l live snap :
    chan_step (mk_channel (e :: es) Idle l live snap) (mk_channel es (Pushed e) (l ++ [e]) live snap)
| cs_ltrim e es l live snap :
    chan_step (mk_channel es (Pushed e) l live snap) (mk_channel es (Trimmed e) (trim l) live snap)
| cs_publish e es l live snap :
    chan_step (mk_channel es (Trimmed e) l live snap)
              (mk_channel es Idle l ((fun m => m ++ [e]) <$> live) snap)
| cs_subscribe es p l snap :
    chan_step (mk_channel es p l None snap) (mk_channel es p l (Some []) snap)
| cs_lrange es p l live :
    chan_step (mk_channel es p l (Some live) None) (mk_channel es p l (Some live) (Some l)).

(** [get_terminal]: the last terminal of the replay. *)
Definition get_terminal (replay : list envelope) : option envelope :=
  find is_terminal (reverse replay).

(** The states a stream's channel can be in while [es] is published. *)
Inductive chan_reachable (es : list envelope) : channel -> Prop :=
| cr_opened : chan_reachable es (opened es)
| cr_step c c' : chan_reachable es c -> chan_step c c' -> chan_reachable es c'.

(** The producer is done, and the subscriber has subscribed and read the replay. *)
Definition settled (c : channel) (live replay : list envelope) : Prop :=
  c.(ch_todo) = [] /\ c.(ch_phase) = Idle /\
  c.(ch_live) = Some live /\ c.(ch_snapshot) = Some replay.

(** ** Ownership and Stop *)

Record StreamOwner := mk_owner { so_owner_id : uuid; so_tenant_id : uuid }.

(** What the two services do besides answering. *)
Inductive effect : Type :=
| Denied (action : pystr) (stream_id : pystr)     (** a [not_visible] permission denial *)
| SignalCancel (stream_id : pystr)                (** the durable cancel key *)
| RegistryCancel (stream_id : pystr).             (** the producer task of this process *)

Definition not_owner (owner : option StreamOwner) (p : Principal) : bool :=
  match owner with
  | None => true
  | Some o => negb (bool_decide (o.(so_owner_id) = p.(user_id)))
              || negb (bool_decide (o.(so_tenant_id) = p.(tenant_id)))
  end.

(** [ChatStreamAccessService.authorize] *)
Definition authorize (owner : option StreamOwner) (p : Principal) (stream_id : pystr)
    : bool * list effect :=
  if not_owner owner p
  then (false, [Denied (cp "chat.stream.subscribe") stream_id])
  else (true, []).

Inductive cancel_error : Type :=
| NotFound                   (** [NotFoundError] *)
| NotConfirmed               (** [DependencyError], "could not be confirmed" *)
| NotSaved                   (** [DependencyError], "could not be saved" *)
| AttributeError.            (** a [problem] that is not a dict *)

(** [terminal.get("problem", {}).get("code") == "cancellation_persist_failed"] *)
Definition persist_failed (terminal : envelope) : option bool :=
  match default (JObj []) (dict_get (cp "problem") terminal) with
  | JObj d => Some (match dict_get (cp "code") d with
                    | Some (JStr s) => bool_decide (s = cp "cancellation_persist_failed")
                    | _ => false end)
  | _ => None
  end.

Definition acknowledge (terminal : envelope) : res cancel_error envelope :=
  match persist_failed terminal with
  | None => Err AttributeError
  | Some true => Err NotSaved
  | Some false => Ok terminal
  end.

(** [StreamCancellationService.cancel].  [replay] is what [get_terminal] reads,
    [events] what its subscription yields before it ends or the time is up (the
    two are the same error). *)
Definition cancel (owner : option StreamOwner) (p : Principal) (stream_id : pystr)
    (replay events : list envelope) : res cancel_error envelope * list effect :=
  if not_owner owner p
  then (Err NotFound, [Denied (cp "chat.stream.cancel") stream_id])
  else match get_terminal replay with
       | Some t => (acknowledge t, [])
       | None =>
           (match find is_terminal events with
            | Some t => acknowledge t
            | None => Err NotConfirmed
            end, [SignalCancel stream_id; RegistryCancel stream_id])
       end.

(** ** The two subscribers *)

Definition envs (its : list item) : list envelope :=
  omap (fun i => match i with Env e => Some e | _ => None end) its.

(** A live item the replay has already delivered. *)
Definition stale (z : Z) (i : item) : bool :=
  match i with
  | Env e => match seq_of e with Some s => s <=? z | None => false end
  | _ => false
  end.
Definition fresh (z : Z) (its : list item) : list item := List.filter (fun i => negb (stale z i)) its.

(** The high-water mark after a replay. *)
Definition high (z : Z) (replay : list envelope) : Z :=
  foldl (fun z e => match seq_of e with Some s => Z.max z s | None => z end) z replay.

Lemma grace_relay_fresh z its : grace_relay z its = memory_window (fresh z its).
Proof.
  induction its as [|[e| |] its IH]; simpl; auto.
  destruct (seq_of e) as [s|]; simpl; [destruct (s <=? z); simpl|]; rewrite IH; auto.
Qed.

Lemma live_relay_fresh z its : live_relay z its = memory_subscribe (fresh z its).
Proof.
  induction its as [|[e| |] its IH]; simpl; auto.
  destruct (seq_of e) as [s|]; simpl; [destruct (s <=? z); simpl|];
    rewrite ?IH, ?grace_relay_fresh; auto.
Qed.

Lemma redis_subscribe_queue replay : forall z aw its,
  redis_subscribe z aw replay its =
  (if aw then memory_window else memory_subscribe)
    ((Env <$> replay) ++ fresh (high z replay) its).
Proof.
  induction replay as [|e replay IH]; intros z aw its; simpl.
  - destruct aw; [apply grace_relay_fresh | apply live_relay_fresh].
  - rewrite !IH. destruct aw; simpl; [done|].
    by destruct (is_terminal e), (_declares_pending_suggestions e).
Qed.

(** ** What the channel holds *)

Lemma trim_trim_app a b : trim (trim a ++ b) = trim (a ++ b).
Proof.
  unfold trim at 2. destruct (decide (length a <= _MAX_REPLAY)%nat) as [Hle|Hgt].
  - replace (length a - _MAX_REPLAY)%nat with 0%nat by lia. by rewrite drop_0.
  - rewrite <- drop_app_le by lia. unfold trim. rewrite drop_drop, length_drop, length_app.
    f_equal. lia.
Qed.

(** The in-memory buffer is the last 512 envelopes. *)
Lemma memory_replay_trim l : memory_replay l = trim l.
Proof.
  induction l as [|e l IH] using rev_ind; [done|].
  unfold memory_replay in *. rewrite foldl_app, IH. simpl. apply trim_trim_app.
Qed.

Definition pending (p : phase) : list envelope :=
  match p with Idle => [] | Pushed e | Trimmed e => [e] end.
Definition window (p : phase) (published : list envelope) : list envelope :=
  match p with
  | Idle => trim published
  | Pushed e => trim published ++ [e]
  | Trimmed e => trim (published ++ [e])
  end.

(** After [s] publishes the subscription was registered, and after [r] pushes
    the replay was read. *)
Record chan_inv (es : list envelope) (c : channel) (published : list envelope) : Prop := {
  ci_all : es = published ++ pending (ch_phase c) ++ ch_todo c;
  ci_list : ch_list c = window (ch_phase c) published;
  ci_live L : ch_live c = Some L ->
    exists s, (s <= length published)%nat /\ L = drop s published /\
    forall R, ch_snapshot c = Some R ->
      exists r k, (s <= r <= length (published ++ pending (ch_phase c)))%nat
        /\ (k <= r - _MAX_REPLAY)%nat
        /\ R = drop k (take r (published ++ pending (ch_phase c)));
  ci_snap : ch_live c = None -> ch_snapshot c = None
}.

Lemma window_spec p published :
  exists k, (k <= length (published ++ pending p) - _MAX_REPLAY)%nat
    /\ window p published = drop k (published ++ pending p).
Proof.
  destruct p as [|e|e]; simpl; rewrite ?app_nil_r; unfold trim; eauto.
  exists (length published - _MAX_REPLAY)%nat. rewrite length_app; simpl.
  split; [lia|]. rewrite drop_app_le by lia. done.
Qed.

Lemma chan_inv_reachable es c : chan_reachable es c -> exists published, chan_inv es c published.
Proof.
  induction 1 as [|c c' _ [pub [Hall Hl Hlive Hsnap]] Hstep].
  { exists []. by constructor. }
  destruct Hstep; simpl in *.
  - (* RPUSH *)
    exists pub. constructor; simpl; subst; auto.
    intros L HL. destruct (Hlive L HL) as (s & ? & ? & HR). exists s. split_and!; auto.
    intros R HR'. destruct (HR R HR') as (r & k & ? & ? & ->). exists r, k.
    rewrite app_nil_r in *. rewrite length_app; simpl. split_and!; [lia..|].
    by rewrite take_app_le by lia.
  - (* LTRIM *) exists pub. constructor; simpl; subst; auto. apply trim_trim_app.
  - (* PUBLISH *)
    exists (pub ++ [e]). constructor; simpl; subst; auto using app_assoc.
    + by rewrite <- app_assoc.
    + intros L HL. destruct live as [L'|]; simplify_eq/=.
      destruct (Hlive L' eq_refl) as (s & ? & -> & HR). exists s.
      rewrite drop_app_le by lia. split_and!; [rewrite length_app; lia|done|].
      intros R HR'. rewrite !app_nil_r. by apply HR.
    + destruct live; naive_solver.
  - (* SUBSCRIBE *)
    exists pub. constructor; simpl; auto; try done.
    intros L [= <-]. exists (length pub). rewrite drop_all. split_and!; auto.
    intros R HR. naive_solver.
  - (* LRANGE *)
    exists pub. constructor; simpl; auto; try done.
    intros L [= <-]. destruct (Hlive live eq_refl) as (s & ? & ? & _). exists s. split_and!; auto.
    intros R [= <-]. destruct (window_spec p pub) as (k & Hk & Hw).
    exists (length (pub ++ pending p)), k. rewrite firstn_all, length_app in *.
    split_and!; [lia..|congruence].
Qed.

(** The producer numbers its envelopes with an increasing counter. *)
Definition numbered (es : list envelope) : Prop :=
  exists ns, seq_of <$> es = Some <$> ns /\ StronglySorted Z.lt ns /\ Forall (Z.le 0) ns.

Lemma sorted_lookup_lt ns i j a b :
  StronglySorted Z.lt ns -> ns !! i = Some a -> ns !! j = Some b -> (i <= j)%nat -> a <= b.
Proof.
  intros Hs. revert i j. induction Hs as [|x ns Hs IH Hx]; intros [|i] [|j]; simpl; try done.
  - intros [= <-] [= <-]. lia.
  - intros [= <-] Hj _. rewrite Forall_lookup in Hx. specialize (Hx _ _ Hj). lia.
  - lia.
  - intros Hi Hj ?. apply (IH i j); auto. lia.
Qed.

Lemma high_le n replay z :
  n <= high z replay <-> n <= z \/ exists e m, e ∈ replay /\ seq_of e = Some m /\ n <= m.
Proof.
  revert z. induction replay as [|e replay IH]; intros z; simpl.
  - split; [auto|]. intros [?|(e & m & H & _)]; [done|set_solver].
  - rewrite IH. destruct (seq_of e) as [m|] eqn:He.
    + rewrite Z.max_le_iff. split.
      * intros [[?|?]|(e' & m' & ? & ? & ?)]; [auto|right; exists e, m|right; exists e', m'];
          split_and!; set_solver.
      * intros [?|(e' & m' & [->|?]%elem_of_cons & ? & ?)]; [auto| |eauto 8].
        left; right. congruence.
    + split; [intros [?|(e' & m' & ? & ? & ?)]|intros [?|(e' & m' & [->|?]%elem_of_cons & ? & ?)]];
        auto; [right; exists e', m'; set_solver|congruence|eauto 8].
Qed.

Lemma numbered_lookup es i e :
  numbered es -> es !! i = Some e ->
  exists n, seq_of e = Some n /\ 0 <= n /\
  forall j e', es !! j = Some e' -> exists m, seq_of e' = Some m /\
    ((i <= j)%nat -> n <= m) /\ ((i < j)%nat -> n < m).
Proof.
  intros (ns & Hns & Hs & Hpos) Hi.
  assert (Hseq : forall j e', es !! j = Some e' -> exists m, ns !! j = Some m /\ seq_of e' = Some m).
  { intros j e' Hj. apply (f_equal (lookup j)) in Hns. rewrite !list_lookup_fmap, Hj in Hns.
    simpl in Hns. destruct (ns !! j) as [m|] eqn:Hm; simplify_eq/=. eauto. }
  destruct (Hseq _ _ Hi) as (n & Hn & He). exists n. split; [done|]. split.
  { rewrite Forall_lookup in Hpos. eauto. }
  intros j e' Hj. destruct (Hseq _ _ Hj) as (m & Hm & He'). exists m. split; [done|].
  split; intros Hij; [by eapply sorted_lookup_lt|].
  assert (Hd : drop (S i) ns !! (j - S i)%nat = Some m) by (rewrite lookup_drop; by replace (S i + (j - S i))%nat with j by lia).
  rewrite <- (take_drop_middle ns i n Hn) in Hs.
  apply StronglySorted_app in Hs as (_ & _ & Hs). inversion_clear Hs as [|? ? _ HF].
  rewrite Forall_lookup in HF. eauto.
Qed.

(** Exactly the envelopes pushed after the replay was read are fresh. *)
Lemma stale_iff es k r i e :
  numbered es -> (r <= length es)%nat -> (k <= r - _MAX_REPLAY)%nat -> es !! i = Some e ->
  stale (high (-1) (drop k (take r es))) (Env e) = bool_decide (i < r)%nat.
Proof.
  intros Hnum Hr Hk Hi. destruct (numbered_lookup _ _ _ Hnum Hi) as (n & He & Hpos & Hcmp).
  simpl. rewrite He. apply eq_true_iff_eq. rewrite Z.leb_le, bool_decide_eq_true, high_le.
  split.
  - intros [?|(e' & m & Hin & He' & Hle)]; [lia|].
    apply list_elem_of_lookup in Hin as (j & Hj). rewrite lookup_drop in Hj.
    apply lookup_take_Some in Hj as [Hj ?].
    destruct (Hcmp _ _ Hj) as (m' & Hm' & _ & Hlt). simplify_eq.
    destruct (decide (i < r)%nat); [done|exfalso].
    destruct (numbered_lookup _ _ _ Hnum Hj) as (m2 & Hm2 & _ & Hc).
    destruct (Hc _ _ Hi) as (n2 & ? & _ & Hc'). specialize (Hc' ltac:(lia)). simplify_eq. lia.
  - intros Hir. right.
    destruct (lookup_lt_is_Some_2 es (r - 1)%nat) as [e' He']; [lia|].
    destruct (Hcmp _ _ He') as (m & Hm & Hle & _). exists e', m. split_and!; [|done|apply Hle; lia].
    apply list_elem_of_lookup. exists (r - 1 - k)%nat. unfold _MAX_REPLAY in Hk.
    rewrite lookup_drop. replace (k + (r - 1 - k))%nat with (r - 1)%nat by lia.
    rewrite lookup_take_lt by lia. done.
Qed.

Lemma envs_fresh z its : envs (fresh z its) = List.filter (fun e => negb (stale z (Env e))) (envs its).
Proof.
  induction its as [|[e| |] its IH]; simpl; auto.
  change (envs (Env e :: its)) with (e :: envs its). simpl in *.
  destruct (match seq_of e with Some s => s <=? z | None => false end); simpl; [done|].
  change (e :: envs (fresh z its) = e :: List.filter (fun e => negb (stale z (Env e))) (envs its)).
  by rewrite IH.
Qed.

Lemma envs_app a b : envs (a ++ b) = envs a ++ envs b.
Proof. apply omap_app. Qed.
Lemma envs_fmap es : envs (Env <$> es) = es.
Proof. unfold envs. induction es as [|e es IH]; [done|]. simpl. by f_equal. Qed.

Lemma filter_all {A} (p : A -> bool) l : Forall (fun x => p x = true) l -> List.filter p l = l.
Proof. induction 1 as [|x l Hx _ IH]; [done|]. simpl. by rewrite Hx, IH. Qed.
Lemma filter_none {A} (p : A -> bool) l : Forall (fun x => p x = false) l -> List.filter p l = [].
Proof. induction 1 as [|x l Hx _ IH]; [done|]. simpl. by rewrite Hx. Qed.

Lemma settled_queue es c live replay its :
  numbered es -> chan_reachable es c -> settled c live replay -> envs its = live ->
  exists k, (k <= length es - _MAX_REPLAY)%nat /\
  envs ((Env <$> replay) ++ fresh (high (-1) replay) its) = drop k es.
Proof.
  intros Hnum Hreach (Htodo & Hidle & Hlive & Hsnap) Hits.
  destruct (chan_inv_reachable _ _ Hreach) as [pub [Hall _ Hl _]].
  rewrite Htodo, Hidle in *. simpl in *. rewrite !app_nil_r in *. subst pub.
  destruct (Hl _ Hlive) as (s & Hs & -> & HR).
  destruct (HR _ Hsnap) as (r & k & Hr & Hk & ->).
  exists k. split; [lia|]. rewrite envs_app, envs_fmap, envs_fresh, Hits.
  assert (Hsplit : drop s es = take (r - s) (drop s es) ++ drop r es).
  { rewrite <- (take_drop (r - s) (drop s es)) at 1. rewrite drop_drop.
    by replace (s + (r - s))%nat with r by lia. }
  rewrite Hsplit, List.filter_app, filter_none, filter_all; simpl.
  - rewrite <- drop_app_le, take_drop; [done|]. rewrite length_take. lia.
  - apply Forall_lookup. intros i e He. rewrite lookup_drop in He.
    pose proof (stale_iff es k r _ e Hnum ltac:(lia) ltac:(lia) He) as Hst. simpl in Hst.
    rewrite Hst, bool_decide_eq_false_2 by lia. done.
  - apply Forall_lookup. intros i e He. apply lookup_take_Some in He as [He ?].
    rewrite lookup_drop in He.
    pose proof (stale_iff es k r _ e Hnum ltac:(lia) ltac:(lia) He) as Hst. simpl in Hst.
    rewrite Hst, bool_decide_eq_true_2 by lia. done.
Qed.

(** ** Delivery *)

(** C36: however the producer's RPUSH, LTRIM and PUBLISH interleave with the
    subscriber's SUBSCRIBE and LRANGE, the Redis subscriber relays what a single
    queue would that holds each retained envelope of the stream exactly once, in
    publishing order, and only envelopes older than the last 512 are lost. *)
Theorem subscriber_refines_queue es c live replay its :
  numbered es -> chan_reachable es c -> settled c live replay -> envs its = live ->
  exists queue k, redis_subscribe (-1) false replay its = memory_subscribe queue
    /\ envs queue = drop k es /\ (k <= length es - _MAX_REPLAY)%nat.
Proof.
  intros Hnum Hreach Hset Hits.
  destruct (settled_queue _ _ _ _ _ Hnum Hreach Hset Hits) as (k & Hk & Hq).
  exists ((Env <$> replay) ++ fresh (high (-1) replay) its), k.
  split; [apply redis_subscribe_queue | done].
Qed.

Definition sample_env (ty : string) (n : Z) (rest : dict) : envelope :=
  [(cp "type", JStr (cp ty)); (cp "seq", JInt n)] ++ rest.
Definition sample_stream : list envelope :=
  [sample_env "start" 0 []; sample_env "delta" 1 []; sample_env "done" 2 []].

Lemma sample_numbered : numbered sample_stream.
Proof. exists [0; 1; 2]. split; [done|]. split; repeat constructor; lia. Qed.

Ltac step_by H rule := eapply cr_step in H; [|apply rule].

(** The subscriber joins between the RPUSH and the PUBLISH of the second
    envelope, so the live channel repeats it. *)
Lemma sample_reachable : exists c, chan_reachable sample_stream c /\
  settled c (drop 1 sample_stream) (take 2 sample_stream).
Proof.
  pose proof (cr_opened sample_stream : chan_reachable sample_stream (mk_channel
    [sample_env "start" 0 []; sample_env "delta" 1 []; sample_env "done" 2 []]
    Idle [] None None)) as H.
  step_by H cs_rpush; step_by H cs_ltrim; step_by H cs_publish; step_by H cs_rpush.
  step_by H cs_subscribe; step_by H cs_lrange; step_by H cs_ltrim; step_by H cs_publish.
  step_by H cs_rpush; step_by H cs_ltrim; step_by H cs_publish.
  eexists. split; [exact H|]. by split_and!.
Qed.

Lemma subscriber_refines_queue_witness :
  exists queue k, redis_subscribe (-1) false (take 2 sample_stream)
      ([Noise] ++ (Env <$> drop 1 sample_stream)) = memory_subscribe queue
    /\ envs queue = drop k sample_stream /\ (k <= 0)%nat.
Proof.
  destruct sample_reachable as (c & Hr & Hs).
  exact (subscriber_refines_queue _ _ _ _ ([Noise] ++ (Env <$> drop 1 sample_stream))
    sample_numbered Hr Hs eq_refl).
Defined.

Lemma memory_subscribe_body body rest its :
  Forall (fun e => is_terminal e = false) body -> envs its = body ++ rest ->
  exists its', envs its' = rest /\ memory_subscribe its =
    (let '(out, st) := memory_subscribe its' in (body ++ out, st)).
Proof.
  revert body. induction its as [|[e| |] its IH]; intros body Hbody Heq.
  - destruct body; [|done]. destruct rest; [|done]. exists []. done.
  - destruct body as [|b body].
    { exists (Env e :: its). split; [done|]. by destruct (memory_subscribe (Env e :: its)). }
    change (e :: envs its = b :: body ++ rest) in Heq. injection Heq as -> Heq.
    inversion_clear Hbody as [|? ? Hb Hbody']. destruct (IH _ Hbody' Heq) as (its' & ? & Hm).
    exists its'. split; [done|]. simpl. rewrite Hb, Hm. by destruct (memory_subscribe its').
  - by apply IH.
  - by apply IH.
Qed.

Lemma memory_subscribe_terminal t rest its :
  is_terminal t = true -> envs its = t :: rest ->
  exists its', envs its' = rest /\ memory_subscribe its =
    if _declares_pending_suggestions t
    then let '(out, st) := memory_window its' in (t :: out, st) else ([t], Closed).
Proof.
  intros Ht. induction its as [|[e| |] its IH]; intros Heq; [done| |by apply IH|by apply IH].
  change (e :: envs its = t :: rest) in Heq. injection Heq as -> Heq.
  exists its. split; [done|]. simpl. by rewrite Ht.
Qed.

(** The window relays a prefix of what follows the terminal. *)
Lemma memory_window_prefix its : exists n, (memory_window its).1 = take n (envs its).
Proof.
  induction its as [|[e| |] its (n & IH)]; [by exists 0%nat| |by exists n|by exists 0%nat].
  change (envs (Env e :: its)) with (e :: envs its). simpl.
  destruct (_is_suggestions e); [by exists 1%nat|].
  exists (S n). destruct (memory_window its). simpl in *. by f_equal.
Qed.

Lemma memory_window_suggestions its before e after :
  Deadline ∉ its -> Forall (fun x => _is_suggestions x = false) before ->
  _is_suggestions e = true -> envs its = before ++ e :: after ->
  memory_window its = (before ++ [e], Closed).
Proof.
  revert before. induction its as [|[x| |] its IH]; intros before Hd Hb He Heq.
  - by destruct before.
  - change (x :: envs its = before ++ e :: after) in Heq. simpl.
    destruct before as [|b before]; simpl in Heq; injection Heq as -> Heq.
    { by rewrite He. }
    inversion_clear Hb as [|? ? Hb' Hbs]. rewrite Hb', (IH before); auto. set_solver.
  - apply IH; auto; set_solver.
  - set_solver.
Qed.

(** An answer of at most 512 envelopes reaches its subscriber whole,
    whenever it connects: every envelope up to the terminal, in order, and then
    the relay closes -- at the terminal, unless it announces suggestions, when
    only envelopes that follow it are added. *)
Theorem answer_delivered_whole es body t tail c live replay its :
  numbered es -> chan_reachable es c -> settled c live replay -> envs its = live ->
  es = body ++ t :: tail -> Forall (fun e => is_terminal e = false) body ->
  is_terminal t = true -> (length es <= _MAX_REPLAY)%nat ->
  (_declares_pending_suggestions t = false ->
     redis_subscribe (-1) false replay its = (body ++ [t], Closed))
  /\ exists n, (redis_subscribe (-1) false replay its).1 = body ++ t :: take n tail.
Proof.
  intros Hnum Hreach Hset Hits Hes Hbody Ht Hlen.
  destruct (settled_queue _ _ _ _ _ Hnum Hreach Hset Hits) as (k & Hk & Hq).
  replace k with 0%nat in Hq by lia. rewrite drop_0, Hes in Hq.
  destruct (memory_subscribe_body _ _ _ Hbody Hq) as (its1 & H1 & E1).
  destruct (memory_subscribe_terminal _ _ _ Ht H1) as (its2 & H2 & E2).
  rewrite redis_subscribe_queue, E1, E2.
  destruct (_declares_pending_suggestions t); split; try done.
  - destruct (memory_window_prefix its2) as (n & Hn). exists n.
    destruct (memory_window its2). simpl in *. by rewrite Hn, H2.
  - exists 0%nat. done.
Qed.

Lemma answer_delivered_whole_witness :
  redis_subscribe (-1) false (take 2 sample_stream) (Env <$> drop 1 sample_stream)
  = (sample_stream, Closed).
Proof.
  destruct sample_reachable as (c & Hr & Hs).
  eapply (answer_delivered_whole _ (take 2 sample_stream) (sample_env "done" 2 []) []
    _ _ _ (Env <$> drop 1 sample_stream) sample_numbered Hr Hs (envs_fmap _)); [done| |done| |done].
  - by repeat constructor.
  - vm_compute. repeat constructor.
Defined.

(** The in-memory backplane, joined after [es], delivers the same. *)
Lemma memory_subscriber_same es c live replay its :
  numbered es -> chan_reachable es c -> settled c live replay -> envs its = live ->
  (length es <= _MAX_REPLAY)%nat ->
  exists queue, redis_subscribe (-1) false replay its = memory_subscribe queue
    /\ envs queue = memory_replay es.
Proof.
  intros Hnum Hreach Hset Hits Hlen.
  destruct (settled_queue _ _ _ _ _ Hnum Hreach Hset Hits) as (k & Hk & Hq).
  eexists. split; [apply redis_subscribe_queue|]. rewrite Hq, memory_replay_trim. unfold trim.
  f_equal. lia.
Qed.

(** ** Stop *)

Lemma find_last_terminal l t :
  get_terminal l = Some t <->
  exists a b, l = a ++ t :: b /\ is_terminal t = true /\ Forall (fun e => is_terminal e = false) b.
Proof.
  unfold get_terminal. induction l as [|e l IH] using rev_ind.
  - split; [done|]. intros ([|] & ? & ? & _); done.
  - rewrite reverse_snoc. simpl. destruct (is_terminal e) eqn:He.
    + split.
      * intros [= <-]. exists l, []. auto.
      * intros (a & b & Heq & Ht & Hb). destruct b as [|x b _] using rev_ind.
        { apply app_inj_tail in Heq as [_ ->]. done. }
        rewrite app_comm_cons, app_assoc in Heq. apply app_inj_tail in Heq as [_ ->].
        apply Forall_app in Hb as [_ Hb]. inversion_clear Hb. congruence.
    + rewrite IH. split.
      * intros (a & b & -> & ? & ?). exists a, (b ++ [e]). rewrite <- app_assoc. simpl.
        rewrite Forall_app. auto.
      * intros (a & b & Heq & Ht & Hb). destruct b as [|x b _] using rev_ind.
        { apply app_inj_tail in Heq as [_ ->]. congruence. }
        rewrite app_comm_cons, app_assoc in Heq. apply app_inj_tail in Heq as [-> _].
        apply Forall_app in Hb as [Hb _]. eauto.
Qed.

Lemma not_owner_false owner p :
  not_owner owner p = false <-> owner = Some (mk_owner (user_id p) (tenant_id p)).
Proof.
  destruct owner as [[o t]|]; simpl; [|split; congruence].
  rewrite orb_false_iff, !negb_false_iff, !bool_decide_eq_true. naive_solver.
Qed.

Lemma acknowledge_ok t t' : acknowledge t = Ok t' <-> t' = t /\ persist_failed t = Some false.
Proof. unfold acknowledge. destruct (persist_failed t) as [[]|]; naive_solver. Qed.

(** A stream of somebody else is indistinguishable from one that does not
    exist, whatever it holds, and every attempt leaves one denial. *)
Lemma foreign_stream_hidden owner p stream_id replay events :
  not_owner owner p = true ->
  cancel owner p stream_id replay events = cancel None p stream_id [] []
  /\ authorize owner p stream_id = authorize None p stream_id
  /\ (cancel owner p stream_id replay events).2 = [Denied (cp "chat.stream.cancel") stream_id].
Proof. intros H. unfold cancel, authorize. by rewrite H. Qed.

Lemma find_terminal_body body t rest :
  Forall (fun e => is_terminal e = false) body -> is_terminal t = true ->
  find is_terminal (body ++ t :: rest) = Some t.
Proof. induction 1 as [|b body Hb _ IH]; intros Ht; simpl; [by rewrite Ht|]. rewrite Hb. auto. Qed.

(** Stop answers its owner with the terminal the stream really ended in:
    a success is a terminal envelope that was saved, of a stream bound to the
    caller; and a Stop sent before the end is acknowledged with that end, however
    its subscription interleaves with the producer. *)
Theorem stop_acknowledges_terminal owner p stream_id replay0 :
  (forall events t effects,
     cancel owner p stream_id replay0 events = (Ok t, effects) ->
     owner = Some (mk_owner (user_id p) (tenant_id p))
     /\ is_terminal t = true /\ persist_failed t = Some false
     /\ (t ∈ replay0 \/ t ∈ events))
  /\ (forall es body t tail c live replay its,
     not_owner owner p = false -> get_terminal replay0 = None ->
     numbered es -> chan_reachable es c -> settled c live replay -> envs its = live ->
     es = body ++ t :: tail -> Forall (fun e => is_terminal e = false) body ->
     is_terminal t = true -> (length es <= _MAX_REPLAY)%nat ->
     cancel owner p stream_id replay0 (redis_subscribe (-1) false replay its).1
     = (acknowledge t, [SignalCancel stream_id; RegistryCancel stream_id])).
Proof.
  split.
  - intros events t effects. unfold cancel. destruct (not_owner owner p) eqn:Ho; [done|].
    rewrite not_owner_false in Ho.
    destruct (get_terminal replay0) as [t0|] eqn:Hg; [|destruct (find _ _) as [t0|] eqn:Hf; [|done]];
      intros [= [-> ?]%acknowledge_ok _]; split_and!; auto.
    + apply find_last_terminal in Hg as (? & ? & _ & ? & _). done.
    + left. apply find_last_terminal in Hg as (? & ? & -> & _). set_solver.
    + by apply find_some in Hf as [_ ?].
    + right. apply find_some in Hf as [Hin _]. by apply list_elem_of_In.
  - intros es body t tail c live replay its Ho Hg Hnum Hr Hs Hits Hes Hb Ht Hlen.
    destruct (settled_queue _ _ _ _ _ Hnum Hr Hs Hits) as (k & Hk & Hq).
    replace k with 0%nat in Hq by lia. rewrite drop_0, Hes in Hq.
    destruct (memory_subscribe_body _ _ _ Hb Hq) as (its1 & H1 & E1).
    destruct (memory_subscribe_terminal _ _ _ Ht H1) as (its2 & _ & E2).
    unfold cancel. rewrite Ho, Hg, redis_subscribe_queue, E1, E2.
    destruct (_declares_pending_suggestions t); [destruct (memory_window its2)|];
      simpl; by rewrite find_terminal_body.
Qed.

Lemma stop_acknowledges_terminal_witness :
  cancel (Some (mk_owner 1%N 2%N)) (mk_principal 1%N 2%N) (cp "s")
    (take 1 sample_stream)
    (redis_subscribe (-1) false (take 2 sample_stream) (Env <$> drop 1 sample_stream)).1
  = (Ok (sample_env "done" 2 []), [SignalCancel (cp "s"); RegistryCancel (cp "s")]).
Proof.
  destruct sample_reachable as (c & Hr & Hs).
  eapply (proj2 (stop_acknowledges_terminal (Some (mk_owner 1%N 2%N)) (mk_principal 1%N 2%N)
    (cp "s") (take 1 sample_stream)) _ (take 2 sample_stream)
    (sample_env "done" 2 []) [] _ _ _ (Env <$> drop 1 sample_stream)  eq_refl eq_refl
    sample_numbered Hr Hs (envs_fmap _) eq_refl).
  - by repeat constructor.
  - done.
  - vm_compute. repeat constructor.
Defined.
