(* ===== verification/Grounding.v ===== *)
(** * Evidence handles, citations and clarifying questions

    The pure parts of a grounded answer: [services/tools/handles.py] (the
    conversation's evidence handles and the selection of cited ones),
    [db/evidence_handles.py] (the reserved counter and the durable book),
    [domain/chat.py] (citations, [ask_user] questions), and the helpers of
    [services/chat_runtime.py] that narrow scopes, choose the question, collect
    cited snippets and parse follow-up suggestions.

    Parameters: SHA-256, [json.dumps], [json.loads], [str.casefold], [str] of a
    value that is not a string, [urlsplit] and the CommonMark parser. *)

From stdpp Require Import base list strings sets pretty.
From Stdlib Require Import Lia ZArith QArith.
From S2P Require Import Prelude Json Tools.
Open Scope Z_scope.

(** ** Citations (domain/chat.py) *)

Record GroundedCitation := mk_citation {
  gc_document_id : uuid;
  gc_document_name : pystr;
  gc_chunk_id : uuid;
  gc_snippet : pystr;
  gc_char_start : Z;
  gc_char_end : Z;
  gc_score : option Q;
  gc_id : option uuid;
  gc_time_start_ms : option Z;
  gc_time_end_ms : option Z;
  gc_transcript_segment_id : option uuid;
  gc_speaker_id : option pystr;
  gc_speaker_name : option pystr;
  gc_handle : option pystr
}.

Definition from_passage (p : RetrievedPassage) : GroundedCitation :=
  mk_citation (rp_document_id p) (rp_document_name p) (rp_chunk_id p) (rp_text p)
    (rp_char_start p) (rp_char_end p) (Some (rp_score p)) None (rp_time_start_ms p)
    (rp_time_end_ms p) (rp_transcript_segment_id p) (rp_speaker_id p) (rp_speaker_name p) None.

(** [replace(citation, handle=h)], [replace(citation, id=i)] *)
Definition set_handle (h : pystr) (c : GroundedCitation) : GroundedCitation :=
  mk_citation (gc_document_id c) (gc_document_name c) (gc_chunk_id c) (gc_snippet c)
    (gc_char_start c) (gc_char_end c) (gc_score c) (gc_id c) (gc_time_start_ms c)
    (gc_time_end_ms c) (gc_transcript_segment_id c) (gc_speaker_id c) (gc_speaker_name c) (Some h).
Definition set_id (i : uuid) (c : GroundedCitation) : GroundedCitation :=
  mk_citation (gc_document_id c) (gc_document_name c) (gc_chunk_id c) (gc_snippet c)
    (gc_char_start c) (gc_char_end c) (gc_score c) (Some i) (gc_time_start_ms c)
    (gc_time_end_ms c) (gc_transcript_segment_id c) (gc_speaker_id c) (gc_speaker_name c) (gc_handle c).

(** [urlsplit(url)]: scheme, hostname and username. *)
Record split_url := mk_split { url_scheme : pystr; url_hostname : option pystr; url_username : option pystr }.

Record WebCitation := mk_web {
  wc_id : uuid;
  wc_handle : pystr;
  wc_url : pystr;
  wc_title : pystr;
  wc_snippet : pystr
}.

(** [WebCitation.__post_init__]; [None] is the [ValueError]. *)
Definition web_post_init (urlsplit : pystr -> option split_url) (w : WebCitation)
    : option WebCitation :=
  p ← urlsplit (wc_url w);
  if negb (mem (url_scheme p) [cp "http"; cp "https"]) || negb (truthy (url_hostname p))
     || truthy (url_username p)
  then None else Some w.

(** ** The handle registry (services/tools/handles.py) *)

Inductive evidence : Type :=
| Passage (document_id chunk_id : uuid) (char_start char_end : Z) (fingerprint : pystr)
    (provenance_fingerprint : option pystr)
| Document (document_id : uuid)
| Web (url title text : pystr).
Global Instance evidence_eq : EqDecision evidence.
Proof. solve_decision. Defined.

(** [dict[str, dict[str, object]]], in insertion order. *)
Abbreviation book := (list (pystr * evidence)) (only parsing).

Record EvidenceHandles := mk_handles {
  eh_entries : list (pystr * evidence);
  eh_created : list (pystr * evidence);
  eh_next : N;
  eh_capacity : nat
}.

(** [EvidenceHandles(first, existing)] *)
Definition open_handles (first : N) (existing : list (pystr * evidence)) (capacity : nat) : EvidenceHandles :=
  mk_handles existing [] first capacity.

(** [f"{prefix}{n}"] *)
Definition handle_of (prefix : N) (n : N) : pystr := prefix :: cp (pretty n).
Definition letter_S : N := 83.
Definition letter_D : N := 68.
Definition letter_W : N := 87.

(** [any(f"{kind}{n}" in self.entries for kind in "SDW")] *)
Definition taken (entries : list (pystr * evidence)) (n : N) : bool :=
  existsb (fun k => dict_has (handle_of k n) entries) [letter_S; letter_D; letter_W].

(** The [while] loop of [_issue]: the first free number from [n]. *)
Fixpoint free_from (fuel : nat) (entries : list (pystr * evidence)) (n : N) : N :=
  match fuel with
  | O => n
  | S fuel => if taken entries n then free_from fuel entries (N.succ n) else n
  end.

(** [for handle, value in entries.items(): if value == entry: return handle] *)
Fixpoint known (entries : list (pystr * evidence)) (e : evidence) : option pystr :=
  match entries with
  | [] => None
  | (h, v) :: l => if decide (v = e) then Some h else known l e
  end.

(** [None] is the [ValidationError(code="handle_budget_exhausted")]. *)
Definition _issue (prefix : N) (e : evidence) (eh : EvidenceHandles)
    : option (pystr * EvidenceHandles) :=
  match known (eh_entries eh) e with
  | Some h => Some (h, eh)
  | None =>
      if Nat.leb (eh_capacity eh) (length (eh_created eh)) then None
      else
        let n := free_from (S (length (eh_entries eh))) (eh_entries eh) (eh_next eh) in
        let h := handle_of prefix n in
        Some (h, mk_handles (dict_set h e (eh_entries eh)) (dict_set h e (eh_created eh))
                   (N.succ n) (eh_capacity eh))
  end.

Section handles.
(** [sha256(text.encode()).hexdigest()] and [json.dumps(..., sort_keys=True)]. *)
Context (sha256 : pystr -> pystr) (dumps : json -> pystr) (uuid_str : uuid -> pystr).

Definition opt_json {A} (f : A -> json) (o : option A) : json :=
  match o with Some a => f a | None => JNull end.

Definition provenance (p : RetrievedPassage) : list (pystr * json) :=
  [(cp "time_start_ms", opt_json JInt (rp_time_start_ms p));
   (cp "time_end_ms", opt_json JInt (rp_time_end_ms p));
   (cp "transcript_segment_id", opt_json (fun i => JStr (uuid_str i)) (rp_transcript_segment_id p));
   (cp "speaker_id", opt_json JStr (rp_speaker_id p));
   (cp "speaker_name", opt_json JStr (rp_speaker_name p))].

Definition entry_of (p : RetrievedPassage) : evidence :=
  let prov := provenance p in
  Passage (rp_document_id p) (rp_chunk_id p) (rp_char_start p) (rp_char_end p) (sha256 (rp_text p))
    (if existsb (fun kv => negb (bool_decide (kv.2 = JNull))) prov
     then Some (sha256 (dumps (JObj prov))) else None).

Definition passage (p : RetrievedPassage) : EvidenceHandles -> option (pystr * EvidenceHandles) :=
  _issue letter_S (entry_of p).
End handles.

Definition document (d : uuid) : EvidenceHandles -> option (pystr * EvidenceHandles) :=
  _issue letter_D (Document d).
Definition web (url title text : pystr) : EvidenceHandles -> option (pystr * EvidenceHandles) :=
  _issue letter_W (Web url title text).
Definition resolve (h : pystr) (eh : EvidenceHandles) : option evidence := dict_get h (eh_entries eh).

(** [[1-9][0-9]*] *)
Definition numeral (s : pystr) : bool :=
  match s with
  | c :: s => N.leb 49 c && N.leb c 57 && forallb (fun c => N.leb 48 c && N.leb c 57) s
  | [] => false
  end.

(** [EvidenceHandles.document_id]: navigation identity of a [D] handle. *)
Definition document_id_of (h : pystr) (eh : EvidenceHandles) : option uuid :=
  match h with
  | c :: s =>
      if N.eqb c letter_D && numeral s then
        match dict_get h (eh_entries eh) with Some (Document d) => Some d | _ => None end
      else None
  | [] => None
  end.

(** ** The durable book (db/evidence_handles.py) *)

(** The conversation's row and its handles; [cs_owner] is the (tenant, user) pair. *)
Record conversation := mk_conversation {
  cs_owner : uuid * uuid;
  cs_handle_next : N;
  cs_book : list (pystr * evidence)
}.

Inductive handle_error : Type := ConversationNotFound | InvalidReservation | HandleReassigned.

Definition owns (p : Principal) (c : conversation) : bool :=
  bool_decide (cs_owner c = (tenant_id p, user_id p)).

Definition reserve (p : Principal) (capacity : N) (c : conversation)
    : res handle_error (N * conversation) :=
  guard_or InvalidReservation (N.leb 1 capacity && N.leb capacity 1000)
  (guard_or ConversationNotFound (owns p c)
  (let next := (cs_handle_next c + capacity)%N in
   Ok ((next - capacity)%N, mk_conversation (cs_owner c) next (cs_book c)))).

Definition load (p : Principal) (c : conversation) : res handle_error (list (pystr * evidence)) :=
  guard_or ConversationNotFound (owns p c) (Ok (cs_book c)).

(** The loop of [append]; [existing] is the book as loaded. *)
Fixpoint append_entries (existing entries acc : list (pystr * evidence))
    : res handle_error (list (pystr * evidence)) :=
  match entries with
  | [] => Ok acc
  | (h, e) :: l =>
      match dict_get h existing with
      | Some e' => guard_or HandleReassigned (bool_decide (e' = e)) (append_entries existing l acc)
      | None => append_entries existing l (acc ++ [(h, e)])
      end
  end.

Definition append (p : Principal) (entries : list (pystr * evidence)) (c : conversation)
    : res handle_error conversation :=
  existing ← load p c;
  acc ← append_entries existing entries existing;
  Ok (mk_conversation (cs_owner c) (cs_handle_next c) acc).

(** ** Selecting the cited handles

    [citation_markers answer] are the [[S1]]-like markers CommonMark reads as
    inline text (not as code, links or images), in document order: the span each
    occupies in [answer] and the handle between its brackets. *)
Record marker := mk_marker { mk_start : nat; mk_end : nat; mk_handle : pystr }.

Definition cut (answer : pystr) (m : marker) : pystr := take (mk_start m) answer ++ drop (mk_end m) answer.

(** [handle.startswith("D") or handle not in available] *)
Definition rejected (available : list pystr) (m : marker) : bool :=
  py_startswith [letter_D] (mk_handle m) || negb (mem (mk_handle m) available).

Definition select_step (available : list pystr) (acc : list marker * list pystr) (m : marker)
    : list marker * list pystr :=
  let '(removed, selected) := acc in
  if rejected available m then (removed ++ [m], selected)
  else if mem (mk_handle m) selected then acc
  else (removed, selected ++ [mk_handle m]).

Definition select_cited_handles (citation_markers : pystr -> list marker) (answer : pystr)
    (available : list pystr) : pystr * list pystr :=
  let '(removed, selected) := foldl (select_step available) ([], []) (citation_markers answer) in
  (foldl cut answer (reverse removed), selected).

(** ** Scopes and snippets (services/chat_runtime.py) *)

Definition _narrow_collection_ids (send_ids assistant_ids : option (list uuid)) : option (list uuid) :=
  match assistant_ids with
  | None => send_ids
  | Some allowed =>
      match send_ids with
      | None => Some allowed
      | Some ids => Some (List.filter (fun c => mem c allowed) ids)
      end
  end.

(** The inner loop of [_cited_snippets_by_call]. *)
Fixpoint cited_of (cited seen : list uuid) (pairs : list (uuid * pystr)) : list pystr :=
  match pairs with
  | [] => []
  | (chunk, snippet) :: l =>
      if mem chunk cited && negb (mem chunk seen) then snippet :: cited_of cited (chunk :: seen) l
      else cited_of cited seen l
  end.

Definition _cited_snippets_by_call (result_passage_snippets : list (pystr * list (uuid * pystr)))
    (cited : list uuid) (web_snippets : list (pystr * list pystr)) : list (pystr * list pystr) :=
  foldl (fun out '(call_id, pairs) =>
           match cited_of cited [] pairs with [] => out | l => dict_set call_id l out end)
    web_snippets result_passage_snippets.

(** ** Clarifying questions (domain/chat.py) *)

Definition ASK_USER_MIN_OPTIONS : nat := 2.
Definition ASK_USER_MAX_OPTIONS : nat := 4.
Definition ASK_USER_MAX_QUESTION_CHARS : nat := 500.
Definition ASK_USER_MAX_LABEL_CHARS : nat := 120.
Definition ASK_USER_MAX_DESCRIPTION_CHARS : nat := 240.
Definition ASK_USER_TOOL_NAME : pystr := cp "ask_user".

Record AskUserOption := mk_option { ao_label : pystr; ao_description : option pystr }.
Record AskUserQuestion := mk_question {
  aq_question : pystr;
  aq_options : list AskUserOption;
  aq_allow_free_text : bool
}.

Inductive ask_error : Type := NoQuestion | LongQuestion | NoOptions | OptionCount | BadFreeText.

Section ask_user.
(** [str.casefold], and [str(x)] of a value that is not a string. *)
Context (casefold : pystr -> pystr) (py_repr : json -> pystr).

Definition py_str (j : json) : pystr := match j with JStr s => s | j => py_repr j end.

(** [str(d.get(k) or "").strip()] *)
Definition text_field (k : string) (d : dict) : pystr :=
  match dict_get (cp k) d with
  | Some j => if json_truthy j then py_strip (py_str j) else []
  | None => []
  end.
Definition non_empty (s : pystr) : option pystr := match s with [] => None | _ => Some s end.

(** One turn of the option loop: the options so far and the labels seen. *)
Definition parse_option (acc : list AskUserOption * list pystr) (raw : json)
    : list AskUserOption * list pystr :=
  let '(options, seen) := acc in
  let keep (label : pystr) (description : option pystr) :=
    let label := py_strip (take ASK_USER_MAX_LABEL_CHARS label) in
    if negb (truthy (Some label)) || mem (casefold label) seen then acc
    else (options ++ [mk_option label (take ASK_USER_MAX_DESCRIPTION_CHARS <$> description)],
          casefold label :: seen) in
  match raw with
  | JObj d => keep (text_field "label" d) (non_empty (text_field "description" d))
  | JStr s => keep (py_strip s) None
  | _ => acc
  end.

Definition parse_options (raw : list json) : list AskUserOption :=
  (foldl parse_option ([], []) raw).1.

(** [AskUserQuestion.parse] *)
Definition parse_question (arguments : dict) : res ask_error AskUserQuestion :=
  let question := text_field "question" arguments in
  guard_or NoQuestion (truthy (Some question))
  (guard_or LongQuestion (Nat.leb (length question) ASK_USER_MAX_QUESTION_CHARS)
  (match dict_get (cp "options") arguments with
   | Some (JArr raw) =>
       let options := parse_options raw in
       guard_or OptionCount (Nat.leb ASK_USER_MIN_OPTIONS (length options)
                             && Nat.leb (length options) ASK_USER_MAX_OPTIONS)
       (match dict_get (cp "allow_free_text") arguments with
        | None => Ok (mk_question question options true)
        | Some (JBool b) => Ok (mk_question question options b)
        | Some _ => Err BadFreeText
        end)
   | _ => Err NoOptions
   end)).

Definition option_payload (o : AskUserOption) : json :=
  JObj ((cp "label", JStr (ao_label o))
        :: match ao_description o with
           | Some ((_ :: _) as d) => [(cp "description", JStr d)]
           | _ => []
           end).

Definition to_payload (q : AskUserQuestion) : json :=
  JObj [(cp "question", JStr (aq_question q));
        (cp "options", JArr (option_payload <$> aq_options q));
        (cp "allow_free_text", JBool (aq_allow_free_text q))].

(** One stored option; [None] when it has no visible label. *)
Definition stored_option (raw : json) : option AskUserOption :=
  match raw with
  | JObj d =>
      match text_field "label" d with
      | [] => None
      | _ =>
          Some (mk_option
            (match dict_get (cp "label") d with Some j => py_str j | None => py_repr JNull end)
            (match dict_get (cp "description") d with
             | Some j => if json_truthy j then Some (py_str j) else None
             | None => None
             end))
      end
  | _ => None
  end.

Definition from_payload (payload : json) : option AskUserQuestion :=
  match payload with
  | JObj d =>
      match text_field "question" d, dict_get (cp "options") d with
      | (_ :: _) as question, Some (JArr raw) =>
          match omap stored_option raw with
          | [] => None
          | options =>
              Some (mk_question question options
                (match dict_get (cp "allow_free_text") d with
                 | Some j => json_truthy j | None => true end))
          end
      | _, _ => None
      end
  | _ => None
  end.

(** The first valid [ask_user] call of a batch. *)
Fixpoint _select_ask_user (calls : list ToolCall) : option AskUserQuestion :=
  match calls with
  | [] => None
  | c :: calls =>
      if decide (tc_name c = ASK_USER_TOOL_NAME) then
        match parse_question (tc_arguments c) with
        | Ok q => Some q
        | Err _ => _select_ask_user calls
        end
      else _select_ask_user calls
  end.

(** ** Follow-up suggestions *)

Definition _SUGGESTION_MAX_CHARS : nat := 200.
Definition fence : pystr := cp "```".

(** Positions of the first and last occurrence of a character. *)
Fixpoint find_first (c : N) (s : pystr) : option nat :=
  match s with
  | [] => None
  | x :: s => if N.eqb x c then Some O else S <$> find_first c s
  end.
Definition find_last (c : N) (s : pystr) : option nat :=
  (fun i => (length s - S i)%nat) <$> find_first c (reverse s).

(** [None] when there is no opening bracket before the last closing one. *)
Definition _bracket_slice (raw : pystr) : option pystr :=
  match find_first 91 raw, find_last 93 raw with
  | Some start, Some stop => if Nat.leb stop start then None else Some (take (S stop - start) (drop start raw))
  | _, _ => None
  end.

Definition unfence (raw : pystr) : pystr :=
  if py_startswith fence raw then
    let raw := match py_partition 10 raw with (_, Some body) => body | (_, None) => [] end in
    let stripped := py_rstrip raw in
    if py_endswith fence stripped then take (length stripped - 3) stripped else raw
  else raw.

(** The list an attempt yields: the value itself, or the first list under a
    known key. *)
Definition candidate_list (j : json) : option (list json) :=
  match j with
  | JArr l => Some l
  | JObj d =>
      head (omap (fun k => match dict_get (cp k) d with Some (JArr l) => Some l | _ => None end)
              ["follow_ups"; "suggestions"; "questions"]%string)
  | _ => None
  end.

Definition suggestion_text (item : json) : pystr :=
  let j := match item with
           | JObj d =>
               match dict_get (cp "question") d, dict_get (cp "text") d with
               | Some q, t => if json_truthy q then q else
                   match t with Some t => if json_truthy t then t else JStr [] | None => JStr [] end
               | None, Some t => if json_truthy t then t else JStr []
               | None, None => JStr []
               end
           | j => j
           end in
  take _SUGGESTION_MAX_CHARS (py_strip (py_str j)).

(** The loop over the candidates; it stops once [limit] are out. *)
Fixpoint collect (limit : nat) (items : list json) (seen out : list pystr) : list pystr :=
  match items with
  | [] => out
  | item :: items =>
      let suggestion := suggestion_text item in
      let key := casefold suggestion in
      if negb (truthy (Some suggestion)) || mem key seen then collect limit items seen out
      else
        let out := out ++ [suggestion] in
        if Nat.leb limit (length out) then out else collect limit items (key :: seen) out
  end.

(** [loads] is [json.loads], [None] for a [ValueError]. *)
Definition _parse_suggestions (loads : pystr -> option json) (text : pystr) (limit : nat) : list pystr :=
  let raw := unfence (py_strip text) in
  let attempt s := match s with
                   | Some ((_ :: _) as s) => loads s ≫= candidate_list
                   | _ => None
                   end in
  let candidates := match attempt (Some raw) with
                    | Some l => l
                    | None => default [] (attempt (_bracket_slice raw))
                    end in
  collect limit candidates [] [].
End ask_user.

(** ** Lemmas on handles *)

Global Instance N_of_ascii_inj : Inj eq eq Ascii.N_of_ascii.
Proof. intros a b E. rewrite <-(Ascii.ascii_N_embedding a), E. apply Ascii.ascii_N_embedding. Qed.
Global Instance cp_inj : Inj eq eq cp.
Proof.
  intros s t E. unfold cp in E. apply (inj (fmap Ascii.N_of_ascii)) in E. rewrite <-(String.string_of_list_ascii_of_string s), E.
  apply String.string_of_list_ascii_of_string.
Qed.

Lemma handle_of_inj k n k' n' : handle_of k n = handle_of k' n' -> k = k' /\ n = n'.
Proof.
  unfold handle_of. intros [= -> H]. split; [done|]. apply (inj cp) in H. by apply (inj pretty) in H.
Qed.

Lemma dict_has_elem {V} k (d : list (pystr * V)) : dict_has k d = true <-> k ∈ d.*1.
Proof.
  unfold dict_has. induction d as [|[k' v] d IH]; simpl; [set_solver|].
  case_decide; [set_solver|]. rewrite IH. set_solver.
Qed.

(** [number_of h n]: [h] is the handle of kind S, D or W numbered [n]. *)
Definition number_of (h : pystr) (n : N) : Prop :=
  exists k, k ∈ [letter_S; letter_D; letter_W] /\ h = handle_of k n.

Lemma number_of_unique h n m : number_of h n -> number_of h m -> n = m.
Proof. intros (k & _ & ->) (k' & _ & E). by apply handle_of_inj in E as [_ ?]. Qed.

Lemma taken_spec entries n : taken entries n = true <-> exists h, h ∈ entries.*1 /\ number_of h n.
Proof.
  unfold taken. rewrite existsb_exists. split.
  - intros (k & Hk & Ht%dict_has_elem). exists (handle_of k n). split; [done|].
    exists k. split; [by apply list_elem_of_In|done].
  - intros (h & Hh & k & Hk & ->). exists k. split; [by apply list_elem_of_In|].
    by apply dict_has_elem.
Qed.

(** The search of [_issue] ends within as many steps as there are entries. *)
Lemma taken_run fuel entries n :
  taken entries (free_from fuel entries n) = true ->
  forall i, (i <= fuel)%nat -> taken entries (n + N.of_nat i) = true.
Proof.
  revert n. induction fuel as [|fuel IH]; intros n; simpl.
  - intros Ht i Hi. by replace (n + N.of_nat i)%N with n by lia.
  - destruct (taken entries n) eqn:E; [|by rewrite E]. intros Ht [|i] Hi.
    + by rewrite N.add_0_r.
    + replace (n + N.of_nat (S i))%N with (N.succ n + N.of_nat i)%N by lia. apply IH; [done|lia].
Qed.

Lemma numbers_bound (keys : list pystr) n len :
  (forall i, (i < len)%nat -> exists h, h ∈ keys /\ number_of h (n + N.of_nat i)) ->
  (len <= length keys)%nat.
Proof.
  revert n keys. induction len as [|len IH]; intros n keys Hk; [lia|].
  destruct (Hk O ltac:(lia)) as (h & Hh & Hn). apply elem_of_Permutation in Hh as (rest & Hp).
  rewrite Hp. simpl. cut (len <= length rest)%nat; [lia|]. apply (IH (N.succ n)).
  intros i Hi. destruct (Hk (S i) ltac:(lia)) as (h' & Hh' & Hn'). exists h'.
  replace (N.succ n + N.of_nat i)%N with (n + N.of_nat (S i))%N by lia. split; [|done].
  rewrite Hp in Hh'. apply elem_of_cons in Hh' as [->|]; [|done].
  pose proof (number_of_unique _ _ _ Hn Hn'). lia.
Qed.

Lemma free_from_free entries n : taken entries (free_from (S (length entries)) entries n) = false.
Proof.
  destruct (taken _ _) eqn:E; [|done]. exfalso.
  pose proof (numbers_bound entries.*1 n (S (S (length entries)))) as Hb.
  rewrite length_fmap in Hb. cut (S (S (length entries)) <= length entries)%nat; [lia|]. apply Hb.
  intros i Hi. apply taken_spec, (taken_run _ _ _ E). lia.
Qed.

Lemma free_from_ge fuel entries n : (n <= free_from fuel entries n)%N.
Proof.
  revert n. induction fuel as [|fuel IH]; intros n; simpl; [lia|].
  destruct (taken entries n); [|lia]. specialize (IH (N.succ n)). lia.
Qed.

(** ** The registry *)

Definition letters : list N := [letter_S; letter_D; letter_W].

Lemma known_some entries e h :
  NoDup entries.*1 -> known entries e = Some h -> dict_get h entries = Some e.
Proof.
  intros Hd. rewrite dict_get_elem by done. clear Hd.
  induction entries as [|[h' v] l IH]; simpl; [done|]. case_decide; [|set_solver].
  intros [= ->]. subst. set_solver.
Qed.

Lemma known_none entries e h : known entries e = None -> (h, e) ∉ entries.
Proof.
  induction entries as [|[h' v] l IH]; simpl; [set_solver|]. case_decide; [done|].
  intros Hl. apply IH in Hl. set_solver.
Qed.

Lemma known_found entries e h : (h, e) ∈ entries -> known entries e <> None.
Proof. intros Hh Hn. by apply (known_none _ _ h) in Hn. Qed.

(** What a registry opened at [first] on [base] is made of. *)
Record registry (first : N) (base : book) (eh : EvidenceHandles) : Prop := {
  rg_keys : NoDup (eh_entries eh).*1;
  rg_entries : eh_entries eh = base ++ eh_created eh;
  rg_first : (first <= eh_next eh)%N;
  rg_created : Forall (fun p => exists n, number_of p.1 n /\ (first <= n < eh_next eh)%N) (eh_created eh);
  rg_capacity : (length (eh_created eh) <= eh_capacity eh)%nat
}.

Lemma open_registry first base capacity : NoDup base.*1 -> registry first base (open_handles first base capacity).
Proof.
  intros Hd. constructor; simpl; [done|by rewrite app_nil_r|lia|constructor|lia].
Qed.

(** The three outcomes of [_issue]: a known handle, a fresh one, a refusal. *)
Lemma issue_cases first base prefix e eh h eh' :
  registry first base eh -> prefix ∈ letters -> _issue prefix e eh = Some (h, eh') ->
  (eh' = eh /\ dict_get h (eh_entries eh) = Some e)
  \/ ((h ∉ (eh_entries eh).*1) /\ known (eh_entries eh) e = None
      /\ (exists n, h = handle_of prefix n /\ (eh_next eh <= n)%N /\ eh_next eh' = N.succ n
                    /\ (taken (eh_entries eh) (eh_next eh) = false -> n = eh_next eh))
      /\ eh_entries eh' = eh_entries eh ++ [(h, e)] /\ eh_created eh' = eh_created eh ++ [(h, e)]
      /\ eh_capacity eh' = eh_capacity eh /\ (length (eh_created eh) < eh_capacity eh)%nat).
Proof.
  intros [Hk He Hf Hc Hl] Hp. unfold _issue. destruct (known _ e) as [h0|] eqn:Hn.
  { intros [= <- <-]. left. split; [done|by apply known_some]. }
  destruct (Nat.leb_spec (eh_capacity eh) (length (eh_created eh))) as [?|Hcap]; [done|].
  set (n := free_from _ _ _). intros [= <- <-]. right.
  assert (handle_of prefix n ∉ (eh_entries eh).*1) as Hfresh.
  { intros Hin. pose proof (free_from_free (eh_entries eh) (eh_next eh)) as Hfree.
    apply not_true_iff_false in Hfree. apply Hfree, taken_spec. exists (handle_of prefix n).
    split; [done|]. by exists prefix. }
  split; [done|]. split; [done|]. split.
  - exists n. split; [done|]. split; [apply free_from_ge|]. split; [done|]. intros Ht.
    unfold n. simpl. by rewrite Ht.
  - simpl. rewrite !dict_set_fresh; [done|..]; apply dict_get_none; [|done].
    intros Hin. apply Hfresh. rewrite He, fmap_app. set_solver.
Qed.

Lemma issue_registry first base prefix e eh h eh' :
  registry first base eh -> prefix ∈ letters -> _issue prefix e eh = Some (h, eh') ->
  registry first base eh'.
Proof.
  intros Hr Hp Hi. destruct (issue_cases _ _ _ _ _ _ _ Hr Hp Hi) as [[-> _]|Hnew]; [done|].
  destruct Hnew as (Hfresh & _ & (n & -> & Hge & Hnext & _) & He & Hc & Hcap & Hlen).
  destruct Hr as [Hk Hent Hf Hcr Hl]. constructor.
  - rewrite He, fmap_app. apply NoDup_app. simpl. split_and!; [done|set_solver|apply NoDup_singleton].
  - by rewrite He, Hc, Hent, <-app_assoc.
  - lia.
  - rewrite Hc. apply Forall_app. split.
    + eapply Forall_impl; [exact Hcr|]. intros p (m & ? & ?). exists m. split; [done|lia].
    + apply Forall_singleton. exists n. split; [by exists prefix|lia].
  - rewrite Hc, Hcap, length_app. simpl. lia.
Qed.

(** Issuing a handle answers one that resolves to the evidence, keeps what every
    other handle stands for, and gives the same handle to the same evidence from
    then on. *)
Lemma issued_resolves first base prefix e eh h eh' :
  registry first base eh -> prefix ∈ letters -> _issue prefix e eh = Some (h, eh') ->
  resolve h eh' = Some e
  /\ (forall h' e', resolve h' eh = Some e' -> resolve h' eh' = Some e')
  /\ (exists h', forall prefix', _issue prefix' e eh' = Some (h', eh')) .
Proof.
  intros Hr Hp Hi. pose proof (issue_registry _ _ _ _ _ _ _ Hr Hp Hi) as Hr'. unfold resolve.
  destruct (issue_cases _ _ _ _ _ _ _ Hr Hp Hi) as [[-> Hg]|Hnew].
  - split; [done|]. split; [done|]. unfold _issue in *.
    destruct (known (eh_entries eh) e) as [h1|] eqn:Hn; [by exists h1|].
    exfalso. apply (known_found (eh_entries eh) e h); [|done]. by apply dict_get_In.
  - destruct Hnew as (Hfresh & Hn & _ & He & Hc & _). rewrite He. split_and!.
    + rewrite dict_get_app. rewrite (proj2 (dict_get_none _ _) Hfresh). simpl. by rewrite decide_True.
    + intros h' e' Hg. rewrite dict_get_app. by rewrite Hg.
    + destruct (known (eh_entries eh') e) as [h1|] eqn:Hk.
      * exists h1. intros prefix'. unfold _issue. by rewrite Hk.
      * exfalso. apply (known_found (eh_entries eh') e h); [|done]. rewrite He. set_solver.
Qed.

(** The handles an answer creates, one request after another. *)
Fixpoint issue_all (l : list (N * evidence)) (eh : EvidenceHandles) : option EvidenceHandles :=
  match l with
  | [] => Some eh
  | (prefix, e) :: l => '(_, eh) ← _issue prefix e eh; issue_all l eh
  end.

Lemma issue_all_registry first base l eh eh' :
  registry first base eh -> Forall (fun p => p.1 ∈ letters) l -> issue_all l eh = Some eh' ->
  registry first base eh' /\ eh_capacity eh' = eh_capacity eh.
Proof.
  revert eh. induction l as [|[k e] l IH]; intros eh Hr Hl; simpl; [by intros [= ->]|].
  apply Forall_cons in Hl as [Hk Hl]. intros ([h eh1] & Hi & Ha)%bind_Some.
  pose proof (issue_registry _ _ _ _ _ _ _ Hr Hk Hi) as Hr1.
  destruct (IH eh1 Hr1 Hl Ha) as [Hr' Hcap]. split; [done|]. rewrite Hcap.
  destruct (issue_cases _ _ _ _ _ _ _ Hr Hk Hi) as [[-> _]|(_ & _ & _ & _ & _ & ? & _)]; done.
Qed.

(** When nothing below or in the reserved range is in the base, the numbers
    handed out are consecutive: they stay in the range. *)
Definition below (n : N) (b : book) : Prop := Forall (fun p => exists m, number_of p.1 m /\ (m < n)%N) b.

Lemma below_taken n b m : below n b -> (n <= m)%N -> taken b m = false.
Proof.
  intros Hb Hm. apply not_true_iff_false. intros (h & Hh & Hn)%taken_spec.
  apply list_elem_of_fmap in Hh as (p & -> & Hp). unfold below in Hb. rewrite Forall_forall in Hb.
  destruct (Hb p Hp) as (m' & Hn' & Hlt). pose proof (number_of_unique _ _ _ Hn Hn'). lia.
Qed.

Lemma registry_below first base eh :
  below first base -> registry first base eh -> below (eh_next eh) (eh_entries eh).
Proof.
  intros Hb [Hk -> Hf Hc Hl]. apply Forall_app. split.
  - eapply Forall_impl; [exact Hb|]. intros p (m & ? & ?). exists m. split; [done|lia].
  - eapply Forall_impl; [exact Hc|]. intros p (m & ? & ?). exists m. split; [done|lia].
Qed.

Lemma issue_all_next first base l eh eh' :
  below first base -> registry first base eh -> Forall (fun p => p.1 ∈ letters) l ->
  issue_all l eh = Some eh' ->
  eh_next eh = (first + N.of_nat (length (eh_created eh)))%N ->
  eh_next eh' = (first + N.of_nat (length (eh_created eh')))%N.
Proof.
  intros Hb. revert eh. induction l as [|[k e] l IH]; intros eh Hr Hl; simpl; [by intros [= ->]|].
  apply Forall_cons in Hl as [Hk Hl]. intros ([h eh1] & Hi & Ha)%bind_Some Hn.
  apply (IH eh1); [by eapply issue_registry|done|done|].
  destruct (issue_cases _ _ _ _ _ _ _ Hr Hk Hi) as [[-> _]|Hnew]; [done|].
  destruct Hnew as (_ & _ & (n & _ & _ & Hnext & Hfree) & _ & Hc & _).
  rewrite Hnext, Hc, length_app, Hfree.
  - simpl. lia.
  - eapply below_taken; [by eapply registry_below|lia].
Qed.

(** ** The durable book *)

(** A conversation's book has one evidence per handle, all numbered below the
    counter. *)
Definition book_ok (c : conversation) : Prop :=
  NoDup (cs_book c).*1 /\ below (cs_handle_next c) (cs_book c).

Lemma reserve_ok p n c first c' :
  reserve p n c = Ok (first, c') ->
  owns p c = true /\ (1 <= n <= 1000)%N /\ first = cs_handle_next c
  /\ c' = mk_conversation (cs_owner c) (first + n) (cs_book c).
Proof.
  unfold reserve. intros (Hn & (Ho & [= <- <-])%guard_or_ok)%guard_or_ok.
  apply andb_true_iff in Hn as [?%N.leb_le ?%N.leb_le].
  split_and!; [done..| |]; [lia|f_equal; lia].
Qed.

Lemma append_fresh existing entries acc :
  Forall (fun p => p.1 ∉ existing.*1) entries -> append_entries existing entries acc = Ok (acc ++ entries).
Proof.
  revert acc. induction entries as [|[h e] l IH]; intros acc; simpl; [by rewrite app_nil_r|].
  intros [Hh Hl]%Forall_cons. simpl in Hh. rewrite (proj2 (dict_get_none _ _) Hh).
  rewrite IH by done. by rewrite <-app_assoc.
Qed.

Lemma append_entries_prefix existing entries acc acc' :
  append_entries existing entries acc = Ok acc' -> exists more, acc' = acc ++ more.
Proof.
  revert acc. induction entries as [|[h e] l IH]; intros acc; simpl.
  - intros [= ->]. exists []. by rewrite app_nil_r.
  - destruct (dict_get h existing); [intros [_ H]%guard_or_ok; eauto|].
    intros (more & ->)%IH. exists ((h, e) :: more). by rewrite <-app_assoc.
Qed.

(** What a handle stands for in the book never changes. *)
Lemma append_stable p entries c c' h e :
  append p entries c = Ok c' -> dict_get h (cs_book c) = Some e -> dict_get h (cs_book c') = Some e.
Proof.
  unfold append, load. intros (b & (_ & [= <-])%guard_or_ok & (acc & Ha & [= <-])%bind_ok)%bind_ok Hg.
  apply append_entries_prefix in Ha as (more & ->). simpl. by rewrite dict_get_app, Hg.
Qed.

(** A handle of the book given to other evidence fails the whole append. *)
Lemma append_rejects p entries c h e e' :
  owns p c = true -> (h, e) ∈ entries -> dict_get h (cs_book c) = Some e' -> e' <> e ->
  append p entries c = Err HandleReassigned.
Proof.
  intros Ho Hin Hg Hne. unfold append, load. rewrite Ho. simpl.
  cut (forall acc, append_entries (cs_book c) entries acc = Err HandleReassigned).
  { intros Hall. by rewrite Hall. }
  induction entries as [|[h1 e1] l IH]; intros acc; simpl; [set_solver|].
  destruct (decide ((h, e) = (h1, e1))) as [[= <- <-]|Hd].
  - rewrite Hg. by rewrite bool_decide_eq_false_2.
  - destruct (dict_get h1 (cs_book c)); [|apply IH; set_solver].
    destruct (bool_decide _); [|done]. simpl. apply IH. set_solver.
Qed.

(** An answer that reserved its range and read the book [base] has made handles
    that are fresh for, and do not collide with, whatever the book has become
    outside the range. *)
Lemma answer_handles first base l eh :
  NoDup base.*1 -> below first base -> Forall (fun p => p.1 ∈ letters) l ->
  issue_all l (open_handles first base 1000) = Some eh ->
  NoDup (base ++ eh_created eh).*1 /\ eh_entries eh = base ++ eh_created eh
  /\ Forall (fun p => exists n, number_of p.1 n /\ (first <= n < first + 1000)%N) (eh_created eh).
Proof.
  intros Hd Hb Hl Hi.
  pose proof (open_registry first base 1000 Hd) as Hr0.
  destruct (issue_all_registry _ _ _ _ _ Hr0 Hl Hi) as [[Hk He Hf Hc Hcap] Hsame].
  pose proof (issue_all_next _ _ _ _ _ Hb Hr0 Hl Hi ltac:(simpl; lia)) as Hn.
  simpl in Hsame. split; [by rewrite <-He|]. split; [done|].
  eapply Forall_impl; [exact Hc|]. intros p (n & ? & ?). exists n. split; [done|lia].
Qed.

Lemma range_fresh (lo hi n : N) (l b : book) :
  Forall (fun p => exists m, number_of p.1 m /\ (lo <= m < hi)%N) l -> below n b -> (n <= lo)%N ->
  Forall (fun p => p.1 ∉ b.*1) l.
Proof.
  intros Hl Hb Hn. eapply Forall_impl; [exact Hl|]. intros p (m & Hm & Hr) (q & E & Hq)%list_elem_of_fmap.
  unfold below in Hb. rewrite Forall_forall in Hb. destruct (Hb q Hq) as (m' & Hm' & Hlt).
  rewrite <-E in Hm'. pose proof (number_of_unique _ _ _ Hm Hm'). lia.
Qed.

Lemma range_below (lo hi n : N) (l : book) :
  Forall (fun p => exists m, number_of p.1 m /\ (lo <= m < hi)%N) l -> (hi <= n)%N -> below n l.
Proof.
  intros Hl Hn. eapply Forall_impl; [exact Hl|]. intros p (m & ? & ?). exists m. split; [done|lia].
Qed.

(** C16: Evidence handles are never recycled between answers of a conversation:
    two answers that each reserve a range and load the book, and then issue any
    handles for any evidence within their budgets, both append what they created
    to the durable book, the one that reserved second before the other; the book
    then keeps what it held and holds every handle either answer gave out, for the
    evidence it was given for. *)
Theorem concurrent_answers_keep_handles p c fa c1 fb c2 la lb eha ehb :
  book_ok c ->
  reserve p 1000 c = Ok (fa, c1) -> reserve p 1000 c1 = Ok (fb, c2) ->
  Forall (fun x => x.1 ∈ letters) la -> Forall (fun x => x.1 ∈ letters) lb ->
  issue_all la (open_handles fa (cs_book c1) 1000) = Some eha ->
  issue_all lb (open_handles fb (cs_book c2) 1000) = Some ehb ->
  exists c3 c4, append p (eh_created ehb) c2 = Ok c3 /\ append p (eh_created eha) c3 = Ok c4
  /\ book_ok c4
  /\ cs_book c4 = cs_book c ++ eh_created ehb ++ eh_created eha
  /\ forall h e, resolve h eha = Some e \/ resolve h ehb = Some e -> dict_get h (cs_book c4) = Some e.
Proof.
  intros [Hd Hb] (Ho & _ & -> & ->)%reserve_ok (Ho1 & _ & -> & ->)%reserve_ok Hla Hlb Ha Hbb.
  simpl in *. set (n := cs_handle_next c) in *.
  destruct (answer_handles n (cs_book c) la eha Hd Hb Hla Ha) as (Hda & Hea & Hra).
  assert (below (n + 1000) (cs_book c)) as Hb1.
  { eapply Forall_impl; [exact Hb|]. intros q (m & ? & ?). exists m. split; [done|lia]. }
  destruct (answer_handles (n + 1000)%N (cs_book c) lb ehb Hd Hb1 Hlb Hbb) as (Hdb & Heb & Hrb).
  assert (Forall (fun q => q.1 ∉ (cs_book c).*1) (eh_created ehb)) as Hfb
    by (eapply range_fresh; [exact Hrb|exact Hb1|lia]).
  assert (Forall (fun q => q.1 ∉ (eh_created eha).*1) (eh_created ehb)) as Hfba.
  { eapply range_fresh; [exact Hrb| |reflexivity]. eapply range_below; [exact Hra|lia]. }
  assert (Forall (fun q => q.1 ∉ (cs_book c ++ eh_created ehb).*1) (eh_created eha)) as Hfa.
  { apply Forall_forall. intros q Hq Hin. rewrite fmap_app, elem_of_app in Hin. destruct Hin as [Hin|Hin].
    - assert (Forall (fun q => q.1 ∉ (cs_book c).*1) (eh_created eha)) as Hf
        by (eapply range_fresh; [exact Hra|exact Hb|lia]).
      rewrite Forall_forall in Hf. by apply (Hf q Hq).
    - apply list_elem_of_fmap in Hin as (q' & E & Hq'). rewrite Forall_forall in Hfba.
      apply (Hfba q' Hq'). rewrite <-E. apply list_elem_of_fmap. by exists q. }
  assert (NoDup (cs_book c ++ eh_created ehb ++ eh_created eha).*1) as Hdall.
  { rewrite app_assoc, fmap_app. apply NoDup_app. split; [done|]. split.
    - intros x Hx (q & -> & Hq)%list_elem_of_fmap. rewrite Forall_forall in Hfa. by apply (Hfa q Hq).
    - rewrite fmap_app in Hda. by apply NoDup_app in Hda as (_ & _ & ?). }
  exists (mk_conversation (cs_owner c) (n + 1000 + 1000) (cs_book c ++ eh_created ehb)).
  exists (mk_conversation (cs_owner c) (n + 1000 + 1000) (cs_book c ++ eh_created ehb ++ eh_created eha)).
  split; [|split; [|split; [|split]]].
  - unfold append, load, owns in *. simpl in *. rewrite Ho. simpl. by rewrite append_fresh.
  - unfold append, load, owns in *. simpl in *. rewrite Ho. simpl. rewrite append_fresh by done.
    by rewrite <-app_assoc.
  - split; simpl; [done|]. apply Forall_app. split; [|apply Forall_app; split].
    + eapply Forall_impl; [exact Hb|]. intros q (m & ? & ?). exists m. split; [done|lia].
    + eapply range_below; [exact Hrb|lia].
    + eapply range_below; [exact Hra|lia].
  - done.
  - intros h e Hr. simpl. apply dict_get_elem; [done|]. unfold resolve in Hr. rewrite Hea, Heb in Hr.
    rewrite !elem_of_app. destruct Hr as [Hr|Hr]; apply dict_get_In in Hr; rewrite elem_of_app in Hr; tauto.
Qed.

Definition demo_owner : Principal := mk_principal 7 1.
Definition demo_book : list (pystr * evidence) := [(handle_of letter_S 1, Document 5)].
Definition demo_conversation : conversation := mk_conversation (1%N, 7%N) 2 demo_book.
Definition demo_issue (first : N) (l : list (N * evidence)) : EvidenceHandles :=
  default (open_handles 0 [] 0) (issue_all l (open_handles first demo_book 1000)).
Definition demo_asks : list (N * evidence) := [(letter_D, Document 9); (letter_W, Web [1%N] [] [])].
Definition demo_asks' : list (N * evidence) := [(letter_D, Document 9); (letter_D, Document 5)].

Theorem concurrent_answers_keep_handles_witness :
  exists c4, cs_book c4 = demo_book ++ [(cp "D1002", Document 9)] ++ [(cp "D2", Document 9); (cp "W3", Web [1%N] [] [])].
Proof.
  destruct (concurrent_answers_keep_handles demo_owner demo_conversation
      2 (mk_conversation (1%N, 7%N) 1002 demo_book) 1002 (mk_conversation (1%N, 7%N) 2002 demo_book)
      demo_asks demo_asks' (demo_issue 2 demo_asks) (demo_issue 1002 demo_asks')) as (c3 & c4 & _ & _ & _ & Hb & _).
  - split; [vm_compute; apply NoDup_singleton|]. constructor; [|constructor].
    exists 1%N. split; [|reflexivity]. exists letter_S. split; [set_solver|reflexivity].
  - reflexivity.
  - reflexivity.
  - repeat constructor; set_solver.
  - repeat constructor; set_solver.
  - reflexivity.
  - reflexivity.
  - exists c4. etransitivity; [exact Hb|]. reflexivity.
Defined.

(** ** Selection and scopes *)

Lemma select_step_inv available ms removed selected :
  let r := foldl (select_step available) (removed, selected) ms in
  Forall (fun h => h ∈ available /\ py_startswith [letter_D] h = false) selected -> NoDup selected ->
  Forall (fun m => rejected available m = true) removed ->
  Forall (fun h => h ∈ available /\ py_startswith [letter_D] h = false) r.2 /\ NoDup r.2
  /\ Forall (fun m => rejected available m = true) r.1
  /\ forall m, m ∈ ms -> rejected available m = true /\ m ∈ r.1 \/ mk_handle m ∈ r.2.
Proof.
  simpl. revert removed selected. induction ms as [|m ms IH]; intros removed selected Hs Hd Hr; simpl.
  { split_and!; [done..|]. set_solver. }
  assert (Hkeep : forall r0 s0, (forall x, x ∈ r0 -> x ∈ (foldl (select_step available) (r0, s0) ms).1)
      /\ (forall x, x ∈ s0 -> x ∈ (foldl (select_step available) (r0, s0) ms).2)).
  { clear. induction ms as [|m ms IH]; intros r0 s0; simpl; [done|].
    destruct (rejected available m); [|destruct (mem (mk_handle m) s0); [apply IH|]];
      (edestruct IH as [H1 H2]; split; [intros x Hx; apply H1|intros x Hx; apply H2]; set_solver). }
  destruct (rejected available m) eqn:E.
  - destruct (IH (removed ++ [m]) selected) as (H1 & H2 & H3 & H4);
      [done|done|by apply Forall_app; split; [|apply Forall_singleton]|].
    split_and!; [done..|]. intros m' [->|Hm]%elem_of_cons; [|by apply H4].
    left. split; [done|]. apply Hkeep. set_solver.
  - destruct (mem (mk_handle m) selected) eqn:Em.
    + destruct (IH removed selected) as (H1 & H2 & H3 & H4); [done..|]. split_and!; [done..|].
      intros m' [->|Hm]%elem_of_cons; [|by apply H4]. right. apply Hkeep. by apply mem_true.
    + unfold rejected in E. apply orb_false_iff in E as [E1 E2%negb_false_iff%mem_true].
      apply mem_false in Em. destruct (IH removed (selected ++ [mk_handle m])) as (H1 & H2 & H3 & H4);
        [by apply Forall_app; split; [|apply Forall_singleton]
        |apply NoDup_app; split_and!; [done|set_solver|apply NoDup_singleton]|done|].
      split_and!; [done..|]. intros m' [->|Hm]%elem_of_cons; [|by apply H4]. right. apply Hkeep. set_solver.
Qed.

(** The handles an answer is said to cite are distinct handles the tools made
    available, never a document handle; every marker of the answer is either
    among them or cut out; an answer with only such markers is left as it is. *)
Lemma selected_handles_available citation_markers answer available :
  let r := select_cited_handles citation_markers answer available in
  NoDup r.2 /\ Forall (fun h => h ∈ available /\ py_startswith [letter_D] h = false) r.2
  /\ (forall m, m ∈ citation_markers answer -> rejected available m = false -> mk_handle m ∈ r.2)
  /\ (Forall (fun m => rejected available m = false) (citation_markers answer) -> r.1 = answer).
Proof.
  unfold select_cited_handles. simpl.
  pose proof (select_step_inv available (citation_markers answer) [] [] ltac:(constructor)
    ltac:(constructor) ltac:(constructor)) as (H1 & H2 & H3 & H4).
  destruct (foldl _ _ _) as [removed selected] eqn:E. simpl in *. split_and!; [done..| |].
  - intros m Hm Hr. destruct (H4 m Hm) as [[? _]|?]; [congruence|done].
  - intros Hall. cut (removed = []); [by intros ->|].
    apply (f_equal fst) in E. simpl in E. rewrite <-E. clear -Hall. generalize (@nil pystr).
    induction Hall as [|m ms Hm Hms IH]; intros s0; simpl; [done|]. rewrite Hm.
    destruct (mem _ s0); apply IH.
Qed.

(** A narrowed scope lets through only what both scopes let through; an empty
    intersection stays empty, it does not become "no filter". *)
Definition in_scope (ids : option (list uuid)) (c : uuid) : Prop :=
  match ids with None => True | Some l => c ∈ l end.
Lemma narrowed_scope send_ids assistant_ids c :
  in_scope (_narrow_collection_ids send_ids assistant_ids) c
    <-> in_scope send_ids c /\ in_scope assistant_ids c.
Proof.
  unfold _narrow_collection_ids, in_scope. destruct assistant_ids as [a|], send_ids as [s|]; try tauto.
  rewrite !list_elem_of_In, filter_In, mem_true, list_elem_of_In. tauto.
Qed.

(** ** Clarifying questions *)

Lemma drop_while_idem {A} (p : A -> bool) l : drop_while p (drop_while p l) = drop_while p l.
Proof.
  destruct (drop_while p l) as [|x l'] eqn:E; [done|]. simpl.
  by rewrite (drop_while_head _ _ _ _ E).
Qed.

Lemma drop_while_prefix {A} (p : A -> bool) (l l1 l2 : list A) :
  drop_while p l = l -> l = l1 ++ l2 -> drop_while p l1 = l1.
Proof.
  intros Hd ->. destruct l1 as [|x l1]; [done|]. simpl in *. destruct (p x) eqn:E; [|done].
  exfalso. assert (forall k : list A, length (drop_while p k) <= length k)%nat as Hlen.
  { induction k as [|y k IH]; simpl; [done|]. destruct (p y); simpl; lia. }
  specialize (Hlen (l1 ++ l2)). rewrite Hd in Hlen. simpl in Hlen. lia.
Qed.

Lemma strip_idem s : py_strip (py_strip s) = py_strip s.
Proof.
  unfold py_strip, py_rstrip, py_lstrip.
  destruct (drop_while_suffix py_isspace (reverse (drop_while py_isspace s))) as (l & Hl & _).
  apply (f_equal reverse) in Hl. rewrite reverse_involutive, reverse_app in Hl.
  rewrite (drop_while_prefix _ _ _ _ (drop_while_idem py_isspace s) Hl).
  by rewrite reverse_involutive, drop_while_idem.
Qed.

#[local] Arguments truthy : simpl never.

Section questions.
Context (casefold : pystr -> pystr) (py_repr : json -> pystr).

Lemma text_field_strip k d : py_strip (text_field py_repr k d) = text_field py_repr k d.
Proof.
  unfold text_field. destruct (dict_get _ d) as [j|]; [|done]. destruct (json_truthy j); [|done].
  apply strip_idem.
Qed.

(** What every parsed option satisfies. *)
Record option_ok (o : AskUserOption) : Prop := {
  oo_label : ao_label o <> [];
  oo_stripped : py_strip (ao_label o) = ao_label o;
  oo_short : (length (ao_label o) <= ASK_USER_MAX_LABEL_CHARS)%nat;
  oo_description : forall d, ao_description o = Some d ->
    d <> [] /\ (length d <= ASK_USER_MAX_DESCRIPTION_CHARS)%nat
}.

Lemma strip_length s : (length (py_strip s) <= length s)%nat.
Proof.
  assert (forall k : pystr, length (drop_while py_isspace k) <= length k)%nat as Hlen.
  { induction k as [|y k IH]; simpl; [done|]. destruct (py_isspace y); simpl; lia. }
  unfold py_strip, py_rstrip, py_lstrip. rewrite length_reverse.
  specialize (Hlen (reverse (drop_while py_isspace s))) as H1. rewrite length_reverse in H1.
  specialize (Hlen s). lia.
Qed.

Definition options_ok (acc : list AskUserOption * list pystr) : Prop :=
  Forall option_ok acc.1 /\ NoDup ((fun o => casefold (ao_label o)) <$> acc.1)
  /\ forall o, o ∈ acc.1 -> casefold (ao_label o) ∈ acc.2.

Lemma keep_ok acc label description :
  options_ok acc -> (forall d, description = Some d -> d <> []) ->
  let label := py_strip (take ASK_USER_MAX_LABEL_CHARS label) in
  options_ok (if negb (truthy (Some label)) || mem (casefold label) acc.2 then acc
              else (acc.1 ++ [mk_option label (take ASK_USER_MAX_DESCRIPTION_CHARS <$> description)],
                    casefold label :: acc.2)).
Proof.
  intros (Ho & Hd & Hs) Hdesc. set (l := py_strip _). cbv zeta.
  destruct (truthy (Some l)) eqn:Et; simpl negb; cbn [orb]; [|done].
  destruct (mem (casefold l) acc.2) eqn:Em; [done|]. apply mem_false in Em.
  split_and!; simpl.
  - apply Forall_app. split; [done|]. apply Forall_singleton. constructor; simpl.
    + intros E. by rewrite E in Et.
    + apply strip_idem.
    + unfold l. rewrite strip_length, length_take. lia.
    + intros d (d0 & -> & E)%fmap_Some. simplify_eq. split; [|rewrite length_take; lia].
      specialize (Hdesc d0 eq_refl). by destruct d0.
  - rewrite fmap_app. apply NoDup_app. split_and!; [done| |apply NoDup_singleton].
    intros x (o & -> & Hin)%list_elem_of_fmap. apply Hs in Hin. simpl. intros Hx.
    apply list_elem_of_singleton in Hx. by rewrite Hx in Hin.
  - intros o. rewrite elem_of_app, list_elem_of_singleton. intros [Hin| ->]; simpl; [|set_solver].
    apply Hs in Hin. set_solver.
Qed.

Lemma parse_options_ok raw acc : options_ok acc -> options_ok (foldl (parse_option casefold py_repr) acc raw).
Proof.
  revert acc. induction raw as [|j raw IH]; intros acc Ha; simpl; [done|]. apply IH.
  unfold parse_option. destruct acc as [os seen]. destruct j; try done.
  - by apply (keep_ok (os, seen)).
  - apply (keep_ok (os, seen)); [done|]. intros d. unfold non_empty. by destruct (text_field _ _ _); intros [= <-].
Qed.

Lemma truthy_cons s : truthy (Some s) = true -> exists c s', s = c :: s'.
Proof. destruct s; [done|eauto]. Qed.

Lemma stored_option_payload o : option_ok o -> stored_option py_repr (option_payload o) = Some o.
Proof.
  intros [Hl Hs _ Hd]. destruct o as [l d]. simpl in *. unfold stored_option, option_payload. simpl.
  unfold text_field. simpl. destruct l as [|c l]; [done|]. cbn [json_truthy py_str]. rewrite Hs.
  destruct d as [[|c' d]|]; simpl.
  - by destruct (Hd [] eq_refl) as [? _].
  - done.
  - done.
Qed.

(** A question [ask_user] accepts is renderable and survives storage: its
    text is non-empty, stripped and at most 500 characters; it has two to four
    options whose labels are non-empty, stripped, at most 120 characters and
    distinct up to case; and reading back the payload stored with the message
    gives exactly the question that was asked. *)
Theorem question_round_trip arguments q :
  parse_question casefold py_repr arguments = Ok q ->
  aq_question q <> [] /\ py_strip (aq_question q) = aq_question q
  /\ (length (aq_question q) <= ASK_USER_MAX_QUESTION_CHARS)%nat
  /\ (ASK_USER_MIN_OPTIONS <= length (aq_options q) <= ASK_USER_MAX_OPTIONS)%nat
  /\ Forall option_ok (aq_options q)
  /\ NoDup ((fun o => casefold (ao_label o)) <$> aq_options q)
  /\ from_payload py_repr (to_payload q) = Some q.
Proof.
  unfold parse_question. intros (Ht & (Hlen & Hp)%guard_or_ok)%guard_or_ok.
  destruct (dict_get (cp "options") arguments) as [[| | | | |raw|]|]; try done.
  apply guard_or_ok in Hp as ((Hmin%Nat.leb_le & Hmax%Nat.leb_le)%andb_true_iff & Hp).
  apply Nat.leb_le in Hlen. apply truthy_cons in Ht as (c & s & Ht).
  pose proof (text_field_strip "question" arguments) as Hs. rewrite Ht in *.
  destruct (parse_options_ok raw ([], [])) as (Ho & Hd & _).
  { split_and!; simpl; [constructor|constructor|set_solver]. }
  fold (parse_options casefold py_repr raw) in Ho, Hd.
  assert (exists b, q = mk_question (c :: s) (parse_options casefold py_repr raw) b) as [b ->].
  { destruct (dict_get (cp "allow_free_text") arguments) as [[| | | | | |]|]; simplify_eq; eauto. }
  simpl. split_and!; try done.
  set (os := parse_options casefold py_repr raw) in *. unfold to_payload, from_payload, text_field. simpl.
  rewrite Hs.
  assert (omap (stored_option py_repr) (option_payload <$> os) = os) as ->.
  { clear -Ho. induction Ho as [|o os Ho Hos IH]; cbn [fmap list_fmap omap list_omap]; [done|]. by rewrite (stored_option_payload o Ho), IH. }
  destruct os as [|o os]; [simpl in Hmin; unfold ASK_USER_MIN_OPTIONS in Hmin; lia|done].
Qed.

(** The suggestions shown are non-empty, at most 200 characters, distinct up to
    case, and at most the configured count. *)
Lemma collect_ok limit items seen out :
  (1 <= limit)%nat -> (length out < limit)%nat ->
  Forall (fun s => s <> [] /\ (length s <= _SUGGESTION_MAX_CHARS)%nat) out ->
  NoDup (casefold <$> out) -> (forall s, s ∈ out -> casefold s ∈ seen) ->
  let r := collect casefold py_repr limit items seen out in
  (length r <= limit)%nat /\ NoDup (casefold <$> r)
  /\ Forall (fun s => s <> [] /\ (length s <= _SUGGESTION_MAX_CHARS)%nat) r.
Proof.
  intros Hlim. revert seen out. induction items as [|j items IH]; intros seen out Hlen Hok Hd Hs; simpl.
  { split; [lia|done]. }
  set (t := suggestion_text py_repr j). destruct (negb (truthy (Some t)) || mem (casefold t) seen) eqn:E; [by apply IH|].
  apply orb_false_iff in E as [Et%negb_false_iff%truthy_cons Em%mem_false].
  assert (NoDup (casefold <$> out ++ [t])) as Hd'.
  { rewrite fmap_app. apply NoDup_app. split_and!; [done| |apply NoDup_singleton].
    intros x (s & -> & Hin)%list_elem_of_fmap. apply Hs in Hin. simpl. intros Hx.
    apply list_elem_of_singleton in Hx. by rewrite Hx in Hin. }
  assert (Forall (fun s => s <> [] /\ (length s <= _SUGGESTION_MAX_CHARS)%nat) (out ++ [t])) as Hok'.
  { apply Forall_app. split; [done|]. apply Forall_singleton. destruct Et as (c & s & Et). split; [by rewrite Et|].
    unfold t, suggestion_text. rewrite length_take. lia. }
  destruct (Nat.leb_spec limit (length (out ++ [t]))) as [Hge|Hlt].
  - rewrite length_app in *. simpl in *. split_and!; [lia|done|done].
  - apply IH; [done|done|done|]. intros s. rewrite elem_of_app, list_elem_of_singleton.
    intros [Hin| ->]; [apply Hs in Hin|]; set_solver.
Qed.

Lemma suggestions_bounded loads text limit :
  (1 <= limit)%nat ->
  let r := _parse_suggestions casefold py_repr loads text limit in
  (length r <= limit)%nat /\ NoDup (casefold <$> r)
  /\ Forall (fun s => s <> [] /\ (length s <= _SUGGESTION_MAX_CHARS)%nat) r.
Proof.
  intros Hlim. unfold _parse_suggestions. apply collect_ok; simpl; [done|lia|constructor|constructor|set_solver].
Qed.

(** Only a valid [ask_user] call ends a turn as a question. *)
Lemma selected_question_valid calls q :
  _select_ask_user casefold py_repr calls = Some q ->
  exists c, c ∈ calls /\ tc_name c = ASK_USER_TOOL_NAME
    /\ parse_question casefold py_repr (tc_arguments c) = Ok q.
Proof.
  induction calls as [|c calls IH]; simpl; [done|]. case_decide.
  - destruct (parse_question _ _ _) as [q'|] eqn:E; [intros [= ->]; exists c; set_solver|].
    intros (c' & ? & ?)%IH. exists c'. set_solver.
  - intros (c' & ? & ?)%IH. exists c'. set_solver.
Qed.
End questions.

Definition demo_arguments : dict :=
  [(cp "question", JStr (cp " Which one? "));
   (cp "options", JArr [JStr (cp "A"); JObj [(cp "label", JStr (cp "B ")); (cp "description", JStr (cp "b"))]; JStr (cp "a")])].
Theorem question_round_trip_witness :
  let lower := fmap (fun c => if N.leb 65 c && N.leb c 90 then (c + 32)%N else c) in
  let q := mk_question (cp "Which one?") [mk_option (cp "A") None; mk_option (cp "B") (Some (cp "b"))] true in
  parse_question lower (fun _ => []) demo_arguments = Ok q
  /\ from_payload (fun _ => []) (to_payload q) = Some q.
Proof.
  split; [vm_compute; reflexivity|].
  apply (question_round_trip (fmap (fun c => if N.leb 65 c && N.leb c 90 then (c + 32)%N else c))
           (fun _ => []) demo_arguments). vm_compute. reflexivity.
Defined.
