(* ===== verification/ChatStream.v ===== *)
(** * The stream of one answer

    The state of a [ChatRuntime] (services/chat_runtime.py) while it produces one
    answer, and the layer that puts the answer on the wire: the text coalescer,
    the sequence counter, the speculative answer and its retraction, the phase
    steps, the terminals, and the Stop signal.  [ChatTurn] and [ChatAnswer] build
    the turns and the answer on it.

    The coroutine is a computation over the state; what happens around it is the
    environment [Env], read at the number of awaits done so far: how each publish
    ends, whether a Stop, a shutdown or a deadline reaches the coroutine at an
    await, what the durable Stop key says, and the two clocks (in milliseconds).
    Every envelope given to [_publish] is in the log, with whether the backplane
    took it; the wire is what it took. *)

From stdpp Require Import base list strings sets sorting.
From Stdlib Require Import Lia ZArith.
From S2P Require Import Prelude Json Tools Grounding.
Open Scope Z_scope.

(** ** Usage and routes *)

(** [domain.llm.TokenUsage] *)
Record TokenUsage := mk_tokens {
  tu_prompt : Z; tu_completion : Z; tu_total : Z; tu_cached : Z; tu_cache_write : Z
}.

Record _Usage := mk_usage {
  us_prompt : Z; us_completion : Z; us_total : Z; us_cached : Z; us_cache_write : Z;
  us_last_turn : option Z
}.
Definition no_usage : _Usage := mk_usage 0 0 0 0 0 None.

(** [_Usage.add] *)
Definition add_usage (u : _Usage) (t : TokenUsage) : _Usage :=
  mk_usage (us_prompt u + tu_prompt t) (us_completion u + tu_completion t) (us_total u + tu_total t)
    (us_cached u + tu_cached t) (us_cache_write u + tu_cache_write t) (us_last_turn u).

(** [services.provider_models.ModelRoute] *)
Record ModelRoute := mk_route {
  mr_model : pystr; mr_api_key : option pystr; mr_api_base : option pystr
}.

Record _RouteState := mk_route_state {
  rs_model : pystr;
  rs_route : ModelRoute;
  rs_fallbacks : list pystr;
  rs_spent : list (pystr * _Usage)
}.

(** [_Usage.snapshot_and_reset]: the frozen totals, and the restarted ones. *)
Definition snapshot_and_reset (u : _Usage) : _Usage * _Usage := (u, no_usage).

Definition _answer_usage_totals (rs : _RouteState) (current : _Usage) : _Usage :=
  foldl (fun t '(_, s) =>
           mk_usage (us_prompt t + us_prompt s) (us_completion t + us_completion s)
             (us_total t + us_total s) (us_cached t + us_cached s)
             (us_cache_write t + us_cache_write s) (us_last_turn t))
    current (rs_spent rs).

(** ** Streamed text *)

(** [_TextKind]: answer text, or the narration of a turn. *)
Record _TextKind := mk_kind { tk_envelope : pystr; tk_turn : option Z }.
Global Instance TextKind_eq : EqDecision _TextKind.
Proof. solve_decision. Defined.
Definition _ANSWER_TEXT : _TextKind := mk_kind (cp "delta") None.
Definition narration_of (turn : Z) : _TextKind := mk_kind (cp "narration") (Some turn).

Record _TextCoalescer := mk_coalescer {
  tc_max_chars : Z;
  tc_max_delay : Z;
  tc_kind : option _TextKind;
  tc_parts : list pystr;
  tc_chars : Z;
  tc_opened_at : Z
}.

Definition _new_coalescer (max_chars max_delay : Z) : _TextCoalescer :=
  mk_coalescer max_chars max_delay None [] 0 0.

(** [take]: the drained text, [None] when the buffer is empty. *)
Definition take_buffer (b : _TextCoalescer) : option pystr * _TextCoalescer :=
  match tc_parts b with
  | [] => (None, mk_coalescer (tc_max_chars b) (tc_max_delay b) None (tc_parts b) (tc_chars b) (tc_opened_at b))
  | parts => (Some (mjoin parts), mk_coalescer (tc_max_chars b) (tc_max_delay b) None [] 0 (tc_opened_at b))
  end.

(** [add] at the time [now]; [None] is the failed assertion. *)
Definition add_chunk (now : Z) (kind : _TextKind) (chunk : pystr) (b : _TextCoalescer)
    : option (option pystr * _TextCoalescer) :=
  if bool_decide (tc_kind b = None) || bool_decide (tc_kind b = Some kind) then
    let opened := match tc_kind b with None => now | Some _ => tc_opened_at b end in
    let chars := tc_chars b + Z.of_nat (length chunk) in
    let b := mk_coalescer (tc_max_chars b) (tc_max_delay b) (Some kind) (tc_parts b ++ [chunk]) chars opened in
    Some (if (tc_max_chars b <=? chars) || (tc_max_delay b <=? now - opened)
          then take_buffer b else (None, b))
  else None.

Definition flush_deadline (b : _TextCoalescer) : option Z :=
  match tc_kind b with None => None | Some _ => Some (tc_opened_at b + tc_max_delay b) end.

(** ** Envelopes (realtime/envelopes.py, and the payloads given to them) *)

Inductive body : Type :=
| Start (session_id message_id : uuid) (model : pystr)
| Delta (text : pystr)
| Narration (text : pystr) (turn : option Z)
| AnswerRetract
| Step (key label state : pystr) (detail : option pystr) (turn : option Z)
| ToolCallEvent (call : ToolCall)
| ToolResultEvent (call : ToolCall) (result : ToolResult)
| CitationEvent (c : GroundedCitation)
| WebCitationEvent (w : WebCitation)
| AskUserEvent (message_id : uuid) (q : AskUserQuestion)
| SuggestionsEvent (message_id : uuid) (suggestions : list pystr)
| Done (message_id : uuid) (finish_reason model : pystr) (citation_count : Z) (usage : _Usage)
    (suggestions_grace_ms : option Z)
| Cancelled (message_id : uuid) (model : pystr) (usage : _Usage)
| Problem (title : pystr) (status : Z) (code : pystr) (detail : option pystr).

Record Envelope := mk_env { e_seq : Z; e_body : body }.

Definition is_terminal (b : body) : bool :=
  match b with Done _ _ _ _ _ _ | Cancelled _ _ _ | Problem _ _ _ _ => true | _ => false end.
Definition is_start (b : body) : bool := match b with Start _ _ _ => true | _ => false end.

(** ** The durable writes of an answer *)

Inductive write : Type :=
| WMessage (message_id session_id : uuid) (content model : pystr) (finish_reason : option pystr)
    (question : option AskUserQuestion) (sources : option (list uuid))
| WCitation (message_id : uuid) (c : GroundedCitation)
| WWebCitation (message_id : uuid) (w : WebCitation)
| WHandles (created : list (pystr * evidence))
| WEvidence (session_id : uuid) (evidence : list (uuid * uuid))
| WUsage (model : pystr) (usage : _Usage) (session_id answer_id : uuid) (message_id : option uuid)
| WSuggestionUsage (model : pystr) (usage : _Usage) (session_id answer_id : uuid)
| WRetrievalAudit (call : ToolCall) (result : ToolResult)
| WRehydratedAudit (session_id : uuid) (requested permitted : nat)
| WToolTrace (call : ToolCall) (result : ToolResult)
| WFinalCheck (session_id : uuid) (requested permitted : nat)
| WAnswerAudit (message_id : uuid) (model : pystr) (citation_count retrieved_hits : Z)
    (document_ids : list uuid)
| WCancelAudit (message_id session_id : uuid) (model : pystr) (partial_chars : Z)
| WRestored (audits : list write).

(** ** Exceptions *)

(** What an [LlmProviderError] tells: its code and detail. *)
Record provider_fault := mk_fault { pf_code : pystr; pf_detail : pystr }.

Inductive exn : Type :=
| CancelledError
| TurnExpired           (* the deadline of [asyncio.timeout_at] around a turn *)
| AnswerExpired         (* ... around the answer *)
| AppError (status : Z) (title code : pystr) (detail : option pystr)
| LlmProviderError (fault : provider_fault) (retryable : bool) (retry_after : option Z)
| ToolCancellationPending
| OtherError.

(** [DependencyError(detail, code=code)] *)
Definition DependencyError (detail code : pystr) : exn :=
  AppError 503 (cp "Service Unavailable") code (Some detail).
Definition answer_budget_exhausted : pystr := cp "answer_budget_exhausted".
Definition dependency_unavailable : pystr := cp "dependency_unavailable".

(** ** The state *)

(** [_StreamState] *)
Record _StreamState := mk_stream {
  s_seq : Z;
  s_buffer : _TextCoalescer;
  s_terminal_sent : bool;
  s_terminal_seq : option Z;
  s_answer_on_wire : bool;
  s_answer_committed : bool;
  s_partial_answer : list pystr
}.

(** The fields of the runtime that change; [r_turn_scope], [r_answer_scope] and
    [r_shielded] are the [asyncio.timeout_at] and [asyncio.shield] blocks the
    coroutine is inside of, [r_interrupted] a shutdown that came during a
    shielded block; [r_emitted] is the turn's [emitted] (narration, answer). *)
Record runtime := mk_runtime {
  r_cancel_requested : bool;
  r_finalising_cancel : bool;
  r_completing : bool;
  r_settling_error : bool;
  r_budget_exhausted : bool;
  r_model_calls : Z;
  r_answer_deadline : option Z;
  r_producer_deadline : option Z;
  r_turn_scope : bool;
  r_answer_scope : bool;
  r_shielded : bool;
  r_interrupted : bool;
  r_route_state : _RouteState;
  r_usage : _Usage;
  r_salvage : bool;
  r_outcome_usage : _Usage;
  r_emitted : bool * bool
}.

(** The world: awaits done, the log of envelopes, model calls started, the usage
    reports the provider streams handed over (each with the public id of the route
    it was billed on, and whether the event that carried it was handled to its end),
    external tool calls given to the runner, and the writes of the open transaction
    and of the committed ones. *)
Record world := mk_world {
  w_tick : nat;
  w_log : list (bool * Envelope);
  w_calls : nat;
  w_billed : list (bool * (pystr * TokenUsage));
  w_tools : nat;
  w_pending : list write;
  w_committed : list write
}.

Record state := mk_state { st : _StreamState; rt : runtime; wd : world }.

Definition on_stream (f : _StreamState -> _StreamState) (s : state) : state := mk_state (f (st s)) (rt s) (wd s).
Definition on_runtime (f : runtime -> runtime) (s : state) : state := mk_state (st s) (f (rt s)) (wd s).
Definition on_world (f : world -> world) (s : state) : state := mk_state (st s) (rt s) (f (wd s)).

(** *** Fields of the stream *)
Definition set_seq (v : Z) (x : _StreamState) : _StreamState :=
  mk_stream v (s_buffer x) (s_terminal_sent x) (s_terminal_seq x) (s_answer_on_wire x)
    (s_answer_committed x) (s_partial_answer x).
Definition set_buffer (v : _TextCoalescer) (x : _StreamState) : _StreamState :=
  mk_stream (s_seq x) v (s_terminal_sent x) (s_terminal_seq x) (s_answer_on_wire x)
    (s_answer_committed x) (s_partial_answer x).
Definition set_terminal_sent (v : bool) (x : _StreamState) : _StreamState :=
  mk_stream (s_seq x) (s_buffer x) v (s_terminal_seq x) (s_answer_on_wire x)
    (s_answer_committed x) (s_partial_answer x).
Definition set_terminal_seq (v : option Z) (x : _StreamState) : _StreamState :=
  mk_stream (s_seq x) (s_buffer x) (s_terminal_sent x) v (s_answer_on_wire x)
    (s_answer_committed x) (s_partial_answer x).
Definition set_on_wire (v : bool) (partial : list pystr) (x : _StreamState) : _StreamState :=
  mk_stream (s_seq x) (s_buffer x) (s_terminal_sent x) (s_terminal_seq x) v
    (s_answer_committed x) partial.
Definition set_committed (v : bool) (x : _StreamState) : _StreamState :=
  mk_stream (s_seq x) (s_buffer x) (s_terminal_sent x) (s_terminal_seq x) (s_answer_on_wire x)
    v (s_partial_answer x).

(** *** Fields of the runtime *)
Definition set_cancel_requested (v : bool) (x : runtime) : runtime :=
  mk_runtime v (r_finalising_cancel x) (r_completing x) (r_settling_error x) (r_budget_exhausted x)
    (r_model_calls x) (r_answer_deadline x) (r_producer_deadline x) (r_turn_scope x) (r_answer_scope x)
    (r_shielded x) (r_interrupted x) (r_route_state x) (r_usage x) (r_salvage x) (r_outcome_usage x) (r_emitted x).
Definition set_finalising (v : bool) (x : runtime) : runtime :=
  mk_runtime (r_cancel_requested x) v (r_completing x) (r_settling_error x) (r_budget_exhausted x)
    (r_model_calls x) (r_answer_deadline x) (r_producer_deadline x) (r_turn_scope x) (r_answer_scope x)
    (r_shielded x) (r_interrupted x) (r_route_state x) (r_usage x) (r_salvage x) (r_outcome_usage x) (r_emitted x).
Definition set_completing (v : bool) (x : runtime) : runtime :=
  mk_runtime (r_cancel_requested x) (r_finalising_cancel x) v (r_settling_error x) (r_budget_exhausted x)
    (r_model_calls x) (r_answer_deadline x) (r_producer_deadline x) (r_turn_scope x) (r_answer_scope x)
    (r_shielded x) (r_interrupted x) (r_route_state x) (r_usage x) (r_salvage x) (r_outcome_usage x) (r_emitted x).
Definition set_settling (v : bool) (x : runtime) : runtime :=
  mk_runtime (r_cancel_requested x) (r_finalising_cancel x) (r_completing x) v (r_budget_exhausted x)
    (r_model_calls x) (r_answer_deadline x) (r_producer_deadline x) (r_turn_scope x) (r_answer_scope x)
    (r_shielded x) (r_interrupted x) (r_route_state x) (r_usage x) (r_salvage x) (r_outcome_usage x) (r_emitted x).
Definition set_exhausted (v : bool) (x : runtime) : runtime :=
  mk_runtime (r_cancel_requested x) (r_finalising_cancel x) (r_completing x) (r_settling_error x) v
    (r_model_calls x) (r_answer_deadline x) (r_producer_deadline x) (r_turn_scope x) (r_answer_scope x)
    (r_shielded x) (r_interrupted x) (r_route_state x) (r_usage x) (r_salvage x) (r_outcome_usage x) (r_emitted x).
Definition set_model_calls (v : Z) (x : runtime) : runtime :=
  mk_runtime (r_cancel_requested x) (r_finalising_cancel x) (r_completing x) (r_settling_error x)
    (r_budget_exhausted x) v (r_answer_deadline x) (r_producer_deadline x) (r_turn_scope x)
    (r_answer_scope x) (r_shielded x) (r_interrupted x) (r_route_state x) (r_usage x) (r_salvage x)
    (r_outcome_usage x) (r_emitted x).
Definition set_answer_deadline (v : option Z) (x : runtime) : runtime :=
  mk_runtime (r_cancel_requested x) (r_finalising_cancel x) (r_completing x) (r_settling_error x)
    (r_budget_exhausted x) (r_model_calls x) v (r_producer_deadline x) (r_turn_scope x)
    (r_answer_scope x) (r_shielded x) (r_interrupted x) (r_route_state x) (r_usage x) (r_salvage x)
    (r_outcome_usage x) (r_emitted x).
Definition set_producer_deadline (v : option Z) (x : runtime) : runtime :=
  mk_runtime (r_cancel_requested x) (r_finalising_cancel x) (r_completing x) (r_settling_error x)
    (r_budget_exhausted x) (r_model_calls x) (r_answer_deadline x) v (r_turn_scope x)
    (r_answer_scope x) (r_shielded x) (r_interrupted x) (r_route_state x) (r_usage x) (r_salvage x)
    (r_outcome_usage x) (r_emitted x).
Definition set_scopes (turn answer shielded interrupted : bool) (x : runtime) : runtime :=
  mk_runtime (r_cancel_requested x) (r_finalising_cancel x) (r_completing x) (r_settling_error x)
    (r_budget_exhausted x) (r_model_calls x) (r_answer_deadline x) (r_producer_deadline x) turn
    answer shielded interrupted (r_route_state x) (r_usage x) (r_salvage x) (r_outcome_usage x) (r_emitted x).
Definition set_route (rs : _RouteState) (usage : _Usage) (x : runtime) : runtime :=
  mk_runtime (r_cancel_requested x) (r_finalising_cancel x) (r_completing x) (r_settling_error x)
    (r_budget_exhausted x) (r_model_calls x) (r_answer_deadline x) (r_producer_deadline x)
    (r_turn_scope x) (r_answer_scope x) (r_shielded x) (r_interrupted x) rs usage (r_salvage x)
    (r_outcome_usage x) (r_emitted x).
Definition set_salvage (v : bool) (x : runtime) : runtime :=
  mk_runtime (r_cancel_requested x) (r_finalising_cancel x) (r_completing x) (r_settling_error x)
    (r_budget_exhausted x) (r_model_calls x) (r_answer_deadline x) (r_producer_deadline x)
    (r_turn_scope x) (r_answer_scope x) (r_shielded x) (r_interrupted x) (r_route_state x) (r_usage x)
    v (r_outcome_usage x) (r_emitted x).
Definition set_outcome_usage (v : _Usage) (x : runtime) : runtime :=
  mk_runtime (r_cancel_requested x) (r_finalising_cancel x) (r_completing x) (r_settling_error x)
    (r_budget_exhausted x) (r_model_calls x) (r_answer_deadline x) (r_producer_deadline x)
    (r_turn_scope x) (r_answer_scope x) (r_shielded x) (r_interrupted x) (r_route_state x) (r_usage x)
    (r_salvage x) v (r_emitted x).

Definition set_emitted (v : bool * bool) (x : runtime) : runtime :=
  mk_runtime (r_cancel_requested x) (r_finalising_cancel x) (r_completing x) (r_settling_error x)
    (r_budget_exhausted x) (r_model_calls x) (r_answer_deadline x) (r_producer_deadline x)
    (r_turn_scope x) (r_answer_scope x) (r_shielded x) (r_interrupted x) (r_route_state x) (r_usage x)
    (r_salvage x) (r_outcome_usage x) v.

(** *** Fields of the world *)
Definition next_tick (x : world) : world :=
  mk_world (S (w_tick x)) (w_log x) (w_calls x) (w_billed x) (w_tools x) (w_pending x) (w_committed x).
Definition log (delivered : bool) (e : Envelope) (x : world) : world :=
  mk_world (w_tick x) (w_log x ++ [(delivered, e)]) (w_calls x) (w_billed x) (w_tools x) (w_pending x)
    (w_committed x).
Definition count_call (x : world) : world :=
  mk_world (w_tick x) (w_log x) (S (w_calls x)) (w_billed x) (w_tools x) (w_pending x) (w_committed x).
Definition bill (model : pystr) (t : TokenUsage) (x : world) : world :=
  mk_world (w_tick x) (w_log x) (w_calls x) (w_billed x ++ [(false, (model, t))]) (w_tools x) (w_pending x)
    (w_committed x).
Fixpoint last_handled (l : list (bool * (pystr * TokenUsage))) : list (bool * (pystr * TokenUsage)) :=
  match l with
  | [] => []
  | [(_, report)] => [(true, report)]
  | x :: l => x :: last_handled l
  end.
Definition settle_bill (x : world) : world :=
  mk_world (w_tick x) (w_log x) (w_calls x) (last_handled (w_billed x)) (w_tools x) (w_pending x)
    (w_committed x).
Definition count_tool (x : world) : world :=
  mk_world (w_tick x) (w_log x) (w_calls x) (w_billed x) (S (w_tools x)) (w_pending x) (w_committed x).
Definition set_db (pending committed : list write) (x : world) : world :=
  mk_world (w_tick x) (w_log x) (w_calls x) (w_billed x) (w_tools x) pending committed.

(** What the backplane took, in order. *)
Definition wire (w : world) : list Envelope := (List.filter fst (w_log w)).*2.

(** ** Configuration *)

(** [services.answer_budgets.AnswerBudgets]; times in milliseconds. *)
Record AnswerBudgets := mk_budgets {
  ab_max_tool_turns : Z;
  ab_turn_timeout : option Z;
  ab_interactive_max_attempts : option Z;
  ab_answer_max_tokens : option Z;
  ab_wall_clock : option Z;
  ab_max_external_calls : option Z;
  ab_max_model_calls : option Z
}.

Definition effective_max_tool_turns (b : AnswerBudgets) (tenant_override : option Z) : Z :=
  Z.max 1 (default (ab_max_tool_turns b) tenant_override).

Definition is_external_tool (tool_name : pystr) : bool :=
  mem tool_name [cp "web_search"; cp "web_fetch"] || py_startswith (cp "mcp:") tool_name.

(** The constructor arguments of [ChatRuntime] the answer depends on. *)
Record config := mk_config {
  cf_budgets : AnswerBudgets;
  cf_interactive : bool;
  cf_tool_concurrency : Z;
  cf_turn_timeout : option Z;
  cf_interactive_max_attempts : option Z;
  cf_terminal_publish_margin : option Z;
  cf_text_coalesce_chars : Z;
  cf_text_coalesce_ms : Z;
  cf_suggestions_enabled : bool;
  cf_suggestions_count : nat;
  cf_suggestions_grace_ms : Z;
  cf_suggestions_model : option pystr
}.

(** ** The environment *)

(** How a publish ends: the backplane takes the envelope and answers; it raises,
    having taken it or not; it stalls until a deadline, having taken it or not
    (without a deadline it is taken at last). *)
Inductive pub_outcome : Type := Published | Failed (taken : bool) | Stalled (taken : bool).
(** What reaches the coroutine at an await. *)
Inductive interrupt : Type := Quiet | StopSignal | Shutdown | TurnDeadline | AnswerDeadline.
(** How a commit ends: [CommitFailed true] is a durable one whose answer is lost. *)
Inductive commit_outcome : Type := CommitOk | CommitFailed (durable : bool).

Record Env := mk_environment {
  publish_at : nat -> pub_outcome;
  interrupt_at : nat -> interrupt;
  cancel_key_at : nat -> option bool;
  clock_at : nat -> Z;
  loop_time_at : nat -> Z;
  db_fails_at : nat -> bool;
  commit_at : nat -> commit_outcome
}.

(** ** Computations *)

Definition M (A : Type) : Type := state -> res exn A * state.
Definition ret {A} (a : A) : M A := fun s => (Ok a, s).
Definition raise {A} (e : exn) : M A := fun s => (Err e, s).
Definition bind {A B} (m : M A) (k : A -> M B) : M B :=
  fun s => let '(r, s) := m s in match r with Ok a => k a s | Err e => (Err e, s) end.
Global Instance M_ret : MRet M := @ret.
Global Instance M_bind : MBind M := fun A B k m => bind m k.

Definition get : M state := fun s => (Ok s, s).
Definition modify (f : state -> state) : M unit := fun s => (Ok tt, f s).
(** [try: m except: h] *)
Definition catch {A} (m : M A) (h : exn -> M A) : M A :=
  fun s => let '(r, s) := m s in match r with Ok a => (Ok a, s) | Err e => h e s end.
(** [if c: m] *)
Definition when (c : bool) (m : M unit) : M unit := if c then m else ret tt.

(** [for x in l: m x] *)
Fixpoint forM {A} (l : list A) (m : A -> M unit) : M unit :=
  match l with [] => ret tt | x :: l => m x ;; forM l m end.

(** ** Stop *)

(** [request_cancel]: whether the Stop is accepted. *)
Definition request_cancel (s : state) : bool * state :=
  if r_completing (rt s) || r_settling_error (rt s) || s_answer_committed (st s) || s_terminal_sent (st s)
  then (false, s)
  else (true, on_runtime (set_cancel_requested true) s).

(** The first accepted Stop cancels the task. *)
Definition cancels_task (s s' : state) : bool :=
  negb (r_cancel_requested (rt s)) && r_cancel_requested (rt s').

Section stream.
Context (env : Env).

Definition now (s : state) : Z := clock_at env (w_tick (wd s)).
Definition loop_time (s : state) : Z := loop_time_at env (w_tick (wd s)).

(** One suspension of the coroutine.  A first shutdown during a shielded block is
    remembered until the block ends; a second one cascades into it. *)
Definition await : M unit := fun s =>
  let i := interrupt_at env (w_tick (wd s)) in
  let s := on_world next_tick s in
  let x := rt s in
  let mark := on_runtime (set_scopes (r_turn_scope x) (r_answer_scope x) (r_shielded x) true) s in
  match i with
  | Quiet => (Ok tt, s)
  | StopSignal =>
      let s' := (request_cancel s).2 in
      if cancels_task s s' then (Err CancelledError, s') else (Ok tt, s')
  | Shutdown => if r_shielded x && negb (r_interrupted x) then (Ok tt, mark) else (Err CancelledError, s)
  | TurnDeadline => if r_turn_scope x then (Err TurnExpired, s) else (Ok tt, s)
  | AnswerDeadline => if r_answer_scope x then (Err AnswerExpired, s) else (Ok tt, s)
  end.

(** [with suppress(CancelledError): await ...] *)
Definition await_suppressed : M unit :=
  catch await (fun _ => ret tt).

Definition _check_answer_deadline : M unit := fun s =>
  match r_answer_deadline (rt s) with
  | Some d =>
      if negb (r_finalising_cancel (rt s)) && (d <=? loop_time s)
      then (Err (DependencyError (cp "The answer wall-clock budget was exhausted.") answer_budget_exhausted),
            on_runtime (set_exhausted true) s)
      else (Ok tt, s)
  | None => (Ok tt, s)
  end.

(** [await self._backplane.is_cancelled(stream_id)] *)
Definition is_cancelled : M bool := fun s =>
  match cancel_key_at env (w_tick (wd s)), await s with
  | _, (Err e, s) => (Err e, s)
  | Some b, (Ok _, s) => (Ok b, s)
  | None, (Ok _, s) => (Err OtherError, s)
  end.

Definition _check_cancelled : M unit :=
  s ← get;
  if r_finalising_cancel (rt s) || s_answer_committed (st s) then ret tt
  else
    b ← (if r_cancel_requested (rt s) then ret true else is_cancelled);
    if (b : bool) then modify (on_runtime (set_cancel_requested true)) ;; raise CancelledError
    else _check_answer_deadline.

Definition _claim_model_call (cfg : config) : M unit :=
  _check_answer_deadline ;;
  s ← get;
  if r_cancel_requested (rt s) && negb (r_finalising_cancel (rt s)) then raise CancelledError
  else
    match ab_max_model_calls (cf_budgets cfg) with
    | Some cap =>
        if cap <=? r_model_calls (rt s)
        then modify (on_runtime (set_exhausted true)) ;;
             raise (DependencyError (cp "The answer model-call budget was exhausted.") answer_budget_exhausted)
        else modify (on_runtime (set_model_calls (r_model_calls (rt s) + 1)))
    | None => modify (on_runtime (set_model_calls (r_model_calls (rt s) + 1)))
    end.

(** ** Publishing *)

(** [await self._backplane.publish(...)]; [bounded]: inside the deadline of a
    terminal. *)
Inductive published : Type := Confirmed | TimedOut.
Definition backplane_publish (bounded : bool) (e : Envelope) : M published := fun s =>
  let o := publish_at env (w_tick (wd s)) in
  let '(r, s) := await s in
  let taken := match o with Published => true | Failed b => b | Stalled b => if bounded then b else true end in
  let s := on_world (log taken e) s in
  match r, o with
  | Err x, _ => (Err x, s)
  | Ok _, Published => (Ok Confirmed, s)
  | Ok _, Failed _ => (Err OtherError, s)
  | Ok _, Stalled _ => (Ok (if bounded then TimedOut else Confirmed), s)
  end.

Definition publish_within (bounded : bool) (e : Envelope) : M published :=
  s ← get;
  if r_cancel_requested (rt s) && negb (r_finalising_cancel (rt s)) && negb (s_answer_committed (st s))
     && negb (is_start (e_body e))
  then modify (on_world (log false e)) ;; raise CancelledError
  else backplane_publish bounded e.
Definition _publish (e : Envelope) : M unit := publish_within false e ;; ret tt.

(** [state.next_seq()] *)
Definition next_seq : M Z := fun s => (Ok (s_seq (st s)), on_stream (set_seq (s_seq (st s) + 1)) s).

Definition _publish_text_envelope (kind : _TextKind) (text : pystr) : M unit :=
  if bool_decide (tk_envelope kind = cp "narration") then
    n ← next_seq; _publish (mk_env n (Narration text (tk_turn kind)))
  else
    modify (on_stream (fun x => set_on_wire true (s_partial_answer x ++ [text]) x)) ;;
    n ← next_seq; _publish (mk_env n (Delta text)).

Definition _flush_text : M unit :=
  s ← get;
  let '(text, b) := take_buffer (s_buffer (st s)) in
  modify (on_stream (set_buffer b)) ;;
  match tc_kind (s_buffer (st s)), text with
  | Some kind, Some text => _publish_text_envelope kind text
  | _, _ => ret tt
  end.

Definition _next_seq : M Z := _flush_text ;; next_seq.

Definition _stream_text (kind : _TextKind) (chunk : pystr) : M unit :=
  match chunk with
  | [] => ret tt
  | _ =>
      s ← get;
      when (negb (bool_decide (tc_kind (s_buffer (st s)) = None))
            && negb (bool_decide (tc_kind (s_buffer (st s)) = Some kind))) _flush_text ;;
      s ← get;
      match add_chunk (now s) kind chunk (s_buffer (st s)) with
      | None => raise OtherError
      | Some (ready, b) =>
          modify (on_stream (set_buffer b)) ;;
          match ready with
          | Some text => _publish_text_envelope kind text
          | None => ret tt
          end
      end
  end.

Definition _publish_text (chunks : list pystr) : M unit := forM chunks (_stream_text _ANSWER_TEXT).

Definition _retract_answer : M unit :=
  s ← get;
  (if bool_decide (tc_kind (s_buffer (st s)) = None) || bool_decide (tc_kind (s_buffer (st s)) = Some _ANSWER_TEXT)
   then modify (on_stream (set_buffer (take_buffer (s_buffer (st s))).2))
   else _flush_text) ;;
  modify (on_stream (fun x => set_on_wire (s_answer_on_wire x) [] x)) ;;
  s ← get;
  when (s_answer_on_wire (st s))
    (modify (on_stream (fun x => set_on_wire false (s_partial_answer x) x)) ;;
     n ← next_seq; _publish (mk_env n AnswerRetract)).

(** [_publish(state, envelope(stream_id, await _next_seq(state), ...))] *)
Definition emit (b : body) : M unit := n ← _next_seq; _publish (mk_env n b).

(** [if detail: data["detail"] = detail] *)
Definition _emit_step (key label step_state : pystr) (detail : option pystr) (turn : option Z) : M unit :=
  emit (Step key label step_state (if truthy detail then detail else None) turn).

(** ** Terminals *)

(** [_publish_terminal]: whether the publish was confirmed. *)
Definition _publish_terminal (e : Envelope) (deadline : option Z) : M bool :=
  match deadline with
  | None => _publish e ;; ret true
  | Some _ => p ← publish_within true e; ret (match p with Confirmed => true | TimedOut => false end)
  end.

(** The seq of the terminal: minted once, after the buffered text. *)
Definition terminal_seq : M Z :=
  s ← get;
  match s_terminal_seq (st s) with
  | Some n => ret n
  | None => n ← _next_seq; modify (on_stream (set_terminal_seq (Some n))) ;; ret n
  end.

(** [_publish_terminal_done]; [done] is the payload built from the result. *)
Definition _publish_terminal_done (cfg : config) (done : body) : M unit :=
  s ← get;
  if s_terminal_sent (st s) then ret tt
  else
    n ← terminal_seq;
    s ← get;
    match r_producer_deadline (rt s), cf_terminal_publish_margin cfg with
    | Some deadline, Some margin =>
        sent ← _publish_terminal (mk_env n done) (Some (deadline - margin / 5));
        if (sent : bool) then modify (on_stream (set_terminal_sent true))
        else
          sent ← _publish_terminal (mk_env n done) (Some deadline);
          when sent (modify (on_stream (set_terminal_sent true)))
    | _, _ =>
        _publish (mk_env n done) ;; modify (on_stream (set_terminal_sent true))
    end.

(** The part of [_terminal_error] after the retraction. *)
Definition error_terminal (b : body) : M unit :=
  modify (on_stream (set_terminal_sent true)) ;;
  s ← get;
  n ← match s_terminal_seq (st s) with Some n => ret n | None => _next_seq end;
  s ← get;
  _publish_terminal (mk_env n b) (r_producer_deadline (rt s)) ;; ret tt.

Definition _terminal_error (status : Z) (title code : pystr) (detail : option pystr) : M unit :=
  s ← get;
  if s_terminal_sent (st s) then ret tt
  else
    when (negb (s_answer_committed (st s))
          && (s_answer_on_wire (st s) || bool_decide (tc_kind (s_buffer (st s)) = Some _ANSWER_TEXT)))
      _retract_answer ;;
    error_terminal (Problem title status code (if truthy detail then detail else None)).

(** ** The database *)

(** A read or a lock: one await that may fail. *)
Definition db_read : M unit := fun s =>
  let fails := db_fails_at env (w_tick (wd s)) in
  let '(r, s) := await s in
  match r with Err e => (Err e, s) | Ok _ => ((if fails then Err OtherError else Ok tt), s) end.

(** A flushed write of the open transaction. *)
Definition db_write (w : write) : M unit :=
  db_read ;; modify (on_world (fun x => set_db (w_pending x ++ [w]) (w_committed x) x)).

Definition commit : M unit := fun s =>
  let o := commit_at env (w_tick (wd s)) in
  let '(r, s) := await s in
  let done := on_world (fun x => set_db [] (w_committed x ++ w_pending x) x) s in
  match r, o with
  | Ok _, CommitOk => (Ok tt, done)
  | Ok _, CommitFailed durable => (Err OtherError, if durable then done else s)
  | Err e, CommitOk | Err e, CommitFailed true => (Err e, done)
  | Err e, CommitFailed false => (Err e, s)
  end.

(** [async with sessionmaker() as session: m]: what is not committed when the
    block ends is rolled back. *)
Definition in_session {A} (m : M A) : M A := fun s =>
  let '(r, s) := m s in (r, on_world (fun x => set_db [] (w_committed x) x) s).
End stream.

(** ** What the client shows

    The answer text a client has after receiving [es]: deltas are appended, a
    retraction clears. *)
Definition show (acc : pystr) (e : Envelope) : pystr :=
  match e_body e with Delta t => acc ++ t | AnswerRetract => [] | _ => acc end.
Definition answer_view (es : list Envelope) : pystr := foldl show [] es.

Definition is_text (b : body) : bool := match b with Delta _ | AnswerRetract => true | _ => false end.
(** No answer text or retraction given to [_publish] was lost. *)
Definition text_taken (w : world) : Prop :=
  Forall (fun p => is_text (e_body p.2) = true -> p.1 = true) (w_log w).

(** The answer text streamed and not retracted, with what is still buffered. *)
Definition on_wire_text (s : state) : pystr := mjoin (s_partial_answer (st s)).
Definition buffered_answer (b : _TextCoalescer) : pystr :=
  if decide (tc_kind b = Some _ANSWER_TEXT) then mjoin (tc_parts b) else [].
Definition spoken (s : state) : pystr := on_wire_text s ++ buffered_answer (s_buffer (st s)).
Definition drained (s : state) : Prop := tc_kind (s_buffer (st s)) = None.

(** What was given to [_publish], and the terminals among it. *)
Definition sent (w : world) : list Envelope := (w_log w).*2.
Definition terminals (w : world) : list Envelope := List.filter (fun e => is_terminal (e_body e)) (sent w).

(** The log up to repeats of a terminal. *)
Fixpoint first_terminal_only (seen : bool) (l : list Envelope) : list Envelope :=
  match l with
  | [] => []
  | e :: l =>
      if is_terminal (e_body e) then
        if seen then first_terminal_only seen l else e :: first_terminal_only true l
      else e :: first_terminal_only seen l
  end.

(** Up to repeats of a terminal, what is given to [_publish] has increasing seqs. *)
Record in_order (s : state) : Prop := {
  io_start : 0 <= s_seq (st s);
  io_range : Forall (fun e => 0 <= e_seq e < s_seq (st s)) (sent (wd s));
  io_sorted : StronglySorted Z.lt (e_seq <$> first_terminal_only false (sent (wd s)))
}.

(** Terminals carry one seq: the one the stream remembers, or that of the only
    terminal, an error. *)
Definition one_terminal (s : state) : Prop :=
  match s_terminal_seq (st s) with
  | Some n => terminals (wd s) <> [] /\ Forall (fun e => e_seq e = n) (terminals (wd s))
  | None => terminals (wd s) = [] \/ (s_terminal_sent (st s) = true /\ exists e, terminals (wd s) = [e])
  end.

(** The buffer holds non-empty text of one kind, or nothing. *)
Definition buffer_ok (b : _TextCoalescer) : Prop :=
  (tc_kind b = None <-> tc_parts b = [])
  /\ (forall k, tc_kind b = Some k -> k = _ANSWER_TEXT \/ tk_envelope k = cp "narration").

Record stream_ok (s : state) : Prop := {
  so_order : in_order s;
  so_view : text_taken (wd s) -> answer_view (wire (wd s)) = on_wire_text s;
  so_flag : s_answer_on_wire (st s) = negb (bool_decide (s_partial_answer (st s) = []));
  so_buffer : buffer_ok (s_buffer (st s))
}.

(** What the stream layer leaves alone: the usage and route, the database, the
    commit flag, the call counters; only a Stop, a spent budget or a shutdown is
    marked. *)
Record keeps (s s' : state) : Prop := {
  k_committed : s_answer_committed (st s') = s_answer_committed (st s);
  k_flags : r_completing (rt s') = r_completing (rt s) /\ r_settling_error (rt s') = r_settling_error (rt s)
    /\ r_finalising_cancel (rt s') = r_finalising_cancel (rt s)
    /\ r_shielded (rt s') = r_shielded (rt s) /\ r_turn_scope (rt s') = r_turn_scope (rt s)
    /\ r_answer_scope (rt s') = r_answer_scope (rt s);
  k_deadlines : r_answer_deadline (rt s') = r_answer_deadline (rt s)
    /\ r_producer_deadline (rt s') = r_producer_deadline (rt s);
  k_usage : r_route_state (rt s') = r_route_state (rt s) /\ r_usage (rt s') = r_usage (rt s)
    /\ r_salvage (rt s') = r_salvage (rt s) /\ r_outcome_usage (rt s') = r_outcome_usage (rt s);
  k_calls : r_model_calls (rt s') = r_model_calls (rt s) /\ w_calls (wd s') = w_calls (wd s)
    /\ w_billed (wd s') = w_billed (wd s) /\ w_tools (wd s') = w_tools (wd s);
  k_db : w_pending (wd s') = w_pending (wd s) /\ w_committed (wd s') = w_committed (wd s);
  k_emitted : r_emitted (rt s') = r_emitted (rt s);
  k_stop : r_cancel_requested (rt s) = true -> r_cancel_requested (rt s') = true
}.

Global Instance keeps_preorder : PreOrder keeps.
Proof.
  split; [intros s; constructor; tauto|].
  intros s1 s2 s3 [] []. constructor; intuition congruence.
Qed.

(** What publishing anything but a terminal leaves alone besides. *)
Record calm (s s' : state) : Prop := {
  c_keeps : keeps s s';
  c_seq : s_terminal_seq (st s') = s_terminal_seq (st s);
  c_sent : s_terminal_sent (st s') = s_terminal_sent (st s);
  c_terminals : terminals (wd s') = terminals (wd s)
}.
Global Instance calm_preorder : PreOrder calm.
Proof.
  split; [intros s; by constructor|].
  intros s1 s2 s3 [] []. constructor; [by etransitivity|congruence..].
Qed.

(** ** Rules *)

Definition wp {A} (m : M A) (Q : res exn A -> state -> Prop) (s : state) : Prop :=
  let '(r, s') := m s in Q r s'.

Section rules.
Context {A B : Type}.

Lemma wp_bind (m : M A) (k : A -> M B) Q s :
  wp m (fun r s => match r with Ok a => wp (k a) Q s | Err e => Q (Err e) s end) s -> wp (m ≫= k) Q s.
Proof.
  unfold wp, mbind, M_bind, bind. intros Hm. destruct (m s) as [[a|e] s']; [|done].
  by destruct (k a s').
Qed.

Lemma wp_catch (m : M A) h Q s :
  wp m (fun r s => match r with Ok a => Q (Ok a) s | Err e => wp (h e) Q s end) s -> wp (catch m h) Q s.
Proof.
  unfold wp, catch. intros Hm. destruct (m s) as [[a|e] s']; [done|]. by destruct (h e s').
Qed.

Lemma wp_mono (m : M A) (Q Q' : res exn A -> state -> Prop) s :
  wp m Q s -> (forall r s, Q r s -> Q' r s) -> wp m Q' s.
Proof. unfold wp. destruct (m s). auto. Qed.

Lemma wp_conj (m : M A) (Q Q' : res exn A -> state -> Prop) s :
  wp m Q s -> wp m Q' s -> wp m (fun r s => Q r s /\ Q' r s) s.
Proof. unfold wp. destruct (m s). auto. Qed.

Lemma wp_ret (a : A) Q s : Q (Ok a) s -> wp (ret a) Q s.
Proof. done. Qed.
Lemma wp_raise e (Q : res exn A -> state -> Prop) s : Q (Err e) s -> wp (raise e) Q s.
Proof. done. Qed.
Lemma wp_run (m : M A) Q s r s' : wp m Q s -> m s = (r, s') -> Q r s'.
Proof. unfold wp. intros H E. by rewrite E in H. Qed.
End rules.

Lemma wp_get Q s : Q (Ok s) s -> wp get Q s.
Proof. done. Qed.
Lemma wp_modify f Q s : Q (Ok tt) (f s) -> wp (modify f) Q s.
Proof. done. Qed.

(** What reaches the coroutine from outside. *)
Definition interrupts (s : state) (e : exn) : Prop :=
  e = CancelledError \/ (e = TurnExpired /\ r_turn_scope (rt s) = true)
  \/ (e = AnswerExpired /\ r_answer_scope (rt s) = true).
Definition outside (s : state) (e : exn) : Prop := e = OtherError \/ interrupts s e.

(** Nothing of the stream changed. *)
Definition untouched (s s' : state) : Prop :=
  st s' = st s /\ w_log (wd s') = w_log (wd s) /\ keeps s s'.
Global Instance untouched_preorder : PreOrder untouched.
Proof.
  split; [intros s; by split_and!|]. intros s1 s2 s3 (? & ? & ?) (? & ? & ?).
  split_and!; [congruence..|by etransitivity].
Qed.

Lemma untouched_calm s s' : untouched s s' -> calm s s'.
Proof. intros (E & L & ?). constructor; [done|by rewrite E..|]. unfold terminals, sent. by rewrite L. Qed.

Lemma untouched_ok s s' : untouched s s' -> stream_ok s -> stream_ok s'.
Proof.
  intros (E & L & _) [[? ? ?] Hv ? ?]. constructor; [constructor|..];
    unfold text_taken, wire, sent, on_wire_text in *; rewrite ?E, ?L; auto.
Qed.

Section specs.
Context (env : Env).

Lemma await_spec s : wp (await env) (fun r s' => untouched s s' /\ forall e, r = Err e -> interrupts s e) s.
Proof.
  unfold wp, await, untouched, interrupts. destruct s as [x y z]. simpl.
  destruct (interrupt_at env (w_tick z)); simpl.
  - split; [|done]. split_and!; [done..|]. constructor; simpl; intuition.
  - unfold request_cancel. simpl. destruct (_ || _); simpl.
    + unfold cancels_task. simpl. destruct (r_cancel_requested y); simpl;
        (split; [|done]); (split_and!; [done..|]); constructor; simpl; intuition.
    + unfold cancels_task. simpl. destruct (r_cancel_requested y) eqn:E; simpl;
        (split; [|try done; intros e [= <-]; tauto]); (split_and!; [done..|]); constructor; simpl; intuition.
  - destruct (r_shielded y && negb (r_interrupted y)) eqn:E; simpl; (split; [|try done; intros e [= <-]; tauto]);
      (split_and!; [done..|]); constructor; simpl; intuition.
  - destruct (r_turn_scope y) eqn:E; simpl; (split; [|try done; intros e [= <-]; tauto]);
      (split_and!; [done..|]); constructor; simpl; intuition.
  - destruct (r_answer_scope y) eqn:E; simpl; (split; [|try done; intros e [= <-]; tauto]);
      (split_and!; [done..|]); constructor; simpl; intuition.
Qed.

(** [s'] is [s] after one envelope was given to the backplane. *)
Definition logged (taken : bool) (e : Envelope) (s s' : state) : Prop :=
  st s' = st s /\ w_log (wd s') = w_log (wd s) ++ [(taken, e)] /\ keeps s s'.

Lemma backplane_publish_spec bounded e s :
  wp (backplane_publish env bounded e) (fun r s' => exists t, logged t e s s'
    /\ match r with Ok Confirmed => t = true | Ok TimedOut => bounded = true | Err x => outside s x end) s.
Proof.
  pose proof (await_spec s) as Ha. unfold wp, backplane_publish in *. destruct (await env s) as [r s1].
  destruct Ha as ((E & L & K) & Hr).
  assert (forall t, logged t e s (on_world (log t e) s1)) as Hl.
  { intros t. split_and!; simpl; [done|by rewrite L|]. destruct K. by constructor. }
  destruct (publish_at env _) as [|b|b], r as [[]|x]; simpl;
    (eexists; split; [apply Hl|]); try done; try (by left); try (by right; apply Hr).
  by destruct bounded.
Qed.

Lemma publish_within_spec bounded e s :
  wp (publish_within env bounded e) (fun r s' => exists t, logged t e s s'
    /\ match r with Ok Confirmed => t = true | Ok TimedOut => bounded = true | Err x => outside s x end) s.
Proof.
  unfold publish_within. apply wp_bind, wp_get. destruct (_ && _).
  - apply wp_bind, wp_modify, wp_raise. exists false. split; [|by right; left].
    split_and!; [done..|]. constructor; simpl; intuition.
  - apply backplane_publish_spec.
Qed.

Lemma publish_spec e s :
  wp (_publish env e) (fun r s' => exists t, logged t e s s'
    /\ match r with Ok _ => t = true | Err x => outside s x end) s.
Proof.
  unfold _publish. apply wp_bind. eapply wp_mono; [apply publish_within_spec|].
  intros [[]|x] s' (t & Hl & Ht); [apply wp_ret|done|]; by exists t.
Qed.

(** *** Lists of envelopes *)

Lemma fto_app b l e :
  first_terminal_only b (l ++ [e])
  = first_terminal_only b l
    ++ (if is_terminal (e_body e) && (b || existsb (fun e => is_terminal (e_body e)) l) then [] else [e]).
Proof.
  revert b. induction l as [|x l IH]; intros b; simpl.
  - destruct (is_terminal (e_body e)), b; done.
  - destruct (is_terminal (e_body x)) eqn:E; simpl.
    + destruct b; simpl; rewrite IH; simpl; rewrite ?orb_true_r; done.
    + by rewrite IH.
Qed.

Lemma fto_sub b l e : e ∈ first_terminal_only b l -> e ∈ l.
Proof.
  revert b. induction l as [|x l IH]; intros b; simpl; [done|].
  destruct (is_terminal (e_body x)); [destruct b|]; rewrite ?elem_of_cons; intros H;
    repeat match goal with H : _ \/ _ |- _ => destruct H end; subst; eauto.
Qed.

Lemma sorted_snoc (ns : list Z) n :
  StronglySorted Z.lt ns -> (forall m, m ∈ ns -> m < n) -> StronglySorted Z.lt (ns ++ [n]).
Proof.
  induction 1 as [|x ns Hs IH Hx]; intros Hn; simpl; [repeat constructor|].
  constructor; [apply IH; set_solver|]. apply Forall_app. split; [done|].
  apply Forall_singleton, Hn. set_solver.
Qed.

Lemma sent_log t e w : sent (log t e w) = sent w ++ [e].
Proof. unfold sent. simpl. by rewrite fmap_app. Qed.
Lemma sent_of s s' t e : w_log (wd s') = w_log (wd s) ++ [(t, e)] -> sent (wd s') = sent (wd s) ++ [e].
Proof. intros L. unfold sent. by rewrite L, fmap_app. Qed.
Lemma terminals_of s s' t e :
  w_log (wd s') = w_log (wd s) ++ [(t, e)] ->
  terminals (wd s') = terminals (wd s) ++ (if is_terminal (e_body e) then [e] else []).
Proof.
  intros L. unfold terminals. rewrite (sent_of _ _ _ _ L), List.filter_app. simpl.
  by destruct (is_terminal (e_body e)).
Qed.
Lemma wire_of s s' t e :
  w_log (wd s') = w_log (wd s) ++ [(t, e)] -> wire (wd s') = wire (wd s) ++ (if t then [e] else []).
Proof. intros L. unfold wire. rewrite L, List.filter_app, fmap_app. by destruct t. Qed.
Lemma taken_of s s' t e :
  w_log (wd s') = w_log (wd s) ++ [(t, e)] ->
  text_taken (wd s') <-> text_taken (wd s) /\ (is_text (e_body e) = true -> t = true).
Proof. intros L. unfold text_taken. rewrite L, Forall_app, Forall_singleton. done. Qed.
Lemma no_terminal w : terminals w = [] <-> existsb (fun e => is_terminal (e_body e)) (sent w) = false.
Proof.
  unfold terminals. induction (sent w) as [|e l IH]; simpl; [done|].
  destruct (is_terminal (e_body e)); simpl; [split; discriminate|done].
Qed.

(** Giving [_publish] an envelope numbered above all before it keeps the order;
    so does giving a terminal again. *)
Lemma in_order_above s s' t e :
  in_order s -> w_log (wd s') = w_log (wd s) ++ [(t, e)] ->
  s_seq (st s) <= s_seq (st s') -> 0 <= e_seq e < s_seq (st s') ->
  Forall (fun x => e_seq x < e_seq e) (sent (wd s)) ->
  is_terminal (e_body e) = false \/ terminals (wd s) = [] -> in_order s'.
Proof.
  intros [H0 Hr Hs] L Hle Hlt Hall Hnt. constructor; [lia| |].
  - rewrite (sent_of _ _ _ _ L). apply Forall_app. split.
    + eapply Forall_impl; [exact Hr|]. simpl. intros. lia.
    + apply Forall_singleton. lia.
  - rewrite (sent_of _ _ _ _ L), fto_app.
    assert (is_terminal (e_body e) && (false || existsb (fun e => is_terminal (e_body e)) (sent (wd s))) = false) as ->.
    { destruct Hnt as [->|Hnt%no_terminal]; [done|]. simpl. rewrite Hnt. apply andb_false_r. }
    rewrite fmap_app. apply sorted_snoc; [done|]. intros m (x & -> & Hx%fto_sub)%list_elem_of_fmap.
    rewrite Forall_forall in Hall. by apply Hall.
Qed.

Lemma in_order_next s s' t e n :
  in_order s -> w_log (wd s') = w_log (wd s) ++ [(t, e)] ->
  s_seq (st s') = n -> s_seq (st s) <= n -> s_seq (st s) <= e_seq e < n ->
  is_terminal (e_body e) = false \/ terminals (wd s) = [] -> in_order s'.
Proof.
  intros Ho L Hn Hle Hlt Hnt. pose proof Ho as [H0 Hr Hs].
  eapply in_order_above; [done|done|lia..| |done].
  eapply Forall_impl; [exact Hr|]. simpl. intros. lia.
Qed.

Lemma in_order_again s s' t e :
  in_order s -> w_log (wd s') = w_log (wd s) ++ [(t, e)] -> s_seq (st s') = s_seq (st s) ->
  0 <= e_seq e < s_seq (st s) -> is_terminal (e_body e) = true -> terminals (wd s) <> [] -> in_order s'.
Proof.
  intros [H0 Hr Hs] L Hn Hlt Ht Hnt. constructor; [lia| |].
  - rewrite (sent_of _ _ _ _ L), Hn. apply Forall_app. split; [done|by apply Forall_singleton].
  - rewrite (sent_of _ _ _ _ L), fto_app, Ht.
    destruct (existsb _ (sent (wd s))) eqn:E; [simpl; by rewrite app_nil_r|]. by apply no_terminal in E.
Qed.

Lemma outside_keeps s s' x : keeps s s' -> outside s' x -> outside s x.
Proof.
  intros [] [->|[->|[[-> ?]|[-> ?]]]]; [by left|by right; left|right; right; left|right; right; right];
    (split; [done|]); intuition congruence.
Qed.

(** An operation on the stream returns with no answer text lost, or raises
    something from outside. *)
Definition safely {A} (s : state) (r : res exn A) (s' : state) : Prop :=
  match r with Ok _ => text_taken (wd s) -> text_taken (wd s') | Err x => outside s x end.

Lemma safely_trans {A B} s s1 s2 (r1 : res exn A) a (r2 : res exn B) :
  keeps s s1 -> r1 = Ok a -> safely s r1 s1 -> safely s1 r2 s2 -> safely s r2 s2.
Proof.
  intros K -> H1 H2. destruct r2; simpl in *; [auto|]. by eapply outside_keeps.
Qed.

Definition mint_publish (b : body) : M unit := n ← next_seq; _publish env (mk_env n b).

Lemma mint_publish_spec b s :
  in_order s -> is_terminal b = false ->
  wp (mint_publish b) (fun r s' => exists t, in_order s' /\ calm s s'
    /\ w_log (wd s') = w_log (wd s) ++ [(t, mk_env (s_seq (st s)) b)]
    /\ st s' = set_seq (s_seq (st s) + 1) (st s)
    /\ match r with Ok _ => t = true | Err x => outside s x end) s.
Proof.
  intros Ho Hb. unfold mint_publish. apply wp_bind. unfold next_seq, wp at 1.
  set (s1 := on_stream _ s). eapply wp_mono; [apply publish_spec|].
  intros r s' (t & (E & L & K) & Hr). exists t.
  change (w_log (wd s1)) with (w_log (wd s)) in L.
  assert (keeps s s') as Hk by (destruct K; by constructor).
  split_and!; [|constructor| | |]; try done.
  - eapply in_order_next; [done|exact L|by rewrite E|simpl; lia..|by left].
  - by rewrite E.
  - by rewrite E.
  - rewrite (terminals_of _ _ _ _ L). simpl. by rewrite Hb, app_nil_r.
Qed.

Lemma view_app es e : answer_view (es ++ [e]) = show (answer_view es) e.
Proof. unfold answer_view. by rewrite foldl_app. Qed.

(** An envelope that is neither text nor a terminal. *)
Lemma mint_other_spec b s :
  stream_ok s -> is_terminal b = false -> is_text b = false ->
  wp (mint_publish b) (fun r s' => stream_ok s' /\ calm s s'
    /\ s_buffer (st s') = s_buffer (st s) /\ s_partial_answer (st s') = s_partial_answer (st s)
    /\ safely s r s') s.
Proof.
  intros [Ho Hv Hf Hb] Ht Hx. eapply wp_mono; [by apply mint_publish_spec|].
  intros r s' (t & Ho' & Hc & L & E & Hr).
  assert (text_taken (wd s') <-> text_taken (wd s)) as Htk.
  { rewrite (taken_of _ _ _ _ L). simpl. rewrite Hx. naive_solver. }
  split_and!; [constructor|..]; try (by rewrite E); try done.
  - intros Hk%Htk. rewrite (wire_of _ _ _ _ L).
    assert (on_wire_text s' = on_wire_text s) as -> by (unfold on_wire_text; by rewrite E).
    rewrite <-Hv by done. destruct t; [|by rewrite app_nil_r]. rewrite view_app. unfold show. simpl.
    by destruct b.
  - destruct r; simpl; [by rewrite Htk|done].
Qed.

Definition answer_part (kind : _TextKind) (text : pystr) : pystr :=
  if decide (kind = _ANSWER_TEXT) then text else [].
Definition known_kind (k : _TextKind) : Prop := k = _ANSWER_TEXT \/ tk_envelope k = cp "narration".

Lemma text_envelope_spec kind text s :
  stream_ok s -> known_kind kind ->
  wp (_publish_text_envelope env kind text) (fun r s' => stream_ok s' /\ calm s s'
    /\ s_buffer (st s') = s_buffer (st s)
    /\ on_wire_text s' = on_wire_text s ++ answer_part kind text
    /\ safely s r s') s.
Proof.
  intros Hok Hkind. unfold _publish_text_envelope, answer_part. case_bool_decide as Hn.
  - rewrite decide_False by (intros ->; discriminate).
    eapply wp_mono; [by apply (mint_other_spec (Narration text (tk_turn kind)))|].
    intros r s' (? & ? & ? & E & ?). unfold on_wire_text. rewrite E, app_nil_r. done.
  - destruct Hkind as [->|?]; [|done]. rewrite decide_True by done.
    destruct Hok as [Ho Hv Hf Hb].
    apply wp_bind, wp_modify. set (s1 := on_stream _ s).
    assert (in_order s1) as Ho1 by (destruct Ho; by constructor).
    eapply wp_mono; [by apply (mint_publish_spec (Delta text) s1 Ho1)|].
    intros r s' (t & Ho' & Hc & L & E & Hr). change (w_log (wd s1)) with (w_log (wd s)) in L.
    assert (on_wire_text s' = on_wire_text s ++ text) as Hw.
    { unfold on_wire_text. rewrite E. simpl. rewrite join_app. simpl. by rewrite app_nil_r. }
    pose proof (taken_of _ _ _ _ L) as Htk. simpl in Htk.
    split_and!; [constructor|..]; try (by rewrite E); try done.
    + intros [Hk Ht]%Htk. rewrite (wire_of _ _ _ _ L), Hw, Ht by done. rewrite view_app.
      unfold show. simpl. by rewrite Hv.
    + rewrite E. simpl. destruct (s_partial_answer (st s)); done.
    + destruct Hc as [[] ? ? ?]. constructor; [by constructor|done..].
    + destruct r; simpl; [intros; apply Htk; split; [done|by intros]|].
      eapply outside_keeps; [|done]. by constructor.
Qed.

(** *** The text operations *)

Definition steps {A} (s : state) (r : res exn A) (s' : state) : Prop :=
  stream_ok s' /\ calm s s' /\ safely s r s'.

Lemma steps_trans {A B} s s1 s2 (a : A) (r : res exn B) :
  steps s (Ok a) s1 -> steps s1 r s2 -> steps s r s2.
Proof.
  intros (_ & C1 & S1) (O2 & C2 & S2). split_and!; [done|by etransitivity|].
  eapply safely_trans; [apply C1|done..].
Qed.

Lemma steps_err {A B} s s1 x : steps (A:=A) s (Err x) s1 -> steps (A:=B) s (Err x) s1.
Proof. done. Qed.

Lemma steps_refl {A} (a : A) s : stream_ok s -> steps s (Ok a) s.
Proof. intros. split_and!; [done|reflexivity|simpl; auto]. Qed.

(** Changing the buffer. *)
Lemma with_buffer b s : stream_ok s -> buffer_ok b -> steps s (Ok tt) (on_stream (set_buffer b) s).
Proof.
  intros [[] Hv Hf _] Hb. assert (keeps s (on_stream (set_buffer b) s)) as Hk by (constructor; simpl; intuition).
  split_and!; [|by constructor|simpl; auto]. constructor; [by constructor|done..].
Qed.

Lemma take_buffer_ok b : buffer_ok b -> buffer_ok (take_buffer b).2 /\ tc_kind (take_buffer b).2 = None.
Proof. unfold take_buffer. destruct (tc_parts b) eqn:E; simpl; (split; [split|]); simpl; rewrite ?E; done. Qed.

Lemma drained_spoken s : stream_ok s -> drained s -> spoken s = on_wire_text s.
Proof. intros _ Hd. unfold spoken, buffered_answer. rewrite Hd. simpl. apply app_nil_r. Qed.

Lemma flush_text_spec s :
  stream_ok s ->
  wp (_flush_text env) (fun r s' => steps s r s' /\ drained s' /\ on_wire_text s' = spoken s) s.
Proof.
  intros Hok. unfold _flush_text. apply wp_bind, wp_get.
  pose proof (so_buffer _ Hok) as [Hnone Hknown].
  destruct (take_buffer_ok _ (so_buffer _ Hok)) as [Hb Hk].
  destruct (take_buffer (s_buffer (st s))) as [text b] eqn:E. simpl in Hb, Hk.
  apply wp_bind, wp_modify. set (s1 := on_stream _ s). pose proof (with_buffer b s Hok Hb) as Hs1. fold s1 in Hs1.
  unfold take_buffer in E. destruct (tc_kind (s_buffer (st s))) as [kind|] eqn:Ek.
  - destruct (tc_parts (s_buffer (st s))) as [|c l] eqn:Ep; [by destruct Hnone as [_ ?]; discriminate (H eq_refl)|].
    injection E as <- <-. eapply wp_mono; [apply text_envelope_spec; [apply Hs1|by apply Hknown]|].
    intros r s' (O & C & Eb & Ew & S). split_and!.
    + eapply steps_trans; [done|]. split_and!; done.
    + unfold drained. by rewrite Eb.
    + rewrite Ew. unfold spoken, buffered_answer, answer_part. rewrite Ek, Ep. f_equal.
      destruct (decide (kind = _ANSWER_TEXT)) as [->|]; [by rewrite decide_True|].
      rewrite decide_False; [done|congruence].
  - destruct (tc_parts (s_buffer (st s))) as [|c l] eqn:Ep; [|by destruct Hnone as [H _]; discriminate (H eq_refl)].
    injection E as <- <-. apply wp_ret. split_and!; [done|done|].
    unfold spoken, buffered_answer. rewrite Ek. simpl. by rewrite app_nil_r.
Qed.

Lemma emit_spec b s :
  stream_ok s -> is_terminal b = false -> is_text b = false ->
  wp (emit env b) (fun r s' => steps s r s' /\ drained s' /\ on_wire_text s' = spoken s) s.
Proof.
  intros Hok Ht Hx. unfold emit, _next_seq. apply wp_bind, wp_bind.
  eapply wp_mono; [by apply flush_text_spec|]. intros [[]|x] s1 (Hs & Hd & Hw); [|done].
  change (wp (mint_publish b) (fun r s' => steps s r s' /\ drained s' /\ on_wire_text s' = spoken s) s1).
  eapply wp_mono; [apply mint_other_spec; [apply Hs|done..]|].
  intros r s2 (O & C & Eb & Ep & S). split_and!.
  - eapply steps_trans; [done|]. split_and!; done.
  - unfold drained. by rewrite Eb.
  - unfold on_wire_text. by rewrite Ep.
Qed.

Lemma emit_step_spec key label step_state detail turn s :
  stream_ok s ->
  wp (_emit_step env key label step_state detail turn)
    (fun r s' => steps s r s' /\ drained s' /\ on_wire_text s' = spoken s) s.
Proof. intros. by apply emit_spec. Qed.

Lemma add_chunk_ok t kind chunk b ready b' :
  buffer_ok b -> known_kind kind -> chunk <> [] -> add_chunk t kind chunk b = Some (ready, b') ->
  buffer_ok b'
  /\ match ready with
     | Some text => tc_kind b' = None /\ answer_part kind text = buffered_answer b ++ answer_part kind chunk
     | None => buffered_answer b' = buffered_answer b ++ answer_part kind chunk
     end
  /\ (tc_kind b = None \/ tc_kind b = Some kind).
Proof.
  intros [Hn Hk] Hkind Hc. unfold add_chunk. destruct (_ || _) eqn:E; [|done].
  assert (tc_kind b = None \/ tc_kind b = Some kind) as Hsame.
  { apply orb_true_iff in E as [?%bool_decide_eq_true|?%bool_decide_eq_true]; auto. }
  assert (tc_parts b ++ [chunk] <> []) as Hne by (by destruct (tc_parts b)).
  assert (buffered_answer b ++ answer_part kind chunk
          = (if decide (kind = _ANSWER_TEXT) then mjoin (tc_parts b ++ [chunk]) else [])) as Hjoin.
  { unfold buffered_answer, answer_part. destruct Hsame as [H|H].
    - rewrite H, (proj1 Hn H). simpl. by rewrite app_nil_r.
    - rewrite H. destruct (decide (kind = _ANSWER_TEXT)) as [->|Hd].
      + rewrite decide_True by done. rewrite join_app. simpl. by rewrite app_nil_r.
      + rewrite decide_False by congruence. done. }
  intros [= Hp]. rewrite Hjoin. destruct (_ || _) in Hp.
  - unfold take_buffer in Hp. simpl in Hp. destruct (tc_parts b ++ [chunk]) as [|c l] eqn:El; [done|].
    injection Hp as <- <-. split_and!; [split; simpl; done|done| |done].
    unfold answer_part. done.
  - injection Hp as <- <-. split_and!; [split; simpl; [split; [done|by intros]|by intros k [= <-]]| |done].
    unfold buffered_answer. simpl. destruct (decide (kind = _ANSWER_TEXT)) as [->|?].
    + by rewrite decide_True.
    + rewrite decide_False; [done|congruence].
Qed.

Lemma stream_text_spec kind chunk s :
  stream_ok s -> known_kind kind ->
  wp (_stream_text env kind chunk) (fun r s' => steps s r s'
    /\ match r with Ok _ => spoken s' = spoken s ++ answer_part kind chunk | Err _ => True end) s.
Proof.
  intros Hok Hkind. destruct chunk as [|c chunk].
  { apply wp_ret. split; [by apply steps_refl|]. unfold answer_part. destruct (decide _); by rewrite app_nil_r. }
  unfold _stream_text. set (ch := c :: chunk). assert (ch <> []) as Hch by done. apply wp_bind, wp_get, wp_bind.
  set (Q := fun (r : res exn unit) s' => steps s r s'
    /\ match r with Ok _ => spoken s' = spoken s ++ answer_part kind ch | Err _ => True end).
  assert (forall s1, steps s (Ok tt) s1 -> spoken s1 = spoken s ->
    wp (s ← get; match add_chunk (now env s) kind ch (s_buffer (st s)) with
      | None => raise OtherError
      | Some (ready, b) => modify (on_stream (set_buffer b)) ;;
          match ready with Some text => _publish_text_envelope env kind text | None => ret tt end
      end) Q s1) as Hadd.
  { intros s1 Hs1 Hsp. apply wp_bind, wp_get. pose proof (proj1 Hs1) as Hok1.
    destruct (add_chunk _ _ _ _) as [[ready b]|] eqn:Ea.
    2:{ apply wp_raise. split; [|done]. eapply (steps_trans s s1 _ tt); [done|]. split_and!; [done|reflexivity|by left]. }
    destruct (add_chunk_ok _ _ _ _ _ _ (so_buffer _ Hok1) Hkind Hch Ea) as (Hb & Hr & Hsame).
    apply wp_bind, wp_modify. set (s2 := on_stream _ s1).
    pose proof (with_buffer b s1 Hok1 Hb) as Hs2. fold s2 in Hs2.
    destruct ready as [text|].
    - destruct Hr as [Hnone Hr]. eapply wp_mono; [apply text_envelope_spec; [apply Hs2|done]|].
      intros r s3 (O & C & Eb & Ew & S). split.
      + eapply steps_trans; [done|]. eapply steps_trans; [done|]. split_and!; done.
      + destruct r; [|done]. rewrite <-Hsp. unfold spoken. rewrite Ew, Eb, Hr.
        unfold buffered_answer at 2. simpl. rewrite Hnone. simpl. by rewrite app_nil_r, app_assoc.
    - apply wp_ret. split; [by eapply steps_trans|]. rewrite <-Hsp. unfold spoken. simpl.
      by rewrite Hr, app_assoc. }
  unfold when. destruct (_ && _).
  - eapply wp_mono; [by apply flush_text_spec|]. intros [[]|x] s1 (Hs & Hd & Hw); [|done].
    apply Hadd; [done|]. rewrite (drained_spoken s1); [done|apply Hs|done].
  - apply wp_ret. apply Hadd; [by apply steps_refl|done].
Qed.

Lemma retract_answer_spec s :
  stream_ok s ->
  wp (_retract_answer env) (fun r s' => steps s r s'
    /\ match r with Ok _ => drained s' /\ on_wire_text s' = [] | Err _ => True end) s.
Proof.
  intros Hok. unfold _retract_answer. apply wp_bind, wp_get, wp_bind.
  set (Q := fun (r : res exn unit) s' => steps s r s'
    /\ match r with Ok _ => drained s' /\ on_wire_text s' = [] | Err _ => True end).
  match goal with |- wp _ ?post _ => assert (forall s1, steps s (Ok tt) s1 -> drained s1 -> post (Ok tt) s1) as Hrest end.
  { intros s1 Hs1 Hd. apply wp_bind, wp_modify. apply wp_bind, wp_get. unfold when. simpl.
    destruct (s_answer_on_wire (st s1)) eqn:Ew.
    - apply wp_bind, wp_modify. set (s2 := on_stream _ (on_stream _ s1)).
      destruct Hs1 as ([Ho Hv Hf Hb] & C1 & S1).
      assert (in_order s2) as Ho2 by (destruct Ho; by constructor).
      assert (keeps s1 s2) as K12 by (constructor; simpl; intuition).
      eapply wp_mono; [by apply (mint_publish_spec AnswerRetract s2 Ho2)|].
      intros r s3 (t & Ho3 & C3 & L & E & Hr). change (w_log (wd s2)) with (w_log (wd s1)) in L.
      pose proof (taken_of _ _ _ _ L) as Htk. simpl in Htk.
      assert (calm s1 s3) as C13.
      { etransitivity; [|exact C3]. by constructor. }
      split.
      + apply (steps_trans s s1 s3 tt); [by split_and!|]. split_and!; [constructor|done|].
        * done.
        * intros [Hk Ht]%Htk. rewrite (wire_of _ _ _ _ L), Ht by done. rewrite view_app.
          unfold show, on_wire_text. rewrite E. done.
        * by rewrite E.
        * by rewrite E.
        * destruct r; simpl; [intros; apply Htk; split; [done|by intros]|].
          eapply outside_keeps; [exact K12|done].
      + destruct r; [|done]. unfold drained, on_wire_text. by rewrite E.
    - apply wp_ret. destruct Hs1 as ([Ho Hv Hf Hb] & C1 & S1).
      assert (s_partial_answer (st s1) = []) as Hp.
      { rewrite Ew in Hf. symmetry in Hf. by apply negb_false_iff, bool_decide_eq_true in Hf. }
      set (s2 := on_stream _ s1).
      assert (keeps s1 s2) as K12 by (constructor; simpl; intuition).
      split; [|done]. apply (steps_trans s s1 s2 tt); [by split_and!|].
      split_and!; [|by constructor|simpl; auto]. constructor.
      + destruct Ho; by constructor.
      + intros Hk. transitivity (on_wire_text s1); [by apply Hv|]. unfold on_wire_text. by rewrite Hp.
      + simpl. by rewrite Ew.
      + done. }
  destruct (_ || _).
  - apply wp_modify, Hrest.
    + apply with_buffer; [done|]. apply take_buffer_ok, Hok.
    + apply (take_buffer_ok _ (so_buffer _ Hok)).
  - eapply wp_mono; [by apply flush_text_spec|]. intros [[]|x] s1 (Hs & Hd & _); [by apply Hrest|].
    by split.
Qed.

(** *** Stop and budgets *)

Definition budget_spent (e : exn) : Prop :=
  exists d, e = DependencyError d answer_budget_exhausted.

Lemma check_answer_deadline_spec s :
  wp (_check_answer_deadline env) (fun r s' => untouched s s' /\ forall e, r = Err e -> budget_spent e) s.
Proof.
  unfold wp, _check_answer_deadline. destruct (r_answer_deadline (rt s)) as [d|]; [|by split].
  destruct (_ && _); simpl; [|by split]. split; [|intros e [= <-]; by eexists].
  split_and!; [done..|]. constructor; simpl; intuition.
Qed.

Lemma is_cancelled_spec s :
  wp (is_cancelled env) (fun r s' => untouched s s' /\ forall e, r = Err e -> outside s e) s.
Proof.
  pose proof (await_spec s) as Ha. unfold wp, is_cancelled in *. destruct (await env s) as [[[]|x] s1].
  - destruct Ha as [? _]. destruct (cancel_key_at env _); split; try done. intros e [= <-]. by left.
  - destruct Ha as [? He]. destruct (cancel_key_at env _); (split; [done|]); intros e [= <-]; right; by apply He.
Qed.

Lemma check_cancelled_spec s :
  wp (_check_cancelled env) (fun r s' => untouched s s'
    /\ forall e, r = Err e -> outside s e \/ budget_spent e) s.
Proof.
  unfold _check_cancelled. apply wp_bind, wp_get. destruct (_ || _); [by apply wp_ret|].
  assert (forall s1 b, untouched s s1 ->
    wp (if (b : bool) then modify (on_runtime (set_cancel_requested true)) ;; raise CancelledError
        else _check_answer_deadline env)
      (fun r s' => untouched s s' /\ forall e, r = Err e -> outside s e \/ budget_spent e) s1) as Hrest.
  { intros s1 [] Hu.
    - apply wp_bind, wp_modify, wp_raise. split.
      + etransitivity; [done|]. split_and!; [done..|]. constructor; simpl; intuition.
      + intros e [= <-]. left. right. by left.
    - eapply wp_mono; [apply check_answer_deadline_spec|]. intros r s2 [Hu2 He].
      split; [by etransitivity|]. intros e E. right. by apply He. }
  apply wp_bind. destruct (r_cancel_requested (rt s)).
  - apply wp_ret. apply (Hrest s true). reflexivity.
  - eapply wp_mono; [apply is_cancelled_spec|]. intros [b|x] s1 [Hu He]; [by apply Hrest|].
    split; [done|]. intros e [= <-]. left. by apply He.
Qed.

(** Claiming a model call counts it, within the budget. *)
Lemma claim_model_call_spec cfg s :
  wp (_claim_model_call env cfg) (fun r s' =>
    match r with
    | Ok _ => exists s1, untouched s s1
        /\ s' = on_runtime (set_model_calls (r_model_calls (rt s1) + 1)) s1
        /\ (forall cap, ab_max_model_calls (cf_budgets cfg) = Some cap -> r_model_calls (rt s1) < cap)
    | Err e => untouched s s' /\ (e = CancelledError \/ budget_spent e)
    end) s.
Proof.
  unfold _claim_model_call. apply wp_bind. eapply wp_mono; [apply check_answer_deadline_spec|].
  intros [[]|x] s1 [Hu He]; [|split; [done|right; by apply He]].
  apply wp_bind, wp_get. destruct (_ && _); [apply wp_raise; split; [done|by left]|].
  destruct (ab_max_model_calls _) as [cap|].
  - destruct (Z.leb_spec cap (r_model_calls (rt s1))).
    + apply wp_bind, wp_modify, wp_raise. split; [|right; by eexists].
      etransitivity; [done|]. split_and!; [done..|]. constructor; simpl; intuition.
    + apply wp_modify. exists s1. split_and!; [done..|]. by intros ? [= <-].
  - apply wp_modify. exists s1. by split_and!.
Qed.

(** *** Terminals *)

(** A terminal numbered [n] may be given to [_publish]. *)
Record ready (n : Z) (s : state) : Prop := {
  rd_order : in_order s;
  rd_range : 0 <= n < s_seq (st s);
  rd_same : Forall (fun e => e_seq e = n) (terminals (wd s));
  rd_first : terminals (wd s) = [] -> Forall (fun e => e_seq e < n) (sent (wd s))
}.

Lemma ready_logged n b s s' t :
  is_terminal b = true -> ready n s -> logged t (mk_env n b) s s' ->
  ready n s' /\ terminals (wd s') <> [].
Proof.
  intros Hb [Ho Hr Hs Hf] (E & L & K).
  assert (terminals (wd s') = terminals (wd s) ++ [mk_env n b]) as Ht.
  { rewrite (terminals_of _ _ _ _ L). simpl. by rewrite Hb. }
  assert (terminals (wd s') <> []) as Hne by (rewrite Ht; by destruct (terminals (wd s))).
  split; [|done]. constructor; [|by rewrite E| |done].
  - destruct (terminals (wd s)) as [|e l] eqn:El.
    + eapply in_order_above; [done|exact L|by rewrite E|by rewrite E|by apply Hf|by right].
    + eapply in_order_again; [done|exact L|by rewrite E|done|done|by rewrite El].
  - rewrite Ht. apply Forall_app. split; [done|by apply Forall_singleton].
Qed.

(** What a terminal leaves of a drained stream: the answer on the wire. *)
Record closes (s s' : state) : Prop := {
  cl_keeps : keeps s s';
  cl_partial : s_partial_answer (st s') = s_partial_answer (st s);
  cl_buffer : s_buffer (st s') = s_buffer (st s);
  cl_on_wire : s_answer_on_wire (st s') = s_answer_on_wire (st s);
  cl_view : answer_view (wire (wd s')) = answer_view (wire (wd s));
  cl_taken : text_taken (wd s') <-> text_taken (wd s)
}.
Global Instance closes_preorder : PreOrder closes.
Proof.
  split; [intros s; by constructor|].
  intros s1 s2 s3 [] []. constructor; [by etransitivity|congruence..|tauto].
Qed.

Lemma closes_logged n b s s' t :
  is_text b = false -> logged t (mk_env n b) s s' -> closes s s'.
Proof.
  intros Hb (E & L & K). constructor; [done|by rewrite E..| |].
  - rewrite (wire_of _ _ _ _ L). destruct t; [|by rewrite app_nil_r]. rewrite view_app.
    unfold show. simpl. by destruct b.
  - rewrite (taken_of _ _ _ _ L). simpl. rewrite Hb. naive_solver.
Qed.

Lemma closes_on_stream f s :
  s_answer_committed (f (st s)) = s_answer_committed (st s) ->
  s_partial_answer (f (st s)) = s_partial_answer (st s) -> s_buffer (f (st s)) = s_buffer (st s) ->
  s_answer_on_wire (f (st s)) = s_answer_on_wire (st s) -> closes s (on_stream f s).
Proof. intros. constructor; try done; constructor; simpl; intuition. Qed.

Lemma closes_ok s s' : closes s s' -> in_order s' -> stream_ok s -> stream_ok s'.
Proof.
  intros [K Hp Hb Hf Hv Ht] Ho [_ Hv0 Hf0 Hb0]. constructor; [done| |by rewrite Hf, Hp|by rewrite Hb].
  intros Hk%Ht. unfold on_wire_text. rewrite Hv, Hp. by apply Hv0.
Qed.

Lemma one_terminal_ready n s :
  in_order s -> one_terminal s -> s_terminal_seq (st s) = Some n -> ready n s.
Proof.
  intros Ho Hone E. unfold one_terminal in Hone. rewrite E in Hone. destruct Hone as [Hne Hall].
  constructor; [done| |done|done].
  destruct (terminals (wd s)) as [|e l] eqn:El; [done|]. apply Forall_cons in Hall as [<- _].
  pose proof (io_range _ Ho) as Hr. rewrite Forall_forall in Hr. apply Hr.
  assert (In e (terminals (wd s))) as Hin by (rewrite El; by left).
  unfold terminals in Hin. apply filter_In in Hin as [Hin _]. by apply list_elem_of_In.
Qed.

(** The seq of the terminal, minted when there is none. *)
Lemma terminal_seq_spec s :
  stream_ok s -> drained s -> one_terminal s ->
  (s_terminal_seq (st s) = None -> terminals (wd s) = []) ->
  wp (terminal_seq env) (fun r s' => exists n, r = Ok n /\ ready n s' /\ closes s s'
    /\ s_terminal_seq (st s') = Some n /\ s_terminal_sent (st s') = s_terminal_sent (st s)) s.
Proof.
  intros Hok Hd Hone Hnone. unfold terminal_seq. apply wp_bind, wp_get.
  destruct (s_terminal_seq (st s)) as [n|] eqn:E.
  - apply wp_ret. exists n. split_and!; [done| |done..]. by apply one_terminal_ready; [apply Hok| |].
  - specialize (Hnone eq_refl). unfold _next_seq, _flush_text. apply wp_bind, wp_bind, wp_bind, wp_get.
    pose proof (so_buffer _ Hok) as [Hk _]. pose proof (proj1 Hk Hd) as Hp.
    unfold take_buffer. rewrite Hp. apply wp_bind, wp_modify. rewrite Hd. apply wp_ret.
    unfold next_seq, wp at 1. apply wp_bind, wp_modify, wp_ret.
    set (s' := on_stream (set_terminal_seq _) _). exists (s_seq (st s)).
    assert (s_buffer (st s') = s_buffer (st s)) as Eb.
    { simpl. unfold drained in Hd. destruct (s_buffer (st s)); simpl in *. by subst. }
    split_and!; [done| |constructor; try done; constructor; simpl; intuition|done..].
    pose proof (so_order _ Hok) as [H0 Hr Hs]. constructor.
    + constructor; simpl; [lia| |done]. eapply Forall_impl; [exact Hr|]. simpl. intros. lia.
    + simpl. lia.
    + assert (terminals (wd s') = []) as -> by exact Hnone. constructor.
    + intros _. eapply Forall_impl; [exact Hr|]. simpl. intros. lia.
Qed.

(** *** The success terminal *)

(** What publishing [done] establishes. *)
Definition ended {A} (s : state) (r : res exn A) (s' : state) : Prop :=
  stream_ok s' /\ closes s s' /\ one_terminal s'
  /\ match r with Ok _ => terminals (wd s') <> [] | Err x => outside s x end.

Lemma ready_one n s : ready n s -> s_terminal_seq (st s) = Some n -> terminals (wd s) <> [] -> one_terminal s.
Proof. intros [? ? ? ?] E Hne. unfold one_terminal. by rewrite E. Qed.

Lemma publish_terminal_logged e deadline s :
  wp (_publish_terminal env e deadline) (fun r s' => exists t, logged t e s s'
    /\ match r with Ok b => b = true -> t = true | Err x => outside s x end) s.
Proof.
  unfold _publish_terminal. destruct deadline as [d|]; apply wp_bind.
  - eapply wp_mono; [apply publish_within_spec|]. intros [[]|x] s' (t & Hl & Ht);
      [apply wp_ret|apply wp_ret|]; by exists t.
  - eapply wp_mono; [apply publish_spec|]. intros [[]|x] s' (t & Hl & Ht); [apply wp_ret|]; by exists t.
Qed.

(** One attempt at the terminal, from a state where it may be given. *)
Lemma attempt_spec n b deadline s s1 :
  is_terminal b = true -> is_text b = false ->
  stream_ok s -> closes s s1 -> ready n s1 -> s_terminal_seq (st s1) = Some n ->
  wp (_publish_terminal env (mk_env n b) deadline) (fun r s' =>
    ended s r s' /\ ready n s' /\ s_terminal_seq (st s') = Some n
    /\ s_terminal_sent (st s') = s_terminal_sent (st s1)
    /\ (r = Ok true -> mk_env n b ∈ wire (wd s'))) s1.
Proof.
  intros Hb Hx Hok Hc Hr Hn. eapply wp_mono; [apply publish_terminal_logged|].
  intros r s' (t & Hl & Ht). destruct (ready_logged _ _ _ _ _ Hb Hr Hl) as [Hr' Hne].
  assert (closes s s') as Hc' by (etransitivity; [exact Hc|by eapply closes_logged]).
  destruct Hl as (E & L & K).
  split_and!; [|done|by rewrite E|by rewrite E|].
  - unfold ended. split_and!; [|done| |].
    + eapply closes_ok; [exact Hc'|apply Hr'|done].
    + eapply ready_one; [done|by rewrite E|done].
    + destruct r; [done|]. eapply (outside_keeps s s1); [apply Hc|done].
  - intros ->. rewrite (wire_of _ _ _ _ L), (Ht eq_refl). set_solver.
Qed.

Lemma ended_mark {A} (r : A) s s1 f :
  ended s (Ok r) s1 -> f = set_terminal_sent true -> ended s (Ok tt) (on_stream f s1).
Proof.
  intros (Hok & Hc & Hone & Hne) ->.
  assert (closes s1 (on_stream (set_terminal_sent true) s1)) as Hc1 by (by apply closes_on_stream).
  unfold ended. split_and!; [|by etransitivity| |done].
  - eapply closes_ok; [exact Hc1| |done]. destruct Hok as [[] ? ? ?]. by constructor.
  - unfold one_terminal in *. simpl. change (terminals _) with (terminals (wd s1)).
    destruct (s_terminal_seq (st s1)); [done|]. destruct Hone as [?|[? ?]]; [by left|by right].
Qed.

Lemma publish_terminal_done_spec cfg done s :
  is_terminal done = true -> is_text done = false ->
  stream_ok s -> drained s -> one_terminal s -> s_terminal_sent (st s) = false ->
  wp (_publish_terminal_done env cfg done) (fun r s' => ended s r s'
    /\ (s_terminal_sent (st s') = true -> exists n, mk_env n done ∈ wire (wd s'))) s.
Proof.
  intros Hb Hx Hok Hd Hone Hsent. unfold _publish_terminal_done. apply wp_bind, wp_get. rewrite Hsent.
  apply wp_bind. eapply wp_mono; [apply terminal_seq_spec; try done|].
  { intros E. unfold one_terminal in Hone. rewrite E in Hone. destruct Hone as [?|[? _]]; [done|congruence]. }
  intros r s1 (n & -> & Hr & Hc & Hn & Hs1). rewrite Hsent in Hs1. apply wp_bind, wp_get.
  destruct (r_producer_deadline (rt s1)) as [d|], (cf_terminal_publish_margin cfg) as [m|].
  1:{ apply wp_bind. eapply wp_mono; [by apply (attempt_spec n done _ s s1)|].
      intros [[]|x] s2 (He & Hr2 & Hn2 & Hs2 & Hw).
      - apply wp_modify. split; [by eapply ended_mark|]. intros _. exists n. by apply Hw.
      - apply wp_bind. eapply wp_mono; [apply (attempt_spec n done _ s s2); try done; apply He|].
        intros [[]|x] s3 (He3 & _ & _ & Hs3 & Hw3); simpl.
        + apply wp_modify. split; [by eapply ended_mark|]. intros _. exists n. by apply Hw3.
        + apply wp_ret. split; [done|]. congruence.
        + split; [done|]. congruence.
      - split; [done|]. congruence. }
  all: change (_publish env (mk_env n done) ;; modify (on_stream (set_terminal_sent true)))
    with (_publish env (mk_env n done) ;; modify (on_stream (set_terminal_sent true)) : M unit);
    apply wp_bind; pose proof (attempt_spec n done None s s1 Hb Hx Hok Hc Hr Hn) as Ha;
    unfold wp, _publish_terminal, mbind, M_bind, bind in Ha;
    unfold wp at 1; destruct (_publish env (mk_env n done) s1) as [[[]|x] s2];
    destruct Ha as (He & _ & _ & Hs2 & Hw); simpl;
    [apply wp_modify; split; [by eapply ended_mark|]; intros _; exists n; by apply Hw
    |split; [done|]; congruence].
Qed.

(** *** The error terminal *)

Lemma flush_drained s : stream_ok s -> drained s -> _flush_text env s = (Ok tt, s).
Proof.
  intros Hok Hd. pose proof (so_buffer _ Hok) as [Hk _]. pose proof (proj1 Hk Hd) as Hp.
  unfold drained in Hd. destruct s as [[seq b ? ? ? ? ?] y z]. destruct b as [mc md k p c o].
  simpl in *. by subst.
Qed.

(** Publishing the error at [n] from [s1], when it may be given there. *)
Lemma error_at_spec n b s :
  is_terminal b = true -> is_text b = false -> ready n s -> stream_ok s ->
  s_terminal_sent (st s) = true ->
  (s_terminal_seq (st s) = Some n \/ (s_terminal_seq (st s) = None /\ terminals (wd s) = [])) ->
  wp (s ← get; _publish_terminal env (mk_env n b) (r_producer_deadline (rt s)) ;; ret tt)
    (fun r s' => ended s r s') s.
Proof.
  intros Hb Hx Hr Hok Hsent Hseq. apply wp_bind, wp_get, wp_bind.
  eapply wp_mono; [apply publish_terminal_logged|]. intros r s' (t & Hl & Ht).
  destruct (ready_logged n b _ _ _ Hb Hr Hl) as [Hr' Hne].
  assert (closes s s') as Hc by (by eapply closes_logged). destruct Hl as (E & L & _).
  assert (stream_ok s' /\ closes s s' /\ one_terminal s') as (? & ? & ?).
  { split_and!; [eapply closes_ok; [exact Hc|apply Hr'|done]|done|]. unfold one_terminal. rewrite E.
    destruct Hseq as [->|[-> Hnil]]; [split; [done|apply Hr']|]. right. split; [done|].
    exists (mk_env n b). rewrite (terminals_of _ _ _ _ L), Hnil. simpl. by rewrite Hb. }
  destruct r; [apply wp_ret|]; by split_and!.
Qed.

(** [s'] keeps the text of [s], or has flushed what was buffered. *)
Definition text_kept (s s' : state) : Prop :=
  (drained s -> closes s s') /\ (spoken s = [] -> on_wire_text s' = [])
  /\ keeps s s' /\ stream_ok s' /\ one_terminal s'.

Lemma text_kept_closes s s' : closes s s' -> stream_ok s' -> one_terminal s' -> text_kept s s'.
Proof.
  intros Hc ? ?. split_and!; [done| |apply Hc|done|done]. intros [Hs _]%app_nil.
  unfold on_wire_text in *. by rewrite (cl_partial _ _ Hc).
Qed.

Lemma error_terminal_spec b s :
  is_terminal b = true -> is_text b = false ->
  stream_ok s -> one_terminal s -> s_terminal_sent (st s) = false ->
  wp (error_terminal env b) (fun r s' => text_kept s s' /\ match r with
    | Ok _ => terminals (wd s') <> [] /\ (text_taken (wd s) -> text_taken (wd s'))
    | Err x => outside s x end) s.
Proof.
  intros Hb Hx Hok Hone Hsent. unfold error_terminal. apply wp_bind, wp_modify. set (s1 := on_stream _ s).
  assert (closes s s1) as C1 by (by apply closes_on_stream).
  assert (stream_ok s1) as Hok1.
  { eapply closes_ok; [exact C1| |done]. destruct Hok as [[] ? ? ?]. by constructor. }
  apply wp_bind, wp_get, wp_bind. change (s_terminal_seq (st s1)) with (s_terminal_seq (st s)).
  destruct (s_terminal_seq (st s)) as [n|] eqn:En.
  - apply wp_ret. eapply wp_mono; [apply (error_at_spec n b s1); try done|].
    + apply one_terminal_ready; [apply Hok1| |done]. unfold one_terminal in *. simpl. by rewrite En in *.
    + by left.
    + intros r s2 (O & C2 & One & Hr).
      assert (closes s s2) as C by (by etransitivity). split; [by apply text_kept_closes|].
      destruct r; [split; [done|]; apply C|]. eapply (outside_keeps s s1); [apply C1|done].
  - assert (terminals (wd s) = []) as Hnil.
    { unfold one_terminal in Hone. rewrite En in Hone. destruct Hone as [?|[? _]]; congruence. }
    unfold _next_seq. apply wp_bind. eapply wp_mono.
    { apply wp_conj; [by apply flush_text_spec|].
      instantiate (1 := fun r s' => drained s1 -> s' = s1). unfold wp.
      destruct (_flush_text env s1) as [r s'] eqn:E. intros Hd. rewrite flush_drained in E by done. congruence. }
    intros [[]|x] s2 [((Hok2 & C2 & S2) & Hd2 & Hw2) Hsame].
    + unfold next_seq, wp at 1. set (s3 := on_stream _ s2).
      assert (closes s2 s3) as C23 by (by apply closes_on_stream).
      pose proof (so_order _ Hok2) as [H0 Hrg Hs].
      assert (in_order s3) as Ho3.
      { constructor; simpl; [lia| |done]. eapply Forall_impl; [exact Hrg|]. simpl. intros. lia. }
      assert (terminals (wd s3) = []) as Hnil3.
      { change (terminals (wd s3)) with (terminals (wd s2)). by rewrite (c_terminals _ _ C2). }
      eapply wp_mono; [apply (error_at_spec (s_seq (st s2)) b s3); try done|].
      * constructor; [done|simpl; lia|by rewrite Hnil3|]. intros _.
        eapply Forall_impl; [exact Hrg|]. simpl. intros. lia.
      * by eapply closes_ok.
      * simpl. by rewrite (c_sent _ _ C2).
      * right. split; [|done]. simpl. by rewrite (c_seq _ _ C2).
      * intros r s4 (O & C4 & One & Hr). assert (closes s2 s4) as C24 by (by etransitivity).
        assert (keeps s s2) as K by (etransitivity; [apply C1|apply C2]). split.
        -- split_and!; [| |etransitivity; [exact K|apply C24]|done|done].
           ++ intros Hd. rewrite (Hsame Hd) in C24. by etransitivity.
           ++ intros Hsp. unfold on_wire_text. rewrite (cl_partial _ _ C24). by rewrite <-Hsp.
        -- destruct r; [split; [done|]; intros Ht; apply C24, S2, C1, Ht|].
           eapply (outside_keeps s s3); [|done]. etransitivity; [exact K|apply C23].
    + assert (keeps s s2) as K by (etransitivity; [apply C1|apply C2]). split.
      * split_and!; [|by intros Hsp; rewrite Hw2|done|done|].
        -- intros Hd. by rewrite (Hsame Hd).
        -- unfold one_terminal. rewrite (c_seq _ _ C2), (c_terminals _ _ C2). simpl. rewrite En. by left.
      * eapply (outside_keeps s s1); [apply C1|done].
Qed.

(** The error terminal un-publishes an answer that is not committed, and leaves a
    committed one. *)
Lemma terminal_error_spec status title code detail s :
  stream_ok s -> one_terminal s -> s_terminal_sent (st s) = false ->
  (s_answer_committed (st s) = true -> drained s) ->
  wp (_terminal_error env status title code detail) (fun r s' =>
    stream_ok s' /\ one_terminal s' /\ keeps s s'
    /\ (s_answer_committed (st s) = true -> closes s s')
    /\ match r with
       | Ok _ => terminals (wd s') <> [] /\ (text_taken (wd s) -> text_taken (wd s'))
           /\ (s_answer_committed (st s) = false -> on_wire_text s' = [])
       | Err x => outside s x
       end) s.
Proof.
  intros Hok Hone Hsent Hdr. unfold _terminal_error. apply wp_bind, wp_get. rewrite Hsent. apply wp_bind.
  unfold when. destruct (s_answer_committed (st s)) eqn:Ec; simpl.
  - apply wp_ret. eapply wp_mono; [by apply error_terminal_spec|].
    intros r s' ((Hc & _ & K & O & One) & Hr). split_and!; try done; [by intros _; apply Hc, Hdr|].
    destruct r; [|done]. destruct Hr; by split_and!.
  - assert (forall s1, steps s (Ok tt) s1 -> spoken s1 = [] -> wp (error_terminal env
        (Problem title status code (if truthy detail then detail else None))) (fun r s' =>
        stream_ok s' /\ one_terminal s' /\ keeps s s' /\ (false = true -> closes s s')
        /\ match r with
           | Ok _ => terminals (wd s') <> [] /\ (text_taken (wd s) -> text_taken (wd s'))
               /\ (false = false -> on_wire_text s' = [])
           | Err x => outside s x end) s1) as Hrest.
    { intros s1 (O1 & C1 & S1) Hsp. eapply wp_mono; [apply error_terminal_spec; try done|].
      - unfold one_terminal in *. by rewrite (c_terminals _ _ C1), (c_seq _ _ C1), (c_sent _ _ C1).
      - by rewrite (c_sent _ _ C1).
      - intros r s' ((_ & Hw & K & O & One) & Hr). split_and!; try done.
        + etransitivity; [apply C1|done].
        + destruct r; [|eapply (outside_keeps s s1); [apply C1|done]]. destruct Hr as [Hne Ht].
          split_and!; [done|by intros; apply Ht, S1|by intros; apply Hw]. }
    destruct (_ || _) eqn:Ew.
    + eapply wp_mono; [by apply retract_answer_spec|]. intros [[]|x] s1 (Hs & Hr).
      * destruct Hr as [Hd Hw]. apply Hrest; [done|]. by rewrite (drained_spoken s1 (proj1 Hs) Hd).
      * destruct Hs as (O & C & S). split_and!; [done| |apply C|done|done].
        unfold one_terminal in *. by rewrite (c_terminals _ _ C), (c_seq _ _ C), (c_sent _ _ C).
    + apply wp_ret, Hrest; [by apply steps_refl|]. apply orb_false_iff in Ew as [Ew Ek].
      apply bool_decide_eq_false in Ek. pose proof (so_flag _ Hok) as Hf. rewrite Ew in Hf.
      symmetry in Hf. apply negb_false_iff, bool_decide_eq_true in Hf.
      unfold spoken, on_wire_text, buffered_answer. rewrite Hf, decide_False; done.
Qed.
End specs.
