(* ===== verification/ChatTurn.v ===== *)
(** * One model turn

    [services/chat_runtime.py]: [_stream_one_turn] (one completion, streamed live
    as answer text until a tool call shows it to be narration) and
    [_stream_turn_resilient] (bounded retries on one route, failover down the
    tenant's list, the interactive deadline).  The providers are the environment
    [Llm]: what the [n]-th model call streams and how it ends, and how a model id
    resolves to a route. *)

From stdpp Require Import base list strings sets.
From Stdlib Require Import Lia ZArith.
From S2P Require Import Prelude Json ToolWire Tools Context Grounding ChatStream.
Open Scope Z_scope.

(** ** Events (domain/llm.py, [StreamEvent]) *)

Record StreamEvent := mk_event {
  ev_text : pystr;
  ev_tool_calls : list ToolCall;
  ev_finish_reason : option pystr;
  ev_usage : option TokenUsage;
  ev_tool_call_started : bool
}.

(** The arguments of [gateway.stream_tools]. *)
Record model_call := mk_model_call {
  mc_messages : list ChatMessage;
  mc_tools : list ToolSpec;
  mc_route : ModelRoute;
  mc_tool_choice : option pystr;
  mc_max_tokens : option Z
}.

(** What a call streams: each event with whether the coalescer's timer beats it
    when text is waiting, and the exception the stream ends with, if any. *)
Record script := mk_script {
  sc_items : list (bool * StreamEvent);
  sc_end : bool * option exn
}.

Record Llm := mk_llm {
  stream_tools : nat -> model_call -> script;
  resolve_model : nat -> pystr -> res exn ModelRoute
}.

(** A completed stream carries tool calls exactly when it signalled them, as the
    gateway's adapter guarantees (see [Gateway.gateway_is_classified]); and only
    the provider's faults are retryable. *)
Class Classified (llm : Llm) : Prop := {
  signalled_calls n c : (stream_tools llm n c).(sc_end).2 = None ->
    forall p, p ∈ sc_items (stream_tools llm n c) -> ev_tool_call_started p.2 = true ->
    exists q, q ∈ sc_items (stream_tools llm n c) /\ ev_tool_calls q.2 <> [];
  faults n c : match (stream_tools llm n c).(sc_end).2 with
    | Some (AppError _ _ _ _) | Some (LlmProviderError _ _ _) | Some OtherError | None => True
    | _ => False
    end;
  refusals n m : match resolve_model llm n m with
    | Ok _ | Err (AppError _ _ _ _) | Err (LlmProviderError _ _ _) | Err OtherError => True
    | _ => False
    end
}.

(** [services.provider_models.is_provider_model_id] *)
Definition is_provider_model_id (m : pystr) : bool := py_startswith (cp "provider:") m.

Definition _RETRY_BACKOFF : list Z := [500; 2000].
Definition _RETRY_AFTER_CAP : Z := 10000.

(** [_turn_attempt_count] *)
Definition _turn_attempt_count (cfg : config) : Z :=
  let attempts := 1 + Z.of_nat (length _RETRY_BACKOFF) in
  match cf_interactive_max_attempts cfg with Some n => Z.min attempts n | None => attempts end.

(** The wait before the attempt [i] (from 1), given the fault before it. *)
Definition retry_delay (i : nat) (retry_after : option Z) : Z :=
  let delay := default 0 (_RETRY_BACKOFF !! (i - 1)%nat) in
  match retry_after with
  | Some hint => Z.max delay (Z.min hint _RETRY_AFTER_CAP)
  | None => delay
  end.

(** The local variables of [_stream_one_turn]. *)
Record turn := mk_turn {
  t_tool_calls : list ToolCall;
  t_finish_reason : pystr;
  t_text_chunks : list pystr;
  t_narrating : bool
}.
Definition new_turn : turn := mk_turn [] (cp "stop") [] false.

(** Which seams the caller passes: [narrate] (with the turn it narrates) and
    [speak]. *)
Record seams := mk_seams { sm_narrate : option Z; sm_speak : bool }.

(** [await self._retry_sleep(ms)]: one await, however long. *)
Definition _retry_sleep (env : Env) (ms : Z) : M unit := await env.

Section turns.
Context (env : Env) (llm : Llm) (cfg : config).

(** ** The seams of the resilient turn *)

Definition _narrate_and_close_window (turn_number : Z) (text : pystr) : M unit :=
  modify (on_runtime (fun x => set_emitted (true, (r_emitted x).2) x)) ;;
  match text with [] => ret tt | _ => _stream_text env (narration_of turn_number) text end.

Definition _speak_answer (text : pystr) : M unit :=
  modify (on_runtime (fun x => set_emitted ((r_emitted x).1, true) x)) ;;
  _stream_text env _ANSWER_TEXT text.

Definition _retract_speculative_answer : M unit :=
  _retract_answer env ;;
  modify (on_runtime (fun x => set_emitted ((r_emitted x).1, false) x)).

(** ** One turn *)

(** Waiting for the next event, with the flush timer of an open buffer, then the
    checks around the event. *)
Definition wait_event (timer_first : bool) : M unit :=
  s ← get;
  match flush_deadline (s_buffer (st s)) with
  | None => ret tt
  | Some deadline =>
      if deadline - now env s <=? 0 then _flush_text env
      else await env ;; if timer_first then _flush_text env else await_suppressed env
  end ;;
  s ← get;
  when (r_cancel_requested (rt s)) (raise CancelledError) ;;
  _check_answer_deadline env ;;
  await env.

Definition after_event : M unit :=
  s ← get;
  when (r_cancel_requested (rt s)) (raise CancelledError) ;;
  _check_answer_deadline env.

(** [usage.add(ev.usage); usage.last_turn_prompt_tokens = ...] *)
Definition account (u : TokenUsage) : M unit :=
  modify (fun s =>
    let x := rt s in
    let total := add_usage (r_usage x) u in
    let total := mk_usage (us_prompt total) (us_completion total) (us_total total) (us_cached total)
                   (us_cache_write total) (Some (tu_prompt u)) in
    on_runtime (set_route (r_route_state x) total) s).

(** The classification point: retract the speculative answer, narrate what was
    buffered. *)
Definition classify (sm : seams) (ev : StreamEvent) (t : turn) : M turn :=
  match sm_narrate sm with
  | Some k =>
      if (ev_tool_call_started ev || negb (bool_decide (ev_tool_calls ev = []))) && negb (t_narrating t)
      then _retract_speculative_answer ;;
           _narrate_and_close_window k (mjoin (t_text_chunks t)) ;;
           ret (mk_turn (t_tool_calls t) (t_finish_reason t) (t_text_chunks t) true)
      else ret t
  | None => ret t
  end.

Definition take_text (sm : seams) (ev : StreamEvent) (t : turn) : M turn :=
  match ev_text ev with
  | [] => ret t
  | text =>
      match sm_narrate sm, t_narrating t with
      | Some k, true => _narrate_and_close_window k text
      | _, _ => when (sm_speak sm) (_speak_answer text)
      end ;;
      ret (mk_turn (t_tool_calls t) (t_finish_reason t) (t_text_chunks t ++ [text]) (t_narrating t))
  end.

Definition handle_event (sm : seams) (ev : StreamEvent) (t : turn) : M turn :=
  t ← classify sm ev t;
  t ← take_text sm ev t;
  match ev_usage ev with Some u => account u | None => ret tt end ;;
  ret (mk_turn (match ev_tool_calls ev with [] => t_tool_calls t | l => l end)
         (match ev_finish_reason ev with Some ((_ :: _) as f) => f | _ => t_finish_reason t end)
         (t_text_chunks t) (t_narrating t)).

(** The ghost record of the bill, apart from the code: an event's report is noted
    when [await pending] hands the event over, and marked when the loop's body is
    through with it. *)
Definition reported (ev : StreamEvent) : M unit :=
  match ev_usage ev with
  | Some u => modify (fun s => on_world (bill (rs_model (r_route_state (rt s))) u) s)
  | None => ret tt
  end.
Definition handled_to_end (ev : StreamEvent) : M unit :=
  match ev_usage ev with Some _ => modify (on_world settle_bill) | None => ret tt end.

Fixpoint consume (sm : seams) (items : list (bool * StreamEvent)) (t : turn) : M turn :=
  match items with
  | [] => ret t
  | (timer_first, ev) :: items =>
      wait_event timer_first ;;
      reported ev ;;
      after_event ;;
      t ← handle_event sm ev t;
      handled_to_end ev ;;
      consume sm items t
  end.

(** [_stream_one_turn] *)
Definition _stream_one_turn (sm : seams) (call : model_call) : M turn :=
  s ← get;
  modify (on_world count_call) ;;
  let sc := stream_tools llm (w_calls (wd s)) call in
  t ← consume sm (sc_items sc) new_turn;
  wait_event (sc_end sc).1 ;;
  match (sc_end sc).2 with Some e => raise e | None => after_event ;; ret t end.

(** ** Failover *)

Definition set_fallbacks (l : list pystr) (rs : _RouteState) : _RouteState :=
  mk_route_state (rs_model rs) (rs_route rs) l (rs_spent rs).

(** [_resolve_model_route]: one await, then the route or the resolver's error. *)
Definition _resolve_model_route (model : pystr) : M ModelRoute := fun s =>
  let r := resolve_model llm (w_tick (wd s)) model in
  let '(i, s) := await env s in
  match i with Err e => (Err e, s) | Ok _ => (r, s) end.

Definition is_app_error (e : exn) : bool :=
  match e with AppError _ _ _ _ | LlmProviderError _ _ _ => true | _ => false end.

Fixpoint advance_from (fallbacks : list pystr) : M bool :=
  match fallbacks with
  | [] => ret false
  | candidate :: rest =>
      modify (on_runtime (fun x => set_route (set_fallbacks rest (r_route_state x)) (r_usage x) x)) ;;
      r ← catch (route ← _resolve_model_route candidate; ret (Some route))
            (fun e => if is_app_error e then ret None else raise e);
      match (r : option ModelRoute) with
      | None => advance_from rest
      | Some route =>
          if is_provider_model_id candidate && bool_decide (mr_model route = candidate)
          then advance_from rest
          else
            modify (on_runtime (fun x =>
              set_route (mk_route_state candidate route rest (rs_spent (r_route_state x))) (r_usage x) x)) ;;
            ret true
      end
  end.

Definition _advance_to_fallback : M bool :=
  s ← get; advance_from (rs_fallbacks (r_route_state (rt s))).

(** [route_state.spent.append((dying_model, usage.snapshot_and_reset()))] *)
Definition close_scope (dying_model : pystr) : M unit :=
  modify (on_runtime (fun x =>
    let '(frozen, fresh) := snapshot_and_reset (r_usage x) in
    let rs := r_route_state x in
    set_route (mk_route_state (rs_model rs) (rs_route rs) (rs_fallbacks rs)
                 (rs_spent rs ++ [(dying_model, frozen)])) fresh x)).

(** ** Retries *)

(** The attempts of one route from attempt [i], [n] of them left: the turn, or
    the last retryable fault. *)
Fixpoint attempts (sm : seams) (call : ModelRoute -> model_call) (n i : nat) (last : option (provider_fault * option Z))
    : M (turn + option (provider_fault * option Z)) :=
  match n with
  | O => ret (inr last)
  | S n =>
      when (negb (Nat.eqb i 0)) (_retry_sleep env (retry_delay i (last ≫= snd))) ;;
      _check_cancelled env ;;
      _claim_model_call env cfg ;;
      s ← get;
      r ← catch (t ← _stream_one_turn sm (call (rs_route (r_route_state (rt s)))); ret (inl t))
            (fun e =>
               match e with
               | LlmProviderError code retryable hint =>
                   s ← get;
                   if negb retryable || (r_emitted (rt s)).1 then raise e
                   else
                     when (r_emitted (rt s)).2 _retract_speculative_answer ;;
                     ret (inr (code, hint))
               | e => raise e
               end);
      match r with
      | inl t => ret (inl t)
      | inr fault => attempts sm call n (S i) (Some fault)
      end
  end.

(** [_run_attempts]: the routes one after another; each failover drops a
    fallback, which bounds [fuel]. *)
Fixpoint run_attempts (fuel : nat) (sm : seams) (refit : pystr -> res exn (list ChatMessage))
    (allow_failover : bool) (tools : list ToolSpec) (tool_choice : option pystr) (max_tokens : option Z)
    (messages : list ChatMessage) : M turn :=
  match fuel with
  | O => raise OtherError
  | S fuel =>
      r ← attempts sm (fun route => mk_model_call messages tools route tool_choice max_tokens)
            (Z.to_nat (_turn_attempt_count cfg)) 0 None;
      match r with
      | inl t => ret t
      | inr None => raise OtherError
      | inr (Some (code, hint)) =>
          s ← get;
          let dying_model := rs_model (r_route_state (rt s)) in
          if negb allow_failover then raise (LlmProviderError code true hint)
          else
            advanced ← _advance_to_fallback;
            if negb (advanced : bool) then raise (LlmProviderError code true hint)
            else
              close_scope dying_model ;;
              s ← get;
              messages ← (fun s' => (refit (mr_model (rs_route (r_route_state (rt s)))), s'));
              run_attempts fuel sm refit allow_failover tools tool_choice max_tokens messages
      end
  end.

(** [async with asyncio.timeout_at(...)] around the turn. *)
Definition turn_scope (b : bool) (s : state) : state :=
  on_runtime (fun x => set_scopes b (r_answer_scope x) (r_shielded x) (r_interrupted x) x) s.
Definition in_turn_scope {A} (m : M A) : M A := fun s =>
  let '(r, s) := m (turn_scope true s) in (r, turn_scope false s).

(** [_stream_turn_resilient] *)
Definition _stream_turn_resilient (refit : pystr -> res exn (list ChatMessage)) (narrate : option Z)
    (stream_answer allow_failover : bool) (tools : list ToolSpec) (tool_choice : option pystr)
    (messages : list ChatMessage) : M turn :=
  modify (on_runtime (set_emitted (false, false))) ;;
  s ← get;
  let fuel := S (length (rs_fallbacks (r_route_state (rt s)))) in
  let body := run_attempts fuel (mk_seams narrate stream_answer) refit allow_failover tools tool_choice
                (ab_answer_max_tokens (cf_budgets cfg)) messages in
  match cf_turn_timeout cfg with
  | None => body
  | Some _ =>
      catch (in_turn_scope body) (fun e =>
        match e with
        | TurnExpired => raise (DependencyError
            (cp "The model did not respond within the interactive time budget.") dependency_unavailable)
        | e => raise e
        end)
  end.
End turns.

(** ** What a turn keeps *)

(** Token counts add up field by field. *)
Definition no_tokens : TokenUsage := mk_tokens 0 0 0 0 0.
Definition add_tokens (a b : TokenUsage) : TokenUsage :=
  mk_tokens (tu_prompt a + tu_prompt b) (tu_completion a + tu_completion b) (tu_total a + tu_total b)
    (tu_cached a + tu_cached b) (tu_cache_write a + tu_cache_write b).
Definition tokens_of (u : _Usage) : TokenUsage :=
  mk_tokens (us_prompt u) (us_completion u) (us_total u) (us_cached u) (us_cache_write u).

(** The tokens of [model] in a list of reports. *)
Fixpoint spent_on (model : pystr) (l : list (pystr * TokenUsage)) : TokenUsage :=
  match l with
  | [] => no_tokens
  | (m, t) :: l => if decide (m = model) then add_tokens t (spent_on model l) else spent_on model l
  end.

(** The scopes of the answer: the closed ones, then the running one. *)
Definition scopes (x : runtime) : list (pystr * TokenUsage) :=
  ((fun p => (p.1, tokens_of p.2)) <$> rs_spent (r_route_state x))
  ++ [(rs_model (r_route_state x), tokens_of (r_usage x))].

(** The reports whose events were handled to their end, and those whose events
    were cut short by an exception on the way. *)
Definition handled_reports (l : list (bool * (pystr * TokenUsage))) : list (pystr * TokenUsage) :=
  omap (fun p : bool * (pystr * TokenUsage) => if p.1 then Some p.2 else None) l.
Definition cut_reports (l : list (bool * (pystr * TokenUsage))) : list (pystr * TokenUsage) :=
  omap (fun p : bool * (pystr * TokenUsage) => if p.1 then None else Some p.2) l.

(** Every token of a handled report is in the scope of the model that spent it. *)
Definition billed_ok (s : state) : Prop :=
  forall model, spent_on model (scopes (rt s)) = spent_on model (handled_reports (w_billed (wd s))).

(** Model calls are claimed before they are made, within the budget; a call has one
    report cut short at most. *)
Definition calls_ok (cfg : config) (s : state) : Prop :=
  Z.of_nat (w_calls (wd s)) <= r_model_calls (rt s)
  /\ (forall cap, ab_max_model_calls (cf_budgets cfg) = Some cap -> 0 <= cap -> r_model_calls (rt s) <= cap)
  /\ (length (cut_reports (w_billed (wd s))) <= w_calls (wd s))%nat.

Record sound (cfg : config) (s : state) : Prop := {
  sd_stream : stream_ok s;
  sd_billed : billed_ok s;
  sd_calls : calls_ok cfg s
}.

(** What a turn leaves alone. *)
Record progress (s s' : state) : Prop := {
  p_committed : s_answer_committed (st s') = s_answer_committed (st s);
  p_flags : r_completing (rt s') = r_completing (rt s) /\ r_settling_error (rt s') = r_settling_error (rt s)
    /\ r_finalising_cancel (rt s') = r_finalising_cancel (rt s)
    /\ r_shielded (rt s') = r_shielded (rt s) /\ r_answer_scope (rt s') = r_answer_scope (rt s);
  p_deadlines : r_answer_deadline (rt s') = r_answer_deadline (rt s)
    /\ r_producer_deadline (rt s') = r_producer_deadline (rt s);
  p_salvage : r_salvage (rt s') = r_salvage (rt s) /\ r_outcome_usage (rt s') = r_outcome_usage (rt s);
  p_terminals : s_terminal_seq (st s') = s_terminal_seq (st s)
    /\ s_terminal_sent (st s') = s_terminal_sent (st s) /\ terminals (wd s') = terminals (wd s);
  p_db : w_pending (wd s') = w_pending (wd s) /\ w_committed (wd s') = w_committed (wd s)
    /\ w_tools (wd s') = w_tools (wd s);
  p_fallbacks : (length (rs_fallbacks (r_route_state (rt s')))
                 <= length (rs_fallbacks (r_route_state (rt s))))%nat;
  p_calls : (w_calls (wd s) <= w_calls (wd s'))%nat;
  p_stop : r_cancel_requested (rt s) = true -> r_cancel_requested (rt s') = true
}.
Global Instance progress_preorder : PreOrder progress.
Proof.
  split; [intros s; constructor; try lia; tauto|]. intros s1 s2 s3 [] []. constructor; try lia; intuition congruence.
Qed.

Lemma calm_progress s s' : calm s s' -> progress s s'.
Proof. intros [[? ? ? [Hrs ?] ? ? ? ?] ? ? ?]. constructor; rewrite ?Hrs; try lia; intuition. Qed.

Lemma keeps_sound cfg s s' : keeps s s' -> stream_ok s' -> sound cfg s -> sound cfg s'.
Proof.
  intros [? ? ? Hu Hc ? ? ?] Hok [_ Hb [Hn Hcap]].
  destruct Hu as (Hrs & Hus & _ & _), Hc as (Hmc & Hwc & Hwb & _). constructor; [done| |].
  - intros m. unfold scopes. rewrite Hrs, Hus, Hwb. apply Hb.
  - unfold calls_ok. rewrite Hwc, Hmc, Hwb. done.
Qed.

Lemma spent_on_app m l l' : spent_on m (l ++ l') = add_tokens (spent_on m l) (spent_on m l').
Proof.
  induction l as [|[m' t] l IH]; simpl.
  - destruct (spent_on m l'). unfold add_tokens. simpl. done.
  - destruct (decide (m' = m)); [|done]. rewrite IH. unfold add_tokens. simpl. f_equal; lia.
Qed.

Lemma last_handled_snoc l x : last_handled (l ++ [x]) = l ++ [(true, x.2)].
Proof.
  induction l as [|y l IH]; [by destruct x|]. simpl. rewrite IH. destruct y, l; done.
Qed.

Lemma handled_snoc l b t :
  handled_reports (l ++ [(b, t)]) = handled_reports l ++ (if b then [t] else []).
Proof. unfold handled_reports. rewrite omap_app. simpl. by destruct b. Qed.

Lemma cut_snoc l b t : cut_reports (l ++ [(b, t)]) = cut_reports l ++ (if b then [] else [t]).
Proof. unfold cut_reports. rewrite omap_app. simpl. by destruct b. Qed.

Section specs.
Context (env : Env) (llm : Llm) (cfg : config).

(** ** Turns that stream their text *)

(** The state of a turn: unless it narrates, what is spoken is its text. *)
Definition speaking (t : turn) (s : state) : Prop :=
  spoken s = (if t_narrating t then [] else mjoin (t_text_chunks t))
  /\ ((r_emitted (rt s)).1 = t_narrating t)
  /\ ((r_emitted (rt s)).2 = false -> t_narrating t = false -> spoken s = []).

(** An operation of a turn: what it establishes when it returns, and that it
    otherwise raises something from outside or a spent budget. *)
Definition turn_move {A} (s : state) (r : res exn A) (s' : state) (P : A -> Prop) : Prop :=
  sound cfg s' /\ progress s s' /\ r_turn_scope (rt s') = r_turn_scope (rt s)
  /\ match r with
     | Ok a => P a /\ (text_taken (wd s) -> text_taken (wd s'))
     | Err e => outside s e \/ budget_spent e
     end.

(** One that leaves the route and the bill alone as well. *)
Definition turn_frame (s : state) :=
  (r_turn_scope (rt s), r_route_state (rt s), w_billed (wd s), w_calls (wd s)).
Definition turn_step {A} (s : state) (r : res exn A) (s' : state) (P : A -> Prop) : Prop :=
  sound cfg s' /\ progress s s' /\ turn_frame s' = turn_frame s
  /\ match r with
     | Ok a => P a /\ (text_taken (wd s) -> text_taken (wd s'))
     | Err e => outside s e \/ budget_spent e
     end.

Lemma keeps_frame s s' : keeps s s' -> turn_frame s' = turn_frame s.
Proof.
  intros [_ Hf _ Hu Hc _ _ _]. unfold turn_frame.
  by destruct Hu as (-> & _), Hc as (_ & -> & -> & _), Hf as (_ & _ & _ & _ & -> & _).
Qed.

Lemma frame_scope s s' : turn_frame s' = turn_frame s -> r_turn_scope (rt s') = r_turn_scope (rt s).
Proof. by injection 1. Qed.

Lemma outside_progress s s' e :
  progress s s' -> r_turn_scope (rt s') = r_turn_scope (rt s) -> outside s' e -> outside s e.
Proof.
  intros [] Ht [->|[->|[[-> ?]|[-> ?]]]]; [by left|by right; left|right; right; left|right; right; right];
    (split; [done|]); intuition congruence.
Qed.

Lemma turn_step_trans {A B} s s1 s2 (a : A) (r : res exn B) P Q :
  turn_step s (Ok a) s1 P -> turn_step s1 r s2 Q -> turn_step s r s2 Q.
Proof.
  intros (_ & P1 & T1 & _ & Tk1) (S2 & P2 & T2 & R2). split_and!; [done|by etransitivity|congruence|].
  destruct r; [by destruct R2; auto|]. destruct R2 as [R2|R2]; [left|by right].
  eapply outside_progress; [done|by apply frame_scope|done].
Qed.

Lemma turn_move_trans {A B} s s1 s2 (a : A) (r : res exn B) P Q :
  turn_move s (Ok a) s1 P -> turn_move s1 r s2 Q -> turn_move s r s2 Q.
Proof.
  intros (_ & P1 & T1 & _ & Tk1) (S2 & P2 & T2 & R2). split_and!; [done|by etransitivity|congruence|].
  destruct r; [by destruct R2; auto|]. destruct R2 as [R2|R2]; [left|by right].
  by eapply outside_progress.
Qed.

Lemma step_move {A} s (r : res exn A) s' P : turn_step s r s' P -> turn_move s r s' P.
Proof. intros (? & ? & ?%frame_scope & ?). by split_and!. Qed.

Lemma turn_step_impl {A} s (r : res exn A) s' (P Q : A -> Prop) :
  turn_step s r s' P -> (forall a, r = Ok a -> P a -> Q a) -> turn_step s r s' Q.
Proof. intros (? & ? & ? & HR) HQ. split_and!; try done. destruct r; [|done]. destruct HR. auto. Qed.

Lemma turn_step_err {A B} s s1 s2 (a : A) e P (Q : B -> Prop) Q' :
  turn_step s (Ok a) s1 P -> turn_step (A:=B) s1 (Err e) s2 Q -> turn_step (A:=B) s (Err e) s2 Q'.
Proof. intros H1 H2. exact (turn_step_trans _ _ _ _ _ _ _ H1 H2). Qed.

Lemma steps_turn {A} s (r : res exn A) s' (P : A -> Prop) :
  sound cfg s -> steps s r s' -> (forall a, r = Ok a -> P a) -> turn_step s r s' P.
Proof.
  intros Hs (Hok & Hc & Hsafe) HP. split_and!; [by eapply keeps_sound; [apply Hc|..]
    |by apply calm_progress|apply keeps_frame, Hc|].
  destruct r; [split; [by apply HP|done]|by left].
Qed.

Lemma untouched_turn {A} s (r : res exn A) s' (P : A -> Prop) :
  sound cfg s -> untouched s s' -> (forall a, r = Ok a -> P a) ->
  (forall e, r = Err e -> outside s e \/ budget_spent e) -> turn_step s r s' P.
Proof.
  intros Hs Hu HP He. pose proof (untouched_calm _ _ Hu) as Hc.
  split_and!; [eapply keeps_sound; [apply Hc|by eapply untouched_ok; [|apply Hs]|done]
    |by apply calm_progress|apply keeps_frame, Hc|].
  destruct r; [|by apply He]. split; [by apply HP|]. destruct Hu as (_ & L & _). unfold text_taken. by rewrite L.
Qed.

Lemma untouched_spoken s s' : untouched s s' -> spoken s' = spoken s /\ r_emitted (rt s') = r_emitted (rt s).
Proof. intros (E & _ & K). unfold spoken, on_wire_text. rewrite E. split; [done|apply K]. Qed.

(** Marking the emitted flags changes nothing else. *)
Lemma mark_emitted v s : sound cfg s -> turn_step s (Ok tt) (on_runtime (set_emitted v) s) (fun _ => True).
Proof.
  intros [[[] ? ? ?] Hb Hc]. split_and!; [|constructor; simpl; intuition|done|done|done].
  constructor; [constructor; [by constructor|done..]|done|done].
Qed.

(** *** Waiting *)

Lemma checks_spec s :
  sound cfg s ->
  wp (s ← get; when (r_cancel_requested (rt s)) (raise CancelledError) ;; _check_answer_deadline env)
    (fun r s' => turn_step s r s' (fun _ => True) /\ spoken s' = spoken s
       /\ r_emitted (rt s') = r_emitted (rt s) /\ s_buffer (st s') = s_buffer (st s)) s.
Proof.
  intros Hs. apply wp_bind, wp_get. apply wp_bind. unfold when. destruct (r_cancel_requested (rt s)) eqn:Ec.
  - apply wp_raise. unfold turn_step. split_and!; [done|reflexivity|done|by left; right; left|done..].
  - apply wp_ret. eapply wp_mono; [apply check_answer_deadline_spec|]. intros r s' [Hu He].
    destruct (untouched_spoken _ _ Hu). split; [apply untouched_turn; auto|].
    split_and!; [done..|]. by destruct Hu as (-> & _).
Qed.

(** Waiting flushes what is spoken at most. *)
Lemma wait_event_spec timer s :
  sound cfg s ->
  wp (wait_event env timer) (fun r s' => turn_step s r s' (fun _ => True)
    /\ spoken s' = spoken s /\ r_emitted (rt s') = r_emitted (rt s)) s.
Proof.
  intros Hs. unfold wait_event. apply wp_bind, wp_get, wp_bind.
  assert (forall s1, turn_step s (Ok tt) s1 (fun _ => True) -> spoken s1 = spoken s ->
      r_emitted (rt s1) = r_emitted (rt s) ->
      wp (s ← get; when (r_cancel_requested (rt s)) (raise CancelledError) ;;
          _check_answer_deadline env ;; await env)
        (fun r s' => turn_step s r s' (fun _ => True) /\ spoken s' = spoken s
           /\ r_emitted (rt s') = r_emitted (rt s)) s1) as Hrest.
  { intros s1 H1 Hsp Hem. pose proof (checks_spec s1 (proj1 H1)) as Hc.
    apply wp_bind, wp_get. apply wp_bind. unfold wp, mbind, M_bind, bind, get in Hc. unfold when in *.
    destruct (r_cancel_requested (rt s1)); simpl in Hc |- *.
    - apply wp_raise. destruct Hc as (Ht & E1 & E2 & _). split_and!; [|done..]. by eapply turn_step_trans.
    - apply wp_ret. apply wp_bind. unfold wp at 1. destruct (_check_answer_deadline env s1) as [[[]|e] s2].
      + destruct Hc as (Ht & E1 & E2 & _). eapply wp_mono; [apply await_spec|]. intros r s3 [Hu He].
        destruct (untouched_spoken _ _ Hu) as [E3 E4]. split_and!; [|congruence..].
        eapply turn_step_trans; [done|]. eapply turn_step_trans; [done|].
        apply untouched_turn; [apply Ht|done|done|]. intros e E. left. right. by apply He.
      + destruct Hc as (Ht & E1 & E2 & _). split_and!; [|congruence..]. by eapply turn_step_trans. }
  assert (forall s1, turn_step s (Ok tt) s1 (fun _ => True) -> spoken s1 = spoken s ->
      r_emitted (rt s1) = r_emitted (rt s) ->
      wp (_flush_text env) (fun r s' => match r with
         | Ok _ => wp (s ← get; when (r_cancel_requested (rt s)) (raise CancelledError) ;;
              _check_answer_deadline env ;; await env)
            (fun r s' => turn_step s r s' (fun _ => True) /\ spoken s' = spoken s
               /\ r_emitted (rt s') = r_emitted (rt s)) s'
         | Err e => turn_step s (Err e : res exn unit) s' (fun _ => True) /\ spoken s' = spoken s
               /\ r_emitted (rt s') = r_emitted (rt s) end) s1) as Hflush.
  { intros s1 H1 Hsp Hem. eapply wp_mono; [apply flush_text_spec; apply H1|].
    intros r s2 (Hs2 & Hd & Hw). pose proof (drained_spoken s2 (proj1 Hs2) Hd) as Hsp2.
    assert (turn_step s1 r s2 (fun _ => True)) as H2 by (apply steps_turn; [apply H1|done|done]).
    assert (r_emitted (rt s2) = r_emitted (rt s)) as He2.
    { rewrite <-Hem. apply Hs2. }
    destruct r as [[]|e]; [apply Hrest; [by eapply turn_step_trans|congruence|done]|].
    split_and!; [by eapply turn_step_trans|congruence|done]. }
  assert (turn_step s (Ok tt) s (fun _ => True)) as H0 by (apply untouched_turn; [done|reflexivity|done|done]).
  destruct (flush_deadline _) as [d|]; [|by apply wp_ret, Hrest].
  destruct (_ <=? _); [by apply Hflush|].
  apply wp_bind. eapply wp_mono; [apply await_spec|]. intros r s1 [Hu He].
  destruct (untouched_spoken _ _ Hu) as [E1 E2].
  assert (turn_step s r s1 (fun _ => True)) as H1.
  { apply untouched_turn; [done|done|done|]. intros e E. left. right. by apply He. }
  destruct r as [[]|e]; [|done]. destruct timer; [by apply Hflush|].
  unfold await_suppressed. apply wp_catch. eapply wp_mono; [apply await_spec|].
  intros r s2 [Hu2 _]. destruct (untouched_spoken _ _ Hu2) as [E3 E4].
  assert (turn_step s (Ok tt) s2 (fun _ => True)) as H2.
  { eapply turn_step_trans; [exact H1|]. by apply untouched_turn; [apply H1|done|done|]. }
  destruct r; [|apply wp_ret]; apply Hrest; congruence || done.
Qed.

(** *** Events *)

Lemma narration_part k text : answer_part (narration_of k) text = [].
Proof. reflexivity. Qed.
Lemma answer_part_text text : answer_part _ANSWER_TEXT text = text.
Proof. reflexivity. Qed.

(** Narrating: the spoken answer stays, the retry window closes. *)
Lemma narrate_spec k text s :
  sound cfg s ->
  wp (_narrate_and_close_window env k text) (fun r s' => turn_step s r s' (fun _ =>
    spoken s' = spoken s /\ r_emitted (rt s') = (true, (r_emitted (rt s)).2))) s.
Proof.
  intros Hs. unfold _narrate_and_close_window. apply wp_bind, wp_modify. set (s1 := on_runtime _ s).
  pose proof (mark_emitted (true, (r_emitted (rt s)).2) s Hs) as H1.
  change (on_runtime (set_emitted (true, (r_emitted (rt s)).2)) s) with s1 in H1.
  destruct text as [|c text].
  - apply wp_ret. eapply turn_step_trans; [exact H1|]. apply untouched_turn; [apply H1|reflexivity|done|done].
  - eapply wp_mono; [apply stream_text_spec; [apply H1|by right]|]. intros r s2 [H2 Hsp].
    eapply turn_step_trans; [exact H1|]. apply steps_turn; [apply H1|done|].
    intros [] ->. split; [by rewrite Hsp, narration_part, app_nil_r|].
    destruct H2 as (_ & [K _ _ _] & _). by rewrite (k_emitted _ _ K).
Qed.

Lemma speak_spec text s :
  sound cfg s ->
  wp (_speak_answer env text) (fun r s' => turn_step s r s' (fun _ =>
    spoken s' = spoken s ++ text /\ r_emitted (rt s') = ((r_emitted (rt s)).1, true))) s.
Proof.
  intros Hs. unfold _speak_answer. apply wp_bind, wp_modify. set (s1 := on_runtime _ s).
  pose proof (mark_emitted ((r_emitted (rt s)).1, true) s Hs) as H1.
  change (on_runtime (set_emitted ((r_emitted (rt s)).1, true)) s) with s1 in H1.
  eapply wp_mono; [apply stream_text_spec; [apply H1|by left]|]. intros r s2 [H2 Hsp].
  eapply turn_step_trans; [exact H1|]. apply steps_turn; [apply H1|done|].
  intros [] ->. split; [by rewrite Hsp, answer_part_text|].
  destruct H2 as (_ & [K _ _ _] & _). by rewrite (k_emitted _ _ K).
Qed.

Lemma retract_spec s :
  sound cfg s ->
  wp (_retract_speculative_answer env) (fun r s' => turn_step s r s' (fun _ =>
    spoken s' = [] /\ r_emitted (rt s') = ((r_emitted (rt s)).1, false))) s.
Proof.
  intros Hs. unfold _retract_speculative_answer. apply wp_bind.
  eapply wp_mono; [apply retract_answer_spec, Hs|]. intros [[]|e] s1 [H1 Hr].
  - destruct Hr as [Hd Hw]. apply wp_modify. set (s2 := on_runtime _ s1).
    assert (turn_step s (Ok tt) s1 (fun _ => True)) as T1 by (by apply steps_turn).
    pose proof (mark_emitted ((r_emitted (rt s1)).1, false) s1 (proj1 T1)) as T2.
    change (on_runtime (set_emitted ((r_emitted (rt s1)).1, false)) s1) with s2 in T2.
    eapply turn_step_trans; [exact T1|]. destruct T2 as (? & ? & ? & ? & ?). split_and!; try done.
    + change (spoken s2) with (spoken s1). by rewrite drained_spoken; [|apply H1|].
    + simpl. destruct H1 as (_ & [K _ _ _] & _). by rewrite (k_emitted _ _ K).
  - by apply steps_turn.
Qed.

(** The state between two events of a turn. *)
Record live (sm : seams) (t : turn) (s : state) : Prop := {
  lv_sound : sound cfg s;
  lv_speaking : speaking t s;
  lv_narrates : sm_narrate sm = None -> t_narrating t = false
}.

Definition signals (ev : StreamEvent) : bool :=
  ev_tool_call_started ev || negb (bool_decide (ev_tool_calls ev = [])).

Lemma classify_spec sm ev t s :
  live sm t s ->
  wp (classify env sm ev t) (fun r s' => turn_step s r s' (fun t' => live sm t' s'
    /\ t_tool_calls t' = t_tool_calls t /\ t_text_chunks t' = t_text_chunks t
    /\ t_narrating t' = t_narrating t || (bool_decide (sm_narrate sm <> None) && signals ev))) s.
Proof.
  intros Hl. pose proof Hl as [Hs (Hsp & He1 & He2) Hn]. unfold classify.
  assert (turn_step s (Ok t) s (fun t' => live sm t' s /\ t_tool_calls t' = t_tool_calls t
    /\ t_text_chunks t' = t_text_chunks t /\ t_narrating t' = t_narrating t)) as Hsame.
  { apply untouched_turn; [done|reflexivity| |done]. intros ? [= <-]. done. }
  destruct (sm_narrate sm) as [k|] eqn:Ek.
  2:{ apply wp_ret. destruct Hsame as (? & ? & ? & (? & ? & ? & ?) & ?). split_and!; try done.
      rewrite bool_decide_eq_false_2 by (intros H'; by apply H'). by rewrite orb_false_r. }
  rewrite (bool_decide_eq_true_2 (Some k <> None)) by done. cbn [andb]. fold (signals ev).
  destruct (signals ev && negb (t_narrating t)) eqn:Ec.
  - apply andb_true_iff in Ec as [Es Et%negb_true_iff].
    apply wp_bind. eapply wp_mono; [by apply retract_spec|]. intros [[]|e] s1 T1; [|exact T1].
    pose proof T1 as (S1 & _ & _ & (Hsp1 & Hem1) & _). apply wp_bind.
    eapply wp_mono; [by apply narrate_spec|]. intros [[]|e] s2 T2.
    + apply wp_ret. pose proof T2 as (S2 & _ & _ & (Hsp2 & Hem2) & _).
      eapply turn_step_trans; [exact T1|]. eapply turn_step_trans; [exact T2|].
      apply untouched_turn; [done|reflexivity| |done]. intros ? [= <-].
      split_and!; [|done|done|by rewrite Es, orb_true_r]. constructor; [done| |by rewrite Ek].
      split_and!; simpl; [congruence|by rewrite Hem2|done].
    + eapply turn_step_trans; [exact T1|exact T2].
  - apply wp_ret. destruct Hsame as (? & ? & ? & (? & ? & ? & ?) & ?). split_and!; try done.
    destruct (t_narrating t) eqn:Et; [done|]. by rewrite andb_true_r in Ec; rewrite Ec.
Qed.

Lemma take_text_spec sm ev t s :
  sm_speak sm = true -> live sm t s ->
  wp (take_text env sm ev t) (fun r s' => turn_step s r s' (fun t' => live sm t' s'
    /\ t_tool_calls t' = t_tool_calls t /\ t_narrating t' = t_narrating t)) s.
Proof.
  intros Hspk Hl. pose proof Hl as [Hs (Hsp & He1 & He2) Hn]. unfold take_text. destruct (ev_text ev) as [|c text] eqn:Et.
  { apply wp_ret, untouched_turn; [done|reflexivity| |done]. intros ? [= <-]. done. }
  set (tx := c :: text). apply wp_bind. destruct (t_narrating t) eqn:En.
  - destruct (sm_narrate sm) as [k|] eqn:Ek; [|by specialize (Hn eq_refl)].
    eapply wp_mono; [by apply narrate_spec|]. intros [[]|e] s1 T1; [|exact T1].
    pose proof T1 as (S1 & _ & _ & (Hsp1 & Hem1) & _). apply wp_ret.
    eapply turn_step_trans; [exact T1|]. apply untouched_turn; [done|reflexivity| |done].
    intros ? [= <-]. split_and!; [|done|done]. constructor; [done| |by rewrite Ek].
    split_and!; simpl; [by rewrite Hsp1, Hsp|by rewrite Hem1|done].
  - assert (match sm_narrate sm, false with Some k, true => _narrate_and_close_window env k tx
            | _, _ => when (sm_speak sm) (_speak_answer env tx) end = _speak_answer env tx) as ->.
    { rewrite Hspk. by destruct (sm_narrate sm). }
    eapply wp_mono; [by apply speak_spec|]. intros [[]|e] s1 T1; [|exact T1].
    pose proof T1 as (S1 & _ & _ & (Hsp1 & Hem1) & _). apply wp_ret.
    eapply turn_step_trans; [exact T1|]. apply untouched_turn; [done|reflexivity| |done].
    intros ? [= <-]. split_and!; [|done|done]. constructor; [done| |by intros].
    split_and!; simpl; rewrite ?En.
    + rewrite Hsp1, Hsp, join_app. simpl. by rewrite app_nil_r.
    + by rewrite Hem1, He1.
    + rewrite Hem1. done.
Qed.

(** A report the call may still hand over, and one noted for the event in hand. *)
Definition room (s : state) : Prop := (length (cut_reports (w_billed (wd s))) < w_calls (wd s))%nat.
Definition noted (ev : StreamEvent) (s : state) : Prop :=
  match ev_usage ev with
  | Some u => exists l, w_billed (wd s) = l ++ [(false, (rs_model (r_route_state (rt s)), u))]
  | None => room s
  end.

Lemma room_frame s s' : turn_frame s' = turn_frame s -> room s -> room s'.
Proof. injection 1 as _ _ Hb Hc. unfold room. by rewrite Hb, Hc. Qed.

Lemma noted_frame ev s s' : turn_frame s' = turn_frame s -> noted ev s -> noted ev s'.
Proof.
  intros Hf. pose proof (room_frame _ _ Hf). injection Hf as _ Hr Hb _. unfold noted.
  destruct (ev_usage ev); [by rewrite Hb, Hr|done].
Qed.

(** [s'] is [s] for the client: only the bill moved. *)
Definition only_bill (s : state) (r : res exn unit) (s' : state) : Prop :=
  r = Ok tt /\ turn_move s (Ok tt) s' (fun _ => True)
  /\ st s' = st s /\ w_log (wd s') = w_log (wd s) /\ r_emitted (rt s') = r_emitted (rt s).

Lemma only_bill_refl s : sound cfg s -> only_bill s (Ok tt) s.
Proof. intros Hs. split; [done|]. split; [|done]. by apply step_move, untouched_turn. Qed.

Lemma reported_spec ev s :
  sound cfg s -> room s -> wp (reported ev) (fun r s' => only_bill s r s' /\ noted ev s') s.
Proof.
  intros Hs Hr. unfold reported, noted. destruct (ev_usage ev) as [u|].
  2:{ apply wp_ret. split; [by apply only_bill_refl|done]. }
  apply wp_modify. set (s' := on_world _ s). split; [|by eexists].
  destruct Hs as [[[] Hv Hf Hbf] Hb [Hn [Hc Hl]]]. unfold room in Hr. unfold only_bill, turn_move.
  split_and!; try done. constructor; [constructor; [by constructor|done..]| |].
  - intros m. simpl. rewrite handled_snoc, app_nil_r. apply Hb.
  - split_and!; [done|done|]. simpl. rewrite cut_snoc, length_app. simpl. lia.
Qed.

(** The end of an event: its report is in the scope of the route, and marked. *)
Lemma account_spec ev s :
  sound cfg s -> noted ev s ->
  wp (match ev_usage ev with Some u => account u | None => ret tt end) (fun r s1 => r = Ok tt
    /\ wp (handled_to_end ev) (fun r' s2 => only_bill s r' s2 /\ room s2) s1) s.
Proof.
  intros Hs. unfold noted, handled_to_end. destruct (ev_usage ev) as [u|].
  2:{ intros Hr. apply wp_ret. split; [done|]. apply wp_ret. by split; [apply only_bill_refl|]. }
  intros [l Hl]. unfold account. apply wp_modify. split; [done|]. apply wp_modify. set (s' := on_world _ _).
  destruct Hs as [[[] Hv Hf Hbf] Hb [Hn [Hc Hcut]]]. rewrite Hl, cut_snoc, length_app in Hcut. simpl in Hcut.
  assert (w_billed (wd s') = l ++ [(true, (rs_model (r_route_state (rt s)), u))]) as El.
  { simpl. by rewrite Hl, last_handled_snoc. }
  assert (room s') as Hroom by (unfold room; rewrite El, cut_snoc, app_nil_r; simpl; lia).
  split; [|done]. unfold only_bill, turn_move. split_and!; try done.
  constructor; [constructor; [by constructor|done..]| |].
  - intros m. specialize (Hb m). rewrite El, handled_snoc, spent_on_app. rewrite Hl, handled_snoc, app_nil_r in Hb.
    rewrite <-Hb. unfold scopes. simpl. rewrite !spent_on_app. simpl.
    destruct (decide (rs_model (r_route_state (rt s)) = m)); unfold add_tokens, tokens_of; simpl; f_equal; lia.
  - split_and!; [done|done|]. unfold room in Hroom. lia.
Qed.

Lemma live_only_bill sm t s r s' : only_bill s r s' -> live sm t s -> live sm t s'.
Proof.
  intros (_ & T & Est & _ & Eem) [_ (Hsp & He & He') Hn]. constructor; [apply T| |done].
  unfold speaking, spoken, on_wire_text in *. by rewrite Est, Eem.
Qed.

Lemma handle_event_spec sm ev t s :
  sm_speak sm = true -> live sm t s -> noted ev s ->
  wp (handle_event env sm ev t) (fun r s1 => match r with
    | Ok t' => wp (handled_to_end ev) (fun r' s' => r' = Ok tt /\ turn_move s (Ok t') s' (fun t' => live sm t' s'
        /\ t_tool_calls t' = match ev_tool_calls ev with [] => t_tool_calls t | l => l end
        /\ t_narrating t' = t_narrating t || (bool_decide (sm_narrate sm <> None) && signals ev)) /\ room s') s1
    | Err e => turn_move s r s1 (fun _ => True)
    end) s.
Proof.
  intros Hspk Hl Hno. unfold handle_event. apply wp_bind.
  eapply wp_mono; [by apply classify_spec|]. intros [t1|e] s1 T1; [|by apply step_move].
  pose proof T1 as (_ & _ & F1 & (L1 & Ec1 & _ & En1) & _). apply wp_bind.
  eapply wp_mono; [by apply take_text_spec|]. intros [t2|e] s2 T2.
  2:{ eapply turn_move_trans; [by apply step_move|by apply step_move]. }
  pose proof T2 as (_ & _ & F2 & (L2 & Ec2 & En2) & _). apply wp_bind.
  eapply wp_mono; [apply account_spec; [apply L2|by eapply noted_frame; [exact F2|]; eapply noted_frame; [exact F1|]]|].
  intros r s3 [-> H3]. apply wp_ret. eapply wp_mono; [exact H3|]. intros r' s4 [H4 Hroom].
  pose proof H4 as (-> & T4 & _). split_and!; [done| |done].
  assert (turn_move s (Ok t2) s4 (fun _ => True)) as (? & ? & ? & _ & ?).
  { apply step_move in T1, T2. eapply turn_move_trans; [exact T1|].
    destruct T2 as (? & ? & ? & _ & Tk2), T4 as (? & ? & ? & _ & Tk4).
    split_and!; [done|by etransitivity|congruence|done|auto]. }
  split_and!; try done.
  - destruct (live_only_bill _ _ _ _ _ H4 L2). by constructor.
  - simpl. rewrite Ec2, Ec1. by destruct (ev_tool_calls ev).
  - simpl. by rewrite En2, En1.
Qed.

(** Whether a list of events signals tool calls. *)
Definition any_signal (items : list (bool * StreamEvent)) : bool := existsb (fun p => signals p.2) items.
Definition any_calls (items : list (bool * StreamEvent)) : bool :=
  existsb (fun p => negb (bool_decide (ev_tool_calls p.2 = []))) items.

Lemma consume_spec sm items t s :
  sm_speak sm = true -> live sm t s -> room s ->
  wp (consume env sm items t) (fun r s' => turn_move s r s' (fun t' => live sm t' s'
    /\ (t_tool_calls t' = [] <-> t_tool_calls t = [] /\ any_calls items = false)
    /\ t_narrating t' = t_narrating t || (bool_decide (sm_narrate sm <> None) && any_signal items))) s.
Proof.
  intros Hspk. revert t s. induction items as [|[timer ev] items IH]; intros t s Hl Hroom; simpl.
  - apply wp_ret, step_move, untouched_turn; [apply Hl|reflexivity| |done]. intros ? [= <-].
    split_and!; [done|tauto|by rewrite andb_false_r, orb_false_r].
  - apply wp_bind. eapply wp_mono; [apply wait_event_spec, Hl|]. intros [[]|e] s1 (T1 & E1 & E1');
      [|by apply (step_move _ _ _ _ T1)].
    apply wp_bind. eapply wp_mono; [apply reported_spec; [apply T1|eapply room_frame; [apply T1|done]]|].
    intros r sr [(-> & Tr & Er & _ & Er') Hno].
    assert (turn_move s (Ok tt) sr (fun _ => True)) as T0r by (eapply turn_move_trans; [by apply step_move, T1|exact Tr]).
    apply wp_bind. eapply wp_mono; [apply checks_spec, Tr|]. intros [[]|e] s2 (T2 & E2 & E2' & _);
      [|by eapply turn_move_trans; [exact T0r|apply (step_move _ _ _ _ T2)]].
    assert (live sm t s2) as L2.
    { destruct Hl as [_ (Hsp & He1 & He2) Hn]. constructor; [apply T2| |done].
      unfold speaking. unfold spoken, on_wire_text in *. rewrite E2, Er, E1, E2', Er', E1'. done. }
    assert (turn_move s (Ok tt) s2 (fun _ => True)) as T02 by (eapply turn_move_trans; [exact T0r|by apply step_move]).
    apply wp_bind. eapply wp_mono; [apply handle_event_spec; [done|done|by eapply noted_frame; [apply T2|]]|].
    intros [t3|e] s3 H3; [|by eapply turn_move_trans].
    apply wp_bind. eapply wp_mono; [exact H3|]. intros r s3' (-> & T3 & Hroom3).
    pose proof T3 as (_ & _ & _ & (L3 & Ec & En) & _).
    eapply wp_mono; [by apply IH|]. intros r s4 T4.
    assert (turn_move s r s4 (fun t' => live sm t' s4
      /\ (t_tool_calls t' = [] <-> t_tool_calls t3 = [] /\ any_calls items = false)
      /\ t_narrating t' = t_narrating t3 || (bool_decide (sm_narrate sm <> None) && any_signal items))) as T.
    { eapply turn_move_trans; [exact T02|]. eapply turn_move_trans; [exact T3|exact T4]. }
    destruct T as (? & ? & ? & HT). split_and!; try done. destruct r as [t4|]; [|done].
    destruct HT as ((? & Hcalls & Hnarr) & ?). split_and!; try done.
    + rewrite Hcalls, Ec. unfold any_calls. simpl. destruct (ev_tool_calls ev); simpl; [tauto|].
      split; [intros [? ?]; discriminate|intros [_ ?]; discriminate].
    + rewrite Hnarr, En. unfold any_signal. simpl. by rewrite andb_orb_distrib_r, orb_assoc.
Qed.

(** ** Whole turns *)

Definition may_raise (s : state) (e : exn) : Prop := outside s e \/ is_app_error e = true.
Definition turn_out {A} (s : state) (r : res exn A) (s' : state) (P : A -> Prop) : Prop :=
  sound cfg s' /\ progress s s' /\ r_turn_scope (rt s') = r_turn_scope (rt s)
  /\ match r with
     | Ok a => P a /\ (text_taken (wd s) -> text_taken (wd s'))
     | Err e => may_raise s e
     end.

Lemma budget_app e : budget_spent e -> is_app_error e = true.
Proof. by intros [d ->]. Qed.

Lemma move_out {A} s (r : res exn A) s' P : turn_move s r s' P -> turn_out s r s' P.
Proof.
  intros (? & ? & ? & HR). split_and!; try done. destruct r; [done|].
  destruct HR as [?|?%budget_app]; [by left|by right].
Qed.

Lemma step_out {A} s (r : res exn A) s' P : turn_step s r s' P -> turn_out s r s' P.
Proof. intros HT. by apply move_out, step_move. Qed.

Lemma turn_out_trans {A B} s s1 s2 (a : A) (r : res exn B) P Q :
  turn_out s (Ok a) s1 P -> turn_out s1 r s2 Q -> turn_out s r s2 Q.
Proof.
  intros (_ & P1 & T1 & _ & Tk1) (S2 & P2 & T2 & R2). split_and!; [done|by etransitivity|congruence|].
  destruct r; [by destruct R2; auto|]. destruct R2 as [R2|R2]; [left|by right].
  by eapply outside_progress.
Qed.

Lemma turn_out_impl {A} s (r : res exn A) s' (P Q : A -> Prop) :
  turn_out s r s' P -> (forall a, r = Ok a -> P a -> Q a) -> turn_out s r s' Q.
Proof. intros (? & ? & ? & HR) HQ. split_and!; try done. destruct r; [|done]. destruct HR. auto. Qed.

(** What a completed turn leaves: its text is the spoken answer, unless it called
    tools, and then nothing is. *)
Definition turn_result (sm : seams) (t : turn) (s : state) : Prop :=
  (sm_narrate sm <> None -> t_tool_calls t <> [] -> spoken s = [])
  /\ (sm_narrate sm = None \/ t_tool_calls t = [] -> spoken s = mjoin (t_text_chunks t)).

(** A silent start: nothing is spoken, the retry window is open. *)
Definition silent (s : state) : Prop := spoken s = [] /\ r_emitted (rt s) = (false, false).

Lemma any_signal_calls n c :
  Classified llm -> (sc_end (stream_tools llm n c)).2 = None ->
  any_calls (sc_items (stream_tools llm n c)) = any_signal (sc_items (stream_tools llm n c)).
Proof.
  intros Hcl Hend. apply eq_true_iff_eq. unfold any_calls, any_signal. rewrite !existsb_exists. split.
  - intros (p & Hp & Hc). exists p. split; [done|]. unfold signals. by rewrite Hc, orb_true_r.
  - intros (p & Hp & Hc). unfold signals in Hc. apply orb_true_iff in Hc as [Hst|Hc]; [|by exists p].
    destruct (signalled_calls n c Hend p) as (q & Hq & Hne); [by apply list_elem_of_In|done|].
    exists q. split; [by apply list_elem_of_In|]. by apply negb_true_iff, bool_decide_eq_false.
Qed.

Lemma count_call_ok s :
  sound cfg s -> Z.of_nat (w_calls (wd s)) < r_model_calls (rt s) ->
  turn_move s (Ok tt) (on_world count_call s) (fun _ => True) /\ room (on_world count_call s).
Proof.
  intros [[[] ? ? ?] Hb [Hn [Hc Hl]]] Hlt. split; [|unfold room; simpl; lia]. unfold turn_move.
  split_and!; [|constructor; simpl; intuition; lia|done|done|done].
  constructor; [constructor; [by constructor|done..]|done|]. split_and!; simpl; [lia|done|lia].
Qed.

(** How a turn ends: it completes; the provider fails between two events; or
    something else is raised. *)
Definition no_fault (e : exn) : Prop := forall c b h, e <> LlmProviderError c b h.
Definition one_turn_outcome (sm : seams) (s : state) (r : res exn turn) (s' : state) : Prop :=
  (exists t, r = Ok t /\ turn_out s r s' (fun t => turn_result sm t s'))
  \/ (exists c b h t, r = Err (LlmProviderError c b h) /\ turn_out s (Ok t) s' (fun t => live sm t s'))
  \/ (exists e, r = Err e /\ no_fault e /\ turn_out s r s' (fun _ => False)).

Lemma broke_outcome sm s e s' P :
  turn_move s (Err e : res exn turn) s' P -> one_turn_outcome sm s (Err e) s'.
Proof.
  intros HT. right; right. exists e. split_and!; [done| |exact (move_out _ _ _ _ HT)].
  destruct HT as (_ & _ & _ & [[->|[->|[[-> _]|[-> _]]]]|[d ->]]); done.
Qed.

Lemma one_turn_spec sm call s :
  Classified llm -> sm_speak sm = true -> sound cfg s -> silent s ->
  Z.of_nat (w_calls (wd s)) < r_model_calls (rt s) ->
  wp (_stream_one_turn env llm sm call) (one_turn_outcome sm s) s.
Proof.
  intros Hcl Hspk Hs [Hsp Hem] Hlt. unfold _stream_one_turn. apply wp_bind, wp_get.
  apply wp_bind, wp_modify. set (s0 := on_world count_call s).
  destruct (count_call_ok s Hs Hlt) as [T0 Hroom]. fold s0 in T0, Hroom.
  set (sc := stream_tools llm (w_calls (wd s)) call). apply wp_bind.
  eapply wp_mono; [apply (consume_spec sm (sc_items sc) new_turn s0); [done| |done]|].
  { constructor; [apply T0| |done]. split_and!; [done|simpl; by rewrite Hem|done]. }
  intros [t|e] s1 T1; [|by eapply broke_outcome, turn_move_trans].
  pose proof T1 as (_ & _ & _ & (L1 & Ec & En) & _). apply wp_bind.
  eapply wp_mono; [apply wait_event_spec, L1|]. intros [[]|e] s2 (T2 & E2 & E2').
  2:{ eapply (broke_outcome _ _ _ _ (fun _ => True)), turn_move_trans; [exact T0|].
      eapply turn_move_trans; [exact T1|apply (step_move _ _ _ _ T2)]. }
  assert (turn_move s (Ok tt) s2 (fun _ => True)) as T02.
  { eapply turn_move_trans; [exact T0|]. eapply turn_move_trans; [exact T1|by apply step_move]. }
  assert (live sm t s2) as L2.
  { destruct L1 as [_ (H1 & H2 & H3) Hn]. constructor; [apply T02| |done].
    unfold speaking. by rewrite E2, E2'. }
  destruct (sc_end sc).2 as [e|] eqn:Eend.
  - apply wp_raise. pose proof (faults (w_calls (wd s)) call) as Hf. fold sc in Hf. rewrite Eend in Hf.
    destruct (move_out _ _ _ _ T02) as (? & ? & ? & ? & ?). destruct e; try done.
    + right; right. eexists. split_and!; [done|done|]. split_and!; [done..|by right].
    + right; left. eexists _, _, _, t. split_and!; done.
    + right; right. eexists. split_and!; [done|done|]. split_and!; [done..|by left; left].
  - apply wp_bind. eapply wp_mono; [apply checks_spec, T02|]. intros [[]|e] s3 (T3 & E3 & E3' & _).
    2:{ eapply (broke_outcome _ _ _ _ (fun _ => True)), turn_move_trans; [exact T02|apply (step_move _ _ _ _ T3)]. }
    apply wp_ret. left. exists t. split; [done|]. apply move_out. eapply turn_move_trans; [exact T02|].
    eapply turn_move_trans; [by apply step_move, T3|]. apply step_move, untouched_turn; [apply T3|reflexivity| |done]. intros ? [= <-].
    destruct L2 as [_ (H1 & _) Hn]. unfold turn_result. rewrite E3, H1.
    assert (any_calls (sc_items sc) = any_signal (sc_items sc)) as Hany by (by apply any_signal_calls).
    simpl in En. split.
    + intros Hnarr Hne. destruct (any_calls (sc_items sc)) eqn:Ea.
      * rewrite En, <-Hany, bool_decide_eq_true_2; done.
      * destruct Hne. by apply Ec.
    + intros [Hnone|Hnil].
      * by rewrite (Hn Hnone).
      * apply Ec in Hnil as [_ Ha]. rewrite En, <-Hany, Ha. by rewrite andb_false_r.
Qed.

(** ** Attempts *)

Lemma untouched_silent s s' : untouched s s' -> silent s -> silent s'.
Proof. intros Hu [? ?]. destruct (untouched_spoken _ _ Hu) as [E1 E2]. unfold silent. by rewrite E1, E2. Qed.

Lemma untouched_out {A} s (r : res exn A) s' (P : A -> Prop) :
  sound cfg s -> untouched s s' -> (forall a, r = Ok a -> P a) ->
  (forall e, r = Err e -> outside s e \/ budget_spent e) -> turn_out s r s' P.
Proof. intros. by apply step_out, untouched_turn. Qed.

(** [s'] is [s] for the stream: nothing was given to it. *)
Definition quietly {A} (s : state) (r : res exn A) (s' : state) : Prop :=
  turn_out s r s' (fun _ => True)
  /\ st s' = st s /\ w_log (wd s') = w_log (wd s) /\ r_emitted (rt s') = r_emitted (rt s).

Lemma quietly_trans {A B} s s1 s2 (a : A) (r : res exn B) :
  quietly s (Ok a) s1 -> quietly s1 r s2 -> quietly s r s2.
Proof.
  intros (T1 & E1 & L1 & M1) (T2 & E2 & L2 & M2). split; [by eapply turn_out_trans|]. split_and!; congruence.
Qed.

Lemma quietly_ret {A} (a : A) s : sound cfg s -> quietly s (Ok a) s.
Proof. intros. split; [|done]. by apply untouched_out; [|reflexivity|..]. Qed.

Lemma untouched_quietly {A} s (r : res exn A) s' :
  sound cfg s -> untouched s s' -> (forall e, r = Err e -> outside s e \/ budget_spent e) -> quietly s r s'.
Proof.
  intros Hs Hu He. split; [by apply untouched_out|]. destruct (untouched_spoken _ _ Hu) as [_ E].
  by destruct Hu as (? & ? & _).
Qed.

Lemma same_silent s s' : st s' = st s -> r_emitted (rt s') = r_emitted (rt s) -> silent s -> silent s'.
Proof. intros E1 E2 [? ?]. unfold silent, spoken, on_wire_text in *. by rewrite E1, E2. Qed.

(** What precedes an attempt: the wait, the check for a Stop, the claim. *)
Lemma before_attempt_spec i delay s :
  sound cfg s ->
  wp (when (negb (Nat.eqb i 0)) (_retry_sleep env delay) ;; _check_cancelled env ;; _claim_model_call env cfg)
    (fun r s' => quietly s r s'
       /\ (r = Ok tt -> Z.of_nat (w_calls (wd s')) < r_model_calls (rt s'))) s.
Proof.
  intros Hs. apply wp_bind.
  assert (forall s1, untouched s s1 -> wp (_check_cancelled env ;; _claim_model_call env cfg)
    (fun r s' => quietly s r s' /\ (r = Ok tt -> Z.of_nat (w_calls (wd s')) < r_model_calls (rt s'))) s1) as Hrest.
  { intros s1 H1. apply wp_bind. eapply wp_mono; [apply check_cancelled_spec|]. intros [[]|e] s2 [H2 He2].
    2:{ split; [|done]. apply untouched_quietly; [done|by etransitivity|]. intros e' [= <-].
        destruct (He2 e eq_refl) as [?|?]; [|by right]. left. eapply outside_keeps; [|done]. apply H1. }
    assert (untouched s s2) as H02 by (by etransitivity).
    eapply wp_mono; [apply claim_model_call_spec|]. intros [[]|e] s3.
    - intros (s4 & H4 & -> & Hcap). assert (untouched s s4) as H04 by (by etransitivity).
      destruct (untouched_quietly s (Ok tt) s4 Hs H04) as ((S4 & P4 & Sc4 & _ & Tk4) & E4 & L4 & M4); [done|].
      destruct S4 as [[[] ? ? ?] Hb4 [Hn4 [Hc4 Hl4]]]. split; [|simpl; intros _; lia].
      split; [|done]. unfold turn_out. split_and!; [|etransitivity; [exact P4|]; constructor; simpl; intuition|done..].
      constructor; [constructor; [by constructor|done..]|done|]. split; [simpl; lia|]. split; [|done].
      intros cap Ecap Hpos. simpl. specialize (Hcap cap Ecap). lia.
    - intros [H3 He]. split; [|done]. apply untouched_quietly; [done|by etransitivity|]. intros e' [= <-].
      destruct He as [->|?]; [left; right; by left|by right]. }
  unfold when, _retry_sleep. destruct (negb _).
  - eapply wp_mono; [apply await_spec|]. intros [[]|e] s1 [H1 He]; [by apply Hrest|].
    split; [|done]. apply untouched_quietly; [done|done|]. intros e' E. left. right. by apply He.
  - apply wp_ret, Hrest. reflexivity.
Qed.

Lemma attempts_spec sm call n i last s :
  Classified llm -> sm_speak sm = true -> sound cfg s -> silent s ->
  wp (attempts env llm cfg sm call n i last) (fun r s' => turn_out s r s' (fun x =>
    match x with
    | inl t => turn_result sm t s'
    | inr f => silent s' /\ (f = None -> last = None)
    end)) s.
Proof.
  intros Hcl Hspk. revert i last s. induction n as [|n IH]; intros i last s Hs Hq; simpl.
  { apply wp_ret, untouched_out; [done|reflexivity| |done]. by intros ? [= <-]. }
  pose proof (before_attempt_spec i (retry_delay i (last ≫= snd)) s Hs) as Hbefore.
  apply wp_bind. unfold wp at 1. unfold wp, mbind, M_bind, bind in Hbefore.
  destruct (when _ _ s) as [[[]|e] s1]; [|apply Hbefore].
  apply wp_bind. unfold wp at 1. destruct (_check_cancelled env s1) as [[[]|e] s2]; [|apply Hbefore].
  apply wp_bind. unfold wp at 1. destruct (_claim_model_call env cfg s2) as [[[]|e] s3]; [|apply Hbefore].
  destruct Hbefore as [((S3 & P3 & Sc3 & _ & Tk3) & E3 & L3 & M3) Hlt3]. specialize (Hlt3 eq_refl).
  pose proof (same_silent _ _ E3 M3 Hq) as Hq3.
  assert (turn_out s (Ok tt) s3 (fun _ => True)) as T3 by done.
  apply wp_bind, wp_get, wp_bind, wp_catch, wp_bind.
  eapply wp_mono; [by apply one_turn_spec|].
  intros r s4 [(t & -> & T4)|[(code & retryable & hint & t & -> & T4)|(e & -> & Hno & T4)]].
  - apply wp_ret, wp_ret. eapply turn_out_trans; [exact T3|]. destruct T4 as (? & ? & ? & ? & ?). by split_and!.
  - apply wp_bind, wp_get. pose proof T4 as (S4 & P4 & Sc4 & [L4 (Hsp4 & He4 & He4') Hn4] & Tk4).
    assert (turn_out s (Ok tt) s4 (fun _ => True)) as T04 by (eapply turn_out_trans; [exact T3|]; by split_and!).
    destruct (negb retryable || (r_emitted (rt s4)).1) eqn:Ec.
    { apply wp_raise. destruct T04 as (? & ? & ? & _). split_and!; [done..|by right]. }
    apply orb_false_iff in Ec as [_ Eem]. apply wp_bind.
    assert (forall s5, turn_out s4 (Ok tt) s5 (fun _ => silent s5) ->
      wp (attempts env llm cfg sm call n (S i) (Some (code, hint))) (fun r s' => turn_out s r s' (fun x =>
        match x with inl t => turn_result sm t s' | inr f => silent s' /\ (f = None -> last = None) end)) s5) as Hagain.
    { intros s5 T5. eapply wp_mono; [apply (IH (S i) (Some (code, hint)) s5); apply T5|]. intros r s6 T6.
      eapply turn_out_impl; [eapply turn_out_trans; [exact T04|]; eapply turn_out_trans; [exact T5|exact T6]|].
      intros [t'|f] _; [done|]. intros [? Hf]. split; [done|]. intros E. by discriminate (Hf E). }
    unfold when. destruct (r_emitted (rt s4)).2 eqn:Eem2.
    + eapply wp_mono; [by apply retract_spec|]. intros [[]|x] s5 T5.
      * apply wp_ret, Hagain, step_out. eapply turn_step_impl; [exact T5|].
        intros [] _ [Hsp5 Hem5]. split; [done|]. by rewrite Hem5, Eem.
      * apply step_out in T5. eapply turn_out_trans; [exact T04|exact T5].
    + apply wp_ret, wp_ret, Hagain, step_out, untouched_turn; [done|reflexivity| |done].
      intros _ _. split; [apply He4'; congruence|]. by apply injective_projections.
  - assert (turn_out s (Err e : res exn (turn + option (provider_fault * option Z))) s4 (fun x =>
      match x with inl t => turn_result sm t s4 | inr f => silent s4 /\ (f = None -> last = None) end)) as HT
      by (eapply turn_out_trans; [exact T3|exact T4]).
    destruct e; try by apply wp_raise. by destruct (Hno fault retryable retry_after).
Qed.

(** ** Failover *)

(** [s'] is [s] but for the route: the stream, the log, what was spent and the
    counters are the same. *)
Record rerouted (s s' : state) : Prop := {
  rr_progress : progress s s';
  rr_stream : st s' = st s;
  rr_log : w_log (wd s') = w_log (wd s);
  rr_spent : rs_spent (r_route_state (rt s')) = rs_spent (r_route_state (rt s));
  rr_usage : r_usage (rt s') = r_usage (rt s);
  rr_calls : r_model_calls (rt s') = r_model_calls (rt s) /\ w_calls (wd s') = w_calls (wd s)
    /\ w_billed (wd s') = w_billed (wd s);
  rr_emitted : r_emitted (rt s') = r_emitted (rt s);
  rr_scope : r_turn_scope (rt s') = r_turn_scope (rt s);
  rr_fallbacks : (length (rs_fallbacks (r_route_state (rt s'))) <= length (rs_fallbacks (r_route_state (rt s))))%nat
}.
Global Instance rerouted_preorder : PreOrder rerouted.
Proof.
  split; [intros s; constructor; try tauto; reflexivity|].
  intros s1 s2 s3 [] []. constructor; try lia; try (etransitivity; eassumption); intuition congruence.
Qed.

Lemma untouched_rerouted s s' : untouched s s' -> rerouted s s'.
Proof.
  intros Hu. pose proof (calm_progress _ _ (untouched_calm _ _ Hu)). destruct Hu as (? & ? & [? ? ? Hus Hc ? ? ?]).
  destruct Hus as (Hrs & ? & _). constructor; try done; rewrite ?Hrs; intuition.
Qed.

(** A route change keeps soundness while the model is the same. *)
Lemma rerouted_sound s s' :
  rerouted s s' -> rs_model (r_route_state (rt s')) = rs_model (r_route_state (rt s)) ->
  sound cfg s -> sound cfg s'.
Proof.
  intros [_ E L Hsp Hu (Hm & Hc & Hb) _ _ _] Hmod [[[] ? ? ?] Hbil [? ?]]. constructor.
  - constructor; [constructor|..]; unfold text_taken, wire, sent, on_wire_text in *; rewrite ?E, ?L; auto.
  - intros m. unfold scopes. rewrite Hsp, Hu, Hmod, Hb. apply Hbil.
  - unfold calls_ok. by rewrite Hm, Hc, Hb.
Qed.

Lemma resolve_spec m s :
  Classified llm ->
  wp (_resolve_model_route env llm m) (fun r s' => untouched s s'
    /\ forall e, r = Err e -> may_raise s e) s.
Proof.
  intros Hcl. unfold _resolve_model_route. pose proof (await_spec env s) as Ha.
  unfold wp in *. destruct (await env s) as [[[]|e] s1].
  - destruct Ha as [? _]. split; [done|]. pose proof (refusals (w_tick (wd s)) m) as Hr.
    intros e E. rewrite E in Hr. destruct e; try done; [by right|by right|by left; left].
  - destruct Ha as [? He]. split; [done|]. intros e' [= <-]. left; right. by apply He.
Qed.

(** [advance]: the next route that resolves, or none; the list of fallbacks only
    shrinks. *)
Definition advanced_to (s : state) (r : res exn bool) (s' : state) : Prop :=
  rerouted s s' /\
  match r with
  | Ok true => (length (rs_fallbacks (r_route_state (rt s'))) < length (rs_fallbacks (r_route_state (rt s))))%nat
  | Ok false => rs_model (r_route_state (rt s')) = rs_model (r_route_state (rt s))
  | Err e => may_raise s e /\ rs_model (r_route_state (rt s')) = rs_model (r_route_state (rt s))
  end.

Lemma may_raise_rerouted s s' e : rerouted s s' -> may_raise s' e -> may_raise s e.
Proof. intros [] [?|?]; [left|by right]. by eapply outside_progress. Qed.

Lemma advanced_trans s s1 r s2 :
  rerouted s s1 -> rs_model (r_route_state (rt s1)) = rs_model (r_route_state (rt s)) ->
  advanced_to s1 r s2 -> advanced_to s r s2.
Proof.
  intros H1 Hm [H2 Hr]. pose proof (rr_fallbacks _ _ H1). split; [by etransitivity|].
  destruct r as [[]|e]; [lia|congruence|]. destruct Hr as [? ?].
  split; [by eapply may_raise_rerouted|congruence].
Qed.

Lemma drop_fallback rest s :
  (length rest <= length (rs_fallbacks (r_route_state (rt s))))%nat ->
  rerouted s (on_runtime (fun x => set_route (set_fallbacks rest (r_route_state x)) (r_usage x) x) s).
Proof. intros. constructor; try done; simpl; try tauto; constructor; simpl; intuition. Qed.

Lemma advance_from_spec l s :
  Classified llm -> rs_fallbacks (r_route_state (rt s)) = l ->
  wp (advance_from env llm l) (advanced_to s) s.
Proof.
  intros Hcl. revert s. induction l as [|candidate rest IH]; intros s Hl; simpl.
  { apply wp_ret. split; [reflexivity|done]. }
  apply wp_bind, wp_modify. set (s1 := on_runtime _ s).
  assert (rerouted s s1) as R1 by (apply drop_fallback; rewrite Hl; simpl; lia).
  assert (forall s2, untouched s1 s2 -> wp (advance_from env llm rest) (advanced_to s) s2) as Hnext.
  { intros s2 Hu. pose proof (untouched_rerouted _ _ Hu) as R2.
    assert (r_route_state (rt s2) = r_route_state (rt s1)) as Ers by apply (k_usage _ _ (proj2 (proj2 Hu))).
    eapply wp_mono; [apply IH; by rewrite Ers|]. intros r s3 H3.
    eapply advanced_trans; [by etransitivity| |exact H3]. by rewrite Ers. }
  apply wp_bind, wp_catch, wp_bind. eapply wp_mono; [by apply resolve_spec|].
  intros [route|e] s2 [Hu He]; pose proof (untouched_rerouted _ _ Hu) as R2;
    assert (r_route_state (rt s2) = r_route_state (rt s1)) as Ers by apply (k_usage _ _ (proj2 (proj2 Hu))).
  - apply wp_ret. destruct (_ && _); [by apply Hnext|]. apply wp_bind, wp_modify, wp_ret.
    split; [|simpl; rewrite Hl; simpl; lia].
    etransitivity; [exact R1|]. etransitivity; [exact R2|]. constructor; simpl; try done; try tauto;
      [constructor; simpl; rewrite ?Ers; simpl; intuition; lia|rewrite Ers; simpl; lia].
  - destruct (is_app_error e) eqn:Ee; [apply wp_ret; by apply Hnext|]. apply wp_raise.
    split; [by etransitivity|]. split; [|by rewrite Ers].
    eapply may_raise_rerouted; [exact R1|]. by apply He.
Qed.

(** Failing over closes the scope of the route that died. *)
Lemma failover_sound s s' dying :
  sound cfg s -> rerouted s s' -> rs_model (r_route_state (rt s)) = dying ->
  wp (close_scope dying) (fun r s'' => r = Ok tt /\ sound cfg s'' /\ progress s s''
    /\ r_turn_scope (rt s'') = r_turn_scope (rt s) /\ st s'' = st s /\ w_log (wd s'') = w_log (wd s)
    /\ r_emitted (rt s'') = r_emitted (rt s)
    /\ rs_fallbacks (r_route_state (rt s'')) = rs_fallbacks (r_route_state (rt s'))) s'.
Proof.
  intros [[[] ? ? ?] Hbil [? ?]] [P E L Hsp Hu (Hm & Hc & Hb) Hem Hsc _] Hd.
  unfold close_scope, wp, modify. set (s'' := on_runtime _ s').
  split_and!; try done.
  - constructor.
    + change (stream_ok s''). constructor; [constructor|..];
        unfold text_taken, wire, sent, on_wire_text in *; simpl; rewrite ?E, ?L; auto.
    + intros m. specialize (Hbil m). unfold scopes in *. simpl. rewrite Hb, <-Hbil, Hsp, Hu, Hd, fmap_app.
      rewrite !spent_on_app. simpl. unfold tokens_of at 3. simpl.
      unfold add_tokens. destruct (decide (rs_model _ = m)), (decide (dying = m)); simpl; f_equal; lia.
    + unfold calls_ok. simpl. by rewrite Hm, Hc, Hb.
  - etransitivity; [exact P|]. constructor; simpl; intuition.
Qed.

(** ** The resilient turn *)

Section resilient.
Context (Hcl : Classified llm).
Context (refit : pystr -> res exn (list ChatMessage)).
Context (Hrefit : forall m e, refit m = Err e -> is_app_error e = true \/ e = OtherError).

Lemma run_attempts_spec fuel sm allow_failover tools tool_choice max_tokens messages s :
  sm_speak sm = true -> sound cfg s -> silent s ->
  (length (rs_fallbacks (r_route_state (rt s))) < fuel)%nat ->
  wp (run_attempts env llm cfg fuel sm refit allow_failover tools tool_choice max_tokens messages)
    (fun r s' => turn_out s r s' (fun t => turn_result sm t s')) s.
Proof.
  intros Hspk. revert messages s. induction fuel as [|fuel IH]; intros messages s Hs Hq Hlen; [lia|]. simpl.
  apply wp_bind. eapply wp_mono; [by apply attempts_spec|]. intros [[t|f]|e] s1 T1; [| |exact T1].
  { apply wp_ret. destruct T1 as (? & ? & ? & ? & ?). by split_and!. }
  pose proof T1 as (S1 & P1 & Sc1 & [Hq1 _] & Tk1).
  assert (forall e s2, progress s1 s2 -> r_turn_scope (rt s2) = r_turn_scope (rt s1) -> sound cfg s2 ->
     may_raise s1 e -> turn_out s (Err e : res exn turn) s2 (fun t => turn_result sm t s2)) as Hraise.
  { intros e s2 P2 Sc2 S2 He. eapply turn_out_trans; [exact T1|]. by split_and!. }
  destruct f as [[code hint]|]; [|apply wp_raise, Hraise; [reflexivity|done|done|by left; left]].
  apply wp_bind, wp_get. destruct (negb allow_failover);
    [apply wp_raise, Hraise; [reflexivity|done|done|by right]|].
  apply wp_bind. unfold _advance_to_fallback. apply wp_bind, wp_get.
  eapply wp_mono; [by apply advance_from_spec|]. intros [[]|e] s2 [R2 Hr]; simpl.
  - apply wp_bind. eapply wp_mono; [by apply (failover_sound s1)|].
    intros r s3 (-> & S3 & P3 & Sc3 & E3 & L3 & Em3 & F3). apply wp_bind, wp_get.
    assert (turn_out s (Ok tt) s3 (fun _ => True)) as T3.
    { eapply turn_out_trans; [exact T1|]. split_and!; try done. unfold text_taken. by rewrite L3. }
    apply wp_bind. unfold wp at 1. destruct (refit _) as [messages'|e] eqn:Er.
    + eapply wp_mono; [apply IH; [done|by eapply same_silent|]|].
      * rewrite F3.
        pose proof (p_fallbacks _ _ P1). lia.
      * intros r s4 T4. eapply turn_out_trans; [exact T3|exact T4].
    + apply Hraise; [done|done|done|]. destruct (Hrefit _ _ Er) as [?| ->]; [by right|by left; left].
  - apply wp_raise, Hraise; [apply R2|apply R2| |by right]. by eapply rerouted_sound.
  - destruct Hr as [He Hm]. apply Hraise; [apply R2|apply R2| |done]. by eapply rerouted_sound.
Qed.

(** Entering and leaving the scope of the deadline. *)
Lemma turn_scope_ok b s : sound cfg s -> sound cfg (turn_scope b s) /\ progress s (turn_scope b s).
Proof.
  intros [[[] ? ? ?] Hb [? ?]]. split; [|constructor; simpl; intuition].
  constructor; [constructor; [by constructor|done..]|done|done].
Qed.

(** An expired turn becomes the typed error of an unavailable dependency. *)
Lemma turn_scope_spec (body : M turn) (P : turn -> state -> Prop) s :
  r_turn_scope (rt s) = false -> sound cfg s ->
  (forall t s', P t s' -> P t (turn_scope false s')) ->
  (forall b, wp body (fun r s' => turn_out (turn_scope b s) r s' (fun t => P t s')) (turn_scope b s)) ->
  wp (match cfg.(cf_turn_timeout) with
      | None => body
      | Some _ => catch (in_turn_scope body) (fun e => match e with
          | TurnExpired => raise (DependencyError
              (cp "The model did not respond within the interactive time budget.") dependency_unavailable)
          | e => raise e
          end)
      end) (fun r s' => turn_out s r s' (fun t => P t s')) s.
Proof.
  intros Hsc Hs HP Hbody. destruct (cf_turn_timeout cfg) as [b|].
  2:{ specialize (Hbody false).
      assert (turn_scope false s = s) as E; [|by rewrite E in Hbody].
      destruct s as [x [] z]. simpl in Hsc. by subst. }
  apply wp_catch. specialize (Hbody true). unfold in_turn_scope.
  destruct (turn_scope_ok true s Hs) as [_ P0].
  unfold wp in Hbody |- *. destruct (body (turn_scope true s)) as [r s1].
  destruct Hbody as (S1 & P1 & Sc1 & R1). destruct (turn_scope_ok false s1 S1) as [S2 P2].
  set (s2 := turn_scope false s1) in *.
  assert (progress s s2) as P02 by (etransitivity; [exact P0|]; by etransitivity).
  assert (r_turn_scope (rt s2) = r_turn_scope (rt s)) as Sc2 by (rewrite Hsc; reflexivity).
  destruct r as [t|e].
  - destruct R1 as [Ht Tk]. unfold turn_out. split_and!; [done|done|done|by apply HP|done].
  - assert (forall e', may_raise s e' -> turn_out s (Err e' : res exn turn) s2 (fun t => P t s2)) as Hout by (by intros; split_and!).
    destruct e; try (apply Hout; destruct R1 as [[?|[?|[[? ?]|[? ?]]]]|?]; try done;
      first [by right | by left; left | by left; right; left | left; right; right; right; by split]).
Qed.

(** A turn streamed live from a silent start. *)
Lemma resilient_spec narrate allow_failover tools tool_choice messages s :
  sound cfg s -> spoken s = [] -> r_turn_scope (rt s) = false ->
  wp (_stream_turn_resilient env llm cfg refit narrate true allow_failover tools tool_choice messages)
    (fun r s' => turn_out s r s' (fun t => turn_result (mk_seams narrate true) t s')) s.
Proof.
  intros Hs Hsp Hsc. unfold _stream_turn_resilient. apply wp_bind, wp_modify.
  set (s1 := on_runtime (set_emitted _) s). apply wp_bind, wp_get.
  pose proof (mark_emitted (false, false) s Hs) as T1. fold s1 in T1.
  eapply wp_mono; [apply (turn_scope_spec _ (fun t s' => turn_result (mk_seams narrate true) t s') s1)|].
  - done.
  - apply T1.
  - done.
  - intros b. apply run_attempts_spec; [done|apply turn_scope_ok, T1|by split|]. simpl. lia.
  - intros r s3 T3. eapply turn_out_trans; [apply step_out; exact T1|exact T3].
Qed.

(** *** A turn that streams nothing *)

(** The length continuation: nothing of it reaches the stream. *)
Definition mute : seams := mk_seams None false.
Lemma quietly_drained {A} s (r : res exn A) s' : quietly s r s' -> drained s -> drained s'.
Proof. intros (_ & E & _) Hd. unfold drained. by rewrite E. Qed.

Lemma checks_mute s :
  sound cfg s ->
  wp (s ← get; when (r_cancel_requested (rt s)) (raise CancelledError) ;; _check_answer_deadline env) (quietly s) s.
Proof.
  intros Hs. apply wp_bind, wp_get. apply wp_bind. unfold when. destruct (r_cancel_requested (rt s)).
  - apply wp_raise. apply untouched_quietly; [done|reflexivity|]. intros e [= <-]. left. right. by left.
  - apply wp_ret. eapply wp_mono; [apply check_answer_deadline_spec|]. intros r s' [Hu He].
    apply untouched_quietly; auto.
Qed.

Lemma wait_mute timer s : sound cfg s -> drained s -> wp (wait_event env timer) (quietly s) s.
Proof.
  intros Hs Hd. unfold wait_event. apply wp_bind, wp_get, wp_bind. unfold flush_deadline.
  unfold drained in Hd. rewrite Hd. apply wp_ret.
  pose proof (checks_mute s Hs) as Hc. apply wp_bind, wp_get. apply wp_bind.
  unfold wp, mbind, M_bind, bind, get in Hc. unfold when in *.
  destruct (r_cancel_requested (rt s)); simpl in Hc |- *; [by apply wp_raise|].
  apply wp_ret. apply wp_bind. unfold wp at 1. destruct (_check_answer_deadline env s) as [[[]|e] s1]; [|done].
  eapply wp_mono; [apply await_spec|]. intros r s2 [Hu He]. eapply quietly_trans; [exact Hc|].
  apply untouched_quietly; [apply Hc|done|]. intros e E. left. right. by apply He.
Qed.

Lemma handle_mute ev t s :
  sound cfg s -> noted ev s ->
  wp (handle_event env mute ev t) (fun r s1 => match r with
    | Ok _ => wp (handled_to_end ev) (fun r' s' => quietly s r' s' /\ room s') s1
    | Err e => False
    end) s.
Proof.
  intros Hs Hno. unfold handle_event, classify, take_text, mute, when. simpl.
  apply wp_bind, wp_ret. apply wp_bind.
  assert (forall t', wp (match ev_usage ev with Some u => account u | None => ret tt end ;;
     ret (mk_turn (match ev_tool_calls ev with [] => t_tool_calls t' | l => l end)
       (match ev_finish_reason ev with Some ((_ :: _) as f) => f | _ => t_finish_reason t' end)
       (t_text_chunks t') (t_narrating t')))
     (fun r s1 => match r with
       | Ok _ => wp (handled_to_end ev) (fun r' s' => quietly s r' s' /\ room s') s1
       | Err e => False
       end) s) as Hrest.
  { intros t'. apply wp_bind. eapply wp_mono; [by apply account_spec|]. intros r s1 [-> H1]. apply wp_ret.
    eapply wp_mono; [exact H1|]. intros r' s2 [(-> & T & E & L & M) Hroom]. split; [|done].
    split; [by apply move_out|done]. }
  destruct (ev_text ev); [by apply wp_ret, Hrest|].
  apply wp_bind. destruct (t_narrating t); apply wp_ret, wp_ret, Hrest.
Qed.

Lemma consume_mute items t s :
  sound cfg s -> drained s -> room s -> wp (consume env mute items t) (quietly s) s.
Proof.
  revert t s. induction items as [|[timer ev] items IH]; intros t s Hs Hd Hroom; simpl;
    [by apply wp_ret, quietly_ret|].
  apply wp_bind. eapply wp_mono; [apply wp_conj; [by apply wait_mute|by apply wait_event_spec]|].
  intros [[]|e] s1 [H1 [(_ & _ & F1 & _) _]]; [|exact H1].
  apply wp_bind. eapply wp_mono; [apply reported_spec; [apply H1|by eapply room_frame; [exact F1|]]|].
  intros r sr [(-> & Tr & Er & Lr & Mr) Hno].
  assert (quietly s (Ok tt) sr) as H0r by (eapply quietly_trans; [exact H1|]; by split; [apply move_out|]).
  apply wp_bind. eapply wp_mono; [apply wp_conj; [apply checks_mute, Tr|apply checks_spec, Tr]|].
  intros [[]|e] s2 [H2 [(_ & _ & F2 & _) _]]; [|by eapply quietly_trans].
  apply wp_bind. eapply wp_mono; [apply handle_mute; [apply H2|by eapply noted_frame; [exact F2|]]|].
  intros [t'|e] s3 H3; [|done].
  apply wp_bind. eapply wp_mono; [exact H3|]. intros r s4 [H4 Hroom4].
  destruct r as [[]|e]; [|by eapply quietly_trans; [exact H0r|]; eapply quietly_trans].
  assert (quietly s (Ok tt) s4) as H04 by (eapply quietly_trans; [exact H0r|]; by eapply quietly_trans).
  eapply wp_mono; [apply IH; [apply H04|by eapply quietly_drained|done]|]. intros r s5 H5. by eapply quietly_trans.
Qed.

Lemma one_turn_mute call s :
  sound cfg s -> drained s -> Z.of_nat (w_calls (wd s)) < r_model_calls (rt s) ->
  wp (_stream_one_turn env llm mute call) (quietly s) s.
Proof.
  intros Hs Hd Hlt. unfold _stream_one_turn. apply wp_bind, wp_get. apply wp_bind, wp_modify.
  destruct (count_call_ok s Hs Hlt) as [T0 Hroom].
  assert (quietly s (Ok tt) (on_world count_call s)) as H0 by (by split; [apply move_out|]).
  apply wp_bind. eapply wp_mono; [apply consume_mute; [apply H0|done|done]|].
  intros [t|e] s1 H1; [|by eapply quietly_trans].
  assert (quietly s (Ok tt) s1) as H01 by (eapply quietly_trans; [exact H0|exact H1]).
  apply wp_bind. eapply wp_mono; [apply wait_mute; [apply H1|by eapply quietly_drained]|].
  intros [[]|e] s2 H2; [|by eapply quietly_trans; [exact H01|]].
  assert (quietly s (Ok tt) s2) as H02 by (by eapply quietly_trans).
  destruct (sc_end _).2 as [e|] eqn:Eend.
  - apply wp_raise. pose proof (faults (w_calls (wd s)) call) as Hf. rewrite Eend in Hf.
    destruct H02 as ((? & ? & ? & _) & ? & ? & ?). split; [|done]. unfold turn_out. split_and!; try done.
    destruct e; try done; [by right|by right|by left; left].
  - apply wp_bind. eapply wp_mono; [apply checks_mute, H02|]. intros [[]|e] s3 H3; [|by eapply quietly_trans; [exact H02|]].
    apply wp_ret. eapply quietly_trans; [exact H02|]. eapply quietly_trans; [exact H3|]. apply quietly_ret, H3.
Qed.

Lemma attempts_mute call n i last s :
  sound cfg s -> drained s -> r_emitted (rt s) = (false, false) ->
  wp (attempts env llm cfg mute call n i last) (quietly s) s.
Proof.
  revert i last s. induction n as [|n IH]; intros i last s Hs Hd Hem; simpl; [by apply wp_ret, quietly_ret|].
  pose proof (before_attempt_spec i (retry_delay i (last ≫= snd)) s Hs) as Hbefore.
  apply wp_bind. unfold wp at 1. unfold wp, mbind, M_bind, bind in Hbefore.
  destruct (when _ _ s) as [[[]|e] s1]; [|apply Hbefore].
  apply wp_bind. unfold wp at 1. destruct (_check_cancelled env s1) as [[[]|e] s2]; [|apply Hbefore].
  apply wp_bind. unfold wp at 1. destruct (_claim_model_call env cfg s2) as [[[]|e] s3]; [|apply Hbefore].
  destruct Hbefore as [H3 Hlt3]. specialize (Hlt3 eq_refl).
  apply wp_bind, wp_get, wp_bind, wp_catch, wp_bind.
  eapply wp_mono; [apply one_turn_mute; [apply H3|by eapply quietly_drained|done]|].
  intros [t|e] s4 H4.
  { apply wp_ret, wp_ret. eapply quietly_trans; [exact H3|]. eapply quietly_trans; [exact H4|]. apply quietly_ret, H4. }
  destruct e as [| | | |code retryable hint| |]; try by apply wp_raise; eapply quietly_trans.
  apply wp_bind, wp_get. destruct (_ || _); [by apply wp_raise; eapply quietly_trans|].
  assert (r_emitted (rt s4) = (false, false)) as Em4.
  { destruct H3 as (_ & _ & _ & M3), H4 as (_ & _ & _ & M4). congruence. }
  apply wp_bind. rewrite Em4. apply wp_ret, wp_ret.
  assert (quietly s (Ok tt) s4) as H04.
  { destruct H4 as ((S4 & P4 & Sc4 & R4) & E4 & L4 & M4). eapply quietly_trans; [exact H3|].
    split; [|done]. unfold turn_out. split_and!; try done. unfold text_taken. by rewrite L4. }
  eapply wp_mono; [apply IH; [apply H04|by eapply quietly_drained|done]|].
  intros r s5 H5. by eapply quietly_trans.
Qed.

Lemma resilient_mute tools tool_choice messages s :
  sound cfg s -> drained s -> r_turn_scope (rt s) = false ->
  wp (_stream_turn_resilient env llm cfg refit None false false tools tool_choice messages)
    (fun r s' => turn_out s r s' (fun _ => True) /\ st s' = st s /\ w_log (wd s') = w_log (wd s)) s.
Proof.
  intros Hs Hd Hsc. unfold _stream_turn_resilient. apply wp_bind, wp_modify.
  set (s1 := on_runtime (set_emitted _) s). apply wp_bind, wp_get.
  pose proof (mark_emitted (false, false) s Hs) as T1. fold s1 in T1.
  set (same := fun s' => st s' = st s /\ w_log (wd s') = w_log (wd s)).
  assert (forall b fuel s2, s2 = turn_scope b s1 -> (0 < fuel)%nat ->
    wp (run_attempts env llm cfg fuel mute refit false tools tool_choice
          (ab_answer_max_tokens (cf_budgets cfg)) messages) (quietly s2) s2) as Hrun.
  { intros b [|fuel] s2 -> Hf; [lia|]. simpl. set (s2 := turn_scope b s1).
    assert (sound cfg s2) as S2 by apply turn_scope_ok, T1.
    apply wp_bind. eapply wp_mono; [by apply attempts_mute|].
    assert (forall e s3, quietly s2 (Ok tt) s3 -> may_raise s2 e -> quietly s2 (Err e : res exn turn) s3) as Hraise.
    { intros e s3 ((? & ? & ? & _) & ?) He. by split. }
    intros [[t|f]|e] s3 H3; [apply wp_ret| |exact H3].
    - eapply quietly_trans; [exact H3|]. apply quietly_ret, H3.
    - assert (quietly s2 (Ok tt) s3) as H3' by (eapply quietly_trans; [exact H3|]; apply quietly_ret, H3).
      destruct f as [[code hint]|]; [|apply wp_raise, Hraise; [done|by left; left]].
      apply wp_bind, wp_get. apply wp_raise, Hraise; [done|by right]. }
  eapply wp_mono; [apply wp_conj; [apply (turn_scope_spec _ (fun _ _ => True) s1)|]|].
  - done.
  - apply T1.
  - done.
  - intros b. eapply wp_mono; [apply (Hrun b); [done|lia]|]. intros r s3 H3. exact (proj1 H3).
  - instantiate (1 := fun _ s' => same s'). destruct (cf_turn_timeout cfg).
    + apply wp_catch. pose proof (Hrun true (S (length (rs_fallbacks (r_route_state (rt s1))))) _ eq_refl ltac:(lia)) as H.
      unfold wp in H |- *. unfold in_turn_scope. destruct (run_attempts _ _ _ _ _ _ _ _ _ _ _ _) as [r s3].
      destruct H as (_ & E & L & _). assert (same (turn_scope false s3)) by done.
      destruct r as [|[]]; done.
    + pose proof (Hrun false (S (length (rs_fallbacks (r_route_state (rt s1))))) s1) as H.
      eapply wp_mono; [apply H; [|lia]|].
      * unfold turn_scope, on_runtime. simpl. destruct s as [x [] z]. simpl in *. by subst.
      * intros r s3 (_ & E & L & _). done.
  - intros r s3 [T3 [E L]]. split; [|done]. eapply turn_out_trans; [apply step_out; exact T1|exact T3].
Qed.
End resilient.
End specs.
