(* ===== verification/Answer.v ===== *)
(** * What an answer computes

    The pure parts of [ChatRuntime._answer] (services/chat_runtime.py): the prompt
    inputs it prepares (fallbacks, pinned documents, rehydrated evidence), how a
    batch of tool results is folded into the transcript and the evidence books,
    how the final text and its citations are selected and re-checked, and the
    provenance stored with the message.

    Parameters: SHA-256, [json.dumps], [json.loads], [str] of a UUID and of a value
    that is not a string, [str.casefold], [urlsplit], the CommonMark parser and
    [uuid4]. *)

From stdpp Require Import base list strings sets gmap pretty.
From Stdlib Require Import Lia ZArith.
From S2P Require Import Prelude Json ToolWire Tools Context Grounding ChatStream.
Open Scope Z_scope.

Class AnswerText := {
  at_sha256 : pystr -> pystr;
  at_dumps : json -> pystr;
  at_loads : pystr -> option json;
  at_uuid : uuid -> pystr;
  at_repr : json -> pystr;
  at_casefold : pystr -> pystr;
  at_urlsplit : pystr -> option split_url;
  at_markers : pystr -> list marker;
  at_uuid4 : nat -> uuid
}.

(** ** Strings *)

(** [s.replace(a, b)] for a non-empty [a]; [skip] characters belong to the match
    just replaced. *)
Fixpoint replace_from (skip : nat) (a b s : pystr) : pystr :=
  match s with
  | [] => []
  | c :: s =>
      match skip with
      | S skip => replace_from skip a b s
      | O => if py_startswith a (c :: s) then b ++ replace_from (length a - 1) a b s
             else c :: replace_from 0 a b s
      end
  end.
Definition py_replace (a b s : pystr) : pystr := replace_from 0 a b s.

(** [f"{z:0{w}d}"] *)
Definition zero_padded (w : nat) (z : Z) : pystr :=
  let s := cp (pretty z) in replicate (w - length s) 48%N ++ s.

Definition newline : pystr := [10%N].
Definition blank_line : pystr := [10; 10]%N.

Definition NO_SOURCES_FALLBACK : pystr :=
  cp "I couldn't find anything in your sources that answers that. Try rephrasing, or upload a document that covers it.".

Section answer.
Context `{AnswerText}.

(** ** Rendering evidence (services/tools/impls/retrieval.py) *)

Definition _format_player_time (milliseconds : Z) : pystr :=
  let hours := milliseconds / 3600000 in
  let remainder := milliseconds mod 3600000 in
  let minutes := remainder / 60000 in
  let remainder := remainder mod 60000 in
  let seconds := remainder / 1000 in
  let millis := remainder mod 1000 in
  let tail := zero_padded 2 minutes ++ cp ":" ++ zero_padded 2 seconds ++ cp "." ++ zero_padded 3 millis in
  if hours =? 0 then tail else zero_padded 2 hours ++ cp ":" ++ tail.

Definition _media_provenance (p : RetrievedPassage) : pystr :=
  match rp_time_start_ms p, rp_time_end_ms p with
  | Some start, Some stop =>
      let identity :=
        match rp_speaker_name p, rp_speaker_id p with
        | Some ((_ :: _) as name), Some ((_ :: _) as id) => cp ", " ++ name ++ cp " (" ++ id ++ cp ")"
        | Some ((_ :: _) as name), _ => cp ", " ++ name
        | _, Some ((_ :: _) as id) => cp ", " ++ id
        | _, _ => []
        end in
      cp ", time " ++ _format_player_time start ++ cp "-" ++ _format_player_time stop ++ identity
  | _, _ => []
  end.

Definition rendered_evidence (p : RetrievedPassage) (handle : pystr) (document : option pystr) : pystr :=
  let location := _media_provenance p in
  let location := match document with
    | Some d => cp " (document " ++ d ++ cp ", chars " ++ cp (pretty (rp_char_start p)) ++ cp "-"
                ++ cp (pretty (rp_char_end p)) ++ location ++ cp ")"
    | None => location
    end in
  cp "[" ++ handle ++ cp "] " ++ rp_document_name p ++ location ++ newline ++ py_strip (rp_text p).

(** ** Handles inside the answer *)

(** The refusal of a full registry. *)
Definition handles_exhausted : exn :=
  AppError 422 (cp "Unprocessable Entity") (cp "handle_budget_exhausted")
    (Some (cp "Evidence handle budget exhausted.")).
Definition issued {A} (o : option A) : res exn A :=
  match o with Some a => Ok a | None => Err handles_exhausted end.

Definition passage_handle (p : RetrievedPassage) (eh : EvidenceHandles)
    : res exn (pystr * EvidenceHandles) := issued (passage at_sha256 at_dumps at_uuid p eh).

(** [_evidence(call, passage, handles)] *)
Definition _evidence (call : ToolCall) (p : RetrievedPassage) (eh : EvidenceHandles)
    : res exn (pystr * EvidenceHandles) :=
  d ← (if bool_decide (tc_name call = cp "search_passages")
       then r ← issued (document (rp_document_id p) eh); Ok (Some r.1, r.2)
       else Ok (None, eh));
  r ← passage_handle p d.2;
  Ok (rendered_evidence p r.1 d.1, r.2).

(** ** The locals of the tool loop *)

Record loop := mk_loop {
  lp_messages : list ChatMessage;
  lp_prompt_context : list ChatMessage;
  lp_handles : EvidenceHandles;
  lp_cited : list (uuid * GroundedCitation);
  lp_corpus : list (pystr * GroundedCitation);
  lp_snippets : list (pystr * list (uuid * pystr));
  lp_web_snippets : list (pystr * list pystr);
  lp_web : list (pystr * WebCitation);
  lp_available : list pystr;
  lp_hits : Z;
  lp_uuids : nat
}.

Definition with_messages (f : list ChatMessage -> list ChatMessage) (l : loop) : loop :=
  mk_loop (f (lp_messages l)) (lp_prompt_context l) (lp_handles l) (lp_cited l) (lp_corpus l) (lp_snippets l)
    (lp_web_snippets l) (lp_web l) (lp_available l) (lp_hits l) (lp_uuids l).
Definition with_handles (eh : EvidenceHandles) (l : loop) : loop :=
  mk_loop (lp_messages l) (lp_prompt_context l) eh (lp_cited l) (lp_corpus l) (lp_snippets l)
    (lp_web_snippets l) (lp_web l) (lp_available l) (lp_hits l) (lp_uuids l).
Definition with_available (h : pystr) (l : loop) : loop :=
  mk_loop (lp_messages l) (lp_prompt_context l) (lp_handles l) (lp_cited l) (lp_corpus l) (lp_snippets l)
    (lp_web_snippets l) (lp_web l) (if mem h (lp_available l) then lp_available l else lp_available l ++ [h])
    (lp_hits l) (lp_uuids l).

(** [d.setdefault(k, v)] *)
Fixpoint setdefault {V} (k : uuid) (v : V) (d : list (uuid * V)) : list (uuid * V) :=
  match d with
  | [] => [(k, v)]
  | (k', v') :: l => if decide (k = k') then d else (k', v') :: setdefault k v l
  end.

(** The blocks of a result's passages: each gets a handle, which becomes citable. *)
Fixpoint passage_blocks (call : ToolCall) (ps : list RetrievedPassage) (l : loop)
    : res exn (list pystr * loop) :=
  match ps with
  | [] => Ok ([], l)
  | p :: ps =>
      r ← passage_handle p (lp_handles l);
      b ← _evidence call p r.2;
      rest ← passage_blocks call ps (with_available r.1 (with_handles b.2 l));
      Ok (b.1 :: rest.1, rest.2)
  end.

(** *** Web results *)

(** [str(item.get(k) or "")] *)
Definition or_empty (j : option json) : pystr :=
  match j with
  | Some j => if json_truthy j then py_str at_repr j else []
  | None => []
  end.

(** The items of [payload.get("results", [])]: iterating a dict or a string gives
    strings, which are skipped; a scalar raises [TypeError]. *)
Definition web_items (payload : dict) : res exn (list dict) :=
  match dict_get (cp "results") payload with
  | None | Some (JObj _) | Some (JStr _) => Ok []
  | Some (JArr l) => Ok (omap (fun j => match j with JObj d => Some d | _ => None end) l)
  | Some _ => Err OtherError
  end.

Definition visible_chars : nat := 700.
Definition truncated_marker : pystr := newline ++ cp "[Truncated web excerpt.]".

Definition web_block (item : dict) (acc : list pystr * loop) : res exn (list pystr * loop) :=
  let '(blocks, l) := acc in
  let first := dict_get (cp "fetchedPassage") item in
  let body := py_strip (if match first with Some j => json_truthy j | None => false end
                        then or_empty first else or_empty (dict_get (cp "snippet") item)) in
  let visible := take visible_chars body in
  match visible with
  | [] => Ok acc
  | _ =>
      let url := or_empty (dict_get (cp "url") item) in
      let title := or_empty (dict_get (cp "title") item) in
      r ← issued (web url title visible (lp_handles l));
      let '(handle, eh) := r in
      let w := mk_web (at_uuid4 (lp_uuids l)) handle url title visible in
      let l := mk_loop (lp_messages l) (lp_prompt_context l) eh (lp_cited l) (lp_corpus l) (lp_snippets l)
                 (lp_web_snippets l) (lp_web l) (lp_available l) (lp_hits l) (S (lp_uuids l)) in
      match web_post_init at_urlsplit w with
      | None => Ok (blocks, l)
      | Some w =>
          let l := with_available handle
            (mk_loop (lp_messages l) (lp_prompt_context l) (lp_handles l) (lp_cited l) (lp_corpus l)
               (lp_snippets l) (lp_web_snippets l) (dict_set handle w (lp_web l)) (lp_available l)
               (lp_hits l) (lp_uuids l)) in
          Ok (blocks ++ [cp "[" ++ handle ++ cp "] " ++ title ++ newline ++ url ++ newline ++ visible
                         ++ (if Nat.ltb (length visible) (length body) then truncated_marker else [])], l)
      end
  end.

Fixpoint web_blocks (items : list dict) (acc : list pystr * loop) : res exn (list pystr * loop) :=
  match items with
  | [] => Ok acc
  | item :: items => acc ← web_block item acc; web_blocks items acc
  end.

Definition no_web_evidence : pystr := cp "No usable web evidence. Try another query.".

(** [for document_id in result.document_ids]: document ids become handles. *)
Fixpoint hide_documents (ids : list uuid) (content : pystr) (eh : EvidenceHandles)
    : res exn (pystr * EvidenceHandles) :=
  match ids with
  | [] => Ok (content, eh)
  | d :: ids =>
      r ← issued (document d eh);
      hide_documents ids (py_replace (at_uuid d) r.1 content) r.2
  end.

(** [sorted(set, key=str)] *)
Definition sorted_ids (ids : list uuid) : list uuid :=
  py_sorted (fun a b => str_leb (at_uuid a) (at_uuid b)) (remove_dups ids).

Definition reply_sources (r : ToolResult) : option (list uuid) :=
  match tr_ok r, tr_source_document_ids r with
  | true, Some ids => Some (sorted_ids (ids ++ tr_document_ids r ++ (rp_document_id <$> tr_passages r)))
  | _, _ => None
  end.

(** The evidence pairs remembered for the compactor. *)
Fixpoint evidence_pairs (call : ToolCall) (ps : list RetrievedPassage) (eh : EvidenceHandles)
    : res exn (list (uuid * pystr) * EvidenceHandles) :=
  match ps with
  | [] => Ok ([], eh)
  | p :: ps =>
      b ← _evidence call p eh;
      rest ← evidence_pairs call ps b.2;
      Ok ((rp_chunk_id p, b.1) :: rest.1, rest.2)
  end.

(** [corpus_evidence[handle] = citation; cited.setdefault(chunk_id, citation)] *)
Definition cite_passage (p : RetrievedPassage) (l : loop) : res exn loop :=
  r ← passage_handle p (lp_handles l);
  let citation := set_handle r.1 (from_passage p) in
  Ok (mk_loop (lp_messages l) (lp_prompt_context l) r.2 (setdefault (rp_chunk_id p) citation (lp_cited l))
        (dict_set r.1 citation (lp_corpus l)) (lp_snippets l) (lp_web_snippets l) (lp_web l)
        (lp_available l) (lp_hits l) (lp_uuids l)).
Fixpoint cite_passages (ps : list RetrievedPassage) (l : loop) : res exn loop :=
  match ps with [] => Ok l | p :: ps => l ← cite_passage p l; cite_passages ps l end.

(** The model-visible content of a result, before its document ids are hidden. *)
Definition result_content (call : ToolCall) (r : ToolResult) (l : loop) : res exn (pystr * loop) :=
  match tr_passages r with
  | (_ :: _) as ps =>
      b ← passage_blocks call ps l;
      let evidence_content := py_join blank_line b.1 in
      Ok (if mem (tc_name call) [cp "search_text"; cp "search_passages"] then evidence_content
          else if bool_decide (tc_name call = cp "read_document") then tr_content r
          else tr_content r ++ blank_line ++ evidence_content, b.2)
  | [] =>
      if tr_ok r && bool_decide (dict_get (cp "sourceType") (tr_payload r) = Some (JStr (cp "web"))) then
        items ← web_items (tr_payload r);
        b ← web_blocks items ([], l);
        let l := b.2 in
        Ok (str_or (py_join blank_line b.1) no_web_evidence,
            mk_loop (lp_messages l) (lp_prompt_context l) (lp_handles l) (lp_cited l) (lp_corpus l)
              (lp_snippets l) (dict_set (tc_id call) b.1 (lp_web_snippets l)) (lp_web l) (lp_available l)
              (lp_hits l) (lp_uuids l))
      else Ok (tr_content r, l)
  end.

(** One iteration of [for call, result in zip(turn_tool_calls, results)]. *)
Definition fold_result (call : ToolCall) (r : ToolResult) (l : loop) : res exn loop :=
  let l := mk_loop (lp_messages l) (lp_prompt_context l) (lp_handles l) (lp_cited l) (lp_corpus l)
             (lp_snippets l) (lp_web_snippets l) (lp_web l) (lp_available l)
             (lp_hits l + tr_hit_count r) (lp_uuids l) in
  c ← result_content call r l;
  let l := c.2 in
  h ← hide_documents (tr_document_ids r) c.1 (lp_handles l);
  let l := with_handles h.2 l in
  let reply := Context.mk_message TOOL h.1 [] (Some (tc_id call)) (Some (tc_name call)) (reply_sources r) in
  let l := mk_loop (lp_messages l ++ [reply]) (lp_prompt_context l ++ [reply]) (lp_handles l) (lp_cited l)
             (lp_corpus l) (lp_snippets l) (lp_web_snippets l) (lp_web l) (lp_available l) (lp_hits l)
             (lp_uuids l) in
  l ← match tr_passages r with
      | [] => Ok l
      | ps =>
          e ← evidence_pairs call ps (lp_handles l);
          Ok (mk_loop (lp_messages l) (lp_prompt_context l) e.2 (lp_cited l) (lp_corpus l)
                (dict_set (tc_id call) e.1 (lp_snippets l)) (lp_web_snippets l) (lp_web l) (lp_available l)
                (lp_hits l) (lp_uuids l))
      end;
  cite_passages (tr_passages r) l.

Fixpoint fold_results (pairs : list (ToolCall * ToolResult)) (l : loop) : res exn loop :=
  match pairs with [] => Ok l | (c, r) :: pairs => l ← fold_result c r l; fold_results pairs l end.

(** [_cited_snippets_by_call(result_passage_snippets, cited, web_snippets)] *)
Definition cited_snippets (l : loop) : list (pystr * list pystr) :=
  _cited_snippets_by_call (lp_snippets l) (lp_cited l).*1 (lp_web_snippets l).

(** ** Selecting the final text and its citations *)

(** What [select] settles: the text, its corpus and web citations, and the
    evidence handles (a re-read can issue some). *)
Record selection := mk_selection {
  sel_text : pystr;
  sel_cited : list GroundedCitation;
  sel_web : list WebCitation;
  sel_handles : EvidenceHandles
}.

(** The corpus citations of the handles the text names. *)
Definition selected_corpus (l : loop) (handles : list pystr) : list (pystr * GroundedCitation) :=
  List.filter (fun hc => mem hc.1 handles) (lp_corpus l).

(** [list(dict.fromkeys(c.chunk_id for c in ...))] *)
Definition chunks_to_read (corpus : list (pystr * GroundedCitation)) : list uuid :=
  reverse (remove_dups (reverse ((fun hc => gc_chunk_id hc.2) <$> corpus))).

(** [valid]: the passages that are still readable, by handle. *)
Fixpoint valid_passages (fresh : list RetrievedPassage) (eh : EvidenceHandles)
    : res exn (list (pystr * RetrievedPassage) * EvidenceHandles) :=
  match fresh with
  | [] => Ok ([], eh)
  | p :: fresh =>
      r ← passage_handle p eh;
      rest ← valid_passages fresh r.2;
      Ok (match resolve r.1 r.2 with Some _ => (r.1, p) :: rest.1 | None => rest.1 end, rest.2)
  end.

(** [dict] built from pairs: the last pair of a key wins. *)
Definition last_of {V} (k : pystr) (l : list (pystr * V)) : option V := dict_get k (reverse l).

Definition still_valid (valid : list (pystr * RetrievedPassage)) (hc : pystr * GroundedCitation) : bool :=
  match gc_handle hc.2 with
  | Some h => match last_of h valid with
              | Some p => bool_decide (rp_document_id p = gc_document_id hc.2)
              | None => false
              end
  | None => false
  end.

(** [list.index] of a selected handle. *)
Fixpoint position (h : pystr) (l : list pystr) : nat :=
  match l with [] => O | x :: l => if decide (x = h) then O else S (position h l) end.

(** [{c.chunk_id: c for c in ...}], in insertion order, the last value winning. *)
Fixpoint set_chunk (k : uuid) (v : GroundedCitation) (d : list (uuid * GroundedCitation)) :=
  match d with
  | [] => [(k, v)]
  | (k', v') :: l => if decide (k = k') then (k, v) :: l else (k', v') :: set_chunk k v l
  end.
Definition by_chunk (cs : list GroundedCitation) : list GroundedCitation :=
  (foldl (fun d c => set_chunk (gc_chunk_id c) c d) [] cs).*2.

(** [sorted(corpus.values(), key=lambda c: selected.index(c.handle or ""))]: a handle
    that is not selected raises [ValueError]. *)
Definition in_cited_order (selected : list pystr) (cs : list GroundedCitation)
    : res exn (list GroundedCitation) :=
  if forallb (fun c => mem (default [] (gc_handle c)) selected) cs
  then Ok (py_sorted (fun a b => Nat.leb (position (default [] (gc_handle a)) selected)
                                         (position (default [] (gc_handle b)) selected)) cs)
  else Err OtherError.

(** The second half of the selection: [corpus] survived the final check, or the
    whole answer is replaced. *)
Definition settle_selection (text : pystr) (corpus : list (pystr * GroundedCitation))
    (web : list (pystr * WebCitation)) (handles : list pystr) (eh : EvidenceHandles) : res exn selection :=
  let allowed := omap (fun hc => gc_handle hc.2) corpus ++ List.filter (fun h => dict_has h web) handles in
  let '(cleaned, selected) := select_cited_handles at_markers text allowed in
  cited ← in_cited_order selected corpus.*2;
  Ok (mk_selection cleaned (by_chunk cited) (omap (fun h => dict_get h web) selected) eh).

(** ** The provenance of a stored message *)

(** [_persist]: the source documents, unknown when an input's are. *)
Definition message_sources (citations : list GroundedCitation)
    (prompt_context : list ChatMessage) : option (list uuid) :=
  if forallb (fun m => negb (bool_decide (m_source_document_ids m = None))) prompt_context
  then Some (sorted_ids ((gc_document_id <$> citations)
                         ++ (prompt_context ≫= fun m => default [] (m_source_document_ids m))))
  else None.

(** ** Preparing the prompt *)

(** [AssistantRunConfig], the fields the answer reads. *)
Record AssistantRunConfig := mk_assistant {
  ac_system_prompt : pystr;
  ac_allowed : gset pystr;
  ac_collection_ids : option (list uuid);
  ac_source_ids : option (list uuid)
}.

Definition prepend_user_instructions (custom_instructions : option pystr) (base_prompt : pystr) : pystr :=
  match py_strip (default [] custom_instructions) with
  | [] => base_prompt
  | text => text ++ blank_line ++ base_prompt
  end.

(** The stored fallback chain: strings, non-blank, not the primary, distinct, at
    most three. *)
Definition structural_fallbacks (model : pystr) (stored : list json) : list pystr :=
  take 3 (foldl (fun acc j => match j with
    | JStr m => if negb (blank m) && negb (bool_decide (m = model)) && negb (mem m acc) then acc ++ [m] else acc
    | _ => acc
    end) [] stored).

Definition question_for_model (question : pystr) (document_ids : option (list uuid)) : pystr :=
  match document_ids with
  | Some ((_ :: _) as ids) =>
      question ++ blank_line ++ cp "[The user attached " ++ cp (pretty (length ids))
      ++ cp " specific document(s) to this message; document searches for this answer are scoped to them. Search them before answering.]"
  | _ => question
  end.

(** [by_doc.setdefault(doc_id, []).append(chunk_id)] *)
Fixpoint add_chunk_of (d c : uuid) (by_doc : list (uuid * list uuid)) : list (uuid * list uuid) :=
  match by_doc with
  | [] => [(d, [c])]
  | (d', cs) :: l => if decide (d = d') then (d', cs ++ [c]) :: l else (d', cs) :: add_chunk_of d c l
  end.
Definition group_evidence (evidence : list (uuid * uuid)) : list (uuid * list uuid) :=
  foldl (fun by_doc '(d, c) => add_chunk_of d c by_doc) [] evidence.

Fixpoint assoc {V} (k : uuid) (d : list (uuid * V)) : option V :=
  match d with [] => None | (k', v) :: l => if decide (k = k') then Some v else assoc k l end.

(** The evidence line of one carried document: only what is still permitted, only
    chunks that are its own. *)
Definition evidence_line (permitted : list (uuid * pystr)) (chunk_owner : list (uuid * uuid))
    (dc : uuid * list uuid) : option (pystr * uuid) :=
  name ← assoc dc.1 permitted;
  match List.filter (fun c => bool_decide (assoc c chunk_owner = Some dc.1)) dc.2 with
  | [] => None
  | valid => Some (name ++ cp " (document_id " ++ at_uuid dc.1 ++ cp "; cited chunk(s): "
                   ++ py_join (cp ", ") (at_uuid <$> valid) ++ cp ")", dc.1)
  end.
Definition evidence_lines (permitted : list (uuid * pystr)) (chunk_owner : list (uuid * uuid))
    (by_doc : list (uuid * list uuid)) : list (pystr * uuid) :=
  omap (evidence_line permitted chunk_owner) by_doc.

(** Names of the summary that are no longer permitted. *)
Definition names_to_redact (permitted : list (uuid * pystr)) (mentioned : list (uuid * pystr)) : list pystr :=
  (List.filter (fun m => bool_decide (assoc m.1 permitted = None)) mentioned).*2.

(** [_is_retrieval_call] *)
Definition _RETRIEVAL_TOOL_NAMES : list pystr :=
  [cp "search_text"; cp "search_documents"; cp "list_documents"; cp "get_document";
   cp "search_passages"; cp "find_documents"; cp "read_document"].
Definition _is_retrieval_call (call : ToolCall) : bool := mem (tc_name call) _RETRIEVAL_TOOL_NAMES.
End answer.

(** ** Every handle shown stands for its evidence *)

Section grounding.
Context `{AnswerText} (first : N) (base : list (pystr * evidence)).

(** [eh'] stands for all [eh] does. *)
Definition grows (eh eh' : EvidenceHandles) : Prop :=
  forall h e, resolve h eh = Some e -> resolve h eh' = Some e.
Global Instance grows_preorder : PreOrder grows.
Proof. split; [by intros eh h e|]. intros e1 e2 e3 H1 H2 h e Hr. by apply H2, H1. Qed.

(** A handle issued from a registry. *)
Record issues (e : evidence) (eh : EvidenceHandles) (h : pystr) (eh' : EvidenceHandles) : Prop := {
  is_registry : registry first base eh';
  is_resolves : resolve h eh' = Some e;
  is_grows : grows eh eh'
}.

Lemma issue_issues prefix e eh r :
  registry first base eh -> prefix ∈ letters -> issued (_issue prefix e eh) = Ok r -> issues e eh r.1 r.2.
Proof.
  intros Hr Hp. destruct (_issue prefix e eh) as [[h eh']|] eqn:E; [|done]. intros [= <-].
  destruct (issued_resolves _ _ _ _ _ _ _ Hr Hp E) as (He & Hg & _).
  constructor; [by eapply issue_registry|done|by intros h' e' ?; apply Hg].
Qed.
Lemma passage_issues p eh r :
  registry first base eh -> passage_handle p eh = Ok r -> issues (entry_of at_sha256 at_dumps at_uuid p) eh r.1 r.2.
Proof. intros Hr. apply issue_issues; [done|set_solver]. Qed.
Lemma document_issues d eh r :
  registry first base eh -> issued (document d eh) = Ok r -> issues (Document d) eh r.1 r.2.
Proof. intros Hr. apply issue_issues; [done|set_solver]. Qed.
Lemma web_issues url title text eh r :
  registry first base eh -> issued (web url title text eh) = Ok r -> issues (Web url title text) eh r.1 r.2.
Proof. intros Hr. apply issue_issues; [done|set_solver]. Qed.

Lemma evidence_grows call p eh r :
  registry first base eh -> _evidence call p eh = Ok r -> registry first base r.2 /\ grows eh r.2.
Proof.
  unfold _evidence. intros Hr.
  destruct (if bool_decide _ then _ else _) as [d|] eqn:Ed; [|done]. simpl.
  assert (registry first base d.2 /\ grows eh d.2) as [Hd Gd].
  { case_bool_decide; [|by injection Ed as <-].
    destruct (issued (document _ eh)) as [r0|] eqn:E0; [|done]. injection Ed as <-.
    by destruct (document_issues _ _ _ Hr E0). }
  destruct (passage_handle p d.2) as [r1|] eqn:E1; [|done]. intros [= <-]. simpl.
  destruct (passage_issues _ _ _ Hd E1). split; [done|by etransitivity].
Qed.

(** The entries of a loop all stand for their evidence. *)
Record grounded (l : loop) : Prop := {
  gd_registry : registry first base (lp_handles l);
  gd_available : Forall (fun h => exists e, resolve h (lp_handles l) = Some e) (lp_available l);
  gd_corpus : Forall (fun hc => gc_handle hc.2 = Some hc.1 /\ exists fp prov, resolve hc.1 (lp_handles l)
    = Some (Passage (gc_document_id hc.2) (gc_chunk_id hc.2) (gc_char_start hc.2) (gc_char_end hc.2) fp prov)) (lp_corpus l);
  gd_web : Forall (fun hw => resolve hw.1 (lp_handles l)
    = Some (Web (wc_url hw.2) (wc_title hw.2) (wc_snippet hw.2))) (lp_web l)
}.

Lemma dict_set_all {V} (P : pystr * V -> Prop) k v d : Forall P d -> P (k, v) -> Forall P (dict_set k v d).
Proof.
  intros Hd Hp. induction d as [|[k' v'] d IH]; simpl; [by repeat constructor|].
  apply Forall_cons in Hd as [? ?]. case_decide; subst; constructor; auto.
Qed.

(** New handles keep the old ones. *)
Lemma with_handles_grounded eh l :
  grounded l -> registry first base eh -> grows (lp_handles l) eh -> grounded (with_handles eh l).
Proof.
  intros [] Hr Hg. constructor; simpl; [done|..].
  - eapply Forall_impl; [done|]. intros h [e He]. exists e. by apply Hg.
  - eapply Forall_impl; [done|]. intros hc (Hh & fp & prov & He). split; [done|]. exists fp, prov. by apply Hg.
  - eapply Forall_impl; [done|]. intros hw He. by apply Hg.
Qed.
Lemma with_available_grounded h e l :
  grounded l -> resolve h (lp_handles l) = Some e -> grounded (with_available h l).
Proof.
  intros [] He. constructor; simpl; try done. destruct (mem h _); [done|].
  apply Forall_app. split; [done|]. apply Forall_singleton. by exists e.
Qed.

(** The handles of [l'] keep those of [l]. *)
Definition follows (l l' : loop) : Prop := grounded l' /\ grows (lp_handles l) (lp_handles l').

Lemma passage_blocks_grounded call ps l r :
  grounded l -> passage_blocks call ps l = Ok r -> follows l r.2.
Proof.
  revert l r. induction ps as [|p ps IH]; intros l r Hl; simpl; [by intros [= <-]; split|].
  destruct (passage_handle p (lp_handles l)) as [h|] eqn:Eh; [|done]. simpl.
  destruct (passage_issues _ _ _ (gd_registry _ Hl) Eh) as [Hr He Hg].
  destruct (_evidence call p h.2) as [b|] eqn:Eb; [|done]. simpl.
  destruct (evidence_grows _ _ _ _ Hr Eb) as [Hr2 Hg2].
  destruct (passage_blocks call ps _) as [rest|] eqn:Er; [|done]. intros [= <-]. simpl.
  assert (grows (lp_handles l) b.2) as Hg3 by (by etransitivity).
  destruct (IH _ _ (with_available_grounded h.1 _ _ (with_handles_grounded _ _ Hl Hr2 Hg3) (Hg2 _ _ He)) Er).
  split; [done|]. by etransitivity.
Qed.

Lemma follows_trans l1 l2 l3 : follows l1 l2 -> follows l2 l3 -> follows l1 l3.
Proof. intros [_ G1] [H2 G2]. split; [done|by etransitivity]. Qed.

(** The same handles and evidence, with other messages. *)
Lemma same_evidence l l' :
  lp_handles l' = lp_handles l -> lp_available l' = lp_available l -> lp_corpus l' = lp_corpus l ->
  lp_web l' = lp_web l -> grounded l -> follows l l'.
Proof.
  intros E1 E2 E3 E4 []. split; [|by rewrite E1]. constructor; by rewrite ?E1, ?E2, ?E3, ?E4.
Qed.

Lemma web_block_grounded item acc acc' :
  grounded acc.2 -> web_block item acc = Ok acc' -> follows acc.2 acc'.2.
Proof.
  destruct acc as [blocks l]. unfold web_block. intros Hl. simpl in Hl.
  destruct (take visible_chars _) as [|c visible]; [by intros [= <-]; split|].
  set (text := c :: visible). set (url := or_empty (dict_get (cp "url") item)).
  set (title := or_empty (dict_get (cp "title") item)).
  destruct (issued (web url title text (lp_handles l))) as [[h eh]|] eqn:Ei; [|done]. simpl.
  destruct (web_issues _ _ _ _ _ (gd_registry _ Hl) Ei) as [Hr He Hg]. simpl in *.
  set (l1 := mk_loop _ _ eh _ _ _ _ _ _ _ _).
  assert (follows l l1) as H1.
  { split; [|done]. destruct (with_handles_grounded _ _ Hl Hr Hg). by constructor. }
  unfold web_post_init. destruct (at_urlsplit _) as [u|]; simpl; [|by intros [= <-]].
  destruct (_ || _); [by intros [= <-]|]. intros [= <-]. simpl.
  eapply follows_trans; [exact H1|]. destruct H1 as [[] _].
  split; [|by intros h' e']. apply (with_available_grounded h (Web url title text)); [|done].
  constructor; simpl; try done. by apply dict_set_all.
Qed.

Lemma web_blocks_grounded items acc acc' :
  grounded acc.2 -> web_blocks items acc = Ok acc' -> follows acc.2 acc'.2.
Proof.
  revert acc. induction items as [|item items IH]; intros acc Hl; simpl; [by intros [= <-]; split|].
  destruct (web_block item acc) as [acc1|] eqn:E1; [|done]. simpl. intros E2.
  pose proof (web_block_grounded _ _ _ Hl E1) as F1. eapply follows_trans; [exact F1|].
  apply IH; [apply F1|done].
Qed.

Lemma hide_documents_grows ids content eh r :
  registry first base eh -> hide_documents ids content eh = Ok r -> registry first base r.2 /\ grows eh r.2.
Proof.
  revert content eh. induction ids as [|d ids IH]; intros content eh Hr; simpl; [by intros [= <-]|].
  destruct (issued (document d eh)) as [h|] eqn:Eh; [|done]. simpl. intros E.
  destruct (document_issues _ _ _ Hr Eh) as [Hr1 _ Hg]. destruct (IH _ _ Hr1 E). split; [done|by etransitivity].
Qed.

Lemma evidence_pairs_grows call ps eh r :
  registry first base eh -> evidence_pairs call ps eh = Ok r -> registry first base r.2 /\ grows eh r.2.
Proof.
  revert eh r. induction ps as [|p ps IH]; intros eh r Hr; simpl; [by intros [= <-]|].
  destruct (_evidence call p eh) as [b|] eqn:Eb; [|done]. simpl.
  destruct (evidence_grows _ _ _ _ Hr Eb) as [Hr1 Hg]. destruct (evidence_pairs call ps b.2) as [rest|] eqn:Er; [|done].
  intros [= <-]. destruct (IH _ _ Hr1 Er). split; [done|by etransitivity].
Qed.

Lemma cite_passage_grounded p l l' : grounded l -> cite_passage p l = Ok l' -> follows l l'.
Proof.
  intros Hl. unfold cite_passage. destruct (passage_handle p (lp_handles l)) as [r|] eqn:Er; [|done].
  intros [= <-]. destruct (passage_issues _ _ _ (gd_registry _ Hl) Er) as [Hr He Hg]. split; [|done].
  destruct (with_handles_grounded _ _ Hl Hr Hg). constructor; simpl; try done.
  apply dict_set_all; [done|]. simpl. split; [done|]. do 2 eexists. exact He.
Qed.
Lemma cite_passages_grounded ps l l' : grounded l -> cite_passages ps l = Ok l' -> follows l l'.
Proof.
  revert l. induction ps as [|p ps IH]; intros l Hl; simpl; [by intros [= <-]; split|].
  destruct (cite_passage p l) as [l1|] eqn:E1; [|done]. simpl. intros E2.
  pose proof (cite_passage_grounded _ _ _ Hl E1) as F1. eapply follows_trans; [exact F1|]. apply IH; [apply F1|done].
Qed.

Lemma result_content_grounded call r l c :
  grounded l -> result_content call r l = Ok c -> follows l c.2.
Proof.
  intros Hl. unfold result_content. destruct (tr_passages r) as [|p ps].
  - destruct (_ && _); [|by intros [= <-]; split].
    destruct (web_items _) as [items|]; [|done]. simpl. destruct (web_blocks items ([], l)) as [b|] eqn:Eb; [|done].
    intros [= <-]. pose proof (web_blocks_grounded items ([], l) b Hl Eb) as F. eapply follows_trans; [exact F|].
    by apply same_evidence; [..|apply F].
  - destruct (passage_blocks call (p :: ps) l) as [b|] eqn:Eb; [|done]. intros [= <-].
    by eapply passage_blocks_grounded.
Qed.

Lemma fold_result_grounded call r l l' : grounded l -> fold_result call r l = Ok l' -> follows l l'.
Proof.
  intros Hl. unfold fold_result. set (l0 := mk_loop _ _ _ _ _ _ _ _ _ _ _).
  assert (follows l l0) as F0 by by apply same_evidence.
  destruct (result_content call r l0) as [c|] eqn:Ec; [|done]. cbv [mbind res_bind].
  pose proof (follows_trans _ _ _ F0 (result_content_grounded _ _ _ _ (proj1 F0) Ec)) as F1.
  destruct (hide_documents _ _ _) as [h|] eqn:Eh; [|done].
  destruct (hide_documents_grows _ _ _ _ (gd_registry _ (proj1 F1)) Eh) as [Hr2 Hg2].
  set (l3 := mk_loop (_ ++ _) _ _ _ _ _ _ _ _ _ _).
  assert (follows l l3) as F3.
  { eapply follows_trans; [exact F1|]. split; [|done].
    destruct (with_handles_grounded _ _ (proj1 F1) Hr2 Hg2). by constructor. }
  destruct (tr_passages r) as [|p ps]; [by intros [= <-]|].
  cbv beta iota. set (qs := p :: ps). clearbody qs. clear p ps. rename qs into ps.
  destruct (evidence_pairs call ps _) as [e|] eqn:Ee; [|done]. cbv [mbind res_bind]. intros E4.
  destruct (evidence_pairs_grows _ _ _ _ Hr2 Ee) as [Hr4 Hg4].
  match type of E4 with cite_passages _ ?l4 = _ => assert (follows l l4) as F4 end.
  { eapply follows_trans; [exact F3|]. split; [|done].
    destruct (with_handles_grounded e.2 _ (proj1 F3) Hr4 Hg4). by constructor. }
  eapply follows_trans; [exact F4|]. apply (cite_passages_grounded ps); [apply F4|exact E4].
Qed.

(** However the results of tool calls are folded into an answer, every handle the
    model may cite stands for evidence that was registered, a corpus citation for
    exactly its document, chunk and offsets and a web citation for its page and
    excerpt, and no handle ever changes what it stands for. *)
Theorem fold_results_grounded pairs l l' :
  grounded l -> fold_results pairs l = Ok l' -> follows l l'.
Proof.
  revert l. induction pairs as [|[c r] pairs IH]; intros l Hl; simpl; [by intros [= <-]; split|].
  destruct (fold_result c r l) as [l1|] eqn:E1; [|done]. simpl. intros E2.
  pose proof (fold_result_grounded _ _ _ _ Hl E1) as F1. eapply follows_trans; [exact F1|]. apply IH; [apply F1|done].
Qed.

(** *** The final check *)

Lemma valid_passages_spec fresh eh v :
  registry first base eh -> valid_passages fresh eh = Ok v ->
  registry first base v.2 /\ grows eh v.2
  /\ (forall h p, (h, p) ∈ v.1 -> p ∈ fresh /\ resolve h v.2 = Some (entry_of at_sha256 at_dumps at_uuid p)).
Proof.
  revert eh v. induction fresh as [|p fresh IH]; intros eh v Hr; simpl.
  { intros [= <-]. split_and!; [done|done|]. intros h p Hp. simpl in Hp. set_solver. }
  destruct (passage_handle p eh) as [r|] eqn:Er; [|done]. simpl.
  destruct (passage_issues _ _ _ Hr Er) as [Hr1 He Hg]. destruct (valid_passages fresh r.2) as [rest|] eqn:Ev; [|done].
  intros [= <-]. destruct (IH _ _ Hr1 Ev) as (Hr2 & Hg2 & Hin). simpl. rewrite He.
  split_and!; [done|by etransitivity|]. intros h q [[= -> ->]|Hq]%elem_of_cons; [split; [set_solver|by apply Hg2]|].
  destruct (Hin _ _ Hq). split; [set_solver|done].
Qed.

Lemma last_of_elem {V} h (l : list (pystr * V)) v : last_of h l = Some v -> (h, v) ∈ l.
Proof. intros Hl%dict_get_In. by rewrite reverse_Permutation in Hl. Qed.

Lemma set_chunk_elem k v d x : x ∈ (set_chunk k v d).*2 -> x = v \/ x ∈ d.*2.
Proof.
  induction d as [|[k' v'] d IH]; simpl; [set_solver|]. case_decide; simpl; [set_solver|].
  rewrite !elem_of_cons. intros [?|Hx]; [auto|]. destruct (IH Hx); auto.
Qed.
Lemma by_chunk_elem cs c : c ∈ by_chunk cs -> c ∈ cs.
Proof.
  unfold by_chunk. assert (forall d, c ∈ (foldl (fun d c => set_chunk (gc_chunk_id c) c d) d cs).*2 ->
    c ∈ d.*2 \/ c ∈ cs) as Hd; [|intros Hc; destruct (Hd [] Hc); set_solver].
  induction cs as [|c' cs IH]; intros d; simpl; [by left|].
  intros Hc. destruct (IH _ Hc) as [Hx|Hx]; [|set_solver]. apply set_chunk_elem in Hx. set_solver.
Qed.

Lemma settle_cited text corpus web handles eh sel :
  settle_selection text corpus web handles eh = Ok sel ->
  (forall c, c ∈ sel_cited sel -> c ∈ corpus.*2) /\ sel_handles sel = eh.
Proof.
  unfold settle_selection. destruct (select_cited_handles _ _ _) as [cleaned selected].
  unfold in_cited_order. destruct (forallb _ _); [|done]. intros [= <-]. simpl. split; [|done].
  intros c Hc%by_chunk_elem. by rewrite elem_of_py_sorted in Hc.
Qed.
End grounding.
