(* ===== verification/ChatAnswer.v ===== *)
(** * The answer loop

    [ChatRuntime._answer] (services/chat_runtime.py): the preparation of the prompt,
    the tool turns with their batches ([_run_tool_batch]), the forced synthesis, the
    clarifying question, the length continuation, the selection of the final text,
    its persistence, the commit and the terminal, and the follow-up suggestions.

    The collaborators are the class [Host]: what the governed runner answers to a
    call, what the reads of the database give at an await, and the completion of the
    suggestions.  A database operation is one await. *)

From stdpp Require Import base list strings sets gmap pretty.
From Stdlib Require Import Lia ZArith.
From S2P Require Import Prelude Json ToolSchema ToolWire Tools ToolPolicy Context Grounding ChatStream ChatTurn Answer.
Open Scope Z_scope.

Class Host := {
  (** [runner.run] at an await, and how the runner schedules. *)
  run_tool : nat -> ToolCall -> res exn ToolResult;
  is_concurrency_safe : pystr -> bool;
  (** A worker of the fan-out saw the Stop before its call; the order in which the
      workers complete. *)
  worker_stopped : nat -> ToolCall -> bool;
  completion_order : nat -> list (nat * ToolCall) -> list (nat * ToolCall);
  (** The reads. *)
  tool_registry : ToolPolicy.registry;
  policies_at : nat -> policy_table;
  mcp_specs_at : nat -> option (list (pystr * ToolSpec));
  tenant_row_at : nat -> option (option Z * list json);
  fallback_validator : option (nat -> pystr -> bool);
  reserve_at : nat -> res exn N;
  load_at : nat -> list (pystr * evidence);
  append_at : nat -> list (pystr * evidence) -> res exn unit;
  permitted_names_at : nat -> list uuid -> list (uuid * pystr);
  chunk_pairs_at : nat -> list uuid -> list (uuid * uuid);
  read_passages_at : nat -> list uuid -> list RetrievedPassage;
  citation_row_id : nat -> uuid;
  (** The model's window, the token counter and the prompt texts. *)
  host_max_input : pystr -> option Z;
  host_count : pystr -> pystr -> Z;
  host_context : ContextConfig;
  host_sha256_name : pystr -> pystr;
  host_dumps_sorted : json -> pystr;
  grounded_system_prompt : pystr;
  redact_summary_names : pystr -> list pystr -> option pystr;
  reserved_segments : option pystr -> list (pystr * uuid) -> list ChatMessage;
  follow_up_prompt : pystr -> pystr -> nat -> list ChatMessage;
  (** [gateway.chat] under its time-out. *)
  complete : nat -> ModelRoute -> list ChatMessage -> res exn (pystr * TokenUsage)
}.

(** The arguments of [run], with the message id it mints. *)
Record request := mk_answer_request {
  rq_principal : Principal;
  rq_session_id : uuid;
  rq_message_id : uuid;
  rq_question : pystr;
  rq_model : pystr;
  rq_history : list ChatMessage;
  rq_collection_ids : option (list uuid);
  rq_document_ids : option (list uuid);
  rq_assistant : option AssistantRunConfig;
  rq_custom_instructions : option pystr;
  rq_simulate_writes : bool;
  rq_summary : option pystr;
  rq_evidence : list (uuid * uuid);
  rq_mentioned : list (uuid * pystr)
}.

Definition lift {A} (r : res exn A) : M A := fun s => (r, s).

(** [except Exception]: everything but [CancelledError]. *)
Definition is_exception (e : exn) : bool := match e with CancelledError => false | _ => true end.
Definition except_exception {A} (m : M A) (h : M A) : M A :=
  catch m (fun e => if is_exception e then h else raise e).

(** The value of a read at the await it makes. *)
Definition reading {A} (env : Env) (f : nat -> A) : M A :=
  s ← get; db_read env ;; ret (f (w_tick (wd s))).

Section answer.
Context `{AnswerText} `{SchemaLib} `{Host}.
Context (env : Env) (llm : Llm) (cfg : config) (rq : request).

(** ** Fitting the transcript *)

Definition context_too_large (detail : pystr) : exn :=
  AppError 422 (cp "Unprocessable Entity") CONTEXT_TOO_LARGE (Some detail).
Definition too_large_question : pystr :=
  cp "The question, instructions, and tools exceed the model's context window. Shorten the question or choose a larger-context model.".
Definition too_large_transcript : pystr :=
  cp "This answer's context exceeded the model's window even after trimming history. Start a new conversation or choose a larger-context model.".

Definition context_result {A} (detail : pystr) (r : res pystr A) : res exn A :=
  match r with
  | Ok a => Ok a
  | Err code => Err (if decide (code = CONTEXT_TOO_LARGE) then context_too_large detail else OtherError)
  end.

Definition fit (tools : list ToolSpec) (l : loop) (model : pystr) : res exn (list ChatMessage) :=
  context_result too_large_transcript
    (fit_transcript host_sha256_name at_dumps host_dumps_sorted (host_count model) (host_max_input model)
       host_context (lp_messages l) tools (cited_snippets l)).

(** [messages = fit_transcript(messages, model=route_state.route.model, ...)] *)
Definition refit_now (tools : list ToolSpec) (l : loop) : M loop :=
  s ← get;
  messages ← lift (fit tools l (mr_model (rs_route (r_route_state (rt s)))));
  ret (with_messages (fun _ => messages) l).

(** ** Tool batches *)

Definition _publish_tool_call (call : ToolCall) : M unit := emit env (ToolCallEvent call).
Definition _publish_tool_result (call : ToolCall) (r : ToolResult) : M unit := emit env (ToolResultEvent call r).
Definition _audit_retrieval (call : ToolCall) (r : ToolResult) : M unit :=
  when (_is_retrieval_call call) (db_write env (WRetrievalAudit call r)).

(** A call is given to the runner. *)
Definition dispatch (call : ToolCall) : M unit :=
  when (is_external_tool (tc_name call)) (modify (on_world count_tool)).

(** [result = await runner.run(...)], with the trace row it persists. *)
Definition run_call (call : ToolCall) : M ToolResult :=
  dispatch call ;;
  s ← get;
  await env ;;
  r ← lift (run_tool (w_tick (wd s)) call);
  db_write env (WToolTrace call r) ;;
  ret r.

(** The serial form. *)
Definition serial_call (call : ToolCall) : M ToolResult :=
  _check_cancelled env ;;
  _publish_tool_call call ;;
  _check_cancelled env ;;
  r ← run_call call;
  _check_cancelled env ;;
  _audit_retrieval call r ;;
  _publish_tool_result call r ;;
  ret r.

Fixpoint serial_calls (calls : list (nat * ToolCall)) (done : list (nat * ToolResult))
    : M (list (nat * ToolResult)) :=
  match calls with
  | [] => ret done
  | (i, call) :: calls => r ← serial_call call; serial_calls calls (done ++ [(i, r)])
  end.

(** The completion of one fanned-out worker. *)
Definition join_worker (call : ToolCall) : M ToolResult :=
  s ← get;
  await env ;;
  if worker_stopped (w_tick (wd s)) call
  then modify (on_runtime (set_cancel_requested true)) ;; raise CancelledError
  else
    r ← lift (run_tool (w_tick (wd s)) call);
    db_write env (WToolTrace call r) ;;
    ret r.

Fixpoint join_workers (order : list (nat * ToolCall)) (done : list (nat * ToolResult))
    : M (list (nat * ToolResult)) :=
  match order with
  | [] => ret done
  | (i, call) :: order =>
      r ← join_worker call;
      _check_cancelled env ;;
      _publish_tool_result call r ;;
      join_workers order (done ++ [(i, r)])
  end.

Fixpoint lookup_result (i : nat) (done : list (nat * ToolResult)) : res exn ToolResult :=
  match done with
  | [] => Err OtherError
  | (j, r) :: done => if Nat.eqb i j then Ok r else lookup_result i done
  end.

Definition indexed (calls : list ToolCall) : list (nat * ToolCall) := imap pair calls.

(** The calls that run concurrently: engaged from two members on. *)
Definition fan_out_set (calls : list ToolCall) : list (nat * ToolCall) :=
  let safe := List.filter (fun ic => is_concurrency_safe (tc_name ic.2)) (indexed calls) in
  if (1 <? cf_tool_concurrency cfg) && Nat.ltb 1 (length safe) then safe else [].

(** The fan-out; a failure reaps the siblings before it propagates. *)
Definition run_fan_out (fan_out : list (nat * ToolCall)) : M (list (nat * ToolResult)) :=
  match fan_out with
  | [] => ret []
  | _ =>
      forM fan_out (fun ic => _publish_tool_call ic.2) ;;
      forM fan_out (fun ic => dispatch ic.2) ;;
      s ← get;
      done ← catch (join_workers (completion_order (w_tick (wd s)) fan_out) [])
               (fun e => await env ;; await env ;; raise e);
      forM fan_out (fun ic => when (_is_retrieval_call ic.2)
        (r ← lift (lookup_result ic.1 done); _audit_retrieval ic.2 r)) ;;
      ret done
  end.

Definition _run_tool_batch (calls : list ToolCall) : M (list ToolResult) :=
  let fan_out := fan_out_set calls in
  let fanned := fan_out.*1 in
  let serial_form := List.filter (fun ic => negb (mem ic.1 fanned)) (indexed calls) in
  done ← run_fan_out fan_out;
  done ← serial_calls serial_form done;
  lift (mapR (fun ic => lookup_result ic.1 done) (indexed calls)).

(** ** Turns *)

(** What the preparation resolves for the loop. *)
Record prepared := mk_prepared {
  pr_tools : list ToolSpec;
  pr_asks : bool;          (* [ask_user] is on the allow-list *)
  pr_max_tool_turns : nat;
  pr_collection_ids : option (list uuid);
  pr_start : loop
}.
Context (pr : prepared).
Definition tools : list ToolSpec := pr_tools pr.

Definition think (step_state : string) (detail : option pystr) (turn : nat) : M unit :=
  _emit_step env (cp "think") (cp "Thinking") (cp step_state) detail (Some (Z.of_nat turn)).

(** How a tool turn leaves the loop, or continues it. *)
Inductive step : Type :=
| Answered (chunks : list pystr) (finish_reason : pystr) (l : loop)
| Asked (q : AskUserQuestion) (l : loop)
| Spent (l : loop)
| Continue (external_calls_used : Z) (l : loop).

Definition requested (n : nat) : pystr :=
  cp "requested " ++ cp (pretty n) ++ cp " tool" ++ (if Nat.eqb n 1 then [] else cp "s").
Definition external_calls (calls : list ToolCall) : Z :=
  Z.of_nat (length (List.filter (fun c => is_external_tool (tc_name c)) calls)).
Definition over_external_budget (used : Z) : bool :=
  match ab_max_external_calls (cf_budgets cfg) with Some cap => cap <? used | None => false end.
Definition calls_message (calls : list ToolCall) : ChatMessage :=
  Context.mk_message ASSISTANT [] calls None None None.

Definition ask_user_call (calls : list ToolCall) : option AskUserQuestion :=
  if cf_interactive cfg && pr_asks pr then _select_ask_user at_casefold at_repr calls else None.

(** One iteration of the tool loop; [turn] counts from 1. *)
Definition tool_turn (turn : nat) (used : Z) (l : loop) : M step :=
  _check_cancelled env ;;
  l ← refit_now tools l;
  think "started" None turn ;;
  t ← _stream_turn_resilient env llm cfg (fit tools l) (Some (Z.of_nat turn)) true true tools None (lp_messages l);
  match t_tool_calls t with
  | [] => think "completed" None turn ;; ret (Answered (t_text_chunks t) (t_finish_reason t) l)
  | calls =>
      match ask_user_call calls with
      | Some q => think "completed" (Some (cp "needs your input")) turn ;; ret (Asked q l)
      | None =>
          think "completed" (Some (requested (length calls))) turn ;;
          let used := used + external_calls calls in
          if over_external_budget used then ret (Spent l)
          else
            _check_cancelled env ;;
            let l := with_messages (fun ms => ms ++ [calls_message calls]) l in
            results ← _run_tool_batch calls;
            _check_cancelled env ;;
            l ← lift (fold_results (zip calls results) l);
            ret (Continue used l)
      end
  end.

(** [for turn_index in range(max_tool_turns)]: [n] turns are left. *)
Fixpoint tool_loop (n turn : nat) (used : Z) (l : loop) : M step :=
  match n with
  | O => ret (Spent l)
  | S n =>
      r ← tool_turn turn used l;
      match r with Continue used l => tool_loop n (S turn) used l | r => ret r end
  end.

(** The forced synthesis once the budget is spent. *)
Definition synthesis (l : loop) : M (list pystr * pystr * loop) :=
  modify (on_runtime (set_exhausted true)) ;;
  _check_cancelled env ;;
  l ← refit_now tools l;
  let turn := S (pr_max_tool_turns pr) in
  think "started" (Some (cp "wrapping up")) turn ;;
  t ← _stream_turn_resilient env llm cfg (fit tools l) None true true tools (Some (cp "none")) (lp_messages l);
  think "completed" None turn ;;
  ret (t_text_chunks t, t_finish_reason t, l).

(** The length continuation: one more turn, streamed only once it completed. *)
Definition continuation (chunks : list pystr) (l : loop) : M (list pystr * pystr * loop) :=
  let l := match chunks with
    | [] => l
    | _ => with_messages (fun ms => ms ++ [Context.mk_message ASSISTANT (mjoin chunks) [] None None None]) l
    end in
  l ← refit_now tools l;
  r ← catch (t ← _stream_turn_resilient env llm cfg (fit tools l) None false false tools (Some (cp "none")) (lp_messages l);
             ret (Some t))
        (fun e => if is_app_error e then ret None else raise e);
  match (r : option turn) with
  | None => ret (chunks, cp "length", l)
  | Some t => _publish_text env (t_text_chunks t) ;; ret (chunks ++ t_text_chunks t, t_finish_reason t, l)
  end.

(** The text the answer ends with: the loop's, the synthesis's, and the
    continuation of a capped one; or the clarifying question. *)
Definition produce : M (AskUserQuestion * loop + (list pystr * pystr * loop)) :=
  r ← tool_loop (pr_max_tool_turns pr) 1 0 (pr_start pr);
  match r with
  | Asked q l => ret (inl (q, l))
  | Answered chunks finish l =>
      if bool_decide (finish = cp "length")
      then c ← continuation chunks l; ret (inr c) else ret (inr (chunks, finish, l))
  | Spent l | Continue _ l =>
      c ← synthesis l;
      if bool_decide (c.1.2 = cp "length")
      then c ← continuation c.1.1 c.2; ret (inr c) else ret (inr c)
  end.

(** ** The final text *)

Definition read_passages (ids : list uuid) : M (list RetrievedPassage) :=
  reading env (fun n => read_passages_at n ids).

(** The citations of the text, with the last check that their evidence is still
    readable and unchanged. *)
Definition select_final (answer_text : pystr) (l : loop) : M selection :=
  let '(cleaned, handles) := select_cited_handles at_markers answer_text (lp_available l) in
  match selected_corpus l handles with
  | [] => lift (settle_selection cleaned [] (lp_web l) handles (lp_handles l))
  | corpus =>
      fresh ← read_passages (chunks_to_read corpus);
      v ← lift (valid_passages fresh (lp_handles l));
      let kept := List.filter (still_valid v.1) corpus in
      db_write env (WFinalCheck (rq_session_id rq) (length corpus) (length kept)) ;;
      if Nat.eqb (length kept) (length corpus)
      then lift (settle_selection cleaned kept (lp_web l) handles v.2)
      else lift (settle_selection NO_SOURCES_FALLBACK [] [] [] v.2)
  end.

(** Publishing the selected text in place of the streamed one. *)
Definition republish (streamed : pystr) (sel : selection) : M unit :=
  when (negb (bool_decide (sel_text sel = streamed)))
    (_retract_answer env ;; _publish_text env [sel_text sel]).

(** A text with nothing visible is replaced by the fallback. *)
Definition or_fallback (sel : selection) : M selection :=
  if blank (sel_text sel) then
    s ← get;
    when (s_answer_on_wire (st s) || bool_decide (tc_kind (s_buffer (st s)) = Some _ANSWER_TEXT))
      (_retract_answer env) ;;
    _stream_text env _ANSWER_TEXT NO_SOURCES_FALLBACK ;;
    ret (mk_selection NO_SOURCES_FALLBACK [] [] (sel_handles sel))
  else ret sel.

(** ** Persistence *)

Fixpoint store_citations (cs : list GroundedCitation) : M (list GroundedCitation) :=
  match cs with
  | [] => ret []
  | c :: cs =>
      s ← get;
      db_write env (WCitation (rq_message_id rq) c) ;;
      rest ← store_citations cs;
      ret (set_id (citation_row_id (w_tick (wd s))) c :: rest)
  end.

Definition _persist (content : pystr) (citations : list GroundedCitation)
    (question : option AskUserQuestion) (prompt_context : list ChatMessage) : M (list GroundedCitation) :=
  s ← get;
  db_write env (WMessage (rq_message_id rq) (rq_session_id rq) content (rs_model (r_route_state (rt s))) None
                  question (message_sources citations prompt_context)) ;;
  store_citations citations.

(** [handle_repo.append(handles.created)] *)
Definition append_handles (eh : EvidenceHandles) : M unit :=
  r ← reading env (fun n => append_at n (eh_created eh));
  lift r ;;
  db_write env (WHandles (eh_created eh)).

(** [_record_usage_scopes]: a row per closed scope, and the message's. *)
Definition _record_usage_scopes : M unit :=
  s ← get;
  let rs := r_route_state (rt s) in
  forM (rs_spent rs) (fun mu => db_write env (WUsage mu.1 mu.2 (rq_session_id rq) (rq_message_id rq) None)) ;;
  db_write env (WUsage (rs_model rs) (r_usage (rt s)) (rq_session_id rq) (rq_message_id rq) (Some (rq_message_id rq))).

Definition _audit_answer (citation_count : Z) (hits : Z) (documents : list uuid) : M unit :=
  s ← get;
  db_write env (WAnswerAudit (rq_message_id rq) (rs_model (r_route_state (rt s))) citation_count hits documents).

(** [self._outcome_usage = answer_usage], and the payload of [done]. *)
Definition done_payload (finish_reason : pystr) (citation_count : Z) (will_suggest : bool) : M body :=
  s ← get;
  let rs := r_route_state (rt s) in
  let usage := _answer_usage_totals rs (r_usage (rt s)) in
  modify (on_runtime (set_outcome_usage usage)) ;;
  ret (Done (rq_message_id rq) finish_reason (rs_model rs) citation_count usage
         (if will_suggest then Some (cf_suggestions_grace_ms cfg) else None)).

(** The durable boundary: after it a Stop is late, the usage is recorded and the
    text may not be retracted. *)
Definition commit_answer : M unit :=
  _check_cancelled env ;;
  modify (on_runtime (set_completing true)) ;;
  commit env ;;
  modify (on_runtime (set_salvage false)) ;;
  modify (on_stream (set_committed true)).

Definition finalize_step (step_state : string) : M unit :=
  _emit_step env (cp "finalize") (cp "Finalizing") (cp step_state) None None.

(** The clarifying question is the message; it cites nothing. *)
Definition finish_question (q : AskUserQuestion) (l : loop) : M unit :=
  append_handles (lp_handles l) ;;
  _persist (aq_question q) [] (Some q) (lp_prompt_context l) ;;
  _record_usage_scopes ;;
  _audit_answer 0 (lp_hits l) [] ;;
  done ← done_payload (cp "ask_user") 0 false;
  commit_answer ;;
  emit env (AskUserEvent (rq_message_id rq) q) ;;
  _publish_terminal_done env cfg done.

(** ** Follow-up suggestions *)

Definition _SUGGESTIONS_ANSWER_TAIL_CHARS : nat := 4000.
Definition _SUGGESTIONS_QUESTION_HEAD_CHARS : nat := 1000.
(** [s[-n:]] for a positive [n]. *)
Definition last_chars (n : nat) (s : pystr) : pystr := drop (length s - n) s.

Definition _generate_suggestions (answer : pystr) (route : ModelRoute) : M (list pystr * _Usage) :=
  let prompt := follow_up_prompt (take _SUGGESTIONS_QUESTION_HEAD_CHARS (rq_question rq))
                  (last_chars _SUGGESTIONS_ANSWER_TAIL_CHARS answer) (cf_suggestions_count cfg) in
  r ← except_exception
        (_claim_model_call env cfg ;;
         s ← get;
         modify (on_world count_call) ;;
         await env ;;
         c ← lift (complete (w_calls (wd s)) route prompt);
         ret (Some c))
        (ret None);
  match (r : option (pystr * TokenUsage)) with
  | None => ret ([], no_usage)
  | Some (content, u) =>
      ret (_parse_suggestions at_casefold at_repr at_loads content (cf_suggestions_count cfg),
           add_usage no_usage u)
  end.

Definition _resolve_suggestions_route (answer_route : ModelRoute) : M ModelRoute :=
  match cf_suggestions_model cfg with
  | Some ((_ :: _) as m) => _resolve_model_route env llm m
  | _ => ret answer_route
  end.

(** An independent transaction, after the terminal; it never fails. *)
Definition _run_followup_suggestions (answer_text : pystr) : M (list pystr) :=
  s ← get;
  except_exception
    (in_session
      (route ← _resolve_suggestions_route (rs_route (r_route_state (rt s)));
       g ← _generate_suggestions answer_text route;
       when (negb (us_total g.2 =? 0) || negb (us_prompt g.2 =? 0))
         (db_write env (WSuggestionUsage (mr_model route) g.2 (rq_session_id rq) (rq_message_id rq)) ;;
          commit env) ;;
       ret g.1))
    (ret []).

(** ** The whole answer *)

(** From the selected text to the commit; [true] when suggestions follow. *)
Definition finish_answer (chunks : list pystr) (finish_reason : pystr) (l : loop) : M (body * pystr * bool) :=
  let streamed := mjoin chunks in
  sel ← select_final streamed l;
  republish streamed sel ;;
  sel ← or_fallback sel;
  _check_cancelled env ;;
  finalize_step "started" ;;
  stored ← _persist (sel_text sel) (sel_cited sel) None (lp_prompt_context l);
  append_handles (sel_handles sel) ;;
  forM (sel_web sel) (fun w => db_write env (WWebCitation (rq_message_id rq) w)) ;;
  db_write env (WEvidence (rq_session_id rq) ((fun c => (gc_document_id c, gc_chunk_id c)) <$> sel_cited sel)) ;;
  forM stored (fun c => emit env (CitationEvent c)) ;;
  forM (sel_web sel) (fun w => emit env (WebCitationEvent w)) ;;
  let count := Z.of_nat (length stored + length (sel_web sel)) in
  _audit_answer count (lp_hits l) (reverse (remove_dups (reverse (gc_document_id <$> stored)))) ;;
  finalize_step "completed" ;;
  let will_suggest := cf_suggestions_enabled cfg && negb (bool_decide (sel_text sel = NO_SOURCES_FALLBACK)) in
  done ← done_payload finish_reason count will_suggest;
  _record_usage_scopes ;;
  commit_answer ;;
  ret (done, sel_text sel, will_suggest).

Definition suggest (answer_text : pystr) (will_suggest : bool) : M unit :=
  when will_suggest
    (suggestions ← _run_followup_suggestions answer_text;
     when (negb (bool_decide (suggestions = [])))
       (emit env (SuggestionsEvent (rq_message_id rq) suggestions))).

(** [_answer] once the prompt is prepared. *)
Definition answer_prepared : M unit :=
  modify (on_runtime (set_salvage true)) ;;
  r ← produce;
  match r with
  | inl (q, l) => finish_question q l
  | inr (chunks, finish, l) =>
      f ← finish_answer chunks finish l;
      _publish_terminal_done env cfg f.1.1 ;;
      suggest f.1.2 f.2
  end.
End answer.

(** ** What the answer keeps until it commits *)

(** The rows that make an answer: its message and the usage it accounts for. *)
Definition is_answer_row (w : write) : bool :=
  match w with WMessage _ _ _ _ _ _ _ | WUsage _ _ _ _ _ => true | _ => false end.
Definition answer_rows (l : list write) : list write := List.filter is_answer_row l.

Lemma answer_rows_app l l' : answer_rows (l ++ l') = answer_rows l ++ answer_rows l'.
Proof. apply List.filter_app. Qed.

(** External calls stay within the budget of the answer. *)
Definition within_external (cfg : config) (s : state) (n : nat) : Prop :=
  forall cap, ab_max_external_calls (cf_budgets cfg) = Some cap -> Z.of_nat (w_tools (wd s) + n) <= cap.

(** An answer that is still being made: nothing is committed and no terminal is
    out. *)
Record open (cfg : config) (s : state) : Prop := {
  op_sound : sound cfg s;
  op_seq : s_terminal_seq (st s) = None;
  op_sent : s_terminal_sent (st s) = false;
  op_terminals : terminals (wd s) = [];
  op_committed : s_answer_committed (st s) = false;
  op_scope : r_turn_scope (rt s) = false;
  op_rows : answer_rows (w_committed (wd s)) = [];
  op_external : within_external cfg s 0
}.

(** [s'] follows [s] with [n] more external calls and the answer rows [ws] more:
    what is spoken, the route and the usage are the same. *)
Record like (n : nat) (ws : list write) (s s' : state) : Prop := {
  lk_spoken : spoken s' = spoken s;
  lk_drained : drained s -> drained s';
  lk_rows : answer_rows (w_pending (wd s')) = answer_rows (w_pending (wd s)) ++ ws;
  lk_tools : w_tools (wd s') = (w_tools (wd s) + n)%nat;
  lk_usage : r_route_state (rt s') = r_route_state (rt s) /\ r_usage (rt s') = r_usage (rt s)
}.

Lemma like_refl s : like 0 [] s s.
Proof. constructor; [done|done|by rewrite app_nil_r|lia|done]. Qed.

Lemma like_trans n m ws vs s1 s2 s3 : like n ws s1 s2 -> like m vs s2 s3 -> like (n + m) (ws ++ vs) s1 s3.
Proof.
  intros [A1 A2 A3 A4 [A5 A6]] [B1 B2 B3 B4 [B5 B6]]. constructor; [congruence|auto| |lia|split; congruence].
  by rewrite B3, A3, app_assoc.
Qed.

Section keeping.
Context (env : Env) (cfg : config).

Definition holds {A} (m : M A) (Q : A -> state -> Prop) (s : state) : Prop :=
  wp m (fun r s' => open cfg s' /\ match r with Ok a => Q a s' | Err _ => True end) s.

(** Whatever happens in [m] the answer stays open; when it returns, it has made at
    most [n] external calls and written [ws]. *)
Definition spends {A} (n : nat) (ws : list write) (m : M A) : Prop :=
  forall s, open cfg s -> within_external cfg s n -> holds m (fun _ s' => like n ws s s') s.
Definition quiet {A} (m : M A) : Prop := spends 0 [] m.

Lemma holds_bind {A B} (m : M A) (k : A -> M B) Q R s :
  holds m Q s -> (forall a s', open cfg s' -> Q a s' -> holds (k a) R s') -> holds (m ≫= k) R s.
Proof.
  intros Hm Hk. apply wp_bind. eapply wp_mono; [exact Hm|]. intros [a|e] s' [Ho HQ]; [by apply Hk|done].
Qed.

Lemma holds_mono {A} (m : M A) (Q R : A -> state -> Prop) s :
  holds m Q s -> (forall a s', open cfg s' -> Q a s' -> R a s') -> holds m R s.
Proof. intros Hm HR. eapply wp_mono; [exact Hm|]. intros [a|e] s' [Ho HQ]; split; auto. Qed.

Lemma holds_ret {A} (a : A) (Q : A -> state -> Prop) s : open cfg s -> Q a s -> holds (ret a) Q s.
Proof. by split. Qed.
Lemma holds_lift {A} (r : res exn A) (Q : A -> state -> Prop) s :
  open cfg s -> (forall a, r = Ok a -> Q a s) -> holds (lift r) Q s.
Proof. intros Ho HQ. unfold holds, wp, lift. split; [done|]. destruct r; auto. Qed.
Lemma holds_get (Q : state -> state -> Prop) s : open cfg s -> Q s s -> holds get Q s.
Proof. by split. Qed.
Lemma holds_raise {A} e (Q : A -> state -> Prop) s : open cfg s -> holds (raise e) Q s.
Proof. by split. Qed.

Lemma within_less s n m : within_external cfg s (n + m) -> within_external cfg s n.
Proof. intros Hw cap Hc. specialize (Hw cap Hc). lia. Qed.

Lemma spends_bind {A B} n m ws vs (c : M A) (k : A -> M B) :
  spends n ws c -> (forall a, spends m vs (k a)) -> spends (n + m) (ws ++ vs) (c ≫= k).
Proof.
  intros Hc Hk s Ho Hw. eapply holds_bind; [apply Hc; [done|exact (within_less _ _ _ Hw)]|].
  intros a s1 Ho1 L1. eapply holds_mono; [apply Hk; [done|]|].
  - intros cap Hcap. rewrite (lk_tools _ _ _ _ L1). specialize (Hw cap Hcap). lia.
  - intros b s2 _ L2. exact (like_trans _ _ _ _ _ _ _ L1 L2).
Qed.

Lemma quiet_bind {A B} (c : M A) (k : A -> M B) : quiet c -> (forall a, quiet (k a)) -> quiet (c ≫= k).
Proof. intros Hc Hk. exact (spends_bind 0 0 [] [] c k Hc Hk). Qed.

Lemma quiet_ret {A} (a : A) : quiet (ret a).
Proof. intros s Ho _. apply holds_ret; [done|apply like_refl]. Qed.
Lemma quiet_lift {A} (r : res exn A) : quiet (lift r).
Proof. intros s Ho _. apply holds_lift; [done|intros; apply like_refl]. Qed.
Lemma quiet_get : quiet get.
Proof. intros s Ho _. apply holds_get; [done|apply like_refl]. Qed.
Lemma quiet_raise {A} e : quiet (A:=A) (raise e).
Proof. intros s Ho _. by apply holds_raise. Qed.
Lemma quiet_when b m : quiet m -> quiet (when b m).
Proof. intros Hm. destruct b; [done|apply quiet_ret]. Qed.
Lemma quiet_forM {A} (l : list A) m : (forall x, quiet (m x)) -> quiet (forM l m).
Proof. intros Hm. induction l as [|x l IH]; simpl; [apply quiet_ret|]. by apply quiet_bind. Qed.

(** From the laws of the stream: [calm] and [untouched] keep an answer open. *)
Lemma calm_open s s' : calm s s' -> stream_ok s' -> open cfg s -> open cfg s'.
Proof.
  intros [K E1 E2 E3] Hok []. constructor; try congruence.
  - by eapply keeps_sound.
  - destruct K; congruence.
  - destruct K as [_ (_ & _ & _ & _ & ? & _) _ _ _ _ _ _]. congruence.
  - destruct K as [_ _ _ _ _ [_ ->] _ _]. done.
  - unfold within_external. destruct K as [_ _ _ _ (_ & _ & _ & ->) _ _ _]. done.
Qed.

Lemma untouched_open s s' : untouched s s' -> open cfg s -> open cfg s'.
Proof.
  intros Hu Ho. eapply calm_open; [by apply untouched_calm| |done]. eapply untouched_ok; [exact Hu|]. apply Ho.
Qed.

Lemma keeps_like s s' : keeps s s' -> spoken s' = spoken s -> (drained s -> drained s') -> like 0 [] s s'.
Proof.
  intros [_ _ _ (? & ? & _) (_ & _ & _ & Ht) [Hp _] _ _] ? ?.
  constructor; [done|done|by rewrite Hp, app_nil_r|lia|done].
Qed.

Lemma untouched_like s s' : untouched s s' -> like 0 [] s s'.
Proof.
  intros Hu. destruct (untouched_spoken _ _ Hu) as [? _]. destruct Hu as (E & _ & K).
  apply keeps_like; [done|done|]. unfold drained. by rewrite E.
Qed.

(** A computation that leaves the stream untouched. *)
Lemma untouched_quiet {A} (m : M A) P :
  (forall s, wp m (fun r s' => untouched s s' /\ P s r s') s) -> quiet m.
Proof.
  intros Hm s Ho _. eapply wp_mono; [apply Hm|]. intros r s' [Hu _].
  split; [by eapply untouched_open|]. destruct r; [by apply untouched_like|done].
Qed.

Lemma quiet_await : quiet (await env).
Proof. eapply (untouched_quiet _ (fun s r s' => _)). intros s. apply await_spec. Qed.
Lemma quiet_check_cancelled : quiet (_check_cancelled env).
Proof. eapply (untouched_quiet _ (fun s r s' => _)). intros s. apply check_cancelled_spec. Qed.

Lemma db_read_spec s : wp (db_read env) (fun r s' => untouched s s' /\ forall e, r = Err e -> outside s e) s.
Proof.
  unfold wp, db_read. pose proof (await_spec env s) as Ha. unfold wp in Ha. destruct (await env s) as [[[]|e] s'].
  - destruct Ha as [Hu _]. destruct (db_fails_at env _); (split; [done|]); [|done]. intros e [= <-]. by left.
  - destruct Ha as [Hu He]. split; [done|]. intros e' [= <-]. right. by apply He.
Qed.
Lemma quiet_db_read : quiet (db_read env).
Proof. eapply (untouched_quiet _ (fun s r s' => _)). intros s. apply db_read_spec. Qed.
Lemma quiet_reading {A} (f : nat -> A) : quiet (reading env f).
Proof. apply quiet_bind; [apply quiet_get|]. intros s. apply quiet_bind; [apply quiet_db_read|]. intros. apply quiet_ret. Qed.

(** The open transaction. *)
Lemma pending_open s l : open cfg s -> open cfg (on_world (fun x => set_db l (w_committed x) x) s).
Proof. intros [[[[] ? ? ?] ? []] ? ? ? ? ? ? ?]. by constructor. Qed.

Lemma spends_db_write w : spends 0 (if is_answer_row w then [w] else []) (db_write env w).
Proof.
  intros s Ho Hw. eapply holds_bind; [by apply quiet_db_read|]. intros _ s1 Ho1 [L1 L2 L3 L4 [L5 L6]].
  unfold holds, wp, modify. split; [by apply pending_open|]. constructor; [done|done| |done|done].
  change (answer_rows (w_pending (wd s1) ++ [w]) = answer_rows (w_pending (wd s)) ++ (if is_answer_row w then [w] else [])).
  rewrite answer_rows_app, L3, app_nil_r. unfold answer_rows at 2. simpl. by destruct (is_answer_row w).
Qed.
Lemma quiet_db_write w : is_answer_row w = false -> quiet (db_write env w).
Proof. intros Hw. pose proof (spends_db_write w) as H. by rewrite Hw in H. Qed.

(** The stream. *)
Lemma steps_holds {A} (m : M A) s (Q : A -> state -> Prop) :
  open cfg s -> wp m (fun r s' => steps s r s' /\ match r with Ok a => Q a s' | Err _ => True end) s -> holds m Q s.
Proof.
  intros Ho Hm. eapply wp_mono; [exact Hm|]. intros r s' [(Hok & Hc & _) HQ]. split; [by eapply calm_open|done].
Qed.

Lemma quiet_emit b : is_terminal b = false -> is_text b = false -> quiet (emit env b).
Proof.
  intros Ht Hx s Ho _. eapply wp_mono; [apply emit_spec; [apply Ho|done..]|].
  intros r s' ((Hok & Hc & _) & Hd & Hw). split; [by eapply calm_open|]. destruct r; [|done].
  apply keeps_like; [apply Hc| |done]. by rewrite (drained_spoken s').
Qed.
Lemma quiet_step key label st detail turn : quiet (_emit_step env key label st detail turn).
Proof. by apply quiet_emit. Qed.

(** Fields of the runtime no invariant reads. *)
Lemma quiet_mark f :
  (forall x, r_turn_scope (f x) = r_turn_scope x /\ r_route_state (f x) = r_route_state x
    /\ r_usage (f x) = r_usage x /\ r_model_calls (f x) = r_model_calls x) -> quiet (modify (on_runtime f)).
Proof.
  intros Hf s Ho _. destruct (Hf (rt s)) as (E1 & E2 & E3 & E4). unfold holds, wp, modify. split.
  - destruct Ho as [[[[] ? ? ?] Hb [? ?]] ? ? ? ? ? ? ?]. constructor; try done; [|simpl; congruence].
    constructor; [constructor; [by constructor|done..]| |].
    + intros m. unfold scopes. simpl. rewrite E2, E3. apply Hb.
    + unfold calls_ok. simpl. by rewrite E4.
  - constructor; [done|done|by rewrite app_nil_r|simpl; lia|done].
Qed.
End keeping.

Create HintDb quiet.
#[export] Hint Resolve quiet_ret quiet_lift quiet_get quiet_raise quiet_await quiet_check_cancelled
  quiet_db_read quiet_reading quiet_step : quiet.
#[export] Hint Extern 1 (quiet _ (db_write _ _)) => apply quiet_db_write; reflexivity : quiet.
#[export] Hint Extern 1 (quiet _ (emit _ _)) => apply quiet_emit; reflexivity : quiet.
#[export] Hint Extern 2 (quiet _ (when _ _)) => apply quiet_when : quiet.
#[export] Hint Extern 2 (quiet _ (forM _ _)) => apply quiet_forM; intro : quiet.
#[export] Hint Extern 2 (quiet _ (modify (on_runtime _))) => apply quiet_mark; intro; repeat split : quiet.
#[export] Hint Extern 3 (quiet _ (_ ≫= _)) => apply quiet_bind; [|intro] : quiet.

(** ** The text of the answer *)

Section text.
Context (env : Env) (cfg : config).

(** [s'] follows [s] with the same answer rows, external calls, route and usage,
    whatever is spoken. *)
Definition beside (s s' : state) : Prop :=
  answer_rows (w_pending (wd s')) = answer_rows (w_pending (wd s))
  /\ w_tools (wd s') = w_tools (wd s)
  /\ r_route_state (rt s') = r_route_state (rt s) /\ r_usage (rt s') = r_usage (rt s).
Global Instance beside_preorder : PreOrder beside.
Proof. split; [by intros s|]. intros s1 s2 s3 (? & ? & ? & ?) (? & ? & ? & ?). split_and!; congruence. Qed.

Lemma like_beside s s' : like 0 [] s s' -> beside s s'.
Proof. intros [_ _ L3 L4 [L5 L6]]. rewrite app_nil_r in L3. split_and!; [done|lia|done..]. Qed.

Lemma keeps_beside s s' : keeps s s' -> beside s s'.
Proof. intros [_ _ _ (? & ? & _) (_ & _ & _ & ?) [Hp _] _ _]. split_and!; [by rewrite Hp|done..]. Qed.

(** A quiet computation, used where something is known to be spoken. *)
Lemma quiet_holds {A} (m : M A) (Q : A -> state -> Prop) s :
  quiet cfg m -> open cfg s ->
  (forall a s', open cfg s' -> like 0 [] s s' -> Q a s') -> holds cfg m Q s.
Proof. intros Hm Ho HQ. eapply holds_mono; [apply Hm; [done|apply Ho]|]. auto. Qed.

Lemma stream_text_holds chunk s :
  open cfg s ->
  holds cfg (_stream_text env _ANSWER_TEXT chunk) (fun _ s' => beside s s' /\ spoken s' = spoken s ++ chunk) s.
Proof.
  intros Ho. apply steps_holds; [done|]. eapply wp_mono; [apply stream_text_spec; [apply Ho|by left]|].
  intros r s' Hs. pose proof Hs as (Hst & Hsp). split; [done|]. destruct r; [|done].
  split; [apply keeps_beside, Hst|]. first [exact Hsp | by rewrite Hsp, answer_part_text].
Qed.

Lemma publish_text_holds chunks s :
  open cfg s ->
  holds cfg (_publish_text env chunks) (fun _ s' => beside s s' /\ spoken s' = spoken s ++ mjoin chunks) s.
Proof.
  unfold _publish_text. revert s. induction chunks as [|c l IH]; intros s Ho; simpl.
  - apply holds_ret; [done|]. split; [reflexivity|by rewrite app_nil_r].
  - eapply holds_bind; [by apply stream_text_holds|]. intros _ s1 Ho1 [B1 E1].
    eapply holds_mono; [by apply IH|]. intros _ s2 _ [B2 E2]. split; [by etransitivity|].
    by rewrite E2, E1, <-app_assoc.
Qed.

Lemma retract_holds s :
  open cfg s ->
  holds cfg (_retract_answer env) (fun _ s' => beside s s' /\ drained s' /\ spoken s' = []) s.
Proof.
  intros Ho. apply steps_holds; [done|]. eapply wp_mono; [apply retract_answer_spec, Ho|].
  intros r s' [Hs Hr]. split; [done|]. destruct r; [|done]. destruct Hr as [Hd Hw].
  split_and!; [apply keeps_beside, Hs|done|]. by rewrite (drained_spoken s' (proj1 Hs) Hd).
Qed.

(** An [emit] also empties the buffer. *)
Lemma emit_holds b s :
  is_terminal b = false -> is_text b = false -> open cfg s ->
  holds cfg (emit env b) (fun _ s' => like 0 [] s s' /\ drained s') s.
Proof.
  intros Ht Hx Ho. eapply wp_mono; [apply emit_spec; [apply Ho|done..]|].
  intros r s' ((Hok & Hc & _) & Hd & Hw). split; [by eapply calm_open|]. destruct r; [|done].
  split; [|done]. apply keeps_like; [apply Hc| |done]. by rewrite (drained_spoken s').
Qed.
End text.

(** ** Tool batches stay quiet and within the external budget *)

Definition external_count (calls : list (nat * ToolCall)) : nat :=
  length (List.filter (fun ic => is_external_tool (tc_name ic.2)) calls).

Lemma indexed_keys calls : NoDup (indexed calls).*1.
Proof.
  unfold indexed. assert (forall k, NoDup (imap (fun i => pair (i + k)%nat) calls).*1
    /\ Forall (fun i => k <= i)%nat (imap (fun i => pair (i + k)%nat) calls).*1) as Hk.
  { induction calls as [|c l IH]; intros k; simpl; [split; constructor|].
    destruct (IH (S k)) as [Hd Hge].
    assert (imap ((fun i => pair (i + k)%nat) ∘ S) l = imap (fun i => pair (i + S k)%nat) l) as ->.
    { apply imap_ext. intros i x _. simpl. f_equal. lia. }
    split; [apply NoDup_cons; split; [|done]|constructor; [lia|]].
    - intros Hin. rewrite Forall_forall in Hge. specialize (Hge _ Hin). lia.
    - eapply Forall_impl; [exact Hge|]. simpl. lia. }
  destruct (Hk 0%nat) as [Hd _]. erewrite imap_ext; [exact Hd|]. intros i x _. simpl. f_equal. lia.
Qed.

Lemma external_indexed calls :
  Z.of_nat (external_count (indexed calls)) = external_calls calls.
Proof.
  unfold external_count, external_calls, indexed. f_equal.
  assert (forall f : nat -> nat, length (List.filter (fun ic => is_external_tool (tc_name ic.2)) (imap (fun i => pair (f i)) calls))
    = length (List.filter (fun c => is_external_tool (tc_name c)) calls)) as Hf; [|exact (Hf id)].
  induction calls as [|c l IH]; intros f; simpl; [done|].
  destruct (is_external_tool (tc_name c)); simpl; [f_equal|]; apply (IH (f ∘ S)).
Qed.

(** The calls of a batch are the fanned-out ones and the others. *)
Lemma external_split (p : nat * ToolCall -> bool) l :
  NoDup l.*1 ->
  (external_count (List.filter p l) + external_count (List.filter (fun ic => negb (mem ic.1 (List.filter p l).*1)) l)
   = external_count l)%nat.
Proof.
  intros Hd.
  assert (forall ic, ic ∈ l -> mem ic.1 (List.filter p l).*1 = p ic) as Hmem.
  { intros ic Hin. apply eq_true_iff_eq. rewrite mem_true. split.
    - intros (jc & Hk & Hj)%list_elem_of_fmap. apply list_elem_of_In, filter_In in Hj as [Hj Hp].
      apply list_elem_of_In in Hj.
      destruct (proj1 (list_elem_of_lookup _ _) Hin) as [n Hn], (proj1 (list_elem_of_lookup _ _) Hj) as [m Hm].
      assert (n = m) as ->; [|congruence].
      eapply NoDup_lookup; [exact Hd|rewrite list_lookup_fmap, Hn; reflexivity|].
      rewrite list_lookup_fmap, Hm. simpl. by rewrite Hk.
    - intros Hp. apply list_elem_of_fmap. exists ic. split; [done|].
      apply list_elem_of_In, filter_In. split; [by apply list_elem_of_In|done]. }
  assert (forall q : nat * ToolCall -> bool, (forall ic, ic ∈ l -> q ic = p ic) ->
    (external_count (List.filter p l) + external_count (List.filter (fun ic => negb (q ic)) l) = external_count l)%nat) as Hq.
  { clear Hd Hmem. unfold external_count. induction l as [|ic l IH]; intros q Hqp; simpl; [done|].
    rewrite (Hqp ic) by set_solver. specialize (IH q ltac:(set_solver)).
    destruct (p ic); simpl; destruct (is_external_tool _); simpl; lia. }
  apply Hq. exact Hmem.
Qed.

Section batch.
Context `{AnswerText} `{SchemaLib} `{Host}.
Context (env : Env) (cfg : config).

Lemma spends_dispatch call :
  spends cfg (if is_external_tool (tc_name call) then 1 else 0) [] (dispatch call).
Proof.
  unfold dispatch, when. destruct (is_external_tool _); [|apply quiet_ret].
  intros s Ho Hw. unfold holds, wp, modify. split.
  - destruct Ho as [[[[] ? ? ?] ? []] ? ? ? ? ? ? ?]. constructor; try done.
    unfold within_external in *. simpl. by rewrite Nat.add_0_r, <-Nat.add_1_r.
  - constructor; [done|done|by rewrite app_nil_r|simpl; lia|done].
Qed.

Lemma spends_then {A B} n ws (c : M A) (k : A -> M B) :
  spends cfg n ws c -> (forall a, quiet cfg (k a)) -> spends cfg n ws (c ≫= k).
Proof.
  intros Hc Hk. pose proof (spends_bind cfg n 0 ws [] c k Hc Hk) as Hs. by rewrite Nat.add_0_r, app_nil_r in Hs.
Qed.
Lemma spends_after {A B} n ws (c : M A) (k : A -> M B) :
  quiet cfg c -> (forall a, spends cfg n ws (k a)) -> spends cfg n ws (c ≫= k).
Proof. intros Hc Hk. exact (spends_bind cfg 0 n [] ws c k Hc Hk). Qed.
Lemma spends_exists {A} n m ws (c : M A) : n = m -> spends cfg n ws c -> spends cfg m ws c.
Proof. by intros ->. Qed.

Lemma quiet_audit call r : quiet cfg (_audit_retrieval env call r).
Proof. unfold _audit_retrieval. auto with quiet. Qed.

Lemma spends_run_call call :
  spends cfg (if is_external_tool (tc_name call) then 1 else 0) [] (run_call env call).
Proof. apply spends_then; [apply spends_dispatch|]. intros _. eauto 10 with quiet. Qed.

Lemma spends_serial_call call :
  spends cfg (if is_external_tool (tc_name call) then 1 else 0) [] (serial_call env call).
Proof.
  unfold serial_call. do 3 (apply spends_after; [unfold _publish_tool_call; auto with quiet|intros _]).
  apply spends_then; [apply spends_run_call|]. intros r.
  unfold _publish_tool_result. pose proof (quiet_audit call r). eauto 10 with quiet.
Qed.

Lemma spends_serial calls done : spends cfg (external_count calls) [] (serial_calls env calls done).
Proof.
  revert done. induction calls as [|[i call] calls IH]; intros done; simpl; [apply quiet_ret|].
  eapply (spends_exists ((if is_external_tool (tc_name call) then 1 else 0) + external_count calls)).
  { unfold external_count. simpl. by destruct (is_external_tool _). }
  apply (spends_bind cfg _ _ [] []); [apply spends_serial_call|]. intros r. apply IH.
Qed.

Lemma spends_dispatch_all (l : list (nat * ToolCall)) :
  spends cfg (external_count l) [] (forM l (fun ic => dispatch ic.2)).
Proof.
  induction l as [|[i call] l IH]; simpl; [apply quiet_ret|].
  eapply (spends_exists ((if is_external_tool (tc_name call) then 1 else 0) + external_count l)).
  { unfold external_count. simpl. by destruct (is_external_tool _). }
  apply (spends_bind cfg _ _ [] []); [apply spends_dispatch|]. intros _. apply IH.
Qed.

Lemma quiet_stop : quiet cfg (modify (on_runtime (set_cancel_requested true))).
Proof. apply quiet_mark. by intros. Qed.

Lemma quiet_join_workers order done : quiet cfg (join_workers env order done).
Proof.
  revert done. induction order as [|[i call] order IH]; intros done; simpl; [auto with quiet|].
  apply quiet_bind.
  - unfold join_worker. apply quiet_bind; [auto with quiet|]. intros s. apply quiet_bind; [auto with quiet|].
    intros _. destruct (worker_stopped _ _); [pose proof quiet_stop|]; eauto 8 with quiet.
  - intros r. apply quiet_bind; [auto with quiet|]. intros _. apply quiet_bind; [|intros _; apply IH].
    unfold _publish_tool_result. auto with quiet.
Qed.

(** Clean-up before an exception propagates. *)
Lemma quiet_catch_cleanup {A} (m : M A) (c : M unit) :
  quiet cfg m -> quiet cfg c -> quiet cfg (catch m (fun e => c ;; raise e)).
Proof.
  intros Hm Hc s Ho Hw. apply wp_catch. eapply wp_mono; [by apply Hm|]. intros [a|e] s1 [Ho1 HQ]; [done|].
  eapply holds_bind; [apply Hc; [done|apply Ho1]|]. intros _ s2 Ho2 _. by apply holds_raise.
Qed.

Lemma spends_fan_out fan_out : spends cfg (external_count fan_out) [] (run_fan_out env fan_out).
Proof.
  unfold run_fan_out. destruct fan_out as [|ic l]; [apply quiet_ret|]. set (fan_out := ic :: l).
  apply spends_after; [unfold _publish_tool_call; auto with quiet|]. intros _.
  apply spends_then; [apply spends_dispatch_all|]. intros _. apply quiet_bind; [auto with quiet|]. intros s.
  apply quiet_bind.
  - pose proof (quiet_catch_cleanup (join_workers env (completion_order (w_tick (wd s)) fan_out) [])
      (await env ;; await env) (quiet_join_workers _ _)) as Hq.
    intros s1 Ho Hw. specialize (Hq ltac:(auto with quiet) s1 Ho Hw). unfold holds, wp in *.
    unfold catch, mbind, M_bind, bind in *. destruct (join_workers _ _ _ _) as [[?|e] s2]; [done|].
    destruct (await env s2) as [[?|?] s3]; [|done]. by destruct (await env s3) as [[?|?] s4].
  - intros done. apply quiet_bind; [|auto with quiet]. apply quiet_forM. intros jc. apply quiet_when.
    apply quiet_bind; [auto with quiet|]. intros r. apply quiet_audit.
Qed.

(** A batch makes each external call of it once. *)
Lemma spends_batch calls :
  spends cfg (Z.to_nat (external_calls calls)) [] (_run_tool_batch env cfg calls).
Proof.
  unfold _run_tool_batch. set (fan := fan_out_set cfg calls).
  set (serial := List.filter _ _).
  apply (spends_exists (external_count fan + external_count serial)).
  { rewrite <-external_indexed, Nat2Z.id. unfold fan, serial, fan, fan_out_set. cbv zeta.
    destruct (_ && _); [apply external_split, indexed_keys|]. simpl. f_equal.
    unfold external_count. f_equal. f_equal. induction (indexed calls) as [|jc l IH]; simpl; [done|]. by f_equal. }
  apply (spends_bind cfg _ _ [] []); [apply spends_fan_out|]. intros done.
  apply spends_then; [apply spends_serial|]. intros done'. auto with quiet.
Qed.
End batch.

(** ** The tool loop *)

Section loop.
Context `{AnswerText} `{SchemaLib} `{Host}.
Context (env : Env) (llm : Llm) (cfg : config) (rq : request) (pr : prepared).
Context (Hcl : Classified llm).

Lemma fit_errors ts l m e : fit ts l m = Err e -> is_app_error e = true \/ e = OtherError.
Proof.
  unfold fit, context_result. destruct (fit_transcript _ _ _ _ _ _ _ _ _) as [?|code]; [done|].
  intros [= <-]. destruct (decide _); [by left|by right].
Qed.

Lemma out_open {A} s (r : res exn A) s' P : turn_out cfg s r s' P -> open cfg s -> open cfg s'.
Proof.
  intros (Hs & [? ? ? ? (T1 & T2 & T3) (_ & Hc & Ht) ? ? ?] & Hsc & _) []. constructor; try congruence.
  unfold within_external in *. by rewrite Ht.
Qed.

(** What a turn streamed live leaves. *)
Lemma turn_holds refit narrate ts choice messages s :
  (forall m e, refit m = Err e -> is_app_error e = true \/ e = OtherError) ->
  open cfg s -> spoken s = [] ->
  holds cfg (_stream_turn_resilient env llm cfg refit narrate true true ts choice messages)
    (fun t s' => turn_result (mk_seams narrate true) t s'
       /\ answer_rows (w_pending (wd s')) = answer_rows (w_pending (wd s)) /\ w_tools (wd s') = w_tools (wd s)) s.
Proof.
  intros Hrefit Ho Hsp.
  eapply wp_mono; [apply (resilient_spec env llm cfg Hcl refit Hrefit); [apply Ho|done|apply Ho]|].
  intros r s' T. split; [exact (out_open _ _ _ _ T Ho)|]. destruct r; [|done].
  destruct T as (_ & [? ? ? ? ? (Hp & _ & Ht) ? ? ?] & _ & (HR & _)). by rewrite Hp.
Qed.

Lemma quiet_refit ts l : quiet cfg (refit_now ts l).
Proof. unfold refit_now. eauto 8 with quiet. Qed.

(** The state a tool turn starts from. *)
Record between (used : Z) (s : state) : Prop := {
  bt_spoken : spoken s = [];
  bt_rows : answer_rows (w_pending (wd s)) = [];
  bt_tools : Z.of_nat (w_tools (wd s)) <= used
}.
Lemma like_between used s s' : like 0 [] s s' -> between used s -> between used s'.
Proof. intros [E1 _ E3 E4 _] []. rewrite app_nil_r in E3. constructor; [congruence..|lia]. Qed.

(** The state of an answer whose text is [text], all of it on the wire. *)
Record said (text : pystr) (s : state) : Prop := {
  sa_spoken : spoken s = text;
  sa_drained : drained s;
  sa_rows : answer_rows (w_pending (wd s)) = []
}.
Lemma like_said text s s' : like 0 [] s s' -> said text s -> said text s'.
Proof. intros [E1 E2 E3 _ _] []. rewrite app_nil_r in E3. constructor; [congruence|auto|congruence]. Qed.

Lemma think_holds st detail turn s :
  open cfg s -> holds cfg (think env st detail turn) (fun _ s' => like 0 [] s s' /\ drained s') s.
Proof. intros. by apply emit_holds. Qed.

(** How a tool turn ends. *)
Definition step_ok (r : step) (s : state) : Prop :=
  match r with
  | Answered chunks _ _ => said (mjoin chunks) s
  | Asked _ _ => said [] s
  | Spent _ => spoken s = [] /\ answer_rows (w_pending (wd s)) = []
  | Continue used _ => between used s
  end.

Lemma over_external_within used calls s :
  over_external_budget cfg (used + external_calls calls) = false -> between used s ->
  within_external cfg s (Z.to_nat (external_calls calls)).
Proof.
  unfold over_external_budget. intros Hov [_ _ Ht] cap Hcap. rewrite Hcap in Hov. apply Z.ltb_ge in Hov.
  assert (0 <= external_calls calls) by (unfold external_calls; lia). lia.
Qed.

Lemma tool_turn_holds turn used l s :
  open cfg s -> between used s -> holds cfg (tool_turn env llm cfg pr turn used l) step_ok s.
Proof.
  intros Ho Hb. unfold tool_turn.
  eapply holds_bind; [apply quiet_check_cancelled; [done|apply Ho]|]. intros ? s1 Ho1 L1.
  eapply holds_bind; [apply quiet_refit; [done|apply Ho1]|]. intros l1 s2 Ho2 L2.
  eapply holds_bind; [by apply think_holds|]. intros ? s3 Ho3 [L3 _].
  assert (between used s3) as B3 by (exact (like_between _ _ _ L3 (like_between _ _ _ L2 (like_between _ _ _ L1 Hb)))).
  eapply holds_bind; [apply turn_holds; [apply fit_errors|done|apply B3]|].
  intros t s4 Ho4 ([HR HR'] & Hrows & Htools). simpl in HR, HR'.
  destruct (t_tool_calls t) as [|c cs] eqn:Ec.
  { eapply holds_bind; [by apply think_holds|]. intros ? s5 Ho5 [L5 D5]. apply holds_ret; [done|].
    constructor; [|done|].
    - rewrite (lk_spoken _ _ _ _ L5). by apply HR'; right.
    - rewrite (lk_rows _ _ _ _ L5), app_nil_r, Hrows. apply B3. }
  set (calls := c :: cs) in *.
  assert (between used s4) as B4.
  { constructor; [by apply HR|by rewrite Hrows; apply B3|rewrite Htools; apply B3]. }
  destruct (ask_user_call cfg pr calls) as [q|].
  { eapply holds_bind; [by apply think_holds|]. intros ? s5 Ho5 [L5 D5]. apply holds_ret; [done|].
    pose proof (like_between _ _ _ L5 B4) as []. by constructor. }
  eapply holds_bind; [by apply think_holds|]. intros ? s5 Ho5 [L5 _].
  pose proof (like_between _ _ _ L5 B4) as B5.
  destruct (over_external_budget cfg _) eqn:Hov.
  { apply holds_ret; [done|]. split; apply B5. }
  eapply holds_bind; [apply quiet_check_cancelled; [done|apply Ho5]|]. intros ? s6 Ho6 L6.
  pose proof (like_between _ _ _ L6 B5) as B6.
  eapply holds_bind; [apply spends_batch; [done|by eapply over_external_within]|]. intros results s7 Ho7 L7.
  eapply holds_bind; [apply quiet_check_cancelled; [done|apply Ho7]|]. intros ? s8 Ho8 L8.
  eapply holds_bind; [apply quiet_lift; [done|apply Ho8]|]. intros l9 s9 Ho9 L9.
  apply holds_ret; [done|].
  assert (between (used + external_calls calls) s7) as B7.
  { destruct L7 as [E1 _ E3 E4 _], B6. rewrite app_nil_r in E3. constructor; [congruence..|].
    assert (0 <= external_calls calls) by (unfold external_calls; lia). lia. }
  exact (like_between _ _ _ L9 (like_between _ _ _ L8 B7)).
Qed.

(** The loop leaves with the answer, the question, or a spent budget. *)
Definition loop_ok (r : step) (s : state) : Prop :=
  step_ok r s /\ match r with Continue _ _ => False | _ => True end.

Lemma tool_loop_holds n turn used l s :
  open cfg s -> between used s -> holds cfg (tool_loop env llm cfg pr n turn used l) loop_ok s.
Proof.
  revert turn used l s. induction n as [|n IH]; intros turn used l s Ho Hb; simpl.
  - apply holds_ret; [done|]. split; [|done]. split; apply Hb.
  - eapply holds_bind; [by apply tool_turn_holds|]. intros r s1 Ho1 Hr.
    destruct r; try (apply holds_ret; [done|by split]). by apply IH.
Qed.

Lemma synthesis_holds l s :
  open cfg s -> spoken s = [] -> answer_rows (w_pending (wd s)) = [] ->
  holds cfg (synthesis env llm cfg pr l) (fun c s' => said (mjoin c.1.1) s') s.
Proof.
  intros Ho Hsp Hrows. assert (between (Z.of_nat (w_tools (wd s))) s) as Hb by (by constructor).
  unfold synthesis.
  eapply holds_bind; [apply (quiet_mark cfg (set_exhausted true)); [by intros|done|apply Ho]|]. intros ? s0 Ho0 L0.
  eapply holds_bind; [apply quiet_check_cancelled; [done|apply Ho0]|]. intros ? s1 Ho1 L1.
  eapply holds_bind; [apply quiet_refit; [done|apply Ho1]|]. intros l1 s2 Ho2 L2.
  eapply holds_bind; [by apply think_holds|]. intros ? s3 Ho3 [L3 _].
  assert (between (Z.of_nat (w_tools (wd s))) s3) as B3 by (exact (like_between _ _ _ L3 (like_between _ _ _ L2 (like_between _ _ _ L1 (like_between _ _ _ L0 Hb))))).
  eapply holds_bind; [apply turn_holds; [apply fit_errors|done|apply B3]|].
  intros t s4 Ho4 ([_ HR'] & Hrows4 & _).
  eapply holds_bind; [by apply think_holds|]. intros ? s5 Ho5 [L5 D5]. apply holds_ret; [done|].
  constructor; [|done|].
  - rewrite (lk_spoken _ _ _ _ L5). apply HR'. by left.
  - rewrite (lk_rows _ _ _ _ L5), app_nil_r, Hrows4. apply B3.
Qed.

(** What is said when the text is settled: it may still be buffered. *)
Record uttered (text : pystr) (s : state) : Prop := {
  ut_spoken : spoken s = text;
  ut_rows : answer_rows (w_pending (wd s)) = []
}.

Lemma continuation_holds chunks l s :
  open cfg s -> said (mjoin chunks) s ->
  holds cfg (continuation env llm cfg pr chunks l) (fun c s' => uttered (mjoin c.1.1) s') s.
Proof.
  intros Ho Hsaid. unfold continuation.
  eapply holds_bind; [apply quiet_refit; [done|apply Ho]|]. intros l1 s1 Ho1 L1.
  pose proof (like_said _ _ _ L1 Hsaid) as S1.
  eapply (holds_bind _ _ _ (fun r s' => said (mjoin chunks) s')).
  - apply wp_catch, wp_bind. eapply wp_mono.
    { apply (resilient_mute env llm cfg Hcl (fit (tools pr) l1)); [apply Ho1|apply S1|apply Ho1]. }
    intros r s2 (T & E & _). pose proof (out_open _ _ _ _ T Ho1) as Ho2.
    assert (said (mjoin chunks) s2) as S2.
    { destruct S1 as [Hsp Hd Hr], T as (_ & [? ? ? ? ? (Hp & _ & _) ? ? ?] & _).
      unfold spoken, on_wire_text, drained in *. rewrite <-E in Hsp, Hd. constructor; [done|done|by rewrite Hp]. }
    destruct r as [t|e]; [by apply wp_ret|]. destruct (is_app_error e); [by apply wp_ret|by apply wp_raise].
  - intros [t|] s2 Ho2 [Hsp Hd Hr].
    + eapply holds_bind; [by apply publish_text_holds|]. intros ? s3 Ho3 [(B1 & _) E].
      apply holds_ret; [done|]. simpl. constructor; [|congruence].
      rewrite E, Hsp. symmetry. apply join_app.
    + apply holds_ret; [done|]. by constructor.
Qed.

Lemma produce_holds s :
  open cfg s -> between 0 s ->
  holds cfg (produce env llm cfg pr) (fun r s' =>
    match r with inl _ => said [] s' | inr (chunks, _, _) => uttered (mjoin chunks) s' end) s.
Proof.
  intros Ho Hb. unfold produce. eapply holds_bind; [by apply tool_loop_holds|].
  assert (forall text s', said text s' -> uttered text s') as Hutt by (by intros ? ? []; constructor).
  intros [chunks finish l|q l|l|used l] s1 Ho1 [Hr Hne]; simpl in Hr; try done.
  - case_bool_decide.
    + eapply holds_bind; [by apply continuation_holds|]. intros [[c f] l'] s2 Ho2 Hu. by apply holds_ret.
    + apply holds_ret; [done|]. by apply Hutt.
  - destruct Hr as [Hsp Hrows].
    eapply holds_bind; [by apply synthesis_holds|]. intros [[c f] l'] s2 Ho2 Hs2. simpl in *.
    case_bool_decide.
    + eapply holds_bind; [by apply continuation_holds|]. intros [[c' f'] l''] s3 Ho3 Hu. by apply holds_ret.
    + apply holds_ret; [done|]. by apply Hutt.
Qed.
End loop.
