(* ===== verification/ChatCommit.v ===== *)
(** * What an answer leaves when it commits

    The second half of [ChatRuntime._answer] (services/chat_runtime.py), from the
    settled text to the commit and what follows it: the stored message is what the
    client was shown, the usage rows are the scopes of the answer, and nothing
    after the commit takes either back. *)

From stdpp Require Import base list strings sets gmap pretty.
From Stdlib Require Import Lia ZArith.
From S2P Require Import Prelude Json ToolSchema ToolWire Tools ToolPolicy Context Grounding ChatStream ChatTurn Answer ChatAnswer.
Open Scope Z_scope.

(** ** The rows of an answer *)

(** The text a reader of the message is shown as the answer: nothing for a
    clarifying question, which is shown as a question. *)
Definition text_shown (content : pystr) (question : option AskUserQuestion) : pystr :=
  match question with None => content | Some _ => [] end.

(** The usage a list of rows accounts to the answer. *)
Definition usage_rows (l : list write) : list (pystr * TokenUsage) :=
  omap (fun w => match w with WUsage m u _ _ _ => Some (m, tokens_of u) | _ => None end) l.
Definition message_rows (l : list write) : list write :=
  List.filter (fun w => match w with WMessage _ _ _ _ _ _ _ => true | _ => false end) l.

Lemma usage_rows_app l l' : usage_rows (l ++ l') = usage_rows l ++ usage_rows l'.
Proof. apply omap_app. Qed.

(** [l] stores the message of [rq] showing [text], and the usage [spent]. *)
Record records (rq : request) (text : pystr) (spent : list (pystr * TokenUsage)) (l : list write) : Prop := {
  rc_message : exists content model question sources,
    message_rows l = [WMessage (rq_message_id rq) (rq_session_id rq) content model None question sources]
    /\ text_shown content question = text
    /\ (forall q, question = Some q -> content = aq_question q);
  rc_usage : usage_rows l = spent
}.

(** The rows of interest are among the answer rows. *)
Lemma usage_rows_answer l : usage_rows (answer_rows l) = usage_rows l.
Proof. induction l as [|w l IH]; simpl; [done|]. destruct w; simpl; by rewrite ?IH. Qed.
Lemma message_rows_answer l : message_rows (answer_rows l) = message_rows l.
Proof. induction l as [|w l IH]; simpl; [done|]. destruct w; simpl; by rewrite ?IH. Qed.
Lemma records_answer rq text spent l : records rq text spent (answer_rows l) <-> records rq text spent l.
Proof.
  split; intros [Hm Hu]; constructor; rewrite ?message_rows_answer, ?usage_rows_answer in *; done.
Qed.
Lemma records_app rq text spent l l' :
  answer_rows l' = [] -> records rq text spent (l ++ l') <-> records rq text spent l.
Proof. intros E. by rewrite <-records_answer, answer_rows_app, E, app_nil_r, records_answer. Qed.

(** A commit that takes effect is known to: it does not raise, and nothing
    interrupts the coroutine while it waits for it. *)
Definition acknowledged (env : Env) : Prop := forall n, commit_at env n <> CommitFailed true
  /\ (commit_at env n = CommitOk -> interrupt_at env n = Quiet).

Section finish.
Context `{AnswerText} `{SchemaLib} `{Host}.
Context (env : Env) (llm : Llm) (cfg : config) (rq : request).

(** ** The final text *)

Lemma quiet_select text l : quiet cfg (select_final env rq text l).
Proof.
  unfold select_final. destruct (select_cited_handles _ _ _) as [cleaned handles].
  destruct (selected_corpus l handles); [auto with quiet|]. unfold read_passages.
  apply quiet_bind; [auto with quiet|]. intros fresh. apply quiet_bind; [auto with quiet|]. intros v.
  apply quiet_bind; [auto with quiet|]. intros _. destruct (Nat.eqb _ _); auto with quiet.
Qed.

Lemma beside_rows s s' : beside s s' -> answer_rows (w_pending (wd s)) = [] -> answer_rows (w_pending (wd s')) = [].
Proof. intros (E & _). by rewrite E. Qed.

Lemma republish_holds streamed sel s :
  open cfg s -> uttered streamed s ->
  holds cfg (republish env streamed sel) (fun _ s' => uttered (sel_text sel) s') s.
Proof.
  intros Ho [Hsp Hr]. unfold republish, when. case_bool_decide as E; simpl.
  - apply holds_ret; [done|]. constructor; congruence.
  - eapply holds_bind; [by apply retract_holds|]. intros ? s1 Ho1 (B1 & _ & E1).
    eapply holds_mono; [by apply publish_text_holds|]. intros ? s2 _ [B2 E2].
    constructor; [rewrite E2, E1; simpl; apply app_nil_r|].
    exact (beside_rows _ _ B2 (beside_rows _ _ B1 Hr)).
Qed.

(** With nothing on the wire nor buffered, nothing is spoken. *)
Lemma nothing_spoken s :
  stream_ok s -> s_answer_on_wire (st s) || bool_decide (tc_kind (s_buffer (st s)) = Some _ANSWER_TEXT) = false ->
  spoken s = [].
Proof.
  intros Hok [Ew Ek%bool_decide_eq_false]%orb_false_iff. pose proof (so_flag _ Hok) as Hf. rewrite Ew in Hf.
  symmetry in Hf. apply negb_false_iff, bool_decide_eq_true in Hf.
  unfold spoken, on_wire_text, buffered_answer. rewrite Hf, decide_False; done.
Qed.

Lemma or_fallback_holds sel s :
  open cfg s -> uttered (sel_text sel) s ->
  holds cfg (or_fallback env sel) (fun sel' s' => uttered (sel_text sel') s') s.
Proof.
  intros Ho [Hsp Hr]. unfold or_fallback. destruct (blank (sel_text sel)); [|by apply holds_ret].
  eapply holds_bind; [by apply (holds_get cfg (fun a s' => a = s /\ s' = s))|].
  intros ? s0 _ [-> ->].
  eapply (holds_bind _ _ _ (fun _ s' => uttered [] s')).
  - unfold when. destruct (_ || _) eqn:E.
    + eapply holds_mono; [by apply retract_holds|]. intros ? s1 _ (B1 & _ & E1).
      constructor; [done|exact (beside_rows _ _ B1 Hr)].
    + apply holds_ret; [done|]. constructor; [|done]. apply nothing_spoken; [apply Ho|done].
  - intros ? s1 Ho1 [E1 R1]. eapply holds_bind; [by apply stream_text_holds|]. intros ? s2 Ho2 [B2 E2].
    apply holds_ret; [done|]. constructor; [by rewrite E2, E1|exact (beside_rows _ _ B2 R1)].
Qed.

(** ** The rows *)

Lemma spends_writes {A} (f : A -> write) l :
  (forall x, is_answer_row (f x) = true) -> spends cfg 0 (f <$> l) (forM l (fun x => db_write env (f x))).
Proof.
  intros Hf. induction l as [|x l IH]; simpl; [apply quiet_ret|].
  apply (spends_bind cfg 0 0 [f x]); [|by intros _].
  pose proof (spends_db_write env cfg (f x)) as Hw. by rewrite Hf in Hw.
Qed.

Lemma quiet_store_citations cs : quiet cfg (store_citations env rq cs).
Proof.
  induction cs as [|c cs IH]; simpl; [auto with quiet|]. apply quiet_bind; [auto with quiet|]. intros s.
  apply quiet_bind; [auto with quiet|]. intros _. apply quiet_bind; [done|]. auto with quiet.
Qed.

Lemma quiet_append eh : quiet cfg (append_handles env eh).
Proof. unfold append_handles. eauto 10 with quiet. Qed.

Lemma persist_holds content citations question context s :
  open cfg s ->
  holds cfg (_persist env rq content citations question context)
    (fun _ s' => like 0 [WMessage (rq_message_id rq) (rq_session_id rq) content
        (rs_model (r_route_state (rt s))) None question (message_sources citations context)] s s') s.
Proof.
  intros Ho. unfold _persist. eapply holds_bind; [by apply (holds_get cfg (fun a s' => a = s /\ s' = s))|].
  intros ? s0 _ [-> ->].
  match goal with |- context [db_write env ?w] => pose proof (spends_then cfg 0 [w] (db_write env w)
    (fun _ => store_citations env rq citations)) as Hs end.
  apply Hs; [apply spends_db_write|intros; apply quiet_store_citations|done|apply Ho].
Qed.

Definition usage_writes (x : runtime) : list write :=
  ((fun mu => WUsage mu.1 mu.2 (rq_session_id rq) (rq_message_id rq) None) <$> rs_spent (r_route_state x))
  ++ [WUsage (rs_model (r_route_state x)) (r_usage x) (rq_session_id rq) (rq_message_id rq) (Some (rq_message_id rq))].

Lemma usage_writes_scopes x : usage_rows (usage_writes x) = scopes x.
Proof.
  unfold usage_writes, scopes. rewrite usage_rows_app. simpl. f_equal.
  induction (rs_spent _) as [|[m u] l IH]; simpl; [done|]. by f_equal.
Qed.
Lemma usage_writes_messages x : message_rows (usage_writes x) = [].
Proof.
  unfold usage_writes, message_rows. rewrite List.filter_app. simpl. rewrite app_nil_r.
  by induction (rs_spent _).
Qed.

Lemma record_usage_holds s :
  open cfg s -> holds cfg (_record_usage_scopes env rq) (fun _ s' => like 0 (usage_writes (rt s)) s s') s.
Proof.
  intros Ho. unfold _record_usage_scopes. eapply holds_bind; [by apply (holds_get cfg (fun a s' => a = s /\ s' = s))|].
  intros ? s0 _ [-> ->]. cbv zeta.
  apply (spends_bind cfg 0 0); [by apply spends_writes| |done|apply Ho].
  intros _. apply spends_db_write.
Qed.

(** *** What is pending when the answer may commit *)

Record proposed (text : pystr) (s : state) : Prop := {
  pp_spoken : spoken s = text;
  pp_drained : drained s;
  pp_records : records rq text (scopes (rt s)) (w_pending (wd s))
}.

Lemma like_scopes n ws s s' : like n ws s s' -> scopes (rt s') = scopes (rt s).
Proof. intros [_ _ _ _ [E1 E2]]. unfold scopes. by rewrite E1, E2. Qed.

Lemma like_proposed text s s' : like 0 [] s s' -> proposed text s -> proposed text s'.
Proof.
  intros L [Hsp Hd Hr]. pose proof (like_scopes _ _ _ _ L) as Es. destruct L as [E1 E2 E3 _ _].
  rewrite app_nil_r in E3. constructor; [congruence|auto|]. rewrite Es, <-records_answer, E3. by apply records_answer.
Qed.

(** A message, then the usage. *)
Lemma propose text content question model sources s1 s2 s3 s4 s5 :
  answer_rows (w_pending (wd s1)) = [] -> drained s5 -> spoken s1 = text ->
  like 0 [WMessage (rq_message_id rq) (rq_session_id rq) content model None question sources] s1 s2 ->
  like 0 [] s2 s3 -> like 0 (usage_writes (rt s3)) s3 s4 -> like 0 [] s4 s5 ->
  text_shown content question = text -> (forall q, question = Some q -> content = aq_question q) ->
  proposed text s5.
Proof.
  intros Hr Hd Hsp L1 L2 L3 L4 Ht Hq.
  pose proof (like_trans _ _ _ _ _ _ _ (like_trans _ _ _ _ _ _ _ (like_trans _ _ _ _ _ _ _ L1 L2) L3) L4) as L.
  destruct L as [E1 _ E3 _ _]. rewrite Hr in E3. simpl in E3. rewrite app_nil_r in E3.
  constructor; [congruence|done|]. rewrite <-records_answer, E3.
  rewrite (like_scopes _ _ _ _ L4), (like_scopes _ _ _ _ L3), <-usage_writes_scopes. constructor; [|done].
  exists content, model, question, sources. split_and!; [|done..].
  pose proof (usage_writes_messages (rt s3)) as E. unfold message_rows in *. simpl. by rewrite E.
Qed.

(** ** The commit *)

(** Neither the stream nor the accounts of the answer change; the database may. *)
Record offstage (s s' : state) : Prop := {
  of_stream : st s' = st s /\ w_log (wd s') = w_log (wd s);
  of_usage : r_route_state (rt s') = r_route_state (rt s) /\ r_usage (rt s') = r_usage (rt s)
    /\ r_salvage (rt s') = r_salvage (rt s);
  of_calls : r_model_calls (rt s') = r_model_calls (rt s) /\ w_calls (wd s') = w_calls (wd s)
    /\ w_billed (wd s') = w_billed (wd s) /\ w_tools (wd s') = w_tools (wd s);
  of_scope : r_turn_scope (rt s') = r_turn_scope (rt s)
}.
Global Instance offstage_preorder : PreOrder offstage.
Proof. split; [intros s; by constructor|]. intros s1 s2 s3 [] []. constructor; intuition congruence. Qed.

Lemma untouched_offstage s s' : untouched s s' -> offstage s s'.
Proof. intros (E & L & [_ (_ & _ & _ & _ & ? & _) _ (? & ? & ? & _) ? _ _ _]). by constructor. Qed.

Lemma offstage_sound s s' : offstage s s' -> sound cfg s -> sound cfg s'.
Proof.
  intros [[E L] (Er & Eu & _) (Em & Ec & Eb & _) _] [[[] ? ? ?] Hb [? ?]]. constructor.
  - constructor; [constructor|..]; unfold text_taken, wire, sent, on_wire_text in *; rewrite ?E, ?L; auto.
  - intros m. unfold scopes. rewrite Er, Eu, Eb. apply Hb.
  - unfold calls_ok. by rewrite Em, Ec, Eb.
Qed.

(** An answer that is not known to be committed, with no terminal out. *)
Record unsettled (s : state) : Prop := {
  un_sound : sound cfg s;
  un_seq : s_terminal_seq (st s) = None;
  un_sent : s_terminal_sent (st s) = false;
  un_terminals : terminals (wd s) = [];
  un_committed : s_answer_committed (st s) = false;
  un_external : within_external cfg s 0;
  un_usage : acknowledged env -> usage_rows (w_committed (wd s)) = []
}.
Lemma open_unsettled s : open cfg s -> unsettled s.
Proof. intros Ho. destruct Ho. constructor; try done. intros _. by rewrite <-usage_rows_answer, op_rows. Qed.

Lemma offstage_terminals s s' : offstage s s' -> terminals (wd s') = terminals (wd s).
Proof. intros [[_ L] _ _ _]. unfold terminals, sent. by rewrite L. Qed.
Lemma offstage_external n s s' : offstage s s' -> within_external cfg s n -> within_external cfg s' n.
Proof. intros [_ _ (_ & _ & _ & E) _]. unfold within_external. by rewrite E. Qed.

Lemma offstage_unsettled s s' :
  offstage s s' -> (acknowledged env -> usage_rows (w_committed (wd s')) = usage_rows (w_committed (wd s))) ->
  unsettled s -> unsettled s'.
Proof.
  intros Hof Hus []. pose proof (of_stream _ _ Hof) as [E _]. constructor; rewrite ?E; try done.
  - by eapply offstage_sound.
  - by rewrite (offstage_terminals _ _ Hof).
  - by eapply offstage_external.
  - intros Hack. rewrite Hus by done. auto.
Qed.

(** An answer that is committed as [text], which the client was sent. *)
Record answered (text : pystr) (s : state) : Prop := {
  an_sound : sound cfg s;
  an_drained : drained s;
  an_one : one_terminal s;
  an_committed : s_answer_committed (st s) = true;
  an_salvage : r_salvage (rt s) = false;
  an_text : on_wire_text s = text;
  an_records : records rq text (scopes (rt s)) (w_committed (wd s));
  an_pending : answer_rows (w_pending (wd s)) = [];
  an_external : within_external cfg s 0
}.

Lemma offstage_answered text s s' l :
  offstage s s' -> w_committed (wd s') = w_committed (wd s) ++ l -> answer_rows l = [] ->
  answer_rows (w_pending (wd s')) = [] -> answered text s -> answered text s'.
Proof.
  intros Hof Ec El Hp []. pose proof Hof as [[E L] (Er & Eu & Es) _ _].
  assert (scopes (rt s') = scopes (rt s)) as Esc by (unfold scopes; by rewrite Er, Eu).
  constructor; unfold drained, on_wire_text in *; rewrite ?E; try done.
  - by eapply offstage_sound.
  - unfold one_terminal in *. by rewrite E, (offstage_terminals _ _ Hof).
  - congruence.
  - rewrite Esc, Ec. by apply records_app.
  - by eapply offstage_external.
Qed.

(** What the stream does after the commit. *)
Lemma keeps_answered text s s' :
  keeps s s' -> stream_ok s' -> drained s' -> one_terminal s' -> on_wire_text s' = on_wire_text s ->
  answered text s -> answered text s'.
Proof.
  intros K Hok Hd Hone Hw []. pose proof (keeps_sound cfg _ _ K Hok an_sound0).
  destruct K as [Kc _ _ (Er & Eu & Es & _) (_ & _ & _ & Et) [Ep Ec] _ _].
  constructor; unfold within_external, scopes in *; rewrite ?Er, ?Eu, ?Et, ?Ep, ?Ec; solve [done | congruence].
Qed.

Lemma answered_spoken text s : answered text s -> spoken s = text.
Proof. intros []. rewrite drained_spoken; [done|by destruct an_sound0|done]. Qed.

(** The pending rows become durable. *)
Definition flushed (s s' : state) : Prop :=
  w_committed (wd s') = w_committed (wd s) ++ w_pending (wd s) /\ w_pending (wd s') = [].
Definition same_db (s s' : state) : Prop :=
  w_committed (wd s') = w_committed (wd s) /\ w_pending (wd s') = w_pending (wd s).

Lemma commit_spec s :
  wp (commit env) (fun r s' => offstage s s' /\ (flushed s s' \/ same_db s s')
    /\ match r with Ok _ => flushed s s' | Err e => outside s e /\ (acknowledged env -> same_db s s') end) s.
Proof.
  unfold wp, commit. pose proof (await_spec env s) as Ha. unfold wp in Ha. destruct (await env s) as [r s1] eqn:Er.
  destruct Ha as [Hu He]. pose proof (untouched_offstage _ _ Hu) as Hof.
  pose proof (k_db _ _ (proj2 (proj2 Hu))) as [Ep Ec].
  assert (same_db s s1) as Hs by done.
  set (s2 := on_world (fun x => set_db [] (w_committed x ++ w_pending x) x) s1).
  assert (flushed s s2) as Hf by (split; simpl; [by rewrite Ep, Ec|done]).
  assert (offstage s s2) as Hof' by (etransitivity; [exact Hof|]; by constructor).
  assert (forall e, r = Err e -> outside s e) as Hout by (intros e E; right; by apply He).
  assert (interrupt_at env (w_tick (wd s)) = Quiet -> r = Ok tt) as Hquiet.
  { unfold await in Er. intros Eq. rewrite Eq in Er. by injection Er as <- _. }
  destruct (commit_at env (w_tick (wd s))) as [|[]] eqn:Eo, r as [[]|e]; simpl;
    (split; [done|]); (split; [auto|]); try done; (split; [first [by left | by apply Hout]|]); try done;
    intros Hack; destruct (Hack (w_tick (wd s))) as [Hd Hq]; try done.
  by discriminate (Hquiet (Hq Eo)).
Qed.

(** [m] returns with [Q], or leaves the answer unsettled. *)
Definition concludes {A} (m : M A) (Q : A -> state -> Prop) (s : state) : Prop :=
  wp m (fun r s' => match r with Ok a => Q a s' | Err _ => unsettled s' end) s.

Lemma concludes_after {A B} (m : M A) (k : A -> M B) Q R s :
  holds cfg m Q s -> (forall a s', open cfg s' -> Q a s' -> concludes (k a) R s') -> concludes (m ≫= k) R s.
Proof.
  intros Hm Hk. apply wp_bind. eapply wp_mono; [exact Hm|]. intros [a|e] s' [Ho HQ]; [by apply Hk|].
  by apply open_unsettled.
Qed.
Lemma concludes_bind {A B} (m : M A) (k : A -> M B) Q R s :
  concludes m Q s -> (forall a s', Q a s' -> concludes (k a) R s') -> concludes (m ≫= k) R s.
Proof.
  intros Hm Hk. apply wp_bind. eapply wp_mono; [exact Hm|]. intros [a|e] s' HQ; [by apply Hk|done].
Qed.

(** A committed answer whose terminal is still to come. *)
Definition just_answered (text : pystr) (s : state) : Prop :=
  answered text s /\ s_terminal_sent (st s) = false /\ terminals (wd s) = [].

Lemma commit_answer_spec text s :
  open cfg s -> proposed text s ->
  concludes (commit_answer env) (fun _ s' => just_answered text s') s.
Proof.
  intros Ho Hp. unfold commit_answer.
  eapply concludes_after; [apply quiet_check_cancelled; [done|apply Ho]|]. intros ? s1 Ho1 L1.
  eapply concludes_after; [apply (quiet_mark cfg (set_completing true)); [by intros|done|apply Ho1]|].
  intros ? s2 Ho2 L2. pose proof (like_proposed _ _ _ L2 (like_proposed _ _ _ L1 Hp)) as [Hsp Hd Hr].
  apply (concludes_bind _ _ (fun _ s' => offstage s2 s' /\ flushed s2 s')).
  - eapply wp_mono; [apply commit_spec|]. intros [[]|e] s3 (Hof & _ & Hdb); [by split|].
    eapply offstage_unsettled; [done| |by apply open_unsettled]. intros Hack. by destruct Hdb as [_ [-> _]].
  - intros ? s3 (Hof & Ec & Ep). apply wp_bind, wp_modify, wp_modify.
    pose proof Hof as [[E3 L3] (Er & Eu & _) _ _]. pose proof (offstage_sound _ _ Hof (op_sound _ _ Ho2)) as S3.
    pose proof (offstage_terminals _ _ Hof) as Ht3. rewrite (op_terminals _ _ Ho2) in Ht3.
    pose proof (offstage_external _ _ _ Hof (op_external _ _ Ho2)) as He3.
    split; [|split; [by rewrite <-(op_sent _ _ Ho2), <-E3|done]].
    constructor; try done; simpl.
    + destruct S3 as [[[] ? ? ?] ? []]. constructor; [constructor; [by constructor|done..]|done|done].
    + unfold drained in *. simpl. by rewrite E3.
    + unfold one_terminal. simpl. rewrite E3, (op_seq _ _ Ho2). by left.
    + rewrite <-Hsp. unfold on_wire_text at 1. simpl. rewrite E3. symmetry. apply drained_spoken; [|done].
      by destruct Ho2 as [[]].
    + unfold scopes. simpl. rewrite Er, Eu, Ec. rewrite <-records_answer, answer_rows_app, (op_rows _ _ Ho2).
      simpl. by apply records_answer.
    + by rewrite Ep.
Qed.

(** ** After the commit *)

(** What reaches a committed answer comes from outside the answer. *)
Definition from_outside (e : exn) : Prop :=
  match e with CancelledError | TurnExpired | AnswerExpired | OtherError => True | _ => False end.
Lemma outside_from s e : outside s e -> from_outside e.
Proof. by intros [->|[->|[[-> _]|[-> _]]]]. Qed.

(** However [m] ends, the answer stays committed as [text]. *)
Definition remains {A} (text : pystr) (m : M A) (Q : A -> state -> Prop) (s : state) : Prop :=
  wp m (fun r s' => answered text s' /\ match r with Ok a => Q a s' | Err e => from_outside e end) s.

Lemma remains_bind {A B} text (m : M A) (k : A -> M B) Q R s :
  remains text m Q s -> (forall a s', answered text s' -> Q a s' -> remains text (k a) R s') ->
  remains text (m ≫= k) R s.
Proof.
  intros Hm Hk. apply wp_bind. eapply wp_mono; [exact Hm|]. intros [a|e] s' [Ha HQ]; [by apply Hk|done].
Qed.
Lemma remains_mono {A} text (m : M A) (Q R : A -> state -> Prop) s :
  remains text m Q s -> (forall a s', answered text s' -> Q a s' -> R a s') -> remains text m R s.
Proof. intros Hm HR. eapply wp_mono; [exact Hm|]. intros [a|e] s' [Ha HQ]; split; auto. Qed.
Lemma remains_ret {A} text (a : A) (Q : A -> state -> Prop) s : answered text s -> Q a s -> remains text (ret a) Q s.
Proof. by split. Qed.

Lemma emit_remains text b s :
  answered text s -> is_terminal b = false -> is_text b = false ->
  remains text (emit env b) (fun _ s' => calm s s') s.
Proof.
  intros Ha Ht Hx. pose proof Ha as []. eapply wp_mono; [apply emit_spec; [apply an_sound0|done..]|].
  intros r s' ((Hok & C & S) & Hd & Hw). split.
  - apply (keeps_answered text s); [apply C|done|done| | |done].
    + pose proof C as [_ E1 E2 E3]. unfold one_terminal in *. by rewrite E1, E2, E3.
    + rewrite Hw. symmetry. rewrite (answered_spoken text s Ha). done.
  - destruct r; [done|]. simpl in S. by eapply outside_from.
Qed.

Lemma done_remains text done s :
  answered text s -> s_terminal_sent (st s) = false -> is_terminal done = true -> is_text done = false ->
  remains text (_publish_terminal_done env cfg done) (fun _ s' => terminals (wd s') <> []) s.
Proof.
  intros Ha Hsent Hb Hx. pose proof Ha as [[] ? ? ? ? ? ? ? ?].
  eapply wp_mono; [by apply publish_terminal_done_spec|]. intros r s' ((Hok & Hc & Hone & Hr) & _).
  assert (answered text s') as Ha'.
  { apply (keeps_answered text s); [apply Hc|done| |done| |done].
    - unfold drained. by rewrite (cl_buffer _ _ Hc).
    - unfold on_wire_text. by rewrite (cl_partial _ _ Hc). }
  split; [done|]. destruct r; [done|]. by eapply outside_from.
Qed.

(** *** The clarifying question *)

(** How the answer ends: delivered, still unsettled, or committed and broken off
    from outside. *)
Definition delivered {A} (r : res exn A) (s : state) : Prop :=
  match r with
  | Ok _ => exists text, answered text s /\ terminals (wd s) <> []
  | Err e => unsettled s \/ (from_outside e /\ exists text, answered text s)
  end.

Lemma concludes_delivered {A B} (m : M A) (k : A -> M B) Q s :
  concludes m Q s -> (forall a s', Q a s' -> wp (k a) delivered s') -> wp (m ≫= k) delivered s.
Proof.
  intros Hm Hk. apply wp_bind. eapply wp_mono; [exact Hm|]. intros [a|e] s' HQ; [by apply Hk|by left].
Qed.
Lemma remains_delivered {A} text (m : M A) s :
  remains text m (fun _ s' => terminals (wd s') <> []) s -> wp m delivered s.
Proof.
  intros Hm. eapply wp_mono; [exact Hm|]. intros [a|e] s' [Ha Hr]; [by exists text|].
  right. split; [done|by exists text].
Qed.

Lemma quiet_audit_answer n hits docs : quiet cfg (_audit_answer env rq n hits docs).
Proof. unfold _audit_answer. eauto 8 with quiet. Qed.

Definition is_done (b : body) : Prop := match b with Done _ _ _ _ _ _ => True | _ => False end.
Lemma done_payload_holds finish n suggest s :
  open cfg s ->
  holds cfg (done_payload cfg rq finish n suggest) (fun b s' => like 0 [] s s' /\ is_done b) s.
Proof.
  intros Ho. unfold done_payload. eapply holds_bind; [by apply (holds_get cfg (fun a s' => a = s /\ s' = s))|].
  intros ? s0 _ [-> ->]. cbv zeta.
  eapply holds_bind; [apply quiet_mark; [by intros|done|apply Ho]|]. intros ? s1 Ho1 L1. by apply holds_ret.
Qed.

Definition up_to_question (q : AskUserQuestion) (l : loop) : M body :=
  append_handles env (lp_handles l) ;;
  _persist env rq (aq_question q) [] (Some q) (lp_prompt_context l) ;;
  _record_usage_scopes env rq ;;
  _audit_answer env rq 0 (lp_hits l) [] ;;
  done ← done_payload cfg rq (cp "ask_user") 0 false;
  commit_answer env ;;
  ret done.

Lemma up_to_question_spec q l s :
  open cfg s -> said [] s ->
  concludes (up_to_question q l) (fun b s' => just_answered [] s' /\ is_done b) s.
Proof.
  intros Ho [Hsp Hd Hr]. unfold up_to_question.
  eapply concludes_after; [apply quiet_append; [done|apply Ho]|]. intros ? s1 Ho1 L1.
  eapply concludes_after; [by apply persist_holds|]. intros ? s2 Ho2 L2.
  eapply concludes_after; [by apply record_usage_holds|]. intros ? s3 Ho3 L3.
  eapply concludes_after; [apply quiet_audit_answer; [done|apply Ho3]|]. intros ? s4 Ho4 L4.
  eapply concludes_after; [by apply done_payload_holds|]. intros b s5 Ho5 [L5 Hb].
  assert (proposed [] s5) as Hp.
  { apply (like_proposed [] s4); [exact L5|].
    eapply (propose [] _ (Some q) _ _ s1 s2 s2 s3 s4); [| | |exact L2|apply like_refl|exact L3|exact L4|done|by intros ? [= <-]].
    - pose proof (lk_rows _ _ _ _ L1) as E. by rewrite app_nil_r, Hr in E.
    - apply (lk_drained _ _ _ _ L4), (lk_drained _ _ _ _ L3), (lk_drained _ _ _ _ L2), (lk_drained _ _ _ _ L1), Hd.
    - by rewrite (lk_spoken _ _ _ _ L1). }
  eapply concludes_bind; [by eapply commit_answer_spec|]. intros ? s6 Ha. apply wp_ret. by split.
Qed.

Lemma finish_question_spec q l s :
  open cfg s -> said [] s -> wp (finish_question env cfg rq q l) delivered s.
Proof.
  intros Ho Hs.
  assert (wp (b ← up_to_question q l; emit env (AskUserEvent (rq_message_id rq) q) ;;
              _publish_terminal_done env cfg b) delivered s) as Hq.
  { eapply concludes_delivered; [by apply up_to_question_spec|]. intros b s1 [(Ha & Hsent & _) Hb].
    apply (remains_delivered []). eapply remains_bind; [by apply emit_remains|].
    intros ? s2 Ha2 C. apply done_remains; [done|by rewrite (c_sent _ _ C)|by destruct b..]. }
  unfold up_to_question in Hq. unfold wp, mbind, M_bind, bind in Hq. unfold wp, finish_question, mbind, M_bind, bind.
  repeat match goal with |- context [let '(_, _) := ?m ?s in _] => destruct (m s) as [[?|?] ?]; try done end.
Qed.

(** *** The answer *)

Lemma quiet_emits {A} (f : A -> body) l :
  (forall x, is_terminal (f x) = false) -> (forall x, is_text (f x) = false) ->
  quiet cfg (forM l (fun x => emit env (f x))).
Proof. intros. apply quiet_forM. intros x. by apply quiet_emit. Qed.

Lemma still s1 s2 s3 : like 0 [] s1 s2 -> like 0 [] s2 s3 -> like 0 [] s1 s3.
Proof. exact (like_trans 0 0 [] [] s1 s2 s3). Qed.

Lemma quiet_writes {A} (f : A -> write) l :
  (forall x, is_answer_row (f x) = false) -> quiet cfg (forM l (fun x => db_write env (f x))).
Proof. intros. apply quiet_forM. intros x. by apply quiet_db_write. Qed.

Lemma finish_answer_spec chunks finish l s :
  open cfg s -> uttered (mjoin chunks) s ->
  concludes (finish_answer env cfg rq chunks finish l)
    (fun f s' => just_answered f.1.2 s' /\ is_done f.1.1) s.
Proof.
  intros Ho Hu. unfold finish_answer.
  eapply concludes_after; [apply quiet_select; [done|apply Ho]|]. intros sel0 s0 Ho0 L0.
  assert (uttered (mjoin chunks) s0) as U0.
  { destruct Hu, L0 as [E1 _ E3 _ _]. rewrite app_nil_r in E3. constructor; congruence. }
  eapply concludes_after; [by apply republish_holds|]. intros ? s1 Ho1 U1.
  eapply concludes_after; [by apply or_fallback_holds|]. intros sel s2 Ho2 [Hsp2 Hr2].
  eapply concludes_after; [apply quiet_check_cancelled; [done|apply Ho2]|]. intros ? s3 Ho3 L3.
  eapply concludes_after; [apply quiet_step; [done|apply Ho3]|]. intros ? s4 Ho4 L4.
  eapply concludes_after; [by apply persist_holds|]. intros stored s5 Ho5 L5.
  eapply concludes_after; [apply quiet_append; [done|apply Ho5]|]. intros ? s6 Ho6 L6.
  eapply concludes_after; [apply quiet_writes; [done|done|apply Ho6]|]. intros ? s7 Ho7 L7.
  eapply concludes_after; [apply quiet_db_write; [done|done|apply Ho7]|]. intros ? s8 Ho8 L8.
  eapply concludes_after; [apply quiet_emits; [done|done|done|apply Ho8]|]. intros ? s9 Ho9 L9.
  eapply concludes_after; [apply quiet_emits; [done|done|done|apply Ho9]|]. intros ? s10 Ho10 L10.
  eapply concludes_after; [apply quiet_audit_answer; [done|apply Ho10]|]. intros ? s11 Ho11 L11.
  eapply concludes_after; [by apply emit_holds|]. intros ? s12 Ho12 [L12 D12].
  eapply concludes_after; [by apply done_payload_holds|]. intros b s13 Ho13 [L13 Hb].
  eapply concludes_after; [by apply record_usage_holds|]. intros ? s14 Ho14 L14.
  assert (like 0 [] s2 s4) as L24 by exact (like_trans _ _ _ _ _ _ _ L3 L4).
  assert (like 0 [] s5 s13) as L5_13.
  { exact (still _ _ _ L6 (still _ _ _ L7 (still _ _ _ L8 (still _ _ _ L9 (still _ _ _ L10
      (still _ _ _ L11 (still _ _ _ L12 L13))))))). }
  eapply (concludes_bind _ _ (fun _ s' => just_answered (sel_text sel) s')); [|intros ? s15 Ha; by apply wp_ret].
  apply commit_answer_spec; [done|].
  eapply (propose (sel_text sel) (sel_text sel) None _ _ s4 s5 s13 s14 s14);
    [| | |exact L5|exact L5_13|exact L14|apply like_refl|done|done].
  - pose proof (lk_rows _ _ _ _ L24) as E. by rewrite app_nil_r, Hr2 in E.
  - apply (lk_drained _ _ _ _ L14), (lk_drained _ _ _ _ L13), D12.
  - by rewrite (lk_spoken _ _ _ _ L24).
Qed.

(** *** Suggestions *)

(** Whatever happens in [m], the answer stays committed and the stream as it is. *)
Definition kept {A} (m : M A) : Prop := forall text s, answered text s ->
  wp m (fun _ s' => answered text s' /\ st s' = st s /\ w_log (wd s') = w_log (wd s)) s.

Lemma kept_bind {A B} (m : M A) (k : A -> M B) : kept m -> (forall a, kept (k a)) -> kept (m ≫= k).
Proof.
  intros Hm Hk text s Ha. apply wp_bind. eapply wp_mono; [by apply Hm|]. intros [a|e] s1 (Ha1 & E1 & L1); [|done].
  eapply wp_mono; [by apply Hk|]. intros r s2 (Ha2 & E2 & L2). split_and!; [done|congruence..].
Qed.
Lemma kept_ret {A} (a : A) : kept (ret a).
Proof. done. Qed.
Lemma kept_get : kept get.
Proof. done. Qed.
Lemma kept_lift {A} (r : res exn A) : kept (lift r).
Proof. intros text s Ha. by split. Qed.

Lemma kept_offstage {A} (m : M A) :
  (forall s, wp m (fun _ s' => offstage s s' /\ (flushed s s' \/ same_db s s')) s) -> kept m.
Proof.
  intros Hm text s Ha. eapply wp_mono; [apply Hm|]. intros r s' [Hof Hdb].
  split; [|apply Hof]. destruct Hdb as [[Ec Ep]|[Ec Ep]].
  - eapply offstage_answered; [done|exact Ec|apply Ha|by rewrite Ep|done].
  - apply (offstage_answered _ s _ []); [done|by rewrite app_nil_r|done|rewrite Ep; apply Ha|done].
Qed.
Lemma kept_untouched {A} (m : M A) P : (forall s, wp m (fun r s' => untouched s s' /\ P s r s') s) -> kept m.
Proof.
  intros Hm. apply kept_offstage. intros s. eapply wp_mono; [apply Hm|]. intros r s' [Hu _].
  split; [by apply untouched_offstage|]. right. pose proof (k_db _ _ (proj2 (proj2 Hu))) as []. by split.
Qed.

Lemma kept_await : kept (await env).
Proof. eapply (kept_untouched _ (fun s r s' => _)). intros s. apply await_spec. Qed.
Lemma kept_commit : kept (commit env).
Proof. apply kept_offstage. intros s. eapply wp_mono; [apply commit_spec|]. by intros r s' (? & ? & _). Qed.
Lemma kept_pending f :
  (forall x, w_committed (f x) = w_committed x /\ (answer_rows (w_pending x) = [] -> answer_rows (w_pending (f x)) = [])
    /\ w_log (f x) = w_log x /\ w_calls (f x) = w_calls x /\ w_billed (f x) = w_billed x /\ w_tools (f x) = w_tools x) ->
  kept (modify (on_world f)).
Proof.
  intros Hf text s Ha. destruct (Hf (wd s)) as (Ec & Hp & El & ? & ? & ?). apply wp_modify.
  split; [|done]. apply (offstage_answered _ s _ []); [by constructor|by rewrite app_nil_r|done|apply Hp, Ha|done].
Qed.
Lemma kept_write w : is_answer_row w = false -> kept (db_write env w).
Proof.
  intros Hw. apply kept_bind.
  - eapply (kept_untouched _ (fun s r s' => _)). intros s. apply db_read_spec.
  - intros _. apply kept_pending. intros x. split_and!; try done. intros E. simpl. rewrite answer_rows_app, E.
    unfold answer_rows. simpl. by rewrite Hw.
Qed.
Lemma kept_when b m : kept m -> kept (when b m).
Proof. intros Hm. destruct b; [done|apply kept_ret]. Qed.
Lemma kept_in_session {A} (m : M A) : kept m -> kept (in_session m).
Proof.
  intros Hm text s Ha. unfold in_session. specialize (Hm text s Ha). unfold wp in *. destruct (m s) as [r s1].
  destruct Hm as (Ha1 & E1 & L1). split_and!; [|done..].
  apply (offstage_answered _ s1 _ []); [by constructor|by rewrite app_nil_r|done..].
Qed.
Lemma kept_except {A} (m h : M A) : kept m -> kept h -> kept (except_exception m h).
Proof.
  intros Hm Hh text s Ha. apply wp_catch. eapply wp_mono; [by apply Hm|]. intros [a|e] s1 (Ha1 & E1 & L1); [done|].
  destruct (is_exception e); [|done]. eapply wp_mono; [by apply Hh|].
  intros r s2 (Ha2 & E2 & L2). split_and!; [done|congruence..].
Qed.

Lemma untouched_answered text s s' : untouched s s' -> answered text s -> answered text s'.
Proof.
  intros Hu Ha. pose proof (k_db _ _ (proj2 (proj2 Hu))) as [Ep Ec].
  apply (offstage_answered _ s _ []); [by apply untouched_offstage|by rewrite app_nil_r|done|rewrite Ep; apply Ha|done].
Qed.

(** A call is counted once it is claimed. *)
Lemma kept_claimed {A} (k : state -> M A) :
  (forall s, kept (k s)) -> kept (_claim_model_call env cfg ;; s ← get; modify (on_world count_call) ;; k s).
Proof.
  intros Hk text s Ha. apply wp_bind. eapply wp_mono; [apply claim_model_call_spec|]. intros [[]|e] s1 Hclaim.
  - destruct Hclaim as (s0 & Hu & -> & Hcap). apply wp_bind, wp_get, wp_bind, wp_modify.
    pose proof (untouched_answered _ _ _ Hu Ha) as Ha0. destruct Hu as (E & L & _).
    set (s2 := on_world count_call _).
    assert (answered text s2) as Ha2.
    { destruct Ha0 as [[[[] ? ? ?] ? [Hn [Hle Hl]]]]. constructor; try done.
      constructor; [constructor; [by constructor|done..]|done|]. unfold calls_ok. simpl. split_and!; [lia| |lia].
      intros cap Hc _. specialize (Hcap cap Hc). lia. }
    eapply wp_mono; [by apply Hk|]. intros r s3 (Ha3 & E3 & L3). split_and!; [done|by rewrite E3|by rewrite L3].
  - destruct Hclaim as [Hu _]. split; [by eapply untouched_answered|]. split; apply Hu.
Qed.

Context (Hcl : Classified llm).

Lemma kept_generate text route : kept (_generate_suggestions env cfg rq text route).
Proof.
  unfold _generate_suggestions. apply kept_bind; [apply kept_except; [|apply kept_ret]|].
  - apply kept_claimed. intros s. apply kept_bind; [apply kept_await|]. intros _.
    apply kept_bind; [apply kept_lift|]. intros c. apply kept_ret.
  - intros [[content u]|]; apply kept_ret.
Qed.

Lemma kept_resolve m : kept (_resolve_model_route env llm m).
Proof. eapply (kept_untouched _ (fun s r s' => _)). intros s. by apply resolve_spec. Qed.

Lemma kept_suggestions text : kept (_run_followup_suggestions env llm cfg rq text).
Proof.
  unfold _run_followup_suggestions. apply kept_bind; [apply kept_get|]. intros s.
  apply kept_except; [|apply kept_ret]. apply kept_in_session. apply kept_bind.
  - unfold _resolve_suggestions_route. destruct (cf_suggestions_model cfg) as [[|]|]; try apply kept_ret. apply kept_resolve.
  - intros route. apply kept_bind; [apply kept_generate|]. intros g. apply kept_bind; [|intros; apply kept_ret].
    apply kept_when, kept_bind; [by apply kept_write|]. intros _. apply kept_commit.
Qed.

Lemma suggestions_raise text s :
  wp (_run_followup_suggestions env llm cfg rq text) (fun r _ => forall e, r = Err e -> from_outside e) s.
Proof.
  unfold _run_followup_suggestions. apply wp_bind, wp_get. unfold except_exception. apply wp_catch.
  unfold wp. destruct (in_session _ s) as [[a|e] s1]; [done|]. by destruct e; intros ? [= <-].
Qed.

Lemma suggest_remains text answer will s :
  answered text s -> terminals (wd s) <> [] ->
  remains text (suggest env llm cfg rq answer will) (fun _ s' => terminals (wd s') <> []) s.
Proof.
  intros Ha Hne. unfold suggest, when. destruct will; [|by apply remains_ret].
  apply (remains_bind text _ _ (fun _ s' => terminals (wd s') <> [])).
  - eapply wp_mono; [apply wp_conj; [by apply kept_suggestions|apply suggestions_raise]|].
    intros r s1 [(Ha1 & E1 & L1) Hr]. split; [done|]. destruct r; [|by apply Hr].
    unfold terminals, sent. by rewrite L1.
  - intros l s1 Ha1 Hne1. destruct (negb _); [|by apply remains_ret].
    eapply remains_mono; [by apply emit_remains|]. intros ? s2 _ C. by rewrite (c_terminals _ _ C).
Qed.

(** ** [_answer] from the prepared prompt *)

Lemma answer_prepared_spec pr s :
  open cfg s -> between 0 s -> wp (answer_prepared env llm cfg rq pr) delivered s.
Proof.
  intros Ho Hb. unfold answer_prepared.
  assert (forall (k : AskUserQuestion * loop + (list pystr * pystr * loop) -> M unit) s,
    open cfg s -> between 0 s ->
    (forall r s', open cfg s' -> match r with inl _ => said [] s' | inr (chunks, _, _) => uttered (mjoin chunks) s' end ->
       wp (k r) delivered s') -> wp (produce env llm cfg pr ≫= k) delivered s) as Hproduce.
  { intros k s1 Ho1 Hb1 Hk. apply wp_bind. eapply wp_mono; [by apply produce_holds|].
    intros [r|e] s2 [Ho2 Hr]; [by apply Hk|]. by left; apply open_unsettled. }
  apply wp_bind, wp_modify. set (s1 := on_runtime _ s).
  destruct (quiet_mark cfg (set_salvage true) ltac:(done) s Ho) as [Ho1 L1]; [apply Ho|].
  apply Hproduce; [done|exact (like_between _ _ _ L1 Hb)|].
  intros [[q l]|[[chunks finish] l]] s2 Ho2 Hr; [by apply finish_question_spec|].
  eapply concludes_delivered; [by apply finish_answer_spec|]. intros f s3 [(Ha & Hsent & _) Hd].
  apply (remains_delivered f.1.2). eapply remains_bind; [apply done_remains; [done|done|by destruct f.1.1..]|].
  intros ? s4 Ha4 Hne. by apply suggest_remains.
Qed.
End finish.
