(* ===== verification/ChatRun.v ===== *)
(** * One answer, end to end

    [ChatRuntime.run] (services/chat_runtime.py): [start], the preparation of the
    prompt, the answer, and the arms that settle every other ending: the Stop
    ([_finalise_cancelled]), the shutdown, the deadlines, typed and untyped errors
    ([_terminal_error]), with the salvage of the usage a failed answer spent. *)

From stdpp Require Import base list strings sets gmap pretty.
From Stdlib Require Import Lia ZArith.
From S2P Require Import Prelude Json ToolSchema ToolWire Tools ToolPolicy Context Grounding ChatStream ChatTurn Answer ChatAnswer.
Open Scope Z_scope.

Section run.
Context `{AnswerText} `{SchemaLib} `{Host}.
Context (env : Env) (llm : Llm) (cfg : config) (rq : request).

(** ** Preparing the prompt *)

Definition prepare_step (step_state : string) : M unit :=
  _emit_step env (cp "prepare") (cp "Preparing") (cp step_state) None None.

(** [_resolve_mcp_tools], rendered by [_mcp_tool_specs]: sorted by name, on the
    allow-list; a failing registry offers nothing. *)
Definition mcp_specs (allowed : gset pystr) : M (list ToolSpec) :=
  if existsb (py_startswith (cp "mcp:")) (elements allowed) then
    except_exception
      (r ← reading env mcp_specs_at;
       match r with
       | Some specs =>
           ret (omap (fun name => if bool_decide (name ∈ allowed) then dict_get name specs else None)
                  (py_sorted str_leb specs.*1))
       | None => ret []
       end)
      (ret [])
  else ret [].

Fixpoint validate_fallbacks (valid : nat -> pystr -> bool) (l : list pystr) : M (list pystr) :=
  match l with
  | [] => ret []
  | m :: l =>
      ok ← reading env (fun n => valid n m);
      rest ← validate_fallbacks valid l;
      ret (if (ok : bool) then m :: rest else rest)
  end.

(** The fallback chain of the tenant, checked again against its current state. *)
Definition resolve_fallbacks (stored : list json) : M unit :=
  let structural := structural_fallbacks (rq_model rq) stored in
  fallbacks ← match fallback_validator with
    | Some valid => validate_fallbacks valid structural
    | None => ret structural
    end;
  modify (on_runtime (fun x => set_route (set_fallbacks fallbacks (r_route_state x)) (r_usage x) x)).

(** The range of handles is reserved in a transaction of its own. *)
Definition reserve_handles : M EvidenceHandles :=
  first ← reading env reserve_at;
  first ← lift first;
  commit env ;;
  book ← reading env load_at;
  ret (open_handles first book 1000).

(** Evidence carried forward is re-checked against the current permissions. *)
Definition rehydrate : M (list (pystr * uuid) * option pystr) :=
  let by_doc := group_evidence (rq_evidence rq) in
  let mention_ids := (rq_mentioned rq).*1 in
  match by_doc, mention_ids with
  | [], [] => ret ([], rq_summary rq)
  | _, _ =>
      permitted ← reading env (fun n => permitted_names_at n (by_doc.*1 ++ mention_ids));
      let all_chunks := by_doc ≫= snd in
      chunk_owner ← match all_chunks with
        | [] => ret []
        | _ => reading env (fun n => chunk_pairs_at n all_chunks)
        end;
      let summary := match rq_summary rq with
        | Some ((_ :: _) as s) => redact_summary_names s (names_to_redact permitted (rq_mentioned rq))
        | s => s
        end in
      db_write env (WRehydratedAudit (rq_session_id rq)
        (length (remove_dups (by_doc.*1 ++ mention_ids))) (length permitted)) ;;
      ret (evidence_lines permitted chunk_owner by_doc, summary)
  end.

Definition prepare : M prepared :=
  prepare_step "started" ;;
  route ← _resolve_model_route env llm (rq_model rq);
  modify (on_runtime (set_route (mk_route_state (rq_model rq) route [] []) no_usage)) ;;
  policies ← reading env policies_at;
  let offered := resolve_offered tool_registry (tenant_id (rq_principal rq)) policies (ac_allowed <$> rq_assistant rq) in
  let allowed := of_allowed offered in
  mcp ← mcp_specs allowed;
  db_read env ;; (* the autonomy cap, which only the runner uses *)
  tenant ← reading env tenant_row_at;
  let advertised := ((fun '(n, d, p) => mk_spec n d p) <$> tool_specs tool_registry (Some allowed)) ++ mcp in
  resolve_fallbacks (match tenant with Some (_, stored) => stored | None => [] end) ;;
  handles ← reserve_handles;
  r ← rehydrate;
  s ← get;
  let model := mr_model (rs_route (r_route_state (rt s))) in
  assembled ← lift (context_result too_large_question
    (assemble_context host_sha256_name at_dumps host_dumps_sorted (host_count model) (host_max_input model)
       host_context
       (prepend_user_instructions (rq_custom_instructions rq)
          (match rq_assistant rq with Some a => ac_system_prompt a | None => grounded_system_prompt end))
       (reserved_segments r.2 r.1) (rq_history rq)
       (question_for_model (rq_question rq) (rq_document_ids rq)) advertised));
  prepare_step "completed" ;;
  let messages := cb_messages assembled in
  ret (mk_prepared advertised (bool_decide (ASK_USER_TOOL_NAME ∈ allowed))
         (Z.to_nat (effective_max_tool_turns (cf_budgets cfg) (tenant ≫= fst)))
         (_narrow_collection_ids (rq_collection_ids rq) (rq_assistant rq ≫= ac_collection_ids))
         (mk_loop messages messages handles [] [] [] [] [] [] 0 0)).

Definition _answer : M unit :=
  pr ← prepare;
  answer_prepared env llm cfg rq pr.

(** ** Salvage *)

Definition spent_scopes (x : runtime) : list (pystr * _Usage) :=
  List.filter (fun mu => (0 <? us_total mu.2) || (0 <? us_prompt mu.2))
    (rs_spent (r_route_state x) ++ [(rs_model (r_route_state x), r_usage x)]).

Definition _salvage_usage_after_failure : M unit :=
  s ← get;
  if negb (r_salvage (rt s)) then ret tt
  else
    match spent_scopes (rt s) with
    | [] => ret tt
    | spent =>
        except_exception
          (in_session
            (forM spent (fun mu => db_write env (WUsage mu.1 mu.2 (rq_session_id rq) (rq_message_id rq) None)) ;;
             commit env))
          (ret tt)
    end.

(** ** Settling a Stop *)

(** The two attempts at the [cancelled] terminal. *)
Definition cancelled_attempt (e : Envelope) : M bool :=
  s ← get;
  except_exception (_publish_terminal env e (Some (loop_time env s + 5000))) (ret false).
Definition publish_cancelled (e : Envelope) : M unit :=
  sent ← cancelled_attempt e;
  if (sent : bool) then modify (on_stream (set_terminal_sent true))
  else
    sent ← cancelled_attempt e;
    when sent (modify (on_stream (set_terminal_sent true))).

(** The partial becomes the message, marked cancelled. *)
Definition store_partial (model : pystr) : M unit :=
  s ← get;
  let partial := mjoin (s_partial_answer (st s)) in
  in_session
    (db_write env (WMessage (rq_message_id rq) (rq_session_id rq) partial model (Some (cp "cancelled")) None None) ;;
     db_write env (WCancelAudit (rq_message_id rq) (rq_session_id rq) model (Z.of_nat (length partial))) ;;
     commit env).

Definition cancelled_seq : M Z :=
  s ← get;
  n ← match s_terminal_seq (st s) with Some n => ret n | None => next_seq end;
  modify (on_stream (set_terminal_seq (Some n))) ;;
  ret n.

Definition _finalise_cancelled : M unit :=
  s ← get;
  if s_terminal_sent (st s) then ret tt
  else
    _flush_text env ;;
    let '(model, usage) :=
      if r_salvage (rt s)
      then (rs_model (r_route_state (rt s)), _answer_usage_totals (r_route_state (rt s)) (r_usage (rt s)))
      else (rq_model rq, no_usage) in
    stored ← except_exception (store_partial model ;; ret true) (ret false);
    if (stored : bool) then
      n ← cancelled_seq;
      publish_cancelled (mk_env n (Cancelled (rq_message_id rq) model usage))
    else
      _terminal_error env 503 (cp "Service Unavailable") (cp "cancellation_persist_failed")
        (Some (cp "The stopped answer could not be saved.")).

(** ** Shielded endings *)

(** A child task under [asyncio.shield]: a shutdown waits for it, then cancels. *)
Definition shielded {A} (m : M A) : M A := fun s =>
  let enter := on_runtime (fun x => set_scopes (r_turn_scope x) (r_answer_scope x) true false x) s in
  let '(r, s) := m enter in
  let left_ := on_runtime (fun x => set_scopes (r_turn_scope x) (r_answer_scope x) false false x) s in
  match r with
  | Ok a => if r_interrupted (rt s) then (Err CancelledError, left_) else (Ok a, left_)
  | Err e => (Err e, left_)
  end.

(** [retry_cleanup]: [n] attempts fail before one succeeds. *)
Fixpoint retry_cleanup (n : nat) : M unit :=
  await env ;;
  await env ;;
  match n with O => ret tt | S n => retry_cleanup n end.

(** [state.resources.aclose()]: the compensations of the artifacts. *)
Definition close_resources : M unit := db_read env.

Context (cleanup_failures : nat).

Definition finish_user_cancel (cleanup : bool) : M bool :=
  modify (on_runtime (set_finalising true)) ;;
  shielded
    (when cleanup (retry_cleanup cleanup_failures) ;;
     close_resources ;;
     _salvage_usage_after_failure ;;
     _finalise_cancelled) ;;
  ret false.

Definition grace_deadline : M unit :=
  s ← get; modify (on_runtime (set_producer_deadline (Some (loop_time env s + 5000)))).

Definition finish_error (status : Z) (title code : pystr) (detail : option pystr) (cleanup : bool) : M unit :=
  modify (on_runtime (set_settling true)) ;;
  shielded
    (when cleanup (retry_cleanup cleanup_failures ;; grace_deadline) ;;
     _salvage_usage_after_failure ;;
     _terminal_error env status title code detail).

Definition unavailable : pystr := cp "Service Unavailable".
Definition budget_detail : pystr := cp "The answer wall-clock budget was exhausted.".
Definition budget_error (cleanup : bool) : M unit :=
  finish_error 503 unavailable answer_budget_exhausted (Some budget_detail) cleanup.
Definition shutdown_error (cleanup : bool) : M unit :=
  finish_error 503 unavailable dependency_unavailable (Some (cp "Server is shutting down.")) cleanup.

(** ** The arms of [run] *)

Definition typed_error (status : Z) (title code : pystr) (detail : option pystr) : M bool :=
  when (bool_decide (code = answer_budget_exhausted)) grace_deadline ;;
  finish_error status title code detail false ;;
  ret false.

(** A Stop that came before the commit is settled as one. *)
Definition unless_stopped (m : M bool) : M bool :=
  s ← get;
  if r_cancel_requested (rt s) && negb (s_answer_committed (st s)) then finish_user_cancel false else m.

Definition arms (e : exn) : M bool :=
  match e with
  | ToolCancellationPending =>
      s ← get;
      if r_cancel_requested (rt s) then finish_user_cancel true
      else if match r_answer_deadline (rt s) with Some d => d <=? loop_time env s | None => false end then
        modify (on_runtime (set_exhausted true)) ;; budget_error true ;; ret false
      else shutdown_error true ;; raise CancelledError
  | CancelledError =>
      unless_stopped
        (s ← get;
         if r_cancel_requested (rt s) && s_terminal_sent (st s) then ret true
         else shutdown_error false ;; raise CancelledError)
  | TurnExpired | AnswerExpired =>
      unless_stopped
        (modify (on_runtime (set_exhausted true)) ;;
         grace_deadline ;;
         budget_error false ;;
         ret false)
  | AppError status title code detail => unless_stopped (typed_error status title code detail)
  | LlmProviderError f _ _ => unless_stopped (typed_error 503 unavailable (pf_code f) (Some (pf_detail f)))
  | OtherError =>
      unless_stopped (finish_error 500 (cp "Internal Server Error") (cp "internal_error") None false ;; ret false)
  end.

(** ** The run *)

Definition is_audit (w : write) : bool :=
  match w with WToolTrace _ _ | WRetrievalAudit _ _ | WRehydratedAudit _ _ _ => true | _ => false end.

(** A context that grew too large keeps the audits of the work already done. *)
Definition restore_audits (e : exn) : M unit :=
  match e with
  | AppError _ _ code _ =>
      s ← get;
      let audits := List.filter is_audit (w_pending (wd s)) in
      when (bool_decide (code = CONTEXT_TOO_LARGE) && negb (rq_simulate_writes rq) && negb (Nat.eqb (length audits) 0))
        (db_read env ;;
         modify (on_world (fun x => set_db [] (w_committed x) x)) ;;
         in_session (db_write env (WRestored audits) ;; commit env))
  | _ => ret tt
  end ;;
  raise e.

Definition answer_scope (b : bool) (s : state) : state :=
  on_runtime (fun x => set_scopes (r_turn_scope x) b (r_shielded x) (r_interrupted x) x) s.
(** [async with asyncio.timeout_at(deadline)] around the answer. *)
Definition in_answer_scope {A} (bounded : bool) (m : M A) : M A := fun s =>
  let '(r, s) := m (answer_scope bounded s) in (r, answer_scope false s).

Definition answer_body : M bool :=
  emit env (Start (rq_session_id rq) (rq_message_id rq) (rq_model rq)) ;;
  _check_cancelled env ;;
  s ← get;
  when (match r_answer_deadline (rt s) with Some d => d <=? loop_time env s | None => false end)
    (raise AnswerExpired) ;;
  in_session (catch _answer restore_audits) ;;
  ret true.

(** [try: m finally: close] *)
Definition finally {A} (m : M A) (close : M unit) : M A := fun s =>
  let '(r, s) := m s in
  let '(c, s) := close s in
  match c with Err e => (Err e, s) | Ok _ => (r, s) end.

Definition _resolve_producer_deadline (s : state) : option Z :=
  match cf_turn_timeout cfg, cf_terminal_publish_margin cfg with
  | Some t, Some m => Some (loop_time env s + (t + m))
  | _, _ => None
  end.

(** The fields [run] sets before it starts. *)
Definition begin : M unit := fun s =>
  let d := (fun w => loop_time env s + w) <$> ab_wall_clock (cf_budgets cfg) in
  (Ok tt,
   mk_state
     (mk_stream 0 (_new_coalescer (cf_text_coalesce_chars cfg) (cf_text_coalesce_ms cfg)) false None false false [])
     (set_model_calls 0 (set_exhausted false (set_answer_deadline d
        (set_producer_deadline (_resolve_producer_deadline s) (rt s)))))
     (wd s)).

Definition run : M bool :=
  begin ;;
  s ← get;
  finally
    (catch (in_answer_scope (negb (bool_decide (r_answer_deadline (rt s) = None))) answer_body) arms)
    close_resources.
End run.
