(* ===== verification/ChatSettle.v ===== *)
(** * How a run settles

    The theorems of [ChatRuntime.run] (services/chat_runtime.py): however the
    providers, the backplane, the database, a Stop, a shutdown and the deadlines
    interfere, the run leaves one of three states - the answer is committed and
    stays, the partial answer is stored as cancelled, or the answer is given up
    with its text taken back. *)

From stdpp Require Import base list strings sets gmap pretty sorting.
From Stdlib Require Import Lia ZArith.
From S2P Require Import Prelude Json ToolSchema ToolWire Tools ToolPolicy Context Grounding ChatStream ChatTurn Answer ChatAnswer ChatCommit ChatRun.
Open Scope Z_scope.

(** ** What is given to [_publish] *)

Section sends.
Context (env : Env) (P : body -> Prop).

(** [s'] is [s] with envelopes in [P] sent besides. *)
Definition extends (s s' : state) : Prop :=
  exists l, w_log (wd s') = w_log (wd s) ++ l /\ Forall (fun p => P (e_body p.2)) l.
Global Instance extends_preorder : PreOrder extends.
Proof.
  split; [intros s; exists []; by rewrite app_nil_r|].
  intros s1 s2 s3 (l & E & Hl) (l' & E' & Hl'). exists (l ++ l'). rewrite E', E, app_assoc.
  split; [done|]. by apply Forall_app.
Qed.

Definition sends {A} (m : M A) : Prop := forall s, wp m (fun _ s' => extends s s') s.

Lemma sends_bind {A B} (m : M A) (k : A -> M B) : sends m -> (forall a, sends (k a)) -> sends (m ≫= k).
Proof.
  intros Hm Hk s. apply wp_bind. eapply wp_mono; [apply Hm|]. intros [a|e] s1 H1; [|done].
  eapply wp_mono; [apply Hk|]. intros r s2 H2. by etransitivity.
Qed.
Lemma sends_ret {A} (a : A) : sends (ret a).
Proof. intros s. apply wp_ret. reflexivity. Qed.
Lemma sends_raise {A} e : sends (A:=A) (raise e).
Proof. intros s. apply wp_raise. reflexivity. Qed.
Lemma sends_get : sends get.
Proof. intros s. apply wp_get. reflexivity. Qed.
Lemma sends_stream f : sends (modify (on_stream f)).
Proof. intros s. apply wp_modify. exists []. by rewrite app_nil_r. Qed.
Lemma sends_when b m : sends m -> sends (when b m).
Proof. intros Hm. destruct b; [done|apply sends_ret]. Qed.
Lemma sends_except {A} (m h : M A) : sends m -> sends h -> sends (except_exception m h).
Proof.
  intros Hm Hh s. apply wp_catch. eapply wp_mono; [apply Hm|]. intros [a|e] s1 H1; [done|].
  destruct (is_exception e); [|done]. eapply wp_mono; [apply Hh|]. intros r s2 H2. by etransitivity.
Qed.
Lemma sends_next_seq : sends next_seq.
Proof. intros s. unfold wp, next_seq. exists []. by rewrite app_nil_r. Qed.

Lemma logged_extends t e s s' : P (e_body e) -> logged t e s s' -> extends s s'.
Proof. intros Hp (_ & L & _). exists [(t, e)]. split; [done|]. by apply Forall_singleton. Qed.
Lemma sends_publish e : P (e_body e) -> sends (_publish env e).
Proof.
  intros Hp s. eapply wp_mono; [apply publish_spec|]. intros r s' (t & Hl & _). by eapply logged_extends.
Qed.
Lemma sends_terminal e d : P (e_body e) -> sends (_publish_terminal env e d).
Proof.
  intros Hp s. eapply wp_mono; [apply publish_terminal_logged|]. intros r s' (t & Hl & _). by eapply logged_extends.
Qed.

Context (Htext : forall text, P (Delta text)) (Hnarr : forall text k, P (Narration text k)) (Hretract : P AnswerRetract).

Lemma sends_text kind text : sends (_publish_text_envelope env kind text).
Proof.
  unfold _publish_text_envelope. case_bool_decide.
  - apply sends_bind; [apply sends_next_seq|]. intros n. by apply sends_publish, Hnarr.
  - apply sends_bind; [apply sends_stream|]. intros _. apply sends_bind; [apply sends_next_seq|].
    intros n. by apply sends_publish, Htext.
Qed.
Lemma sends_flush : sends (_flush_text env).
Proof.
  unfold _flush_text. apply sends_bind; [apply sends_get|]. intros s. destruct (take_buffer _) as [text b].
  apply sends_bind; [apply sends_stream|]. intros _.
  destruct (tc_kind _), text; try apply sends_ret. apply sends_text.
Qed.
Lemma sends_retract : sends (_retract_answer env).
Proof.
  unfold _retract_answer. apply sends_bind; [apply sends_get|]. intros s.
  apply sends_bind; [destruct (_ || _); [apply sends_stream|apply sends_flush]|]. intros _.
  apply sends_bind; [apply sends_stream|]. intros _. apply sends_bind; [apply sends_get|]. intros s1.
  apply sends_when, sends_bind; [apply sends_stream|]. intros _.
  apply sends_bind; [apply sends_next_seq|]. intros n. by apply sends_publish.
Qed.
Lemma sends_error status title code detail :
  (forall t s c d, P (Problem t s c d)) -> sends (_terminal_error env status title code detail).
Proof.
  intros Hp. unfold _terminal_error. apply sends_bind; [apply sends_get|]. intros s.
  destruct (s_terminal_sent _); [apply sends_ret|]. apply sends_bind; [apply sends_when, sends_retract|]. intros _.
  unfold error_terminal. apply sends_bind; [apply sends_stream|]. intros _.
  apply sends_bind; [apply sends_get|]. intros s1. apply sends_bind.
  - destruct (s_terminal_seq _); [apply sends_ret|]. apply sends_bind; [apply sends_flush|]. intros; apply sends_next_seq.
  - intros n. apply sends_bind; [apply sends_get|]. intros s2.
    apply sends_bind; [apply sends_terminal, Hp|]. intros; apply sends_ret.
Qed.
End sends.

(** *** The error terminal is the end of the stream *)

Definition is_problem (b : body) : Prop := match b with Problem _ _ _ _ => True | _ => False end.
Definition no_terminal_body (b : body) : Prop := is_terminal b = false.

Section ends.
Context (env : Env).

(** [s'] is [s] with envelopes that are no terminals, and then only errors, sent. *)
Definition ends_with (s s' : state) : Prop :=
  exists l1 l2, w_log (wd s') = w_log (wd s) ++ l1 ++ l2
    /\ Forall (fun p => no_terminal_body (e_body p.2)) l1 /\ Forall (fun p => is_problem (e_body p.2)) l2.
Definition ends {A} (m : M A) : Prop := forall s, wp m (fun _ s' => ends_with s s') s.

Lemma ends_bind {A B} (m : M A) (k : A -> M B) :
  sends no_terminal_body m -> (forall a, ends (k a)) -> ends (m ≫= k).
Proof.
  intros Hm Hk s. apply wp_bind. eapply wp_mono; [apply Hm|]. intros [a|e] s1 (l & E & Hl).
  - eapply wp_mono; [apply Hk|]. intros r s2 (l1 & l2 & E2 & H1 & H2). exists (l ++ l1), l2.
    rewrite E2, E, !app_assoc. split; [done|]. by rewrite Forall_app.
  - exists l, []. by rewrite app_nil_r.
Qed.
Lemma ends_before {A} (m : M A) : sends no_terminal_body m -> ends m.
Proof.
  intros Hm s. eapply wp_mono; [apply Hm|]. intros r s1 (l & E & Hl). exists l, []. by rewrite app_nil_r.
Qed.
Lemma ends_last {A} (m : M A) : sends is_problem m -> ends m.
Proof. intros Hm s. eapply wp_mono; [apply Hm|]. intros r s1 (l & E & Hl). by exists [], l. Qed.

Lemma error_ends status title code detail : ends (_terminal_error env status title code detail).
Proof.
  unfold _terminal_error. apply ends_bind; [apply sends_get|]. intros s.
  destruct (s_terminal_sent _); [apply ends_before, sends_ret|].
  apply ends_bind; [by apply sends_when, sends_retract|]. intros _.
  unfold error_terminal. apply ends_bind; [apply sends_stream|]. intros _.
  apply ends_bind; [apply sends_get|]. intros s1. apply ends_bind.
  - destruct (s_terminal_seq _); [apply sends_ret|]. apply sends_bind; [by apply sends_flush|].
    intros; apply sends_next_seq.
  - intros n. apply ends_bind; [apply sends_get|]. intros s2.
    apply ends_last, sends_bind; [by apply sends_terminal|]. intros; apply sends_ret.
Qed.
End ends.

(** Terminals that are errors, or the marks of a Stop. *)
Definition not_success (b : body) : Prop := match b with Done _ _ _ _ _ _ | Cancelled _ _ _ => False | _ => True end.
Definition not_done (b : body) : Prop := match b with Done _ _ _ _ _ _ => False | _ => True end.

Lemma extends_terminals P s s' :
  extends P s s' -> Forall (fun e => P (e_body e)) (terminals (wd s)) ->
  Forall (fun e => P (e_body e)) (terminals (wd s')).
Proof.
  intros (l & E & Hl) H. unfold terminals, sent in *. rewrite E, fmap_app, List.filter_app. apply Forall_app.
  split; [done|]. apply Forall_forall. intros e He. apply list_elem_of_In, filter_In in He as [He _].
  apply list_elem_of_In, list_elem_of_fmap in He as (p & -> & Hp). rewrite Forall_forall in Hl. by apply Hl.
Qed.

(** ** The preparation *)

Section prepare.
Context `{AnswerText} `{SchemaLib} `{Host}.
Context (env : Env) (llm : Llm) (cfg : config) (rq : request).
Context (Hcl : Classified llm).

(** [m] touches nothing of the stream, however it ends. *)
Definition unseen {A} (m : M A) : Prop := forall s, wp m (fun _ s' => untouched s s') s.
Lemma unseen_ret {A} (a : A) : unseen (ret a).
Proof. intros s. apply wp_ret. reflexivity. Qed.
Lemma unseen_bind {A B} (m : M A) (k : A -> M B) : unseen m -> (forall a, unseen (k a)) -> unseen (m ≫= k).
Proof.
  intros Hm Hk s. apply wp_bind. eapply wp_mono; [apply Hm|]. intros [a|e] s1 U1; [|done].
  eapply wp_mono; [apply Hk|]. intros r s2 U2. by etransitivity.
Qed.
Lemma unseen_except {A} (m h : M A) : unseen m -> unseen h -> unseen (except_exception m h).
Proof.
  intros Hm Hh s. apply wp_catch. eapply wp_mono; [apply Hm|]. intros [a|e] s1 U1; [done|].
  destruct (is_exception e); [|done]. eapply wp_mono; [apply Hh|]. intros r s2 U2. by etransitivity.
Qed.
Lemma unseen_reading {A} (f : nat -> A) : unseen (reading env f).
Proof.
  apply unseen_bind; [intros s; apply wp_get; reflexivity|]. intros s. apply unseen_bind; [|intros; apply unseen_ret].
  intros s1. eapply wp_mono; [apply db_read_spec|]. by intros r s2 [Hu _].
Qed.
Lemma unseen_quiet {A} (m : M A) : unseen m -> quiet cfg m.
Proof.
  intros Hm. apply (untouched_quiet _ _ (fun _ _ _ => True)). intros s. eapply wp_mono; [apply Hm|]. done.
Qed.

Lemma quiet_mcp allowed : quiet cfg (mcp_specs env allowed).
Proof.
  apply unseen_quiet. unfold mcp_specs. destruct (existsb _ _); [|apply unseen_ret].
  apply unseen_except; [|apply unseen_ret]. apply unseen_bind; [apply unseen_reading|].
  intros [specs|]; apply unseen_ret.
Qed.

Lemma quiet_validate valid l : quiet cfg (validate_fallbacks env valid l).
Proof.
  induction l as [|m l IH]; simpl; [auto with quiet|]. apply quiet_bind; [auto with quiet|]. intros ok.
  apply quiet_bind; [done|]. auto with quiet.
Qed.

Lemma quiet_rehydrate : quiet cfg (rehydrate env rq).
Proof.
  unfold rehydrate. destruct (group_evidence _), (rq_mentioned rq).*1; try (auto with quiet);
    (apply quiet_bind; [auto with quiet|]; intros permitted; apply quiet_bind;
      [destruct (_ ≫= snd); auto with quiet|]; intros owner; eauto 8 with quiet).
Qed.

(** A commit with no answer row pending. *)
Lemma commit_holds used s :
  open cfg s -> between used s -> holds cfg (commit env) (fun _ s' => between used s') s.
Proof.
  intros Ho [Hsp Hr Ht]. unfold holds. eapply wp_mono; [apply commit_spec|]. intros r s' (Hof & Hdb & Hr').
  pose proof Hof as [[E L] _ (_ & _ & _ & Et) Esc].
  assert (open cfg s') as Ho'.
  { destruct Ho. constructor; rewrite ?E, ?(offstage_terminals _ _ Hof); try done.
    - by eapply offstage_sound.
    - by rewrite Esc.
    - destruct Hdb as [[-> _]|[-> _]]; [|done]. by rewrite answer_rows_app, op_rows, Hr.
    - by eapply offstage_external. }
  split; [done|]. destruct r; [|done]. constructor; [|by destruct Hr' as [_ ->]|by rewrite Et].
  unfold spoken, on_wire_text. by rewrite E.
Qed.

(** The fallbacks do not count in the scopes. *)
Lemma fallbacks_holds l used s :
  open cfg s -> between used s ->
  holds cfg (modify (on_runtime (fun x => set_route (set_fallbacks l (r_route_state x)) (r_usage x) x)))
    (fun _ s' => between used s') s.
Proof.
  intros [[[[] ? ? ?] Hb [? ?]] ? ? ? ? ? ? ?] []. unfold holds, wp, modify. split; by constructor.
Qed.

Lemma quiet_between {A} (m : M A) used s :
  quiet cfg m -> open cfg s -> between used s -> holds cfg m (fun _ s' => between used s') s.
Proof.
  intros Hm Ho Hb. eapply quiet_holds; [done|done|]. intros a s' _ L. exact (like_between _ _ _ L Hb).
Qed.

Lemma reserve_holds used s :
  open cfg s -> between used s -> holds cfg (reserve_handles env) (fun _ s' => between used s') s.
Proof.
  intros Ho Hb. unfold reserve_handles. eapply holds_bind; [apply (quiet_between _ used); [auto with quiet|done|done]|].
  intros first s1 Ho1 B1. eapply holds_bind; [apply (quiet_between _ used); [auto with quiet|done|done]|].
  intros n s2 Ho2 B2. eapply holds_bind; [by apply (commit_holds used)|].
  intros ? s3 Ho3 B3. apply quiet_between; [|done|done]. apply quiet_bind; [auto with quiet|]. auto with quiet.
Qed.

Lemma resolve_fallbacks_holds stored used s :
  open cfg s -> between used s -> holds cfg (resolve_fallbacks env rq stored) (fun _ s' => between used s') s.
Proof.
  intros Ho Hb. unfold resolve_fallbacks. cbv zeta. eapply holds_bind.
  - apply quiet_between; [|done|done]. destruct fallback_validator; [apply quiet_validate|apply quiet_ret].
  - intros l s1 Ho1 B1. by apply fallbacks_holds.
Qed.

(** Choosing the route opens the first scope. *)
Lemma route_holds route used s :
  open cfg s -> between used s -> w_billed (wd s) = [] ->
  holds cfg (modify (on_runtime (set_route (mk_route_state (rq_model rq) route [] []) no_usage)))
    (fun _ s' => between used s') s.
Proof.
  intros [[[[] ? ? ?] _ [? ?]] ? ? ? ? ? ? ?] [] Eb. unfold holds, wp, modify. split; [|by constructor].
  constructor; try done. constructor; [constructor; [by constructor|done..]| |by split].
  intros m. simpl. rewrite Eb. unfold scopes. simpl. by destruct (decide _).
Qed.

Lemma prepare_holds s :
  open cfg s -> between 0 s -> w_billed (wd s) = [] ->
  holds cfg (prepare env llm cfg rq) (fun _ s' => between 0 s') s.
Proof.
  intros Ho Hb Eb. unfold prepare.
  eapply (holds_bind _ _ _ (fun _ s' => between 0 s' /\ w_billed (wd s') = [])).
  { eapply wp_mono; [apply wp_conj; [apply (quiet_between _ 0); [apply quiet_step|done|done]|by apply emit_step_spec, Ho]|].
    intros r s1 [[Ho1 HQ] ((_ & C & _) & _)]. split; [done|]. destruct r; [|done]. split; [done|].
    by destruct C as [[_ _ _ _ (_ & _ & -> & _) _ _ _] _ _ _]. }
  intros ? s1 Ho1 [B1 E1]. eapply (holds_bind _ _ _ (fun _ s' => between 0 s' /\ w_billed (wd s') = [])).
  { eapply wp_mono; [by apply resolve_spec|]. intros r s2 [Hu _]. split; [by eapply untouched_open|].
    destruct r; [|done]. split; [exact (like_between _ _ _ (untouched_like _ _ Hu) B1)|].
    by destruct Hu as (_ & _ & [_ _ _ _ (_ & _ & -> & _) _ _ _]). }
  intros route s2 Ho2 [B2 E2]. eapply holds_bind; [by apply (route_holds route 0)|]. intros ? s3 Ho3 B3.
  eapply holds_bind; [apply (quiet_between _ 0); [auto with quiet|done|done]|]. intros policies s4 Ho4 B4. cbv zeta.
  eapply holds_bind; [apply (quiet_between _ 0); [apply quiet_mcp|done|done]|]. intros mcp s5 Ho5 B5.
  eapply holds_bind; [apply (quiet_between _ 0); [auto with quiet|done|done]|]. intros ? s6 Ho6 B6.
  eapply holds_bind; [apply (quiet_between _ 0); [auto with quiet|done|done]|]. intros tenant s7 Ho7 B7. cbv zeta.
  eapply holds_bind; [by apply (resolve_fallbacks_holds _ 0)|]. intros ? s8 Ho8 B8.
  eapply holds_bind; [by apply (reserve_holds 0)|]. intros handles s9 Ho9 B9.
  eapply holds_bind; [apply (quiet_between _ 0); [apply quiet_rehydrate|done|done]|]. intros r s10 Ho10 B10.
  apply quiet_between; [|done|done]. apply quiet_bind; [auto with quiet|]. intros s11. cbv zeta.
  apply quiet_bind; [auto with quiet|]. intros assembled. apply quiet_bind; [|auto with quiet].
  unfold prepare_step. auto with quiet.
Qed.

Lemma answer_delivered s :
  open cfg s -> between 0 s -> w_billed (wd s) = [] -> wp (_answer env llm cfg rq) (delivered env cfg rq) s.
Proof.
  intros Ho Hb Eb. unfold _answer. apply wp_bind. eapply wp_mono; [by apply prepare_holds|].
  intros [pr|e] s1 [Ho1 B1]; [by apply answer_prepared_spec|]. left. by apply open_unsettled.
Qed.
End prepare.

(** ** Transactions of their own *)

Section sessions.
Context (env : Env).

(** [m] flushes the rows [ws] when it returns. *)
Definition writes {A} (ws : list write) (m : M A) : Prop := forall s,
  wp m (fun r s' => offstage s s' /\ w_committed (wd s') = w_committed (wd s)
    /\ match r with Ok _ => w_pending (wd s') = w_pending (wd s) ++ ws | Err _ => True end) s.

Lemma writes_bind {A B} ws vs (m : M A) (k : A -> M B) :
  writes ws m -> (forall a, writes vs (k a)) -> writes (ws ++ vs) (m ≫= k).
Proof.
  intros Hm Hk s. apply wp_bind. eapply wp_mono; [apply Hm|]. intros [a|e] s1 (O1 & C1 & P1); [|done].
  eapply wp_mono; [apply Hk|]. intros r s2 (O2 & C2 & P2). split_and!; [by etransitivity|congruence|].
  destruct r; [|done]. by rewrite P2, P1, app_assoc.
Qed.
Lemma writes_ret {A} (a : A) : writes [] (ret a).
Proof. intros s. apply wp_ret. split_and!; [reflexivity|done|by rewrite app_nil_r]. Qed.
Lemma writes_db w : writes [w] (db_write env w).
Proof.
  intros s. apply wp_bind. eapply wp_mono; [apply db_read_spec|]. intros [[]|e] s1 [Hu _];
    pose proof (untouched_offstage _ _ Hu) as Hof; pose proof (k_db _ _ (proj2 (proj2 Hu))) as [Ep Ec]; [|done].
  apply wp_modify. split_and!; [etransitivity; [exact Hof|]; by constructor|done|simpl; by rewrite Ep].
Qed.
Lemma writes_all {A} (f : A -> write) l : writes (f <$> l) (forM l (fun x => db_write env (f x))).
Proof.
  induction l as [|x l IH]; simpl; [apply writes_ret|]. apply (writes_bind [f x]); [apply writes_db|]. by intros _.
Qed.

(** A session that flushes [ws] and commits. *)
Lemma session_spec ws (m c : M unit) s :
  writes ws m -> c s = (m ;; commit env) s ->
  wp (in_session c) (fun r s' => offstage s s' /\ w_pending (wd s') = []
    /\ (w_committed (wd s') = w_committed (wd s)
        \/ w_committed (wd s') = w_committed (wd s) ++ w_pending (wd s) ++ ws)
    /\ match r with
       | Ok _ => w_committed (wd s') = w_committed (wd s) ++ w_pending (wd s) ++ ws
       | Err _ => acknowledged env -> w_committed (wd s') = w_committed (wd s)
       end) s.
Proof.
  intros Hm Ec. unfold in_session.
  assert (wp (m ;; commit env) (fun r s' => offstage s s'
    /\ (w_committed (wd s') = w_committed (wd s) \/ w_committed (wd s') = w_committed (wd s) ++ w_pending (wd s) ++ ws)
    /\ match r with
       | Ok _ => w_committed (wd s') = w_committed (wd s) ++ w_pending (wd s) ++ ws
       | Err _ => acknowledged env -> w_committed (wd s') = w_committed (wd s)
       end) s) as Hw.
  { apply wp_bind. eapply wp_mono; [apply Hm|]. intros [[]|e] s1 (O1 & C1 & P1); [|by auto].
    eapply wp_mono; [apply commit_spec|]. unfold flushed, same_db. rewrite C1, P1.
    intros r s2 (O2 & Hdb & Hr). split_and!; [by etransitivity|destruct Hdb as [[-> _]|[-> _]]; auto|].
    destruct r; [by destruct Hr as [-> _]|]. intros Hack. by destruct Hr as [_ Hr], (Hr Hack) as [-> _]. }
  unfold wp in Hw |- *. rewrite Ec. destruct ((m ;; commit env) s) as [r s1]. destruct Hw as (O1 & Hdb & Hr).
  split_and!; [etransitivity; [exact O1|]; by constructor|done..].
Qed.
End sessions.

(** ** Moves that change nothing of the answer *)

Definition resting (s s' : state) : Prop := offstage s s' /\ same_db s s'.
Global Instance resting_preorder : PreOrder resting.
Proof.
  split; [intros s; by split|]. intros s1 s2 s3 [O1 [C1 P1]] [O2 [C2 P2]].
  split; [by etransitivity|split; congruence].
Qed.
Lemma untouched_resting s s' : untouched s s' -> resting s s'.
Proof.
  intros Hu. pose proof (k_db _ _ (proj2 (proj2 Hu))) as [Ep Ec]. split; [by apply untouched_offstage|by split].
Qed.

(** [m] only rests, however it ends. *)
Definition rests {A} (m : M A) : Prop := forall s, wp m (fun _ s' => resting s s') s.
Lemma rests_bind {A B} (m : M A) (k : A -> M B) : rests m -> (forall a, rests (k a)) -> rests (m ≫= k).
Proof.
  intros Hm Hk s. apply wp_bind. eapply wp_mono; [apply Hm|]. intros [a|e] s1 H1; [|done].
  eapply wp_mono; [apply Hk|]. intros r s2 H2. by etransitivity.
Qed.
Lemma rests_ret {A} (a : A) : rests (ret a).
Proof. intros s. apply wp_ret. reflexivity. Qed.
Lemma rests_get : rests get.
Proof. intros s. apply wp_get. reflexivity. Qed.
Lemma rests_when b m : rests m -> rests (when b m).
Proof. intros Hm. destruct b; [done|apply rests_ret]. Qed.
Lemma rests_mark f :
  (forall x, r_turn_scope (f x) = r_turn_scope x /\ r_route_state (f x) = r_route_state x
    /\ r_usage (f x) = r_usage x /\ r_salvage (f x) = r_salvage x /\ r_model_calls (f x) = r_model_calls x) ->
  rests (modify (on_runtime f)).
Proof. intros Hf s. apply wp_modify. destruct (Hf (rt s)) as (? & ? & ? & ? & ?). split; [|done]. by constructor. Qed.
Lemma rests_await env : rests (await env).
Proof. intros s. eapply wp_mono; [apply await_spec|]. intros r s' [Hu _]. by apply untouched_resting. Qed.
Lemma rests_db_read env : rests (db_read env).
Proof. intros s. eapply wp_mono; [apply db_read_spec|]. intros r s' [Hu _]. by apply untouched_resting. Qed.

Create HintDb rests.
#[export] Hint Resolve rests_ret rests_get rests_await rests_db_read : rests.
#[export] Hint Extern 2 (rests (when _ _)) => apply rests_when : rests.
#[export] Hint Extern 2 (rests (modify (on_runtime _))) => apply rests_mark; intro; repeat split : rests.
#[export] Hint Extern 3 (rests (_ ≫= _)) => apply rests_bind; [|intro] : rests.

Lemma rests_cleanup env n : rests (retry_cleanup env n).
Proof. induction n; simpl; auto 8 with rests. Qed.
Lemma rests_grace env : rests (grace_deadline env).
Proof. unfold grace_deadline. auto 8 with rests. Qed.
Lemma rests_close env : rests (close_resources env).
Proof. unfold close_resources. auto with rests. Qed.
#[export] Hint Resolve rests_cleanup rests_grace rests_close : rests.

(** ** Giving up an answer *)

Section settle.
Context (env : Env) (cfg : config) (rq : request) (cleanup_failures : nat).

(** The usage a failed answer accounts for: its scopes that spent anything. *)
Definition salvaged (x : runtime) : list (pystr * TokenUsage) :=
  (fun mu => (mu.1, tokens_of mu.2)) <$> spent_scopes x.
(** The usage is not recorded, or once. *)
Definition recorded_once (s : state) : Prop :=
  acknowledged env ->
  usage_rows (w_committed (wd s)) = [] \/ usage_rows (w_committed (wd s)) = salvaged (rt s).

(** No open transaction holds usage. *)
Definition idle (s : state) : Prop := usage_rows (w_pending (wd s)) = [].

Lemma resting_idle s s' : resting s s' -> idle s -> idle s'.
Proof. intros [_ [_ E]]. unfold idle. by rewrite E. Qed.
Lemma resting_once s s' : resting s s' -> recorded_once s -> recorded_once s'.
Proof.
  intros [[_ (Er & Eu & _) _ _] [Ec _]] Hr Hack. specialize (Hr Hack). unfold salvaged, spent_scopes in *.
  by rewrite Ec, Er, Eu.
Qed.

(** The answer is being given up; no terminal is out. *)
Record given_up (s : state) : Prop := {
  gu_sound : sound cfg s;
  gu_seq : s_terminal_seq (st s) = None;
  gu_sent : s_terminal_sent (st s) = false;
  gu_terminals : terminals (wd s) = [];
  gu_committed : s_answer_committed (st s) = false;
  gu_external : within_external cfg s 0;
  gu_usage : recorded_once s
}.
Lemma unsettled_given_up s : unsettled env cfg s -> given_up s.
Proof. intros []. constructor; try done. intros Hack. left. auto. Qed.

Lemma resting_unsettled s s' : resting s s' -> unsettled env cfg s -> unsettled env cfg s'.
Proof. intros [Hof [Ec _]]. apply offstage_unsettled; [done|]. by rewrite Ec. Qed.
Lemma resting_given_up s s' : resting s s' -> given_up s -> given_up s'.
Proof.
  intros Hr []. pose proof Hr as [Hof _]. pose proof (of_stream _ _ Hof) as [E _].
  constructor; rewrite ?E, ?(offstage_terminals _ _ Hof); try done.
  - by eapply offstage_sound.
  - by eapply offstage_external.
  - by eapply resting_once.
Qed.

(** The answer is given up; only errors end its stream. *)
Record failed (s : state) : Prop := {
  fa_sound : sound cfg s;
  fa_one : one_terminal s;
  fa_terminals : Forall (fun e => not_success (e_body e)) (terminals (wd s));
  fa_committed : s_answer_committed (st s) = false;
  fa_external : within_external cfg s 0;
  fa_usage : recorded_once s
}.
(** The stream ended with errors, and with nothing else after the first of them. *)
Definition ended_in_error (w : world) : Prop :=
  exists before after, w_log w = before ++ after /\ after <> []
    /\ Forall (fun p => is_terminal (e_body p.2) = false) before
    /\ Forall (fun p => is_problem (e_body p.2)) after.
(** The stream of a failed answer ended, and its text was taken back. *)
Definition taken_back (s : state) : Prop := failed s /\ ended_in_error (wd s) /\ on_wire_text s = [].

Lemma given_up_failed s : given_up s -> failed s.
Proof.
  intros []. constructor; try done; [unfold one_terminal; rewrite gu_seq0; by left|]. by rewrite gu_terminals0.
Qed.

(** The partial answer is stored as cancelled. *)
Definition only_cancelled (b : body) : Prop :=
  match b with Done _ _ _ _ _ _ | Problem _ _ _ _ => False | _ => True end.
Record stopped (s : state) : Prop := {
  sp_sound : sound cfg s;
  sp_one : one_terminal s;
  sp_terminals : Forall (fun e => only_cancelled (e_body e)) (terminals (wd s));
  sp_committed : s_answer_committed (st s) = false;
  sp_stored : exists model, WMessage (rq_message_id rq) (rq_session_id rq) (on_wire_text s) model
    (Some (cp "cancelled")) None None ∈ w_committed (wd s);
  sp_external : within_external cfg s 0;
  sp_usage : recorded_once s
}.

Lemma resting_one s s' : resting s s' -> one_terminal s -> one_terminal s'.
Proof.
  intros [Hof _]. pose proof (of_stream _ _ Hof) as [E _]. unfold one_terminal.
  by rewrite E, (offstage_terminals _ _ Hof).
Qed.
Lemma resting_failed s s' : resting s s' -> failed s -> failed s'.
Proof.
  intros Hr []. pose proof Hr as [Hof _]. pose proof (of_stream _ _ Hof) as [E _].
  constructor; rewrite ?E, ?(offstage_terminals _ _ Hof); try done.
  - by eapply offstage_sound.
  - by eapply resting_one.
  - by eapply offstage_external.
  - by eapply resting_once.
Qed.
Lemma resting_taken_back s s' : resting s s' -> taken_back s -> taken_back s'.
Proof.
  intros Hr (Hf & Hne & Hw). split; [by eapply resting_failed|]. destruct Hr as [Hof _].
  unfold ended_in_error, on_wire_text in *. destruct (of_stream _ _ Hof) as [-> ->]. by split.
Qed.
Lemma resting_stopped s s' : resting s s' -> stopped s -> stopped s'.
Proof.
  intros Hr []. pose proof Hr as [Hof [Ec _]]. pose proof (of_stream _ _ Hof) as [E _].
  constructor; unfold on_wire_text in *; rewrite ?E, ?Ec, ?(offstage_terminals _ _ Hof); try done.
  - by eapply offstage_sound.
  - by eapply resting_one.
  - by eapply offstage_external.
  - by eapply resting_once.
Qed.
Lemma resting_answered text s s' : resting s s' -> answered cfg rq text s -> answered cfg rq text s'.
Proof.
  intros [Hof [Ec Ep]] Ha. apply (offstage_answered cfg rq text s s' []); try done; [by rewrite app_nil_r|].
  rewrite Ep. apply Ha.
Qed.

(** *** Salvage *)

Lemma usage_of_spent (l : list (pystr * _Usage)) :
  usage_rows ((fun mu => WUsage mu.1 mu.2 (rq_session_id rq) (rq_message_id rq) None) <$> l)
  = (fun mu => (mu.1, tokens_of mu.2)) <$> l.
Proof. induction l as [|[m u] l IH]; simpl; [done|]. by f_equal. Qed.

Lemma salvage_spec s :
  unsettled env cfg s -> idle s ->
  wp (_salvage_usage_after_failure env rq) (fun _ s' => given_up s' /\ st s' = st s) s.
Proof.
  intros Hu Hi. pose proof (unsettled_given_up _ Hu) as Hg. unfold _salvage_usage_after_failure.
  apply wp_bind, wp_get. destruct (negb _); [by apply wp_ret|].
  destruct (spent_scopes (rt s)) as [|mu spent] eqn:El; [by apply wp_ret|]. rewrite <-El.
  unfold except_exception. apply wp_catch.
  eapply wp_mono; [eapply session_spec; [apply writes_all|reflexivity]|]. intros r s1 (Hof & Ep & Hdb & Hr).
  assert (given_up s1 /\ st s1 = st s) as Hend.
  { pose proof (of_stream _ _ Hof) as [E _]. split; [|done]. destruct Hg.
    constructor; rewrite ?E, ?(offstage_terminals _ _ Hof); try done;
      [by eapply offstage_sound|by eapply offstage_external|].
    intros Hack. destruct Hof as [_ (Er & Eu & _) _ _].
    assert (salvaged (rt s1) = salvaged (rt s)) as Esal by (unfold salvaged, spent_scopes; by rewrite Er, Eu).
    pose proof (un_usage _ _ _ Hu Hack) as E0. rewrite Esal. destruct Hdb as [->| ->]; [by left|right].
    rewrite !usage_rows_app, E0. unfold idle in Hi. rewrite Hi. simpl. apply usage_of_spent. }
  destruct r as [|e]; [done|]. by destruct (is_exception e).
Qed.

Lemma salvage_idle s : idle s -> wp (_salvage_usage_after_failure env rq) (fun _ s' => idle s') s.
Proof.
  intros Hi. unfold _salvage_usage_after_failure. apply wp_bind, wp_get. destruct (negb _); [by apply wp_ret|].
  destruct (spent_scopes (rt s)); [by apply wp_ret|]. unfold except_exception. apply wp_catch.
  unfold wp, in_session. set (m := (_ ;; commit env) : M unit). destruct (m s) as [r s1].
  destruct r as [|e]; [done|]. by destruct (is_exception e).
Qed.

(** *** The error terminal *)

Lemma only_errors s s' : Forall (fun e => not_success (e_body e)) (terminals (wd s)) ->
  extends not_success s s' -> Forall (fun e => not_success (e_body e)) (terminals (wd s')).
Proof. intros Hf He. by eapply (extends_terminals not_success). Qed.

Lemma keeps_once s s' : keeps s s' -> recorded_once s -> recorded_once s'.
Proof.
  intros [_ _ _ (Er & Eu & _) _ [_ Ec] _ _] Hr Hack. specialize (Hr Hack).
  unfold salvaged, spent_scopes in *. by rewrite Ec, Er, Eu.
Qed.
Lemma keeps_external n s s' : keeps s s' -> within_external cfg s n -> within_external cfg s' n.
Proof. intros [_ _ _ _ (_ & _ & _ & E) _ _ _]. unfold within_external. by rewrite E. Qed.

Lemma ends_in_error s s' :
  terminals (wd s) = [] -> ends_with s s' -> terminals (wd s') <> [] -> ended_in_error (wd s').
Proof.
  intros Hs (l1 & l2 & E & H1 & H2) Hne. exists (w_log (wd s) ++ l1), l2.
  assert (Forall (fun p => is_terminal (e_body p.2) = false) (w_log (wd s) ++ l1)) as Hb.
  { apply Forall_app. split; [|done]. apply Forall_forall. intros p Hp. apply not_true_iff_false. intros Ht.
    assert (p.2 ∈ terminals (wd s)) as Hin; [|by rewrite Hs in Hin; apply elem_of_nil in Hin].
    unfold terminals, sent. apply list_elem_of_In, filter_In. split; [|done].
    apply list_elem_of_In, list_elem_of_fmap. by exists p. }
  rewrite <-app_assoc. split_and!; [done| |done|done]. intros ->. apply Hne. rewrite app_nil_r in E.
  unfold terminals, sent. rewrite E. clear -Hb. induction Hb as [|p l Hp _ IH]; simpl; [done|]. by rewrite Hp.
Qed.

Lemma terminal_error_settles status title code detail s :
  given_up s ->
  wp (_terminal_error env status title code detail)
    (fun r s' => failed s' /\ (r = Ok tt -> taken_back s')) s.
Proof.
  intros Hg. pose proof Hg as []. pose proof (given_up_failed _ Hg) as [].
  eapply wp_mono.
  { apply wp_conj; [apply terminal_error_spec; [apply gu_sound0|done..|congruence]|].
    apply wp_conj; [by apply (sends_error env not_success)|apply (error_ends env)]. }
  intros r s1 [(Hok & Hone & K & _ & Hr) [Hx He]].
  assert (failed s1) as Hf.
  { constructor; [by eapply keeps_sound|done|by eapply only_errors| |by eapply keeps_external|by eapply keeps_once].
    by rewrite (k_committed _ _ K). }
  split; [done|]. intros ->. destruct Hr as (Hne & _ & Hw). split_and!; [done| |by apply Hw].
  by apply (ends_in_error s).
Qed.

(** *** The [cancelled] terminal *)

Lemma sends_attempt P e : P (e_body e) -> sends P (cancelled_attempt env e).
Proof.
  intros Hp. unfold cancelled_attempt. apply sends_bind; [apply sends_get|]. intros s.
  apply sends_except; [by apply sends_terminal|apply sends_ret].
Qed.
Lemma sends_cancelled e : only_cancelled (e_body e) -> sends only_cancelled (publish_cancelled env e).
Proof.
  intros Hp. unfold publish_cancelled. apply sends_bind; [by apply sends_attempt|].
  intros []; [apply sends_stream|]. apply sends_bind; [by apply sends_attempt|].
  intros b. apply sends_when, sends_stream.
Qed.

(** A state of the stream that [closes] [s] with the terminal [n] out or to come. *)
Definition closing (n : Z) (s s1 : state) : Prop :=
  closes s s1 /\ ready n s1 /\ s_terminal_seq (st s1) = Some n.
Definition closed (n : Z) (s s1 : state) : Prop := closing n s s1 /\ stream_ok s1 /\ one_terminal s1.

Lemma attempt_closes n b s s1 :
  is_terminal b = true -> is_text b = false -> stream_ok s -> closing n s s1 ->
  wp (cancelled_attempt env (mk_env n b)) (fun _ s' => closed n s s') s1.
Proof.
  intros Hb Hx Hok (Hc & Hr & Hn). unfold cancelled_attempt. apply wp_bind, wp_get, wp_catch.
  eapply wp_mono; [by apply (attempt_spec env n b _ s s1)|]. intros r s2 ((O & C & One & _) & R & N & _).
  assert (closed n s s2) by (by split_and!). destruct r as [|e]; [done|]. by destruct (is_exception e).
Qed.

Lemma mark_sent n s s1 : closed n s s1 -> closed n s (on_stream (set_terminal_sent true) s1).
Proof.
  intros ((C & [[] R1 R2 R3] & N) & O & One).
  assert (closes s1 (on_stream (set_terminal_sent true) s1)) as C1 by (by apply closes_on_stream).
  split_and!; [split_and!| |].
  - by etransitivity.
  - by constructor; [constructor|..].
  - done.
  - eapply closes_ok; [exact C1|by constructor|done].
  - unfold one_terminal in *. simpl in *. by rewrite N in *.
Qed.

Lemma publish_cancelled_closes n b s s1 :
  is_terminal b = true -> is_text b = false -> stream_ok s -> closing n s s1 ->
  wp (publish_cancelled env (mk_env n b)) (fun _ s' => closed n s s') s1.
Proof.
  intros Hb Hx Hok Hc. unfold publish_cancelled. apply wp_bind.
  eapply wp_mono; [by apply attempt_closes|]. intros [[]|e] s2 H2; [by apply wp_modify, mark_sent| |done].
  apply wp_bind. eapply wp_mono; [apply attempt_closes; [done..|apply H2]|].
  intros [[]|e] s3 H3; [by apply wp_modify, mark_sent|done|done].
Qed.

Lemma cancelled_seq_closes s :
  given_up s -> wp cancelled_seq (fun r s' => exists n, r = Ok n /\ closing n s s'
    /\ w_committed (wd s') = w_committed (wd s) /\ extends only_cancelled s s') s.
Proof.
  intros []. unfold cancelled_seq. apply wp_bind, wp_get. rewrite gu_seq0. apply wp_bind.
  unfold next_seq, wp at 1. apply wp_bind, wp_modify, wp_ret. exists (s_seq (st s)).
  pose proof (so_order _ (sd_stream _ _ gu_sound0)) as [H0 Hr Hs].
  split_and!; [done| |done|exists []; by rewrite app_nil_r]. split_and!; [|constructor|done].
  - constructor; try done; constructor; simpl; intuition.
  - constructor; simpl; [lia| |done]. eapply Forall_impl; [exact Hr|]. simpl. intros. lia.
  - simpl. lia.
  - change (Forall (fun e => e_seq e = s_seq (st s)) (terminals (wd s))). rewrite gu_terminals0. constructor.
  - intros _. eapply Forall_impl; [exact Hr|]. simpl. intros. lia.
Qed.

(** *** Storing the partial *)

Lemma store_partial_spec model s :
  given_up s -> idle s ->
  wp (store_partial env rq model) (fun r s' => given_up s' /\ idle s' /\ st s' = st s
    /\ (r = Ok tt -> WMessage (rq_message_id rq) (rq_session_id rq) (on_wire_text s) model
         (Some (cp "cancelled")) None None ∈ w_committed (wd s'))) s.
Proof.
  intros Hg Hi. unfold store_partial. apply wp_bind, wp_get. cbv zeta.
  set (msg := WMessage _ _ _ _ _ _ _). set (aud := WCancelAudit _ _ _ _).
  eapply wp_mono.
  { apply (session_spec env [msg; aud] (db_write env msg ;; db_write env aud)).
    - apply (writes_bind [msg] [aud]); [apply writes_db|]. intros _. apply writes_db.
    - unfold mbind, M_bind, bind. destruct (db_write env msg s) as [[[]|e] s1]; [|done].
      by destruct (db_write env aud s1) as [[[]|e] s2]. }
  intros r s1 (Hof & Ep & Hdb & Hr). pose proof (of_stream _ _ Hof) as [E _].
  assert (usage_rows (w_committed (wd s1)) = usage_rows (w_committed (wd s))) as Eus.
  { destruct Hdb as [->| ->]; [done|]. rewrite !usage_rows_app. unfold idle in Hi. rewrite Hi. simpl. apply app_nil_r. }
  split_and!; [|unfold idle; by rewrite Ep|done|].
  - destruct Hg. constructor; rewrite ?E, ?(offstage_terminals _ _ Hof); try done;
      [by eapply offstage_sound|by eapply offstage_external|].
    intros Hack. destruct Hof as [_ (Er & Eu & _) _ _]. specialize (gu_usage0 Hack).
    unfold salvaged, spent_scopes in *. by rewrite Eus, Er, Eu.
  - intros ->. rewrite Hr. subst msg. unfold on_wire_text. set_solver.
Qed.

Lemma steps_given_up {A} s (r : res exn A) s' : steps s r s' -> given_up s -> given_up s'.
Proof.
  intros (Hok & [K E1 E2 E3] & _) []. constructor; try congruence.
  - by eapply keeps_sound.
  - rewrite (k_committed _ _ K). done.
  - by eapply keeps_external.
  - by eapply keeps_once.
Qed.

Lemma closed_stopped n s s1 model :
  given_up s -> closed n s s1 -> w_committed (wd s1) = w_committed (wd s) -> extends only_cancelled s s1 ->
  WMessage (rq_message_id rq) (rq_session_id rq) (on_wire_text s) model (Some (cp "cancelled")) None None
    ∈ w_committed (wd s) -> stopped s1.
Proof.
  intros [] ((C & _ & _) & O & One) Ec Hx Hm. pose proof (cl_keeps _ _ C) as K. constructor.
  - by eapply keeps_sound.
  - done.
  - eapply extends_terminals; [exact Hx|]. by rewrite gu_terminals0.
  - by rewrite (k_committed _ _ K).
  - exists model. rewrite Ec. unfold on_wire_text. by rewrite (cl_partial _ _ C).
  - by eapply keeps_external.
  - by eapply keeps_once.
Qed.

Lemma finalise_settles s :
  given_up s -> idle s ->
  wp (_finalise_cancelled env rq) (fun r s' =>
    (stopped s' \/ failed s') /\ (r = Ok tt -> stopped s' \/ taken_back s')) s.
Proof.
  intros Hg Hi. unfold _finalise_cancelled. apply wp_bind, wp_get. rewrite (gu_sent _ Hg). apply wp_bind.
  eapply wp_mono; [by apply flush_text_spec, Hg|]. intros [[]|e] s1 (Hs & Hd & Hw).
  2:{ split; [|done]. right. apply given_up_failed. by eapply steps_given_up. }
  pose proof (steps_given_up _ _ _ Hs Hg) as G1.
  assert (idle s1) as I1.
  { destruct Hs as (_ & [[_ _ _ _ _ [Ep _] _ _] _ _ _] & _). unfold idle. by rewrite Ep. }
  destruct (if r_salvage (rt s) then _ else _) as [model usage]. apply wp_bind. apply wp_catch, wp_bind.
  eapply wp_mono; [by apply store_partial_spec|]. intros [[]|e] s2 (G2 & I2 & E2 & Hst).
  - apply wp_ret. apply wp_bind. eapply wp_mono; [by apply cancelled_seq_closes|].
    intros r s3 (n & -> & Hc & Ec & Hx).
    eapply wp_mono; [apply wp_conj; [apply (publish_cancelled_closes n _ s2); [done|done|apply G2|exact Hc]|by apply sends_cancelled]|].
    intros r s4 [Hcl Hx4]. assert (stopped s4) as Hstop.
    { eapply (closed_stopped n s2); [done|done| |by etransitivity|].
      - destruct Hcl as ((C & _) & _). by destruct (cl_keeps _ _ C) as [_ _ _ _ _ [_ ->] _ _].
      - unfold on_wire_text in *. rewrite E2. by apply Hst. }
    by split; auto.
  - assert (forall s3, given_up s3 -> wp (_terminal_error env 503 (cp "Service Unavailable")
      (cp "cancellation_persist_failed") (Some (cp "The stopped answer could not be saved."))) (fun r s' =>
      (stopped s' \/ failed s') /\ (r = Ok tt -> stopped s' \/ taken_back s')) s3) as Herr.
    { intros s3 G3. eapply wp_mono; [by apply terminal_error_settles|]. intros r s4 [Hf Ht]. split; auto. }
    destruct (is_exception e); [by apply wp_ret, Herr|]. apply wp_raise. split; [|done].
    right. by apply given_up_failed.
Qed.

(** ** The endings *)

(** How a run ends. *)
Definition settles (r : res exn bool) (s : state) : Prop :=
  match r with
  | Ok true => exists text, answered cfg rq text s
  | Ok false => stopped s \/ taken_back s \/ exists text, answered cfg rq text s
  | Err _ => stopped s \/ failed s \/ exists text, answered cfg rq text s
  end.

Lemma resting_settles r s s' : resting s s' -> settles r s -> settles r s'.
Proof.
  intros Hr. unfold settles. destruct r as [[]|e].
  - intros [text Ha]. exists text. by eapply resting_answered.
  - intros [?|[?|[text Ha]]]; [left; by eapply resting_stopped|right; left; by eapply resting_taken_back|].
    right; right. exists text. by eapply resting_answered.
  - intros [?|[?|[text Ha]]]; [left; by eapply resting_stopped|right; left; by eapply resting_failed|].
    right; right. exists text. by eapply resting_answered.
Qed.
Lemma settles_err r e s : settles r s -> settles (Err e) s.
Proof.
  unfold settles. destruct r as [[]|e']; [by right; right| |done].
  intros [?|[[? _]|?]]; auto.
Qed.

Lemma rescoped a b s : resting s (on_runtime (fun x => set_scopes (r_turn_scope x) (r_answer_scope x) a b x) s).
Proof. split; [by constructor|done]. Qed.

(** The end of a shielded block loses its result to a shutdown. *)
Lemma shielded_spec {A} (m : M A) (Q : res exn A -> state -> Prop) s :
  (forall s1, resting s s1 -> wp m Q s1) ->
  (forall r s1 s2, resting s1 s2 -> Q r s1 -> Q r s2) ->
  (forall a e s1, Q (Ok a) s1 -> Q (Err e) s1) ->
  wp (shielded m) Q s.
Proof.
  intros Hm Hrest Herr. unfold shielded. specialize (Hm _ (rescoped true false s)).
  unfold wp in *. destruct (m _) as [r s1].
  pose proof (rescoped false false s1) as R. destruct r as [a|e]; [destruct (r_interrupted (rt s1))|];
    eapply Hrest; try exact R; eauto.
Qed.

(** [m] ends the answer: with [Q] when it returns. *)
Definition gives_up {A} (m : M A) (Q : state -> Prop) (s : state) : Prop :=
  wp m (fun r s' => (stopped s' \/ failed s') /\ match r with Ok _ => Q s' | Err _ => True end) s.

Lemma rests_then {A B} (m : M A) (k : A -> M B) (Q : state -> Prop) s :
  rests m -> failed s -> (forall a s1, resting s s1 -> gives_up (k a) Q s1) -> gives_up (m ≫= k) Q s.
Proof.
  intros Hm Hf Hk. apply wp_bind. eapply wp_mono; [apply Hm|]. intros [a|e] s1 R1; [by apply Hk|].
  split; [|done]. right. by eapply resting_failed.
Qed.

Lemma shielded_gives_up {A} (m : M A) (Q : state -> Prop) s :
  (forall s1, resting s s1 -> gives_up m Q s1) -> (forall s1 s2, resting s1 s2 -> Q s1 -> Q s2) ->
  gives_up (shielded m) Q s.
Proof.
  intros Hm HQ. apply shielded_spec; [done| |].
  - intros r s1 s2 R [[?|?] Hr]; (split; [|destruct r; eauto]); [left|right];
      [by eapply resting_stopped|by eapply resting_failed].
  - intros a e s1 [? _]. by split.
Qed.

(** A transaction that is not yet salvaged. *)
Lemma salvage_then {B} (k : unit -> M B) (Q : state -> Prop) s :
  unsettled env cfg s -> idle s ->
  (forall s1, given_up s1 -> idle s1 -> gives_up (k tt) Q s1) ->
  gives_up (_salvage_usage_after_failure env rq ≫= k) Q s.
Proof.
  intros Hu Hi Hk. apply wp_bind. eapply wp_mono; [apply wp_conj; [by apply salvage_spec|by apply salvage_idle]|].
  intros [[]|e] s1 [[G1 _] I1]; [by apply Hk|]. split; [|done]. right. by apply given_up_failed.
Qed.

Lemma finish_error_spec status title code detail cleanup s :
  unsettled env cfg s -> idle s ->
  gives_up (finish_error env rq cleanup_failures status title code detail cleanup) taken_back s.
Proof.
  intros Hu Hi. pose proof (fun s u => given_up_failed _ (unsettled_given_up s u)) as Hfail.
  unfold finish_error. apply rests_then; [auto with rests|by apply Hfail|]. intros ? s1 R1.
  pose proof (resting_unsettled _ _ R1 Hu) as U1. pose proof (resting_idle _ _ R1 Hi) as I1.
  apply shielded_gives_up; [|by apply resting_taken_back]. intros s2 R2.
  pose proof (resting_unsettled _ _ R2 U1) as U2. pose proof (resting_idle _ _ R2 I1) as I2.
  apply rests_then; [auto with rests|by apply Hfail|]. intros ? s3 R3.
  apply salvage_then; [by eapply resting_unsettled|by eapply resting_idle|]. intros s4 G4 I4.
  eapply wp_mono; [by apply terminal_error_settles|]. intros r s5 [Hf Ht]. split; [by right|].
  destruct r as [[]|]; [by apply Ht|done].
Qed.

Lemma finish_user_cancel_spec cleanup s :
  unsettled env cfg s -> idle s ->
  wp (finish_user_cancel env rq cleanup_failures cleanup) settles s.
Proof.
  intros Hu Hi. pose proof (fun s u => given_up_failed _ (unsettled_given_up s u)) as Hfail.
  unfold finish_user_cancel.
  assert (gives_up (modify (on_runtime (set_finalising true)) ;;
    shielded (when cleanup (retry_cleanup env cleanup_failures) ;; close_resources env ;;
      _salvage_usage_after_failure env rq ;; _finalise_cancelled env rq))
    (fun s' => stopped s' \/ taken_back s') s) as Hm.
  { apply rests_then; [auto with rests|by apply Hfail|]. intros ? s1 R1.
    pose proof (resting_unsettled _ _ R1 Hu) as U1. pose proof (resting_idle _ _ R1 Hi) as I1.
    apply shielded_gives_up.
    2:{ intros s2 s3 R [?|?]; [left; by eapply resting_stopped|right; by eapply resting_taken_back]. }
    intros s2 R2. pose proof (resting_unsettled _ _ R2 U1) as U2. pose proof (resting_idle _ _ R2 I1) as I2.
    apply rests_then; [auto with rests|by apply Hfail|]. intros ? s3 R3.
    pose proof (resting_unsettled _ _ R3 U2) as U3. pose proof (resting_idle _ _ R3 I2) as I3.
    apply rests_then; [auto with rests|by apply Hfail|]. intros ? s4 R4.
    apply salvage_then; [by eapply resting_unsettled|by eapply resting_idle|]. intros s5 G5 I5.
    eapply wp_mono; [by apply finalise_settles|]. intros r s6 [Hf Ht]. split; [done|].
    destruct r as [[]|]; [by apply Ht|done]. }
  unfold gives_up, wp, mbind, M_bind, bind, modify in Hm |- *.
  destruct (shielded _ _) as [[[]|e] s6]; destruct Hm as [Hf Ht]; simpl; tauto.
Qed.

(** An ending that reports failure. *)
Lemma gives_up_settles (m : M unit) (k : M bool) s :
  gives_up m taken_back s -> (forall s', k s' = (Ok false, s') \/ exists e, k s' = (Err e, s')) ->
  wp (m ;; k) settles s.
Proof.
  intros Hm Hk. apply wp_bind. eapply wp_mono; [exact Hm|]. intros [[]|e] s1 [Hf Ht]; [|simpl; tauto].
  unfold wp. destruct (Hk s1) as [->|[e ->]]; simpl; tauto.
Qed.

(** The arms, for an answer that is not committed. *)
Lemma rests_settles {A} (m : M A) (k : A -> M bool) s :
  rests m -> unsettled env cfg s -> idle s ->
  (forall a s1, unsettled env cfg s1 -> idle s1 -> wp (k a) settles s1) -> wp (m ≫= k) settles s.
Proof.
  intros Hm Hu Hi Hk. apply wp_bind. eapply wp_mono; [apply Hm|]. intros [a|e] s1 R1.
  - apply Hk; [by eapply resting_unsettled|by eapply resting_idle].
  - right; left. apply given_up_failed, unsettled_given_up. by eapply resting_unsettled.
Qed.

Lemma unless_stopped_open (m : M bool) s :
  unsettled env cfg s -> idle s -> wp m settles s -> wp (unless_stopped env rq cleanup_failures m) settles s.
Proof.
  intros Hu Hi Hm. unfold unless_stopped. apply wp_bind, wp_get. destruct (_ && _); [|done].
  by apply finish_user_cancel_spec.
Qed.

Lemma typed_error_spec status title code detail s :
  unsettled env cfg s -> idle s ->
  wp (typed_error env rq cleanup_failures status title code detail) settles s.
Proof.
  intros Hu Hi. unfold typed_error. apply rests_settles; [auto with rests|done|done|]. intros ? s1 U1 I1.
  apply gives_up_settles; [by apply finish_error_spec|]. intros s'. by left.
Qed.

Lemma arms_open e s :
  unsettled env cfg s -> idle s -> wp (arms env rq cleanup_failures e) settles s.
Proof.
  intros Hu Hi.
  assert (forall c (k : M bool) s1, unsettled env cfg s1 -> idle s1 ->
    (forall s', k s' = (Ok false, s') \/ exists e, k s' = (Err e, s')) ->
    wp (shutdown_error env rq cleanup_failures c ;; k) settles s1) as Hshut.
  { intros c k s1 U1 I1 Hk. apply gives_up_settles; [exact (finish_error_spec _ _ _ _ c s1 U1 I1)|exact Hk]. }
  assert (forall c s1, unsettled env cfg s1 -> idle s1 ->
    wp (budget_error env rq cleanup_failures c ;; ret false) settles s1) as Hbudget.
  { intros c s1 U1 I1. apply gives_up_settles; [exact (finish_error_spec _ _ _ _ c s1 U1 I1)|]. intros s'. by left. }
  assert (wp (modify (on_runtime (set_exhausted true)) ;; grace_deadline env ;;
    budget_error env rq cleanup_failures false ;; ret false) settles s) as Hexp.
  { apply rests_settles; [auto with rests|done|done|]. intros ? s1 U1 I1.
    apply rests_settles; [auto with rests|done|done|]. intros ? s2 U2 I2. by apply Hbudget. }
  destruct e; simpl.
  - apply unless_stopped_open; [done..|]. apply wp_bind, wp_get. rewrite (un_sent _ _ _ Hu), andb_false_r.
    apply Hshut; [done..|]. intros s'. right. by eexists.
  - by apply unless_stopped_open.
  - by apply unless_stopped_open.
  - apply unless_stopped_open; [done..|]. by apply typed_error_spec.
  - apply unless_stopped_open; [done..|]. by apply typed_error_spec.
  - apply wp_bind, wp_get. destruct (r_cancel_requested (rt s)); [by apply finish_user_cancel_spec|].
    destruct (match r_answer_deadline (rt s) with Some d => _ | None => _ end).
    + apply rests_settles; [auto with rests|done|done|]. intros ? s1 U1 I1. by apply Hbudget.
    + apply Hshut; [done..|]. intros s'. right. by eexists.
  - apply unless_stopped_open; [done..|]. apply gives_up_settles; [by apply finish_error_spec|].
    intros s'. by left.
Qed.

(** *** The arms, for an answer that is committed *)

(** However [m] ends, the answer stays. *)
Definition stays {A} (text : pystr) (m : M A) (s : state) : Prop :=
  wp m (fun _ s' => answered cfg rq text s') s.

Lemma stays_bind {A B} text (m : M A) (k : A -> M B) s :
  stays text m s -> (forall a s1, answered cfg rq text s1 -> stays text (k a) s1) -> stays text (m ≫= k) s.
Proof.
  intros Hm Hk. apply wp_bind. eapply wp_mono; [exact Hm|]. intros [a|e] s1 Ha; [by apply Hk|done].
Qed.
Lemma stays_rests {A} text (m : M A) s : rests m -> answered cfg rq text s -> stays text m s.
Proof.
  intros Hm Ha. eapply wp_mono; [apply Hm|]. intros r s1 R. exact (resting_answered _ _ _ R Ha).
Qed.

(** An error after the commit leaves the answer on the wire. *)
Lemma terminal_error_stays text status title code detail s :
  answered cfg rq text s -> stays text (_terminal_error env status title code detail) s.
Proof.
  intros Ha. destruct (s_terminal_sent (st s)) eqn:Es.
  { unfold _terminal_error, stays. apply wp_bind, wp_get. rewrite Es. by apply wp_ret. }
  eapply wp_mono; [apply terminal_error_spec; [exact (sd_stream _ _ (an_sound _ _ _ _ Ha))|exact (an_one _ _ _ _ Ha)|done|intros _; exact (an_drained _ _ _ _ Ha)]|].
  intros r s1 (Hok & Hone & K & Hc & _). specialize (Hc (an_committed _ _ _ _ Ha)).
  apply (keeps_answered cfg rq text s); try done.
  - unfold drained. rewrite (cl_buffer _ _ Hc). exact (an_drained _ _ _ _ Ha).
  - unfold on_wire_text. by rewrite (cl_partial _ _ Hc).
Qed.

Lemma finish_error_stays text status title code detail s :
  answered cfg rq text s ->
  stays text (finish_error env rq cleanup_failures status title code detail false) s.
Proof.
  intros Ha. unfold finish_error. apply stays_bind; [apply stays_rests; [auto with rests|done]|]. intros ? s1 A1.
  apply shielded_spec; [|intros r s2 s3 R; exact (resting_answered _ _ _ R)|done].
  intros s2 R2. pose proof (resting_answered _ _ _ R2 A1) as A2.
  apply stays_bind; [apply stays_rests; [auto with rests|done]|]. intros ? s3 A3.
  apply stays_bind; [|intros; by apply terminal_error_stays].
  unfold stays, _salvage_usage_after_failure. apply wp_bind, wp_get. rewrite (an_salvage _ _ _ _ A3). by apply wp_ret.
Qed.

Lemma stays_settles text (m : M unit) (k : M bool) s :
  stays text m s -> (forall s', k s' = (Ok false, s') \/ exists e, k s' = (Err e, s')) -> wp (m ;; k) settles s.
Proof.
  intros Hm Hk. apply wp_bind. eapply wp_mono; [exact Hm|]. intros [[]|e] s1 A1; [|by right; right; exists text].
  unfold wp. destruct (Hk s1) as [->|[e ->]]; right; right; by exists text.
Qed.

Lemma arms_answered text e s :
  answered cfg rq text s -> from_outside e -> wp (arms env rq cleanup_failures e) settles s.
Proof.
  intros Ha He.
  assert (forall m : M bool, wp m settles s -> wp (unless_stopped env rq cleanup_failures m) settles s) as Hun.
  { intros m Hm. unfold unless_stopped. apply wp_bind, wp_get. by rewrite (an_committed _ _ _ _ Ha), andb_false_r. }
  assert (wp (modify (on_runtime (set_exhausted true)) ;; grace_deadline env ;;
    budget_error env rq cleanup_failures false ;; ret false) settles s) as Hexp.
  { apply wp_bind. eapply wp_mono; [apply (stays_rests text); [apply rests_mark; by intros|exact Ha]|].
    intros [[]|e'] s1 A1; [|by right; right; exists text].
    apply wp_bind. eapply wp_mono; [apply (stays_rests text); [apply rests_grace|exact A1]|].
    intros [[]|e'] s2 A2; [|by right; right; exists text].
    apply (stays_settles text); [exact (finish_error_stays _ _ _ _ _ _ A2)|]. intros s'. by left. }
  destruct e; try done; apply Hun.
  - apply wp_bind, wp_get. destruct (_ && _); [by apply wp_ret; exists text|].
    apply (stays_settles text); [exact (finish_error_stays _ _ _ _ _ _ Ha)|]. intros s'. right. by eexists.
  - exact Hexp.
  - exact Hexp.
  - apply (stays_settles text); [exact (finish_error_stays _ _ _ _ _ _ Ha)|]. intros s'. by left.
Qed.
End settle.

(** ** The run *)

(** Nothing of the answer is made yet. *)
Record fresh (s : state) : Prop := {
  fr_world : wd s = mk_world (w_tick (wd s)) [] 0 [] 0 [] [];
  fr_usage : rs_spent (r_route_state (rt s)) = [] /\ r_usage (rt s) = no_usage;
  fr_scope : r_turn_scope (rt s) = false
}.
(** Budgets are not negative. *)
Definition valid_budgets (cfg : config) : Prop :=
  forall cap, ab_max_external_calls (cf_budgets cfg) = Some cap -> 0 <= cap.

Section run.
Context `{AnswerText} `{SchemaLib} `{Host}.
Context (env : Env) (llm : Llm) (cfg : config) (rq : request) (cleanup_failures : nat).
Context (Hcl : Classified llm).

Lemma resting_open s s' : resting s s' -> open cfg s -> open cfg s'.
Proof.
  intros [Hof [Ec _]] []. pose proof (of_stream _ _ Hof) as [E _].
  constructor; rewrite ?E, ?Ec, ?(offstage_terminals _ _ Hof), ?(of_scope _ _ Hof); try done.
  - by eapply offstage_sound.
  - by eapply offstage_external.
Qed.

(** What the answer leaves for the arms. *)
Definition left_open {A} (r : res exn A) (s : state) : Prop :=
  match r with
  | Ok _ => exists text, answered cfg rq text s
  | Err e => (unsettled env cfg s /\ idle s) \/ (from_outside e /\ exists text, answered cfg rq text s)
  end.

Lemma resting_left {A} (r : res exn A) s s' : resting s s' -> left_open r s -> left_open r s'.
Proof.
  intros R. unfold left_open. destruct r as [a|e].
  - intros [text Ha]. exists text. exact (resting_answered cfg rq text _ _ R Ha).
  - intros [[Hu Hi]|[He [text Ha]]]; [left|right].
    + split; [exact (resting_unsettled _ _ _ _ R Hu)|exact (resting_idle _ _ R Hi)].
    + split; [done|]. exists text. exact (resting_answered cfg rq text _ _ R Ha).
Qed.

Lemma restore_session audits s :
  unsettled env cfg s -> w_pending (wd s) = [] ->
  wp (in_session (db_write env (WRestored audits) ;; commit env)) (fun _ s' => unsettled env cfg s') s.
Proof.
  intros Hu Hp. eapply wp_mono; [eapply session_spec; [apply writes_db|reflexivity]|].
  intros r s1 (Hof & _ & Hdb & _). apply (offstage_unsettled env cfg s); [done| |done]. intros _.
  destruct Hdb as [->| ->]; [done|]. rewrite Hp, usage_rows_app. simpl. apply app_nil_r.
Qed.

Lemma restore_open e s :
  unsettled env cfg s -> wp (restore_audits env rq e) (fun r s' => unsettled env cfg s' /\ exists e', r = Err e') s.
Proof.
  intros Hu. unfold restore_audits. apply wp_bind.
  assert (forall s1, unsettled env cfg s1 ->
    wp (raise (A:=unit) e) (fun r s' => unsettled env cfg s' /\ exists e', r = Err e') s1) as Hraise.
  { intros s1 U1. apply wp_raise. split; [done|by eexists]. }
  destruct e; try (apply wp_ret; by apply Hraise). apply wp_bind, wp_get. cbv zeta.
  unfold when. destruct (_ && _); [|apply wp_ret; by apply Hraise].
  apply wp_bind. eapply wp_mono; [apply rests_db_read|]. intros [[]|e] s1 R1;
    pose proof (resting_unsettled _ _ _ _ R1 Hu) as U1; [|split; [done|by eexists]].
  apply wp_bind, wp_modify. eapply wp_mono; [apply restore_session; [|done]|].
  - apply (offstage_unsettled env cfg s1); [by constructor|done|exact U1].
  - intros [[]|e] s2 U2; [by apply Hraise|]. split; [done|by eexists].
Qed.

Lemma answer_session s :
  open cfg s -> between 0 s -> w_billed (wd s) = [] ->
  wp (in_session (catch (_answer env llm cfg rq) (restore_audits env rq))) left_open s.
Proof.
  intros Ho Hb Eb.
  assert (wp (catch (_answer env llm cfg rq) (restore_audits env rq)) (delivered env cfg rq) s) as Hc.
  { apply wp_catch. eapply wp_mono; [by apply answer_delivered|]. intros [[]|e] s1 Hd; [done|].
    destruct Hd as [Hu|[He Ha]].
    - eapply wp_mono; [by apply restore_open|]. intros r s2 [U2 [e' ->]]. by left.
    - destruct e; try done; apply wp_bind, wp_ret, wp_raise; by right. }
  unfold in_session. unfold wp in Hc |- *. destruct (catch _ _ s) as [r s1].
  set (s2 := on_world _ s1). assert (offstage s1 s2) as Hof by by constructor.
  assert (forall text, answered cfg rq text s1 -> answered cfg rq text s2) as Ha2.
  { intros text Ha. apply (offstage_answered cfg rq text s1 s2 []); try done. by rewrite app_nil_r. }
  destruct r as [a|e]; simpl in *.
  - destruct Hc as (text & Ha & _). exists text. by apply Ha2.
  - destruct Hc as [Hu|[He [text Ha]]]; [left|right; split; [done|]; exists text; by apply Ha2].
    split; [|done]. by apply (offstage_unsettled env cfg s1).
Qed.

Lemma answer_body_spec s :
  open cfg s -> between 0 s -> w_billed (wd s) = [] -> idle s ->
  wp (answer_body env llm cfg rq) (fun r s' => left_open r s' /\ r <> Ok false) s.
Proof.
  intros Ho Hb Eb Hi. unfold answer_body.
  assert (forall s1 e, open cfg s1 -> idle s1 -> left_open (Err e : res exn bool) s1) as Hopen.
  { intros s1 e Ho1 Hi1. left. split; [by apply open_unsettled|done]. }
  apply wp_bind. eapply wp_mono; [apply emit_spec; [exact (sd_stream _ _ (op_sound _ _ Ho))|done|done]|]. intros [[]|e] s1 ((Hok & C & _) & Hd & Hw).
  all: pose proof (calm_open cfg _ _ C Hok Ho) as Ho1.
  all: assert (idle s1) as I1 by (unfold idle; by destruct C as [[_ _ _ _ _ [-> _] _ _] _ _ _]).
  2:{ split; [|done]. by apply Hopen. }
  assert (between 0 s1 /\ w_billed (wd s1) = []) as [B1 Eb1].
  { destruct C as [[_ _ _ _ (_ & _ & Ebl & Et) [Ep _] _ _] _ _ _]. split; [|congruence].
    destruct Hb. constructor; [|by rewrite Ep|by rewrite Et].
    rewrite (drained_spoken s1); [congruence|done|done]. }
  apply wp_bind. eapply wp_mono; [apply check_cancelled_spec|]. intros r s2 [Hu _].
  pose proof (untouched_open cfg _ _ Hu Ho1) as Ho2.
  pose proof (resting_idle _ _ (untouched_resting _ _ Hu) I1) as I2.
  destruct r as [[]|e]; [|by split; [apply Hopen|]].
  pose proof (like_between _ _ _ (untouched_like _ _ Hu) B1) as B2.
  assert (w_billed (wd s2) = []) as Eb2 by (by destruct Hu as (_ & _ & [_ _ _ _ (_ & _ & -> & _) _ _ _])).
  apply wp_bind, wp_get, wp_bind. unfold when. destruct (match r_answer_deadline _ with Some _ => _ | None => _ end).
  { apply wp_raise. split; [by apply Hopen|done]. }
  apply wp_ret, wp_bind. eapply wp_mono; [by apply answer_session|]. intros [[]|e] s3 Hl; [|by split].
  apply wp_ret. by split.
Qed.

Lemma begin_open s :
  fresh s -> valid_budgets cfg ->
  wp (begin env cfg) (fun r s' => r = Ok tt /\ open cfg s' /\ between 0 s' /\ w_billed (wd s') = [] /\ idle s') s.
Proof.
  intros [Ew [Esp Eu] Esc] Hv. unfold wp, begin. split; [done|].
  set (s' := mk_state _ _ _). assert (wd s' = mk_world (w_tick (wd s)) [] 0 [] 0 [] []) as E by exact Ew.
  assert (rt s' = rt s' /\ r_route_state (rt s') = r_route_state (rt s) /\ r_usage (rt s') = r_usage (rt s)) as (_ & Er & Eu') by done.
  split_and!; [|constructor; [done|by rewrite E|by rewrite E]|by rewrite E|unfold idle; by rewrite E].
  constructor; try done; try (unfold terminals, sent; by rewrite E); try (by rewrite E).
  2:{ intros cap Hc. rewrite E. simpl. apply Hv in Hc. lia. }
  constructor.
  - constructor; [constructor| | |]; try (unfold sent; rewrite E; simpl; (done || constructor)); try done.
  - intros m. unfold scopes. rewrite Er, Eu', Esp, Eu, E. simpl. by destruct (decide _).
  - unfold calls_ok. rewrite E. simpl. split_and!; [lia|lia|done].
Qed.

Lemma run_settles s r s' :
  fresh s -> valid_budgets cfg -> run env llm cfg rq cleanup_failures s = (r, s') -> settles env cfg rq r s'.
Proof.
  intros Hf Hv Hrun. apply (wp_run (run env llm cfg rq cleanup_failures) (settles env cfg rq) s); [|done].
  unfold run. apply wp_bind. eapply wp_mono; [by apply begin_open|]. intros r0 s0 (-> & Ho & Hb & Eb & Hi).
  apply wp_bind, wp_get. set (b := negb _).
  assert (wp (catch (in_answer_scope b (answer_body env llm cfg rq)) (arms env rq cleanup_failures))
    (settles env cfg rq) s0) as Hc.
  { apply wp_catch. unfold in_answer_scope.
    assert (forall c s1, resting s1 (answer_scope c s1)) as Hscope by (intros; split; [by constructor|done]).
    pose proof (answer_body_spec (answer_scope b s0) (resting_open _ _ (Hscope b s0) Ho)) as Hbody.
    specialize (Hbody ltac:(by destruct Hb; constructor) Eb Hi). unfold wp in Hbody |- *.
    destruct (answer_body env llm cfg rq (answer_scope b s0)) as [r1 s1]. destruct Hbody as [Hl Hne].
    pose proof (resting_left _ _ _ (Hscope false s1) Hl) as Hl1. destruct r1 as [[]|e]; simpl in Hl1.
    - destruct Hl1 as [text Ha]. by exists text.
    - done.
    - destruct Hl1 as [[U1 I1]|[He [text Ha]]]; [by apply arms_open|by apply (arms_answered env cfg rq _ text)]. }
  unfold finally. unfold wp in Hc |- *. destruct (catch _ _ s0) as [r1 s1].
  pose proof (rests_close env s1) as Hclose. unfold wp in Hclose. destruct (close_resources env s1) as [c s2].
  pose proof (resting_settles env cfg rq _ _ _ Hclose Hc) as H2. destruct c; [done|by eapply settles_err].
Qed.
End run.
