(* ===== verification/ChatGuarantees.v ===== *)
(** * What a run guarantees

    The theorems a client, the audit and the bill of a conversation rely on, for
    [ChatRuntime.run] (services/chat_runtime.py) as a whole, with runs that show
    each ending. *)

From stdpp Require Import base list strings sets gmap pretty sorting.
From Stdlib Require Import Lia ZArith.
From S2P Require Import Prelude Json ToolSchema ToolWire Tools ToolPolicy Context Grounding ChatStream ChatTurn Answer ChatAnswer ChatCommit ChatRun ChatSettle.
Open Scope Z_scope.

(** ** What the run guarantees *)

Lemma wire_sent e w : e ∈ wire w -> e ∈ sent w.
Proof.
  unfold wire, sent. intros (p & -> & Hp)%list_elem_of_fmap.
  apply list_elem_of_In, filter_In in Hp as [Hp _]. apply list_elem_of_fmap. exists p.
  split; [done|]. by apply list_elem_of_In.
Qed.
Lemma sent_terminal e w : e ∈ sent w -> is_terminal (e_body e) = true -> e ∈ terminals w.
Proof. intros He Ht. unfold terminals. apply list_elem_of_In, filter_In. split; [by apply list_elem_of_In|done]. Qed.

Lemma spent_scopes_sublist x : sublist ((fun mu => (mu.1, tokens_of mu.2)) <$> spent_scopes x) (scopes x).
Proof.
  unfold spent_scopes, scopes.
  change [(rs_model (r_route_state x), tokens_of (r_usage x))]
    with ((fun mu : pystr * _Usage => (mu.1, tokens_of mu.2)) <$> [(rs_model (r_route_state x), r_usage x)]).
  rewrite <-fmap_app. induction (rs_spent _ ++ _) as [|mu l IH]; simpl; [constructor|].
  destruct (_ || _); simpl; by constructor.
Qed.

(** Of a part of the log, what the backplane took. *)
Definition taken (l : list (bool * Envelope)) : list Envelope := (List.filter fst l).*2.
(** Errors show no answer text. *)
Lemma problems_unseen before after :
  Forall (fun p => is_problem (e_body p.2)) after ->
  answer_view (taken (before ++ after)) = answer_view (taken before).
Proof.
  intros Hall. unfold taken, answer_view. rewrite List.filter_app, fmap_app, foldl_app.
  generalize (foldl show [] (List.filter fst before).*2). intros v.
  induction Hall as [|[t e] l He _ IH]; [done|]. simpl. destruct t; simpl; [|done].
  destruct e as [n b]. by destruct b.
Qed.

Section guarantees.
Context `{AnswerText} `{SchemaLib} `{Host}.
Context (env : Env) (llm : Llm) (cfg : config) (rq : request) (cleanup_failures : nat).
Context (Hcl : Classified llm).

(** The helper lemmas speak of one run. *)
Section one_run.
Context (s : state) (r : res exn bool) (s' : state).
Context (Hfresh : fresh s) (Hbudgets : valid_budgets cfg).
Context (Hrun : run env llm cfg rq cleanup_failures s = (r, s')).

Lemma run_ends : stopped env cfg rq s' \/ failed env cfg s' \/ exists text, answered cfg rq text s'.
Proof.
  pose proof (run_settles env llm cfg rq cleanup_failures Hcl s r s' Hfresh Hbudgets Hrun) as Hs.
  destruct r as [[]|e]; simpl in Hs; [auto| |done]. destruct Hs as [?|[[? _]|?]]; auto.
Qed.
Lemma run_sound : sound cfg s' /\ one_terminal s' /\ within_external cfg s' 0.
Proof. by destruct run_ends as [[]|[[]|[text []]]]. Qed.

Lemma done_answered e :
  e ∈ wire (wd s') -> is_done (e_body e) -> exists text, answered cfg rq text s'.
Proof.
  intros He Hd.
  assert (e ∈ terminals (wd s')) as Ht by (apply sent_terminal; [by apply wire_sent|by destruct (e_body e)]).
  destruct run_ends as [Hs|[Hf|?]]; [| |done].
  - pose proof (sp_terminals _ _ _ _ Hs) as Hall. rewrite Forall_forall in Hall.
    specialize (Hall e Ht). by destruct (e_body e).
  - pose proof (fa_terminals _ _ _ Hf) as Hall. rewrite Forall_forall in Hall.
    specialize (Hall e Ht). by destruct (e_body e).
Qed.
Lemma cancelled_stopped e :
  e ∈ wire (wd s') -> (exists mid model u, e_body e = Cancelled mid model u) ->
  s_answer_committed (st s') = false -> stopped env cfg rq s'.
Proof.
  intros He (mid & model & u & Eb) Hc.
  assert (e ∈ terminals (wd s')) as Ht by (apply sent_terminal; [by apply wire_sent|by rewrite Eb]).
  destruct run_ends as [Hs|[Hf|[text Ha]]]; [done| |].
  - pose proof (fa_terminals _ _ _ Hf) as Hall. rewrite Forall_forall in Hall.
    specialize (Hall e Ht). by rewrite Eb in Hall.
  - pose proof (an_committed _ _ _ _ Ha). congruence.
Qed.

End one_run.

(** C3: A client that receives [done], and a caller told that the answer succeeded,
    can rely on it: the message is stored, with a text that is exactly what the client
    assembled from the stream when the backplane took every delta and retraction it was
    given (a clarifying question stores its question and shows no text), and its usage
    rows are the scopes of the answer. *)
Theorem done_is_stored s r s' :
  fresh s -> valid_budgets cfg -> run env llm cfg rq cleanup_failures s = (r, s') ->
  r = Ok true \/ (exists e, e ∈ wire (wd s') /\ is_done (e_body e)) ->
  exists text, records rq text (scopes (rt s')) (w_committed (wd s'))
    /\ (text_taken (wd s') -> answer_view (wire (wd s')) = text).
Proof.
  intros Hf Hb Hrun Hd. assert (exists text, answered cfg rq text s') as [text Ha].
  { destruct Hd as [->|(e & He & Hd)]; [|by apply (done_answered s r s' Hf Hb Hrun e)].
    exact (run_settles env llm cfg rq cleanup_failures Hcl s _ s' Hf Hb Hrun). }
  exists text. split; [apply Ha|]. intros Ht. rewrite <-(an_text _ _ _ _ Ha). by apply Ha.
Qed.

(** C5: A stopped answer keeps what was read: when the [cancelled] terminal of an
    uncommitted answer reaches the client, and the backplane took every delta and
    retraction it was given, the message is stored as cancelled with exactly the text
    the client assembled from the stream. *)
Theorem cancelled_is_stored s r s' e :
  fresh s -> valid_budgets cfg -> run env llm cfg rq cleanup_failures s = (r, s') ->
  e ∈ wire (wd s') -> (exists mid model u, e_body e = Cancelled mid model u) ->
  s_answer_committed (st s') = false -> text_taken (wd s') ->
  exists model, WMessage (rq_message_id rq) (rq_session_id rq) (answer_view (wire (wd s'))) model
    (Some (cp "cancelled")) None None ∈ w_committed (wd s').
Proof.
  intros Hf Hb Hrun He Hk Hc Ht. pose proof (cancelled_stopped s r s' Hf Hb Hrun e He Hk Hc) as Hs.
  rewrite (so_view _ (sd_stream _ _ (sp_sound _ _ _ _ Hs)) Ht). apply Hs.
Qed.

(** C6: A run that reports failure without a committed answer leaves the client
    nothing unaccounted, when the backplane took every piece of text and every
    retraction it was given: either the text on the client's screen is stored as a
    cancelled message, or the text was taken back first and errors, and nothing else,
    were then given to the backplane to end the stream. *)
Theorem failure_is_taken_back s r s' :
  fresh s -> valid_budgets cfg -> run env llm cfg rq cleanup_failures s = (r, s') ->
  r = Ok false -> s_answer_committed (st s') = false -> text_taken (wd s') ->
  (exists model, WMessage (rq_message_id rq) (rq_session_id rq) (answer_view (wire (wd s'))) model
     (Some (cp "cancelled")) None None ∈ w_committed (wd s'))
  \/ (exists before after, w_log (wd s') = before ++ after /\ after <> []
       /\ Forall (fun p => is_terminal (e_body p.2) = false) before
       /\ Forall (fun p => is_problem (e_body p.2)) after
       /\ answer_view (taken before) = [] /\ answer_view (wire (wd s')) = []).
Proof.
  intros Hf Hb Hrun -> Hc Ht.
  pose proof (run_settles env llm cfg rq cleanup_failures Hcl s _ s' Hf Hb Hrun) as [Hs|[Hfa|[text Ha]]].
  - left. rewrite (so_view _ (sd_stream _ _ (sp_sound _ _ _ _ Hs)) Ht). apply Hs.
  - right. destruct Hfa as (Hfa & (before & after & E & Hne & Hbefore & Hafter) & Hw). exists before, after.
    assert (answer_view (wire (wd s')) = []) as Hv.
    { by rewrite (so_view _ (sd_stream _ _ (fa_sound _ _ _ Hfa)) Ht). }
    split_and!; try done. rewrite <-Hv. unfold wire. rewrite E. by rewrite <-(problems_unseen before after).
  - pose proof (an_committed _ _ _ _ Ha). congruence.
Qed.

(** C8: However a run ends, what it gives the backplane is numbered in order up to
    repeats of its terminal, and its terminals all carry one number. *)
Theorem one_terminal_in_order s r s' :
  fresh s -> valid_budgets cfg -> run env llm cfg rq cleanup_failures s = (r, s') ->
  StronglySorted Z.lt (e_seq <$> first_terminal_only false (sent (wd s')))
  /\ (forall a b, a ∈ terminals (wd s') -> b ∈ terminals (wd s') -> e_seq a = e_seq b).
Proof.
  intros Hf Hb Hrun. destruct (run_sound _ _ _ Hf Hb Hrun) as ([[[_ _ Hs] _ _ _] _ _] & Hone & _). split; [done|]. intros a b Hina Hinb.
  unfold one_terminal in Hone. destruct (s_terminal_seq (st s')) as [n|].
  - destruct Hone as [_ Hall]. rewrite Forall_forall in Hall. by rewrite (Hall a Hina), (Hall b Hinb).
  - destruct Hone as [E|(_ & x & E)]; rewrite E in *; set_solver.
Qed.

(** C9: However a run ends, retries, fail-over, the continuation and the
    suggestions included, it starts no more model calls than the answer's budget, and
    gives the runner no more external tool calls. *)
Theorem run_within_budgets s r s' :
  fresh s -> valid_budgets cfg -> run env llm cfg rq cleanup_failures s = (r, s') ->
  (forall cap, ab_max_model_calls (cf_budgets cfg) = Some cap -> 0 <= cap -> Z.of_nat (w_calls (wd s')) <= cap)
  /\ (forall cap, ab_max_external_calls (cf_budgets cfg) = Some cap -> Z.of_nat (w_tools (wd s')) <= cap).
Proof.
  intros Hf Hb Hrun. destruct (run_sound _ _ _ Hf Hb Hrun) as ([_ _ [Hn [Hcap _]]] & _ & Hx). split.
  - intros cap Hc Hge. specialize (Hcap cap Hc Hge). lia.
  - intros cap Hc. specialize (Hx cap Hc). by rewrite Nat.add_0_r in Hx.
Qed.

(** C4: Model by model, across retries and fail-over, the scopes of a run add up to
    the tokens of the usage reports whose stream events the run handled to their end;
    a report it was handed can be left out only by cutting the handling of its event
    short (a Stop, a deadline, a failed publish or shutdown between the event's arrival
    and [usage.add]), once per model call at most. Where commits are acknowledged the
    stored usage rows are among the scopes, each at most once, and a successful run
    stores them all. *)
Theorem usage_is_recorded_once s r s' :
  fresh s -> valid_budgets cfg -> run env llm cfg rq cleanup_failures s = (r, s') ->
  (forall model, spent_on model (scopes (rt s')) = spent_on model (handled_reports (w_billed (wd s'))))
  /\ (length (cut_reports (w_billed (wd s'))) <= w_calls (wd s'))%nat
  /\ (acknowledged env -> sublist (usage_rows (w_committed (wd s'))) (scopes (rt s')))
  /\ (r = Ok true -> usage_rows (w_committed (wd s')) = scopes (rt s')).
Proof.
  intros Hf Hb Hrun. split_and!.
  - by destruct (run_sound _ _ _ Hf Hb Hrun) as ([_ Hbill _] & _).
  - by destruct (run_sound _ _ _ Hf Hb Hrun) as ([_ _ (_ & _ & Hcut)] & _).
  - assert (recorded_once env s' -> acknowledged env -> sublist (usage_rows (w_committed (wd s'))) (scopes (rt s'))) as Hr.
    { intros Hr Hack. destruct (Hr Hack) as [->| ->]; [apply sublist_nil_l|apply spent_scopes_sublist]. }
    destruct (run_ends _ _ _ Hf Hb Hrun) as [Hs|[Hfa|[text Ha]]]; [apply Hr, Hs|apply Hr, Hfa|].
    intros _. by rewrite (rc_usage _ _ _ _ (an_records _ _ _ _ Ha)).
  - intros ->. pose proof (run_settles env llm cfg rq cleanup_failures Hcl s _ s' Hf Hb Hrun) as [text Ha].
    apply Ha.
Qed.
End guarantees.

(** ** Citations *)

Section citations.
Context `{AnswerText} `{SchemaLib} `{Host}.
Context (env : Env) (rq : request) (first : N) (base : list (pystr * evidence)).

Lemma returns {A B} (m : M A) (k : A -> M B) s b s' :
  (m ≫= k) s = (Ok b, s') -> exists a s1, m s = (Ok a, s1) /\ k a s1 = (Ok b, s').
Proof. unfold mbind, M_bind, bind. destruct (m s) as [[a|e] s1]; [|done]. by exists a, s1. Qed.

(** C7: Every corpus citation of the final text was read again when the text was
    settled, under the permissions of that moment, and the passage read stands
    unchanged - the same document, chunk, offsets, text and provenance - behind the
    handle the model was shown. *)
Theorem cited_evidence_rechecked text l s sel s' :
  grounded first base l -> select_final env rq text l s = (Ok sel, s') ->
  forall c, c ∈ sel_cited sel -> exists h p ids,
    gc_handle c = Some h /\ p ∈ read_passages_at (w_tick (wd s)) ids
    /\ rp_document_id p = gc_document_id c /\ rp_chunk_id p = gc_chunk_id c
    /\ resolve h (lp_handles l) = Some (entry_of at_sha256 at_dumps at_uuid p).
Proof.
  intros Hl. unfold select_final. destruct (select_cited_handles _ _ _) as [cleaned handles].
  destruct (selected_corpus l handles) as [|hc corpus] eqn:Ec.
  { unfold lift. intros [= E _] c Hc. destruct (settle_cited _ _ _ _ _ _ E) as [Hin _]. apply Hin in Hc. set_solver. }
  rewrite <-Ec. clear Ec. set (ids := chunks_to_read _). intros E c Hc.
  apply returns in E as (fresh & s1 & Efresh & E).
  assert (fresh = read_passages_at (w_tick (wd s)) ids) as ->.
  { unfold read_passages, reading in Efresh. apply returns in Efresh as (? & ? & [= <- <-] & Efresh).
    by apply returns in Efresh as (? & ? & _ & [= <- _]). }
  apply returns in E as (v & s2 & Ev & E). injection Ev as Ev _.
  destruct (valid_passages_spec first base _ _ _ (gd_registry _ _ _ Hl) Ev) as (Hr & Hg & Hv).
  set (kept := List.filter (still_valid v.1) (selected_corpus l handles)) in *.
  apply returns in E as ([] & s3 & _ & E).
  assert (exists corpus', (corpus' = kept \/ corpus' = []) /\ c ∈ corpus'.*2) as (corpus' & Hk & Hin).
  { destruct (Nat.eqb _ _); injection E as E _; destruct (settle_cited _ _ _ _ _ _ E) as [Hin _];
      eexists; (split; [|by apply Hin]); auto. }
  destruct Hk as [->| ->]; [|set_solver].
  apply list_elem_of_fmap in Hin as (hc' & -> & Hin). unfold kept in Hin.
  apply list_elem_of_In, filter_In in Hin as [Hin Hst]. unfold selected_corpus in Hin. apply filter_In in Hin as [Hin _].
  pose proof (gd_corpus _ _ _ Hl) as Hall. rewrite Forall_forall in Hall.
  destruct (Hall hc' (proj2 (list_elem_of_In _ _) Hin)) as (Eh & fp & prov & Eres).
  unfold still_valid in Hst. rewrite Eh in Hst. destruct (last_of hc'.1 v.1) as [p|] eqn:Elast; [|done].
  apply bool_decide_eq_true in Hst. destruct (Hv _ _ (last_of_elem _ _ _ Elast)) as [Hp Hrp].
  pose proof (Hg _ _ Eres) as Eg. rewrite Eg in Hrp. injection Hrp as E1 E2 E3 E4 E5 E6.
  exists hc'.1, p, ids. split_and!; try done. rewrite Eres. unfold entry_of. by rewrite E1, E2, E3, E4, E5, E6.
Qed.
End citations.

(** ** Runs *)

(** A model that says "Hi" and reports its tokens, or fails. *)
Definition demo_event (text : pystr) (usage : option TokenUsage) : StreamEvent :=
  mk_event text [] (Some (cp "stop")) usage false.
Definition demo_script (fault : option exn) : script :=
  mk_script [(false, demo_event (cp "Hi") None); (false, demo_event (cp " there") (Some (mk_tokens 5 2 7 0 0)))]
    (false, fault).
Definition demo_llm (fault : option exn) : Llm :=
  mk_llm (fun _ _ => demo_script fault) (fun _ m => Ok (mk_route m None None)).
Definition demo_fault : option exn := Some (AppError 502 (cp "Bad Gateway") (cp "provider_error") None).
Lemma demo_classified fault : fault = None \/ fault = demo_fault -> Classified (demo_llm fault).
Proof.
  intros Hf. constructor; try by intros.
  - intros n c _ p Hp. simpl in Hp. by repeat (apply elem_of_cons in Hp as [->|Hp]; [done|]); apply elem_of_nil in Hp.
  - intros n c. by destruct Hf as [->| ->].
Qed.

Definition demo_passage : RetrievedPassage :=
  mk_passage 32%N 31%N (cp "Lease") 0 (cp "The lease ends in May.") 10 32 (QArith_base.Qmake 0 1) [] None None None
    None None.
#[local] Instance demo_text : AnswerText := {|
  at_sha256 := fun s => s; at_dumps := fun _ => []; at_loads := fun _ => None; at_uuid := fun n => cp (pretty n);
  at_repr := fun _ => []; at_casefold := fun s => s; at_urlsplit := fun _ => None; at_markers := fun t => if decide (t = cp "see [S1]") then [mk_marker 4 8 (cp "S1")] else [];
  at_uuid4 := N.of_nat
|}.
#[local] Instance demo_lib : SchemaLib := {|
  frames := 0; check_schema := fun _ => true; is_valid := fun _ _ _ => Ok true; iter_errors := fun _ _ => Ok [];
  json_str := fun _ => []
|}.
#[local] Instance demo_host : Host := {|
  run_tool := fun _ _ => Err OtherError; is_concurrency_safe := fun _ => false;
  worker_stopped := fun _ _ => false; completion_order := fun _ l => l;
  tool_registry := []; policies_at := fun _ => ∅; mcp_specs_at := fun _ => None;
  tenant_row_at := fun _ => None; fallback_validator := None; reserve_at := fun _ => Ok 1%N;
  load_at := fun _ => []; append_at := fun _ _ => Ok tt; permitted_names_at := fun _ _ => [];
  chunk_pairs_at := fun _ _ => []; read_passages_at := fun _ _ => [demo_passage]; citation_row_id := N.of_nat;
  host_max_input := fun _ => None; host_count := fun _ s => Z.of_nat (length s);
  host_context := Context.mk_config 100000 0 20 4 false; host_sha256_name := fun s => s;
  host_dumps_sorted := fun _ => []; grounded_system_prompt := cp "Answer from the sources.";
  redact_summary_names := fun _ _ => None; reserved_segments := fun _ _ => [];
  follow_up_prompt := fun _ _ _ => []; complete := fun _ _ _ => Err OtherError
|}.

Definition demo_answer_config : config :=
  mk_config (mk_budgets 3 None None None None (Some 2) (Some 4)) true 1 None None None 40 100 false 0 0 None.
Definition demo_rq : request :=
  mk_answer_request (mk_principal 7 1) 11%N 12%N (cp "Hello?") (cp "m1") [] None None None None false None [] [].
(** The world interferes at the [n]-th await. *)
Definition demo_env (n : nat) (i : interrupt) : Env :=
  mk_environment (fun _ => Published) (fun k => if Nat.eqb k n then i else Quiet) (fun _ => Some false)
    (fun _ => 0) (fun _ => 0) (fun _ => false) (fun _ => CommitOk).
Definition demo_start : state :=
  mk_state (mk_stream 0 (_new_coalescer 40 100) false None false false [])
    (mk_runtime false false false false false 0 None None false false false false
       (mk_route_state [] (mk_route [] None None) [] []) no_usage false no_usage (false, false))
    (mk_world 0 [] 0 [] 0 [] []).
Definition demo_run (fault : option exn) (n : nat) (i : interrupt) : res exn bool * state :=
  run (demo_env n i) (demo_llm fault) demo_answer_config demo_rq 0 demo_start.

Lemma demo_fresh : fresh demo_start.
Proof. by constructor. Qed.
Lemma demo_budgets : valid_budgets demo_answer_config.
Proof. by intros cap [= <-]. Qed.
Lemma demo_runs fault n i :
  run (demo_env n i) (demo_llm fault) demo_answer_config demo_rq 0 demo_start
  = ((demo_run fault n i).1, (demo_run fault n i).2).
Proof. unfold demo_run. generalize (run (demo_env n i) (demo_llm fault) demo_answer_config demo_rq 0 demo_start). by intros []. Qed.
(** The envelope at [k] of what the client receives. *)
Definition received (s : state) (k : nat) : Envelope := nth k (wire (wd s)) (mk_env 0 AnswerRetract).

Ltac text_is_taken := vm_compute; repeat (constructor; [by intros|]); constructor.

Theorem done_is_stored_witness :
  let s' := (demo_run None 0 Quiet).2 in
  (exists text, records demo_rq text (scopes (rt s')) (w_committed (wd s')) /\ answer_view (wire (wd s')) = text)
  /\ answer_view (wire (wd s')) = cp "Hi there".
Proof.
  split; [|vm_compute; reflexivity].
  destruct (done_is_stored (demo_env 0 Quiet) (demo_llm None) demo_answer_config demo_rq 0
    (demo_classified None (or_introl eq_refl)) demo_start _ _ demo_fresh demo_budgets (demo_runs None 0 Quiet))
    as (text & Hr & Hv).
  - right. exists (received (demo_run None 0 Quiet).2 8). split; [|vm_compute; exact I].
    apply list_elem_of_lookup_2 with 8%nat. vm_compute. reflexivity.
  - exists text. split; [exact Hr|]. apply Hv. text_is_taken.
Defined.

(** A Stop in the middle of the text. *)
Theorem cancelled_is_stored_witness :
  let s' := (demo_run None 16 StopSignal).2 in
  (exists model, WMessage 12%N 11%N (answer_view (wire (wd s'))) model (Some (cp "cancelled")) None None
    ∈ w_committed (wd s'))
  /\ answer_view (wire (wd s')) = cp "Hi".
Proof.
  split; [|vm_compute; reflexivity].
  apply (cancelled_is_stored (demo_env 16 StopSignal) (demo_llm None) demo_answer_config demo_rq 0
    (demo_classified None (or_introl eq_refl)) demo_start _ _ (received (demo_run None 16 StopSignal).2 5)
    demo_fresh demo_budgets (demo_runs None 16 StopSignal)).
  - apply list_elem_of_lookup_2 with 5%nat. vm_compute. reflexivity.
  - vm_compute. do 3 eexists. reflexivity.
  - vm_compute. reflexivity.
  - text_is_taken.
Defined.

Theorem failure_is_taken_back_witness :
  let s' := (demo_run demo_fault 0 Quiet).2 in
  (exists model, WMessage 12%N 11%N (answer_view (wire (wd s'))) model (Some (cp "cancelled")) None None
    ∈ w_committed (wd s'))
  \/ (exists before after, w_log (wd s') = before ++ after /\ after <> []
       /\ Forall (fun p => is_terminal (e_body p.2) = false) before
       /\ Forall (fun p => is_problem (e_body p.2)) after
       /\ answer_view (taken before) = [] /\ answer_view (wire (wd s')) = []).
Proof.
  apply (failure_is_taken_back (demo_env 0 Quiet) (demo_llm demo_fault) demo_answer_config demo_rq 0
    (demo_classified demo_fault (or_intror eq_refl)) demo_start _ _ demo_fresh demo_budgets (demo_runs demo_fault 0 Quiet)).
  - vm_compute. reflexivity.
  - vm_compute. reflexivity.
  - text_is_taken.
Defined.

Theorem one_terminal_in_order_witness :
  let s' := (demo_run None 33 Shutdown).2 in
  StronglySorted Z.lt (e_seq <$> first_terminal_only false (sent (wd s')))
  /\ (forall a b, a ∈ terminals (wd s') -> b ∈ terminals (wd s') -> e_seq a = e_seq b).
Proof.
  apply (one_terminal_in_order (demo_env 33 Shutdown) (demo_llm None) demo_answer_config demo_rq 0
    (demo_classified None (or_introl eq_refl)) demo_start _ _ demo_fresh demo_budgets (demo_runs None 33 Shutdown)).
Defined.

Theorem run_within_budgets_witness :
  let s' := (demo_run None 0 Quiet).2 in Z.of_nat (w_calls (wd s')) <= 4 /\ Z.of_nat (w_tools (wd s')) <= 2.
Proof.
  destruct (run_within_budgets (demo_env 0 Quiet) (demo_llm None) demo_answer_config demo_rq 0
    (demo_classified None (or_introl eq_refl)) demo_start _ _ demo_fresh demo_budgets (demo_runs None 0 Quiet)) as [Hc Ht].
  split; [by apply Hc|by apply Ht].
Defined.

Theorem usage_is_recorded_once_witness :
  let s' := (demo_run demo_fault 0 Quiet).2 in
  (forall model, spent_on model (scopes (rt s')) = spent_on model (handled_reports (w_billed (wd s'))))
  /\ handled_reports (w_billed (wd s')) = [(cp "m1", mk_tokens 5 2 7 0 0)]
  /\ sublist (usage_rows (w_committed (wd s'))) (scopes (rt s')).
Proof.
  intros s'. assert (handled_reports (w_billed (wd s')) = [(cp "m1", mk_tokens 5 2 7 0 0)]) as Hreports
    by (vm_compute; reflexivity).
  destruct (usage_is_recorded_once (demo_env 0 Quiet) (demo_llm demo_fault) demo_answer_config demo_rq 0
    (demo_classified demo_fault (or_intror eq_refl)) demo_start _ _ demo_fresh demo_budgets (demo_runs demo_fault 0 Quiet))
    as (Hb & _ & Ha & _).
  split; [exact Hb|]. split; [exact Hreports|]. apply Ha. intros n. split; [done|]. intros _. simpl. by destruct (Nat.eqb n 0).
Defined.

(** What [cut_reports] is for: the text of an event is published before its usage is
    added, so a Stop during that publish drops the report of the event. *)
Definition long_answer : Llm :=
  mk_llm (fun _ _ => mk_script [(false, demo_event (repeat 97%N 200) (Some (mk_tokens 5 2 7 0 0)))] (false, None))
    (fun _ m => Ok (mk_route m None None)).
Lemma stop_drops_a_report :
  let s' := (run (demo_env 15 StopSignal) long_answer demo_answer_config demo_rq 0 demo_start).2 in
  cut_reports (w_billed (wd s')) = [(cp "m1", mk_tokens 5 2 7 0 0)]
  /\ handled_reports (w_billed (wd s')) = [] /\ spent_on (cp "m1") (scopes (rt s')) = no_tokens.
Proof. vm_compute. auto. Qed.

(** A search found a passage, and the text cites it. *)
Definition demo_search : ToolCall := mk_call (cp "c1") (cp "search_passages") [].
Definition demo_found : ToolResult :=
  mk_result (cp "c1") (cp "search_passages") true (cp "1 passage") None [] None 5 1 [demo_passage] [] None None.
Definition demo_loop : loop := mk_loop [] [] (open_handles 1 [] 1000) [] [] [] [] [] [] 0 0.
Definition demo_folded : loop :=
  match fold_results [(demo_search, demo_found)] demo_loop with Ok l => l | Err _ => demo_loop end.
Lemma demo_grounded : grounded 1 [] demo_loop.
Proof. constructor; [apply open_registry; constructor|constructor..]. Qed.

Theorem fold_results_grounded_witness :
  follows 1 [] demo_loop demo_folded /\ lp_available demo_folded = [cp "S1"].
Proof.
  split; [|vm_compute; reflexivity].
  apply (fold_results_grounded 1 [] [(demo_search, demo_found)]); [exact demo_grounded|vm_compute; reflexivity].
Defined.

Definition demo_cited : GroundedCitation := set_handle (cp "S1") (from_passage demo_passage).
Definition demo_selected : res exn selection * state :=
  select_final (demo_env 0 Quiet) demo_rq (cp "see [S1]") demo_folded demo_start.
Theorem cited_evidence_rechecked_witness : exists h p ids,
  h = cp "S1" /\ p ∈ read_passages_at (w_tick (wd demo_start)) ids
  /\ resolve h (lp_handles demo_folded) = Some (entry_of at_sha256 at_dumps at_uuid p).
Proof.
  assert (grounded 1 [] demo_folded) as Hg.
  { apply (fold_result_grounded 1 [] demo_search demo_found demo_loop); [exact demo_grounded|].
    vm_compute. reflexivity. }
  assert (select_final (demo_env 0 Quiet) demo_rq (cp "see [S1]") demo_folded demo_start
    = (Ok (mk_selection (cp "see [S1]") [demo_cited] [] (lp_handles demo_folded)), demo_selected.2)) as Hs.
  { vm_compute. reflexivity. }
  pose proof (cited_evidence_rechecked _ _ _ _ _ _ _ _ _ Hg Hs demo_cited (list_elem_of_here _ _)) as Hc.
  revert Hc. generalize demo_folded demo_start. intros l s (h & p & ids & Eh & Hp & _ & _ & Hr).
  exists h, p, ids. split_and!; [by injection Eh|done|done].
Defined.
