(* ===== verification/Reasoning.v ===== *)
(** * The provider-output guard

    [ReasoningGuard] of [backend/app/llm/reasoning_guard.py]: the streaming filter
    that keeps tagged reasoning, chat-control markers and the internal prompts'
    sentinels out of published text, and [sanitize_provider_text], its replay on a
    stored text.

    [str.lower] and the class of alphanumeric characters beyond ASCII are parameters
    with the laws of the Unicode tables the code relies on; [re.IGNORECASE] and [\s]
    are Python's. *)

From stdpp Require Import base list strings sets sorting.
From Stdlib Require Import Lia ZArith.
From S2P Require Import Prelude.
Open Scope Z_scope.

(** ** Characters *)

Definition ascii (c : N) : bool := N.ltb c 128.
Definition ascii_lower (c : N) : N := if N.leb 65 c && N.leb c 90 then (c + 32)%N else c.
Definition ascii_alnum (c : N) : bool :=
  (N.leb 48 c && N.leb c 57) || (N.leb 65 c && N.leb c 90) || (N.leb 97 c && N.leb c 122).

(** [c] is a character whose lower case is the ASCII character [x]: an ASCII
    character, or the Kelvin sign. *)
Definition lowers_to (c x : N) : Prop := (ascii c = true /\ ascii_lower c = x) \/ (c = 8490%N /\ x = 107%N).

Class Unicode := {
  str_lower : pystr -> pystr;
  is_alnum : N -> bool;
  str_lower_reads s p : Forall (fun c => ascii c = true) p -> str_lower s = p <-> Forall2 lowers_to s p;
  str_lower_grows s : (length s <= length (str_lower s))%nat;
  is_alnum_ascii c : ascii c = true -> is_alnum c = ascii_alnum c
}.

Definition LT : N := 60%N.
Definition GT : N := 62%N.
Definition SLASH : N := 47%N.
Definition BAR : N := 124%N.
Definition LBRACK : N := 91%N.
Definition RBRACK : N := 93%N.

(** A literal character of a pattern under [re.IGNORECASE]: equal up to the simple
    lower case, with the two cases Python adds for [i] and [s]. *)
Definition ci (p c : N) : bool :=
  N.eqb (ascii_lower c) p
  || (N.eqb p 105 && (N.eqb c 304 || N.eqb c 305)) || (N.eqb p 107 && N.eqb c 8490) || (N.eqb p 115 && N.eqb c 383).

(** The text matched by the literal [t] at the start of [s], and what follows. *)
Fixpoint ci_prefix (t s : pystr) : option (pystr * pystr) :=
  match t, s with
  | [], _ => Some ([], s)
  | p :: t, c :: s => if ci p c then '(g, rest) ← ci_prefix t s; Some (c :: g, rest) else None
  | _ :: _, [] => None
  end.

Fixpoint first_some {A B} (f : A -> option B) (l : list A) : option B :=
  match l with [] => None | x :: l => match f x with Some y => Some y | None => first_some f l end end.

(** [s.removeprefix(c)] of one character. *)
Definition removeprefix (c : N) (s : pystr) : pystr :=
  match s with x :: s' => if N.eqb x c then s' else s | [] => [] end.
Definition starts_with (c : N) (s : pystr) : bool := py_startswith [c] s.

(** ** The patterns *)

Definition _TAGS : list pystr := [cp "think"; cp "thinking"; cp "reasoning"; cp "reflection"].
Definition _SENTINELS : list pystr :=
  [cp "you maintain a rolling summary"; cp "output only the summary"; cp "[conversation memory";
   cp "return only one json object with exactly"].
(** [_PREFIXES]: [p[:i]] for [i] from 1. *)
Definition _PREFIXES : list pystr := _SENTINELS ≫= (fun p => (fun i => take i p) <$> seq 1 (length p)).
Definition _MAX_MARKER_CHARS : nat := 256.
Definition _MAX_NESTING : nat := 32.

Section guard.
Context `{Unicode}.

Definition is_word (c : N) : bool := is_alnum c || N.eqb c 95.
(** [\b] after the matched text [g], before [rest]. *)
Definition boundary (g rest : pystr) : bool :=
  xorb (match last g with Some c => is_word c | None => false end)
    (match rest with c :: _ => is_word c | [] => false end).
(** [[^>]*>] up to the end. *)
Fixpoint to_gt (s : pystr) : bool :=
  match s with [] => false | c :: s' => if N.eqb c GT then bool_decide (s' = []) else to_gt s' end.
(** [\s*>] up to the end. *)
Definition space_gt (s : pystr) : bool := bool_decide (py_lstrip s = [GT]).

(** [_OPEN.fullmatch(s)[1]] *)
Definition _OPEN (s : pystr) : option pystr :=
  match s with
  | c :: s' =>
      if N.eqb c LT then
        first_some (fun tag =>
          '(g, rest) ← ci_prefix tag (py_lstrip s');
          if boundary g rest && to_gt rest then Some g else None) _TAGS
      else None
  | [] => None
  end.

(** [_CLOSE.fullmatch(s)[1]] *)
Definition _CLOSE (s : pystr) : option pystr :=
  match s with
  | c :: s' =>
      if N.eqb c LT && starts_with SLASH (py_lstrip s') then
        first_some (fun tag =>
          '(g, rest) ← ci_prefix tag (py_lstrip (removeprefix SLASH (py_lstrip s')));
          if space_gt rest then Some g else None) _TAGS
      else None
  | [] => None
  end.

(** [<\|[^|]{0,64}\|>] *)
Definition bar_control (s : pystr) : bool :=
  py_startswith [LT; BAR] s
  && (let '(body, rest) := py_partition BAR (drop 2 s) in
      bool_decide (length body <= 64)%nat && bool_decide (rest = Some [GT])).
(** [<\s*/?\s*word\s*>] *)
Definition word_control (word s : pystr) : bool :=
  starts_with LT s
  && match ci_prefix word (py_lstrip (removeprefix SLASH (py_lstrip (drop 1 s)))) with
     | Some (_, rest) => space_gt rest
     | None => false
     end.
(** [\[/?INST\]] *)
Definition inst_control (s : pystr) : bool :=
  starts_with LBRACK s
  && match ci_prefix (cp "inst") (removeprefix SLASH (drop 1 s)) with
     | Some (_, rest) => bool_decide (rest = [RBRACK])
     | None => false
     end.
(** [<<\s*/?SYS\s*>>] *)
Definition sys_control (s : pystr) : bool :=
  py_startswith [LT; LT] s
  && match ci_prefix (cp "sys") (removeprefix SLASH (py_lstrip (drop 2 s))) with
     | Some (_, rest) => bool_decide (py_lstrip rest = [GT; GT])
     | None => false
     end.
Definition _CONTROL (s : pystr) : bool :=
  bar_control s || word_control (cp "s") s || word_control (cp "start_of_turn") s || inst_control s || sys_control s.

(** [\s*>?] and [\s*>{0,2}] up to the end. *)
Definition maybe_gt (s : pystr) : bool := mem (py_lstrip s) [[]; [GT]].
Definition maybe_gts (s : pystr) : bool := mem (py_lstrip s) [[]; [GT]; [GT; GT]].

Definition tag_candidate (closing : bool) (head tag : pystr) : bool :=
  py_startswith head tag
  || (py_startswith tag head
      && (let tail := drop (length tag) head in
          if mem tag _TAGS && negb closing
          then match tail with c :: _ => negb (is_word c) | [] => false end
          else maybe_gt tail)).

(** Whether text can still be one of the supported markup families. *)
Definition _marker_candidate (text : pystr) : bool :=
  let lowered := str_lower text in
  if starts_with LBRACK lowered then existsb (py_startswith lowered) [cp "[inst]"; cp "[/inst]"]
  else
    let head := py_lstrip (drop 1 lowered) in
    if starts_with BAR head then true
    else if starts_with LT head then
      let head := removeprefix SLASH (py_lstrip (drop 1 head)) in
      py_startswith head (cp "sys") || (py_startswith (cp "sys") head && maybe_gts (drop 3 head))
    else
      let closing := starts_with SLASH head in
      existsb (tag_candidate closing (py_lstrip (removeprefix SLASH head))) (_TAGS ++ [cp "s"; cp "start_of_turn"]).

Definition _suspicious_partial (text : pystr) : bool :=
  if starts_with LT text
     && bool_decide (py_lstrip (drop_while (N.eqb SLASH) (py_lstrip (drop 1 text))) = [])
  then false else _marker_candidate text.

(** ** The guard *)

Record ReasoningGuard := mk_guard {
  g_pending : pystr;
  g_stack : list pystr;
  g_sentinel : pystr;
  g_discard : bool;
  g_blocked_blocks : Z
}.
Definition new_guard : ReasoningGuard := mk_guard [] [] [] false 0.

Definition set_pending (p : pystr) (g : ReasoningGuard) : ReasoningGuard :=
  mk_guard p (g_stack g) (g_sentinel g) (g_discard g) (g_blocked_blocks g).
Definition set_stack (l : list pystr) (g : ReasoningGuard) : ReasoningGuard :=
  mk_guard (g_pending g) l (g_sentinel g) (g_discard g) (g_blocked_blocks g).
Definition set_sentinel (p : pystr) (g : ReasoningGuard) : ReasoningGuard :=
  mk_guard (g_pending g) (g_stack g) p (g_discard g) (g_blocked_blocks g).
Definition set_discard (g : ReasoningGuard) : ReasoningGuard :=
  mk_guard (g_pending g) (g_stack g) (g_sentinel g) true (g_blocked_blocks g).
Definition block (g : ReasoningGuard) : ReasoningGuard :=
  mk_guard (g_pending g) (g_stack g) (g_sentinel g) (g_discard g) (g_blocked_blocks g + 1).

Definition blocked (g : ReasoningGuard) : bool := 0 <? g_blocked_blocks g.
(** A fresh guard may continue only when no hidden state is outstanding. *)
Definition continuation_safe (g : ReasoningGuard) : bool :=
  negb (negb (bool_decide (g_pending g = [])) || negb (bool_decide (g_stack g = []))
        || negb (bool_decide (g_sentinel g = [])) || g_discard g).

(** The inner loop of [_visible]: what it releases, and what it keeps, or [None]
    at a sentinel. *)
Fixpoint settle (kept : pystr) : pystr * option pystr :=
  match kept with
  | [] => ([], Some [])
  | c :: rest =>
      let lower := str_lower kept in
      if mem lower _SENTINELS then ([], None)
      else if mem lower _PREFIXES then ([], Some kept)
      else let '(out, kept') := settle rest in (c :: out, kept')
  end.

Definition speak (g : ReasoningGuard) (c : N) : ReasoningGuard * pystr :=
  if g_discard g then (g, [])
  else match settle (g_sentinel g ++ [c]) with
       | (out, Some kept) => (set_sentinel kept g, out)
       | (out, None) => (block (set_sentinel [] (set_discard g)), out)
       end.

(** [for char in text] with the output joined. *)
Fixpoint each (f : ReasoningGuard -> N -> ReasoningGuard * pystr) (g : ReasoningGuard) (text : pystr)
    : ReasoningGuard * pystr :=
  match text with
  | [] => (g, [])
  | c :: text => let '(g1, o1) := f g c in let '(g2, o2) := each f g1 text in (g2, o1 ++ o2)
  end.

Definition _visible (g : ReasoningGuard) (text : pystr) : ReasoningGuard * pystr := each speak g text.
(** [if not self._stack: out.append(self._visible(text))] *)
Definition unhidden (g : ReasoningGuard) (text : pystr) : ReasoningGuard * pystr :=
  match g_stack g with [] => _visible g text | _ => (g, []) end.

(** A complete marker candidate. *)
Definition close_marker (g : ReasoningGuard) (pending : pystr) : ReasoningGuard * pystr :=
  let g := set_pending [] g in
  match _OPEN pending, _CLOSE pending with
  | Some name, _ =>
      let g := block g in
      (if bool_decide (_MAX_NESTING <= length (g_stack g))%nat then set_discard g
       else set_stack (g_stack g ++ [str_lower name]) g, [])
  | None, Some name =>
      let g := block g in
      (if bool_decide (last (g_stack g) = Some (str_lower name))
       then set_stack (take (length (g_stack g) - 1) (g_stack g)) g else g, [])
  | None, None => if _CONTROL pending then (block g, []) else unhidden g pending
  end.

(** The loop body of [feed]. *)
Definition feed_char (g : ReasoningGuard) (c : N) : ReasoningGuard * pystr :=
  if g_discard g then (g, [])
  else match g_pending g with
  | [] => if mem c [LT; LBRACK] then (set_pending [c] g, []) else unhidden g [c]
  | pending =>
      if N.eqb c LT && negb (bool_decide (pending = [LT])) then
        let '(g, out) := unhidden g pending in (set_pending [LT] g, out)
      else
        let pending := pending ++ [c] in
        if bool_decide (_MAX_MARKER_CHARS < length pending)%nat then (set_pending [] (block (set_discard g)), [])
        else if negb (_marker_candidate pending) then
          let '(g, out) := unhidden g pending in (set_pending [] g, out)
        else if negb (mem c [GT; RBRACK]) then (set_pending pending g, [])
        else if py_startswith [LT; LT] pending && negb (py_endswith [GT; GT] pending) then (set_pending pending g, [])
        else close_marker g pending
  end.

Definition feed (g : ReasoningGuard) (chunk : pystr) : ReasoningGuard * pystr := each feed_char g chunk.

Definition flush (g : ReasoningGuard) : ReasoningGuard * pystr :=
  let pending := g_pending g in
  let g := set_pending [] g in
  if g_discard g || negb (bool_decide (g_stack g = [])) then (set_sentinel [] (set_stack [] g), [])
  else
    let '(g, pending) :=
      if negb (bool_decide (pending = [])) && _suspicious_partial pending then (block g, []) else (g, pending) in
    let '(g, out) := _visible g pending in
    let out := if g_discard g then out else out ++ g_sentinel g in
    (set_sentinel [] g, out).

Definition sanitize_provider_text (text : pystr) : pystr :=
  let '(g, out) := feed new_guard text in out ++ (flush g).2.
Definition strip_reasoning (text : pystr) : pystr := sanitize_provider_text text.

(** A streaming consumer: the chunks it publishes, the flushed one last. *)
Fixpoint publish (g : ReasoningGuard) (chunks : list pystr) : list pystr :=
  match chunks with
  | [] => [(flush g).2]
  | chunk :: chunks => let '(g, out) := feed g chunk in out :: publish g chunks
  end.

End guard.

(** ** Characters, proved *)

Lemma ascii_lower_ascii c : ascii c = true -> ascii (ascii_lower c) = true.
Proof.
  unfold ascii, ascii_lower. rewrite !N.ltb_lt. intros Hc.
  destruct (N.leb_spec 65 c), (N.leb_spec c 90); simpl; lia.
Qed.
Lemma lowers_to_ascii c x : lowers_to c x -> ascii x = true.
Proof. intros [[Hc <-]|[_ ->]]; [by apply ascii_lower_ascii|done]. Qed.

Section facts.
Context `{Unicode}.

Lemma lower_reads s p : p ∈ _SENTINELS \/ p ∈ _PREFIXES -> str_lower s = p <-> Forall2 lowers_to s p.
Proof.
  intros Hp. apply str_lower_reads.
  assert (forallb (forallb ascii) (_SENTINELS ++ _PREFIXES) = true) as Hall by (vm_compute; reflexivity).
  rewrite forallb_forall in Hall. specialize (Hall p). rewrite forallb_forall in Hall.
  apply Forall_forall. intros c Hc. apply Hall; [|by apply list_elem_of_In].
  apply in_app_iff. rewrite <-!list_elem_of_In. done.
Qed.

(** ** Feeding in pieces *)

Lemma each_app f g a b :
  each f g (a ++ b) = let '(g1, o1) := each f g a in let '(g2, o2) := each f g1 b in (g2, o1 ++ o2).
Proof.
  revert g. induction a as [|c a IH]; intros g; simpl; [by destruct (each f g b)|].
  destruct (f g c) as [g1 o1]. rewrite IH. destruct (each f g1 a) as [g2 o2].
  destruct (each f g2 b) as [g3 o3]. by rewrite app_assoc.
Qed.

Lemma publish_whole g chunks :
  mjoin (publish g chunks) = (feed g (mjoin chunks)).2 ++ (flush (feed g (mjoin chunks)).1).2.
Proof.
  revert g. induction chunks as [|chunk chunks IH]; intros g; simpl; [by rewrite app_nil_r|].
  unfold feed in *. rewrite each_app. destruct (each feed_char g chunk) as [g1 o1]. simpl.
  rewrite IH. destruct (each feed_char g1 (mjoin chunks)) as [g2 o2]. simpl. by rewrite app_assoc.
Qed.

(** An invariant of every step is one of the whole. *)
Lemma each_inv f (P : ReasoningGuard -> pystr -> Prop) text :
  (forall g out c, c ∈ text -> P g out -> P (f g c).1 (out ++ (f g c).2)) ->
  forall g out, P g out -> P (each f g text).1 (out ++ (each f g text).2).
Proof.
  induction text as [|c text IH]; intros Hf g out HP; simpl; [by rewrite app_nil_r|].
  pose proof (Hf g out c ltac:(left) HP) as H1. destruct (f g c) as [g1 o1]. simpl in *.
  pose proof (IH ltac:(intros; apply Hf; [by right|done]) _ _ H1) as H2.
  destruct (each f g1 text) as [g2 o2]. simpl in *. by rewrite app_assoc.
Qed.

(** ** The sentinels *)

(** No sentinel is part of another one that it does not complete. *)
Lemma sentinels_apart p q k :
  p ∈ _SENTINELS -> q ∈ _SENTINELS -> (k < length q)%nat -> ~ p `suffix_of` take k q.
Proof.
  assert (forallb (fun p => forallb (fun q => forallb (fun k => negb (py_endswith p (take k q))) (seq 0 (length q)))
    _SENTINELS) _SENTINELS = true) as Hall by (vm_compute; reflexivity).
  intros Hp Hq Hk [x Hs]. rewrite forallb_forall in Hall.
  specialize (Hall p ltac:(by apply list_elem_of_In)). rewrite forallb_forall in Hall.
  specialize (Hall q ltac:(by apply list_elem_of_In)). rewrite forallb_forall in Hall.
  specialize (Hall k ltac:(apply in_seq; lia)). apply negb_true_iff in Hall.
  apply not_true_iff_false in Hall. apply Hall. unfold py_endswith. apply py_startswith_spec.
  rewrite Hs, reverse_app. by exists (reverse x).
Qed.

Lemma prefixes_spec u : u ∈ _PREFIXES <-> exists q k, q ∈ _SENTINELS /\ (1 <= k <= length q)%nat /\ u = take k q.
Proof.
  unfold _PREFIXES. rewrite list_elem_of_bind. split.
  - intros (q & Hu & Hq). apply list_elem_of_fmap in Hu as (k & -> & Hk).
    apply elem_of_seq in Hk. exists q, k. split_and!; [done|lia..|done].
  - intros (q & k & Hq & Hk & ->). exists q. split; [|done]. apply list_elem_of_fmap. exists k.
    split; [done|]. apply elem_of_seq. lia.
Qed.
Lemma sentinel_prefix p : p ∈ _SENTINELS -> p ∈ _PREFIXES.
Proof.
  intros Hp. apply prefixes_spec. exists p, (length p). rewrite firstn_all. split_and!; try done.
  assert (Forall (fun p => 1 <= length p)%nat _SENTINELS) as Hall by (vm_compute; repeat constructor; lia).
  rewrite Forall_forall in Hall. by apply Hall.
Qed.
Lemma prefix_bound p : p ∈ _PREFIXES -> (length p <= 40)%nat.
Proof.
  assert (forallb (fun p => (length p <=? 40)%nat) _PREFIXES = true) as Hall by (vm_compute; reflexivity).
  rewrite forallb_forall in Hall. intros Hp. apply Nat.leb_le, Hall. by apply list_elem_of_In.
Qed.

(** [text] speaks a sentinel somewhere, in any case. *)
Definition speaks_sentinel (text : pystr) : Prop :=
  exists a u b, text = a ++ u ++ b /\ str_lower u ∈ _SENTINELS.

Lemma speaks_part a b : speaks_sentinel a -> speaks_sentinel (a ++ b).
Proof. intros (x & u & y & -> & Hu). exists x, u, (y ++ b). split; [by rewrite <-!app_assoc|done]. Qed.

Lemma sentinel_not_empty u : str_lower u ∈ _SENTINELS -> u <> [].
Proof.
  intros Hu ->. assert (str_lower [] = []) as E by (apply str_lower_reads; constructor).
  rewrite E in Hu. set_solver.
Qed.

Lemma nil_or_snoc {A} (l : list A) : l = [] \/ exists l' x, l = l' ++ [x].
Proof. destruct l as [|x l] using rev_ind; [by left|right; by exists l, x]. Qed.

(** Lower case goes part by part where it is ASCII. *)
Lemma lower_app u v : str_lower (u ++ v) ∈ _PREFIXES -> str_lower (u ++ v) = str_lower u ++ str_lower v.
Proof.
  intros Hp. pose proof (proj1 (lower_reads _ _ (or_intror Hp)) eq_refl) as Hr.
  apply Forall2_app_inv_l in Hr as (p & q & Hu & Hv & E). rewrite E.
  assert (forall s t, Forall2 lowers_to s t -> str_lower s = t) as Hl.
  { intros s t Hs. apply str_lower_reads; [|done]. eapply Forall2_Forall_r; [exact Hs|].
    apply Forall_forall. intros ? _ ? Hc. by eapply lowers_to_ascii. }
  by rewrite (Hl _ _ Hu), (Hl _ _ Hv).
Qed.
Lemma prefix_snoc u c : str_lower (u ++ [c]) ∈ _PREFIXES -> u <> [] -> str_lower u ∈ _PREFIXES.
Proof.
  intros Hp Hne. pose proof (lower_app _ _ Hp) as E. rewrite E in Hp.
  apply prefixes_spec in Hp as (q & k & Hq & Hk & Et). pose proof (str_lower_grows u) as Hg.
  pose proof (f_equal length Et) as Hl. rewrite length_app, length_take in Hl.
  apply prefixes_spec. exists q, (length (str_lower u)). split_and!; [done|destruct u; [done|simpl in Hg; lia]|lia|].
  apply (f_equal (take (length (str_lower u)))) in Et. rewrite take_app_length, take_take in Et.
  rewrite Et at 1. f_equal. lia.
Qed.

Lemma snoc_suffix {A} (u v : list A) c : u `suffix_of` v ++ [c] -> u = [] \/ exists u', u = u' ++ [c] /\ u' `suffix_of` v.
Proof.
  intros [x Hx]. destruct (nil_or_snoc u) as [->|(u' & d & ->)]; [by left|]. right.
  rewrite app_assoc in Hx. apply app_inj_tail in Hx as [-> ->]. exists u'. split; [done|by exists x].
Qed.

(** [settle] keeps the longest end of its text that can still become a sentinel. *)
Lemma settle_spec kept :
  match settle kept with
  | (out, Some kept') =>
      kept = out ++ kept' /\ (kept' = [] \/ str_lower kept' ∈ _PREFIXES /\ str_lower kept' ∉ _SENTINELS)
      /\ forall u, u `suffix_of` kept -> u <> [] -> str_lower u ∈ _PREFIXES -> u `suffix_of` kept'
  | (out, None) => exists s, kept = out ++ s /\ str_lower s ∈ _SENTINELS
  end.
Proof.
  induction kept as [|c rest IH]; simpl.
  { split_and!; [done|by left|]. intros u Hs Hne. by apply suffix_nil_inv in Hs. }
  destruct (mem _ _SENTINELS) eqn:Es; [exists (c :: rest); split; [done|by apply mem_true]|].
  destruct (mem _ _PREFIXES) eqn:Ep.
  { split_and!; [done|right; split; [by apply mem_true|by apply mem_false]|done]. }
  destruct (settle rest) as [out [kept'|]].
  - destruct IH as (-> & Hk & Hu). split_and!; [done|done|]. intros u Hs Hne Hp.
    apply Hu; [|done..]. destruct u as [|x u]; [done|].
    apply suffix_cons_inv in Hs as [E|Hs]; [|done]. rewrite E in Hp. by apply mem_false in Ep.
  - destruct IH as (s & -> & Hs). by exists s.
Qed.

(** What is published so far, and the sentinel buffer: [said] is every character
    that was let through. *)
Definition listening (g : ReasoningGuard) (out : pystr) : Prop :=
  if g_discard g then ~ speaks_sentinel out
  else ~ speaks_sentinel (out ++ g_sentinel g)
    /\ (g_sentinel g = [] \/ str_lower (g_sentinel g) ∈ _PREFIXES /\ str_lower (g_sentinel g) ∉ _SENTINELS)
    /\ forall u, u `suffix_of` (out ++ g_sentinel g) -> u <> [] -> str_lower u ∈ _PREFIXES -> u `suffix_of` g_sentinel g.

Lemma listening_out g out : listening g out -> ~ speaks_sentinel out.
Proof. unfold listening. destruct (g_discard g); [done|]. intros [Hn _] Hs. by apply Hn, speaks_part. Qed.

Lemma speak_listening g out c : listening g out -> listening (speak g c).1 (out ++ (speak g c).2).
Proof.
  unfold speak. destruct (g_discard g) eqn:Ed; [by simpl; rewrite app_nil_r|].
  unfold listening at 1. rewrite Ed. intros (Hno & Hkept & Hlong). set (sp := g_sentinel g) in *.
  assert (forall u, u `suffix_of` (out ++ sp) ++ [c] -> u <> [] -> str_lower u ∈ _PREFIXES -> u `suffix_of` sp ++ [c]) as Hlong'.
  { intros u Hs Hne Hp. apply snoc_suffix in Hs as [->|(u' & -> & Hs)]; [done|].
    destruct (decide (u' = [])) as [->|Hne']; [by exists sp|].
    pose proof (prefix_snoc _ _ Hp Hne') as Hp'.
    destruct (Hlong _ Hs Hne' Hp') as [x ->]. exists x. by rewrite app_assoc. }
  pose proof (settle_spec (sp ++ [c])) as Hset. destruct (settle (sp ++ [c])) as [o [kept'|]]; simpl.
  - destruct Hset as (Esp & Hk & Hu). unfold listening. simpl. rewrite Ed.
    assert ((out ++ o) ++ kept' = (out ++ sp) ++ [c]) as E by (by rewrite <-!app_assoc, Esp).
    rewrite E. split_and!; [|done|by intros u ???; apply Hu; [apply Hlong'|..]].
    intros (a & u & b & Eu & Hsent). destruct (nil_or_snoc b) as [->|(b' & d & ->)].
    + rewrite app_nil_r in Eu. assert (u `suffix_of` (out ++ sp) ++ [c]) as Hs by (by exists a).
      pose proof (sentinel_not_empty _ Hsent) as Hne. pose proof (sentinel_prefix _ Hsent) as Hpre.
      pose proof (Hu u (Hlong' u Hs Hne Hpre) Hne Hpre) as [x Ek].
      destruct Hk as [->|[Hp Hns]]; [by destruct x, u|].
      apply prefixes_spec in Hp as (q & k & Hq & Hkk & El).
      assert (k < length q)%nat as Hlt.
      { destruct (decide (k = length q)) as [->|]; [|lia]. rewrite firstn_all in El. by rewrite El in Hns. }
      apply (sentinels_apart _ q k Hsent Hq Hlt). rewrite <-El.
      rewrite Ek, lower_app; [by exists (str_lower x)|].
      rewrite <-Ek, El. apply prefixes_spec. by exists q, k.
    + apply Hno. exists a, u, b'. rewrite !app_assoc in Eu. apply app_inj_tail in Eu as [-> _].
      by rewrite <-!app_assoc.
  - destruct Hset as (s & Esp & Hs). unfold listening. simpl. intros Hsp. apply Hno.
    pose proof (sentinel_not_empty _ Hs) as Hne. destruct (nil_or_snoc s) as [->|(s' & d & ->)]; [done|].
    rewrite app_assoc in Esp. apply app_inj_tail in Esp as [-> _]. rewrite app_assoc. by apply speaks_part.
Qed.

(** ** The state between chunks *)

(** What a step can change: [_visible] leaves the marker state alone. *)
Lemma visible_frame g text :
  g_pending (_visible g text).1 = g_pending g /\ g_stack (_visible g text).1 = g_stack g.
Proof.
  unfold _visible. revert g. induction text as [|c text IH]; intros g; simpl; [done|].
  assert (g_pending (speak g c).1 = g_pending g /\ g_stack (speak g c).1 = g_stack g) as [E1 E2].
  { unfold speak. destruct (g_discard g); [done|]. by destruct (settle _) as [? []]. }
  destruct (speak g c) as [g1 o1]. specialize (IH g1). destruct (each speak g1 text) as [g2 o2].
  simpl in *. by rewrite <-E1, <-E2.
Qed.
Lemma unhidden_frame g text :
  g_pending (unhidden g text).1 = g_pending g /\ g_stack (unhidden g text).1 = g_stack g.
Proof. unfold unhidden. destruct (g_stack g) eqn:E; [rewrite <-E; apply visible_frame|done]. Qed.

Lemma visible_listening g out text : listening g out -> listening (_visible g text).1 (out ++ (_visible g text).2).
Proof. apply (each_inv speak listening). intros; by apply speak_listening. Qed.
Lemma unhidden_listening g out text : listening g out -> listening (unhidden g text).1 (out ++ (unhidden g text).2).
Proof. unfold unhidden. destruct (g_stack g); [apply visible_listening|by simpl; rewrite app_nil_r]. Qed.

(** The marker state does not matter to what is heard, and blocking more cannot hurt. *)
Lemma listening_set g g' out :
  g_sentinel g' = g_sentinel g -> g_discard g' = g_discard g -> listening g out -> listening g' out.
Proof. unfold listening. by intros -> ->. Qed.
Lemma listening_discard g g' out : g_discard g' = true -> listening g out -> listening g' out.
Proof. intros E Hl. unfold listening. rewrite E. by eapply listening_out. Qed.

Lemma close_marker_listening g out pending :
  listening g out -> listening (close_marker g pending).1 (out ++ (close_marker g pending).2).
Proof.
  intros Hl. unfold close_marker. destruct (_OPEN pending).
  - simpl. rewrite app_nil_r. case_bool_decide; [by eapply listening_discard|by eapply listening_set].
  - destruct (_CLOSE pending); [|destruct (_CONTROL pending)]; simpl; rewrite ?app_nil_r.
    + case_bool_decide; by eapply listening_set.
    + by eapply listening_set.
    + apply unhidden_listening. by eapply listening_set.
Qed.

Lemma feed_char_listening g out c : listening g out -> listening (feed_char g c).1 (out ++ (feed_char g c).2).
Proof.
  intros Hl. unfold feed_char. destruct (g_discard g) eqn:Ed; [by simpl; rewrite app_nil_r|].
  destruct (g_pending g) as [|p0 ps].
  { destruct (mem c _); [simpl; rewrite app_nil_r; by eapply listening_set|by apply unhidden_listening]. }
  generalize (p0 :: ps). intros pending. destruct (_ && _).
  { pose proof (unhidden_listening g out pending Hl). destruct (unhidden g pending) as [g1 o1]. simpl in *.
    by eapply listening_set. }
  case_bool_decide; [simpl; rewrite app_nil_r; by eapply listening_discard|].
  destruct (negb (_marker_candidate _)).
  { pose proof (unhidden_listening g out (pending ++ [c]) Hl). destruct (unhidden g _) as [g1 o1]. simpl in *.
    by eapply listening_set. }
  destruct (negb (mem c _)); [simpl; rewrite app_nil_r; by eapply listening_set|].
  destruct (_ && _); [simpl; rewrite app_nil_r; by eapply listening_set|]. by apply close_marker_listening.
Qed.
Lemma feed_listening g out text : listening g out -> listening (feed g text).1 (out ++ (feed g text).2).
Proof. apply (each_inv feed_char listening). intros; by apply feed_char_listening. Qed.

Lemma flush_listening g out : listening g out -> ~ speaks_sentinel (out ++ (flush g).2).
Proof.
  intros Hl. unfold flush. destruct (_ || _); [simpl; rewrite app_nil_r; by eapply listening_out|].
  assert (forall g' text, listening g' out ->
    ~ speaks_sentinel (out ++ (let '(g1, o) := _visible g' text in
        let o := if g_discard g1 then o else o ++ g_sentinel g1 in (set_sentinel [] g1, o)).2)) as Hv.
  { intros g' text Hl'. pose proof (visible_listening g' out text Hl') as H1.
    destruct (_visible g' text) as [g1 o]. simpl in *. unfold listening in H1.
    destruct (g_discard g1); [done|]. rewrite app_assoc. apply H1. }
  destruct (_ && _); apply Hv; by eapply listening_set.
Qed.

Lemma new_listening : listening new_guard [].
Proof.
  assert (~ speaks_sentinel []) as Hn.
  { intros (a & u & b & E & Hu). apply (sentinel_not_empty u Hu). by destruct a, u. }
  unfold listening. simpl. split_and!; [done|by left|]. intros u Hs Hne. by apply suffix_nil_inv in Hs.
Qed.

(** *** Bounds *)

Record bounded (g : ReasoningGuard) : Prop := {
  bd_pending : (length (g_pending g) <= _MAX_MARKER_CHARS)%nat;
  bd_stack : (length (g_stack g) <= _MAX_NESTING)%nat;
  bd_sentinel : (length (g_sentinel g) <= 40)%nat
}.

Lemma visible_sentinel g text :
  (length (g_sentinel g) <= 40)%nat -> (length (g_sentinel (_visible g text).1) <= 40)%nat.
Proof.
  unfold _visible. revert g. induction text as [|c text IH]; intros g Hg; simpl; [done|].
  assert (length (g_sentinel (speak g c).1) <= 40)%nat as H1.
  { unfold speak. destruct (g_discard g); [done|]. pose proof (settle_spec (g_sentinel g ++ [c])) as Hs.
    destruct (settle _) as [o [kept|]]; simpl; [|lia].
    destruct Hs as (_ & [->|[Hp _]] & _); [simpl; lia|]. apply prefix_bound in Hp.
    pose proof (str_lower_grows kept). lia. }
  destruct (speak g c) as [g1 o1]. specialize (IH g1 H1). by destruct (each speak g1 text).
Qed.
Ltac within := constructor; simpl in *; unfold _MAX_MARKER_CHARS, _MAX_NESTING in *;
  rewrite ?length_app, ?length_take; simpl in *; lia.

Lemma unhidden_bounded g text : bounded g -> bounded (unhidden g text).1.
Proof.
  intros [Hp Hs Hk]. destruct (unhidden_frame g text) as [E1 E2].
  constructor; [by rewrite E1|by rewrite E2|]. unfold unhidden. destruct (g_stack g); [by apply visible_sentinel|done].
Qed.
Lemma close_marker_bounded g pending : bounded g -> bounded (close_marker g pending).1.
Proof.
  intros [Hp Hs Hk]. unfold close_marker. destruct (_OPEN pending); [simpl; case_bool_decide; within|].
  destruct (_CLOSE pending); [simpl; case_bool_decide; within|].
  destruct (_CONTROL pending); [simpl; within|]. apply unhidden_bounded. within.
Qed.
Lemma feed_char_bounded g c : bounded g -> bounded (feed_char g c).1.
Proof.
  intros Hb. pose proof Hb as [Hp Hs Hk]. unfold feed_char. destruct (g_discard g); [done|].
  destruct (g_pending g) as [|p0 ps]; [destruct (mem c _); [within|by apply unhidden_bounded]|].
  set (pending := p0 :: ps) in *. destruct (_ && _).
  { pose proof (unhidden_bounded g pending Hb) as [? ? ?]. destruct (unhidden g pending). within. }
  case_bool_decide; [within|].
  destruct (negb (_marker_candidate _)).
  { pose proof (unhidden_bounded g (pending ++ [c]) Hb) as [? ? ?]. destruct (unhidden g _). within. }
  destruct (negb (mem c _)); [|destruct (_ && _); [|by apply close_marker_bounded]];
    constructor; simpl; try done; rewrite length_app in *; simpl in *; lia.
Qed.
Lemma feed_bounded g text : bounded g -> bounded (feed g text).1.
Proof.
  intros Hb. apply (each_inv feed_char (fun g _ => bounded g) text (fun g _ c _ => feed_char_bounded g c) g [] Hb).
Qed.

(** *** Nothing is invented: what is published or held is part of what came in *)

Definition flows (f : ReasoningGuard -> N -> ReasoningGuard * pystr) (held : ReasoningGuard -> pystr) : Prop :=
  forall g c, sublist ((f g c).2 ++ held (f g c).1) (held g ++ [c]).
Lemma each_flows f held g text :
  flows f held -> sublist ((each f g text).2 ++ held (each f g text).1) (held g ++ text).
Proof.
  intros Hf. revert g. induction text as [|c text IH]; intros g; simpl; [by rewrite app_nil_r|].
  pose proof (Hf g c) as H1. destruct (f g c) as [g1 o1]. specialize (IH g1).
  destruct (each f g1 text) as [g2 o2]. simpl in *. rewrite <-app_assoc.
  etrans; [apply sublist_app; [reflexivity|exact IH]|]. rewrite app_assoc, (cons_middle c), app_assoc.
  by apply sublist_app.
Qed.

Lemma speak_flows : flows speak g_sentinel.
Proof.
  intros g c. unfold speak. destruct (g_discard g); [by simpl; apply sublist_inserts_r|].
  pose proof (settle_spec (g_sentinel g ++ [c])) as Hs. destruct (settle _) as [o [kept|]]; simpl.
  - destruct Hs as (-> & _). done.
  - destruct Hs as (s & -> & _). rewrite app_nil_r. by apply sublist_inserts_r.
Qed.
Lemma unhidden_flows g text :
  sublist ((unhidden g text).2 ++ g_sentinel (unhidden g text).1) (g_sentinel g ++ text).
Proof.
  unfold unhidden. destruct (g_stack g); [apply each_flows, speak_flows|by simpl; apply sublist_inserts_r].
Qed.

Definition held (g : ReasoningGuard) : pystr := g_sentinel g ++ g_pending g.

Lemma feed_flows : flows feed_char held.
Proof.
  intros g c. unfold held, feed_char. destruct (g_discard g); [by simpl; apply sublist_inserts_r|].
  destruct (g_pending g) as [|p0 ps] eqn:Ep.
  { rewrite app_nil_r. destruct (mem c _); [done|].
    destruct (unhidden_frame g [c]) as [E _]. rewrite E, Ep, app_nil_r. apply unhidden_flows. }
  clear Ep. generalize (p0 :: ps). intros pending. rewrite <-app_assoc.
  assert (forall g', g_sentinel g' = g_sentinel g -> g_pending g' = [] ->
    sublist (g_sentinel g' ++ g_pending g') (g_sentinel g ++ pending ++ [c])) as Hdrop.
  { intros g' -> ->. rewrite app_nil_r. by apply sublist_inserts_r. }
  destruct (_ && _) eqn:Elt.
  { apply andb_true_iff in Elt as [->%N.eqb_eq _]. pose proof (unhidden_flows g pending) as H1.
    destruct (unhidden g pending) as [g1 o1]. simpl in *. rewrite !app_assoc. by apply sublist_app. }
  destruct (bool_decide (_ < _)%nat); [by apply Hdrop|]. destruct (negb (_marker_candidate _)).
  { pose proof (unhidden_flows g (pending ++ [c])) as H1. destruct (unhidden g _) as [g1 o1]. simpl in *.
    by rewrite app_nil_r. }
  destruct (negb (mem c _)); [done|]. clear Elt. destruct (_ && _); [done|].
  unfold close_marker. destruct (_OPEN _); [case_bool_decide; by apply Hdrop|].
  destruct (_CLOSE _); [case_bool_decide; by apply Hdrop|]. destruct (_CONTROL _); [by apply Hdrop|].
  destruct (unhidden_frame (set_pending [] g) (pending ++ [c])) as [E _]. rewrite E, app_nil_r.
  apply (unhidden_flows (set_pending [] g)).
Qed.

Lemma flush_flows g : sublist (flush g).2 (held g).
Proof.
  unfold flush, held. destruct (_ || _); [apply sublist_nil_l|].
  assert (forall g' text, g_sentinel g' = g_sentinel g -> sublist text (g_pending g) ->
    sublist (let '(g1, o) := _visible g' text in
        let o := if g_discard g1 then o else o ++ g_sentinel g1 in (set_sentinel [] g1, o)).2
      (g_sentinel g ++ g_pending g)) as Hv.
  { intros g' text E Ht. pose proof (each_flows speak g_sentinel g' text speak_flows) as H1. fold (_visible g' text) in H1.
    destruct (_visible g' text) as [g1 o]. simpl in *. rewrite E in H1.
    assert (sublist (o ++ g_sentinel g1) (g_sentinel g ++ g_pending g)) as H2 by (etrans; [exact H1|by apply sublist_app]).
    destruct (g_discard g1); [|done]. etrans; [|exact H2]. by apply sublist_inserts_r. }
  destruct (_ && _); apply Hv; try done. apply sublist_nil_l.
Qed.

(** C14: However a provider cuts its text, the guard publishes the same: what the
    replay of the whole text gives, in order and with nothing added. Between chunks it
    holds at most 256 characters of a marker, 32 open tags and 40 characters of a
    possible sentinel. *)
Theorem guard_is_chunk_independent chunks :
  mjoin (publish new_guard chunks) = sanitize_provider_text (mjoin chunks)
  /\ sublist (sanitize_provider_text (mjoin chunks)) (mjoin chunks)
  /\ bounded (feed new_guard (mjoin chunks)).1.
Proof.
  rewrite publish_whole. unfold sanitize_provider_text.
  pose proof (each_flows feed_char held new_guard (mjoin chunks) feed_flows) as Hfl.
  fold (feed new_guard (mjoin chunks)) in Hfl.
  pose proof (feed_bounded new_guard (mjoin chunks) ltac:(within)) as Hb.
  destruct (feed new_guard (mjoin chunks)) as [g out]. simpl in *. split_and!; [done| |done].
  etrans; [|exact Hfl]. apply sublist_app; [done|apply flush_flows].
Qed.

(** Whatever the provider says, no sentinel of an internal prompt is published, in
    any case. *)
Lemma no_sentinel_published text : ~ speaks_sentinel (sanitize_provider_text text).
Proof.
  unfold sanitize_provider_text. pose proof (feed_listening new_guard [] text new_listening) as Hl.
  destruct (feed new_guard text) as [g out]. by apply flush_listening.
Qed.

(** ** Tagged reasoning *)

Definition open_tag (name attrs : pystr) : pystr := LT :: name ++ attrs ++ [GT].
Definition close_tag (name : pystr) : pystr := LT :: SLASH :: name ++ [GT].

(** The name of tag [t], in any case. *)
Definition names (t name : pystr) : Prop :=
  t ∈ _TAGS /\ Forall (fun c => ascii c = true) name /\ ascii_lower <$> name = t.
(** Attributes: nothing, or ASCII text that starts off the name and has no angle
    bracket and no closing square bracket. *)
Definition attributes (attrs : pystr) : Prop :=
  Forall (fun c => ascii c = true /\ c <> LT /\ c <> GT /\ c <> RBRACK) attrs
  /\ (forall c, head attrs = Some c -> is_word c = false).

(** Text inside a tag, with blocks nested at most [n] deep. *)
Inductive hidden : nat -> pystr -> Prop :=
| hidden_nil n : hidden n []
| hidden_char n c h : c <> LT -> c <> LBRACK -> hidden n h -> hidden n (c :: h)
| hidden_block n t name attrs inner name' h :
    names t name -> attributes attrs -> (length (open_tag name attrs) <= _MAX_MARKER_CHARS)%nat ->
    hidden n inner -> names t name' -> hidden (S n) h ->
    hidden (S n) (open_tag name attrs ++ inner ++ close_tag name' ++ h).

Lemma lower_ascii s : Forall (fun c => ascii c = true) s -> str_lower s = ascii_lower <$> s.
Proof.
  intros Hs. apply str_lower_reads.
  - apply Forall_fmap. eapply Forall_impl; [exact Hs|]. intros c Hc. by apply ascii_lower_ascii.
  - induction Hs as [|c s Hc _ IH]; simpl; constructor; [by left|done].
Qed.
Lemma names_ascii t name : names t name -> str_lower name = t.
Proof. intros (_ & Ha & <-). by apply lower_ascii. Qed.
Lemma names_length t name : names t name -> length name = length t.
Proof. intros (_ & _ & <-). by rewrite length_fmap. Qed.

Lemma ci_ascii p c : ascii c = true -> ci p c = N.eqb (ascii_lower c) p.
Proof.
  unfold ascii, ci. rewrite N.ltb_lt. intros Hc.
  destruct (N.eqb_spec c 304), (N.eqb_spec c 305), (N.eqb_spec c 8490), (N.eqb_spec c 383); try lia.
  by rewrite !andb_false_r, !orb_false_r.
Qed.
Lemma ci_prefix_ascii t s :
  Forall (fun c => ascii c = true) s ->
  ci_prefix t s = if py_startswith t (ascii_lower <$> s) then Some (take (length t) s, drop (length t) s) else None.
Proof.
  revert s. induction t as [|p t IH]; intros s Hs; simpl; [by rewrite drop_0|].
  destruct Hs as [|c s Hc Hs]; simpl; [done|]. rewrite (ci_ascii _ _ Hc), N.eqb_sym.
  destruct (N.eqb p (ascii_lower c)); simpl; [|done]. rewrite (IH _ Hs).
  by destruct (py_startswith t _).
Qed.

(** Letters are word characters. *)
Lemma letter_word c x : ascii c = true -> ascii_lower c = x -> (97 <= x <= 122)%N -> is_word c = true.
Proof.
  intros Hc <- Hx. unfold is_word. rewrite (is_alnum_ascii _ Hc). unfold ascii_alnum.
  apply orb_true_iff; left. revert Hx. unfold ascii_lower.
  destruct (N.leb_spec 65 c), (N.leb_spec c 90); simpl; try lia; intros Hx.
  all: rewrite ?orb_true_iff, ?andb_true_iff, ?N.leb_le; lia.
Qed.
Definition word_at (s : pystr) (i : nat) : bool := match s !! i with Some c => is_word c | None => false end.
Lemma boundary_at n s : (S n <= length s)%nat -> boundary (take (S n) s) (drop (S n) s) = xorb (word_at s n) (word_at s (S n)).
Proof.
  intros Hn. unfold boundary, word_at. f_equal.
  - rewrite last_lookup, length_take, Nat.min_l by lia. simpl pred. by rewrite lookup_take_lt by lia.
  - rewrite <-(Nat.add_0_r (S n)) at 2. rewrite <-lookup_drop. by destruct (drop (S n) s).
Qed.

(** What follows a name in its tag. *)
Record follows_name (rest : pystr) : Prop := {
  fn_ascii : Forall (fun c => ascii c = true) rest;
  fn_head : exists c rest', rest = c :: rest' /\ is_word c = false
}.

Lemma not_space c : (33 <= c < 128)%N -> py_isspace c = false.
Proof.
  intros Hc. apply mem_false. unfold py_whitespace. rewrite !elem_of_cons, elem_of_nil. lia.
Qed.
Lemma lstrip_cons c s : (33 <= c < 128)%N -> py_lstrip (c :: s) = c :: s.
Proof. intros Hc. unfold py_lstrip. simpl. by rewrite not_space. Qed.
Lemma word_range c : ascii c = true -> is_word c = true -> (48 <= c < 128)%N /\ c <> GT.
Proof.
  intros Ha. pose proof Ha as Hlt. unfold ascii in Hlt. unfold is_word. rewrite (is_alnum_ascii _ Ha). unfold ascii_alnum, GT.
  rewrite !orb_true_iff, !andb_true_iff, !N.leb_le, N.eqb_eq. apply N.ltb_lt in Hlt. lia.
Qed.
Lemma lower_non_word c : ascii c = true -> is_word c = false -> ascii_lower c = c.
Proof.
  intros Ha Hw. unfold ascii_lower. destruct (N.leb_spec 65 c), (N.leb_spec c 90); simpl; try done.
  rewrite (letter_word c (c + 32)) in Hw; [done|done| |lia].
  unfold ascii_lower. by rewrite (proj2 (N.leb_le 65 c)), (proj2 (N.leb_le c 90)) by done.
Qed.
Lemma tag_head t : t ∈ _TAGS -> exists x t', t = x :: t' /\ (97 <= x <= 122)%N.
Proof.
  assert (Forall (fun t => exists x t', t = x :: t' /\ (97 <= x <= 122)%N) _TAGS) as Hall.
  { repeat constructor; (do 2 eexists; split; [reflexivity|vm_compute; split; discriminate]). }
  rewrite Forall_forall in Hall. apply Hall.
Qed.

Section tag.
Context (t name rest : pystr).
Context (Hname : names t name) (Hrest : follows_name rest).

Lemma text_ascii : Forall (fun c => ascii c = true) (name ++ rest).
Proof. apply Forall_app. split; [apply Hname|apply Hrest]. Qed.
Lemma text_lower : ascii_lower <$> (name ++ rest) = t ++ (ascii_lower <$> rest).
Proof. rewrite fmap_app. by destruct Hname as (_ & _ & ->). Qed.

(** A place of the name is a word character; the place after it is not. *)
Lemma inside_word i x : t !! i = Some x -> (97 <= x <= 122)%N -> word_at (name ++ rest) i = true.
Proof.
  intros Hi Hx. destruct Hname as (_ & Ha & <-). rewrite list_lookup_fmap in Hi.
  destruct (name !! i) as [c|] eqn:Ec; [|done]. injection Hi as E. unfold word_at.
  rewrite (lookup_app_l_Some _ _ _ _ Ec). apply (letter_word c x); [|done..].
  rewrite Forall_forall in Ha. apply Ha. by eapply list_elem_of_lookup_2.
Qed.
Lemma after_word : word_at (name ++ rest) (length t) = false.
Proof.
  unfold word_at. rewrite <-(names_length _ _ Hname), lookup_app_r, Nat.sub_diag by lia.
  destruct (fn_head _ Hrest) as (c & r & -> & Hc). done.
Qed.

Ltac tags Hm := repeat (apply elem_of_cons in Hm as [->|Hm]); [..|by apply elem_of_nil in Hm].

(** The alternatives of a pattern on the name: exactly its own tag fits. *)
Lemma tag_alternatives {B} (f : pystr -> pystr -> option B) :
  (forall k, (0 < k < length t)%nat -> word_at (name ++ rest) (k - 1) = true -> word_at (name ++ rest) k = true ->
     f (take k (name ++ rest)) (drop k (name ++ rest)) = None) ->
  first_some (fun tag => '(g, r) ← ci_prefix tag (name ++ rest); f g r) _TAGS = f name rest.
Proof.
  intros Hf. unfold _TAGS.
  assert (forall tag, ('(g, r) ← ci_prefix tag (name ++ rest); f g r) =
    if py_startswith tag (t ++ (ascii_lower <$> rest)) then f (take (length tag) (name ++ rest)) (drop (length tag) (name ++ rest)) else None) as Halt.
  { intros tag. rewrite ci_prefix_ascii, text_lower by apply text_ascii. by destruct (py_startswith _ _). }
  assert (f (take (length t) (name ++ rest)) (drop (length t) (name ++ rest)) = f name rest) as Hself.
  { rewrite <-(names_length _ _ Hname), take_app_length, drop_app_length. done. }
  cbn [first_some]. rewrite !Halt. pose proof inside_word as Hin. pose proof Hname as (Hm & _ & _).
  assert (py_startswith (cp "thinking") (cp "think" ++ (ascii_lower <$> rest)) = false) as Hthink.
  { destruct Hrest as [Ha (c & r & -> & Hc)]. apply Forall_cons in Ha as [Ha _].
    destruct (py_startswith _ _) eqn:E; [|done]. apply py_startswith_spec in E as [z E]. injection E as Ec _.
    assert (is_word c = true) as Hw; [|congruence]. apply (letter_word c 105 Ha); [exact Ec|lia]. }
  revert Hm Hself Hf Hin. clear - Hthink. intros Hm Hself Hf Hin. tags Hm.
  - rewrite Hthink. simpl. simpl in Hself. rewrite Hself. by destruct (f name rest).
  - clear Hthink. pose proof (Hin 4%nat 107%N eq_refl ltac:(lia)) as Hk. pose proof (Hin 5%nat 105%N eq_refl ltac:(lia)) as Hw.
    simpl in *. rewrite Hself, (Hf 5%nat); [by destruct (f name rest)|lia|done..].
  - clear Hthink. simpl in *. rewrite Hself. by destruct (f name rest).
  - clear Hthink. simpl in *. rewrite Hself. by destruct (f name rest).
Qed.

Lemma name_head : exists c name', name = c :: name' /\ (48 <= c < 128)%N.
Proof.
  destruct Hname as (Hm & Ha & E). destruct (tag_head _ Hm) as (x & t' & -> & Hx).
  destruct name as [|c name']; [done|]. exists c, name'. split; [done|]. injection E as E _.
  apply Forall_cons in Ha as [Ha _]. by destruct (word_range c Ha (letter_word c x Ha E Hx)).
Qed.
Lemma lstrip_text s : py_lstrip (name ++ s) = name ++ s.
Proof. destruct name_head as (c & name' & -> & Hc). apply lstrip_cons. lia. Qed.

(** *** The markers of a tag are recognised *)

Lemma to_gt_end attrs : Forall (fun c => c <> GT) attrs -> to_gt (attrs ++ [GT]) = true.
Proof.
  induction 1 as [|c attrs Hc _ IH]; simpl; [done|]. by destruct (N.eqb_spec c GT).
Qed.

Lemma open_recognised : to_gt rest = true -> _OPEN (LT :: name ++ rest) = Some name.
Proof.
  intros Hgt. unfold _OPEN. rewrite N.eqb_refl, lstrip_text.
  rewrite (tag_alternatives (fun g r => if boundary g r && to_gt r then Some g else None)).
  - assert (boundary name rest = true) as ->; [|by rewrite Hgt].
    pose proof (boundary_at (length t - 1) (name ++ rest)) as Hb.
    pose proof (names_length _ _ Hname) as Hl. destruct Hname as (Hm & _ & _).
    assert (1 <= length t)%nat as H1 by (tags Hm; simpl; lia).
    replace (S (length t - 1)) with (length name) in Hb by lia.
    rewrite take_app_length, drop_app_length in Hb. rewrite Hb by (rewrite length_app; lia).
    rewrite Hl, after_word. pose proof inside_word as Hin. clear - Hm Hin.
    assert (word_at (name ++ rest) (length t - 1) = true) as ->; [|done]. tags Hm.
    + by apply (Hin 4%nat 107%N).
    + by apply (Hin 7%nat 103%N).
    + by apply (Hin 8%nat 103%N).
    + by apply (Hin 9%nat 110%N).
  - intros k Hk Hw1 Hw2. assert (boundary (take k (name ++ rest)) (drop k (name ++ rest)) = false) as ->; [|done].
    destruct k as [|k]; [lia|]. rewrite boundary_at by (rewrite length_app, (names_length _ _ Hname); lia).
    simpl in Hw1. rewrite Nat.sub_0_r in Hw1. by rewrite Hw1, Hw2.
Qed.

Lemma close_recognised : rest = [GT] -> _CLOSE (LT :: SLASH :: name ++ rest) = Some name.
Proof.
  intros Er. unfold _CLOSE. rewrite (lstrip_cons SLASH) by (unfold SLASH; lia). simpl andb. cbv iota.
  change (removeprefix SLASH (SLASH :: name ++ rest)) with (name ++ rest). rewrite lstrip_text.
  rewrite (tag_alternatives (fun g r => if space_gt r then Some g else None)); [by rewrite Er|].
  intros k Hk _ Hw. assert (space_gt (drop k (name ++ rest)) = false) as ->; [|done].
  unfold word_at in Hw. destruct ((name ++ rest) !! k) as [c|] eqn:Ec; [|done].
  apply drop_S in Ec as Ed. rewrite Ed.
  assert (ascii c = true) as Ha.
  { pose proof text_ascii as Ht. rewrite Forall_forall in Ht. apply Ht. by eapply list_elem_of_lookup_2. }
  destruct (word_range c Ha Hw) as [Hc Hgt]. unfold space_gt. rewrite lstrip_cons by lia.
  apply bool_decide_eq_false. congruence.
Qed.

(** Every part of a tag's marker can still become one. *)
Lemma part_lower pre k :
  Forall (fun c => ascii c = true) pre ->
  str_lower (pre ++ take k (name ++ rest)) = (ascii_lower <$> pre) ++ take k (t ++ (ascii_lower <$> rest)).
Proof.
  intros Hp. rewrite lower_ascii, fmap_app, fmap_take, text_lower; [done|].
  apply Forall_app. split; [done|]. apply Forall_take, text_ascii.
Qed.
Lemma part_tag closing k :
  (closing = true -> rest = [GT]) -> tag_candidate closing (take k (t ++ (ascii_lower <$> rest))) t = true.
Proof.
  intros Hr. unfold tag_candidate. destruct (decide (k <= length t)%nat) as [Hk|Hk].
  - rewrite take_app_le by done. apply orb_true_iff; left. apply py_startswith_spec. apply prefix_take.
  - apply orb_true_iff; right. rewrite take_app_ge by lia. apply andb_true_iff; split; [apply py_startswith_spec; by eexists|].
    rewrite drop_app_length. destruct Hname as (Hm & _ & _). rewrite (proj2 (mem_true t _TAGS) Hm).
    destruct (k - length t)%nat as [|j] eqn:Ej; [lia|]. destruct closing; simpl.
    + rewrite Hr by done. by destruct j.
    + destruct Hrest as [Ha (c & r & -> & Hc)]. apply Forall_cons in Ha as [Ha _]. simpl.
      rewrite (lower_non_word c Ha Hc). by rewrite Hc.
Qed.
Lemma part_strip k : py_lstrip (take k (t ++ (ascii_lower <$> rest))) = take k (t ++ (ascii_lower <$> rest)).
Proof.
  destruct Hname as (Hm & _ & _). destruct (tag_head _ Hm) as (x & t' & -> & Hx).
  destruct k; [done|]. apply lstrip_cons. lia.
Qed.

Lemma open_candidate k : (1 <= k)%nat -> _marker_candidate (LT :: take k (name ++ rest)) = true.
Proof.
  intros Hk. unfold _marker_candidate. pose proof (part_lower [LT] k ltac:(by repeat constructor)) as El.
  pose proof (part_tag false k ltac:(done)) as Ht. pose proof (part_strip k) as Hs.
  destruct Hname as (Hm & _ & _). destruct (tag_head _ Hm) as (x & t' & E & Hx).
  assert (exists h', take k (t ++ (ascii_lower <$> rest)) = x :: h') as [h' Eh].
  { rewrite E. destruct k; [lia|]. by eexists. }
  rewrite Eh in *. change (str_lower (LT :: take k (name ++ rest)) = LT :: x :: h') in El. rewrite El.
  change (starts_with LBRACK (LT :: x :: h')) with false. change (drop 1 (LT :: x :: h')) with (x :: h').
  cbv zeta iota. rewrite Hs.
  assert (forall y, (y < 97 \/ 122 < y)%N -> starts_with y (x :: h') = false) as Hy.
  { intros y Hy. unfold starts_with. simpl. destruct (N.eqb_spec y x); [lia|done]. }
  rewrite (Hy BAR), (Hy LT), (Hy SLASH) by (unfold BAR, LT, SLASH; lia).
  assert (removeprefix SLASH (x :: h') = x :: h') as ->.
  { simpl. destruct (N.eqb_spec x SLASH) as [Ex|]; [unfold SLASH in Ex; lia|done]. }
  rewrite Hs. apply existsb_exists. exists t. split; [|done]. apply in_or_app; left. by apply list_elem_of_In.
Qed.
Lemma close_candidate k : rest = [GT] -> _marker_candidate (LT :: SLASH :: take k (name ++ rest)) = true.
Proof.
  intros Er. unfold _marker_candidate. pose proof (part_lower [LT; SLASH] k ltac:(by repeat constructor)) as El.
  pose proof (part_tag true k ltac:(done)) as Ht. pose proof (part_strip k) as Hs.
  set (h := take k (t ++ _)) in *. change (str_lower (LT :: SLASH :: take k (name ++ rest)) = LT :: SLASH :: h) in El.
  rewrite El. change (starts_with LBRACK (LT :: SLASH :: h)) with false.
  change (drop 1 (LT :: SLASH :: h)) with (SLASH :: h). cbv zeta iota.
  rewrite (lstrip_cons SLASH) by (unfold SLASH; lia). change (starts_with BAR (SLASH :: h)) with false.
  change (starts_with LT (SLASH :: h)) with false. change (starts_with SLASH (SLASH :: h)) with true.
  change (removeprefix SLASH (SLASH :: h)) with h. cbv zeta iota. rewrite Hs.
  apply existsb_exists. exists t. split; [|done]. destruct Hname as (Hm & _ & _).
  apply in_or_app; left. by apply list_elem_of_In.
Qed.
End tag.

(** *** Feeding a tag *)

Definition blocks (k : Z) (g : ReasoningGuard) : ReasoningGuard :=
  mk_guard (g_pending g) (g_stack g) (g_sentinel g) (g_discard g) (g_blocked_blocks g + k).

Lemma feed_cons g c text :
  feed g (c :: text) = let '(g1, o1) := feed_char g c in let '(g2, o2) := feed g1 text in (g2, o1 ++ o2).
Proof. done. Qed.

Lemma feed_app g a b :
  feed g (a ++ b) = let '(g1, o1) := feed g a in let '(g2, o2) := feed g1 b in (g2, o1 ++ o2).
Proof. apply each_app. Qed.

Lemma collect_char g p c :
  g_discard g = false -> g_pending g = p -> p <> [] -> _marker_candidate (p ++ [c]) = true ->
  c <> LT /\ c <> GT /\ c <> RBRACK -> (length (p ++ [c]) <= _MAX_MARKER_CHARS)%nat ->
  feed_char g c = (set_pending (p ++ [c]) g, []).
Proof.
  intros Hd Ep Hne Hc (H1 & H2 & H3) Hl. unfold feed_char. rewrite Hd, Ep. destruct p as [|p0 ps]; [done|].
  destruct (N.eqb_spec c LT) as [|_]; [done|]. simpl andb. cbv iota.
  rewrite bool_decide_eq_false_2 by lia. rewrite Hc. simpl negb. cbv iota.
  assert (mem c [GT; RBRACK] = false) as -> by (apply mem_false; set_solver). done.
Qed.

(** The start of a marker is collected as long as it can still become one. *)
Lemma collect g p m :
  g_discard g = false -> g_pending g = p -> p <> [] ->
  (forall k, (1 <= k <= length m)%nat -> _marker_candidate (p ++ take k m) = true) ->
  Forall (fun c => c <> LT /\ c <> GT /\ c <> RBRACK) m -> (length (p ++ m) <= _MAX_MARKER_CHARS)%nat ->
  feed g m = (set_pending (p ++ m) g, []).
Proof.
  revert g p. induction m as [|c m IH]; intros g p Hd Ep Hne Hcand Hm Hl.
  { unfold feed. simpl. rewrite app_nil_r, <-Ep. by destruct g. }
  apply Forall_cons in Hm as [Hc Hm]. rewrite length_app in Hl. simpl in Hl.
  rewrite feed_cons, (collect_char g p c); try done.
  - rewrite (IH _ (p ++ [c])); try done.
    + simpl. by rewrite <-app_assoc.
    + by destruct p.
    + intros k Hk. rewrite <-app_assoc. apply (Hcand (S k)). simpl. lia.
    + rewrite !length_app. simpl. lia.
  - specialize (Hcand 1%nat ltac:(simpl; lia)). cbn [take] in Hcand. by rewrite take_0 in Hcand.
  - rewrite length_app. simpl. lia.
Qed.

Lemma finish_marker g p :
  g_discard g = false -> (length p < _MAX_MARKER_CHARS)%nat -> _marker_candidate (p ++ [GT]) = true ->
  (exists c p', p = LT :: c :: p' /\ c <> LT) ->
  feed_char (set_pending p g) GT = close_marker (set_pending p g) (p ++ [GT]).
Proof.
  intros Hd Hl Hc (c & p' & -> & Hlt). unfold feed_char.
  change (g_discard (set_pending (LT :: c :: p') g)) with (g_discard g). rewrite Hd.
  change (g_pending (set_pending (LT :: c :: p') g)) with (LT :: c :: p').
  change (N.eqb GT LT) with false. cbv beta iota. cbn [andb].
  rewrite bool_decide_eq_false_2 by (rewrite length_app; simpl in *; lia). rewrite Hc.
  change (negb true) with false. change (negb (mem GT [GT; RBRACK])) with false. cbv iota.
  assert (py_startswith [LT; LT] ((LT :: c :: p') ++ [GT]) = false) as ->; [|done].
  cbn [app py_startswith]. destruct (N.eqb_spec LT c); [by subst|done].
Qed.

Lemma open_marker g : g_discard g = false -> g_pending g = [] -> feed_char g LT = (set_pending [LT] g, []).
Proof. intros Hd Hp. unfold feed_char. by rewrite Hd, Hp. Qed.

Lemma name_chars t name : names t name -> Forall (fun c => c <> LT /\ c <> GT /\ c <> RBRACK) name.
Proof.
  intros (Hm & Ha & E). apply Forall_forall. intros c Hc. rewrite Forall_forall in Ha.
  assert (ascii_lower c ∈ t) as Ht by (rewrite <-E; by apply list_elem_of_fmap_2).
  assert (Forall (fun x => (97 <= x <= 122)%N) t) as Hall.
  { assert (Forall (Forall (fun x => (97 <= x <= 122)%N)) _TAGS) as Hall; [|rewrite Forall_forall in Hall; by apply Hall].
    repeat constructor; vm_compute; discriminate. }
  rewrite Forall_forall in Hall. specialize (Hall _ Ht). unfold LT, GT, RBRACK, ascii_lower in *.
  destruct (N.leb_spec 65 c), (N.leb_spec c 90); simpl in Hall; split_and!; lia.
Qed.
Lemma attributes_follow attrs : attributes attrs -> follows_name (attrs ++ [GT]).
Proof.
  intros [Ha Hh]. constructor.
  - apply Forall_app. split; [eapply Forall_impl; [exact Ha|by intros c (? & _)]|by repeat constructor].
  - destruct attrs as [|c attrs].
    + exists GT, []. split; [done|]. unfold is_word. by rewrite is_alnum_ascii.
    + exists c, (attrs ++ [GT]). split; [done|by apply Hh].
Qed.

Lemma feed_tag_start g m r :
  g_discard g = false -> g_pending g = [] -> Forall (fun c => c <> LT /\ c <> GT /\ c <> RBRACK) m -> m <> [] ->
  (length m + 2 <= _MAX_MARKER_CHARS)%nat ->
  (forall k, (1 <= k <= length (m ++ [GT]))%nat -> _marker_candidate (LT :: take k (m ++ [GT])) = true) ->
  feed g ((LT :: m ++ [GT]) ++ r) =
    let '(g1, o1) := close_marker (set_pending (LT :: m) g) (LT :: m ++ [GT]) in
    let '(g2, o2) := feed g1 r in (g2, o1 ++ o2).
Proof.
  intros Hd Hp Hm Hne Hl Hc. cbn [app]. rewrite feed_cons, (open_marker _ Hd Hp), <-app_assoc, feed_app.
  rewrite (collect (set_pending [LT] g) [LT] m); try done; [|..|simpl; lia].
  - change (set_pending ([LT] ++ m) (set_pending [LT] g)) with (set_pending (LT :: m) g). cbn [app].
    rewrite feed_cons, (finish_marker g (LT :: m)); [|done|simpl; lia| |].
    + cbn [app]. destruct (close_marker _ _) as [g1 o1]. by destruct (feed g1 r).
    + pose proof (Hc (length (m ++ [GT])) ltac:(rewrite length_app; simpl; lia)) as Hfull. by rewrite firstn_all in Hfull.
    + destruct m as [|c m]; [done|]. apply Forall_cons in Hm as [(? & _) _]. by exists c, m.
  - intros k Hk. specialize (Hc k). rewrite take_app_le in Hc by lia. apply Hc. rewrite length_app. lia.
Qed.

Lemma feed_open g t name attrs r :
  g_discard g = false -> g_pending g = [] -> names t name -> attributes attrs ->
  (length (open_tag name attrs) <= _MAX_MARKER_CHARS)%nat -> (length (g_stack g) < _MAX_NESTING)%nat ->
  feed g (open_tag name attrs ++ r) = feed (set_stack (g_stack g ++ [t]) (blocks 1 g)) r.
Proof.
  intros Hd Hp Hn Ha Hl Hs. unfold open_tag in *. rewrite app_assoc in *. simpl in Hl. rewrite length_app in Hl. simpl in Hl.
  rewrite (feed_tag_start g (name ++ attrs)); try done; [| | |lia|].
  - unfold close_marker. rewrite <-app_assoc, (open_recognised t); [|done|by apply attributes_follow|].
    + rewrite bool_decide_eq_false_2 by (simpl; lia). rewrite (names_ascii t) by done.
      replace (set_stack _ _) with (set_stack (g_stack g ++ [t]) (blocks 1 g)) by (unfold set_stack, blocks; simpl; by rewrite Hp).
      by destruct (feed _ r).
    + apply to_gt_end. destruct Ha as [Ha _]. eapply Forall_impl; [exact Ha|]. by intros c (_ & _ & ? & _).
  - apply Forall_app. split; [by eapply name_chars|]. destruct Ha as [Ha _]. eapply Forall_impl; [exact Ha|]. by intros c (_ & ? & ? & ?).
  - destruct (name_head t name Hn) as (c & n & -> & _). done.
  - intros k Hk. rewrite <-app_assoc in *. apply (open_candidate t); [done|by apply attributes_follow|lia].
Qed.

Lemma feed_close g t name r stack :
  g_discard g = false -> g_pending g = [] -> names t name -> g_stack g = stack ++ [t] ->
  feed g (close_tag name ++ r) = feed (set_stack stack (blocks 1 g)) r.
Proof.
  intros Hd Hp Hn Hs. unfold close_tag.
  assert (follows_name [GT]) as Hf by (apply (attributes_follow []); split; [constructor|done]).
  assert (length name <= 10)%nat as Hl.
  { rewrite (names_length _ _ Hn). destruct Hn as (Hm & _).
    assert (Forall (fun t => length t <= 10)%nat _TAGS) as Hall by (repeat constructor; simpl; lia).
    rewrite Forall_forall in Hall. by apply Hall. }
  rewrite (feed_tag_start g (SLASH :: name)); try done.
  - unfold close_marker. change ((SLASH :: name) ++ [GT]) with (SLASH :: name ++ [GT]).
    assert (_OPEN (LT :: SLASH :: name ++ [GT]) = None) as -> by done.
    rewrite (close_recognised t) by done. rewrite (names_ascii t) by done. simpl g_stack. rewrite Hs.
    rewrite bool_decide_eq_true_2 by (by rewrite last_snoc).
    rewrite length_app. simpl length. replace (length stack + 1 - 1)%nat with (length stack) by lia. rewrite take_app_length.
    replace (set_stack stack (block _)) with (set_stack stack (blocks 1 g)) by (unfold set_stack, blocks; simpl; by rewrite Hp).
    by destruct (feed _ r).
  - constructor; [done|]. by eapply name_chars.
  - simpl. unfold _MAX_MARKER_CHARS. lia.
  - intros k Hk. destruct k as [|k]; [lia|]. by apply (close_candidate t).
Qed.

Lemma feed_hidden n h : hidden n h -> forall g r,
  g_discard g = false -> g_pending g = [] -> g_stack g <> [] -> (length (g_stack g) + n <= _MAX_NESTING)%nat ->
  exists k, 0 <= k /\ feed g (h ++ r) = feed (blocks k g) r.
Proof.
  induction 1 as [n|n c h Hlt Hlb _ IH|n t name attrs inner name' h Hn Ha Hl _ IHi Hn' _ IHh]; intros g r Hd Hp Hne Hs.
  - exists 0. split; [done|]. simpl. unfold blocks. rewrite Z.add_0_r. by destruct g.
  - destruct (IH g r Hd Hp Hne Hs) as (k & Hk & E). exists k. split; [done|]. rewrite <-E. cbn [app]. rewrite feed_cons.
    unfold feed_char. rewrite Hd, Hp. assert (mem c [LT; LBRACK] = false) as -> by (apply mem_false; set_solver).
    unfold unhidden. destruct (g_stack g) eqn:Eg; [done|]. by destruct (feed g (h ++ r)).
  - rewrite <-!app_assoc, (feed_open g t); try done; [|lia].
    destruct (IHi (set_stack (g_stack g ++ [t]) (blocks 1 g)) (close_tag name' ++ h ++ r)) as (k & Hk & ->); try done.
    { simpl. by destruct (g_stack g). } { simpl. rewrite length_app. simpl. lia. }
    rewrite (feed_close _ t name' _ (g_stack g)); try done.
    destruct (IHh (set_stack (g_stack g) (blocks 1 (blocks k (set_stack (g_stack g ++ [t]) (blocks 1 g))))) r) as (k' & Hk' & ->); try done.
    exists (1 + k + 1 + k'). split; [lia|]. f_equal. unfold blocks, set_stack. simpl. f_equal. lia.
Qed.

(** Counting what was blocked does not change what is published. *)
Definition counts (f : ReasoningGuard -> ReasoningGuard * pystr) : Prop :=
  forall k g, f (blocks k g) = let '(g', o) := f g in (blocks k g', o).
Ltac recount := unfold blocks, block, set_pending, set_stack, set_sentinel, set_discard; simpl; f_equal; first [lia | f_equal; lia].

Lemma each_counts f text : (forall c, counts (fun g => f g c)) -> counts (fun g => each f g text).
Proof.
  intros Hf. induction text as [|c text IH]; intros k g; simpl; [done|].
  rewrite (Hf c k g). destruct (f g c) as [g1 o1]. rewrite (IH k g1). by destruct (each f g1 text).
Qed.
Lemma speak_counts c : counts (fun g => speak g c).
Proof.
  intros k g. unfold speak. simpl. destruct (g_discard g) eqn:Ed; [done|].
  destruct (settle _) as [o [kept|]]; [done|recount].
Qed.
Lemma visible_counts text : counts (fun g => _visible g text).
Proof. apply each_counts, speak_counts. Qed.
Lemma unhidden_counts text : counts (fun g => unhidden g text).
Proof. intros k g. unfold unhidden. simpl. destruct (g_stack g); [apply visible_counts|done]. Qed.

Lemma close_marker_counts p : counts (fun g => close_marker g p).
Proof.
  intros k g. unfold close_marker. simpl. destruct (_OPEN p) as [nm|]; [|destruct (_CLOSE p) as [nm|]].
  - destruct (bool_decide _); recount.
  - destruct (bool_decide _); recount.
  - destruct (_CONTROL p); [recount|]. apply (unhidden_counts p k (set_pending [] g)).
Qed.
Lemma feed_char_counts c : counts (fun g => feed_char g c).
Proof.
  intros k g. unfold feed_char. simpl. destruct (g_discard g) eqn:Ed; [done|].
  destruct (g_pending g) as [|p0 ps].
  { destruct (mem c _); [done|apply unhidden_counts]. }
  destruct (_ && _). { rewrite unhidden_counts. by destruct (unhidden g _). }
  destruct (bool_decide _); [recount|].
  destruct (negb (_marker_candidate _)). { rewrite unhidden_counts. by destruct (unhidden g _). }
  destruct (negb (mem c _)); [done|]. destruct (_ && _); [done|]. apply close_marker_counts.
Qed.
Lemma feed_counts text : counts (fun g => feed g text).
Proof. apply each_counts, feed_char_counts. Qed.
Lemma flush_counts k g : (flush (blocks k g)).2 = (flush g).2.
Proof.
  unfold flush. simpl. destruct (_ || _); [done|]. destruct (_ && _).
  - change (set_pending [] (blocks k g)) with (blocks k (set_pending [] g)).
    replace (block (blocks k _)) with (blocks k (block (set_pending [] g))) by recount.
    rewrite visible_counts. by destruct (_visible _ _).
  - change (set_pending [] (blocks k g)) with (blocks k (set_pending [] g)).
    rewrite visible_counts. by destruct (_visible _ _).
Qed.

Lemma discarded g text : g_discard g = true -> feed g text = (g, []).
Proof.
  intros Hd. induction text as [|c text IH]; [done|]. rewrite feed_cons. unfold feed_char. by rewrite Hd, IH.
Qed.

(** C15: Tagged reasoning is never published: where nothing is pending, a block leaves
    the published text what it would be without the block.  Its tags may be in any
    casing and have attributes (ASCII, off the name, without <, > and ], the marker
    within [_MAX_MARKER_CHARS]); inside it is text without [ and without < but for the
    nested blocks, and the nesting stays within [_MAX_NESTING].  Outside these bounds
    the guard drops the rest of the answer or takes the text for no block, see
    [bracket_attribute_leaks]. *)
Theorem tagged_reasoning_hidden pre t name attrs n inner name' post :
  g_pending (feed new_guard pre).1 = [] ->
  (length (g_stack (feed new_guard pre).1) + S n <= _MAX_NESTING)%nat ->
  names t name -> attributes attrs -> (length (open_tag name attrs) <= _MAX_MARKER_CHARS)%nat ->
  hidden n inner -> names t name' ->
  sanitize_provider_text (pre ++ open_tag name attrs ++ inner ++ close_tag name' ++ post)
  = sanitize_provider_text (pre ++ post).
Proof.
  intros Hp Hs Hn Ha Hl Hi Hn'. unfold sanitize_provider_text. rewrite !feed_app.
  destruct (feed new_guard pre) as [g o]. simpl in Hp, Hs.
  assert (exists k, feed g (open_tag name attrs ++ inner ++ close_tag name' ++ post) = feed (blocks k g) post) as [k ->].
  { destruct (g_discard g) eqn:Ed.
    { exists 0. unfold blocks. rewrite Z.add_0_r. rewrite !discarded; [by destruct g|done..]. }
    rewrite (feed_open g t); try done; [|lia].
    destruct (feed_hidden n inner Hi (set_stack (g_stack g ++ [t]) (blocks 1 g)) (close_tag name' ++ post)) as (k & _ & ->); try done.
    { simpl. by destruct (g_stack g). } { simpl. rewrite length_app. simpl. lia. }
    rewrite (feed_close _ t name' _ (g_stack g)); try done. exists (1 + k + 1).
    f_equal. unfold blocks, set_stack. simpl. f_equal. lia. }
  rewrite feed_counts. destruct (feed g post) as [g' o']. by rewrite flush_counts.
Qed.

End facts.

(** ASCII lower case, for running the guard. *)
Definition simple_lower (c : N) : N := if N.eqb c 8490 then 107%N else ascii_lower c.
Lemma simple_lower_reads c x : ascii x = true -> simple_lower c = x <-> lowers_to c x.
Proof.
  intros Hx. unfold simple_lower, lowers_to. destruct (N.eqb_spec c 8490) as [->|Hc].
  - split; [by right|]. intros [[? _]|[_ ->]]; [done|done].
  - split; [|by intros [[_ ?]|[? _]]]. intros E. left. split; [|done].
    revert Hx. rewrite <-E. unfold ascii, ascii_lower. rewrite !N.ltb_lt.
    destruct (N.leb_spec 65 c), (N.leb_spec c 90); simpl; lia.
Qed.
#[local] Lemma demo_lower_reads s p :
  Forall (fun c => ascii c = true) p -> simple_lower <$> s = p <-> Forall2 lowers_to s p.
Proof.
  intros Hp. split.
  - intros <-. induction s as [|c s IH]; [constructor|]. apply Forall_cons in Hp as [Hc Hp].
    constructor; [by apply simple_lower_reads|by apply IH].
  - induction 1 as [|c x s p Hc _ IH]; [done|]. apply Forall_cons in Hp as [Hx Hp]. simpl.
    f_equal; [by apply simple_lower_reads|by apply IH].
Qed.
#[local] Instance demo_unicode : Unicode.
Proof.
  refine {| str_lower s := simple_lower <$> s; is_alnum := ascii_alnum |}.
  - apply demo_lower_reads.
  - intros s. by rewrite length_fmap.
  - done.
Defined.

(** An answer that thinks aloud, in two casings. *)
Theorem tagged_reasoning_hidden_witness :
  sanitize_provider_text
    (cp "The rent " ++ open_tag (cp "Think") (cp " id=1") ++ cp "is it 1 > 0?" ++ close_tag (cp "THINK") ++ cp "is 900.")
  = cp "The rent is 900.".
Proof.
  rewrite (tagged_reasoning_hidden (cp "The rent ") (cp "think") (cp "Think") (cp " id=1") 0 (cp "is it 1 > 0?")
    (cp "THINK") (cp "is 900.")).
  - vm_compute. reflexivity.
  - vm_compute. reflexivity.
  - vm_compute. lia.
  - split; [left|split; [|vm_compute; reflexivity]]. vm_compute. repeat constructor.
  - split; [vm_compute; repeat constructor; discriminate|]. intros c [= <-]. vm_compute. reflexivity.
  - vm_compute. lia.
  - vm_compute. repeat (constructor; [discriminate..|]). constructor.
  - split; [left|split; [|vm_compute; reflexivity]]. vm_compute. repeat constructor.
Defined.

(** A closing square bracket in an attribute breaks the marker off, and the text of
    the block is published. *)
Lemma bracket_attribute_leaks :
  sanitize_provider_text (cp "A<think x=[1]>secret</think>B") = cp "A<think x=[1]>secretB".
Proof. vm_compute. reflexivity. Qed.
Lemma controls_hidden : sanitize_provider_text (cp "a<<SYS>>b<|im_start|>c[INST]d if x < y [1]") = cp "abcd if x < y [1]".
Proof. vm_compute. reflexivity. Qed.
Lemma sentinel_cuts : sanitize_provider_text (cp "Sure. Output ONLY the summary text") = cp "Sure. ".
Proof. vm_compute. reflexivity. Qed.
