(* ===== verification/Gateway.v ===== *)
(** * The LLM gateway

    [LLMGateway] of [backend/app/llm/gateway.py]: the request it sends (wire
    messages, portable tool names, cache directives), how it reads a provider's
    stream ([stream_tools], [stream], [chat]: the reasoning guard, tool-call
    fragments, usage, the classification signal), how it maps vendor faults to typed
    errors, and the embedding reply and its cache ([embed]).

    LiteLLM is a parameter: what [acompletion] and [aembedding] answer to a request.
    So are [json.loads] and [json.dumps], SHA-256, [urlparse] and the HMAC of the
    cache scopes.  Spans and logs are left out. *)

From stdpp Require Import base list strings sorting.
From Stdlib Require Import Lia ZArith QArith.
From S2P Require Import Prelude Json ToolSchema ToolWire Tools Cron Context ChatStream ChatTurn Reasoning.
Open Scope Z_scope.

(** ** Vendor faults *)

(** The [Retry-After] header as [float] reads it: milliseconds, or not a finite
    number, or an exception on the way. *)
Inductive header_number := Seconds (ms : Z) | NotFinite | Unreadable.

Inductive vendor_error :=
| BadRequestError | NotFoundError | RateLimitError (retry_after : option header_number)
| Timeout | APIConnectionError | InternalServerError | ServiceUnavailableError
| APIError | UnexpectedError.

Definition class_name (e : vendor_error) : pystr :=
  match e with
  | BadRequestError => cp "BadRequestError" | NotFoundError => cp "NotFoundError"
  | RateLimitError _ => cp "RateLimitError" | Timeout => cp "Timeout"
  | APIConnectionError => cp "APIConnectionError" | InternalServerError => cp "InternalServerError"
  | ServiceUnavailableError => cp "ServiceUnavailableError" | APIError => cp "APIError"
  | UnexpectedError => cp "Exception"
  end.

Definition _retry_after_hint (header : option header_number) : option Z :=
  match header with Some (Seconds ms) => if 0 <=? ms then Some ms else None | _ => None end.

Definition _map_vendor_error (e : vendor_error) : exn :=
  let vendor := class_name e in
  let fault := mk_fault (cp "llm_unavailable") (cp "The model provider is unavailable (" ++ vendor ++ cp ").") in
  match e with
  | BadRequestError | NotFoundError =>
      AppError 422 (cp "Unprocessable Entity") (cp "llm_bad_request")
        (Some (cp "The model request was rejected (" ++ vendor ++ cp ")."))
  | RateLimitError header => LlmProviderError fault true (_retry_after_hint header)
  | Timeout | APIConnectionError | InternalServerError | ServiceUnavailableError => LlmProviderError fault true None
  | APIError | UnexpectedError => LlmProviderError fault false None
  end.

Definition llm_unconfigured : exn :=
  DependencyError (cp "LLM provider is not configured (OPENROUTER_API_KEY is blank).") (cp "llm_unconfigured").

(** ** What a provider sends *)

(** A tool-call fragment; without a [function] its name and arguments are [None]. *)
Record fragment := mk_fragment {
  fr_index : option Z; fr_id : option pystr; fr_name : option pystr; fr_arguments : option pystr
}.
Record vendor_usage := mk_vendor_usage {
  vu_prompt_tokens : json; vu_completion_tokens : json; vu_total_tokens : json;
  vu_details : option (json * json);  (* cached_tokens, cache_write_tokens *)
  vu_cache_read_input_tokens : json; vu_cache_creation_input_tokens : json
}.
Record vendor_choice := mk_choice {
  ch_content : option pystr; ch_fragments : list fragment; ch_finish_reason : option pystr
}.
Record vendor_part := mk_part { pt_usage : option vendor_usage; pt_choices : list vendor_choice }.

(** [acompletion(stream=True)]: refused, or the parts with the fault that ends them. *)
Inductive provider_stream :=
| Refused (e : vendor_error)
| Streamed (parts : list vendor_part) (fault : option vendor_error).

(** The keyword arguments of the call. *)
Record wire_request := mk_request {
  wq_model : pystr; wq_messages : list json; wq_tools : option (list json);
  wq_extra : dict; wq_api_key : pystr; wq_api_base : option pystr
}.

Record settings := mk_settings {
  st_openrouter_api_key : pystr; st_llm_model : pystr; st_chat_prompt_cache_enabled : bool
}.

Class Vendor := {
  loads : pystr -> res bool json;   (* [Err true]: [ValueError]; [Err false]: another exception *)
  dumps : json -> pystr;
  sha256_name : pystr -> pystr;
  unicode_digit : N -> option Z;
  hostname : pystr -> option (option pystr);   (* [None]: [ValueError] *)
  cache_scopes : uuid -> uuid -> uuid -> pystr * pystr
}.

Section gateway.
Context `{Unicode} `{SchemaLib} `{Vendor}.

(** ** The request *)

(** [str.removeprefix] *)
Definition drop_prefix (p s : pystr) : pystr := if py_startswith p s then drop (length p) s else s.

Definition _openrouter_model (model : pystr) (api_base : option pystr) : option pystr :=
  if bool_decide (model = []) then None
  else
    let lowered := str_lower model in
    match api_base with
    | Some base =>
        match hostname base with
        | None => None
        | Some host =>
            let host := str_lower (default [] host) in
            if negb (bool_decide (host = cp "openrouter.ai")) && negb (py_endswith (cp ".openrouter.ai") host)
            then None else Some (drop_prefix (cp "openrouter/") lowered)
        end
    | None =>
        if py_startswith (cp "openrouter/") lowered then Some (drop 11 lowered) else None
    end.

Inductive family := Anthropic | OpenAI.
Definition _cache_family (model : pystr) (api_base : option pystr) : option family :=
  match _openrouter_model model api_base with
  | None => None
  | Some raw =>
      let upstream := (py_partition SLASH raw).1 in
      if bool_decide (upstream = cp "anthropic") then Some Anthropic
      else if bool_decide (upstream = cp "openai") then Some OpenAI else None
  end.

Definition provider_message (names : ToolNameMap) (m : ChatMessage) : ChatMessage :=
  mk_message (m_role m) (m_content m)
    ((fun c => mk_call (tc_id c) (to_wire names (tc_name c)) (tc_arguments c)) <$> m_tool_calls m)
    (m_tool_call_id m) (to_wire names <$> m_name m) (m_source_document_ids m).

Definition wire_call (c : ToolCall) : json :=
  JObj [(cp "id", JStr (tc_id c)); (cp "type", JStr (cp "function"));
        (cp "function", JObj [(cp "name", JStr (tc_name c)); (cp "arguments", JStr (dumps (JObj (tc_arguments c))))])].

Definition _to_wire_messages (messages : list ChatMessage) : list dict :=
  (fun m =>
     [(cp "role", JStr (role_value (m_role m))); (cp "content", JStr (m_content m))]
     ++ (if bool_decide (m_tool_calls m = []) then [] else [(cp "tool_calls", JArr (wire_call <$> m_tool_calls m))])
     ++ (match m_tool_call_id m with Some i => [(cp "tool_call_id", JStr i)] | None => [] end)
     ++ (match m_name m with Some n => [(cp "name", JStr n)] | None => [] end)) <$> messages.

(** [_wrappable] *)
Definition wrappable (entry : dict) : bool :=
  match dict_get (cp "content") entry with Some (JStr (_ :: _)) => true | _ => false end.
Definition wrap (entry : dict) : dict :=
  match dict_get (cp "content") entry with
  | Some text =>
      dict_set (cp "content")
        (JArr [JObj [(cp "type", JStr (cp "text")); (cp "text", text);
                     (cp "cache_control", JObj [(cp "type", JStr (cp "ephemeral"))])]]) entry
  | None => entry
  end.
(** The last wrappable entry of a list, marked. *)
Fixpoint wrap_last (wire : list dict) : option (list dict) :=
  match wire with
  | [] => None
  | e :: wire =>
      match wrap_last wire with
      | Some wire' => Some (e :: wire')
      | None => if wrappable e then Some (wrap e :: wire) else None
      end
  end.
Definition _apply_cache_directives (wire : list dict) (f : option family) : list dict :=
  match f, wire with
  | Some Anthropic, e :: rest => (if wrappable e then wrap e else e) :: default rest (wrap_last rest)
  | _, _ => wire
  end.

(** A turn as the chat runtime asks for it; the ids scope the provider's cache. *)
Record tool_turn_request := mk_turn_request {
  tq_call : model_call; tq_ids : option (uuid * uuid * uuid)
}.

Definition credentials (g : settings) (api_key : option pystr) : pystr := default (st_openrouter_api_key g) api_key.
Definition enabled (g : settings) : bool := negb (blank (st_openrouter_api_key g)).

(** What [stream_tools] sends, with the map that reads the names back. *)
Definition build_request (g : settings) (q : tool_turn_request) : res exn (ToolNameMap * wire_request) :=
  let c := tq_call q in
  let route := mc_route c in
  let model_id := str_or (mr_model route) (st_llm_model g) in
  let scoped :=
    match tq_ids q with
    | Some ids => if st_chat_prompt_cache_enabled g && bool_decide (is_Some (_openrouter_model model_id (mr_api_base route)))
                  then Some ids else None
    | None => None
    end in
  let f := match scoped with Some _ => _cache_family model_id (mr_api_base route) | None => None end in
  let hints :=
    match scoped with
    | Some (tenant, user, session) =>
        let '(partition, sticky) := cache_scopes tenant user session in
        [(cp "extra_body",
          JObj ((cp "session_id", JStr sticky)
                :: match f with Some OpenAI => [(cp "prompt_cache_key", JStr partition)] | _ => [] end))]
    | None => []
    end in
  let extra :=
    (match mc_tool_choice c with Some t => [(cp "tool_choice", JStr t)] | None => [] end)
    ++ (match mc_max_tokens c with Some n => [(cp "max_tokens", JInt n)] | None => [] end) ++ hints in
  match provider_tools sha256_name (mc_tools c)
          (mc_messages c ≫= (fun m => (tc_name <$> m_tool_calls m) ++ option_list (m_name m))) with
  | Err code => Err (AppError 422 (cp "Unprocessable Entity") code (Some (cp "Provider tool name collision.")))
  | Ok (names, payload) =>
      Ok (names, mk_request model_id
        (JObj <$> _apply_cache_directives (_to_wire_messages (provider_message names <$> mc_messages c)) f)
        (Some (tool_json <$> payload)) extra (credentials g (mr_api_key route)) (mr_api_base route))
  end.

(** ** Reading a stream *)

Definition _as_count (value : json) : Z :=
  match value with
  | JNull | JBool _ => 0
  | JInt n => Z.max 0 n
  | JFloat q => Z.max 0 (Z.quot (Qnum q) (Zpos (Qden q)))
  | JStr s => match py_int unicode_digit s with Some n => Z.max 0 n | None => 0 end
  | JArr _ | JObj _ => 0
  end.
(** [a or b] of counts. *)
Definition count_or (a b : Z) : Z := if a =? 0 then b else a.
Definition _extract_usage (usage : option vendor_usage) : TokenUsage :=
  match usage with
  | None => mk_tokens 0 0 0 0 0
  | Some u =>
      let prompt := _as_count (vu_prompt_tokens u) in
      let completion := _as_count (vu_completion_tokens u) in
      let detail f := match vu_details u with Some d => _as_count (f d) | None => 0 end in
      mk_tokens prompt completion (count_or (_as_count (vu_total_tokens u)) (prompt + completion))
        (count_or (detail fst) (_as_count (vu_cache_read_input_tokens u)))
        (count_or (detail snd) (_as_count (vu_cache_creation_input_tokens u)))
  end.

Record _ToolCallAccumulator := mk_acc { ac_id : pystr; ac_name : pystr; ac_args : pystr }.
(** [feed]: an absent or empty id or name keeps the one at hand. *)
Definition acc_feed (f : fragment) (a : _ToolCallAccumulator) : _ToolCallAccumulator :=
  mk_acc (str_or (default [] (fr_id f)) (ac_id a)) (str_or (default [] (fr_name f)) (ac_name a))
    (ac_args a ++ default [] (fr_arguments f)).
(** [build]; [None] where [json.loads] fails with something else than [ValueError]. *)
Definition acc_build (a : _ToolCallAccumulator) : option ToolCall :=
  let call d := Some (mk_call (ac_id a) (ac_name a) d) in
  if blank (ac_args a) then call []
  else match loads (ac_args a) with
       | Ok (JObj d) => call d
       | Ok _ | Err true => call []
       | Err false => None
       end.

Definition tool_acc := list (Z * _ToolCallAccumulator).
Fixpoint _accumulate_tool_call (f : fragment) (acc : tool_acc) : tool_acc :=
  let index := default 0 (fr_index f) in
  match acc with
  | [] => [(index, acc_feed f (mk_acc [] [] []))]
  | (i, a) :: acc => if i =? index then (i, acc_feed f a) :: acc else (i, a) :: _accumulate_tool_call f acc
  end.

Record reading := mk_reading {
  rd_guard : ReasoningGuard; rd_acc : tool_acc; rd_signalled : bool;
  rd_finish : option pystr; rd_usage : option TokenUsage
}.
Definition start_reading : reading := mk_reading new_guard [] false None None.

Definition text_event (text : pystr) : StreamEvent := mk_event text [] None None false.
Definition text_events (text : pystr) : list StreamEvent := match text with [] => [] | _ => [text_event text] end.
Definition signal : StreamEvent := mk_event [] [] None None true.

(** One part of [async for part in response]. *)
Definition read_part (r : reading) (p : vendor_part) : reading * list StreamEvent :=
  let usage := match pt_usage p with Some u => Some (_extract_usage (Some u)) | None => rd_usage r end in
  match pt_choices p with
  | [] => (mk_reading (rd_guard r) (rd_acc r) (rd_signalled r) (rd_finish r) usage, [])
  | c :: _ =>
      let '(guard, safe) := feed (rd_guard r) (default [] (ch_content c)) in
      let signals := negb (bool_decide (ch_fragments c = [])) && negb (rd_signalled r) in
      (mk_reading guard (foldl (fun acc f => _accumulate_tool_call f acc) (rd_acc r) (ch_fragments c))
         (rd_signalled r || signals)
         (if truthy (ch_finish_reason c) then ch_finish_reason c else rd_finish r) usage,
       text_events safe ++ if signals then [signal] else [])
  end.
Fixpoint read_parts (r : reading) (parts : list vendor_part) : reading * list StreamEvent :=
  match parts with
  | [] => (r, [])
  | p :: parts => let '(r, es) := read_part r p in let '(r', es') := read_parts r parts in (r', es ++ es')
  end.

Definition length_stop : pystr := cp "length".
(** The end of the text: a continuation never resumes hidden state. *)
Definition finish_text (r : reading) : reading * list StreamEvent :=
  if bool_decide (rd_finish r = Some length_stop) && negb (continuation_safe (rd_guard r))
  then (mk_reading (rd_guard r) (rd_acc r) (rd_signalled r) (Some (cp "stop")) (rd_usage r), [])
  else let '(guard, flushed) := flush (rd_guard r) in
       (mk_reading guard (rd_acc r) (rd_signalled r) (rd_finish r) (rd_usage r), text_events flushed).

(** [sorted(tool_acc.items())], built and read back to domain names. *)
Definition built_calls (names : ToolNameMap) (acc : tool_acc) : option (list ToolCall) :=
  mapM (fun ia => c ← acc_build ia.2; Some (mk_call (tc_id c) (from_wire names (tc_name c)) (tc_arguments c)))
    (py_sorted (fun a b : Z * _ToolCallAccumulator => a.1 <=? b.1) acc).

Definition final_event (r : reading) (calls : list ToolCall) : StreamEvent :=
  mk_event [] calls
    (Some (str_or (default [] (rd_finish r)) (if bool_decide (calls = []) then cp "stop" else cp "tool_calls")))
    (rd_usage r) false.

(** What the consumer of [stream_tools] gets. *)
Definition stream_events (g : settings) (provider : wire_request -> provider_stream) (q : tool_turn_request)
    : list StreamEvent * option exn :=
  if negb (enabled g) then ([], Some llm_unconfigured)
  else match build_request g q with
  | Err e => ([], Some e)
  | Ok (names, request) =>
      match provider request with
      | Refused e => ([], Some (_map_vendor_error e))
      | Streamed parts fault =>
          let '(r, events) := read_parts start_reading parts in
          match fault with
          | Some e => (events, Some (_map_vendor_error e))
          | None =>
              let '(r, tail) := finish_text r in
              match built_calls names (rd_acc r) with
              | Some calls => (events ++ tail ++ [final_event r calls], None)
              | None => (events ++ tail, Some OtherError)
              end
          end
      end
  end.

(** ** [stream] and [chat] *)

(** The request of a completion without tools. *)
Definition plain_request (g : settings) (messages : list ChatMessage) (model api_key api_base : option pystr)
    (extra : dict) : wire_request :=
  mk_request (str_or (default [] model) (st_llm_model g)) (JObj <$> _to_wire_messages messages) None extra
    (credentials g api_key) api_base.

(** The deltas of [stream], numbered from [index]; every part has a choice. *)
Fixpoint stream_chunks (guard : ReasoningGuard) (index : Z) (contents : list (option pystr))
    : ReasoningGuard * list (pystr * Z) :=
  match contents with
  | [] => (guard, [])
  | content :: contents =>
      let '(guard, safe) := feed guard (default [] content) in
      match safe with
      | [] => stream_chunks guard index contents
      | _ => let '(guard, chunks) := stream_chunks guard (index + 1) contents in (guard, (safe, index) :: chunks)
      end
  end.
Definition stream_completion (contents : list (option pystr)) : list (pystr * Z) :=
  let '(guard, chunks) := stream_chunks new_guard 0 contents in
  match (flush guard).2 with
  | [] => chunks
  | flushed => chunks ++ [(flushed, Z.of_nat (length chunks))]
  end.

Record Completion := mk_completion {
  cn_content : pystr; cn_model : pystr; cn_finish_reason : option pystr; cn_usage : TokenUsage;
  cn_content_filtered : bool
}.
(** The reply of a non-streamed call, read. *)
Definition read_completion (model : pystr) (choices : list vendor_choice) (usage : option vendor_usage)
    : res exn Completion :=
  match choices with
  | [] => Err OtherError   (* [choices[0]] *)
  | c :: _ =>
      let '(guard, out) := feed new_guard (default [] (ch_content c)) in
      let '(guard, flushed) := flush guard in
      Ok (mk_completion (out ++ flushed) model (ch_finish_reason c) (_extract_usage usage) (blocked guard))
  end.
Definition chat (g : settings)
    (provider : wire_request -> res vendor_error (list vendor_choice * option vendor_usage))
    (messages : list ChatMessage) (model api_key api_base : option pystr) (max_tokens : option Z) : res exn Completion :=
  if negb (enabled g) then Err llm_unconfigured
  else
    let request := plain_request g messages model api_key api_base
      (match max_tokens with Some n => [(cp "max_tokens", JInt n)] | None => [] end) in
    match provider request with
    | Err e => Err (_map_vendor_error e)
    | Ok (choices, usage) => read_completion (wq_model request) choices usage
    end.

(** ** Embeddings *)

Section embed.
(** A coordinate as [float] reads it, where that is a finite number. *)
Context {F : Type} (float_of : json -> option F).

Definition embedding_error (code : string) (detail : string) : exn := DependencyError (cp detail) (cp code).
Definition count_mismatch : exn := embedding_error "embedding_count_mismatch" "Embedding provider returned an unexpected result count.".
Definition dimension_mismatch : exn := embedding_error "embedding_dimension_mismatch" "Embedding provider returned an incompatible vector.".
Definition malformed_vector : exn := embedding_error "embedding_response_invalid" "Embedding provider returned a malformed vector.".
Definition malformed_response : exn := embedding_error "embedding_response_invalid" "Embedding provider returned a malformed response.".

(** A boolean is not a coordinate, nor is a value that is no number. *)
Definition coordinate (c : json) : option F :=
  match c with JInt _ | JFloat _ => float_of c | _ => None end.

Fixpoint _validate_vectors (vectors : list (list json)) (dimensions : nat) : res exn (list (list F)) :=
  match vectors with
  | [] => Ok []
  | v :: vectors =>
      guard_or dimension_mismatch (bool_decide (length v = dimensions))
        (match mapM coordinate v with
         | None => Err malformed_vector
         | Some v => rest ← _validate_vectors vectors dimensions; Ok (v :: rest)
         end)
  end.
Definition _validate_embedding_vectors (vectors : list (list json)) (expected_count dimensions : nat)
    : res exn (list (list F)) :=
  guard_or count_mismatch (bool_decide (length vectors = expected_count)) (_validate_vectors vectors dimensions).

(** An item of the reply: its index, and its vector where that is a sequence. *)
Record embedding_item := mk_item { ei_index : json; ei_embedding : option (list json) }.

(** The loop over the items, filling the slots. *)
Fixpoint place_items (data : list embedding_item) (ordered : list (option (list json)))
    : res exn (list (option (list json))) :=
  match data with
  | [] => Ok ordered
  | item :: data =>
      match ei_index item, ei_embedding item with
      | JInt i, Some v =>
          if (i <? 0) || (Z.of_nat (length ordered) <=? i) then Err malformed_response
          else match ordered !! Z.to_nat i with
               | Some None => place_items data (<[Z.to_nat i := Some v]> ordered)
               | _ => Err malformed_response
               end
      | _, _ => Err malformed_response
      end
  end.
Definition _ordered_embedding_vectors (data : option (list embedding_item)) (expected_count dimensions : nat)
    : res exn (list (list F)) :=
  match data with
  | None => Err malformed_response
  | Some data =>
      guard_or count_mismatch (bool_decide (length data = expected_count))
        (ordered ← place_items data (replicate expected_count None);
         guard_or malformed_response (forallb (fun v => bool_decide (is_Some v)) ordered)
           (_validate_embedding_vectors (omap id ordered) expected_count dimensions))
  end.

(** *** The query cache *)

(** Namespace, model, base, dimensions, digest of the text. *)
Definition _EmbedCacheKey : Type := pystr * pystr * pystr * Z * pystr.
Definition embed_cache : Type := list (_EmbedCacheKey * (Z * list F)).

Definition cache_drop (k : _EmbedCacheKey) (c : embed_cache) : embed_cache :=
  List.filter (fun e => negb (bool_decide (e.1 = k))) c.
Definition cache_find (k : _EmbedCacheKey) (c : embed_cache) : option (Z * list F) :=
  snd <$> List.find (fun e => bool_decide (e.1 = k)) c.

Definition _embed_cache_get (now ttl : Z) (k : _EmbedCacheKey) (c : embed_cache) : option (list F) * embed_cache :=
  match cache_find k c with
  | None => (None, c)
  | Some (stored_at, vector) =>
      if ttl <? now - stored_at then (None, cache_drop k c)
      else (Some vector, cache_drop k c ++ [(k, (stored_at, vector))])
  end.
(** [while len > max: popitem(last=False)] *)
Definition _embed_cache_put (now : Z) (max_entries : nat) (k : _EmbedCacheKey) (v : list F) (c : embed_cache) : embed_cache :=
  let c := cache_drop k c ++ [(k, (now, v))] in
  drop (length c - max_entries) c.
End embed.
End gateway.

(** ** What the consumer can rely on *)

Section facts.
Context `{Unicode} `{SchemaLib} `{Vendor}.

(** *** Texts *)

(** The provider's text, whatever its parts. *)
Definition part_content (p : vendor_part) : pystr :=
  match pt_choices p with [] => [] | c :: _ => default [] (ch_content c) end.
Definition texts (es : list StreamEvent) : pystr := mjoin (ev_text <$> es).

Lemma texts_app a b : texts (a ++ b) = texts a ++ texts b.
Proof. unfold texts. by rewrite fmap_app, join_app. Qed.
Lemma texts_text t : texts (text_events t) = t.
Proof. destruct t; [done|]. unfold texts. simpl. by rewrite app_nil_r. Qed.

Lemma read_part_text r p :
  rd_guard (read_part r p).1 = (feed (rd_guard r) (part_content p)).1
  /\ texts (read_part r p).2 = (feed (rd_guard r) (part_content p)).2.
Proof.
  unfold read_part, part_content. destruct (pt_choices p) as [|c cs]; [done|].
  destruct (feed _ _) as [guard safe]. simpl. split; [done|]. rewrite texts_app, texts_text.
  destruct (_ && _); by rewrite app_nil_r.
Qed.
Lemma read_parts_text r parts :
  rd_guard (read_parts r parts).1 = (feed (rd_guard r) (mjoin (part_content <$> parts))).1
  /\ texts (read_parts r parts).2 = (feed (rd_guard r) (mjoin (part_content <$> parts))).2.
Proof.
  revert r. induction parts as [|p parts IH]; intros r; [done|]. cbn [read_parts fmap list_fmap mjoin list_join].
  rewrite feed_app. destruct (read_part_text r p) as [E1 E2]. destruct (read_part r p) as [r1 e1].
  destruct (IH r1) as [E3 E4]. destruct (read_parts r1 parts) as [r2 e2]. cbn [fst snd] in *.
  rewrite texts_app, E2, E4, E3, E1. destruct (feed (rd_guard r) (part_content p)) as [g1 o1]. cbn [fst snd].
  by destruct (feed g1 _).
Qed.

(** *** Signals and tool calls *)

Lemma accumulate_ne f acc : _accumulate_tool_call f acc <> [].
Proof. destruct acc as [|[i a] acc]; simpl; [done|]. by destruct (_ =? _). Qed.
Lemma accumulate_all fs acc : fs <> [] -> foldl (fun acc f => _accumulate_tool_call f acc) acc fs <> [].
Proof.
  destruct fs as [|f fs] using rev_ind; [done|]. intros _. rewrite foldl_snoc. apply accumulate_ne.
Qed.
Lemma accumulate_keeps fs acc : acc <> [] -> foldl (fun acc f => _accumulate_tool_call f acc) acc fs <> [].
Proof. destruct fs; [done|]. intros _. by apply accumulate_all. Qed.

(** A reading that signalled a tool call has one to assemble, and says so. *)
Definition signalled_ok (r : reading) : Prop := rd_signalled r = true -> rd_acc r <> [].
Definition announces (r : reading) (es : list StreamEvent) : Prop :=
  Forall (fun e => ev_tool_calls e = [] /\ ev_finish_reason e = None /\ (ev_tool_call_started e = true -> rd_signalled r = true)) es.

Lemma text_events_announce r t : announces r (text_events t).
Proof. destruct t; repeat constructor. simpl. congruence. Qed.

Lemma read_part_signals r p :
  signalled_ok r -> signalled_ok (read_part r p).1 /\ announces (read_part r p).1 (read_part r p).2
    /\ (rd_signalled r = true -> rd_signalled (read_part r p).1 = true).
Proof.
  intros Hr. unfold read_part. destruct (pt_choices p) as [|c cs]; [split_and!; [done|constructor|done]|].
  destruct (feed _ _) as [guard safe]. unfold signalled_ok. simpl. split_and!.
  - intros [Hs|Hs]%orb_true_iff; [by apply accumulate_keeps, Hr|].
    apply andb_true_iff in Hs as [Hs _]. apply accumulate_all. by apply negb_true_iff, bool_decide_eq_false in Hs.
  - apply Forall_app. split; [apply text_events_announce|]. destruct (_ && _) eqn:E; [|constructor].
    repeat constructor. simpl. intros _. by rewrite orb_true_r.
  - intros ->. done.
Qed.
Lemma announces_mono r r' es :
  (rd_signalled r = true -> rd_signalled r' = true) -> announces r es -> announces r' es.
Proof. intros Hm Hes. eapply Forall_impl; [exact Hes|]. intros e (? & ? & He). split_and!; [done..|]. intros Hs. by apply Hm, He. Qed.
Lemma read_parts_signals r parts :
  signalled_ok r -> signalled_ok (read_parts r parts).1 /\ announces (read_parts r parts).1 (read_parts r parts).2
    /\ (rd_signalled r = true -> rd_signalled (read_parts r parts).1 = true).
Proof.
  revert r. induction parts as [|p parts IH]; intros r Hr; simpl; [split_and!; [done|constructor|done]|].
  destruct (read_part_signals r p Hr) as (G1 & G2 & G3). destruct (read_part r p) as [r1 e1].
  destruct (IH r1 G1) as (G4 & G5 & G6). destruct (read_parts r1 parts) as [r2 e2]. simpl in *.
  split_and!; [done| |auto]. apply Forall_app. split; [by eapply announces_mono|done].
Qed.

Lemma finish_text_frame r :
  rd_acc (finish_text r).1 = rd_acc r /\ rd_signalled (finish_text r).1 = rd_signalled r
  /\ announces (finish_text r).1 (finish_text r).2.
Proof.
  unfold finish_text. destruct (_ && _); [split_and!; [done..|constructor]|].
  destruct (flush _) as [guard flushed]. simpl. split_and!; [done..|]. apply text_events_announce.
Qed.

Lemma mapM_option_length {A B} (f : A -> option B) l k : mapM f l = Some k -> length k = length l.
Proof.
  revert k. induction l as [|x l IH]; intros k; simpl; [by intros [= <-]|].
  destruct (f x); simpl; [|done]. destruct (mapM f l); simpl; [|done]. intros [= <-]. simpl. by rewrite (IH _ eq_refl).
Qed.
Lemma built_calls_ne names acc calls : built_calls names acc = Some calls -> acc <> [] -> calls <> [].
Proof.
  intros E Hne ->. apply mapM_option_length in E. destruct acc as [|a acc]; [done|].
  pose proof (Permutation_length (py_sorted_perm (fun a b : Z * _ToolCallAccumulator => a.1 <=? b.1) (a :: acc))) as Hl.
  rewrite <-E in Hl. done.
Qed.

(** How a stream can go: refused before its first event, cut by a fault, or
    completed, its last event the only one that ends the turn. *)
Inductive streamed (g : settings) (provider : wire_request -> provider_stream) (q : tool_turn_request)
    : list StreamEvent -> option exn -> Prop :=
| streamed_refused e : streamed g provider q [] (Some e)
| streamed_cut names request parts fault :
    build_request g q = Ok (names, request) -> provider request = Streamed parts (Some fault) ->
    streamed g provider q (read_parts start_reading parts).2 (Some (_map_vendor_error fault))
| streamed_broken names request parts :
    build_request g q = Ok (names, request) -> provider request = Streamed parts None ->
    streamed g provider q
      ((read_parts start_reading parts).2 ++ (finish_text (read_parts start_reading parts).1).2) (Some OtherError)
| streamed_whole names request parts calls :
    build_request g q = Ok (names, request) -> provider request = Streamed parts None ->
    built_calls names (rd_acc (read_parts start_reading parts).1) = Some calls ->
    streamed g provider q
      ((read_parts start_reading parts).2 ++ (finish_text (read_parts start_reading parts).1).2
       ++ [final_event (finish_text (read_parts start_reading parts).1).1 calls]) None.

Lemma stream_events_streamed g provider q : streamed g provider q (stream_events g provider q).1 (stream_events g provider q).2.
Proof.
  unfold stream_events. destruct (negb (enabled g)); [constructor|].
  destruct (build_request g q) as [[names request]|e] eqn:Eb; [|constructor].
  destruct (provider request) as [e|parts fault] eqn:Ep; [constructor|].
  pose proof (streamed_cut g provider q names request parts) as Hcut.
  pose proof (streamed_broken g provider q names request parts Eb) as Hbroken.
  pose proof (streamed_whole g provider q names request parts) as Hwhole.
  destruct (read_parts start_reading parts) as [r events]. destruct fault as [f|]; [by apply Hcut|].
  destruct (finish_text_frame r) as (Ea & _). simpl in *. revert Hbroken Hwhole Ea. destruct (finish_text r) as [r' tail].
  simpl. intros Hbroken Hwhole ->. destruct (built_calls names (rd_acc r)) as [calls|] eqn:Ec; [by apply Hwhole|by apply Hbroken].
Qed.
Lemma stream_fault g provider q e : (stream_events g provider q).2 = Some e ->
  match e with AppError _ _ _ _ | LlmProviderError _ _ _ | OtherError => True | _ => False end.
Proof.
  unfold stream_events, build_request, llm_unconfigured. destruct (negb (enabled g)); [by intros [= <-]|].
  destruct (provider_tools _ _ _) as [[names payload]|code]; [|by intros [= <-]].
  destruct (provider _) as [f|parts fault]; [intros [= <-]; by destruct f|].
  destruct (read_parts start_reading parts) as [r events]. destruct fault as [f|]; [intros [= <-]; by destruct f|].
  destruct (finish_text r) as [r' tail]. destruct (built_calls names (rd_acc r')); [done|by intros [= <-]].
Qed.

(** *** The gateway as the chat runtime's provider *)

(** [provider n]: what LiteLLM answers to the [n]-th call; [timer n i]: whether the
    coalescer's timer beats its [i]-th event. *)
Definition gateway_llm (g : settings) (ids : option (uuid * uuid * uuid))
    (provider : nat -> wire_request -> provider_stream) (timer : nat -> nat -> bool)
    (resolve : nat -> pystr -> res exn ModelRoute) : Llm :=
  mk_llm (fun n c =>
    let '(events, e) := stream_events g (provider n) (mk_turn_request c ids) in
    mk_script (imap (fun i ev => (timer n i, ev)) events) (timer n (length events), e)) resolve.

Lemma elem_of_imap {A B} (f : nat -> A -> B) l y : y ∈ imap f l <-> exists i x, l !! i = Some x /\ y = f i x.
Proof.
  rewrite list_elem_of_lookup. setoid_rewrite list_lookup_imap. split.
  - intros (i & E). destruct (l !! i) as [x|] eqn:Ex; [|done]. injection E as <-. by exists i, x.
  - intros (i & x & E & ->). exists i. by rewrite E.
Qed.

(** C13: The gateway keeps the promise the chat runtime is built on, whatever
    LiteLLM sends: a stream that signals a tool call and completes ends with its tool
    calls, and a stream only ends in a typed error or an unclassified one. *)
Theorem gateway_is_classified g ids provider timer resolve :
  (forall n m, match resolve n m with
               | Ok _ | Err (AppError _ _ _ _) | Err (LlmProviderError _ _ _) | Err OtherError => True
               | _ => False
               end) ->
  Classified (gateway_llm g ids provider timer resolve).
Proof.
  intros Hres. constructor; [| |exact Hres]; intros n c; simpl.
  - pose proof (stream_events_streamed g (provider n) (mk_turn_request c ids)) as Hs.
    destruct (stream_events _ _ _) as [events e]. simpl in *. intros -> p Hp Hstart.
    inversion Hs as [| | |names request parts calls Hb Hprov Hcalls Ees]; subst.
    destruct (read_parts_signals start_reading parts) as (Hok & Han & _); [by intros ?|].
    destruct (finish_text_frame (read_parts start_reading parts).1) as (Ea & Esig & Hfin).
    set (r := (read_parts start_reading parts).1) in *. set (body := (read_parts start_reading parts).2) in *.
    assert (rd_signalled r = true) as Hr.
    { apply elem_of_imap in Hp as (i & ev & Hi & ->). simpl in Hstart. apply list_elem_of_lookup_2 in Hi.
      rewrite !elem_of_app, list_elem_of_singleton in Hi. unfold announces in *. rewrite Forall_forall in Han, Hfin.
      destruct Hi as [Hi|[Hi| ->]]; [|rewrite <-Esig|done].
      - by destruct (Han _ Hi) as (_ & _ & ?); auto.
      - by destruct (Hfin _ Hi) as (_ & _ & ?); auto. }
    exists (timer n (length (body ++ (finish_text r).2)), final_event (finish_text r).1 calls). split.
    + apply elem_of_imap. exists (length (body ++ (finish_text r).2)), (final_event (finish_text r).1 calls).
      split; [|done]. rewrite app_assoc. apply list_lookup_middle. done.
    + apply (built_calls_ne _ _ _ Hcalls), Hok, Hr.
  - destruct (stream_events _ _ _) as [events e] eqn:E. simpl. destruct e as [e|]; [|done].
    apply (stream_fault g (provider n) (mk_turn_request c ids) e). by rewrite E.
Qed.

(** *** Assembling tool calls *)

Definition fr_key (f : fragment) : Z := default 0 (fr_index f).
Definition part_fragments (p : vendor_part) : list fragment :=
  match pt_choices p with [] => [] | c :: _ => ch_fragments c end.
(** One call, read from its own fragments. *)
Definition own_fragments (i : Z) (fs : list fragment) : _ToolCallAccumulator :=
  foldl (fun a f => acc_feed f a) (mk_acc [] [] []) (List.filter (fun f => fr_key f =? i) fs).
Definition assembly (fs : list fragment) (acc : tool_acc) : Prop :=
  NoDup acc.*1 /\ (forall i, i ∈ acc.*1 <-> exists f, f ∈ fs /\ fr_key f = i)
  /\ Forall (fun ia => ia.2 = own_fragments ia.1 fs) acc.

Lemma read_parts_fragments r parts :
  rd_acc (read_parts r parts).1
    = foldl (fun acc f => _accumulate_tool_call f acc) (rd_acc r) (mjoin (part_fragments <$> parts)).
Proof.
  revert r. induction parts as [|p parts IH]; intros r; [done|]. cbn [read_parts fmap list_fmap mjoin list_join].
  rewrite foldl_app. specialize (IH (read_part r p).1). unfold read_part, part_fragments in *.
  destruct (pt_choices p) as [|c cs].
  - destruct (read_parts _ parts). exact IH.
  - destruct (feed _ _) as [guard safe]. cbn [fst] in IH. destruct (read_parts _ parts). exact IH.
Qed.
Lemma own_fragments_snoc i fs f :
  own_fragments i (fs ++ [f]) = if fr_key f =? i then acc_feed f (own_fragments i fs) else own_fragments i fs.
Proof.
  unfold own_fragments. rewrite List.filter_app. simpl. destruct (_ =? _); [by rewrite foldl_snoc|by rewrite app_nil_r].
Qed.

(** The buffer after one more fragment. *)
Lemma accumulate_spec f acc :
  (exists before a after, acc = before ++ (fr_key f, a) :: after /\ fr_key f ∉ before.*1
     /\ _accumulate_tool_call f acc = before ++ (fr_key f, acc_feed f a) :: after)
  \/ (fr_key f ∉ acc.*1 /\ _accumulate_tool_call f acc = acc ++ [(fr_key f, acc_feed f (mk_acc [] [] []))]).
Proof.
  induction acc as [|[i a] acc IH]; simpl; fold (fr_key f).
  { right. split; [by intros ?%elem_of_nil|done]. }
  destruct (i =? fr_key f) eqn:E; [apply Z.eqb_eq in E as ->|apply Z.eqb_neq in E].
  - left. exists [], a, acc. split_and!; [done|by intros ?%elem_of_nil|done].
  - destruct IH as [(before & b & after & -> & Hb & ->)|[Hn ->]].
    + left. exists ((i, a) :: before), b, after. split_and!; [done| |done].
      simpl. intros [?|?]%elem_of_cons; [congruence|done].
    + right. split; [|done]. intros [?|?]%elem_of_cons; [congruence|done].
Qed.
Lemma own_fragments_none i fs : (forall f, f ∈ fs -> fr_key f <> i) -> own_fragments i fs = mk_acc [] [] [].
Proof.
  induction fs as [|f fs IH] using rev_ind; intros Hf; [done|]. rewrite own_fragments_snoc.
  rewrite (proj2 (Z.eqb_neq _ _)); [apply IH; intros f' Hf'; apply Hf, elem_of_app; by left|].
  apply Hf, elem_of_app. right. by apply list_elem_of_singleton.
Qed.
Lemma assembly_step fs f acc : assembly fs acc -> assembly (fs ++ [f]) (_accumulate_tool_call f acc).
Proof.
  intros (Hnd & Hkeys & Hown). rewrite Forall_forall in Hown.
  destruct (accumulate_spec f acc) as [(before & a & after & -> & Hb & ->)|[Hn ->]].
  - rewrite fmap_app, fmap_cons in Hnd, Hkeys. simpl in Hnd, Hkeys. split_and!.
    + by rewrite fmap_app, fmap_cons.
    + intros i. rewrite fmap_app, fmap_cons. simpl. rewrite Hkeys. setoid_rewrite elem_of_app.
      setoid_rewrite list_elem_of_singleton. split; [intros (g & ? & ?); by exists g; auto|].
      intros (g & [?| ->] & <-); [by exists g|]. apply Hkeys, elem_of_app. right. by left.
    + apply NoDup_app in Hnd as (_ & Hdis & Hnd). apply NoDup_cons in Hnd as [Hna _].
      apply Forall_forall. intros [i b] Hi. simpl. rewrite own_fragments_snoc.
      apply elem_of_app in Hi as [Hi|[[= -> ->]|Hi]%elem_of_cons].
      * rewrite (proj2 (Z.eqb_neq _ _)); [apply (Hown (i, b)), elem_of_app; by left|].
        intros <-. apply Hb. by apply (list_elem_of_fmap_2 fst _ (fr_key f, b)).
      * rewrite Z.eqb_refl. f_equal. apply (Hown (fr_key f, a)), elem_of_app. right. by left.
      * rewrite (proj2 (Z.eqb_neq _ _)); [apply (Hown (i, b)), elem_of_app; right; by right|].
        intros <-. apply Hna. by apply (list_elem_of_fmap_2 fst _ (fr_key f, b)).
  - split_and!.
    + rewrite fmap_app. apply NoDup_app. split_and!; [done| |apply NoDup_singleton].
      by intros i Hi ->%list_elem_of_singleton.
    + intros i. rewrite fmap_app, elem_of_app, Hkeys. simpl. rewrite list_elem_of_singleton.
      setoid_rewrite elem_of_app. setoid_rewrite list_elem_of_singleton. split.
      * intros [(g & ? & ?)| ->]; [exists g|exists f]; auto.
      * intros (g & [?| ->] & <-); [left; by exists g|by right].
    + apply Forall_app. split.
      * apply Forall_forall. intros [i b] Hi. simpl. rewrite own_fragments_snoc, (proj2 (Z.eqb_neq _ _)); [by apply (Hown (i, b))|].
        intros <-. apply Hn. by apply (list_elem_of_fmap_2 fst _ (fr_key f, b)).
      * apply Forall_singleton. simpl. rewrite own_fragments_snoc, Z.eqb_refl. f_equal. symmetry.
        apply own_fragments_none. intros g Hg E. apply Hn, Hkeys. by exists g.
Qed.
Lemma assembled fs : assembly fs (foldl (fun acc f => _accumulate_tool_call f acc) [] fs).
Proof.
  induction fs as [|f fs IH] using rev_ind; [|rewrite foldl_snoc; by apply assembly_step].
  split_and!; [constructor| |constructor]. intros i. split; [by intros ?%elem_of_nil|by intros (f & ?%elem_of_nil & _)].
Qed.

Lemma sorted_keys (acc : tool_acc) :
  NoDup acc.*1 -> StronglySorted Z.lt (py_sorted (fun a b : Z * _ToolCallAccumulator => a.1 <=? b.1) acc).*1.
Proof.
  intros Hnd. set (leb := fun a b : Z * _ToolCallAccumulator => a.1 <=? b.1).
  assert (StronglySorted (fun a b => leb a b = true) (py_sorted leb acc)) as Hs.
  { apply Sorted_StronglySorted; [intros a b c; unfold leb; lia|apply py_sorted_sorted]. intros a b. unfold leb. lia. }
  assert (NoDup (py_sorted leb acc).*1) as Hn by (by rewrite (py_sorted_perm leb acc)).
  induction Hs as [|a l Hl IH Ha]; [constructor|]. rewrite fmap_cons in *. apply NoDup_cons in Hn as [Hn1 Hn2].
  constructor; [by apply IH|]. apply Forall_fmap. rewrite Forall_forall in *. intros b Hb. simpl.
  specialize (Ha b Hb). unfold leb in Ha. assert (a.1 <> b.1); [|lia].
  intros E. apply Hn1. rewrite E. by apply list_elem_of_fmap_2.
Qed.

(** C12: However a provider slices and interleaves its tool calls, the turn's last
    event has one call for each index, in the order of the indices, with the id, the
    name (read back from its wire form) and the arguments of that index's fragments
    alone. *)
Theorem tool_calls_are_assembled g provider q names request parts es :
  build_request g q = Ok (names, request) -> provider request = Streamed parts None ->
  stream_events g provider q = (es, None) ->
  exists ks calls reason usage,
    list.last es = Some (mk_event [] calls (Some reason) usage false)
    /\ StronglySorted Z.lt ks
    /\ (forall i, i ∈ ks <-> exists f, f ∈ mjoin (part_fragments <$> parts) /\ fr_key f = i)
    /\ Forall2 (fun i c => exists call,
         acc_build (own_fragments i (mjoin (part_fragments <$> parts))) = Some call
         /\ c = mk_call (tc_id call) (from_wire names (tc_name call)) (tc_arguments call)) ks calls.
Proof.
  intros Hb Hp Hs. pose proof (stream_events_streamed g provider q) as He. rewrite Hs in He. simpl in He.
  inversion He as [| | |names' request' ps calls Hb' Hprov Hcalls Ees]; subst.
  rewrite Hb in Hb'. injection Hb' as <- <-. rewrite Hp in Hprov. injection Hprov as <-.
  rewrite read_parts_fragments in Hcalls. destruct (assembled (mjoin (part_fragments <$> parts))) as (Hnd & Hkeys & Hown).
  set (acc := foldl _ _ _) in *. pose proof (py_sorted_perm (fun a b : Z * _ToolCallAccumulator => a.1 <=? b.1) acc) as Hperm.
  eexists (_.*1), calls, _, _. split_and!.
  - rewrite app_assoc, last_snoc. reflexivity.
  - apply (sorted_keys acc Hnd).
  - intros i. rewrite <-Hkeys. by rewrite Hperm.
  - apply mapM_Some_1 in Hcalls. rewrite <-Hperm in Hown. apply Forall2_fmap_l. clear Hs He Hnd Hkeys Hperm. clearbody acc. revert Hown.
    induction Hcalls as [|[i a] c l cs Hc _ IH]; [intros _; constructor|]. intros [Ha Hl]%Forall_cons. simpl in Ha, Hc. subst a.
    constructor; [|exact (IH Hl)]. simpl. destruct (acc_build _) as [call|]; [|done]. injection Hc as <-. by exists call.
Qed.

(** Text that a consumer has seen at some point of a stream. *)
Lemma streamed_texts g provider q es e parts fault :
  streamed g provider q es e ->
  (forall names request, build_request g q = Ok (names, request) -> provider request = Streamed parts fault) ->
  es = [] \/ exists tail, texts es = (feed new_guard (mjoin (part_content <$> parts))).2 ++ tail
    /\ (tail = [] \/ tail = (flush (feed new_guard (mjoin (part_content <$> parts))).1).2).
Proof.
  assert (forall ps, exists tail,
    texts ((read_parts start_reading ps).2 ++ (finish_text (read_parts start_reading ps).1).2)
      = (feed new_guard (mjoin (part_content <$> ps))).2 ++ tail
    /\ (tail = [] \/ tail = (flush (feed new_guard (mjoin (part_content <$> ps))).1).2)) as Hfin.
  { intros ps. destruct (read_parts_text start_reading ps) as [E1 E2]. simpl in E1, E2.
    rewrite texts_app, E2. eexists; split; [done|]. unfold finish_text. rewrite E1.
    destruct (_ && _); [by left|]. right. destruct (flush _) as [g1 fl]. cbn [snd]. by rewrite texts_text. }
  intros Hs Hp. destruct Hs as [e|names request ps f Hb Hprov|names request ps Hb Hprov|names request ps calls Hb Hprov _].
  - by left.
  - rewrite (Hp _ _ Hb) in Hprov. injection Hprov as <- _. right. exists []. rewrite app_nil_r.
    split; [|by left]. by destruct (read_parts_text start_reading parts).
  - rewrite (Hp _ _ Hb) in Hprov. injection Hprov as <- _. right. apply Hfin.
  - rewrite (Hp _ _ Hb) in Hprov. injection Hprov as <- _. right.
    rewrite app_assoc, texts_app. change (texts [_]) with (@nil N). rewrite app_nil_r. apply Hfin.
Qed.

(** C11: What a turn streams is the provider's text through the guard: a turn that
    completes has streamed exactly the sanitized text, unless its length cut hides
    something, when it says it stopped; and however the stream ends, no sentinel of an
    internal prompt has been streamed and nothing was added. *)
Theorem streamed_text_is_guarded g provider q names request parts fault :
  build_request g q = Ok (names, request) -> provider request = Streamed parts fault ->
  let '(es, e) := stream_events g provider q in
  let text := mjoin (part_content <$> parts) in
  ~ speaks_sentinel (texts es) /\ sublist (texts es) text
  /\ (e = None -> exists body calls reason usage, es = body ++ [mk_event [] calls (Some reason) usage false]
       /\ Forall (fun ev => ev_tool_calls ev = [] /\ ev_finish_reason ev = None) body
       /\ (reason = length_stop -> continuation_safe (feed new_guard text).1 = true)
       /\ (texts es = sanitize_provider_text text
            \/ reason = cp "stop" /\ texts es = (feed new_guard text).2)).
Proof.
  intros Hb Hp. pose proof (stream_events_streamed g provider q) as Hs.
  destruct (stream_events g provider q) as [es e]. simpl in Hs. set (text := mjoin _).
  assert (forall names' request', build_request g q = Ok (names', request') -> provider request' = Streamed parts fault) as Hp'.
  { intros names' request' E. rewrite Hb in E. by injection E as <- <-. }
  pose proof (streamed_texts g provider q es e parts fault Hs Hp') as Ht. fold text in Ht.
  pose proof (feed_listening new_guard [] text new_listening) as Hl.
  pose proof (each_flows feed_char held new_guard text feed_flows) as Hfl. fold (feed new_guard text) in Hfl.
  split_and!.
  - destruct Ht as [->|(tail & -> & [->| ->])].
    + apply (listening_out new_guard), new_listening.
    + rewrite app_nil_r. by eapply listening_out.
    + by apply flush_listening.
  - destruct Ht as [->|(tail & -> & Htail)]; [apply sublist_nil_l|]. etrans; [|exact Hfl].
    apply sublist_app; [done|]. destruct Htail as [->| ->]; [apply sublist_nil_l|apply flush_flows].
  - intros ->. inversion Hs as [| | |names' request' ps calls Hb' Hprov Hcalls Ees]; subst.
    rewrite (Hp' _ _ Hb') in Hprov. injection Hprov as <- ->.
    destruct (read_parts_signals start_reading parts) as (_ & Han & _); [by intros ?|].
    destruct (finish_text_frame (read_parts start_reading parts).1) as (_ & _ & Hfin).
    destruct (read_parts_text start_reading parts) as [E1 E2]. simpl in E1, E2. fold text in E1, E2.
    rewrite app_assoc. do 4 eexists. split_and!; [reflexivity| | |].
    + apply Forall_app. unfold announces in *. split; eapply Forall_impl; [exact Han| |exact Hfin|]; by intros ? (? & ? & _).
    + unfold finish_text. rewrite E1. destruct (continuation_safe (feed new_guard text).1) eqn:Es; [done|].
      rewrite andb_true_r. destruct (bool_decide _) eqn:Ef; simpl; [done|].
      destruct (flush _) as [g1 fl]. simpl. intros E. apply bool_decide_eq_false in Ef. exfalso. apply Ef.
      destruct (rd_finish _) as [[|c f]|]; simpl in E; try (by destruct (bool_decide _)).
      by rewrite E.
    + rewrite texts_app. change (texts [_]) with (@nil N). rewrite app_nil_r, texts_app, E2.
      unfold finish_text. rewrite E1. destruct (_ && _).
      * right. rewrite app_nil_r. done.
      * left. unfold sanitize_provider_text. destruct (feed new_guard text) as [g0 o0]. simpl.
        destruct (flush g0) as [g1 fl]. cbn [snd]. by rewrite texts_text.
Qed.

(** *** Embeddings *)

Section embed_facts.
Context {F : Type} (float_of : json -> option F).

Lemma validate_vectors_spec vs n r : _validate_vectors float_of vs n = Ok r <->
  Forall2 (fun v w => length v = n /\ mapM (coordinate float_of) v = Some w) vs r.
Proof.
  revert r. induction vs as [|v vs IH]; intros r; cbn [_validate_vectors].
  { split; [intros [= <-]; constructor|by inversion 1]. }
  rewrite guard_or_ok, bool_decide_eq_true. destruct (mapM _ v) as [w|] eqn:Ew.
  - rewrite bind_ok. split.
    + intros (Hl & rest & Hr & [= <-]). constructor; [done|by apply IH].
    + inversion 1 as [|? w' ? rest (Hl & Ew') Hr]; subst. split; [done|]. exists rest.
      split; [by apply IH|]. congruence.
  - split; [by intros [_ ?]|]. inversion 1 as [|? w' ? rest (Hl & Ew') Hr]; subst. congruence.
Qed.

(** The slots the items fill. *)
Definition fills (data : list embedding_item) (before after : list (option (list json))) : Prop :=
  length after = length before
  /\ (forall item, item ∈ data -> exists i v, ei_index item = JInt i /\ ei_embedding item = Some v
        /\ 0 <= i /\ before !! Z.to_nat i = Some None /\ after !! Z.to_nat i = Some (Some v))
  /\ NoDup (ei_index <$> data)
  /\ (forall k, JInt (Z.of_nat k) ∉ ei_index <$> data -> after !! k = before !! k).

Lemma place_items_spec data before after : place_items data before = Ok after -> fills data before after.
Proof.
  revert before. induction data as [|item data IH]; intros before; cbn [place_items].
  { intros [= <-]. split_and!; [done|by intros ? ?%elem_of_nil|constructor|done]. }
  destruct (ei_index item) as [| |i| | | |] eqn:Ei; try done. destruct (ei_embedding item) as [v|] eqn:Ev; [|done].
  destruct (_ || _) eqn:Eb; [done|]. apply orb_false_iff in Eb as [Hi%Z.ltb_ge Hn%Z.leb_gt].
  destruct (before !! Z.to_nat i) as [[?|]|] eqn:El; [done| |done].
  intros (Hlen & Hall & Hnd & Hrest)%IH. rewrite length_insert in Hlen.
  assert (JInt i ∉ ei_index <$> data) as Hni.
  { intros (item' & E & Hin)%list_elem_of_fmap. destruct (Hall item' Hin) as (i' & v' & E' & _ & Hi' & Hb & _).
    rewrite E' in E. injection E as ->. rewrite list_lookup_insert_eq in Hb; [done|]. by eapply lookup_lt_Some. }
  split_and!; [done| | |].
  - intros item' [->|Hin]%elem_of_cons.
    + exists i, v. split_and!; try done. rewrite Hrest by (by rewrite Z2Nat.id).
      apply list_lookup_insert_eq. by eapply lookup_lt_Some.
    + destruct (Hall item' Hin) as (i' & v' & E' & Ev' & Hi' & Hb & Ha). exists i', v'. split_and!; try done.
      destruct (decide (Z.to_nat i = Z.to_nat i')) as [E|E]; [|by rewrite list_lookup_insert_ne in Hb].
      assert (i = i') as -> by lia. exfalso. apply Hni. rewrite <-E'. by apply list_elem_of_fmap_2.
  - rewrite fmap_cons, Ei. by constructor.
  - intros k Hk. rewrite fmap_cons, Ei in Hk. apply not_elem_of_cons in Hk as [Hk1 Hk2].
    rewrite Hrest by done. apply list_lookup_insert_ne. intros <-. apply Hk1. by rewrite Z2Nat.id.
Qed.

Lemma omap_id_lookup {A} (l : list (option A)) k x :
  forallb (fun v => bool_decide (is_Some v)) l = true -> l !! k = Some (Some x) -> omap id l !! k = Some x.
Proof.
  revert k. induction l as [|o l IH]; intros k; [done|]. cbn [forallb]. intros [Ho Hl]%andb_true_iff.
  apply bool_decide_eq_true in Ho as [y ->]. destruct k as [|k]; simpl; [congruence|]. by apply IH.
Qed.

(** The embedding of a text is its own: an accepted reply has one item for each
    input, in whatever order, and the vector given for an input is the one of the item
    that carries its index, coordinate by coordinate, at the configured width. *)
Theorem embeddings_in_input_order data n dimensions vs :
  _ordered_embedding_vectors float_of (Some data) n dimensions = Ok vs ->
  length vs = n /\ length data = n /\ NoDup (ei_index <$> data)
  /\ forall item, item ∈ data -> exists i raw v,
       ei_index item = JInt i /\ 0 <= i < Z.of_nat n /\ ei_embedding item = Some raw
       /\ length raw = dimensions /\ mapM (coordinate float_of) raw = Some v /\ vs !! Z.to_nat i = Some v.
Proof.
  intros Hv. apply guard_or_ok in Hv as [Hlen%bool_decide_eq_true Hv].
  apply bind_ok in Hv as (ordered & (Hl & Hall & Hnd & _)%place_items_spec & Hv).
  apply guard_or_ok in Hv as [Hsome Hv]. apply guard_or_ok in Hv as [Hn%bool_decide_eq_true Hv].
  apply validate_vectors_spec in Hv. pose proof (Forall2_length _ _ _ Hv) as Hvl.
  rewrite length_replicate in Hl. split_and!; [congruence|done|done|].
  intros item Hin. destruct (Hall item Hin) as (i & raw & Ei & Ev & Hi & Hb & Ha).
  pose proof (omap_id_lookup ordered _ _ Hsome Ha) as Ho.
  destruct (Forall2_lookup_l _ _ _ _ _ Hv Ho) as (v & Ev' & Hraw & Hm). exists i, raw, v.
  split_and!; try done. apply lookup_lt_Some in Ha. lia.
Qed.

(** The cache answers what was put for the same tenant, text, model, base and width,
    while it is fresh, and never holds more than its bound. *)
Definition cache_ok (max_entries : nat) (c : embed_cache (F := F)) : Prop := NoDup c.*1 /\ (length c <= max_entries)%nat.

Lemma cache_drop_sublist k (c : embed_cache (F := F)) : sublist (cache_drop k c) c.
Proof.
  unfold cache_drop. induction c as [|e c IH]; simpl; [done|]. destruct (negb _); by constructor.
Qed.
Lemma cache_drop_fresh k (c : embed_cache (F := F)) : k ∉ (cache_drop k c).*1.
Proof.
  intros (e & -> & He)%list_elem_of_fmap. apply list_elem_of_In, filter_In in He as [_ He].
  by apply negb_true_iff, bool_decide_eq_false in He.
Qed.
Lemma cache_find_elem k (c : embed_cache (F := F)) x : cache_find k c = Some x -> (k, x) ∈ c.
Proof.
  unfold cache_find. destruct (List.find _ c) as [[k' x']|] eqn:E; [|done]. simpl. intros [= ->].
  apply find_some in E as [Hin E]. simpl in E. apply bool_decide_eq_true in E as ->. by apply list_elem_of_In.
Qed.
Lemma cache_find_fresh k (c : embed_cache (F := F)) x : k ∉ c.*1 -> cache_find k (c ++ [(k, x)]) = Some x.
Proof.
  intros Hk. unfold cache_find. induction c as [|[k' x'] c IH]; simpl; [by rewrite bool_decide_eq_true_2|].
  rewrite fmap_cons, not_elem_of_cons in Hk. destruct Hk as [Hne Hk]. rewrite bool_decide_eq_false_2 by (intros E; by apply Hne). by apply IH.
Qed.

Lemma cache_drop_length k x (c : embed_cache (F := F)) : (k, x) ∈ c -> (length (cache_drop k c) < length c)%nat.
Proof.
  unfold cache_drop. induction c as [|e c IH]; intros Hin; [by apply elem_of_nil in Hin|].
  apply elem_of_cons in Hin as [<-|Hin]; simpl.
  - rewrite bool_decide_eq_true_2 by done. simpl. pose proof (sublist_length _ _ (cache_drop_sublist k c)) as Hl.
    unfold cache_drop in Hl. lia.
  - destruct (negb _); simpl; specialize (IH Hin); lia.
Qed.
Lemma cache_get_ok now ttl k c n : cache_ok n c -> cache_ok n (_embed_cache_get now ttl k c).2.
Proof.
  intros [Hnd Hl]. unfold _embed_cache_get. destruct (cache_find k c) as [[t v]|] eqn:E; [|done].
  pose proof (cache_drop_length _ _ _ (cache_find_elem _ _ _ E)) as Hd.
  pose proof (fmap_sublist fst _ _ (cache_drop_sublist k c)) as Hs.
  destruct (ttl <? now - t); simpl; (split; [|rewrite ?length_app; simpl; lia]).
  - by eapply sublist_NoDup.
  - rewrite fmap_app. apply NoDup_app. split_and!; [by eapply sublist_NoDup| |apply NoDup_singleton].
    intros k' Hk' ->%list_elem_of_singleton. by apply cache_drop_fresh in Hk'.
Qed.
Lemma cache_put_ok now k (v : list F) c n : NoDup c.*1 -> cache_ok n (_embed_cache_put now n k v c).
Proof.
  intros Hnd. unfold _embed_cache_put. set (c' := cache_drop k c ++ [(k, (now, v))]).
  split; [|rewrite length_drop; lia].
  assert (NoDup c'.*1) as Hn.
  { unfold c'. rewrite fmap_app. apply NoDup_app. split_and!; [|intros k' Hk' ->%list_elem_of_singleton; by apply cache_drop_fresh in Hk'|apply NoDup_singleton].
    eapply sublist_NoDup; [exact Hnd|]. apply fmap_sublist, cache_drop_sublist. }
  rewrite fmap_drop. eapply sublist_NoDup; [exact Hn|apply sublist_drop].
Qed.
Lemma cache_put_get now now' ttl k (v : list F) c n :
  (0 < n)%nat -> now' - now <= ttl ->
  (_embed_cache_get now' ttl k (_embed_cache_put now n k v c)).1 = Some v.
Proof.
  intros Hn Hfresh. unfold _embed_cache_put. set (d := cache_drop k c).
  rewrite drop_app_le by (rewrite length_app; simpl; lia). unfold _embed_cache_get.
  rewrite cache_find_fresh.
  - by rewrite (proj2 (Z.ltb_ge _ _)) by lia.
  - intros Hk. apply (cache_drop_fresh k c). fold d. rewrite fmap_drop in Hk.
    rewrite <-(take_drop (length (d ++ [(k, (now, v))]) - n) d.*1). apply elem_of_app. by right.
Qed.
End embed_facts.
End facts.

(** ** Concrete inputs *)

#[local] Existing Instance demo_unicode.
#[local] Existing Instance demo_schema_lib.
#[local] Instance demo_vendor : Vendor := {|
  loads := fun s => if bool_decide (s = cp "{q:1}") then Ok (JObj [(cp "q", JInt 1)]) else Err true;
  dumps := fun _ => cp "{}"; sha256_name := fun s => s; unicode_digit := fun _ => None;
  hostname := fun _ => Some None; cache_scopes := fun _ _ _ => ([], [])
|}.
Definition demo_settings : settings := mk_settings (cp "key") (cp "m") true.
Definition demo_turn : tool_turn_request :=
  mk_turn_request (mk_model_call [mk_message USER (cp "Hi") [] None None None] [] (mk_route (cp "m") None None) None None) None.
Definition demo_names : ToolNameMap := mk_names [] [].
Definition demo_wire : wire_request :=
  mk_request (cp "m") [JObj [(cp "role", JStr (cp "user")); (cp "content", JStr (cp "Hi"))]] (Some []) [] (cp "key") None.

(** A reply that thinks aloud, then calls two tools, their fragments interleaved. *)
Definition demo_parts : list vendor_part :=
  let said text fs reason := mk_part None [mk_choice (Some text) fs reason] in
  [said (cp "Let me look. <thi") [] None; said (cp "nk>hm</think>") [] None;
   said [] [mk_fragment (Some 1) (Some (cp "b")) (Some (cp "read")) (Some (cp "{q"))] None;
   said [] [mk_fragment (Some 0) (Some (cp "a")) (Some (cp "find")) (Some (cp "{q:"));
            mk_fragment (Some 1) None None (Some (cp ":1}")); mk_fragment (Some 0) None None (Some (cp "1}"))]
     (Some (cp "tool_calls"))].
Definition demo_reply : wire_request -> provider_stream := fun _ => Streamed demo_parts None.

Example demo_request : build_request demo_settings demo_turn = Ok (demo_names, demo_wire).
Proof. vm_compute. reflexivity. Qed.
Example demo_streams :
  let '(es, e) := stream_events demo_settings demo_reply demo_turn in
  e = None /\ texts es = cp "Let me look. "
  /\ (es ≫= ev_tool_calls) = [mk_call (cp "a") (cp "find") [(cp "q", JInt 1)]; mk_call (cp "b") (cp "read") [(cp "q", JInt 1)]].
Proof. vm_compute. done. Qed.

Definition demo_events : list StreamEvent := (stream_events demo_settings demo_reply demo_turn).1.
Lemma demo_streamed : stream_events demo_settings demo_reply demo_turn = (demo_events, None).
Proof. unfold demo_events. vm_compute. reflexivity. Qed.

Theorem gateway_is_classified_witness :
  Classified (gateway_llm demo_settings None (fun _ => demo_reply) (fun _ _ => false) (fun _ m => Ok (mk_route m None None))).
Proof. apply gateway_is_classified. done. Defined.

Theorem streamed_text_is_guarded_witness :
  ~ speaks_sentinel (texts (stream_events demo_settings demo_reply demo_turn).1).
Proof.
  pose proof (streamed_text_is_guarded demo_settings demo_reply demo_turn _ _ _ _ demo_request eq_refl) as Hg.
  destruct (stream_events _ _ _). apply Hg.
Defined.

Theorem tool_calls_are_assembled_witness :
  exists ks calls reason usage,
    list.last demo_events = Some (mk_event [] calls (Some reason) usage false) /\ StronglySorted Z.lt ks
    /\ length ks = length calls.
Proof.
  pose proof (tool_calls_are_assembled demo_settings demo_reply demo_turn demo_names demo_wire demo_parts
    demo_events demo_request eq_refl demo_streamed) as (ks & calls & reason & usage & Hl & Hs & _ & Hc).
  exists ks, calls, reason, usage. split; [exact Hl|]. split; [exact Hs|]. exact (Forall2_length _ _ _ Hc).
Defined.

(** Vectors of width two, out of order. *)
Definition demo_float (c : json) : option Z := match c with JInt n => Some n | _ => None end.
Definition demo_items : list embedding_item :=
  [mk_item (JInt 1) (Some [JInt 3; JInt 4]); mk_item (JInt 0) (Some [JInt 1; JInt 2])].
Theorem embeddings_in_input_order_witness :
  _ordered_embedding_vectors demo_float (Some demo_items) 2 2 = Ok [[1; 2]; [3; 4]] /\ NoDup (ei_index <$> demo_items).
Proof.
  assert (_ordered_embedding_vectors demo_float (Some demo_items) 2 2 = Ok [[1; 2]; [3; 4]]) as E by reflexivity.
  split; [exact E|]. apply (embeddings_in_input_order demo_float _ _ _ _ E).
Defined.
Example demo_twice : _ordered_embedding_vectors demo_float (Some [mk_item (JInt 0) (Some [JInt 1]); mk_item (JInt 0) (Some [JInt 2])]) 2 1
  = Err malformed_response.
Proof. reflexivity. Qed.
Example demo_boolean : _ordered_embedding_vectors demo_float (Some [mk_item (JInt 0) (Some [JBool true])]) 1 1 = Err malformed_vector.
Proof. reflexivity. Qed.
