(* ===== verification/Media.v ===== *)
(** * Media timelines: audio plans, stitched transcripts, transcript evidence

    [backend/app/ingestion/media.py] without its FFmpeg processes: the probe of a
    container, the plan of overlapping audio chunks, the stitching of their
    transcriptions, the segments of a transcript, the names inferred for its
    speakers, its retrieval chunks; the response parser of
    [backend/app/llm/openrouter_stt.py]; and what [TranscriptRepository]
    ([backend/app/db/repositories.py]) accepts.

    Times are integer milliseconds.  Floats (seconds, confidences) are rationals,
    so [round(seconds * 1000)] is rounding to even of the exact product.  The
    regular expressions are data ([rx]) with a backtracking matcher.  Parameters
    ([MediaHost]): [str.casefold] and [float] on a string; [uuid4] is a stream of
    ids, which need not be distinct. *)

From stdpp Require Import base list strings sets gmap sorting pretty.
From Stdlib Require Import Lia ZArith QArith.
From S2P Require Import Prelude Json Chunking Reasoning Context.
Open Scope Z_scope.

(** ** Data *)

Record TranscriptionWord := mk_word {
  wd_text : pystr; wd_start_ms : Z; wd_end_ms : Z; wd_speaker_label : pystr; wd_confidence : option Q
}.
Record Transcription := mk_transcription {
  tr_text : pystr; tr_words : list TranscriptionWord; tr_language : option pystr; tr_model : pystr
}.

Record MediaProbe := mk_probe {
  mp_kind : pystr; mp_duration_ms : Z; mp_has_audio : bool; mp_has_video : bool; mp_audio_offset_ms : Z
}.
Record MediaSpan := mk_span { sp_index : Z; sp_start_ms : Z; sp_end_ms : Z }.
#[global] Instance MediaSpan_eq_dec : EqDecision MediaSpan.
Proof. solve_decision. Defined.
Record ChunkTranscription := mk_chunk_transcription { ct_span : MediaSpan; ct_result : Transcription }.
Record StitchedWord := mk_stitched {
  sw_text : pystr; sw_start_ms : Z; sw_end_ms : Z; sw_speaker_id : pystr; sw_confidence : option Q
}.
Record TranscriptSegmentDraft := mk_segment {
  sg_id : uuid; sg_ordinal : Z; sg_speaker_id : pystr; sg_start_ms : Z; sg_end_ms : Z;
  sg_char_start : Z; sg_char_end : Z; sg_text : pystr; sg_confidence : option Q
}.
Inductive SpeakerNameStatus := UNKNOWN | INFERRED.
Inductive SpeakerNameMethod := SELF_INTRODUCTION | CONTEXTUAL_DIALOGUE.
Record SpeakerIdentity := mk_identity {
  si_speaker_id : pystr; si_display_name : option pystr; si_status : SpeakerNameStatus;
  si_confidence : option Q; si_method : option SpeakerNameMethod; si_evidence_segment_ids : list uuid
}.
Record TranscriptChunkDraft := mk_draft {
  td_text : pystr; td_char_start : Z; td_char_end : Z; td_time_start_ms : Z; td_time_end_ms : Z;
  td_transcript_segment_id : option uuid; td_speaker_id : option pystr; td_speaker_name : option pystr
}.

(** [MediaProcessingError], [ValueError], [InvalidTranscriptionResponse]: the message. *)
Notation mres := (res pystr).
Definition media_error {A} (message : string) : mres A := Err (cp message).
Arguments media_error {A} message%_string.

(** ** The plan of the audio chunks *)

Section plan.
Variables duration_ms max_chunk_ms overlap_ms : Z.

(** The [while] loop; [None] only when the fuel runs out. *)
Fixpoint plan_loop (fuel : nat) (index start : Z) : option (list MediaSpan) :=
  match fuel with
  | O => None
  | S fuel =>
      if start <? duration_ms then
        let end_ := Z.min duration_ms (start + max_chunk_ms) in
        let span := mk_span index start end_ in
        if end_ =? duration_ms then Some [span]
        else rest ← plan_loop fuel (index + 1) (end_ - overlap_ms); Some (span :: rest)
      else Some []
  end.
Definition plan_fuel : nat := S (S (Z.to_nat (duration_ms / (max_chunk_ms - overlap_ms)))).
Definition plan_audio_chunks : option (mres (list MediaSpan)) :=
  if (duration_ms <=? 0) || (max_chunk_ms <=? 0)
  then Some (media_error "audio duration and chunk size must be positive")
  else if (overlap_ms <=? 0) || (max_chunk_ms <=? overlap_ms)
  then Some (media_error "audio chunk overlap must be positive and smaller than the chunk size")
  else Ok <$> plan_loop plan_fuel 0 0.
End plan.

(** ** Stitching *)

Class MediaHost := {
  casefold : pystr -> pystr;
  (** [float(s)] where that is a finite number *)
  float_of_str : pystr -> option Q
}.

(** A word on the file's time axis. *)
Record GlobalWord := mk_global {
  gw_text : pystr; gw_start : Z; gw_end : Z; gw_label : pystr; gw_confidence : option Q
}.

(** The positions of the elements that satisfy [p]. *)
Definition positions {A} (p : A -> bool) (l : list A) : list nat :=
  List.filter (fun i => match l !! i with Some x => p x | None => false end) (seq 0 (length l)).

Notation score := (Z * Z)%type.
(** A cell of the table: its score and the step that gave it. *)
Notation cell := (Z * Z * Z)%type.
(** Tuples compare from the left. *)
Definition cell_leb (a b : cell) : bool :=
  let '(ac, ad, as_) := a in let '(bc, bd, bs) := b in
  (ac <? bc) || (ac =? bc) && ((ad <? bd) || (ad =? bd) && (as_ <=? bs)).
Definition cell_max (a b : cell) : cell := if cell_leb b a then a else b.

Definition min_key (a b : nat * nat) : nat * nat :=
  if (a.1 <? b.1)%nat || ((a.1 =? b.1)%nat && (a.2 <=? b.2)%nat) then a else b.

Section stitch.
Context `{Unicode} `{MediaHost}.

(** [re.sub(r"[^\w']+", "", text.casefold())] *)
Definition _normal_word (text : pystr) : pystr := List.filter (fun c => is_word c || N.eqb c 39) (casefold text).

(** *** Alignment of the words two chunks share *)

Definition intersects (lo hi : Z) (w : GlobalWord) : bool := (gw_start w <? hi) && (lo <? gw_end w).
Definition jitter (p c : GlobalWord) : Z := Z.abs (gw_start c - gw_start p) + Z.abs (gw_end c - gw_end p).
Definition matchable (p c : GlobalWord) : bool :=
  negb (bool_decide (_normal_word (gw_text p) = []))
  && bool_decide (_normal_word (gw_text p) = _normal_word (gw_text c))
  && (Z.abs (gw_start c - gw_start p) <=? 750) && (Z.abs (gw_end c - gw_end p) <=? 750).

Definition cell_of (p c : GlobalWord) (up left diag : score) : cell :=
  let best := cell_max (up, 0) (left, 1) in
  if matchable p c then cell_max best ((diag.1 + 1, diag.2 - jitter p c), 2) else best.
(** The row of [p], from the scores of the row before it ([diag], [up], ...). *)
Fixpoint row_from (p : GlobalWord) (previous : list score) (current : list GlobalWord) (left : score) : list cell :=
  match current, previous with
  | c :: current, diag :: (up :: _) as previous =>
      let x := cell_of p c up left diag in x :: row_from p previous current x.1
  | _, _ => []
  end.
Definition next_row (previous : list cell) (current : list GlobalWord) (p : GlobalWord) : list cell :=
  (0, 0, 0) :: row_from p previous.*1 current (0, 0).
Fixpoint table_from (row : list cell) (prior current : list GlobalWord) : list (list cell) :=
  row :: match prior with [] => [] | p :: prior => table_from (next_row row current p) prior current end.
Definition table (prior current : list GlobalWord) : list (list cell) :=
  table_from (replicate (S (length current)) (0, 0, 0)) prior current.
Definition step_at (t : list (list cell)) (row column : nat) : Z :=
  match t !! row ≫= (fun r => r !! column) with Some x => x.2 | None => 0 end.
(** The way back from a cell; [row + column] is enough fuel. *)
Fixpoint trace_back (fuel : nat) (t : list (list cell)) (row column : nat) (matches : list (nat * nat)) : list (nat * nat) :=
  match fuel, row, column with
  | S fuel, S row', S column' =>
      if step_at t row column =? 2 then trace_back fuel t row' column' ((row', column') :: matches)
      else if step_at t row column =? 1 then trace_back fuel t row column' matches
      else trace_back fuel t row' column matches
  | _, _, _ => matches
  end.
Definition _align_overlap_words (previous current : list GlobalWord) (overlap_start overlap_end : Z) : list (nat * nat) :=
  let prior := positions (intersects overlap_start overlap_end) previous in
  let following := positions (intersects overlap_start overlap_end) current in
  let words l positions := omap (fun i => l !! i) positions in
  let t := table (words previous prior) (words current following) in
  omap (fun '(row, column) => i ← prior !! row; j ← following !! column; Some (i, j))
    (trace_back (length prior + length following) t (length prior) (length following) []).

(** *** The loop over the chunks *)

(** [raw_global], [label_maps], [roots], [next_speaker]; the last chunk's words and
    labels are those at the end of the lists. *)
Notation key := (nat * nat)%type.
Record stitching := mk_stitching {
  st_raw : list (list GlobalWord);
  st_maps : list (list (pystr * pystr));
  st_roots : gmap (nat * nat) (nat * nat);
  st_next : Z
}.

Fixpoint global_words (span : MediaSpan) (duration_ms previous_start : Z) (words : list TranscriptionWord)
    : mres (list GlobalWord) :=
  match words with
  | [] => Ok []
  | w :: words =>
      guard_or (cp "provider word falls outside its audio chunk")
        ((0 <=? wd_start_ms w) && (wd_start_ms w <? wd_end_ms w) && (wd_end_ms w <=? sp_end_ms span - sp_start_ms span)
         && (previous_start <=? wd_start_ms w))
        (let start := sp_start_ms span + wd_start_ms w in
         let end_ := sp_start_ms span + wd_end_ms w in
         guard_or (cp "provider word falls outside media duration") (end_ <=? duration_ms)
           (rest ← global_words span duration_ms (wd_start_ms w) words;
            Ok (mk_global (wd_text w) start end_ (wd_speaker_label w) (wd_confidence w) :: rest)))
  end.

(** [counts[label][canonical] += 1] *)
Definition bump {V} (k : pystr) (f : option V -> V) (d : list (pystr * V)) : list (pystr * V) := dict_set k (f (dict_get k d)) d.
Definition count_link (label canonical : pystr) (counts : list (pystr * list (pystr * Z))) :=
  bump label (fun c => bump canonical (fun n => default 0 n + 1) (default [] c)) counts.
(** [Counter.most_common()] *)
Definition most_common (c : list (pystr * Z)) : list (pystr * Z) := py_sorted (fun a b => b.2 <=? a.2) c.
(** The label's candidate, when two words or more support it and no other as much. *)
Definition supported (c : list (pystr * Z)) : option (pystr * Z) :=
  match most_common c with
  | (canonical, n) :: rest =>
      if (2 <=? n) && match rest with [] => true | (_, m) :: _ => m <? n end then Some (canonical, n) else None
  | [] => None
  end.
(** [sorted(ranked, reverse=True)]: by (score, label, canonical), the greatest first. *)
Definition ranked_leb (a b : Z * pystr * pystr) : bool :=
  let '(an, al, ac) := a in let '(bn, bl, bc) := b in
  (bn <? an) || (bn =? an) && (negb (str_leb al bl) || bool_decide (al = bl) && str_leb bc ac).
Fixpoint claim_labels (ranked : list (Z * pystr * pystr)) (claimed : list pystr) (mapping : list (pystr * pystr))
    : list (pystr * pystr) :=
  match ranked with
  | [] => mapping
  | (_, label, canonical) :: ranked =>
      if mem canonical claimed then claim_labels ranked claimed mapping
      else claim_labels ranked (canonical :: claimed) (dict_set label canonical mapping)
  end.
Definition speaker_name (n : Z) : pystr := cp "speaker-" ++ cp (pretty n).
Fixpoint fresh_labels (labels : list pystr) (next : Z) (mapping : list (pystr * pystr)) : list (pystr * pystr) * Z :=
  match labels with
  | [] => (mapping, next)
  | label :: labels =>
      match dict_get label mapping with
      | Some _ => fresh_labels labels next mapping
      | None => fresh_labels labels (next + 1) (dict_set label (speaker_name next) mapping)
      end
  end.

(** One match counted.  Every label of the chunk before is mapped, so the default
    is never used. *)
Definition add_link (prior_map : list (pystr * pystr)) (previous current : list GlobalWord)
    (counts : list (pystr * list (pystr * Z))) (m : nat * nat) : list (pystr * list (pystr * Z)) :=
  match previous !! m.1, current !! m.2 with
  | Some p, Some c => count_link (gw_label c) (default [] (dict_get (gw_label p) prior_map)) counts
  | _, _ => counts
  end.
(** The labels of a chunk that an adjacent one identifies. *)
Definition linked_labels (prior_map : list (pystr * pystr)) (previous current : list GlobalWord) (matches : list (nat * nat))
    : list (pystr * pystr) :=
  let counts := foldl (add_link prior_map previous current) [] matches in
  let ranked := omap (fun '(label, candidates) =>
    '(canonical, n) ← supported candidates; Some (n, label, canonical)) counts in
  claim_labels (py_sorted ranked_leb ranked) [] [].
Definition link_roots (chunk : nat) (matches : list (nat * nat)) (roots : gmap (nat * nat) (nat * nat)) : gmap (nat * nat) (nat * nat) :=
  foldl (fun roots '(i, j) =>
    let prior : nat * nat := ((chunk - 1)%nat, i) in <[(chunk, j) := default prior (roots !! prior)]> roots) roots matches.

Definition stitch_step (duration_ms : Z) (st : stitching) (prior_end : Z) (item : ChunkTranscription) : mres stitching :=
  words ← global_words (ct_span item) duration_ms (-1) (tr_words (ct_result item));
  match words with
  | [] => media_error "provider returned an empty transcription chunk"
  | _ =>
      let chunk := length (st_raw st) in
      let '(mapping, roots) :=
        match last (st_raw st), last (st_maps st) with
        | Some previous, Some prior_map =>
            let matches := _align_overlap_words previous words (sp_start_ms (ct_span item)) prior_end in
            (linked_labels prior_map previous words matches, link_roots chunk matches (st_roots st))
        | _, _ => ([], st_roots st)
        end in
      let '(mapping, next) := fresh_labels (py_fromkeys (gw_label <$> words)) (st_next st) mapping in
      Ok (mk_stitching (st_raw st ++ [words]) (st_maps st ++ [mapping]) roots next)
  end.
Fixpoint stitch_loop (duration_ms : Z) (st : stitching) (prior_end : Z) (items : list ChunkTranscription) : mres stitching :=
  match items with
  | [] => Ok st
  | item :: items =>
      st ← stitch_step duration_ms st prior_end item; stitch_loop duration_ms st (sp_end_ms (ct_span item)) items
  end.

(** The spans are checked before any word is. *)
Fixpoint check_spans (duration_ms expected : Z) (prior_end : option Z) (items : list ChunkTranscription) : mres unit :=
  match items with
  | [] => Ok tt
  | item :: items =>
      let s := ct_span item in
      guard_or (cp "transcription chunks are missing or out of order")
        ((sp_index s =? expected) && (0 <=? sp_start_ms s) && (sp_start_ms s <? sp_end_ms s))
        (guard_or (cp "transcription chunk exceeds media duration") (sp_end_ms s <=? duration_ms)
          (guard_or (cp "adjacent transcription chunks do not overlap")
            (match prior_end with Some e => sp_start_ms s <? e | None => true end)
            (check_spans duration_ms (expected + 1) (Some (sp_end_ms s)) items)))
  end.

(** *** One word for each utterance *)

Definition word_at (raw : list (list GlobalWord)) (k : key) : option GlobalWord := raw !! k.1 ≫= (fun l => l !! k.2).
Fixpoint boundaries (spans : list MediaSpan) : list Z :=
  match spans with
  | s :: (s' :: _) as rest => (sp_end_ms s + sp_start_ms s') / 2 :: boundaries rest
  | _ => []
  end.
Definition is_owned (duration_ms : Z) (bounds : list Z) (raw : list (list GlobalWord)) (k : key) : bool :=
  match word_at raw k with
  | Some w =>
      let start := if (k.1 =? 0)%nat then 0 else default 0 (bounds !! (k.1 - 1)%nat) in
      let end_ := if (k.1 =? length raw - 1)%nat then duration_ms + 1 else default 0 (bounds !! k.1) in
      let middle := (gw_start w + gw_end w) / 2 in (start <=? middle) && (middle <? end_)
  | None => false
  end.
Definition all_keys (raw : list (list GlobalWord)) : list key :=
  mjoin (imap (fun i l => (fun j => (i, j)) <$> seq 0 (length l)) raw).
(** [observations[root].append(key)] *)
Fixpoint observe (root k : key) (obs : list (key * list key)) : list (key * list key) :=
  match obs with
  | [] => [(root, [k])]
  | (r, ks) :: obs => if decide (r = root) then (r, ks ++ [k]) :: obs else (r, ks) :: observe root k obs
  end.
Definition root_of (roots : gmap (nat * nat) (nat * nat)) (k : key) : key := default k (roots !! k).
Definition observations (roots : gmap (nat * nat) (nat * nat)) (raw : list (list GlobalWord)) : list (key * list key) :=
  foldl (fun obs k => observe (root_of roots k) k obs) [] (all_keys raw).
(** The canonical observation of an utterance; [None] where a word is dropped. *)
Definition pick (owned : key -> bool) (instances : list key) : option key :=
  match List.filter owned instances, instances with
  | [], [_] => None
  | [], k :: ks | k :: ks, _ => Some (foldl min_key k ks)
  | [], [] => None
  end.
Definition stitched_word (st : stitching) (k : key) : option StitchedWord :=
  w ← word_at (st_raw st) k; mapping ← st_maps st !! k.1;
  Some (mk_stitched (gw_text w) (gw_start w) (gw_end w) (default [] (dict_get (gw_label w) mapping)) (gw_confidence w)).
Definition word_leb (a b : StitchedWord) : bool :=
  (sw_start_ms a <? sw_start_ms b) || (sw_start_ms a =? sw_start_ms b) && (sw_end_ms a <=? sw_end_ms b).
Definition stitch_chunk_transcriptions (chunks : list ChunkTranscription) (duration_ms : Z) : mres (list StitchedWord) :=
  if (duration_ms <=? 0) || bool_decide (length chunks = 0%nat) then media_error "cannot stitch an empty media transcript"
  else
    let ordered := py_sorted (fun a b => sp_index (ct_span a) <=? sp_index (ct_span b)) chunks in
    check_spans duration_ms 0 None ordered ≫= (fun _ =>
    st ← stitch_loop duration_ms (mk_stitching [] [] ∅ 1) 0 ordered;
    let owned := is_owned duration_ms (boundaries (ct_span <$> ordered)) (st_raw st) in
    let stitched := py_sorted word_leb
      (omap (fun '(_, instances) => pick owned instances ≫= stitched_word st) (observations (st_roots st) (st_raw st))) in
    match stitched with [] => media_error "overlap stitching produced no words" | _ => Ok stitched end).
End stitch.

(** ** Segments *)

Section segments.
Context `{Unicode} `{MediaHost}.

(** [re.match(r"^[,.;:!?%\)\]}]", token)] and the characters a token clings to. *)
Definition closing : pystr := cp ",.;:!?%)]}".
Definition opening : pystr := cp "([{".
Definition join_token (text token : pystr) : pystr :=
  match py_strip token with
  | [] => text
  | (c :: _) as token =>
      if bool_decide (text = []) || mem c closing || match last text with Some o => mem o opening | None => false end
      then text ++ token else text ++ [32%N] ++ token
  end.
Definition _join_tokens (tokens : list pystr) : pystr := foldl join_token [] tokens.

(** The turns: consecutive words of one speaker without a long gap. *)
Fixpoint add_word (max_gap_ms : Z) (w : StitchedWord) (groups : list (list StitchedWord)) : list (list StitchedWord) :=
  match groups with
  | [] => [[w]]
  | [g] =>
      match last g with
      | Some v =>
          if negb (bool_decide (sw_speaker_id v = sw_speaker_id w)) || (max_gap_ms <? sw_start_ms w - sw_end_ms v)
          then [g; [w]] else [g ++ [w]]
      | None => [g; [w]]
      end
  | g :: groups => g :: add_word max_gap_ms w groups
  end.
Fixpoint group_words (max_gap_ms : Z) (groups : list (list StitchedWord)) (words : list StitchedWord)
    : mres (list (list StitchedWord)) :=
  match words with
  | [] => Ok groups
  | w :: words =>
      guard_or (cp "stitched word has invalid evidence")
        ((0 <=? sw_start_ms w) && (sw_start_ms w <? sw_end_ms w) && negb (blank (sw_text w)))
        (group_words max_gap_ms (add_word max_gap_ms w groups) words)
  end.
Definition min_list (l : list Z) : Z := match l with [] => 0 | x :: l => foldl Z.min x l end.
Definition max_list (l : list Z) : Z := match l with [] => 0 | x :: l => foldl Z.max x l end.
Definition mean (l : list Q) : option Q :=
  match l with [] => None | _ => Some (foldl Qplus 0 l / inject_Z (Z.of_nat (length l)))%Q end.
Fixpoint segments_from (ids : nat -> uuid) (drawn : nat) (ordinal cursor : Z) (groups : list (list StitchedWord))
    : list TranscriptSegmentDraft :=
  match groups with
  | [] => []
  | group :: groups =>
      let text := _join_tokens (sw_text <$> group) in
      match text with
      | [] => segments_from ids drawn (ordinal + 1) cursor groups
      | _ =>
          let char_end := cursor + Z.of_nat (length text) in
          mk_segment (ids drawn) ordinal (match group with w :: _ => sw_speaker_id w | [] => [] end)
            (min_list (sw_start_ms <$> group)) (max_list (sw_end_ms <$> group)) cursor char_end text
            (mean (omap sw_confidence group))
          :: segments_from ids (S drawn) (ordinal + 1) (char_end + 1) groups
      end
  end.
Definition build_transcript_segments (ids : nat -> uuid) (words : list StitchedWord) (max_gap_ms : Z)
    : mres (list TranscriptSegmentDraft) :=
  match words with
  | [] => media_error "cannot build transcript segments without words"
  | _ =>
      groups ← group_words max_gap_ms [] words;
      match segments_from ids 0 0 0 groups with
      | [] => media_error "transcript segmentation produced no text"
      | segments => Ok segments
      end
  end.

(** ** Names *)

(** *** Regular expressions *)

Inductive rx :=
| Cls (p : N -> bool)
| Many (p : N -> bool)        (* a greedy star of one class *)
| Nil
| Cat (r s : rx)
| Alt (r s : rx)
| Opt (r : rx)
| Grp (r : rx)                (* the group the code reads *)
| Bol | Eol                   (* [^], [$] *)
| Ahead (r : rx)
| Edge.                       (* [\b] *)

(** Where the matcher stands: the text before, backwards, and the text after. *)
Notation place := (pystr * pystr)%type.
Definition word_before (s : pystr) : bool := match s with c :: _ => is_word c | [] => false end.
Fixpoint rx_many {A} (p : N -> bool) (k : place -> option A) (before after : pystr) : option A :=
  match after with
  | c :: after' =>
      if p c then match rx_many p k (c :: before) after' with Some x => Some x | None => k (before, after) end
      else k (before, after)
  | [] => k (before, after)
  end.
(** The first way to match [r] from [s] after which [k] succeeds. *)
Fixpoint rx_match {A} (r : rx) (s : place) (group : pystr) (k : place -> pystr -> option A) : option A :=
  match r with
  | Cls p => match s.2 with c :: after => if p c then k (c :: s.1, after) group else None | [] => None end
  | Many p => rx_many p (fun s => k s group) s.1 s.2
  | Nil => k s group
  | Cat r1 r2 => rx_match r1 s group (fun s group => rx_match r2 s group k)
  | Alt r1 r2 => match rx_match r1 s group k with Some x => Some x | None => rx_match r2 s group k end
  | Opt r => match rx_match r s group k with Some x => Some x | None => k s group end
  | Grp r => rx_match r s group (fun s' _ => k s' (reverse (take (length s'.1 - length s.1) s'.1)))
  | Bol => if bool_decide (s.1 = []) then k s group else None
  | Eol => if bool_decide (s.2 = [] \/ s.2 = [10%N]) then k s group else None
  | Ahead r => if bool_decide (is_Some (rx_match r s group (fun _ _ => Some tt))) then k s group else None
  | Edge => if xorb (word_before s.1) (word_before s.2) then k s group else None
  end.

(** [pattern.finditer(text)], [pattern.search(text)]: the groups.  After an empty
    match the search moves on by a character. *)
Fixpoint rx_finditer (fuel : nat) (r : rx) (s : place) : list pystr :=
  match fuel with
  | O => []
  | S fuel =>
      let next (s : place) := match s.2 with [] => [] | c :: after => rx_finditer fuel r (c :: s.1, after) end in
      match rx_match r s [] (fun s' group => Some (s', group)) with
      | Some (s', group) => group :: (if Nat.eqb (length s'.1) (length s.1) then next s' else rx_finditer fuel r s')
      | None => next s
      end
  end.
Fixpoint rx_search (r : rx) (before after : pystr) : option pystr :=
  match rx_match r (before, after) [] (fun _ group => Some group) with
  | Some group => Some group
  | None => match after with [] => None | c :: after => rx_search r (c :: before) after end
  end.
Definition rx_fullmatch (r : rx) (s : pystr) : bool :=
  bool_decide (is_Some (rx_match r ([], s) [] (fun s' _ => if bool_decide (s'.2 = []) then Some tt else None))).

Fixpoint cat (l : list rx) : rx := match l with [] => Nil | [r] => r | r :: l => Cat r (cat l) end.
Fixpoint alt (l : list rx) : rx := match l with [] => Nil | [r] => r | r :: l => Alt r (alt l) end.
Definition some_of (p : N -> bool) : rx := Cat (Cls p) (Many p).
Definition one_of (s : string) (c : N) : bool := mem c (cp s).
(** A literal, and one under [(?i:...)]. *)
Definition lit (s : string) : rx := cat ((fun p => Cls (N.eqb p)) <$> cp s).
Definition lit_i (s : string) : rx := cat ((fun p => Cls (ci p)) <$> cp s).

(** *** The patterns *)

Definition upper (c : N) : bool := N.leb 65 c && N.leb c 90.
Definition name_char (c : N) : bool :=
  upper c || (N.leb 97 c && N.leb c 122) || N.eqb c 39 || N.eqb c 8217 || N.eqb c 45.
Definition _NAME_TOKEN : rx := Cat (Cls upper) (Many name_char).
Definition spaces : rx := some_of py_isspace.
Definition _FULL_NAME : rx :=
  let more := Cat spaces _NAME_TOKEN in Grp (Cat _NAME_TOKEN (Opt (Cat more (Opt more)))).
Definition sentence_start : rx := Alt Bol (Cat (Cls (one_of ".!?")) (Many py_isspace)).
Definition stop_ahead : rx := Ahead (Alt (Cls (one_of ",.!?")) Eol).
Definition comma_or_bang : rx := Opt (Cls (one_of ",!")).
Definition greeting : rx := alt [lit_i "hello"; lit_i "hi"; lit_i "hey"].
Definition _SELF_PATTERNS : list rx :=
  [cat [sentence_start; Opt (cat [lit_i "oh"; comma_or_bang; spaces]); Opt (cat [greeting; comma_or_bang; spaces]);
        lit_i "my name is"; spaces; _FULL_NAME; stop_ahead];
   cat [sentence_start; greeting; comma_or_bang; spaces; Alt (lit_i "i am") (lit_i "i'm"); spaces; _FULL_NAME; stop_ahead]].
Definition line_end : rx := cat [Opt (Cls (one_of ",.!?")); Many py_isspace; Eol].
Definition _ADDRESS_PATTERNS : list rx :=
  [cat [Bol; alt (lit_i <$> ["hello"; "hi"; "hey"; "thanks"; "thank you"; "welcome"]%string); some_of (one_of ",! ");
        _FULL_NAME; line_end];
   cat [Bol; lit_i "over to you"; some_of (one_of ",! "); _FULL_NAME; line_end];
   cat [Bol; _FULL_NAME; lit ","; spaces;
        alt (lit <$> ["can"; "could"; "would"; "will"; "are"; "is"; "do"; "did"; "please"; "thanks"; "thank"; "what"; "how"]%string);
        Edge]].
Definition _NON_NAMES : list pystr :=
  cp <$> ["everyone"; "everybody"; "team"; "folks"; "there"; "all"; "sir"; "madam"]%string.

(** [raw.strip(" ,.!?")] *)
Definition strip_of (chars : pystr) (s : pystr) : pystr :=
  let drop := drop_while (fun c => mem c chars) in reverse (drop (reverse (drop s))).
Definition _valid_name (raw : pystr) : option pystr :=
  let name := py_join [32%N] (py_words (strip_of (cp " ,.!?") raw)) in
  let parts := py_words name in
  if (1 <=? length parts)%nat && (length parts <=? 3)%nat
     && forallb (fun part => negb (mem (casefold part) _NON_NAMES) && rx_fullmatch _NAME_TOKEN part) parts
  then Some name else None.
(** The only element of a set. *)
Definition the_only (matches : list pystr) : option pystr :=
  match remove_dups matches with [x] => Some x | _ => None end.
Definition _self_name (text : pystr) : option pystr :=
  the_only (_SELF_PATTERNS ≫= (fun r => omap _valid_name (rx_finditer (S (length text)) r ([], text)))).
Definition _addressed_name (text : pystr) : option pystr :=
  the_only (omap (fun r => rx_search r [] text ≫= _valid_name) _ADDRESS_PATTERNS).

(** *** Inference *)

Record claim_of_name := mk_name_claim {
  nc_name : pystr; nc_confidence : Q; nc_method : SpeakerNameMethod; nc_evidence : list uuid
}.
Definition add_candidate (speaker : pystr) (c : claim_of_name) (d : list (pystr * list claim_of_name)) :=
  bump speaker (fun l => default [] l ++ [c]) d.
Definition self_introductions (ordered : list TranscriptSegmentDraft) (d : list (pystr * list claim_of_name)) :=
  foldl (fun d s =>
    match _self_name (sg_text s) with
    | Some name => add_candidate (sg_speaker_id s) (mk_name_claim name (98 # 100) SELF_INTRODUCTION [sg_id s]) d
    | None => d
    end) d ordered.
Fixpoint contextual_dialogue (ordered : list TranscriptSegmentDraft) (d : list (pystr * list claim_of_name)) :=
  match ordered with
  | s :: (response :: _) as rest =>
      contextual_dialogue rest
        (match _addressed_name (sg_text s) with
         | Some name =>
             if negb (bool_decide (sg_speaker_id response = sg_speaker_id s))
                && (0 <=? sg_start_ms response - sg_end_ms s) && (sg_start_ms response - sg_end_ms s <=? 10000)
             then add_candidate (sg_speaker_id response)
                    (mk_name_claim name (80 # 100) CONTEXTUAL_DIALOGUE [sg_id s; sg_id response]) d
             else d
         | None => d
         end)
  | _ => d
  end.
(** [max(values, key=lambda value: value[1])]: the first of the greatest. *)
Definition best_claim (c : claim_of_name) (l : list claim_of_name) : claim_of_name :=
  foldl (fun best x => if Qle_bool (nc_confidence x) (nc_confidence best) then best else x) c l.
(** The claims of a speaker that agree on one name. *)
Definition chosen_claim (values : list claim_of_name) : option claim_of_name :=
  match values with
  | [] => None
  | c :: l =>
      if forallb (fun x => bool_decide (casefold (nc_name x) = casefold (nc_name c))) l then Some (best_claim c l) else None
  end.
Definition chosen_names (d : list (pystr * list claim_of_name)) : list (pystr * claim_of_name) :=
  omap (fun '(speaker, values) => c ← chosen_claim values; Some (speaker, c)) d.
Definition infer_speaker_names (segments : list TranscriptSegmentDraft) : list SpeakerIdentity :=
  let ordered := py_sorted (fun a b => sg_ordinal a <=? sg_ordinal b) segments in
  let speakers := py_sorted str_leb (remove_dups (sg_speaker_id <$> ordered)) in
  let chosen := chosen_names (contextual_dialogue ordered (self_introductions ordered [])) in
  let duplicates name := length (List.filter (fun '(_, c) => bool_decide (casefold (nc_name c) = casefold name)) chosen) in
  (fun speaker =>
     match dict_get speaker chosen with
     | Some c =>
         if (1 <? duplicates (nc_name c))%nat then mk_identity speaker None UNKNOWN None None []
         else mk_identity speaker (Some (nc_name c)) INFERRED (Some (nc_confidence c)) (Some (nc_method c)) (nc_evidence c)
     | None => mk_identity speaker None UNKNOWN None None []
     end) <$> speakers.

(** ** Retrieval chunks *)

Definition transcript_text (segments : list TranscriptSegmentDraft) : mres pystr :=
  let text := py_join [10%N] (sg_text <$> segments) in
  guard_or (cp "transcript character offsets are inconsistent")
    (forallb (fun s => bool_decide (slice text (Z.to_nat (sg_char_start s)) (Z.to_nat (sg_char_end s)) = sg_text s)) segments)
    (Ok text).
Definition covers (c : TextChunk) (s : TranscriptSegmentDraft) : bool :=
  (Z.of_nat (ch_start c) <? sg_char_end s) && (sg_char_start s <? Z.of_nat (ch_end c)).
Definition build_draft (segments : list TranscriptSegmentDraft) (names : list (pystr * option pystr)) (duration_ms : Z)
    (c : TextChunk) : mres TranscriptChunkDraft :=
  let covered := List.filter (covers c) segments in
  match covered with
  | [] => media_error "retrieval chunk has no same-document transcript segment"
  | s :: rest =>
      let speaker := match remove_dups (sg_speaker_id <$> covered) with [x] => Some x | _ => None end in
      let start_ms := min_list (sg_start_ms <$> covered) in
      let end_ms := max_list (sg_end_ms <$> covered) in
      guard_or (cp "retrieval chunk has an invalid timestamp pair")
        ((0 <=? start_ms) && (start_ms <? end_ms) && (end_ms <=? duration_ms))
        (Ok (mk_draft (ch_text c) (Z.of_nat (ch_start c)) (Z.of_nat (ch_end c)) start_ms end_ms
               (match rest with [] => Some (sg_id s) | _ => None end) speaker
               (id ← speaker; default None (dict_get id names))))
  end.
Definition build_transcript_chunks (segments : list TranscriptSegmentDraft) (identities : list SpeakerIdentity)
    (duration_ms chunk_size overlap : Z) : option (mres (list TranscriptChunkDraft)) :=
  if bool_decide (length segments = 0%nat) || (duration_ms <=? 0)
  then Some (media_error "media transcript has no bounded segments")
  else if negb (bool_decide (NoDup (sg_id <$> segments)))
  then Some (media_error "transcript segment ids are not unique")
  else if negb (forallb (fun s => (0 <=? sg_start_ms s) && (sg_start_ms s <? sg_end_ms s) && (sg_end_ms s <=? duration_ms)) segments)
  then Some (media_error "transcript segment is outside media duration")
  else
    let names := foldl (fun d i => dict_set (si_speaker_id i) (si_display_name i) d) [] identities in
    match transcript_text segments with
    | Err e => Some (Err e)
    | Ok text =>
        chunks ← chunk_text text chunk_size overlap;
        Some (chunks ≫= mapR (build_draft segments names duration_ms))
    end.
End segments.

(** ** What the transcript repository accepts *)

Record TranscriptSpeakerInput := mk_speaker_input {
  ts_speaker_id : pystr; ts_display_name : option pystr; ts_name_status : pystr; ts_name_confidence : option Q;
  ts_name_method : option pystr; ts_evidence_segment_ids : list uuid
}.
Definition unit_interval (q : Q) : bool := Qle_bool 0 q && Qle_bool q 1.

Fixpoint check_segments (duration_ms prior_start char_start : Z) (speaker_ids : list pystr) (segments : list TranscriptSegmentDraft)
    : mres unit :=
  match segments with
  | [] => Ok tt
  | s :: segments =>
      guard_or (cp "transcript segment references an unknown speaker") (mem (sg_speaker_id s) speaker_ids)
        (guard_or (cp "transcript segment has an invalid time span")
          ((0 <=? sg_start_ms s) && (sg_start_ms s <? sg_end_ms s) && (sg_end_ms s <=? duration_ms))
          (guard_or (cp "transcript segment timing must be ordered") (prior_start <=? sg_start_ms s)
            (guard_or (cp "transcript character spans must match canonical text")
              ((sg_char_start s =? char_start) && (sg_char_end s =? sg_char_start s + Z.of_nat (length (sg_text s)))
               && negb (bool_decide (sg_text s = [])))
              (guard_or (cp "transcript segment confidence must be between zero and one")
                (match sg_confidence s with Some q => unit_interval q | None => true end)
                (check_segments duration_ms (sg_start_ms s) (sg_char_end s + 1) speaker_ids segments)))))
  end.
Definition check_speaker (segment_ids : list uuid) (s : TranscriptSpeakerInput) : mres unit :=
  guard_or (cp "speaker-name evidence ids must be unique") (bool_decide (NoDup (ts_evidence_segment_ids s)))
    (guard_or (cp "speaker-name evidence references an unknown segment")
      (forallb (fun i => mem i segment_ids) (ts_evidence_segment_ids s))
      (if bool_decide (ts_name_status s = cp "unknown") then
         guard_or (cp "unknown speakers cannot carry inferred-name evidence")
           (bool_decide (ts_display_name s = None) && match ts_name_confidence s with None => true | Some _ => false end
            && bool_decide (ts_name_method s = None) && bool_decide (ts_evidence_segment_ids s = [])) (Ok tt)
       else if bool_decide (ts_name_status s = cp "inferred") then
         guard_or (cp "inferred speaker names require coherent evidence")
           (match ts_display_name s with Some n => negb (blank n) | None => false end
            && match ts_name_confidence s with Some q => unit_interval q | None => false end
            && match ts_name_method s with Some m => mem m [cp "self_introduction"; cp "contextual_dialogue"] | None => false end
            && negb (bool_decide (ts_evidence_segment_ids s = []))) (Ok tt)
       else media_error "speaker name status is invalid")).
Definition same_set {A} `{EqDecision A} (l l' : list A) : bool := forallb (fun x => mem x l') l && forallb (fun x => mem x l) l'.

(** The checks of [TranscriptRepository.replace_for_document] on a document of this
    kind and duration. *)
Definition validate_transcript (kind : pystr) (duration_ms : option Z) (speakers : list TranscriptSpeakerInput)
    (segments : list TranscriptSegmentDraft) : mres unit :=
  let speaker_ids := ts_speaker_id <$> speakers in
  guard_or (cp "transcripts can only be stored for media documents") (mem kind [cp "audio"; cp "video"])
    (match duration_ms with
     | Some duration_ms =>
         guard_or (cp "media duration must be stored before its transcript") (0 <? duration_ms)
           (guard_or (cp "a media transcript must contain at least one segment") (negb (bool_decide (length segments = 0%nat)))
             (guard_or (cp "transcript speaker ids must be unique") (bool_decide (NoDup speaker_ids))
               (guard_or (cp "transcript segment ids must be unique") (bool_decide (NoDup (sg_id <$> segments)))
                 (guard_or (cp "transcript ordinals must be contiguous from zero")
                   (bool_decide (sg_ordinal <$> segments = Z.of_nat <$> seq 0 (length segments)))
                   (guard_or (cp "transcript speakers must exactly match segment speakers")
                     (same_set speaker_ids (sg_speaker_id <$> segments))
                     (check_segments duration_ms (-1) 0 speaker_ids segments ≫= (fun _ =>
                      mapR (check_speaker (sg_id <$> segments)) speakers ≫= (fun _ => Ok tt))))))))
     | None => media_error "media duration must be stored before its transcript"
     end).

Definition method_value (m : SpeakerNameMethod) : pystr :=
  match m with SELF_INTRODUCTION => cp "self_introduction" | CONTEXTUAL_DIALOGUE => cp "contextual_dialogue" end.
Definition name_status_value (s : SpeakerNameStatus) : pystr :=
  match s with UNKNOWN => cp "unknown" | INFERRED => cp "inferred" end.
(** What [_persist_media_result] passes for an identity. *)
Definition speaker_input (i : SpeakerIdentity) : TranscriptSpeakerInput :=
  mk_speaker_input (si_speaker_id i) (si_display_name i) (name_status_value (si_status i)) (si_confidence i)
    (method_value <$> si_method i) (si_evidence_segment_ids i).

(** ** Untrusted responses *)

(** [round] of a float: to the nearest integer, ties to even. *)
Definition py_round (q : Q) : Z :=
  let n := Qnum q in let d := Zpos (Qden q) in let f := n / d in
  match 2 * (n mod d) ?= d with Lt => f | Gt => f + 1 | Eq => if Z.even f then f else f + 1 end.
(** The binary64 float nearest to [q], ties to even; [None] when it overflows. *)
Definition binary64 (q : Q) : option Q :=
  let a := Z.abs (Qnum q) in let d := Zpos (Qden q) in
  if a =? 0 then Some 0%Q
  else
    let e0 := Z.log2 a - Z.log2 d in
    let e := if (if 0 <=? e0 then d * 2 ^ e0 <=? a else d <=? a * 2 ^ (- e0)) then e0 else e0 - 1 in
    let p := Z.max (e - 52) (-1074) in
    let m := py_round (if 0 <=? p then Qmake a (Z.to_pos (d * 2 ^ p)) else Qmake (a * 2 ^ (- p)) (Qden q)) in
    if (0 <=? p) && (2 ^ 1024 <=? m * 2 ^ p) then None
    else Some (if 0 <=? p then inject_Z (Z.sgn (Qnum q) * m * 2 ^ p)
               else Qred (Qmake (Z.sgn (Qnum q) * m) (Z.to_pos (2 ^ (- p))))).
(** [float(n)] of an integer, and the arithmetic of floats: [OverflowError] where no
    finite float is near. *)
Definition float_of_int (n : Z) : mres Q :=
  match binary64 (inject_Z n) with Some q => Ok q | None => media_error "int too large to convert to float" end.
Definition finite (q : option Q) : mres Q :=
  match q with Some q => Ok q | None => media_error "cannot convert float infinity to integer" end.
Definition to_ms (seconds : Q) : mres Z := q ← finite (binary64 (seconds * inject_Z 1000)); Ok (py_round q).

(** 0.1 is not a float; 1.0005 s and 0.0005 s are rounded to an even count. *)
Example binary64_tenth : binary64 (1 # 10) = Some (3602879701896397 # 36028797018963968).
Proof. reflexivity. Qed.
Example binary64_max : binary64 (inject_Z (2 ^ 1024 - 2 ^ 970 - 1)) = Some (inject_Z (2 ^ 1024 - 2 ^ 971))
  /\ binary64 (inject_Z (2 ^ 1024 - 2 ^ 970)) = None /\ binary64 (inject_Z (2 ^ 53 + 1)) = Some (inject_Z (2 ^ 53)).
Proof. by vm_compute. Qed.

Section responses.
Context `{Unicode} `{MediaHost}.

(** *** The transcription provider (llm/openrouter_stt.py) *)

Definition _number (field : string) (value : option json) : mres Q :=
  q ← match value with
      | Some (JInt n) => float_of_int n
      | Some (JFloat q) => Ok q
      | _ => Err (cp "transcription word " ++ cp field ++ cp " is not numeric")
      end;
  guard_or (cp "transcription word " ++ cp field ++ cp " is invalid") (Qle_bool 0 q) (Ok q).
Definition parse_speaker (raw : option json) : mres pystr :=
  let missing := cp "transcription word had no speaker label" in
  match raw with
  | Some (JInt n) => guard_or missing (0 <=? n) (Ok (speaker_name n))
  | Some (JStr s) => guard_or missing (negb (blank s)) (Ok (py_strip s))
  | _ => Err missing
  end.
Definition parse_confidence (raw : option json) : mres (option Q) :=
  match raw with
  | None | Some JNull => Ok None
  | Some _ => q ← _number "confidence" raw; guard_or (cp "transcription confidence is outside 0..1") (Qle_bool q 1) (Ok (Some q))
  end.
Definition parse_word (previous_start : Z) (raw : json) : mres TranscriptionWord :=
  match raw with
  | JObj d =>
      match match dict_get (cp "text") d with Some v => Some v | None => dict_get (cp "word") d end with
      | Some (JStr text) =>
          guard_or (cp "transcription word had no text") (negb (blank text))
            (speaker ← parse_speaker (dict_get (cp "speaker") d);
             start ← _number "start" (dict_get (cp "start") d);
             start_ms ← to_ms start;
             end_ ← _number "end" (dict_get (cp "end") d);
             end_ms ← to_ms end_;
             guard_or (cp "transcription word has an empty/reversed span") (start_ms <? end_ms)
               (guard_or (cp "transcription words are not ordered") (previous_start <=? start_ms)
                 (confidence ← parse_confidence (dict_get (cp "confidence") d);
                  Ok (mk_word (py_strip text) start_ms end_ms speaker confidence))))
      | _ => media_error "transcription word had no text"
      end
  | _ => media_error "transcription word was not an object"
  end.
Fixpoint parse_words (previous_start : Z) (raws : list json) : mres (list TranscriptionWord) :=
  match raws with
  | [] => Ok []
  | raw :: raws => w ← parse_word previous_start raw; ws ← parse_words (wd_start_ms w) raws; Ok (w :: ws)
  end.
Definition _parse_response (payload : json) (model : pystr) : mres Transcription :=
  match payload with
  | JObj d =>
      match dict_get (cp "text") d with
      | Some (JStr text) =>
          guard_or (cp "transcription response had no text") (negb (blank text))
            (match dict_get (cp "words") d with
             | Some (JArr ((_ :: _) as raws)) =>
                 words ← parse_words (-1) raws;
                 match dict_get (cp "language") d with
                 | None | Some JNull => Ok (mk_transcription (py_strip text) words None model)
                 | Some (JStr l) =>
                     Ok (mk_transcription (py_strip text) words (if blank l then None else Some (py_strip l)) model)
                 | Some _ => media_error "transcription language is invalid"
                 end
             | _ => media_error "transcription response had no timestamped words"
             end)
      | _ => media_error "transcription response had no text"
      end
  | _ => media_error "transcription response was not an object"
  end.

(** *** The probe *)

Definition AUDIO_MIME_TYPES : list pystr :=
  [cp "audio/aac"; cp "audio/flac"; cp "audio/mp4"; cp "audio/mpeg"; cp "audio/ogg"; cp "audio/wav";
   cp "audio/webm"; cp "audio/x-wav"].
Definition VIDEO_MIME_TYPES : list pystr := [cp "video/mp4"; cp "video/webm"].
Definition _CONTAINER_FORMATS : list (pystr * list pystr) :=
  (fun '(t, l) => (cp t, cp <$> (l : list string))) <$>
  [("audio/aac", ["aac"]); ("audio/flac", ["flac"]); ("audio/mp4", ["mov"; "mp4"; "m4a"]); ("audio/mpeg", ["mp3"]);
   ("audio/ogg", ["ogg"]); ("audio/wav", ["wav"]); ("audio/webm", ["matroska"; "webm"]); ("audio/x-wav", ["wav"]);
   ("video/mp4", ["mov"; "mp4"]); ("video/webm", ["matroska"; "webm"])]%string.

(** [mime_type.split(";", 1)[0].strip().lower()] *)
Definition normalized_mime (mime : pystr) : pystr := str_lower (py_strip (py_partition 59%N mime).1).

Definition _finite_number (allow_negative : bool) (value : option json) : mres (option Q) :=
  number ← match value with
           | Some (JStr s) => Ok (float_of_str s)
           | Some (JInt n) => q ← float_of_int n; Ok (Some q)
           | Some (JFloat q) => Ok (Some q)
           | _ => Ok None
           end;
  Ok (q ← number; if allow_negative || Qle_bool 0 q then Some q else None).
(** The numbers under a key of the streams. *)
Definition numbers_of (allow_negative : bool) (k : pystr) (streams : list (list (pystr * json))) : mres (list Q) :=
  match mapR (fun d => _finite_number allow_negative (dict_get k d)) streams with
  | Ok qs => Ok (omap id qs)
  | Err e => Err e
  end.
Definition as_obj (v : json) : option (list (pystr * json)) := match v with JObj d => Some d | _ => None end.
Definition codec_is (t : string) (d : list (pystr * json)) : bool := bool_decide (dict_get (cp "codec_type") d = Some (JStr (cp t))).
(** A video stream that is not artwork. *)
Definition moving (d : list (pystr * json)) : bool :=
  match dict_get (cp "disposition") d with
  | Some (JObj p) =>
      match dict_get (cp "attached_pic") p with
      | Some (JInt n) => negb (n =? 1)
      | Some (JFloat q) => negb (Qeq_bool q 1)
      | _ => true
      end
  | _ => true
  end.
Definition q_min (a b : Q) : Q := if Qle_bool a b then a else b.
Definition q_max (a b : Q) : Q := if Qle_bool b a then a else b.
Definition _parse_probe (payload : json) (mime_type : pystr) (max_duration_ms : Z) : mres MediaProbe :=
  let normalized := normalized_mime mime_type in
  kind ← (if mem normalized AUDIO_MIME_TYPES then Ok (cp "audio") else if mem normalized VIDEO_MIME_TYPES then Ok (cp "video")
          else media_error "unsupported media MIME type");
  match payload with
  | JObj d =>
      match dict_get (cp "streams") d, dict_get (cp "format") d with
      | Some (JArr streams), Some (JObj format) =>
          match dict_get (cp "format_name") format with
          | Some (JStr format_name) =>
              let detected := (fun v => str_lower (py_strip v)) <$> py_split 44%N format_name in
              guard_or (cp "media container does not match its declared MIME type")
                (existsb (fun f => mem f (default [] (dict_get normalized _CONTAINER_FORMATS))) detected)
                (let typed := omap as_obj streams in
                 let audio := List.filter (codec_is "audio") typed in
                 let video := List.filter moving (List.filter (codec_is "video") typed) in
                 match audio with
                 | [] => media_error "media has no decodable audio stream"
                 | first :: _ =>
                     guard_or (cp "declared video has no decodable video stream")
                       (negb (bool_decide (kind = cp "video") && bool_decide (length video = 0%nat)))
                       (guard_or (cp "declared audio contains a video stream")
                         (negb (bool_decide (kind = cp "audio") && negb (bool_decide (length video = 0%nat))))
                         (format_duration ← _finite_number false (dict_get (cp "duration") format);
                          duration ← match format_duration with
                                     | Some q => Ok (Some q)
                                     | None => qs ← numbers_of false (cp "duration") typed;
                                               Ok (match qs with [] => None | q :: qs => Some (foldl q_max q qs) end)
                                     end;
                          match duration with
                          | None => media_error "media duration is missing or empty"
                          | Some q =>
                              guard_or (cp "media duration is missing or empty") (negb (Qle_bool q 0))
                                (duration_ms ← to_ms q;
                                 guard_or (cp "media duration exceeds the configured limit")
                                   ((0 <? duration_ms) && (duration_ms <=? max_duration_ms))
                                   (starts ← numbers_of true (cp "start_time") (audio ++ video);
                                    format_start ← _finite_number true (dict_get (cp "start_time") format);
                                    let presentation :=
                                      match format_start with
                                      | Some q => q
                                      | None => match starts with [] => 0%Q | q :: qs => foldl q_min q qs end
                                      end in
                                    audio_start ← _finite_number true (dict_get (cp "start_time") first);
                                    lag ← finite (binary64 (default presentation audio_start - presentation));
                                    offset ← to_ms lag;
                                    guard_or (cp "audio starts outside the media duration") (offset <? duration_ms)
                                      (Ok (mk_probe kind duration_ms true (negb (bool_decide (length video = 0%nat))) offset))))
                          end))
                 end)
          | _ => media_error "media container format is missing"
          end
      | _, _ => media_error "ffprobe response omitted streams or format"
      end
  | _ => media_error "ffprobe response was not an object"
  end.
End responses.

(** ** Checkpoints (tasks/ingest.py) *)

Definition word_dict (w : TranscriptionWord) : json :=
  JObj [(cp "text", JStr (wd_text w)); (cp "start_ms", JInt (wd_start_ms w)); (cp "end_ms", JInt (wd_end_ms w));
        (cp "speaker_label", JStr (wd_speaker_label w));
        (cp "confidence", match wd_confidence w with Some q => JFloat q | None => JNull end)].
Definition _checkpoint_words (result : Transcription) : list json := word_dict <$> tr_words result.

Definition stored_confidence (raw : option json) : option (option Q) :=
  match raw with
  | None | Some JNull => Some None
  | Some (JInt n) => if unit_interval (inject_Z n) then Some (Some (inject_Z n)) else None
  | Some (JFloat q) => if unit_interval q then Some (Some q) else None
  | Some _ => None
  end.
Fixpoint stored_words (previous_start : Z) (raws : list json) : mres (list TranscriptionWord) :=
  match raws with
  | [] => Ok []
  | raw :: raws =>
      let d := match raw with JObj d => d | _ => [] end in
      match dict_get (cp "text") d, dict_get (cp "start_ms") d, dict_get (cp "end_ms") d, dict_get (cp "speaker_label") d,
            stored_confidence (dict_get (cp "confidence") d) with
      | Some (JStr text), Some (JInt start), Some (JInt end_), Some (JStr speaker), Some confidence =>
          guard_or (cp "stored transcription checkpoint is invalid")
            (negb (blank text) && (previous_start <=? start) && (0 <=? start) && (start <? end_) && negb (blank speaker))
            (rest ← stored_words start raws; Ok (mk_word (py_strip text) start end_ (py_strip speaker) confidence :: rest))
      | _, _, _, _, _ => media_error "stored transcription checkpoint is invalid"
      end
  end.
Definition _checkpoint_result (words : list json) (language : option pystr) (model : pystr) : mres Transcription :=
  words ← stored_words (-1) words;
  match words with
  | [] => media_error "stored transcription checkpoint is empty"
  | _ => Ok (mk_transcription (py_join [32%N] (wd_text <$> words)) words language model)
  end.

Definition _detected_language `{MediaHost} (results : list ChunkTranscription) : option pystr :=
  let values := omap (fun r => l ← tr_language (ct_result r); if blank l then None else Some (py_strip l)) results in
  let counts := foldl (fun d v => bump (casefold v) (fun n => default 0 n + 1) d) [] values in
  '(winner, _) ← head (most_common counts);
  List.find (fun v => bool_decide (casefold v = winner)) values.
