(* ===== verification/Stitching.v ===== *)
(** * Stitching overlapping transcriptions

    The theorems of the first half of [Media]: the plan of the audio chunks covers the
    file; the alignment of the audio two chunks share is optimal (the table against
    all matchings); the stitched transcript has every utterance once; speakers are
    never merged without evidence. *)

From stdpp Require Import base list strings sets gmap sorting pretty relations.
From Stdlib Require Import Lia ZArith QArith.
From S2P Require Import Prelude Json Chunking Grounding Reasoning Context Media.
Open Scope Z_scope.

(** ** The plan *)

Section plan_lemmas.
Variables duration_ms max_chunk_ms overlap_ms : Z.
Hypothesis Hover : 0 < overlap_ms < max_chunk_ms.

(** Spans that go on from [start] to the end. *)
Fixpoint planned (index start : Z) (spans : list MediaSpan) : Prop :=
  match spans with
  | [] => False
  | s :: rest =>
      sp_index s = index /\ sp_start_ms s = start /\ start < sp_end_ms s
      /\ match rest with
         | [] => sp_end_ms s = duration_ms /\ sp_end_ms s <= start + max_chunk_ms
         | _ => sp_end_ms s = start + max_chunk_ms /\ sp_end_ms s < duration_ms
                /\ planned (index + 1) (sp_end_ms s - overlap_ms) rest
         end
  end.

Lemma plan_loop_spec fuel : forall index start,
  start < duration_ms -> (duration_ms - start) / (max_chunk_ms - overlap_ms) < Z.of_nat fuel - 1 ->
  exists spans, plan_loop duration_ms max_chunk_ms overlap_ms fuel index start = Some spans /\ planned index start spans.
Proof.
  induction fuel as [|fuel IH]; intros index start Hs Hf.
  { pose proof (Z.div_pos (duration_ms - start) (max_chunk_ms - overlap_ms)). lia. }
  cbn [plan_loop]. rewrite (proj2 (Z.ltb_lt _ _) Hs). set (e := Z.min _ _). destruct (Z.eqb_spec e duration_ms) as [He|He].
  - eexists. split; [done|]. simpl. unfold e in *. split_and!; lia.
  - assert (e = start + max_chunk_ms) as Ee by (unfold e in *; lia).
    destruct (IH (index + 1) (e - overlap_ms)) as (rest & -> & Hrest); [unfold e in *; lia| |].
    + replace (duration_ms - start) with ((duration_ms - (e - overlap_ms)) + 1 * (max_chunk_ms - overlap_ms)) in Hf by lia.
      rewrite Z.div_add in Hf by lia. lia.
    + eexists. split; [done|]. cbn [planned sp_index sp_start_ms sp_end_ms]. split_and!; [done|done|lia|].
      destruct rest as [|s rest]; [done|]. split_and!; [done|unfold e in *; lia|done].
Qed.
End plan_lemmas.

Section plan_theorem.
Variables duration_ms max_chunk_ms overlap_ms : Z.
Hypothesis Hover : 0 < overlap_ms < max_chunk_ms.
Lemma planned_spans spans : forall index start, 0 <= start -> start < duration_ms -> planned duration_ms max_chunk_ms overlap_ms index start spans ->
  (forall i s, spans !! i = Some s -> sp_index s = index + Z.of_nat i /\ start <= sp_start_ms s < sp_end_ms s /\ sp_end_ms s <= duration_ms
     /\ sp_end_ms s - sp_start_ms s <= max_chunk_ms)
  /\ (forall i s s', spans !! i = Some s -> spans !! S i = Some s' -> sp_start_ms s' = sp_end_ms s - overlap_ms)
  /\ (forall t, start <= t < duration_ms -> exists s, s ∈ spans /\ sp_start_ms s <= t < sp_end_ms s).
Proof.
  induction spans as [|s spans IH]; intros index start H0 Hs Hp; [done|]. destruct Hp as (Ei & Est & Hlt & Hp).
  destruct spans as [|s' spans].
  - destruct Hp as [Ee Hm]. split_and!.
    + intros [|i] x Hx; [|done]. simplify_eq/=. lia.
    + by intros [|i] x x' ? ?.
    + intros t Ht. exists s. split; [by left|lia].
  - destruct Hp as (Ee & Hd & Hp). destruct (IH (index + 1) (sp_end_ms s - overlap_ms)) as (I1 & I2 & I3); [lia|lia|done|]. split_and!.
    + intros [|i] x Hx; [simplify_eq/=; lia|]. destruct (I1 i x Hx) as (? & ? & ? & ?). lia.
    + intros [|i] x x' Hx Hx'; [|by apply (I2 i)]. simplify_eq/=. by destruct Hp as (_ & ? & _).
    + intros t Ht. destruct (decide (t < sp_end_ms s)); [exists s; split; [by left|lia]|].
      destruct (I3 t) as (x & ? & ?); [lia|]. exists x. split; [by right|done].
Qed.
End plan_theorem.


(** ** Alignment *)

Section alignment.
Context `{Unicode} `{MediaHost}.
Variables prior current : list GlobalWord.

(** An order-preserving one-to-one matching of the words, and its score. *)
Definition aligned (matches : list (nat * nat)) : Prop :=
  StronglySorted (fun a b => (a.1 < b.1)%nat /\ (a.2 < b.2)%nat) matches
  /\ Forall (fun m => exists p c, prior !! m.1 = Some p /\ current !! m.2 = Some c /\ matchable p c = true) matches.
Definition jitter_at (m : nat * nat) : Z :=
  match prior !! m.1, current !! m.2 with Some p, Some c => jitter p c | _, _ => 0 end.
Definition score_of (matches : list (nat * nat)) : score :=
  (Z.of_nat (length matches), - foldr (fun m n => jitter_at m + n) 0 matches).
(** More matches are better; of as many, the closer in time. *)
Definition no_better (a b : score) : Prop := a.1 < b.1 \/ a.1 = b.1 /\ a.2 <= b.2.

Lemma no_better_trans a b c : no_better a b -> no_better b c -> no_better a c.
Proof. unfold no_better. lia. Qed.

Lemma cell_max_choice a b : cell_max a b = a \/ cell_max a b = b.
Proof. unfold cell_max. destruct (cell_leb b a); auto. Qed.
Lemma cell_max_bound a b : no_better a.1 (cell_max a b).1 /\ no_better b.1 (cell_max a b).1.
Proof.
  unfold cell_max. destruct a as [[a1 a2] a3], b as [[b1 b2] b3]. unfold no_better.
  destruct (cell_leb _ _) eqn:E; simpl in E |- *; [|apply not_true_iff_false in E];
    rewrite !orb_true_iff, !andb_true_iff, !Z.ltb_lt, !orb_true_iff, !andb_true_iff, !Z.eqb_eq, ?Z.ltb_lt, ?Z.leb_le in E; lia.
Qed.
(** What the step of a cell says. *)
Lemma cell_of_spec p c up left diag : let x := cell_of p c up left diag in
  no_better up x.1 /\ no_better left x.1
  /\ (matchable p c = true -> no_better (diag.1 + 1, diag.2 - jitter p c) x.1)
  /\ ((x.2 = 2 /\ matchable p c = true /\ x.1 = (diag.1 + 1, diag.2 - jitter p c)) \/ (x.2 = 1 /\ x.1 = left) \/ (x.2 = 0 /\ x.1 = up)).
Proof.
  unfold cell_of. set (best := cell_max (up, 0) (left, 1)). cbv zeta.
  assert (no_better up best.1 /\ no_better left best.1) as [Hu Hl] by apply (cell_max_bound (up, 0) (left, 1)).
  assert ((best.2 = 1 /\ best.1 = left) \/ (best.2 = 0 /\ best.1 = up)) as Hb.
  { destruct (cell_max_choice (up, 0) (left, 1)) as [E|E]; unfold best; rewrite E; auto. }
  destruct (matchable p c); [|split_and!; [done|done|done|by right]].
  destruct (cell_max_bound best ((diag.1 + 1, diag.2 - jitter p c), 2)) as [Hx Hy].
  split_and!; [by eapply no_better_trans..|by intros _|].
  destruct (cell_max_choice best ((diag.1 + 1, diag.2 - jitter p c), 2)) as [E|E]; rewrite E; [by right|by left].
Qed.

(** The table holds the cells of the recurrence. *)
Definition cell_at (r c : nat) : option cell := table prior current !! r ≫= (fun row => row !! c).

Lemma row_from_lookup p ps cs (x0 : cell) : length ps = S (length cs) ->
  length (row_from p ps cs x0.1) = length cs /\
  forall c w, cs !! c = Some w -> exists up left diag,
    ps !! S c = Some up /\ ps !! c = Some diag /\ (x0 :: row_from p ps cs x0.1) !! c = Some left
    /\ (x0 :: row_from p ps cs x0.1) !! S c = Some (cell_of p w up left.1 diag).
Proof.
  revert ps x0. induction cs as [|w cs IH]; intros ps x0 Hl; [split; [by destruct ps|done]|].
  destruct ps as [|diag [|up ps]]; [done|done|].
  change (row_from p (diag :: up :: ps) (w :: cs) x0.1)
    with (cell_of p w up x0.1 diag :: row_from p (up :: ps) cs (cell_of p w up x0.1 diag).1).
  destruct (IH (up :: ps) (cell_of p w up x0.1 diag)) as [Hlen Hlook]; [simpl in *; lia|].
  split; [cbn [length]; by rewrite Hlen|]. intros [|c] w' Hw.
  - simpl in Hw. simplify_eq. by exists up, x0, diag.
  - destruct (Hlook c w' Hw) as (u & l & d & ? & ? & ? & ?). by exists u, l, d.
Qed.
Lemma next_row_lookup row cs p : length row = S (length cs) ->
  length (next_row row cs p) = S (length cs) /\ next_row row cs p !! 0%nat = Some (0, 0, 0) /\
  forall c w, cs !! c = Some w -> exists up left diag,
    row !! S c = Some up /\ row !! c = Some diag /\ next_row row cs p !! c = Some left
    /\ next_row row cs p !! S c = Some (cell_of p w up.1 left.1 diag.1).
Proof.
  intros Hl. unfold next_row. change (0, 0) with ((0, 0, 0) : cell).1.
  destruct (row_from_lookup p row.*1 cs (0, 0, 0)) as [Hlen Hlook]; [by rewrite length_fmap|].
  split_and!; [cbn [length]; by rewrite Hlen|done|]. intros c w Hw. destruct (Hlook c w Hw) as (u & l & d & Hu & Hd & ? & ?).
  rewrite list_lookup_fmap in Hu, Hd. apply fmap_Some in Hu as (u' & ? & ->). apply fmap_Some in Hd as (d' & ? & ->).
  by exists u', l, d'.
Qed.
Lemma table_from_lookup row ps cs : length row = S (length cs) ->
  forall r p, ps !! r = Some p -> exists before, length before = S (length cs)
    /\ table_from row ps cs !! r = Some before /\ table_from row ps cs !! S r = Some (next_row before cs p).
Proof.
  revert row. induction ps as [|q ps IH]; intros row Hl r p Hp; [done|]. destruct r as [|r].
  - simpl in Hp. simplify_eq. exists row. split_and!; [done|done|by destruct ps].
  - apply (IH (next_row row cs q)); [by apply next_row_lookup|done].
Qed.
Lemma cell_at_step r c p w : prior !! r = Some p -> current !! c = Some w ->
  exists up left diag, cell_at r (S c) = Some up /\ cell_at (S r) c = Some left /\ cell_at r c = Some diag
    /\ cell_at (S r) (S c) = Some (cell_of p w up.1 left.1 diag.1).
Proof.
  intros Hp Hw. destruct (table_from_lookup (replicate (S (length current)) (0, 0, 0)) prior current ltac:(by rewrite length_replicate) r p Hp)
    as (before & Hl & E1 & E2). destruct (next_row_lookup before current p Hl) as (_ & _ & Hlook).
  destruct (Hlook c w Hw) as (u & l & d & ? & ? & ? & ?). exists u, l, d. unfold cell_at, table. by rewrite E1, E2.
Qed.
Lemma cell_at_top c : (c <= length current)%nat -> cell_at 0 c = Some (0, 0, 0).
Proof. intros Hc. pose proof (lookup_replicate_2 (S (length current)) ((0, 0, 0) : cell) c ltac:(lia)) as E. unfold cell_at, table.
  by destruct prior. Qed.
Lemma cell_at_left r : (r <= length prior)%nat -> cell_at r 0 = Some (0, 0, 0).
Proof.
  intros Hr. destruct r as [|r]; [by apply cell_at_top; lia|]. destruct (lookup_lt_is_Some_2 prior r) as [p Hp]; [lia|].
  destruct (table_from_lookup (replicate (S (length current)) (0, 0, 0)) prior current ltac:(by rewrite length_replicate) r p Hp)
    as (before & Hl & E1 & E2). unfold cell_at, table. rewrite E2. by apply next_row_lookup.
Qed.

(** Matchings of the first [r] and [c] words. *)
Definition within (r c : nat) (matches : list (nat * nat)) : Prop := Forall (fun m => (m.1 < r)%nat /\ (m.2 < c)%nat) matches.

Lemma StronglySorted_snoc {A} (R : A -> A -> Prop) l x : StronglySorted R (l ++ [x]) <-> StronglySorted R l /\ Forall (fun y => R y x) l.
Proof.
  induction l as [|y l IH]; simpl; [split; [by repeat constructor|by repeat constructor]|]. split.
  - intros [Hs Hf]%StronglySorted_inv. apply IH in Hs as [Hs Hx]. apply Forall_app in Hf as [Hf Hyx].
    inversion Hyx. by repeat constructor.
  - intros [[Hs Hf]%StronglySorted_inv [Hyx Hx]%Forall_cons]. constructor; [by apply IH|]. apply Forall_app. by repeat constructor.
Qed.
Lemma score_snoc matches m : score_of (matches ++ [m]) = ((score_of matches).1 + 1, (score_of matches).2 - jitter_at m).
Proof.
  unfold score_of. rewrite length_app. simpl. f_equal; [lia|].
  assert (forall k, foldr (fun m n => jitter_at m + n) k matches = foldr (fun m n => jitter_at m + n) 0 matches + k) as E.
  { intros k. induction matches as [|x l IH]; simpl; [done|]. rewrite IH. lia. }
  rewrite foldr_app. simpl. rewrite E. lia.
Qed.
Lemma matchings_no_better r : forall c, (r <= length prior)%nat -> (c <= length current)%nat ->
  exists x, cell_at r c = Some x /\ forall matches, aligned matches -> within r c matches -> no_better (score_of matches) x.1.
Proof.
  assert (forall matches r c, within r c matches -> r = 0%nat \/ c = 0%nat -> matches = []) as Hnil.
  { intros [|m l] r' c' Hw; [done|]. apply Forall_cons in Hw as [? _]. lia. }
  assert (forall x : cell, x = (0, 0, 0) -> no_better (score_of []) x.1) as Hzero by (intros x ->; right; done).
  induction r as [|r IHr]; intros c Hr Hc.
  { eexists. split; [by apply cell_at_top|]. intros m _ Hw. apply Hnil in Hw as ->; [by apply Hzero|by left]. }
  induction c as [|c IHc].
  { eexists. split; [by apply cell_at_left|]. intros m _ Hw. apply Hnil in Hw as ->; [by apply Hzero|by right]. }
  destruct (lookup_lt_is_Some_2 prior r) as [p Hp]; [lia|]. destruct (lookup_lt_is_Some_2 current c) as [w Hw]; [lia|].
  destruct (cell_at_step r c p w Hp Hw) as (up & left & diag & Eu & El & Ed & Ex). exists (cell_of p w up.1 left.1 diag.1).
  split; [done|]. destruct (IHr (S c)) as (? & ? & Hup); [lia|lia|]. destruct (IHr c) as (? & ? & Hdiag); [lia|lia|].
  destruct IHc as (? & ? & Hleft); [lia|]. simplify_eq.
  destruct (cell_of_spec p w up.1 left.1 diag.1) as (Bu & Bl & Bd & _).
  intros matches [Hs Hm] Hin. destruct matches as [|m l _] using rev_ind.
  { eapply no_better_trans; [by apply Hup; [split; constructor|constructor]|done]. }
  apply StronglySorted_snoc in Hs as [Hs Hlast]. apply Forall_app in Hin as [Hl [[Hm1 Hm2] _]%Forall_cons].
  pose proof (conj Hs (proj1 (proj1 (Forall_app _ _ _) Hm))) as Hal. pose proof Hm as Hm'. apply Forall_app in Hm as [_ [(p' & w' & Ep & Ew & Hmt) _]%Forall_cons].
  assert (forall r' c', (m.1 < r')%nat -> (m.2 < c')%nat -> within r' c' (l ++ [m])) as Hwithin.
  { intros r' c' ? ?. apply Forall_app. split; [|by repeat constructor]. eapply Forall_impl; [exact Hlast|]. simpl. lia. }
  assert (aligned (l ++ [m])) as Hall by (split; [by apply StronglySorted_snoc|done]).
  destruct (decide (m.1 = r)) as [E1|N1]; [destruct (decide (m.2 = c)) as [E2|N2]|].
  - assert (p' = p) as -> by congruence. assert (w' = w) as -> by congruence. rewrite score_snoc. unfold jitter_at. rewrite Ep, Ew.
    eapply no_better_trans; [|by apply Bd].
    assert (no_better (score_of l) diag.1) as Hb; [|revert Hb; generalize (score_of l) diag.1; intros [] []; unfold no_better; simpl; lia].
    apply Hdiag; [done|]. eapply Forall_impl; [exact Hlast|]. simpl. lia.
  - eapply no_better_trans; [|exact Bl]. apply Hleft; [done|]. apply Hwithin; lia.
  - eapply no_better_trans; [|exact Bu]. apply Hup; [done|]. apply Hwithin; lia.
Qed.

(** The way back has the score of its cell. *)
Lemma trace_back_spec fuel : forall r c acc, (r + c <= fuel)%nat -> (r <= length prior)%nat -> (c <= length current)%nat ->
  exists matches x, trace_back fuel (table prior current) r c acc = matches ++ acc /\ cell_at r c = Some x
    /\ aligned matches /\ within r c matches /\ score_of matches = x.1.
Proof.
  assert (forall t f r c acc, r = 0%nat \/ c = 0%nat -> trace_back f t r c acc = acc) as Hstop.
  { intros t [|f] [|r] [|c] acc; naive_solver. }
  assert (forall r c acc, r = 0%nat \/ c = 0%nat -> (r <= length prior)%nat -> (c <= length current)%nat ->
    exists matches x, acc = matches ++ acc /\ cell_at r c = Some x /\ aligned matches /\ within r c matches /\ score_of matches = x.1) as Hbase.
  { intros r c acc Hz Hr Hc. exists [], (0, 0, 0). split_and!; [done| |by split; constructor|constructor|done].
    destruct Hz as [->| ->]; [by apply cell_at_top|by apply cell_at_left]. }
  induction fuel as [|fuel IH]; intros r c acc Hf Hr Hc.
  { rewrite Hstop by lia. apply Hbase; [lia|done|done]. }
  destruct r as [|r]; [rewrite Hstop by lia; apply Hbase; [lia|done|done]|].
  destruct c as [|c]; [rewrite Hstop by lia; apply Hbase; [lia|done|done]|].
  destruct (lookup_lt_is_Some_2 prior r) as [p Hp]; [lia|]. destruct (lookup_lt_is_Some_2 current c) as [w Hw]; [lia|].
  destruct (cell_at_step r c p w Hp Hw) as (up & left & diag & Eu & El & Ed & Ex). set (x := cell_of _ _ _ _ _) in Ex.
  cbn [trace_back]. assert (step_at (table prior current) (S r) (S c) = x.2) as ->.
  { unfold step_at. unfold cell_at in Ex. by rewrite Ex. }
  assert (forall r' c' matches, within r' c' matches -> (r' <= S r)%nat -> (c' <= S c)%nat -> within (S r) (S c) matches) as Hwider.
  { intros r' c' m Hm ? ?. eapply Forall_impl; [exact Hm|]. simpl. lia. }
  destruct (cell_of_spec p w up.1 left.1 diag.1) as (_ & _ & _ & [(E2 & Hmt & Es)|[[E2 Es]|[E2 Es]]]);
    fold x in E2, Es; rewrite E2; simpl.
  - destruct (IH r c ((r, c) :: acc)) as (l & y & -> & Ey & [Hs Hm] & Hin & Hsc); [lia|lia|lia|]. simplify_eq.
    exists (l ++ [(r, c)]), x. split_and!; [by rewrite <-app_assoc|done| |apply Forall_app; split; [by apply (Hwider r c); [|lia|lia]|]|].
    + split; [apply StronglySorted_snoc; split; [done|]; eapply Forall_impl; [exact Hin|]; simpl; lia|].
      apply Forall_app. split; [done|]. repeat constructor. by exists p, w.
    + repeat constructor.
    + rewrite score_snoc, Hsc, Es. unfold jitter_at. simpl. by rewrite Hp, Hw.
  - destruct (IH (S r) c acc) as (l & y & -> & Ey & Hal & Hin & Hsc); [lia|lia|lia|]. simplify_eq.
    exists l, x. split_and!; [done|done|done|by apply (Hwider (S r) c); [|lia|lia]|congruence].
  - destruct (IH r (S c) acc) as (l & y & -> & Ey & Hal & Hin & Hsc); [lia|lia|lia|]. simplify_eq.
    exists l, x. split_and!; [done|done|done|by apply (Hwider r (S c)); [|lia|lia]|congruence].
Qed.

Lemma trace_back_best : let matches := trace_back (length prior + length current) (table prior current) (length prior) (length current) [] in
  aligned matches /\ forall other, aligned other -> no_better (score_of other) (score_of matches).
Proof.
  destruct (trace_back_spec (length prior + length current) (length prior) (length current) []) as (l & x & -> & Ex & Hal & _ & Hs); [lia|lia|lia|].
  rewrite app_nil_r. cbv zeta. split; [done|]. intros other Ho. rewrite Hs.
  destruct (matchings_no_better (length prior) (length current)) as (y & Ey & Hb); [lia|lia|]. simplify_eq. apply Hb; [done|].
  destruct Ho as [_ Ho]. eapply Forall_impl; [exact Ho|]. intros [i j] (p & c & Hp & Hc & _). simpl in *.
  apply lookup_lt_Some in Hp, Hc. lia.
Qed.
End alignment.

(** Positions of the words that take part. *)
Lemma positions_lookup {A} (p : A -> bool) l r i : positions p l !! r = Some i -> exists x, l !! i = Some x /\ p x = true.
Proof.
  intros Hi%list_elem_of_lookup_2%list_elem_of_In. unfold positions in Hi. apply filter_In in Hi as [_ Hi].
  destruct (l !! i) as [x|]; [by exists x|done].
Qed.
Lemma positions_elem {A} (p : A -> bool) l i x : l !! i = Some x -> p x = true -> exists r, positions p l !! r = Some i.
Proof.
  intros Hi Hp. apply list_elem_of_lookup_1, list_elem_of_In, filter_In. split; [|by rewrite Hi].
  apply list_elem_of_In, elem_of_seq. apply lookup_lt_Some in Hi. lia.
Qed.
Lemma StronglySorted_list_filter {A} (R : A -> A -> Prop) (p : A -> bool) l : StronglySorted R l -> StronglySorted R (List.filter p l).
Proof.
  induction 1 as [|x l Hs IH Hx]; simpl; [constructor|]. destruct (p x); [|done]. constructor; [done|].
  rewrite Forall_forall in *. intros y [Hy _]%list_elem_of_In%filter_In. by apply Hx, list_elem_of_In.
Qed.
Lemma StronglySorted_lookup {A} (R : A -> A -> Prop) l a b x y :
  StronglySorted R l -> l !! a = Some x -> l !! b = Some y -> (a < b)%nat -> R x y.
Proof.
  intros Hs. revert a b. induction Hs as [|z l Hs IH Hz]; intros a b Ha Hb Hab; [done|]. destruct b as [|b]; [lia|].
  destruct a as [|a]; [|by apply (IH a b); [..|lia]]. simpl in *. simplify_eq. rewrite Forall_forall in Hz.
  by apply Hz, (list_elem_of_lookup_2 _ b).
Qed.
Lemma StronglySorted_fmap {A B} (R : A -> A -> Prop) (R' : B -> B -> Prop) (f : A -> B) l :
  (forall x y, x ∈ l -> y ∈ l -> R x y -> R' (f x) (f y)) -> StronglySorted R l -> StronglySorted R' (f <$> l).
Proof.
  intros Hf. induction 1 as [|x l Hs IH Hx]; simpl; [constructor|]. constructor; [apply IH; intros; apply Hf; set_solver|].
  apply Forall_fmap. rewrite Forall_forall in *. intros y Hy. apply Hf; [set_solver..|]. by apply Hx.
Qed.
Lemma omap_lookup_total {A B} (f : A -> option B) l : Forall (fun x => is_Some (f x)) l -> forall r, omap f l !! r = l !! r ≫= f.
Proof.
  induction 1 as [|x l [y Hy] _ IH]; intros r; [done|]. csimpl. rewrite Hy. destruct r as [|r]; [by simpl; rewrite Hy|]. apply IH.
Qed.
Lemma positions_mono {A} (p : A -> bool) l r r' i i' :
  positions p l !! r = Some i -> positions p l !! r' = Some i' -> (i < i')%nat <-> (r < r')%nat.
Proof.
  intros Hi Hi'. assert (StronglySorted lt (positions p l)) as Hs.
  { apply StronglySorted_list_filter. clear. generalize 0%nat. induction (length l) as [|n IH]; intros m; simpl; [constructor|].
    constructor; [done|]. apply Forall_forall. intros y [? _]%elem_of_seq. lia. }
  assert (forall a b x y, positions p l !! a = Some x -> positions p l !! b = Some y -> (a < b)%nat -> (x < y)%nat) as Hlt.
  { intros a b x y Ha Hb Hab. by eapply (StronglySorted_lookup lt). }
  split; [|by apply Hlt]. intros Hlt'. destruct (decide (r < r')%nat) as [|Hge]; [done|]. exfalso.
  destruct (decide (r = r')) as [->|]; [simplify_eq; lia|]. pose proof (Hlt r' r i' i Hi' Hi). lia.
Qed.

Section overlap.
Context `{Unicode} `{MediaHost}.
Variables (previous current : list GlobalWord) (lo hi : Z).
Notation ps := (positions (intersects lo hi) previous).
Notation cs := (positions (intersects lo hi) current).
Definition shared (matches : list (nat * nat)) : Prop :=
  aligned previous current matches
  /\ Forall (fun m => (exists p, previous !! m.1 = Some p /\ intersects lo hi p = true)
                      /\ (exists c, current !! m.2 = Some c /\ intersects lo hi c = true)) matches.

Lemma words_lookup (l : list GlobalWord) r :
  omap (fun i => l !! i) (positions (intersects lo hi) l) !! r = positions (intersects lo hi) l !! r ≫= (fun i => l !! i).
Proof.
  apply omap_lookup_total, Forall_lookup. intros i x Hx. destruct (positions_lookup _ _ _ _ Hx) as (w & -> & _). done.
Qed.
(** From positions among the shared words to positions in the chunks. *)
Definition place_of (m m' : nat * nat) : Prop := ps !! m.1 = Some m'.1 /\ cs !! m.2 = Some m'.2.
Notation pw := (omap (fun i => previous !! i) ps).
Notation cw := (omap (fun i => current !! i) cs).
Lemma place_words m m' : place_of m m' -> pw !! m.1 = previous !! m'.1 /\ cw !! m.2 = current !! m'.2.
Proof. intros [E1 E2]. by rewrite !words_lookup, E1, E2. Qed.
Lemma place_score l l' : Forall2 place_of l l' -> score_of pw cw l = score_of previous current l'.
Proof.
  intros Hp. unfold score_of. f_equal; [by rewrite (Forall2_length _ _ _ Hp)|]. f_equal.
  induction Hp as [|m m' l l' Hm _ IH]; simpl; [done|]. rewrite IH. f_equal. unfold jitter_at.
  by destruct (place_words _ _ Hm) as [-> ->].
Qed.
Lemma place_sorted l l' : Forall2 place_of l l' ->
  StronglySorted (fun a b => (a.1 < b.1)%nat /\ (a.2 < b.2)%nat) l <-> StronglySorted (fun a b => (a.1 < b.1)%nat /\ (a.2 < b.2)%nat) l'.
Proof.
  assert (forall m m' n n', place_of m m' -> place_of n n' ->
    ((m.1 < n.1)%nat /\ (m.2 < n.2)%nat) <-> ((m'.1 < n'.1)%nat /\ (m'.2 < n'.2)%nat)) as Hmono.
  { intros m m' n n' [E1 E2] [F1 F2]. by rewrite (positions_mono _ _ _ _ _ _ E1 F1), (positions_mono _ _ _ _ _ _ E2 F2). }
  induction 1 as [|m m' l l' Hm Hl IH]; [done|]. split; intros [Hs Hf]%StronglySorted_inv; constructor; try (by apply IH).
  - clear IH Hs. induction Hl as [|n n' l l' Hn _ IH]; [constructor|]. apply Forall_cons in Hf as [Hn' Hf].
    constructor; [by apply (Hmono m m' n n')|by apply IH].
  - clear IH Hs. induction Hl as [|n n' l l' Hn _ IH]; [constructor|]. apply Forall_cons in Hf as [Hn' Hf].
    constructor; [by apply (Hmono m m' n n')|by apply IH].
Qed.
Lemma place_aligned l l' : Forall2 place_of l l' -> aligned pw cw l -> shared l'.
Proof.
  intros Hp [Hs Hm]. split; [split; [by apply (place_sorted l)|]|].
  - clear Hs. induction Hp as [|m m' l l' Hmm _ IH]; [constructor|]. apply Forall_cons in Hm as [(p & c & E1 & E2 & ?) Hm].
    destruct (place_words _ _ Hmm) as [F1 F2]. constructor; [exists p, c; by rewrite <-F1, <-F2|by apply IH].
  - eapply Forall2_Forall_r; [exact Hp|]. apply Forall_forall. intros m _ m' [E1 E2].
    destruct (positions_lookup _ _ _ _ E1) as (? & ? & ?), (positions_lookup _ _ _ _ E2) as (? & ? & ?). split; eauto.
Qed.
Lemma shared_places l' : shared l' -> exists l, Forall2 place_of l l' /\ aligned pw cw l.
Proof.
  intros [[Hs Hm] Hi].
  assert (exists l, Forall2 place_of l l') as [l Hl].
  { apply Forall_exists_Forall2_r. eapply Forall_impl; [exact Hi|]. intros [i j] [(p & Ep & Hp) (c & Ec & Hc)].
    destruct (positions_elem _ _ _ _ Ep Hp) as [r ?], (positions_elem _ _ _ _ Ec Hc) as [q ?]. by exists (r, q). }
  exists l. split; [done|]. split; [by apply (place_sorted l l')|].
  clear Hs Hi. induction Hl as [|m m' l l' Hmm _ IH]; [constructor|]. apply Forall_cons in Hm as [(p & c & E1 & E2 & ?) Hm].
  destruct (place_words _ _ Hmm) as [F1 F2]. constructor; [exists p, c; by rewrite F1, F2|by apply IH].
Qed.
Lemma length_words (l : list GlobalWord) :
  length (omap (fun i => l !! i) (positions (intersects lo hi) l)) = length (positions (intersects lo hi) l).
Proof.
  set (q := positions _ l). assert (Forall (fun i => is_Some (l !! i)) q) as Hq.
  { apply Forall_lookup. intros i x Hx. destruct (positions_lookup _ _ _ _ Hx) as (w & -> & _). done. }
  induction Hq as [|x q' [y Hy] _ IH]; [done|]. csimpl. rewrite Hy. simpl. by rewrite IH.
Qed.
Lemma places_found l : aligned pw cw l ->
  Forall2 place_of l (omap (fun '(row, column) => i ← ps !! row; j ← cs !! column; Some (i, j)) l).
Proof.
  intros [_ Hm]. induction Hm as [|[r c] l (p & w & Ep & Ew & _) _ IH]; [constructor|]. simpl in Ep, Ew.
  rewrite words_lookup in Ep, Ew. apply bind_Some in Ep as (i & Ei & _), Ew as (j & Ej & _). csimpl. rewrite Ei. simpl.
  rewrite Ej. by constructor.
Qed.
Lemma align_spec : let matches := _align_overlap_words previous current lo hi in
  shared matches /\ forall other, shared other -> no_better (score_of previous current other) (score_of previous current matches).
Proof.
  unfold _align_overlap_words. cbv zeta. rewrite <-(length_words previous), <-(length_words current).
  destruct (trace_back_best pw cw) as [Hal Hbest]. pose proof (places_found _ Hal) as Hp. split; [by eapply place_aligned|].
  intros other (l & Hl & Ho)%shared_places. rewrite <-(place_score _ _ Hl), <-(place_score _ _ Hp). by apply Hbest.
Qed.
End overlap.

(** ** Utterances *)

Section utterances.
Context `{Unicode} `{MediaHost}.
Notation key := (nat * nat)%type.

Definition on_axis (span : MediaSpan) (w : TranscriptionWord) : GlobalWord :=
  mk_global (wd_text w) (sp_start_ms span + wd_start_ms w) (sp_start_ms span + wd_end_ms w) (wd_speaker_label w) (wd_confidence w).
Definition axis_words (c : ChunkTranscription) : list GlobalWord := on_axis (ct_span c) <$> tr_words (ct_result c).
Definition matches_between (a b : ChunkTranscription) : list (nat * nat) :=
  _align_overlap_words (axis_words a) (axis_words b) (sp_start_ms (ct_span b)) (sp_end_ms (ct_span a)).

(** Two observations that the alignment of adjacent chunks matched; one utterance. *)
Inductive adjacent (ordered : list ChunkTranscription) : key -> key -> Prop :=
| adjacent_intro i a b k j : ordered !! i = Some a -> ordered !! S i = Some b -> (k, j) ∈ matches_between a b ->
    adjacent ordered (i, k) (S i, j).
Lemma adjacent_inv ordered i0 k i j : adjacent ordered (i0, k) (i, j) ->
  i = S i0 /\ exists a b, ordered !! i0 = Some a /\ ordered !! S i0 = Some b /\ (k, j) ∈ matches_between a b.
Proof. intros Ha. inversion Ha; subst. split; [done|]. by eexists _, _. Qed.
Definition utterance (ordered : list ChunkTranscription) : key -> key -> Prop := rtsc (adjacent ordered).
Definition word_of (ordered : list ChunkTranscription) (k : key) : option GlobalWord :=
  ordered !! k.1 ≫= (fun c => axis_words c !! k.2).

Lemma word_at_axis ordered k : word_at (axis_words <$> ordered) k = word_of ordered k.
Proof. unfold word_at, word_of. rewrite list_lookup_fmap. by destruct (ordered !! k.1). Qed.

Lemma global_words_spec span d : forall words previous l, 0 <= sp_start_ms span ->
  global_words span d previous words = Ok l ->
  l = on_axis span <$> words /\ Forall (fun w => 0 <= gw_start w < gw_end w /\ gw_end w <= d) l.
Proof.
  induction words as [|w words IH]; intros previous l Hs Hl; simpl in Hl; [by simplify_eq|].
  apply guard_or_ok in Hl as [Hw Hl]. apply guard_or_ok in Hl as [Hd (rest & Hr & [= <-])%bind_ok].
  destruct (IH _ _ Hs Hr) as [-> Hrest]. to_prop. rewrite !Z.leb_le, !Z.ltb_lt in *. split; [done|].
  constructor; [simpl; lia|done].
Qed.

(** What the alignment says of a pair. *)
Lemma matches_between_pair a b k j : (k, j) ∈ matches_between a b -> exists p c,
  axis_words a !! k = Some p /\ axis_words b !! j = Some c /\ matchable p c = true.
Proof.
  intros Hm. destruct (align_spec (axis_words a) (axis_words b) (sp_start_ms (ct_span b)) (sp_end_ms (ct_span a))) as [[[_ Hf] _] _].
  rewrite Forall_forall in Hf. by apply Hf in Hm.
Qed.
Lemma matches_between_unique a b k j k' j' : (k, j) ∈ matches_between a b -> (k', j') ∈ matches_between a b -> k = k' <-> j = j'.
Proof.
  intros Hm Hm'. destruct (align_spec (axis_words a) (axis_words b) (sp_start_ms (ct_span b)) (sp_end_ms (ct_span a))) as [[[Hs _] _] _].
  fold (matches_between a b) in Hs. apply list_elem_of_lookup in Hm as [x Hx], Hm' as [y Hy].
  destruct (decide (x = y)) as [->|Hne]; [by simplify_eq|].
  assert ((x < y)%nat \/ (y < x)%nat) as [Hlt|Hlt] by lia.
  - destruct (StronglySorted_lookup _ _ _ _ _ _ Hs Hx Hy Hlt). simpl in *. lia.
  - destruct (StronglySorted_lookup _ _ _ _ _ _ Hs Hy Hx Hlt). simpl in *. lia.
Qed.

(** *** The state of the loop *)

Definition roots_of (ordered : list ChunkTranscription) (roots : gmap (nat * nat) (nat * nat)) : Prop :=
  forall i j r, roots !! (i, j) = Some r <-> exists i0 k, i = S i0 /\ adjacent ordered (i0, k) (i, j) /\ r = root_of roots (i0, k).

Lemma link_roots_other chunk ms : forall roots k, k.1 <> chunk -> link_roots chunk ms roots !! k = roots !! k.
Proof.
  unfold link_roots. induction ms as [|[i j] ms IH]; intros roots k Hk; simpl; [done|]. rewrite IH by done.
  apply lookup_insert_ne. intros <-. by apply Hk.
Qed.
Lemma link_roots_none chunk ms : forall roots j, j ∉ ms.*2 -> link_roots chunk ms roots !! (chunk, j) = roots !! (chunk, j).
Proof.
  unfold link_roots. induction ms as [|[i j'] ms IH]; intros roots j Hj; simpl; [done|]. rewrite fmap_cons, not_elem_of_cons in Hj.
  rewrite IH by tauto. apply lookup_insert_ne. intros [= <-]. by destruct Hj.
Qed.
Lemma link_roots_some chunk ms : forall roots k j, (0 < chunk)%nat -> NoDup ms.*2 -> (k, j) ∈ ms ->
  link_roots chunk ms roots !! (chunk, j) = Some (root_of roots ((chunk - 1)%nat, k)).
Proof.
  induction ms as [|[i j'] ms IH]; intros roots k j Hc Hnd Hin; [by apply elem_of_nil in Hin|].
  rewrite fmap_cons in Hnd. apply NoDup_cons in Hnd as [Hj Hnd]. unfold link_roots. simpl.
  fold (link_roots chunk ms (<[(chunk, j') := default ((chunk - 1)%nat, i) (roots !! ((chunk - 1)%nat, i))]> roots)).
  apply elem_of_cons in Hin as [[= -> ->]|Hin].
  - rewrite link_roots_none by done. by rewrite lookup_insert_eq.
  - rewrite (IH _ k) by done. f_equal. unfold root_of. rewrite lookup_insert_ne; [done|]. intros [=]. lia.
Qed.

Lemma adjacent_app ordered c k k' : adjacent ordered k k' -> adjacent (ordered ++ [c]) k k'.
Proof. intros [i a b x j Ha Hb Hm]. econstructor; [by apply lookup_app_l_Some..|done]. Qed.
Lemma adjacent_app_inv ordered c k k' : (k'.1 < length ordered)%nat -> adjacent (ordered ++ [c]) k k' -> adjacent ordered k k'.
Proof.
  intros Hl Ha. destruct Ha as [i a b x j Ha Hb Hm]. simpl in Hl. rewrite lookup_app_l in Ha, Hb by lia. by econstructor.
Qed.
Lemma matches_NoDup a b : NoDup (matches_between a b).*2.
Proof.
  destruct (align_spec (axis_words a) (axis_words b) (sp_start_ms (ct_span b)) (sp_end_ms (ct_span a))) as [[[Hs _] _] _].
  fold (matches_between a b) in Hs. induction Hs as [|m l Hs IH Hm]; [constructor|]. rewrite fmap_cons. constructor; [|done].
  intros (m' & E & Hin)%list_elem_of_fmap. rewrite Forall_forall in Hm. destruct (Hm m' Hin). lia.
Qed.

Lemma roots_bound ordered roots : roots_of ordered roots -> forall i j, ((root_of roots (i, j)).1 <= i)%nat.
Proof.
  intros Hr i. induction i as [|i IH]; intros j; unfold root_of.
  - destruct (roots !! (0%nat, j)) as [r|] eqn:E; [|done]. apply Hr in E as (? & ? & [=] & _).
  - destruct (roots !! (S i, j)) as [r|] eqn:E; [|done]. apply Hr in E as (? & k & [= <-] & _ & ->). simpl. by etrans; [apply IH|lia].
Qed.

Lemma roots_of_step ordered roots a c : roots_of ordered roots -> last ordered = Some a ->
  roots_of (ordered ++ [c]) (link_roots (length ordered) (matches_between a c) roots).
Proof.
  intros Hr Hlast. assert (0 < length ordered)%nat as Hlen by (destruct ordered; [done|simpl; lia]).
  assert (ordered !! (length ordered - 1)%nat = Some a) as Ha by (by rewrite last_lookup in Hlast; rewrite Nat.sub_1_r).
  assert (forall i j, (i < length ordered)%nat -> root_of (link_roots (length ordered) (matches_between a c) roots) (i, j) = root_of roots (i, j)) as Hroot.
  { intros i j Hi. unfold root_of. rewrite link_roots_other by (simpl; lia). done. }
  intros i j r. destruct (decide (i = length ordered)) as [->|Hne].
  - split.
    + intros E. destruct (decide (j ∈ (matches_between a c).*2)) as [([k j'] & -> & Hin)%list_elem_of_fmap|Hj]; simpl in *.
      * rewrite (link_roots_some _ _ _ k) in E by (done || apply matches_NoDup). simplify_eq.
        exists (length ordered - 1)%nat, k. split_and!; [lia| |by rewrite Hroot by lia].
        replace (length ordered) with (S (length ordered - 1)) at 2 by lia. econstructor; [by apply lookup_app_l_Some| |done].
        replace (S (length ordered - 1)) with (length ordered) by lia. by rewrite lookup_app_r, Nat.sub_diag.
      * rewrite link_roots_none in E by done. apply Hr in E as (i0 & k & E & Hadj & _). inversion Hadj as [? ? b ? ? Ha' Hb Hm]; subst.
        apply lookup_lt_Some in Hb. lia.
    + intros (i0 & k & E & Hadj & ->). pose proof Hadj as (_ & a' & b & Ha' & Hb & Hm)%adjacent_inv.
      rewrite <-E in Hb. rewrite lookup_app_r, Nat.sub_diag in Hb by done. simpl in Hb. simplify_eq.
      rewrite lookup_app_l in Ha' by lia. replace (length ordered - 1)%nat with i0 in Ha by lia. simplify_eq.
      rewrite (link_roots_some _ _ _ k) by (done || lia || apply matches_NoDup). rewrite Hroot by lia. by replace (length ordered - 1)%nat with i0 by lia.
  - rewrite link_roots_other by done. rewrite (Hr i j r). split.
    + intros (i0 & k & -> & Hadj & ->). exists i0, k. split_and!; [done|by apply adjacent_app|].
      apply adjacent_inv in Hadj as (_ & ? & b & _ & Hb & _). apply lookup_lt_Some in Hb. by rewrite Hroot by lia.
    + intros (i0 & k & -> & Hadj & ->). assert (S i0 < length ordered)%nat as Hi.
      { apply adjacent_inv in Hadj as (_ & ? & b & _ & Hb & _). apply lookup_lt_Some in Hb. rewrite length_app in Hb. simpl in Hb. lia. }
      exists i0, k. split_and!; [done|by apply adjacent_app_inv in Hadj|by rewrite Hroot by lia].
Qed.

(** *** Roots are utterances *)

Section roots.
Variables (ordered : list ChunkTranscription) (roots : gmap (nat * nat) (nat * nat)).
Hypothesis Hroots : roots_of ordered roots.

Lemma root_utterance i : forall j, utterance ordered (root_of roots (i, j)) (i, j).
Proof.
  induction i as [|i IH]; intros j; unfold root_of.
  - destruct (roots !! (0%nat, j)) as [r|] eqn:E; [|by apply rtc_refl]. apply Hroots in E as (? & ? & [=] & _).
  - destruct (roots !! (S i, j)) as [r|] eqn:E; [|by apply rtc_refl]. apply Hroots in E as (? & k & [= <-] & Ha & ->). simpl.
    etrans; [apply IH|]. apply rtc_once. by left.
Qed.
Lemma adjacent_root k k' : adjacent ordered k k' -> root_of roots k = root_of roots k'.
Proof.
  intros Ha. destruct Ha as [i a b x j Ha Hb Hm]. unfold root_of at 2.
  assert (roots !! (S i, j) = Some (root_of roots (i, x))) as ->; [|done]. apply Hroots. exists i, x. split_and!; [done|by econstructor|done].
Qed.
Lemma utterance_root k k' : utterance ordered k k' <-> root_of roots k = root_of roots k'.
Proof.
  split.
  - induction 1 as [|x y z [Ha|Ha] _ IH]; [done|..]; rewrite <-IH; [|symmetry]; by apply adjacent_root.
  - destruct k as [i j], k' as [i' j']. intros E. etrans; [|apply (root_utterance i' j')]. rewrite <-E.
    symmetry. apply (root_utterance i j).
Qed.

(** One word of each chunk. *)
Lemma root_inj i : forall j j', root_of roots (i, j) = root_of roots (i, j') -> j = j'.
Proof.
  induction i as [|i IH]; intros j j'; unfold root_of.
  - assert (forall j, roots !! (0%nat, j) = None) as E.
    { intros x. destruct (roots !! _) as [r|] eqn:E; [|done]. apply Hroots in E as (? & ? & [=] & _). }
    rewrite !E. by intros [=].
  - pose proof (roots_bound _ _ Hroots i) as Hb.
    destruct (roots !! (S i, j)) as [r|] eqn:E, (roots !! (S i, j')) as [r'|] eqn:E'; simpl.
    + apply Hroots in E as (? & k & [= <-] & Ha & ->), E' as (? & k' & [= <-] & Ha' & ->). intros Er%IH. subst k'.
      apply adjacent_inv in Ha as (_ & a & b & Ea & Eb & Hm), Ha' as (_ & a' & b' & Ea' & Eb' & Hm'). simplify_eq.
      by apply (matches_between_unique a b k j k j').
    + apply Hroots in E as (? & k & [= <-] & Ha & ->). intros Er. specialize (Hb k). rewrite Er in Hb. simpl in Hb. lia.
    + apply Hroots in E' as (? & k & [= <-] & Ha & ->). intros Er. specialize (Hb k). rewrite <-Er in Hb. simpl in Hb. lia.
    + by intros [=].
Qed.
Definition near (n : Z) (w w' : GlobalWord) : Prop :=
  _normal_word (gw_text w) = _normal_word (gw_text w')
  /\ Z.abs (gw_start w - gw_start w') <= 750 * n /\ Z.abs (gw_end w - gw_end w') <= 750 * n.
Lemma utterance_near n : forall i i' j j' w w', (i - i' = n)%nat -> (i' <= i)%nat ->
  root_of roots (i, j) = root_of roots (i', j') -> word_of ordered (i, j) = Some w -> word_of ordered (i', j') = Some w' ->
  near (Z.of_nat i - Z.of_nat i') w w'.
Proof.
  induction n as [|n IH]; intros i i' j j' w w' Hn Hle Hr Hw Hw'.
  - assert (i = i') as -> by lia. apply root_inj in Hr as ->. simplify_eq. split; [done|]. lia.
  - destruct i as [|i]; [lia|]. unfold root_of at 1 in Hr. pose proof (roots_bound _ _ Hroots i' j') as Hb.
    destruct (roots !! (S i, j)) as [r|] eqn:E; simpl in Hr; [|rewrite <-Hr in Hb; simpl in Hb; lia].
    apply Hroots in E as (? & k & [= <-] & Ha & ->). apply adjacent_inv in Ha as (_ & a & b & Ea & Eb & Hm).
    destruct (matches_between_pair _ _ _ _ Hm) as (p & c & Ep & Ec & Hmt).
    assert (c = w) as -> by (unfold word_of in Hw; simpl in Hw; rewrite Eb in Hw; simpl in Hw; congruence).
    assert (word_of ordered (i, k) = Some p) as Hp by (unfold word_of; simpl; by rewrite Ea).
    destruct (IH i i' k j' p w' ltac:(lia) ltac:(lia) Hr Hp Hw') as (En & Hs & He).
    unfold matchable in Hmt. to_prop. rewrite !Z.leb_le in Hmt. destruct Hmt as [[[_ ?] ?] ?]. split; [congruence|]. lia.
Qed.
End roots.
End utterances.

(** ** Speakers *)

Section speakers.
Context `{Unicode} `{MediaHost}.
Notation labels := (list (pystr * pystr)) (only parsing).

#[local] Instance speaker_name_inj : Inj eq eq speaker_name.
Proof. intros n m E. unfold speaker_name in E. apply app_inv_head in E. by apply cp_inj, pretty_Z_inj in E. Qed.

Definition one_to_one (m : labels) : Prop := forall l l' id, dict_get l m = Some id -> dict_get l' m = Some id -> l = l'.
(** Every id is one of the first [next - 1] names. *)
Definition named (next : Z) (m : labels) : Prop := forall l id, dict_get l m = Some id -> exists n, 1 <= n < next /\ id = speaker_name n.

Lemma dict_get_set {V} (l k : pystr) (v : V) d : dict_get l (dict_set k v d) = if decide (l = k) then Some v else dict_get l d.
Proof. destruct (decide (l = k)) as [->|]; [apply dict_get_set_eq|by apply dict_get_set_ne]. Qed.
Lemma dict_set_elem {V} (k : pystr) (v : V) d x : x ∈ dict_set k v d -> x = (k, v) \/ x ∈ d.
Proof.
  induction d as [|[k' w] d IH]; simpl; [set_solver|]. destruct (decide (k = k')) as [->|].
  - intros [->|?]%elem_of_cons; [by left|right; by right].
  - intros [->|Hx]%elem_of_cons; [right; by left|]. destruct (IH Hx); [by left|right; by right].
Qed.

(** *** New names *)

Lemma fresh_labels_spec labels : forall next m m' next', 1 <= next -> one_to_one m -> named next m ->
  fresh_labels labels next m = (m', next') ->
  next <= next' /\ one_to_one m' /\ named next' m' /\ (forall l, l ∈ labels -> is_Some (dict_get l m'))
  /\ (forall l id, dict_get l m = Some id -> dict_get l m' = Some id)
  /\ forall l id, dict_get l m' = Some id -> dict_get l m = Some id \/ exists n, next <= n /\ id = speaker_name n.
Proof.
  induction labels as [|x labels IH]; intros next m m' next' Hn Ho Hm Hf; simpl in Hf.
  - simplify_eq. split_and!; try done; [intros l Hl; by apply elem_of_nil in Hl|by auto].
  - destruct (dict_get x m) as [id|] eqn:Ex.
    + destruct (IH _ _ _ _ Hn Ho Hm Hf) as (? & ? & ? & Hall & Hkeep & ?). split_and!; try done.
      intros l [->|Hl]%elem_of_cons; [by exists id; apply Hkeep|by apply Hall].
    + destruct (IH (next + 1) (dict_set x (speaker_name next) m) m' next') as (? & ? & ? & Hall & Hkeep & Hnew); [lia|..|done|].
      * intros l l' id. rewrite !dict_get_set.
        destruct (decide (l = x)) as [->|], (decide (l' = x)) as [->|]; [done|..|by apply Ho].
        all: intros E1 E2; simplify_eq.
        { destruct (Hm _ _ E2) as (q & ? & En). apply speaker_name_inj in En. lia. }
        { destruct (Hm _ _ E1) as (q & ? & En). apply speaker_name_inj in En. lia. }
      * intros l id. rewrite dict_get_set. destruct (decide (l = x)) as [->|Hne].
        { intros [= <-]. exists next. split; [lia|done]. }
        intros E. destruct (Hm _ _ E) as (n & ? & ->). exists n. split; [lia|done].
      * split_and!; [lia|done|done|..].
        { intros l [->|Hl]%elem_of_cons; [|by apply Hall]. eexists. apply Hkeep. apply dict_get_set_eq. }
        { intros l id E. apply Hkeep. rewrite dict_get_set_ne; [done|]. intros ->. congruence. }
        { intros l id E. destruct (Hnew _ _ E) as [E'|(n & ? & ->)]; [|right; exists n; split; [lia|done]].
          rewrite dict_get_set in E'. destruct (decide (l = x)) as [->|]; [|by left]. simplify_eq. right. by exists next. }
Qed.

(** *** Linked names *)

Section linked.
Variables (prior_map : labels) (previous current : list GlobalWord).
(** A matched pair of words of [label] in this chunk and of [canonical] in the one before. *)
Definition links (label canonical : pystr) (m : nat * nat) : bool :=
  match previous !! m.1, current !! m.2 with
  | Some p, Some c => bool_decide (gw_label c = label) && bool_decide (default [] (dict_get (gw_label p) prior_map) = canonical)
  | _, _ => false
  end.
Definition link_count (label canonical : pystr) (matches : list (nat * nat)) : nat := length (List.filter (links label canonical) matches).
Notation add_link := (add_link prior_map previous current).
Definition counted (matches : list (nat * nat)) (counts : list (pystr * list (pystr * Z))) : Prop :=
  forall l cs c n, (l, cs) ∈ counts -> (c, n) ∈ cs -> n <= Z.of_nat (link_count l c matches).
Lemma add_link_counted matches counts m : counted matches counts -> counted (matches ++ [m]) (add_link counts m).
Proof.
  intros Hc. destruct m as [i j]. unfold Media.add_link. simpl.
  assert (forall l c, (link_count l c matches <= link_count l c (matches ++ [(i, j)]))%nat) as Hmono.
  { intros l c. unfold link_count. rewrite List.filter_app, length_app. lia. }
  destruct (previous !! i) as [p|] eqn:Ep; [destruct (current !! j) as [w|] eqn:Ew|].
  2,3: intros l cs c n Hl Hn; specialize (Hc l cs c n Hl Hn); specialize (Hmono l c); lia.
  intros l cs c n Hl Hn. unfold count_link, bump in Hl.
  apply dict_set_elem in Hl as [[= -> ->]|Hl]; [|specialize (Hc l cs c n Hl Hn); specialize (Hmono l c); lia].
  set (label := gw_label w) in *. set (canonical := default [] (dict_get (gw_label p) prior_map)) in *.
  assert (forall c n, (c, n) ∈ default [] (dict_get label counts) -> n <= Z.of_nat (link_count label c matches)) as Hold.
  { intros c' n'. destruct (dict_get label counts) as [cs|] eqn:El; simpl; [|by intros ?%elem_of_nil]. apply Hc. by apply dict_get_In. }
  apply dict_set_elem in Hn as [[= -> ->]|Hn]; [|specialize (Hold c n Hn); specialize (Hmono label c); lia].
  assert (link_count label canonical (matches ++ [(i, j)]) = S (link_count label canonical matches)) as ->.
  { unfold link_count. rewrite List.filter_app, length_app. simpl. unfold links at 2. simpl. rewrite Ep, Ew.
    rewrite !bool_decide_eq_true_2 by done. simpl. lia. }
  destruct (dict_get canonical _) as [n|] eqn:E; simpl; [|lia]. apply dict_get_In, Hold in E. lia.
Qed.
Lemma links_counted matches : counted matches (foldl add_link [] matches).
Proof.
  induction matches as [|m matches IH] using rev_ind; [by intros l cs c n ?%elem_of_nil|].
  rewrite foldl_snoc. by apply add_link_counted.
Qed.

Lemma claim_labels_spec ranked : forall claimed m, one_to_one m -> (forall l id, dict_get l m = Some id -> id ∈ claimed) ->
  one_to_one (claim_labels ranked claimed m)
  /\ forall l id, dict_get l (claim_labels ranked claimed m) = Some id -> dict_get l m = Some id \/ exists n, (n, l, id) ∈ ranked.
Proof.
  induction ranked as [|[[n x] y] ranked IH]; intros claimed m Ho Hc; simpl; [by auto|].
  destruct (mem y claimed) eqn:Ey.
  - destruct (IH claimed m Ho Hc) as [? Hs]. split; [done|]. intros l id E. destruct (Hs _ _ E) as [?|[k ?]]; [by left|right; exists k; by right].
  - apply mem_false in Ey. destruct (IH (y :: claimed) (dict_set x y m)) as [? Hs].
    + intros l l' id. rewrite !dict_get_set. destruct (decide (l = x)) as [->|], (decide (l' = x)) as [->|]; [done|..|by apply Ho].
      all: intros E1 E2; simplify_eq; exfalso; apply Ey; by eapply Hc.
    + intros l id. rewrite dict_get_set. destruct (decide (l = x)); [intros [= <-]; by left|intros E; right; by eapply Hc].
    + split; [done|]. intros l id E. destruct (Hs _ _ E) as [E'|[k ?]]; [|right; exists k; by right].
      rewrite dict_get_set in E'. destruct (decide (l = x)) as [->|]; [|by left]. simplify_eq. right. exists n. by left.
Qed.
Lemma linked_labels_spec matches : let m := linked_labels prior_map previous current matches in
  one_to_one m /\ forall l id, dict_get l m = Some id -> (2 <= link_count l id matches)%nat.
Proof.
  unfold linked_labels.
  pose proof (links_counted matches) as Hc. set (counts := foldl add_link [] matches) in *. clearbody counts. cbv zeta.
  destruct (claim_labels_spec (py_sorted ranked_leb
    (omap (fun '(label, candidates) => '(canonical, n) ← supported candidates; Some (n, label, canonical)) counts)) [] []) as [Ho Hs];
    [done|done|].
  split; [done|]. intros l id E. destruct (Hs _ _ E) as [?|[n Hn]]; [done|].
  apply elem_of_py_sorted, list_elem_of_omap in Hn as ([l' cs] & Hin & Hsup).
  apply bind_Some in Hsup as ([c k] & Hsup & [= -> -> ->]). unfold supported in Hsup.
  destruct (most_common cs) as [|[c k] rest] eqn:Em; [done|]. destruct (_ && _) eqn:Ek; [|done]. simplify_eq.
  apply andb_true_iff in Ek as [Hk%Z.leb_le _].
  assert ((id, n) ∈ cs) as Hin'. { apply (elem_of_py_sorted (fun a b => b.2 <=? a.2)). unfold most_common in Em. rewrite Em. by left. }
  specialize (Hc _ _ _ _ Hin Hin'). lia.
Qed.
End linked.
End speakers.

(** ** The state of the loop *)

Section stitched.
Context `{Unicode} `{MediaHost}.
Variable duration_ms : Z.

(** Two matched pairs of words link a speaker of a chunk to one of the next. *)
Definition link_evidence (a b : ChunkTranscription) (l l' : pystr) (m : nat * nat) : Prop :=
  m ∈ matches_between a b
  /\ exists p w, axis_words a !! m.1 = Some p /\ axis_words b !! m.2 = Some w /\ gw_label p = l /\ gw_label w = l'.
Definition linked (a b : ChunkTranscription) (l l' : pystr) : Prop :=
  exists x y, x <> y /\ link_evidence a b l l' x /\ link_evidence a b l l' y.
(** A speaker followed from label [l] of chunk [i] to label [l'] of chunk [j], from
    each chunk to the next. *)
Inductive followed (ordered : list ChunkTranscription) (i : nat) (l : pystr) : nat -> pystr -> Prop :=
| followed_here : followed ordered i l i l
| followed_next j a b l1 l2 :
    followed ordered i l j l1 -> ordered !! j = Some a -> ordered !! S j = Some b -> linked a b l1 l2 ->
    followed ordered i l (S j) l2.
Lemma followed_app ordered rest i l j l' : followed ordered i l j l' -> followed (ordered ++ rest) i l j l'.
Proof.
  induction 1 as [|j a b l1 l2 _ IH Ha Hb Hl]; [constructor|].
  apply (followed_next _ _ _ j a b l1); [done|by apply lookup_app_l_Some..|done].
Qed.
Record stitched_state (ordered : list ChunkTranscription) (st : stitching) : Prop := {
  ss_raw : st_raw st = axis_words <$> ordered;
  ss_roots : roots_of ordered (st_roots st);
  ss_words c : c ∈ ordered -> axis_words c <> [] /\ Forall (fun w => 0 <= gw_start w < gw_end w /\ gw_end w <= duration_ms) (axis_words c);
  ss_maps : length (st_maps st) = length ordered;
  ss_next : 1 <= st_next st;
  ss_named m : m ∈ st_maps st -> named (st_next st) m /\ one_to_one m;
  ss_total i c m w : ordered !! i = Some c -> st_maps st !! i = Some m -> w ∈ axis_words c -> is_Some (dict_get (gw_label w) m);
  ss_linked i j m m' l l' id : (i <= j)%nat -> st_maps st !! i = Some m -> st_maps st !! j = Some m' ->
    dict_get l m = Some id -> dict_get l' m' = Some id -> followed ordered i l j l'
}.

Lemma two_of {A} (l : list A) : NoDup l -> (2 <= length l)%nat -> exists x y, x <> y /\ x ∈ l /\ y ∈ l.
Proof. intros Hnd Hl. destruct l as [|x [|y l]]; simpl in Hl; [lia|lia|]. exists x, y. apply NoDup_cons in Hnd as [Hx _]. set_solver. Qed.
Lemma matches_pairs_NoDup a b : NoDup (matches_between a b).
Proof. apply (NoDup_fmap_1 snd), matches_NoDup. Qed.
Lemma link_pairs a b prior_map l l' id :
  one_to_one prior_map -> (forall w, w ∈ axis_words a -> is_Some (dict_get (gw_label w) prior_map)) ->
  dict_get l prior_map = Some id -> (2 <= link_count prior_map (axis_words a) (axis_words b) l' id (matches_between a b))%nat ->
  linked a b l l'.
Proof.
  intros Ho Ht Hl Hc. unfold link_count in Hc. apply two_of in Hc as (x & y & Hne & Hx & Hy).
  2: { apply (NoDup_ListNoDup (List.filter _ _)), List.NoDup_filter, NoDup_ListNoDup, matches_pairs_NoDup. }
  assert (forall m, m ∈ List.filter (links prior_map (axis_words a) (axis_words b) l' id) (matches_between a b) -> link_evidence a b l l' m) as Hm.
  { intros m [Hm Hlk]%list_elem_of_In%filter_In. split; [by apply list_elem_of_In|]. unfold links in Hlk.
    destruct (axis_words a !! m.1) as [p|] eqn:Ep; [|done]. destruct (axis_words b !! m.2) as [w|] eqn:Ew; [|done].
    to_prop. destruct Hlk as [El Ei]. exists p, w. split_and!; [done|done| |done].
    destruct (Ht p) as [id' E]; [by eapply list_elem_of_lookup_2|]. rewrite E in Ei. simpl in Ei. subst id'. by eapply Ho. }
  exists x, y. auto.
Qed.

Lemma stitched_state_nil : stitched_state [] (mk_stitching [] [] ∅ 1).
Proof.
  constructor; try done; [|by intros c ?%elem_of_nil|by intros m ?%elem_of_nil].
  intros i j r. cbn [st_roots]. rewrite lookup_empty. split; [done|]. intros (? & ? & -> & Ha & _). apply adjacent_inv in Ha as (_ & ? & ? & E & _). done.
Qed.
Lemma roots_of_first c roots : roots_of [] roots -> roots_of [c] roots.
Proof.
  intros Hr i j r. rewrite (Hr i j r). split; intros (? & ? & -> & Ha & _); apply adjacent_inv in Ha as (_ & ? & ? & E & E' & _); [done|].
  by apply lookup_lt_Some in E'; simpl in E'; lia.
Qed.
Lemma lookup_snoc_cases {A} (l : list A) x i y : (l ++ [x]) !! i = Some y -> l !! i = Some y \/ (i = length l /\ y = x).
Proof. intros [E|[E ->]]%lookup_snoc_Some; naive_solver. Qed.

(** What a step starts from: the labels that the alignment links, and the roots. *)
Record seeded (ordered : list ChunkTranscription) (c : ChunkTranscription) (st : stitching) (m0 : list (pystr * pystr))
    (roots : gmap (nat * nat) (nat * nat)) : Prop := {
  sd_one : one_to_one m0;
  sd_named : named (st_next st) m0;
  sd_roots : roots_of (ordered ++ [c]) roots;
  sd_linked l' id : dict_get l' m0 = Some id ->
    exists a m l, last ordered = Some a /\ last (st_maps st) = Some m /\ dict_get l m = Some id /\ linked a c l l'
}.
(** A linked label has the id of a label of the chunk before. *)
Lemma linked_source a c pm l' id : (forall w, w ∈ axis_words a -> is_Some (dict_get (gw_label w) pm)) ->
  dict_get l' (linked_labels pm (axis_words a) (axis_words c) (matches_between a c)) = Some id ->
  exists l, dict_get l pm = Some id.
Proof.
  intros Hpt E. apply (proj2 (linked_labels_spec _ _ _ _)) in E. unfold link_count in E.
  destruct (List.filter _ _) as [|x l0] eqn:Ef; [simpl in E; lia|].
  assert (x ∈ x :: l0) as Hx by left. rewrite <-Ef in Hx. apply list_elem_of_In, filter_In in Hx as [_ Hx]. unfold links in Hx.
  destruct (axis_words a !! x.1) as [p|] eqn:Ep; [|done]. destruct (axis_words c !! x.2); [|done]. to_prop. destruct Hx as [_ <-].
  destruct (Hpt p) as [id' Eid]; [by eapply list_elem_of_lookup_2|]. exists (gw_label p). by rewrite Eid.
Qed.
Lemma stitch_step_seeded ordered st prior_end c st' :
  stitched_state ordered st -> (forall a, last ordered = Some a -> prior_end = sp_end_ms (ct_span a)) -> 0 <= sp_start_ms (ct_span c) ->
  stitch_step duration_ms st prior_end c = Ok st' ->
  (axis_words c <> [] /\ Forall (fun w => 0 <= gw_start w < gw_end w /\ gw_end w <= duration_ms) (axis_words c))
  /\ exists m0 roots, seeded ordered c st m0 roots
  /\ let '(mapping, next) := fresh_labels (py_fromkeys (gw_label <$> axis_words c)) (st_next st) m0 in
     st' = mk_stitching (st_raw st ++ [axis_words c]) (st_maps st ++ [mapping]) roots next.
Proof.
  intros [Hraw Hroots Hwords Hmaps Hnext Hnamed Htotal Hlinked] Hend Hstart Hst. unfold stitch_step in Hst.
  apply bind_ok in Hst as (words & Hw & Hst). destruct (global_words_spec _ _ _ _ _ Hstart Hw) as [Ew Hok]. fold (axis_words c) in Ew.
  assert (words <> []) as Hne by (by destruct words). destruct words as [|w0 ws]; [done|]. set (words := w0 :: ws) in *. clearbody words. subst words.
  split; [done|]. destruct (last ordered) as [a|] eqn:Ea.
  - assert (last (st_raw st) = Some (axis_words a)) as El by (by rewrite Hraw, fmap_last, Ea).
    destruct (last (st_maps st)) as [pm|] eqn:Em; [|apply last_None in Em; apply (f_equal length) in Em; rewrite Hmaps in Em;
      destruct ordered; [done|simpl in Em; lia]].
    rewrite El in Hst. rewrite (Hend a) in Hst by done. fold (matches_between a c) in Hst. rewrite Hraw, length_fmap in Hst.
    assert (pm ∈ st_maps st) as Hpm by (rewrite last_lookup in Em; by eapply list_elem_of_lookup_2).
    destruct (Hnamed pm Hpm) as [Hpn Hpo].
    assert (forall w, w ∈ axis_words a -> is_Some (dict_get (gw_label w) pm)) as Hpt.
    { intros w. rewrite last_lookup in Ea. rewrite last_lookup, Hmaps in Em. by eapply Htotal. }
    destruct (linked_labels_spec pm (axis_words a) (axis_words c) (matches_between a c)) as [Ho Hsup].
    eexists _, _. split; [constructor; [exact Ho| |by apply roots_of_step|]|].
    + intros l' id [l E]%linked_source; [by apply (Hpn l)|done].
    + intros l' id E2. destruct (linked_source _ _ _ _ _ Hpt E2) as [l E1]. exists a, pm, l. rewrite Ea, Em.
      split_and!; [done..|]. by apply (link_pairs a c pm l l' id), Hsup.
    + rewrite Hraw. destruct (fresh_labels _ _ _) as [mapping next]. by injection Hst.
  - apply last_None in Ea as ->. simpl in Hraw. rewrite Hraw in Hst. simpl in Hst.
    exists [], (st_roots st). split; [constructor; [done|done|by apply roots_of_first|done]|]. rewrite Hraw.
    destruct (fresh_labels _ _ _) as [mapping next]. by injection Hst.
Qed.
Lemma stitch_step_spec ordered st prior_end c st' :
  stitched_state ordered st -> (forall a, last ordered = Some a -> prior_end = sp_end_ms (ct_span a)) -> 0 <= sp_start_ms (ct_span c) ->
  stitch_step duration_ms st prior_end c = Ok st' -> stitched_state (ordered ++ [c]) st'.
Proof.
  intros Hs Hend Hstart Hst. destruct (stitch_step_seeded _ _ _ _ _ Hs Hend Hstart Hst) as (Hok & m0 & roots & [Ho0 Hn0 Hr0 Hl0] & Hst').
  destruct Hs as [Hraw Hroots Hwords Hmaps Hnext Hnamed Htotal Hlinked]. destruct (fresh_labels _ _ _) as [mapping next] eqn:Ef. subst st'.
  destruct (fresh_labels_spec _ _ _ _ _ Hnext Ho0 Hn0 Ef) as (Hle & Ho & Hn & Hall & Hkeep & Hnew). constructor; simpl.
  - by rewrite Hraw, fmap_app.
  - done.
  - intros c' [Hc'| ->%list_elem_of_singleton]%elem_of_app; [by apply Hwords|done].
  - by rewrite !length_app, Hmaps.
  - lia.
  - intros m [Hm| ->%list_elem_of_singleton]%elem_of_app; [|done]. destruct (Hnamed m Hm) as [Hmn Hmo]. split; [|done].
    intros l id E. destruct (Hmn l id E) as (n & ? & ->). exists n. split; [lia|done].
  - intros i c' m w [Hi|[-> ->]]%lookup_snoc_cases [Hm|[Ei ->]]%lookup_snoc_cases Hin.
    + by eapply Htotal.
    + apply lookup_lt_Some in Hi. lia.
    + apply lookup_lt_Some in Hm. lia.
    + apply Hall. unfold py_fromkeys. rewrite elem_of_reverse, elem_of_remove_dups, elem_of_reverse. by apply list_elem_of_fmap_2.
  - intros i j m m' l l' id Hij Hm Hm' E1 E2.
    apply lookup_snoc_cases in Hm as [Hm|[Ei ->]], Hm' as [Hm'|[Ej ->]].
    + by eapply followed_app, Hlinked.
    + destruct (Hnew _ _ E2) as [E2'|(n & Hge & ->)].
      * destruct (Hl0 _ _ E2') as (a & pm & l1 & Ea & Em & E & Hl). rewrite last_lookup in Ea. rewrite last_lookup in Em.
        pose proof (lookup_lt_Some _ _ _ Hm) as Hlt. rewrite Hmaps in Em, Hlt.
        destruct ordered as [|x rest] eqn:Eo; [done|]. rewrite <-Eo in *.
        assert (length ordered = S (pred (length ordered))) as Elen by (rewrite Eo; done).
        rewrite Ej, Hmaps, Elen. apply (followed_next _ _ _ _ a c l1).
        -- apply followed_app. apply (Hlinked i (pred (length ordered)) m pm _ _ id); [lia|done..].
        -- by apply lookup_app_l_Some.
        -- rewrite <-Elen. by rewrite list_lookup_middle.
        -- done.
      * exfalso. destruct (Hnamed m) as [Hmn _]; [by eapply list_elem_of_lookup_2|]. destruct (Hmn _ _ E1) as (q & ? & Eq).
        apply speaker_name_inj in Eq. lia.
    + apply lookup_lt_Some in Hm'. lia.
    + rewrite (Ho _ _ _ E1 E2), Ei, Ej. constructor.
Qed.
Lemma stitch_loop_spec items : forall ordered st prior_end st',
  stitched_state ordered st -> (forall a, last ordered = Some a -> prior_end = sp_end_ms (ct_span a)) ->
  Forall (fun c => 0 <= sp_start_ms (ct_span c)) items ->
  stitch_loop duration_ms st prior_end items = Ok st' -> stitched_state (ordered ++ items) st'.
Proof.
  induction items as [|c items IH]; intros ordered st prior_end st' Hs He Hi Hst; simpl in Hst.
  - simplify_eq. by rewrite app_nil_r.
  - apply bind_ok in Hst as (st1 & H1 & H2). apply Forall_cons in Hi as [Hc Hi].
    rewrite cons_middle, app_assoc. eapply (IH _ st1); [by eapply stitch_step_spec| |done|done].
    intros a. rewrite last_snoc. by intros [= ->].
Qed.
End stitched.

(** ** One word for each utterance *)

Section once.
Context `{Unicode} `{MediaHost}.
Notation key := (nat * nat)%type.

(** *** Keys and observations *)

Lemma all_keys_elem raw k : k ∈ all_keys raw <-> is_Some (word_at raw k).
Proof.
  unfold all_keys, word_at. rewrite list_elem_of_join. split.
  - intros (l & Hk & (i & ws & -> & Hi)%elem_of_lookup_imap). apply list_elem_of_fmap in Hk as (j & -> & Hj%elem_of_seq). simpl.
    rewrite Hi. simpl. apply lookup_lt_is_Some. lia.
  - destruct k as [i j]. simpl. intros [w (ws & Hi & Hj)%bind_Some]. eexists. split.
    2: { apply elem_of_lookup_imap. by exists i, ws. }
    apply list_elem_of_fmap. exists j. split; [done|]. apply elem_of_seq. apply lookup_lt_Some in Hj. lia.
Qed.
Lemma all_keys_NoDup raw : NoDup (all_keys raw).
Proof.
  unfold all_keys. assert (forall n, NoDup (mjoin (imap (fun i l => (fun j => ((i + n)%nat, j)) <$> seq 0 (length l)) raw))) as E.
  2: { specialize (E 0%nat). erewrite imap_ext; [exact E|]. intros i l _. simpl. by rewrite Nat.add_0_r. }
  induction raw as [|l raw IH]; intros n; [constructor|]. rewrite imap_cons. simpl. apply NoDup_app. split_and!.
  - apply NoDup_fmap_2; [by intros ? ? [= ->]|]. apply NoDup_seq.
  - intros k (j & -> & _)%list_elem_of_fmap. rewrite list_elem_of_join. intros (m & Hk & (i & ws & -> & _)%elem_of_lookup_imap).
    apply list_elem_of_fmap in Hk as (j' & [=] & _). lia.
  - specialize (IH (S n)). erewrite imap_ext; [exact IH|]. intros i ws _. simpl. by rewrite Nat.add_succ_r.
Qed.

Section observe.
Variable f : key -> key.
Definition observed (done : list key) (obs : list (key * list key)) : Prop :=
  NoDup obs.*1 /\ forall r ks, (r, ks) ∈ obs <-> ks = filter (fun k => f k = r) done /\ ks <> [].
Lemma observe_fst r k obs : (observe r k obs).*1 = if decide (r ∈ obs.*1) then obs.*1 else obs.*1 ++ [r].
Proof.
  induction obs as [|[r' ks] obs IH]; [done|]. cbn [observe]. destruct (decide (r' = r)) as [->|Hne].
  - by rewrite decide_True by (simpl; left).
  - rewrite !fmap_cons, IH. simpl. destruct (decide (r ∈ obs.*1)); [rewrite decide_True by (by right); done|].
    rewrite decide_False; [done|]. rewrite elem_of_cons. naive_solver.
Qed.
Lemma observe_elem r k obs r' ks' : NoDup obs.*1 -> (r', ks') ∈ observe r k obs <->
  (r' <> r /\ (r', ks') ∈ obs) \/ (r' = r /\ ((exists ks, (r, ks) ∈ obs /\ ks' = ks ++ [k]) \/ (r ∉ obs.*1 /\ ks' = [k]))).
Proof.
  induction obs as [|[q ks] obs IH]; intros Hnd.
  - simpl. rewrite list_elem_of_singleton. split; [intros [= -> ->]; right; split; [done|]; right; set_solver|].
    intros [[_ ?%elem_of_nil]|[-> [(? & ?%elem_of_nil & _)|[_ ->]]]]; done.
  - rewrite fmap_cons in Hnd. apply NoDup_cons in Hnd as [Hq Hnd]. cbn [observe]. destruct (decide (q = r)) as [->|Hne].
    + rewrite !elem_of_cons. split.
      * intros [[= -> ->]|Hin]; [right; split; [done|]; left; exists ks; split; [by left|done]|]. left. split; [|by right].
        intros ->. apply Hq. by apply (list_elem_of_fmap_2 fst) in Hin.
      * intros [[Hr [[= ? ?]|Hin]]|[-> [(ks0 & [[= ->]|Hin]%elem_of_cons & ->)|[Hr _]]]]; [done|by right|by left| |].
        { destruct Hq. by apply (list_elem_of_fmap_2 fst) in Hin. }
        { destruct Hr. by left. }
    + rewrite !elem_of_cons, (IH Hnd). split.
      * intros [[= -> ->]|[[Hr Hin]|[-> [(ks0 & Hin & ->)|[Hr ->]]]]]; [left; split; [done|by left]|left; split; [done|by right]|..].
        { right. split; [done|]. left. exists ks0. split; [by right|done]. }
        { right. split; [done|]. right. split; [|done]. rewrite fmap_cons, not_elem_of_cons. naive_solver. }
      * intros [[Hr [[= -> ->]|Hin]]|[-> [(ks0 & [[= -> ->]|Hin]%elem_of_cons & ->)|[Hr ->]]]]; [by left|right; by left|done|..].
        { right. right. split; [done|]. left. by exists ks0. }
        { right. right. split; [done|]. right. split; [|done]. rewrite fmap_cons, not_elem_of_cons in Hr. tauto. }
Qed.
Lemma observe_ok done k obs : observed done obs -> observed (done ++ [k]) (observe (f k) k obs).
Proof.
  intros [Hnd Ho]. split.
  - rewrite observe_fst. destruct (decide _) as [|Hn]; [done|]. apply NoDup_app. split_and!; [done|set_solver|apply NoDup_singleton].
  - intros r ks. rewrite observe_elem, filter_app, filter_cons, filter_nil by done. split.
    + intros [[Hr [-> Hne]%Ho]|[-> [(ks0 & [-> Hne]%Ho & ->)|[Hr ->]]]].
      * rewrite decide_False, app_nil_r by done. done.
      * rewrite decide_True by done. split; [done|]. by destruct (filter _ _).
      * rewrite decide_True by done. split; [|done]. destruct (filter _ done) as [|x l] eqn:E; [done|]. exfalso. apply Hr.
        apply (list_elem_of_fmap_2' fst _ (f k, x :: l)); [|done]. apply Ho. by rewrite E.
    + intros [-> Hne]. destruct (decide (f k = r)) as [<-|Hr].
      * right. split; [done|]. destruct (filter _ done) as [|x l] eqn:E.
        { right. split; [|done]. intros ([r ks] & Er & [-> Hks]%Ho)%list_elem_of_fmap. simpl in Er. subst r. by rewrite E in Hks. }
        left. exists (x :: l). split; [|done]. apply Ho. by rewrite E.
      * left. rewrite app_nil_r in *. split; [done|]. by apply Ho.
Qed.
Lemma observed_all keys : observed keys (foldl (fun obs k => observe (f k) k obs) [] keys).
Proof.
  induction keys as [|k keys IH] using rev_ind; [|rewrite foldl_snoc; by apply observe_ok].
  split; [constructor|]. intros r ks. split; [by intros ?%elem_of_nil|]. by intros [-> ?].
Qed.
End observe.

Lemma min_key_choice k ks : foldl min_key k ks ∈ k :: ks.
Proof.
  revert k. induction ks as [|k' ks IH]; intros k; simpl; [by left|]. specialize (IH (min_key k k')).
  apply elem_of_cons in IH as [->|?]; [|by right; right]. unfold min_key. destruct (_ || _); set_solver.
Qed.
Lemma pick_some owned ks k : pick owned ks = Some k -> k ∈ ks /\ (owned k = true \/ (2 <= length ks)%nat).
Proof.
  unfold pick. destruct (List.filter owned ks) as [|x l] eqn:E.
  - destruct ks as [|y [|z ks]]; [done|done|]. intros [= <-]. split; [apply (min_key_choice y (z :: ks))|right; simpl; lia].
  - assert (foldl min_key x l ∈ List.filter owned ks) as Hin by (rewrite E; apply min_key_choice).
    apply list_elem_of_In, filter_In in Hin as [Hin Ho]. intros Hp. assert (k = foldl min_key x l) as -> by (by destruct ks as [|? []]; simplify_eq).
    split; [by apply list_elem_of_In|by left].
Qed.
Lemma pick_none owned ks : pick owned ks = None -> ks = [] \/ exists k, ks = [k] /\ owned k = false.
Proof.
  unfold pick. destruct (List.filter owned ks) as [|x l] eqn:E.
  - destruct ks as [|y [|z ks]]; [by left| |done]. intros _. right. exists y. split; [done|]. simpl in E. by destruct (owned y).
  - destruct ks; done.
Qed.
End once.

Section stitch_theorems.
Context `{Unicode} `{MediaHost}.
Notation key := (nat * nat)%type.

Definition in_order (chunks : list ChunkTranscription) : list ChunkTranscription :=
  py_sorted (fun a b => sp_index (ct_span a) <=? sp_index (ct_span b)) chunks.
Definition owns (duration_ms : Z) (ordered : list ChunkTranscription) (k : key) : bool :=
  is_owned duration_ms (boundaries (ct_span <$> ordered)) (axis_words <$> ordered) k.
(** The stitched word repeats the observation [k]. *)
Definition spoken (ordered : list ChunkTranscription) (k : key) (sw : StitchedWord) : Prop :=
  exists w, word_of ordered k = Some w /\ sw_text sw = gw_text w /\ sw_start_ms sw = gw_start w /\ sw_end_ms sw = gw_end w
  /\ sw_confidence sw = gw_confidence w.

Lemma check_spans_spec d items : forall expected prior u, check_spans d expected prior items = Ok u ->
  Forall (fun c => 0 <= sp_start_ms (ct_span c) < sp_end_ms (ct_span c) /\ sp_end_ms (ct_span c) <= d) items.
Proof.
  induction items as [|c items IH]; intros expected prior u Hc; simpl in Hc; [constructor|].
  apply guard_or_ok in Hc as [Hi Hc]. apply guard_or_ok in Hc as [He Hc]. apply guard_or_ok in Hc as [_ Hc].
  to_prop. rewrite !Z.leb_le, !Z.ltb_lt in *. constructor; [lia|by eapply IH].
Qed.

Section result.
Variables (duration_ms : Z) (ordered : list ChunkTranscription) (st : stitching).
Hypothesis Hst : stitched_state duration_ms ordered st.
Let owned := is_owned duration_ms (boundaries (ct_span <$> ordered)) (st_raw st).
Let obs := observations (st_roots st) (st_raw st).
Let keys := omap (fun '(_, instances) => pick owned instances) obs.

Lemma owned_owns k : owned k = owns duration_ms ordered k.
Proof. unfold owned, owns. by rewrite (ss_raw _ _ _ Hst). Qed.
Lemma key_word k : is_Some (word_at (st_raw st) k) <-> is_Some (word_of ordered k).
Proof. by rewrite (ss_raw _ _ _ Hst), word_at_axis. Qed.
Lemma observations_ok : observed (root_of (st_roots st)) (all_keys (st_raw st)) obs.
Proof. apply observed_all. Qed.
Lemma keys_spec k : k ∈ keys <-> exists ks, ks = filter (fun k' => root_of (st_roots st) k' = root_of (st_roots st) k) (all_keys (st_raw st))
  /\ pick owned ks = Some k /\ k ∈ ks.
Proof.
  destruct observations_ok as [_ Ho]. unfold keys. rewrite list_elem_of_omap. split.
  - intros ([r ks] & [-> Hne]%Ho & Hp). destruct (pick_some _ _ _ Hp) as [Hin _]. pose proof Hin as [Hr _]%list_elem_of_filter.
    rewrite <-Hr in Hin, Hp. rewrite Hr in Hin, Hp. subst r. by eexists.
  - intros (ks & -> & Hp & Hin). exists (root_of (st_roots st) k, filter (fun k' => root_of (st_roots st) k' = root_of (st_roots st) k) (all_keys (st_raw st))).
    split; [|done]. apply Ho. split; [done|]. intros E. rewrite E in Hin. by apply elem_of_nil in Hin.
Qed.
Lemma keys_roots : NoDup (root_of (st_roots st) <$> keys).
Proof.
  destruct observations_ok as [Hnd Ho]. unfold keys.
  assert (forall l, (forall r ks, (r, ks) ∈ l -> (r, ks) ∈ obs) -> NoDup l.*1 ->
    NoDup (root_of (st_roots st) <$> omap (fun '(_, instances) => pick owned instances) l)
    /\ forall x, x ∈ root_of (st_roots st) <$> omap (fun '(_, instances) => pick owned instances) l -> x ∈ l.*1) as E.
  2: by apply (E obs).
  induction l as [|[r ks] l IH]; intros Hl Hl1; [by split; [constructor|]|]. rewrite fmap_cons in Hl1. apply NoDup_cons in Hl1 as [Hr Hl1].
  destruct IH as [IH1 IH2]; [intros ? ? ?; apply Hl; by right|done|]. csimpl. destruct (pick owned ks) as [k|] eqn:Ek.
  2: { split; [done|]. intros x Hx. right. by apply IH2. }
  assert (root_of (st_roots st) k = r) as Er.
  { destruct (pick_some _ _ _ Ek) as [Hin _]. assert ((r, ks) ∈ obs) as [-> _]%Ho by (apply Hl; by left).
    by apply list_elem_of_filter in Hin as [? _]. }
  csimpl. rewrite Er. split; [constructor; [|done]; intros Hx; by apply Hr, IH2|].
  intros x [->|Hx]%elem_of_cons; [by left|right; by apply IH2].
Qed.
Lemma keys_words : exists ws, omap (fun '(_, instances) => pick owned instances ≫= stitched_word st) obs = ws
  /\ Forall2 (spoken ordered) keys ws
  /\ Forall (fun sw => exists k w m, word_of ordered k = Some w /\ st_maps st !! k.1 = Some m
       /\ spoken ordered k sw /\ sw_speaker_id sw = default [] (dict_get (gw_label w) m)) ws.
Proof.
  eexists. split; [done|]. assert (Forall (fun k => is_Some (word_of ordered k)) keys) as Hk.
  { apply Forall_forall. intros k (ks & -> & _ & [_ Hin]%list_elem_of_filter)%keys_spec. by apply key_word, all_keys_elem. }
  unfold keys in *. induction obs as [|[r ks] l IH]; [by split; constructor|]. csimpl in *. destruct (pick owned ks) as [k|]; [|by apply IH].
  simpl in *. apply Forall_cons in Hk as [[w Hw] Hk]. destruct (IH Hk) as [IH1 IH2].
  assert (is_Some (st_maps st !! k.1)) as [m Hm].
  { apply lookup_lt_is_Some. rewrite (ss_maps _ _ _ Hst). unfold word_of in Hw. apply bind_Some in Hw as (c & Hc & _). by eapply lookup_lt_Some. }
  assert (stitched_word st k = Some (mk_stitched (gw_text w) (gw_start w) (gw_end w) (default [] (dict_get (gw_label w) m)) (gw_confidence w))) as E.
  { unfold stitched_word. rewrite (ss_raw _ _ _ Hst), word_at_axis, Hw. simpl. by rewrite Hm. }
  rewrite !E. assert (forall id, spoken ordered k (mk_stitched (gw_text w) (gw_start w) (gw_end w) id (gw_confidence w))) as Hs.
  { intros id. by exists w. }
  split; constructor; auto. exists k, w, m. auto.
Qed.

Lemma near_sym n w w' : near n w w' -> near n w' w.
Proof. intros (? & ? & ?). split; [done|]. lia. Qed.
Lemma utterances_near k k' w w' : utterance ordered k k' -> word_of ordered k = Some w -> word_of ordered k' = Some w' ->
  near (Z.abs (Z.of_nat k.1 - Z.of_nat k'.1)) w w'.
Proof.
  intros Hu Hw Hw'. apply (utterance_root _ _ (ss_roots _ _ _ Hst)) in Hu. destruct k as [i j], k' as [i' j']. simpl.
  destruct (le_ge_dec i' i).
  - rewrite Z.abs_eq by lia. by eapply (utterance_near _ _ (ss_roots _ _ _ Hst)).
  - rewrite Z.abs_neq by lia. apply near_sym. replace (- (Z.of_nat i - Z.of_nat i')) with (Z.of_nat i' - Z.of_nat i) by lia.
    by eapply (utterance_near _ _ (ss_roots _ _ _ Hst)); [done|lia|symmetry|..].
Qed.
Lemma utterance_class k : is_Some (word_of ordered k) ->
  k ∈ filter (fun k' => root_of (st_roots st) k' = root_of (st_roots st) k) (all_keys (st_raw st)).
Proof. intros Hk. apply list_elem_of_filter. split; [done|]. by apply all_keys_elem, key_word. Qed.
Lemma class_elem k k' : k' ∈ filter (fun k' => root_of (st_roots st) k' = root_of (st_roots st) k) (all_keys (st_raw st)) <->
  utterance ordered k k' /\ is_Some (word_of ordered k').
Proof. rewrite list_elem_of_filter, all_keys_elem, key_word, (utterance_root _ _ (ss_roots _ _ _ Hst)). naive_solver. Qed.
Lemma utterance_kept k : is_Some (word_of ordered k) ->
  (owns duration_ms ordered k = true \/ exists k', k' <> k /\ is_Some (word_of ordered k') /\ utterance ordered k k') <->
  exists k', k' ∈ keys /\ utterance ordered k k' /\ is_Some (word_of ordered k').
Proof.
  intros Hk. pose proof (utterance_class k Hk) as Hin. split.
  - intros Hwhy. destruct (pick owned (filter (fun k' => root_of (st_roots st) k' = root_of (st_roots st) k) (all_keys (st_raw st)))) as [k'|] eqn:Ep.
    + exists k'. destruct (pick_some _ _ _ Ep) as [Hin' _]. pose proof Hin' as [Hu Hw]%class_elem. split; [|done].
      apply keys_spec. eexists. split; [done|]. apply (utterance_root _ _ (ss_roots _ _ _ Hst)) in Hu. by rewrite <-Hu.
    + exfalso. destruct (pick_none _ _ Ep) as [E|(x & E & Hx)]; rewrite E in Hin; [by apply elem_of_nil in Hin|].
      apply list_elem_of_singleton in Hin as <-. rewrite owned_owns in Hx. destruct Hwhy as [?|(k' & Hne & Hw & Hu)]; [congruence|].
      assert (k' ∈ [k]) as ->%list_elem_of_singleton; [|done]. rewrite <-E. by apply class_elem.
  - intros (k' & (ks & -> & Hp & Hk')%keys_spec & Hu & Hw'). destruct (decide (k' = k)) as [->|Hne]; [|right; by exists k'].
    destruct (pick_some _ _ _ Hp) as [_ [Ho|Hl]]; [left; by rewrite <-owned_owns|]. right.
    destruct (two_of _ (NoDup_filter _ _ (all_keys_NoDup (st_raw st))) Hl) as (x & y & Hxy & Hx%class_elem & Hy%class_elem).
    destruct (decide (x = k)) as [->|]; [exists y|exists x]; naive_solver.
Qed.
End result.

Lemma NoDup_fmap_elem {A B} (f : A -> B) l x y : NoDup (f <$> l) -> x ∈ l -> y ∈ l -> f x = f y -> x = y.
Proof.
  intros Hnd [i Hi]%list_elem_of_lookup [j Hj]%list_elem_of_lookup E. enough (i = j) as -> by congruence.
  eapply NoDup_lookup; [exact Hnd| |]; rewrite list_lookup_fmap; [by rewrite Hi|by rewrite Hj, E].
Qed.
Lemma word_leb_total a b : word_leb a b = true \/ word_leb b a = true.
Proof. unfold word_leb. rewrite !orb_true_iff, !andb_true_iff, !Z.ltb_lt, !Z.leb_le, !Z.eqb_eq. lia. Qed.
Lemma word_leb_trans a b c : word_leb a b = true -> word_leb b c = true -> word_leb a c = true.
Proof. unfold word_leb. rewrite !orb_true_iff, !andb_true_iff, !Z.ltb_lt, !Z.leb_le, !Z.eqb_eq. lia. Qed.
Lemma stitch_result chunks duration_ms ws : stitch_chunk_transcriptions chunks duration_ms = Ok ws ->
  exists st, stitched_state duration_ms (in_order chunks) st /\ ws <> []
  /\ ws = py_sorted word_leb (omap (fun '(_, instances) =>
       pick (is_owned duration_ms (boundaries (ct_span <$> in_order chunks)) (st_raw st)) instances ≫= stitched_word st)
       (observations (st_roots st) (st_raw st))).
Proof.
  unfold stitch_chunk_transcriptions. destruct (_ || _); [done|]. fold (in_order chunks).
  intros ([] & Hc & (st & Hl & Hws)%bind_ok)%bind_ok. exists st. split.
  - rewrite <-(app_nil_l (in_order chunks)). eapply stitch_loop_spec; [apply stitched_state_nil|done| |done].
    eapply Forall_impl; [by eapply check_spans_spec|]. simpl. lia.
  - destruct (py_sorted word_leb _) as [|w l]; [done|]. by simplify_eq.
Qed.

(** C27: Stitching keeps every utterance once.  Words of adjacent chunks that the
    alignment of their shared audio matches are observations of one utterance; the
    stitched transcript has exactly one word for each utterance that some chunk owns
    (its middle lies in the chunk's window) or that was observed twice, repeated from
    one of its observations, whose normal form is the same and whose times differ by
    at most 750 ms a chunk; no other word is in it.  The words are in order of time
    and inside the duration of the file. *)
Theorem every_utterance_once chunks duration_ms ws :
  stitch_chunk_transcriptions chunks duration_ms = Ok ws ->
  let ordered := in_order chunks in
  (exists keys,
     (exists ws', ws ≡ₚ ws' /\ Forall2 (spoken ordered) keys ws')
     /\ NoDup keys /\ (forall k k', k ∈ keys -> k' ∈ keys -> utterance ordered k k' -> k = k')
     /\ forall k w, word_of ordered k = Some w ->
          (owns duration_ms ordered k = true \/ exists k', k' <> k /\ is_Some (word_of ordered k') /\ utterance ordered k k') <->
          exists k' w', k' ∈ keys /\ utterance ordered k k' /\ word_of ordered k' = Some w'
            /\ near (Z.abs (Z.of_nat k.1 - Z.of_nat k'.1)) w w')
  /\ StronglySorted (fun a b => word_leb a b = true) ws
  /\ Forall (fun sw => 0 <= sw_start_ms sw < sw_end_ms sw /\ sw_end_ms sw <= duration_ms) ws.
Proof.
  intros (st & Hst & _ & ->)%stitch_result. destruct (keys_words _ _ _ Hst) as (ws & -> & Hs & _). split; [|split].
  - eexists. split; [by exists ws; split; [apply py_sorted_perm|exact Hs]|]. pose proof (keys_roots duration_ms (in_order chunks) st) as Hnd.
    split; [by eapply NoDup_fmap_1|]. split.
    + intros k k' Hk Hk' Hu%(utterance_root _ _ (ss_roots _ _ _ Hst)). by eapply NoDup_fmap_elem.
    + intros k w Hw. rewrite (utterance_kept _ _ _ Hst) by done. split.
      * intros (k' & Hk' & Hu & w' & Hw'). exists k', w'. split_and!; [done..|]. by eapply utterances_near.
      * intros (k' & w' & Hk' & Hu & Hw' & _). by exists k'.
  - apply Sorted_StronglySorted; [intros ???; apply word_leb_trans|]. apply py_sorted_sorted, word_leb_total.
  - apply Forall_forall. intros sw Hsw%elem_of_py_sorted. apply list_elem_of_lookup in Hsw as [i Hi].
    destruct (Forall2_lookup_r _ _ _ _ _ Hs Hi) as (k & _ & w & Hw & _ & -> & -> & _).
    unfold word_of in Hw. apply bind_Some in Hw as (c & Hc & Hw). apply list_elem_of_lookup_2 in Hc, Hw.
    destruct (ss_words _ _ _ Hst c Hc) as [_ Hok]. rewrite Forall_forall in Hok. by apply Hok.
Qed.

(** C28: Speakers are never merged without evidence.  The stitched words carry
    file-local speaker ids, a name for each label of each chunk: two labels of one
    chunk have different ids, and labels of two different chunks, however far apart,
    have one id only where the speaker can be followed from the one to the other, the
    alignment of each two adjacent chunks on the way having matched at least two pairs
    of words of that speaker's labels. *)
Theorem speakers_kept_apart chunks duration_ms ws :
  stitch_chunk_transcriptions chunks duration_ms = Ok ws ->
  let ordered := in_order chunks in
  exists names : nat -> pystr -> pystr,
    Forall (fun sw => exists k w, word_of ordered k = Some w /\ spoken ordered k sw /\ sw_speaker_id sw = names k.1 (gw_label w)) ws
    /\ (forall i c w w', ordered !! i = Some c -> w ∈ axis_words c -> w' ∈ axis_words c ->
          names i (gw_label w) = names i (gw_label w') -> gw_label w = gw_label w')
    /\ (forall i j a b w w', (i <= j)%nat -> ordered !! i = Some a -> ordered !! j = Some b ->
          w ∈ axis_words a -> w' ∈ axis_words b ->
          names i (gw_label w) = names j (gw_label w') -> followed ordered i (gw_label w) j (gw_label w')).
Proof.
  intros (st & Hst & _ & ->)%stitch_result. destruct (keys_words _ _ _ Hst) as (ws & -> & _ & Hs). cbv zeta.
  exists (fun i l => default [] (st_maps st !! i ≫= dict_get l)).
  assert (forall i c w, in_order chunks !! i = Some c -> w ∈ axis_words c ->
    exists m id, st_maps st !! i = Some m /\ dict_get (gw_label w) m = Some id /\ one_to_one m) as Hid.
  { intros i c w Hc Hw. assert (is_Some (st_maps st !! i)) as [m Hm].
    { apply lookup_lt_is_Some. rewrite (ss_maps _ _ _ Hst). by eapply lookup_lt_Some. }
    destruct (ss_total _ _ _ Hst i c m w Hc Hm Hw) as [id Eid]. exists m, id. split_and!; [done..|].
    apply (ss_named _ _ _ Hst). by eapply list_elem_of_lookup_2. }
  split_and!.
  - apply Forall_forall. intros sw Hsw%elem_of_py_sorted. rewrite Forall_forall in Hs.
    destruct (Hs sw Hsw) as (k & w & m & Hw & Hm & Hsp & ->). exists k, w. by rewrite Hm.
  - intros i c w w' Hc Hw Hw'. destruct (Hid i c w Hc Hw) as (m & id & Hm & E & Ho), (Hid i c w' Hc Hw') as (m' & id' & Hm' & E' & _).
    simplify_eq. rewrite Hm. simpl. rewrite E, E'. simpl. intros ->. by eapply Ho.
  - intros i j a b w w' Hij Ha Hb Hw Hw'. destruct (Hid i a w Ha Hw) as (m & id & Hm & E & _), (Hid j b w' Hb Hw') as (m' & id' & Hm' & E' & _).
    rewrite Hm, Hm'. simpl. rewrite E, E'. simpl. intros ->. by eapply (ss_linked _ _ _ Hst).
Qed.
End stitch_theorems.

Section stitching_theorems.
Context `{Unicode} `{MediaHost}.

Lemma check_planned d items : forall expected prior,
  (forall i c, items !! i = Some c -> sp_index (ct_span c) = expected + Z.of_nat i /\ 0 <= sp_start_ms (ct_span c) < sp_end_ms (ct_span c)
     /\ sp_end_ms (ct_span c) <= d) ->
  (forall i c c', items !! i = Some c -> items !! S i = Some c' -> sp_start_ms (ct_span c') < sp_end_ms (ct_span c)) ->
  (forall c e, head items = Some c -> prior = Some e -> sp_start_ms (ct_span c) < e) ->
  check_spans d expected prior items = Ok tt.
Proof.
  induction items as [|c items IH]; intros expected prior Hi Hn Hp; [done|]. simpl. destruct (Hi 0%nat c eq_refl) as (E & ? & ?).
  rewrite E, Z.add_0_r, Z.eqb_refl, (proj2 (Z.leb_le _ _)), (proj2 (Z.ltb_lt _ _)) by lia. cbn [guard_or andb].
  rewrite (proj2 (Z.leb_le (sp_end_ms (ct_span c)) d)) by lia. cbn [guard_or].
  assert (match prior with Some e => sp_start_ms (ct_span c) <? e | None => true end = true) as ->.
  { destruct prior as [e|]; [|done]. apply Z.ltb_lt. by apply (Hp c e). }
  cbn [guard_or]. apply IH.
  - intros i x Hx. destruct (Hi (S i) x Hx) as (? & ? & ?). lia.
  - intros i x x' Hx Hx'. by apply (Hn (S i)).
  - intros x e Hx [= <-]. destruct items as [|y items]; [done|]. simplify_eq/=. by apply (Hn 0%nat).
Qed.
Lemma py_sorted_id {A} (leb : A -> A -> bool) l : StronglySorted (fun a b => leb a b = true) l -> py_sorted leb l = l.
Proof.
  induction 1 as [|x l _ IH Hx]; [done|]. simpl. rewrite IH. destruct Hx as [|y l Hy _]; simpl; [done|by rewrite Hy].
Qed.

(** C31: The audio plan covers the file.  For a valid configuration the plan is
    returned: numbered spans, each at most a chunk long and inside the duration,
    every one starting the overlap before the end of the one before it, that leave no
    instant of the file out; and transcriptions of these spans pass the checks of the
    stitching. *)
Theorem audio_plan_covers duration_ms max_chunk_ms overlap_ms : 0 < duration_ms -> 0 < overlap_ms < max_chunk_ms ->
  exists spans, plan_audio_chunks duration_ms max_chunk_ms overlap_ms = Some (Ok spans)
  /\ (forall i s, spans !! i = Some s -> sp_index s = Z.of_nat i /\ 0 <= sp_start_ms s < sp_end_ms s /\ sp_end_ms s <= duration_ms
       /\ sp_end_ms s - sp_start_ms s <= max_chunk_ms)
  /\ (forall i s s', spans !! i = Some s -> spans !! S i = Some s' -> sp_start_ms s' = sp_end_ms s - overlap_ms)
  /\ (forall t, 0 <= t < duration_ms -> exists s, s ∈ spans /\ sp_start_ms s <= t < sp_end_ms s)
  /\ (forall results, ct_span <$> results = spans -> check_spans duration_ms 0 None (in_order results) = Ok tt).
Proof.
  intros Hd Hov. unfold plan_audio_chunks. rewrite (proj2 (Z.leb_gt duration_ms 0)), (proj2 (Z.leb_gt max_chunk_ms 0)) by lia.
  rewrite (proj2 (Z.leb_gt overlap_ms 0)), (proj2 (Z.leb_gt max_chunk_ms overlap_ms)) by lia. cbn [orb].
  destruct (plan_loop_spec duration_ms max_chunk_ms overlap_ms Hov (plan_fuel duration_ms max_chunk_ms overlap_ms) 0 0) as (spans & -> & Hp); [lia| |].
  { unfold plan_fuel. rewrite Z.sub_0_r, !Nat2Z.inj_succ, Z2Nat.id by (apply Z.div_pos; lia). lia. }
  destruct (planned_spans _ _ _ Hov spans 0 0 ltac:(lia) Hd Hp) as (I1 & I2 & I3). exists spans. split_and!; [done|by intros i s Hs%I1|done|done|].
  intros results Er. assert (forall i c, results !! i = Some c -> spans !! i = Some (ct_span c)) as Hl.
  { intros i c Hc. by rewrite <-Er, list_lookup_fmap, Hc. }
  assert (in_order results = results) as ->.
  { apply py_sorted_id. assert (forall l n, (forall i c, l !! i = Some c -> sp_index (ct_span c) = n + Z.of_nat i) ->
      StronglySorted (fun a b => (sp_index (ct_span a) <=? sp_index (ct_span b)) = true) l) as Hsort.
    { induction l as [|c l IH]; intros n Hn; [constructor|]. constructor.
      - apply (IH (n + 1)). intros i x Hx. rewrite (Hn (S i) x Hx). lia.
      - apply Forall_lookup. intros i x Hx. apply Z.leb_le. rewrite (Hn 0%nat c eq_refl), (Hn (S i) x Hx). lia. }
    apply (Hsort _ 0). intros i c Hc%Hl. by apply I1 in Hc as [? _]. }
  apply check_planned.
  - intros i c Hc%Hl. destruct (I1 i _ Hc) as (? & ? & ? & _). lia.
  - intros i c c' Hc%Hl Hc'%Hl. rewrite (I2 i _ _ Hc Hc'). lia.
  - done.
Qed.

(** C29: The alignment of the audio two chunks share is the best one.  Its pairs are
    in order on both sides and one to one, of words that meet the shared audio, have
    the same normal form and are at most 750 ms apart; and no other such matching has
    more pairs, or as many at a smaller total distance. *)
Theorem alignment_is_best previous current overlap_start overlap_end :
  let matches := _align_overlap_words previous current overlap_start overlap_end in
  shared previous current overlap_start overlap_end matches
  /\ forall other, shared previous current overlap_start overlap_end other ->
       no_better (score_of previous current other) (score_of previous current matches).
Proof. apply align_spec. Qed.
End stitching_theorems.

(** ** Examples *)

#[local] Existing Instance demo_unicode.
#[local] Instance demo_media : MediaHost := {| casefold := fmap ascii_lower; float_of_str := fun _ => None |}.

(** Twenty seconds in two chunks that share four; two people, whose labels the second
    request numbers anew. *)
Definition demo_word (t : string) (start stop : Z) (label : string) : TranscriptionWord :=
  mk_word (cp t) start stop (cp label) (Some (9 # 10)%Q).
Definition demo_first : ChunkTranscription := mk_chunk_transcription (mk_span 0 0 12000)
  (mk_transcription (cp "Hello") [demo_word "Hello," 1000 1500 "0"; demo_word "my" 1600 1800 "0"; demo_word "name" 1900 2200 "0";
     demo_word "is" 2300 2400 "0"; demo_word "Ana." 2500 3000 "0"; demo_word "We" 8500 8700 "0"; demo_word "signed" 9000 9400 "0";
     demo_word "it." 9500 9800 "0"; demo_word "When?" 10500 11000 "1"] None (cp "stt")).
Definition demo_second : ChunkTranscription := mk_chunk_transcription (mk_span 1 8000 20000)
  (mk_transcription (cp "signed") [demo_word "signed" 1100 1500 "7"; demo_word "it." 1600 1900 "7"; demo_word "When?" 2600 3100 "0";
     demo_word "In" 5000 5200 "7"; demo_word "May." 5300 5900 "7"] None (cp "stt")).
Definition demo_words : list StitchedWord := match stitch_chunk_transcriptions [demo_second; demo_first] 20000 with Ok ws => ws | Err _ => [] end.

Example demo_plan : plan_audio_chunks 20000 12000 4000 = Some (Ok [mk_span 0 0 12000; mk_span 1 8000 20000]).
Proof. reflexivity. Qed.

Lemma demo_words_stitched : stitch_chunk_transcriptions [demo_second; demo_first] 20000 = Ok demo_words.
Proof. by vm_compute. Qed.
Theorem audio_plan_covers_witness :
  0 < 20000 /\ plan_audio_chunks 20000 12000 4000 = Some (Ok [mk_span 0 0 12000; mk_span 1 8000 20000])
  /\ check_spans 20000 0 None (in_order [demo_first; demo_second]) = Ok tt.
Proof.
  split; [lia|]. destruct (audio_plan_covers 20000 12000 4000 ltac:(lia) ltac:(lia)) as (spans & E & _ & _ & _ & Hc).
  rewrite demo_plan in E. injection E as <-. split; [exact demo_plan|]. apply Hc. reflexivity.
Defined.

(** The shared words pair off. *)
Theorem alignment_is_best_witness :
  matches_between demo_first demo_second = [(6, 0); (7, 1); (8, 2)]%nat
  /\ no_better (score_of (axis_words demo_first) (axis_words demo_second) [(6, 0)]%nat) (3, - 600).
Proof.
  destruct (alignment_is_best (axis_words demo_first) (axis_words demo_second) 8000 12000) as [_ Hbest].
  assert (_align_overlap_words (axis_words demo_first) (axis_words demo_second) 8000 12000 = [(6, 0); (7, 1); (8, 2)]%nat) as E by (by vm_compute).
  split; [exact E|]. rewrite E in Hbest.
  replace (3, - 600) with (score_of (axis_words demo_first) (axis_words demo_second) [(6, 0); (7, 1); (8, 2)]%nat) by (by vm_compute).
  apply Hbest. split; [split|].
  - repeat constructor.
  - constructor; [|constructor]. eexists _, _. split_and!; [reflexivity|reflexivity|by vm_compute].
  - constructor; [|constructor]. split; eexists; (split; [reflexivity|by vm_compute]).
Defined.

(** Three utterances were heard twice; each is there once. *)
Theorem every_utterance_once_witness :
  length demo_words = 11%nat /\ StronglySorted (fun a b => word_leb a b = true) demo_words.
Proof.
  split; [by vm_compute|]. destruct (every_utterance_once [demo_second; demo_first] 20000 demo_words demo_words_stitched) as (_ & Hs & _). exact Hs.
Defined.

(** Label 7 of the second request is label 0 of the first; its label 0, with one
    word in common, is a new speaker. *)
Theorem speakers_kept_apart_witness :
  remove_dups (sw_speaker_id <$> demo_words) = [speaker_name 3; speaker_name 1]
  /\ exists names : nat -> pystr -> pystr, Forall (fun sw => exists k w, word_of (in_order [demo_second; demo_first]) k = Some w
       /\ spoken (in_order [demo_second; demo_first]) k sw /\ sw_speaker_id sw = names k.1 (gw_label w)) demo_words.
Proof.
  split; [by vm_compute|].
  destruct (speakers_kept_apart [demo_second; demo_first] 20000 demo_words demo_words_stitched) as (names & Hn & _). exists names. exact Hn.
Defined.
