(* ===== verification/Transcripts.v ===== *)
(** * Transcripts as evidence

    The theorems of the second half of [Media]: segments and retrieval chunks are
    faithful to the stitched words and pass the checks of the transcript repository;
    names are inferred only from what was said; provider responses are checked and
    their checkpoints give the same words back. *)

From stdpp Require Import base list strings sets gmap sorting pretty relations.
From Stdlib Require Import Lia ZArith QArith.
From S2P Require Import Prelude Json Chunking Grounding Reasoning Context Media Stitching.
Open Scope Z_scope.

(** ** Segments *)

Section transcript.
Context `{Unicode} `{MediaHost}.

(** *** Segments *)

Lemma min_list_spec l x : x ∈ l -> min_list l <= x /\ min_list l ∈ l.
Proof.
  destruct l as [|y l]; [by intros ?%elem_of_nil|]. cbn [min_list].
  assert (forall l y, foldl Z.min y l <= y /\ (forall x, x ∈ l -> foldl Z.min y l <= x) /\ foldl Z.min y l ∈ y :: l) as E.
  { clear. induction l as [|z l IH]; intros y; simpl; [split_and!; [lia|by intros ? ?%elem_of_nil|by left]|].
    destruct (IH (Z.min y z)) as (? & Hall & Hin). split_and!; [lia|intros x [->|Hx]%elem_of_cons; [lia|by apply Hall]|].
    apply elem_of_cons in Hin as [->|?]; [|by right; right]. destruct (Z.min_spec y z) as [[_ ->]|[_ ->]]; set_solver. }
  destruct (E l y) as (? & Hall & ?). intros [->|Hx]%elem_of_cons; [done|]. split; [by apply Hall|done].
Qed.
Lemma max_list_spec l x : x ∈ l -> x <= max_list l /\ max_list l ∈ l.
Proof.
  destruct l as [|y l]; [by intros ?%elem_of_nil|]. cbn [max_list].
  assert (forall l y, y <= foldl Z.max y l /\ (forall x, x ∈ l -> x <= foldl Z.max y l) /\ foldl Z.max y l ∈ y :: l) as E.
  { clear. induction l as [|z l IH]; intros y; simpl; [split_and!; [lia|by intros ? ?%elem_of_nil|by left]|].
    destruct (IH (Z.max y z)) as (? & Hall & Hin). split_and!; [lia|intros x [->|Hx]%elem_of_cons; [lia|by apply Hall]|].
    apply elem_of_cons in Hin as [->|?]; [|by right; right]. destruct (Z.max_spec y z) as [[_ ->]|[_ ->]]; set_solver. }
  destruct (E l y) as (? & Hall & ?). intros [->|Hx]%elem_of_cons; [done|]. split; [by apply Hall|done].
Qed.

(** A turn: words of one speaker. *)
Definition turn (g : list StitchedWord) : Prop := g <> [] /\ forall w w', w ∈ g -> w' ∈ g -> sw_speaker_id w = sw_speaker_id w'.
Lemma add_word_spec gap w groups : Forall turn groups ->
  mjoin (add_word gap w groups) = mjoin groups ++ [w] /\ Forall turn (add_word gap w groups).
Proof.
  assert (turn [w]) as Hw by (split; [done|]; intros ? ? ->%list_elem_of_singleton ->%list_elem_of_singleton; done).
  induction groups as [|g groups IH]; intros Hg; [split; [done|by apply Forall_singleton]|]. apply Forall_cons in Hg as [Hg Hgs].
  destruct groups as [|g' groups].
  - cbn [add_word]. destruct (last g) as [v|] eqn:Ev.
    2: { apply last_None in Ev as ->. by destruct Hg. }
    destruct (_ || _) eqn:Ec; [simpl; rewrite app_nil_r; split; [done|constructor; [done|by apply Forall_singleton]]|].
    apply orb_false_iff in Ec as [Ec _]. apply negb_false_iff, bool_decide_eq_true in Ec. simpl. rewrite !app_nil_r. split; [done|].
    apply Forall_singleton. split; [by destruct g|].
    assert (forall x, x ∈ g ++ [w] -> sw_speaker_id x = sw_speaker_id v) as E.
    { intros x [Hx| ->%list_elem_of_singleton]%elem_of_app; [|done]. apply (proj2 Hg); [done|]. rewrite last_lookup in Ev.
      by eapply list_elem_of_lookup_2. }
    intros x y Hx%E Hy%E. congruence.
  - destruct (IH Hgs) as [IH1 IH2]. change (add_word gap w (g :: g' :: groups)) with (g :: add_word gap w (g' :: groups)).
    split; [|by constructor]. change (g ++ mjoin (add_word gap w (g' :: groups)) = (g ++ mjoin (g' :: groups)) ++ [w]).
    by rewrite IH1, <-app_assoc.
Qed.
Definition word_ok (w : StitchedWord) : Prop := 0 <= sw_start_ms w < sw_end_ms w /\ blank (sw_text w) = false.
Lemma group_words_spec gap words : forall groups r, Forall turn groups -> group_words gap groups words = Ok r ->
  mjoin r = mjoin groups ++ words /\ Forall turn r /\ Forall word_ok words.
Proof.
  induction words as [|w words IH]; intros groups r Hg Hr; simpl in Hr; [simplify_eq; by rewrite app_nil_r|].
  apply guard_or_ok in Hr as [Hw Hr]. destruct (add_word_spec gap w groups Hg) as [E Ht]. destruct (IH _ _ Ht Hr) as (-> & ? & ?).
  rewrite E, <-app_assoc. split_and!; [done|done|]. to_prop. rewrite Z.leb_le, Z.ltb_lt in Hw. constructor; [split; [lia|tauto]|done].
Qed.

Lemma py_strip_nonblank s : blank s = false -> exists c t, py_strip s = c :: t.
Proof. intros Hb. destruct (py_strip s) as [|c t] eqn:E; [apply blank_strip in E; congruence|by eexists _, _]. Qed.
Lemma join_token_grows text token : blank token = false -> exists x y, join_token text token = x ++ py_strip token ++ y /\ text `prefix_of` join_token text token.
Proof.
  intros (c & t & E)%py_strip_nonblank. unfold join_token. rewrite E. cbv beta iota. destruct (_ || _).
  - exists text, []. split; [by rewrite app_nil_r|]. by apply prefix_app_r.
  - exists (text ++ [32%N]), []. split; [by rewrite app_nil_r, <-app_assoc|]. by apply prefix_app_r.
Qed.
Lemma join_tokens_holds tokens : forall text, Forall (fun t => blank t = false) tokens ->
  text `prefix_of` foldl join_token text tokens /\ Forall (fun t => py_substr (py_strip t) (foldl join_token text tokens) = true) tokens.
Proof.
  induction tokens as [|t tokens IH]; intros text Ht; [by split|]. apply Forall_cons in Ht as [Ht Hts]. simpl.
  destruct (join_token_grows text t Ht) as (x & y & E & Hp). destruct (IH (join_token text t) Hts) as [[z Hz] Hall]. split.
  - rewrite Hz. by apply prefix_app_r.
  - constructor; [|done]. rewrite Hz. apply py_substr_spec. exists x, (y ++ z). by rewrite E, <-!app_assoc.
Qed.
Lemma join_tokens_nonempty tokens : tokens <> [] -> Forall (fun t => blank t = false) tokens -> _join_tokens tokens <> [].
Proof.
  intros Hne Ht. destruct tokens as [|t tokens]; [done|]. destruct (join_tokens_holds (t :: tokens) [] Ht) as [_ [Hs _]%Forall_cons].
  apply Forall_cons in Ht as [(c & u & E)%py_strip_nonblank _]. unfold _join_tokens. intros Ej. rewrite Ej, E in Hs. done.
Qed.

Lemma Forall_parts {A} (P : A -> Prop) l : Forall P (mjoin l) -> Forall (Forall P) l.
Proof. induction l as [|x l IH]; simpl; [constructor|]. intros [? ?]%Forall_app. constructor; auto. Qed.
(** What a segment says of its turn. *)
Definition segment_of (g : list StitchedWord) (s : TranscriptSegmentDraft) : Prop :=
  sg_text s = _join_tokens (sw_text <$> g) /\ sg_text s <> []
  /\ (forall w, w ∈ g -> sg_speaker_id s = sw_speaker_id w)
  /\ sg_start_ms s = min_list (sw_start_ms <$> g) /\ sg_end_ms s = max_list (sw_end_ms <$> g)
  /\ sg_confidence s = mean (omap sw_confidence g).
Fixpoint laid_out (cursor : Z) (segments : list TranscriptSegmentDraft) : Prop :=
  match segments with
  | [] => True
  | s :: segments => sg_char_start s = cursor /\ sg_char_end s = cursor + Z.of_nat (length (sg_text s)) /\ laid_out (sg_char_end s + 1) segments
  end.
Lemma segments_from_spec ids groups : forall drawn ordinal cursor, Forall turn groups -> Forall (Forall word_ok) groups ->
  let segments := segments_from ids drawn ordinal cursor groups in
  Forall2 segment_of groups segments /\ laid_out cursor segments
  /\ sg_id <$> segments = ids <$> seq drawn (length segments)
  /\ sg_ordinal <$> segments = (fun i => ordinal + Z.of_nat i) <$> seq 0 (length segments).
Proof.
  induction groups as [|g groups IH]; intros drawn ordinal cursor Ht Hw; [by split_and!; [constructor|..]|].
  apply Forall_cons in Ht as [[Hne Hsp] Ht], Hw as [Hw Hws]. cbn [segments_from].
  assert (_join_tokens (sw_text <$> g) <> []) as Htext.
  { apply join_tokens_nonempty; [by destruct g|]. apply Forall_fmap. eapply Forall_impl; [exact Hw|]. by intros w [_ ?]. }
  set (text := _join_tokens (sw_text <$> g)) in *. destruct text as [|c t] eqn:Et; [done|]. rewrite <-Et in *. clear Et.
  destruct (IH (S drawn) (ordinal + 1) (cursor + Z.of_nat (length text) + 1) Ht Hws) as (I1 & I2 & I3 & I4).
  cbv zeta. set (rest := segments_from ids (S drawn) _ _ groups) in *. clearbody rest. split_and!.
  - constructor; [|done]. split_and!; try done. intros w Hin. simpl. destruct g as [|w0 g]; [done|]. apply Hsp; [by left|done].
  - done.
  - rewrite fmap_cons, I3. done.
  - rewrite fmap_cons, I4. cbn [length seq]. rewrite fmap_cons. cbn [sg_ordinal]. rewrite Z.add_0_r. f_equal. rewrite <-fmap_S_seq, <-list_fmap_compose. apply list_fmap_ext. intros i x _. simpl. lia.
Qed.
Lemma build_segments_spec ids words gap segments : build_transcript_segments ids words gap = Ok segments ->
  exists groups, mjoin groups = words /\ Forall turn groups /\ Forall word_ok words /\ segments <> []
  /\ Forall2 segment_of groups segments /\ laid_out 0 segments
  /\ sg_id <$> segments = ids <$> seq 0 (length segments)
  /\ sg_ordinal <$> segments = Z.of_nat <$> seq 0 (length segments).
Proof.
  unfold build_transcript_segments. destruct words as [|w0 words0]; [done|]. intros (groups & Hg & Hs)%bind_ok.
  apply group_words_spec in Hg as (E & Ht & Hok); [|constructor]. simpl in E. exists groups.
  assert (Forall (Forall word_ok) groups) as Hoks by (apply Forall_parts; by rewrite E).
  destruct (segments_from_spec ids groups 0 0 0 Ht Hoks) as (I1 & I2 & I3 & I4). destruct (segments_from ids 0 0 0 groups) as [|s l]; [done|].
  injection Hs as <-. by split_and!.
Qed.
Lemma build_segments_total ids words gap : words <> [] -> Forall word_ok words -> exists segments, build_transcript_segments ids words gap = Ok segments.
Proof.
  intros Hne Hok.
  assert (forall words groups, Forall word_ok words -> exists r, group_words gap groups words = Ok r) as Hg.
  { clear. induction words as [|w words IH]; intros groups Hw; [by eexists|]. apply Forall_cons in Hw as [[? Hb] Hw]. simpl.
    rewrite Hb, (proj2 (Z.leb_le _ _)), (proj2 (Z.ltb_lt _ _)) by lia. simpl. by apply IH. }
  destruct (Hg words [] Hok) as [groups Eg]. unfold build_transcript_segments. rewrite Eg. simpl.
  apply group_words_spec in Eg as (E & Ht & _); [|constructor]. simpl in E.
  assert (Forall (Forall word_ok) groups) as Hoks by (apply Forall_parts; by rewrite E).
  destruct (segments_from_spec ids groups 0 0 0 Ht Hoks) as (I1 & _). destruct words as [|w words]; [done|].
  destruct (segments_from ids 0 0 0 groups) as [|s l]; [|by eexists]. apply Forall2_nil_inv_r in I1 as ->. done.
Qed.
End transcript.

(** ** Names *)

Section names.
Context `{Unicode} `{MediaHost}.

Lemma dict_set_NoDup {V} (k : pystr) (v : V) d : NoDup d.*1 -> NoDup (dict_set k v d).*1.
Proof.
  intros Hnd. destruct (dict_get k d) as [w|] eqn:E.
  - assert ((dict_set k v d).*1 = d.*1) as ->; [|done]. clear Hnd. induction d as [|[k' v'] d IH]; [done|]. cbn [dict_set dict_get] in *.
    destruct (decide (k = k')) as [->|]; [done|]. by rewrite !fmap_cons, IH.
  - rewrite dict_set_fresh by done. rewrite fmap_app. apply NoDup_app. split_and!; [done| |apply NoDup_singleton].
    intros x Hx ->%list_elem_of_singleton. by apply dict_get_none in E.
Qed.

(** What a claim rests on. *)
Inductive backed (ordered : list TranscriptSegmentDraft) : pystr -> claim_of_name -> Prop :=
| backed_self s name : s ∈ ordered -> _self_name (sg_text s) = Some name ->
    backed ordered (sg_speaker_id s) (mk_name_claim name (98 # 100) SELF_INTRODUCTION [sg_id s])
| backed_dialogue i s r name : ordered !! i = Some s -> ordered !! S i = Some r -> _addressed_name (sg_text s) = Some name ->
    sg_speaker_id r <> sg_speaker_id s -> 0 <= sg_start_ms r - sg_end_ms s <= 10000 ->
    backed ordered (sg_speaker_id r) (mk_name_claim name (80 # 100) CONTEXTUAL_DIALOGUE [sg_id s; sg_id r]).

Record candidates_ok (ordered : list TranscriptSegmentDraft) (d : list (pystr * list claim_of_name)) : Prop := {
  co_keys : NoDup d.*1;
  co_backed sp l c : (sp, l) ∈ d -> c ∈ l -> backed ordered sp c
}.
Lemma add_candidate_ok ordered d sp c : candidates_ok ordered d -> backed ordered sp c -> candidates_ok ordered (add_candidate sp c d).
Proof.
  intros [Hk Hb] Hc. split; [by apply dict_set_NoDup|]. intros sp' l c' Hin Hc'.
  apply dict_set_elem in Hin as [[= -> ->]|Hin]; [|by eapply Hb]. apply elem_of_app in Hc' as [Hc'| ->%list_elem_of_singleton]; [|done].
  destruct (dict_get sp d) as [l|] eqn:E; simpl in Hc'; [|by apply elem_of_nil in Hc']. eapply Hb; [by apply dict_get_In|done].
Qed.
Lemma add_candidate_get sp c d sp' : dict_get sp' (add_candidate sp c d) = if decide (sp' = sp) then Some (default [] (dict_get sp d) ++ [c]) else dict_get sp' d.
Proof. apply dict_get_set. Qed.
(** The claims so far stay. *)
Definition extends (d d' : list (pystr * list claim_of_name)) : Prop :=
  forall sp l, dict_get sp d = Some l -> exists l', dict_get sp d' = Some l' /\ l `prefix_of` l'.
Lemma extends_refl d : extends d d.
Proof. intros sp l E. by exists l. Qed.
Lemma extends_trans d1 d2 d3 : extends d1 d2 -> extends d2 d3 -> extends d1 d3.
Proof. intros H1 H2 sp l E. destruct (H1 _ _ E) as (l' & E' & ?), (H2 _ _ E') as (l'' & ? & ?). exists l''. split; [done|by etrans]. Qed.
Lemma add_candidate_extends sp c d : extends d (add_candidate sp c d).
Proof.
  intros sp' l E. rewrite add_candidate_get. destruct (decide (sp' = sp)) as [->|]; [|by exists l]. rewrite E. simpl.
  eexists. split; [done|]. by apply prefix_app_r.
Qed.
Lemma self_introductions_ok ordered segments : forall d, candidates_ok ordered d -> (forall s, s ∈ segments -> s ∈ ordered) ->
  let d' := self_introductions segments d in
  candidates_ok ordered d' /\ extends d d'
  /\ forall s name, s ∈ segments -> _self_name (sg_text s) = Some name -> exists l c, dict_get (sg_speaker_id s) d' = Some l /\ c ∈ l /\ nc_name c = name.
Proof.
  unfold self_introductions. induction segments as [|s segments IH]; intros d Hd Hs; simpl.
  - split_and!; [done|apply extends_refl|by intros ? ? ?%elem_of_nil].
  - destruct (_self_name (sg_text s)) as [name|] eqn:En.
    + destruct (IH (add_candidate (sg_speaker_id s) (mk_name_claim name (98 # 100) SELF_INTRODUCTION [sg_id s]) d)) as (I1 & I2 & I3).
      { apply add_candidate_ok; [done|]. constructor; [by apply Hs; left|done]. }
      { intros s' Hs'. apply Hs. by right. }
      split_and!; [done|eapply extends_trans; [apply add_candidate_extends|done]|].
      intros s' name' [->|Hs']%elem_of_cons E; [|by eapply I3]. rewrite En in E. injection E as <-.
      destruct (I2 (sg_speaker_id s) (default [] (dict_get (sg_speaker_id s) d) ++ [mk_name_claim name (98 # 100) SELF_INTRODUCTION [sg_id s]]))
        as (l' & El & Hp); [by rewrite add_candidate_get, decide_True|]. exists l', (mk_name_claim name (98 # 100) SELF_INTRODUCTION [sg_id s]). split_and!; [done| |done].
      destruct Hp as [k ->]. rewrite !elem_of_app, list_elem_of_singleton. left; right. reflexivity.
    + destruct (IH d Hd) as (I1 & I2 & I3); [intros s' Hs'; apply Hs; by right|]. split_and!; [done|done|].
      intros s' name' [->|Hs']%elem_of_cons E; [congruence|by eapply I3].
Qed.
Lemma contextual_dialogue_ok segments : forall ordered pre d, ordered = pre ++ segments -> candidates_ok ordered d ->
  candidates_ok ordered (contextual_dialogue segments d) /\ extends d (contextual_dialogue segments d).
Proof.
  induction segments as [|s segments IH]; intros ordered pre d Eo Hd; [split; [done|apply extends_refl]|].
  destruct segments as [|r rest]; [split; [done|apply extends_refl]|].
  change (contextual_dialogue (s :: r :: rest) d) with (contextual_dialogue (r :: rest)
    (match _addressed_name (sg_text s) with
     | Some name => if negb (bool_decide (sg_speaker_id r = sg_speaker_id s)) && (0 <=? sg_start_ms r - sg_end_ms s) && (sg_start_ms r - sg_end_ms s <=? 10000)
                    then add_candidate (sg_speaker_id r) (mk_name_claim name (80 # 100) CONTEXTUAL_DIALOGUE [sg_id s; sg_id r]) d else d
     | None => d
     end)).
  set (d1 := match _addressed_name (sg_text s) with Some _ => _ | None => d end).
  assert (candidates_ok ordered d1 /\ extends d d1) as [Hd1 He].
  { unfold d1. destruct (_addressed_name _) as [name|] eqn:En; [|split; [done|apply extends_refl]].
    destruct (_ && _) eqn:Ec; [|split; [done|apply extends_refl]]. split; [|apply add_candidate_extends].
    apply add_candidate_ok; [done|]. to_prop. rewrite !Z.leb_le in Ec. destruct Ec as [[Hne ?] ?].
    apply (backed_dialogue _ (length pre)); [| |done|done|lia].
    - by rewrite Eo, lookup_app_r, Nat.sub_diag.
    - rewrite Eo, lookup_app_r by lia. by replace (S (length pre) - length pre)%nat with 1%nat by lia. }
  destruct (IH ordered (pre ++ [s]) d1) as [? ?]; [by rewrite Eo, <-app_assoc|done|]. split; [done|by eapply extends_trans].
Qed.

Definition by_ordinal (segments : list TranscriptSegmentDraft) : list TranscriptSegmentDraft :=
  py_sorted (fun a b => sg_ordinal a <=? sg_ordinal b) segments.
Definition all_candidates (segments : list TranscriptSegmentDraft) : list (pystr * list claim_of_name) :=
  contextual_dialogue (by_ordinal segments) (self_introductions (by_ordinal segments) []).
Lemma all_candidates_ok segments : candidates_ok (by_ordinal segments) (all_candidates segments)
  /\ forall s name, s ∈ segments -> _self_name (sg_text s) = Some name ->
       exists l c, dict_get (sg_speaker_id s) (all_candidates segments) = Some l /\ c ∈ l /\ nc_name c = name.
Proof.
  destruct (self_introductions_ok (by_ordinal segments) (by_ordinal segments) []) as (I1 & _ & I3);
    [split; [constructor|by intros ? ? ? ?%elem_of_nil]|done|].
  destruct (contextual_dialogue_ok (by_ordinal segments) (by_ordinal segments) [] _ eq_refl I1) as [I4 I5]. split; [done|].
  intros s name Hs En. destruct (I3 s name) as (l & c & El & Hc & <-); [by apply elem_of_py_sorted|done|].
  destruct (I5 _ _ El) as (l' & El' & [k ->]). exists (l ++ k), c. split_and!; [done|set_solver|done].
Qed.

Lemma best_claim_choice l : forall c, best_claim c l ∈ c :: l.
Proof.
  unfold best_claim. induction l as [|x l IH]; intros c; simpl; [by left|]. destruct (Qle_bool _ _).
  - specialize (IH c). set_solver.
  - specialize (IH x). set_solver.
Qed.
Lemma chosen_claim_spec l c : chosen_claim l = Some c -> c ∈ l /\ forall x, x ∈ l -> casefold (nc_name x) = casefold (nc_name c).
Proof.
  destruct l as [|c0 l]; [done|]. simpl. destruct (forallb _ l) eqn:E; [|done]. intros [= <-].
  assert (forall x, x ∈ c0 :: l -> casefold (nc_name x) = casefold (nc_name c0)) as Hall.
  { intros x [->|Hx]%elem_of_cons; [done|]. rewrite forallb_forall in E. by apply list_elem_of_In, E, bool_decide_eq_true in Hx. }
  pose proof (best_claim_choice l c0) as Hb. split; [done|]. intros x Hx. by rewrite (Hall _ Hx), (Hall _ Hb).
Qed.

(** The identity of a speaker that was given a name. *)
Lemma identity_named segments i name : i ∈ infer_speaker_names segments -> si_display_name i = Some name ->
  exists c l, (si_speaker_id i, l) ∈ all_candidates segments /\ chosen_claim l = Some c /\ nc_name c = name
  /\ i = mk_identity (si_speaker_id i) (Some (nc_name c)) INFERRED (Some (nc_confidence c)) (Some (nc_method c)) (nc_evidence c)
  /\ (length (List.filter (fun '(_, c') => bool_decide (casefold (nc_name c') = casefold name)) (chosen_names (all_candidates segments))) <= 1)%nat
  /\ (si_speaker_id i, c) ∈ chosen_names (all_candidates segments).
Proof.
  unfold infer_speaker_names. fold (by_ordinal segments). fold (all_candidates segments). intros (sp & -> & _)%list_elem_of_fmap.
  destruct (dict_get sp (chosen_names (all_candidates segments))) as [c|] eqn:E; [|done]. destruct (1 <? _)%nat eqn:Ed; [done|].
  simpl. intros [= <-]. apply dict_get_In in E. pose proof E as E'. unfold chosen_names in E'. apply list_elem_of_omap in E' as ([sp' l] & Hin & Hc).
  apply bind_Some in Hc as (c' & Hc & [= -> ->]). exists c, l. split_and!; [done..|by apply Nat.ltb_ge|done].
Qed.
Lemma two_elements {A} (l : list A) x y : x ∈ l -> y ∈ l -> x <> y -> (2 <= length l)%nat.
Proof. intros Hx Hy Hne. destruct l as [|a [|b l]]; [by apply elem_of_nil in Hx|set_solver|simpl; lia]. Qed.

(** Names are inferred only from what was said.  A speaker is given a name only
    by a segment of their own that introduces them, or by the turn just before theirs
    (at most ten seconds earlier, of another speaker) that addresses them; the name's
    evidence is those segments.  Every introduction of that speaker agrees on the
    name, and no two speakers of a transcript are given the same one. *)
Theorem inferred_names_backed segments i name :
  i ∈ infer_speaker_names segments -> si_display_name i = Some name ->
  (exists c, backed (by_ordinal segments) (si_speaker_id i) c /\ name = nc_name c /\ si_confidence i = Some (nc_confidence c)
     /\ si_method i = Some (nc_method c) /\ si_evidence_segment_ids i = nc_evidence c)
  /\ (forall s other, s ∈ segments -> sg_speaker_id s = si_speaker_id i -> _self_name (sg_text s) = Some other -> casefold other = casefold name)
  /\ (forall i' name', i' ∈ infer_speaker_names segments -> si_display_name i' = Some name' -> casefold name' = casefold name -> i' = i).
Proof.
  intros Hi Hn. destruct (identity_named _ _ _ Hi Hn) as (c & l & Hl & Hc & En & Ei & Hdup & Hch).
  destruct (all_candidates_ok segments) as [[Hkeys Hb] Hself]. destruct (chosen_claim_spec _ _ Hc) as [Hcl Hagree]. split_and!.
  - exists c. split; [by eapply Hb|]. rewrite Ei. by rewrite En.
  - intros s other Hs Esp Es. destruct (Hself s other Hs Es) as (l' & x & El & Hx & <-). rewrite Esp in El. apply dict_get_In in El.
    apply (dict_get_elem _ _ _ Hkeys) in El. apply (dict_get_elem _ _ _ Hkeys) in Hl. rewrite El in Hl. injection Hl as ->.
    rewrite <-En. by apply Hagree.
  - intros i' name' Hi' Hn' Ecase. destruct (identity_named _ _ _ Hi' Hn') as (c' & l' & Hl' & Hc' & En' & Ei' & _ & Hch').
    assert (si_speaker_id i' = si_speaker_id i) as Esp.
    { destruct (decide (si_speaker_id i' = si_speaker_id i)) as [|Hne]; [done|]. exfalso.
      assert (2 <= length (List.filter (fun '(_, c') => bool_decide (casefold (nc_name c') = casefold name)) (chosen_names (all_candidates segments))))%nat; [|lia].
      apply (two_elements _ (si_speaker_id i, c) (si_speaker_id i', c')); [..|congruence];
        apply list_elem_of_In, filter_In; (split; [by apply list_elem_of_In|apply bool_decide_eq_true; congruence]). }
    rewrite Esp in Hl'. apply (dict_get_elem _ _ _ Hkeys) in Hl', Hl. rewrite Hl in Hl'. injection Hl' as <-.
    rewrite Ei, Ei', Esp. congruence.
Qed.
End names.

(** ** Text, times and confidence of the segments *)

Section evidence.
Context `{Unicode} `{MediaHost}.

(** *** The text of a transcript *)

Lemma laid_out_text segments : forall pre cursor, cursor = Z.of_nat (length pre) -> laid_out cursor segments ->
  let text := pre ++ py_join [10%N] (sg_text <$> segments) in
  (forall s, s ∈ segments -> cursor <= sg_char_start s /\ slice text (Z.to_nat (sg_char_start s)) (Z.to_nat (sg_char_end s)) = sg_text s)
  /\ (forall i c, (length pre <= i)%nat -> text !! i = Some c ->
        c = 10%N \/ exists s, s ∈ segments /\ sg_char_start s <= Z.of_nat i < sg_char_end s).
Proof.
  induction segments as [|s segments IH]; intros pre cursor Ec Hl; cbv zeta.
  - split; [by intros s ?%elem_of_nil|]. intros i c Hi Ht. simpl in Ht. rewrite app_nil_r in Ht. apply lookup_lt_Some in Ht. lia.
  - destruct Hl as (Es & Ee & Hl).
    assert (exists rest, py_join [10%N] (sg_text <$> s :: segments) = sg_text s ++ rest
      /\ (segments = [] /\ rest = [] \/ rest = 10%N :: py_join [10%N] (sg_text <$> segments))) as (rest & Ej & Hrest).
    { destruct segments as [|s' segments]; [exists []; simpl; rewrite app_nil_r; by auto|]. eexists. split; [reflexivity|by right]. }
    rewrite Ej.
    assert (slice (pre ++ sg_text s ++ rest) (Z.to_nat (sg_char_start s)) (Z.to_nat (sg_char_end s)) = sg_text s) as Hslice.
    { unfold slice. rewrite Es, Ee, Ec, Nat2Z.id. rewrite Z2Nat.inj_add, !Nat2Z.id by lia.
      rewrite drop_app_length. replace (length pre + length (sg_text s) - length pre)%nat with (length (sg_text s)) by lia. apply take_app_length. }
    assert (forall i c, (length pre <= i)%nat -> (i < length pre + length (sg_text s))%nat -> (pre ++ sg_text s ++ rest) !! i = Some c ->
      sg_char_start s <= Z.of_nat i < sg_char_end s) as Hin by (intros; lia).
    destruct Hrest as [[-> ->]|Er].
    + split; [intros s' ->%list_elem_of_singleton; split; [lia|done]|]. intros i c Hi Ht. right. exists s. split; [by left|].
      pose proof Ht as Hlt%lookup_lt_Some. rewrite app_nil_r, length_app in Hlt. by apply (Hin i c).
    + destruct (IH (pre ++ sg_text s ++ [10%N]) (sg_char_end s + 1)) as [I1 I2]; [rewrite !length_app; simpl; lia|done|].
      rewrite <-app_assoc, <-app_assoc in I1, I2. simpl in I1, I2. rewrite Er. rewrite Er in Hslice, Hin. split.
      * intros s' [->|Hs]%elem_of_cons; [split; [lia|done]|]. destruct (I1 s' Hs). split; [lia|done].
      * intros i c Hi Ht. destruct (decide (i < length pre + length (sg_text s))%nat) as [Hlt|Hge].
        { right. exists s. split; [by left|by apply (Hin i c)]. }
        destruct (decide (i = length pre + length (sg_text s))%nat) as [->|Hne].
        { left. rewrite lookup_app_r, lookup_app_r in Ht by lia. replace (_ - _ - _)%nat with 0%nat in Ht by lia. by simplify_eq/=. }
        destruct (I2 i c) as [?|(s' & ? & ?)]; [rewrite !length_app; simpl; lia|done|by left|]. right. exists s'. split; [by right|done].
Qed.
Lemma transcript_text_ok segments : laid_out 0 segments ->
  transcript_text segments = Ok (py_join [10%N] (sg_text <$> segments)).
Proof.
  intros Hl. destruct (laid_out_text segments [] 0 eq_refl Hl) as [Hs _]. unfold transcript_text. apply guard_or_ok. split; [|done].
  apply forallb_forall. intros s Hin%list_elem_of_In. apply bool_decide_eq_true. by apply Hs.
Qed.

(** *** Segments of a stitched transcript *)

Record segments_ok (duration_ms : Z) (segments : list TranscriptSegmentDraft) : Prop := {
  so_nonempty : segments <> [];
  so_layout : laid_out 0 segments;
  so_ids : NoDup (sg_id <$> segments);
  so_ordinals : sg_ordinal <$> segments = Z.of_nat <$> seq 0 (length segments);
  so_segment s : s ∈ segments -> sg_text s <> [] /\ 0 <= sg_start_ms s < sg_end_ms s /\ sg_end_ms s <= duration_ms
    /\ match sg_confidence s with Some q => unit_interval q = true | None => True end;
  so_sorted : StronglySorted (fun a b => sg_start_ms a <= sg_start_ms b) segments
}.
Definition confident (sw : StitchedWord) : Prop := match sw_confidence sw with Some q => unit_interval q = true | None => True end.

Lemma mean_unit l q : Forall (fun q => unit_interval q = true) l -> mean l = Some q -> unit_interval q = true.
Proof.
  intros Hl. assert (forall l a, Forall (fun q => unit_interval q = true) l ->
    (a <= foldl Qplus a l)%Q /\ (foldl Qplus a l <= a + inject_Z (Z.of_nat (length l)))%Q) as E.
  { clear. induction l as [|x l IH]; intros a Hl; simpl; [split; [apply Qle_refl|unfold inject_Z, Qle; simpl; lia]|].
    apply Forall_cons in Hl as [Hx Hl]. unfold unit_interval in Hx. apply andb_true_iff in Hx as [Hx0%Qle_bool_iff Hx1%Qle_bool_iff].
    destruct (IH (a + x)%Q Hl) as [I1 I2]. split.
    - eapply Qle_trans; [|exact I1]. rewrite <-(Qplus_0_r a) at 1. by apply Qplus_le_r.
    - eapply Qle_trans; [exact I2|]. rewrite Nat2Z.inj_succ, <-Z.add_1_l, inject_Z_plus. rewrite <-Qplus_assoc. apply Qplus_le_r.
      by apply Qplus_le_compat; [|apply Qle_refl]. }
  destruct l as [|x l]; [done|]. unfold mean. intros [= <-]. destruct (E (x :: l) 0%Q Hl) as [E1 E2].
  assert (0 < inject_Z (Z.of_nat (length (x :: l))))%Q as Hpos by (unfold inject_Z, Qlt; simpl; lia).
  unfold unit_interval. rewrite andb_true_iff, !Qle_bool_iff. split.
  - by apply Qle_shift_div_l; [|rewrite Qmult_0_l].
  - apply Qle_shift_div_r; [done|]. by rewrite Qmult_1_l, <-(Qplus_0_l (inject_Z _)).
Qed.
Lemma min_list_head l x : Forall (fun y => x <= y) l -> min_list (x :: l) = x.
Proof.
  intros Hl. destruct (min_list_spec (x :: l) x) as [Hle Hin]; [by left|]. apply elem_of_cons in Hin as [?|Hin]; [done|].
  rewrite Forall_forall in Hl. specialize (Hl _ Hin). lia.
Qed.
Lemma word_leb_start a b : word_leb a b = true -> sw_start_ms a <= sw_start_ms b.
Proof. unfold word_leb. rewrite orb_true_iff, andb_true_iff, Z.ltb_lt, Z.eqb_eq. lia. Qed.

Lemma segment_of_times d g s : turn g -> segment_of g s -> Forall (fun w => 0 <= sw_start_ms w < sw_end_ms w /\ sw_end_ms w <= d) g ->
  0 <= sg_start_ms s < sg_end_ms s /\ sg_end_ms s <= d
  /\ forall w, w ∈ g -> sg_start_ms s <= sw_start_ms w /\ sw_end_ms w <= sg_end_ms s.
Proof.
  intros [Hne _] (_ & _ & _ & -> & -> & _) Hok. rewrite Forall_forall in Hok.
  assert (forall w, w ∈ g -> min_list (sw_start_ms <$> g) <= sw_start_ms w /\ sw_end_ms w <= max_list (sw_end_ms <$> g)) as Hall.
  { intros w Hw. split; [apply min_list_spec|apply max_list_spec]; by apply list_elem_of_fmap_2. }
  destruct g as [|w g]; [done|]. set (l := w :: g) in *. assert (w ∈ l) as Hw by (by left). clearbody l.
  destruct (min_list_spec (sw_start_ms <$> l) (sw_start_ms w)) as [_ (w1 & E1 & H1)%list_elem_of_fmap]; [by apply list_elem_of_fmap_2|].
  destruct (max_list_spec (sw_end_ms <$> l) (sw_end_ms w)) as [_ (w2 & E2 & H2)%list_elem_of_fmap]; [by apply list_elem_of_fmap_2|].
  pose proof (Hok _ H1). pose proof (Hok _ H2). pose proof (Hok _ Hw). pose proof (Hall _ Hw). split_and!; [lia|lia|lia|done].
Qed.
Lemma segments_sorted groups segments : Forall turn groups -> Forall2 segment_of groups segments ->
  StronglySorted (fun a b => word_leb a b = true) (mjoin groups) -> StronglySorted (fun a b => sg_start_ms a <= sg_start_ms b) segments.
Proof.
  assert (forall g s, turn g -> segment_of g s -> exists w, w ∈ g /\ sg_start_ms s = sw_start_ms w) as Hstart.
  { intros g s [Hne _] (_ & _ & _ & -> & _). destruct g as [|w g]; [done|].
    destruct (min_list_spec (sw_start_ms <$> w :: g) (sw_start_ms w)) as [_ (w1 & E1 & H1)%list_elem_of_fmap]; [by left|]. by exists w1. }
  intros Ht H2. revert Ht. induction H2 as [|g s groups segments Hg H2 IH]; intros Ht Hs; [constructor|].
  apply Forall_cons in Ht as [Hturn Ht]. change (mjoin (g :: groups)) with (g ++ mjoin groups) in Hs.
  assert (StronglySorted (fun a b => word_leb a b = true) (mjoin groups) /\ forall x y, x ∈ g -> y ∈ mjoin groups -> word_leb x y = true) as [Hs2 Hc].
  { clear -Hs. induction g as [|x g IH]; [by split; [|intros ? ? ?%elem_of_nil]|]. apply StronglySorted_inv in Hs as [Hs Hx].
    destruct (IH Hs) as [? Hc]. split; [done|]. rewrite Forall_forall in Hx. intros y z [->|Hy]%elem_of_cons Hz; [apply Hx; set_solver|by apply Hc]. }
  constructor; [by apply IH|]. apply Forall_forall. intros s' Hs'. apply list_elem_of_lookup in Hs' as [i Hi].
  destruct (Forall2_lookup_r _ _ _ _ _ H2 Hi) as (g' & Hg' & Hseg). destruct (Hstart g s Hturn Hg) as (w & Hw & ->).
  rewrite Forall_forall in Ht. destruct (Hstart g' s') as (w' & Hw' & ->); [by apply Ht; eapply list_elem_of_lookup_2|done|].
  apply word_leb_start, Hc; [done|]. apply list_elem_of_join. exists g'. split; [done|by eapply list_elem_of_lookup_2].
Qed.
Lemma stitched_segments ids ws d gap segments :
  (forall i j, ids i = ids j -> i = j) -> Forall confident ws ->
  StronglySorted (fun a b => word_leb a b = true) ws -> Forall (fun sw => 0 <= sw_start_ms sw < sw_end_ms sw /\ sw_end_ms sw <= d) ws ->
  build_transcript_segments ids ws gap = Ok segments ->
  segments_ok d segments
  /\ Forall (fun w => exists s, s ∈ segments /\ sg_speaker_id s = sw_speaker_id w /\ sg_start_ms s <= sw_start_ms w /\ sw_end_ms w <= sg_end_ms s
                                /\ py_substr (py_strip (sw_text w)) (sg_text s) = true) ws.
Proof.
  intros Hids Hconf Hsorted Htimes (groups & Ew & Ht & Hok & Hne & H2 & Hl & Ei & Eo)%build_segments_spec.
  assert (forall g w, g ∈ groups -> w ∈ g -> w ∈ ws) as Hin by (intros g w Hg Hw; rewrite <-Ew; apply list_elem_of_join; by exists g).
  rewrite Forall_forall in Ht. rewrite Forall_forall in Hok. rewrite Forall_forall in Htimes. rewrite Forall_forall in Hconf.
  assert (forall g s, g ∈ groups -> segment_of g s -> 0 <= sg_start_ms s < sg_end_ms s /\ sg_end_ms s <= d
    /\ forall w, w ∈ g -> sg_start_ms s <= sw_start_ms w /\ sw_end_ms w <= sg_end_ms s) as Hseg.
  { intros g s Hg Hs. apply segment_of_times; [by apply Ht|done|]. apply Forall_forall. intros w Hw. by eapply Htimes, Hin. }
  split; [constructor; try done|].
  - rewrite Ei. apply NoDup_fmap_2; [exact Hids|apply NoDup_seq].
  - intros s [i Hi]%list_elem_of_lookup. destruct (Forall2_lookup_r _ _ _ _ _ H2 Hi) as (g & Hg%list_elem_of_lookup_2 & Hs).
    destruct (Hseg g s Hg Hs) as (? & ? & _). destruct Hs as (_ & Htext & _ & _ & _ & Ec). split_and!; [done|lia|lia|done|].
    destruct (sg_confidence s) as [q|]; [|done]. eapply mean_unit; [|by symmetry]. apply Forall_forall.
    intros x (w & Hw & Ex)%list_elem_of_omap. specialize (Hconf w (Hin _ _ Hg Hw)). unfold confident in Hconf. by rewrite Ex in Hconf.
  - rewrite <-Ew in Hsorted. eapply segments_sorted; [by apply Forall_forall|done|done].
  - apply Forall_forall. intros w Hw. rewrite <-Ew in Hw. apply list_elem_of_join in Hw as (g & Hwg & Hg). pose proof Hg as [i Hi]%list_elem_of_lookup.
    destruct (Forall2_lookup_l _ _ _ _ _ H2 Hi) as (s & Hs & Hsg). exists s. destruct (Hseg g s Hg Hsg) as (_ & _ & Hall).
    destruct Hsg as (Et & _ & Hsp & _). split_and!; [by eapply list_elem_of_lookup_2|by apply Hsp|by apply Hall|by apply Hall|].
    rewrite Et. unfold _join_tokens. assert (Forall (fun t => blank t = false) (sw_text <$> g)) as Hb.
    { apply Forall_fmap, Forall_forall. intros x Hx. apply (Hok x). by eapply Hin. }
    destruct (join_tokens_holds (sw_text <$> g) [] Hb) as [_ Hall']. rewrite Forall_forall in Hall'. apply Hall'. by apply list_elem_of_fmap_2.
Qed.
End evidence.

(** ** What the repository and the search get *)

Section accepted.
Context `{Unicode} `{MediaHost}.

Lemma blank_words s : blank s = true -> py_words s = [].
Proof. unfold py_words, blank. induction s as [|c s IH]; simpl; [done|]. intros [-> Hs]%andb_true_iff. by apply IH. Qed.
Lemma valid_name_nonblank raw name : _valid_name raw = Some name -> blank name = false.
Proof.
  unfold _valid_name. set (n := py_join _ _). destruct (_ && _) eqn:E; [|done]. intros [= <-].
  destruct (blank n) eqn:Eb; [|done]. rewrite (blank_words _ Eb) in E. done.
Qed.
Lemma the_only_elem l x : the_only l = Some x -> x ∈ l.
Proof.
  unfold the_only. destruct (remove_dups l) as [|y [|]] eqn:E; [done| |done]. intros [= <-]. apply elem_of_remove_dups. rewrite E. by left.
Qed.
Lemma backed_claim ordered sp c : backed ordered sp c -> blank (nc_name c) = false /\ unit_interval (nc_confidence c) = true
  /\ nc_evidence c <> [] /\ (forall i, i ∈ nc_evidence c -> i ∈ sg_id <$> ordered) /\ (NoDup (sg_id <$> ordered) -> NoDup (nc_evidence c)).
Proof.
  intros Hb. destruct Hb as [s name Hs En|i s r name Hs Hr En Hne Hgap]; simpl.
  - apply the_only_elem, list_elem_of_bind in En as (rx & En & _). apply list_elem_of_omap in En as (raw & _ & Hv).
    split_and!; [by eapply valid_name_nonblank|done|done| |].
    + intros x ->%list_elem_of_singleton. by apply list_elem_of_fmap_2.
    + intros _. apply NoDup_singleton.
  - apply the_only_elem, list_elem_of_omap in En as (rx & _ & (raw & _ & Hv)%bind_Some).
    split_and!; [by eapply valid_name_nonblank|done|done| |].
    + intros x [->| ->%list_elem_of_singleton]%elem_of_cons; apply list_elem_of_fmap_2; by eapply list_elem_of_lookup_2.
    + intros Hnd. apply NoDup_cons. split; [|apply NoDup_singleton]. intros E%list_elem_of_singleton.
      assert (i = S i) as ?; [|lia]. eapply NoDup_lookup; [exact Hnd| |]; rewrite list_lookup_fmap; [by rewrite Hs|by rewrite Hr, E].
Qed.

Lemma infer_speakers segments : si_speaker_id <$> infer_speaker_names segments
  = py_sorted str_leb (remove_dups (sg_speaker_id <$> by_ordinal segments)).
Proof.
  unfold infer_speaker_names. rewrite <-list_fmap_compose. rewrite <-list_fmap_id. apply list_fmap_ext. intros i sp _. simpl.
  destruct (dict_get _ _); [by destruct (1 <? _)%nat|done].
Qed.
Lemma by_ordinal_ids segments : sg_id <$> by_ordinal segments ≡ₚ sg_id <$> segments.
Proof. unfold by_ordinal. by rewrite py_sorted_perm. Qed.
Lemma identities_accepted segments i : NoDup (sg_id <$> segments) -> i ∈ infer_speaker_names segments ->
  check_speaker (sg_id <$> segments) (speaker_input i) = Ok tt.
Proof.
  intros Hnd Hi. destruct (si_display_name i) as [name|] eqn:En.
  - destruct (identity_named _ _ _ Hi En) as (c & l & Hl & Hc & Ec & -> & _). destruct (all_candidates_ok segments) as [[_ Hb] _].
    destruct (chosen_claim_spec _ _ Hc) as [Hcl _]. specialize (Hb _ _ _ Hl Hcl). simpl in Hb.
    destruct (backed_claim _ _ _ Hb) as (Hblank & Hunit & Hne & Hin & Hev). rewrite by_ordinal_ids in Hev. unfold check_speaker, speaker_input. simpl.
    rewrite bool_decide_eq_true_2 by (by apply Hev). cbn [guard_or].
    assert (forallb (fun x => mem x (sg_id <$> segments)) (nc_evidence c) = true) as ->.
    { apply forallb_forall. intros x Hx%list_elem_of_In. apply mem_true. apply Hin in Hx. by rewrite by_ordinal_ids in Hx. }
    cbn [guard_or]. rewrite Hblank, Hunit, (bool_decide_eq_false_2 (nc_evidence c = [])) by done. by destruct (nc_method c).
  - assert (i = mk_identity (si_speaker_id i) None UNKNOWN None None []) as ->; [|done]. unfold infer_speaker_names in Hi.
    apply list_elem_of_fmap in Hi as (sp & -> & _). destruct (dict_get _ _) as [c|]; [by destruct (1 <? _)%nat|done].
Qed.
Lemma check_segments_ok d speakers segments : forall prior start, laid_out start segments ->
  (forall s, s ∈ segments -> sg_speaker_id s ∈ speakers) ->
  (forall s, s ∈ segments -> sg_text s <> [] /\ 0 <= sg_start_ms s < sg_end_ms s /\ sg_end_ms s <= d
    /\ match sg_confidence s with Some q => unit_interval q = true | None => True end) ->
  StronglySorted (fun a b => sg_start_ms a <= sg_start_ms b) segments -> (forall s, s ∈ segments -> prior <= sg_start_ms s) ->
  check_segments d prior start speakers segments = Ok tt.
Proof.
  induction segments as [|s segments IH]; intros prior start Hl Hsp Hok Hs Hp; [done|]. destruct Hl as (Es & Ee & Hl).
  destruct (Hok s) as (Ht & Hst & Hen & Hc); [by left|]. apply StronglySorted_inv in Hs as [Hs Hle]. rewrite Forall_forall in Hle.
  simpl. rewrite (proj2 (mem_true _ _)) by (apply Hsp; by left). cbn [guard_or].
  rewrite (proj2 (Z.leb_le 0 _)), (proj2 (Z.ltb_lt _ _)), (proj2 (Z.leb_le (sg_end_ms s) d)) by lia. cbn [guard_or andb].
  rewrite (proj2 (Z.leb_le prior _)) by (apply Hp; by left). cbn [guard_or].
  assert ((sg_char_start s =? start) && (sg_char_end s =? sg_char_start s + Z.of_nat (length (sg_text s))) && negb (bool_decide (sg_text s = [])) = true) as ->.
  { rewrite !andb_true_iff, !Z.eqb_eq, negb_true_iff, bool_decide_eq_false. split_and!; [done|lia|done]. }
  cbn [guard_or].
  assert (match sg_confidence s with Some q => unit_interval q | None => true end = true) as -> by (by destruct (sg_confidence s)). cbn [guard_or].
  apply IH; [done|set_solver|intros s' Hs'; apply Hok; by right|done|done].
Qed.
Lemma transcript_accepted kind d segments : kind ∈ [cp "audio"; cp "video"] -> 0 < d -> segments_ok d segments ->
  validate_transcript kind (Some d) (speaker_input <$> infer_speaker_names segments) segments = Ok tt.
Proof.
  intros Hk Hd [Hne Hl Hids Hord Hseg Hsort]. unfold validate_transcript.
  rewrite (proj2 (mem_true _ _) Hk). cbn [guard_or]. rewrite (proj2 (Z.ltb_lt _ _) Hd). cbn [guard_or].
  rewrite bool_decide_eq_false_2 by (by destruct segments). cbn [guard_or negb].
  assert (ts_speaker_id <$> (speaker_input <$> infer_speaker_names segments) = py_sorted str_leb (remove_dups (sg_speaker_id <$> by_ordinal segments))) as ->.
  { rewrite <-infer_speakers, <-list_fmap_compose. done. }
  set (speakers := py_sorted str_leb _).
  assert (forall x, x ∈ speakers <-> x ∈ sg_speaker_id <$> segments) as Hsp.
  { intros x. unfold speakers. rewrite elem_of_py_sorted, elem_of_remove_dups. unfold by_ordinal. by rewrite py_sorted_perm. }
  rewrite bool_decide_eq_true_2 by (unfold speakers; rewrite py_sorted_perm; apply NoDup_remove_dups). cbn [guard_or].
  rewrite bool_decide_eq_true_2 by done. cbn [guard_or]. rewrite bool_decide_eq_true_2 by done. cbn [guard_or].
  assert (same_set speakers (sg_speaker_id <$> segments) = true) as ->.
  { unfold same_set. rewrite andb_true_iff, !forallb_forall. split; intros x Hx%list_elem_of_In; apply mem_true; by apply Hsp. }
  cbn [guard_or]. rewrite check_segments_ok; [|done|intros s Hs; apply Hsp; by apply list_elem_of_fmap_2|done|done|].
  2: { intros s Hs. destruct (Hseg s Hs) as (_ & ? & _). lia. }
  cbn [mbind res_bind]. assert (exists us, mapR (check_speaker (sg_id <$> segments)) (speaker_input <$> infer_speaker_names segments) = Ok us) as [us ->]; [|done].
  assert (Forall (fun i => check_speaker (sg_id <$> segments) (speaker_input i) = Ok tt) (infer_speaker_names segments)) as Hall.
  { apply Forall_forall. intros i Hi. by apply identities_accepted. }
  clear -Hall. induction Hall as [|i l Hi _ [us IH]]; [by exists []|]. exists (tt :: us). csimpl. rewrite Hi. simpl. by rewrite IH.
Qed.

(** *** Retrieval chunks *)

(** A draft says where its text was said, and by whom where one speaker said it. *)
Record draft_ok (duration_ms : Z) (segments : list TranscriptSegmentDraft) (identities : list SpeakerIdentity) (text : pystr)
    (td : TranscriptChunkDraft) : Prop := {
  do_text : 0 <= td_char_start td < td_char_end td /\ td_text td = slice text (Z.to_nat (td_char_start td)) (Z.to_nat (td_char_end td));
  do_times : 0 <= td_time_start_ms td < td_time_end_ms td /\ td_time_end_ms td <= duration_ms;
  do_said : exists s, s ∈ segments /\ td_char_start td < sg_char_end s /\ sg_char_start s < td_char_end td;
  do_covered s : s ∈ segments -> td_char_start td < sg_char_end s -> sg_char_start s < td_char_end td ->
    td_time_start_ms td <= sg_start_ms s /\ sg_end_ms s <= td_time_end_ms td
    /\ (forall i, td_transcript_segment_id td = Some i -> i = sg_id s)
    /\ (forall sp, td_speaker_id td = Some sp -> sp = sg_speaker_id s);
  do_name n : td_speaker_name td = Some n -> exists i, i ∈ identities /\ td_speaker_id td = Some (si_speaker_id i) /\ si_display_name i = Some n
}.
Lemma names_spec identities : forall d sp n, dict_get sp (foldl (fun d i => dict_set (si_speaker_id i) (si_display_name i) d) d identities) = Some (Some n) ->
  dict_get sp d = Some (Some n) \/ exists i, i ∈ identities /\ sp = si_speaker_id i /\ si_display_name i = Some n.
Proof.
  induction identities as [|i identities IH]; intros d sp n E; simpl in E; [by left|].
  destruct (IH _ _ _ E) as [E'|(i' & Hi & ? & ?)]; [|right; exists i'; split; [by right|done]].
  rewrite dict_get_set in E'. destruct (decide (sp = si_speaker_id i)) as [->|]; [|by left]. right. exists i. split; [by left|].
  split; [done|by injection E'].
Qed.
Lemma build_draft_ok d segments identities c : segments_ok d segments ->
  let text := py_join [10%N] (sg_text <$> segments) in
  ch_text c = slice text (ch_start c) (ch_end c) -> (ch_start c < ch_end c <= length text)%nat -> blank (ch_text c) = false ->
  exists td, build_draft segments (foldl (fun d i => dict_set (si_speaker_id i) (si_display_name i) d) [] identities) d c = Ok td
  /\ draft_ok d segments identities text td /\ td_char_start td = Z.of_nat (ch_start c) /\ td_char_end td = Z.of_nat (ch_end c).
Proof.
  intros Hok text Ht Hb Hblank. destruct (laid_out_text segments [] 0 eq_refl (so_layout _ _ Hok)) as [_ Hpos]. fold text in Hpos. simpl in Hpos.
  assert (exists s, s ∈ segments /\ covers c s = true) as (s0 & Hs0 & Hc0).
  { assert (exists j x, ch_text c !! j = Some x /\ py_isspace x = false) as (j & x & Hj & Hx).
    { clear -Hblank. induction (ch_text c) as [|x l IH]; [done|]. simpl in Hblank. apply andb_false_iff in Hblank as [Hx|Hx].
      - by exists 0%nat, x.
      - destruct (IH Hx) as (j & y & ? & ?). by exists (S j), y. }
    rewrite Ht in Hj. unfold slice in Hj. pose proof (lookup_lt_Some _ _ _ Hj) as Hlt. rewrite length_take in Hlt.
    rewrite lookup_take_lt, lookup_drop in Hj by lia.
    destruct (Hpos (ch_start c + j)%nat x) as [->|(s & Hs & Hin)]; [lia|done|by vm_compute in Hx|].
    exists s. split; [done|]. unfold covers. rewrite andb_true_iff, !Z.ltb_lt. lia. }
  assert (forall s, s ∈ List.filter (covers c) segments <-> s ∈ segments /\ covers c s = true) as Hcov.
  { intros s. rewrite list_elem_of_In, filter_In, <-list_elem_of_In. done. }
  unfold build_draft. set (covered := List.filter (covers c) segments) in *.
  assert (s0 ∈ covered) as Hs0' by (by apply Hcov). clearbody covered. destruct covered as [|s rest] eqn:Ecov; [by apply elem_of_nil in Hs0'|].
  rewrite <-Ecov in *.
  assert (forall x, x ∈ covered -> min_list (sg_start_ms <$> covered) <= sg_start_ms x /\ sg_end_ms x <= max_list (sg_end_ms <$> covered)) as Hall.
  { intros x Hx. split; [apply min_list_spec|apply max_list_spec]; by apply list_elem_of_fmap_2. }
  assert (0 <= min_list (sg_start_ms <$> covered) < max_list (sg_end_ms <$> covered) /\ max_list (sg_end_ms <$> covered) <= d) as Htimes.
  { destruct (min_list_spec (sg_start_ms <$> covered) (sg_start_ms s0)) as [_ (x & Ex & Hx)%list_elem_of_fmap]; [by apply list_elem_of_fmap_2|].
    destruct (max_list_spec (sg_end_ms <$> covered) (sg_end_ms s0)) as [_ (y & Ey & Hy)%list_elem_of_fmap]; [by apply list_elem_of_fmap_2|].
    destruct (Hall _ Hs0'). apply Hcov in Hx as [Hx _], Hy as [Hy _].
    destruct (so_segment _ _ Hok _ Hx) as (_ & ? & _), (so_segment _ _ Hok _ Hy) as (_ & ? & ? & _), (so_segment _ _ Hok _ Hs0) as (_ & ? & _). lia. }
  rewrite (proj2 (Z.leb_le _ _)), (proj2 (Z.ltb_lt _ _)), (proj2 (Z.leb_le (max_list _) d)) by lia. cbn [guard_or andb].
  eexists. split; [done|]. split; [|done]. constructor; simpl.
  - rewrite !Nat2Z.id. split; [lia|done].
  - lia.
  - exists s0. unfold covers in Hc0. rewrite andb_true_iff, !Z.ltb_lt in Hc0. done.
  - intros x Hx Hx1 Hx2. assert (x ∈ covered) as Hxc by (apply Hcov; split; [done|]; unfold covers; rewrite andb_true_iff, !Z.ltb_lt; lia).
    destruct (Hall x Hxc). split_and!; [done|done| |].
    + intros i. destruct rest as [|? ?]; [|done]. intros [= <-]. rewrite Ecov in Hxc. by apply list_elem_of_singleton in Hxc as ->.
    + intros sp. destruct (remove_dups _) as [|y [|]] eqn:E; [done| |done]. intros [= <-].
      assert (sg_speaker_id x ∈ remove_dups (sg_speaker_id <$> covered)) as Hin by (apply elem_of_remove_dups; by apply list_elem_of_fmap_2).
      rewrite E in Hin. by apply list_elem_of_singleton in Hin.
  - intros n (sp & Esp & En)%bind_Some. destruct (dict_get sp _) as [[m|]|] eqn:Ed; simplify_eq/=.
    destruct (names_spec _ _ _ _ Ed) as [?|(i & Hi & -> & En')]; [done|]. exists i. split_and!; [done| |done].
    destruct (remove_dups _) as [|y [|]]; by simplify_eq.
Qed.
Lemma drafts_ok d segments identities size overlap : 0 < d -> 0 <= overlap < size -> segments_ok d segments ->
  let text := py_join [10%N] (sg_text <$> segments) in
  exists drafts, build_transcript_chunks segments identities d size overlap = Some (Ok drafts)
  /\ Forall (draft_ok d segments identities text) drafts
  /\ (forall i c, text !! i = Some c -> py_isspace c = false -> exists td, td ∈ drafts /\ td_char_start td <= Z.of_nat i < td_char_end td).
Proof.
  intros Hd Hov Hok text. unfold build_transcript_chunks.
  rewrite bool_decide_eq_false_2 by (destruct segments; [by destruct (so_nonempty _ _ Hok)|done]).
  rewrite (proj2 (Z.leb_gt _ _)) by lia. cbn [orb].
  rewrite bool_decide_eq_true_2 by apply Hok. cbn [negb].
  assert (forallb (fun s => (0 <=? sg_start_ms s) && (sg_start_ms s <? sg_end_ms s) && (sg_end_ms s <=? d)) segments = true) as ->.
  { apply forallb_forall. intros s Hs%list_elem_of_In. destruct (so_segment _ _ Hok s Hs) as (_ & ? & ? & _).
    rewrite !andb_true_iff, !Z.leb_le, Z.ltb_lt. lia. }
  cbn [negb]. rewrite (transcript_text_ok _ (so_layout _ _ Hok)). fold text.
  destruct (chunk_text_spec text size overlap Hov) as (chunks & -> & Hch & Hcov). cbn [mbind option_bind res_bind].
  assert (exists drafts, mapR (build_draft segments (foldl (fun d i => dict_set (si_speaker_id i) (si_display_name i) d) [] identities) d) chunks = Ok drafts
    /\ Forall2 (fun c td => draft_ok d segments identities text td /\ td_char_start td = Z.of_nat (ch_start c) /\ td_char_end td = Z.of_nat (ch_end c)) chunks drafts)
    as (drafts & -> & H2).
  { clear Hcov. induction Hch as [|c chunks (Hb & Ht & Hbl) _ (drafts & IH & IH2)]; [exists []; split; [done|constructor]|].
    destruct (build_draft_ok d segments identities c Hok Ht Hb Hbl) as (td & E & Htd). exists (td :: drafts). split; [|by constructor].
    csimpl. rewrite E. simpl. by rewrite IH. }
  exists drafts. split_and!; [done| |].
  - eapply Forall2_Forall_r; [exact H2|]. apply Forall_forall. by intros c _ td [? _].
  - intros i x Hi Hx. destruct (Hcov i x Hi Hx) as (c & [j Hj]%list_elem_of_lookup & Hc).
    destruct (Forall2_lookup_l _ _ _ _ _ H2 Hj) as (td & Htd & _ & E1 & E2). exists td. rewrite E1, E2. split; [by eapply list_elem_of_lookup_2|lia].
Qed.
End accepted.

(** ** Responses and checkpoints *)

(** *** Texts without whitespace *)

Lemma strip_nospace s : Forall (fun c => py_isspace c = false) s -> py_strip s = s.
Proof.
  assert (forall l, Forall (fun c => py_isspace c = false) l -> drop_while py_isspace l = l) as E.
  { intros l Hl. destruct Hl as [|c l Hc _]; simpl; [done|by rewrite Hc]. }
  intros Hs. unfold py_strip, py_rstrip, py_lstrip. rewrite (E s Hs), E; [by rewrite reverse_involutive|]. by apply Forall_reverse.
Qed.
Lemma pretty_N_char_nospace n : py_isspace (Ascii.N_of_ascii (pretty_N_char n)) = false.
Proof. destruct n as [|p]; [done|]. do 4 (destruct p as [p|p|]; try done). Qed.
Lemma pretty_N_go_nospace x : forall s, Forall (fun c => py_isspace c = false) (cp s) -> Forall (fun c => py_isspace c = false) (cp (pretty_N_go x s)).
Proof.
  induction (N.lt_wf_0 x) as [x _ IH]. intros s Hs. destruct (decide (x = 0)%N) as [->|Hx]; [by rewrite pretty_N_go_0|].
  rewrite pretty_N_go_step by lia. apply IH; [by apply N.div_lt; lia|].
  change (cp (String ?c s)) with (Ascii.N_of_ascii c :: cp s). constructor; [apply pretty_N_char_nospace|done].
Qed.
Lemma speaker_name_nospace n : 0 <= n -> Forall (fun c => py_isspace c = false) (speaker_name n).
Proof.
  intros Hn. unfold speaker_name. apply Forall_app. split; [by repeat constructor|].
  unfold pretty, pretty_Z. destruct n as [|p|p]; [by repeat constructor| |lia].
  unfold pretty, pretty_positive, pretty, pretty_N. rewrite decide_False by done. apply pretty_N_go_nospace. constructor.
Qed.
Lemma nospace_nonblank s : s <> [] -> Forall (fun c => py_isspace c = false) s -> blank s = false.
Proof. intros Hne Hs. destruct Hs as [|c s Hc _]; [done|]. simpl. by rewrite Hc. Qed.
Lemma blank_of_strip s : blank s = false -> blank (py_strip s) = false.
Proof.
  intros Hb. destruct (blank (py_strip s)) eqn:E; [|done]. apply blank_strip in E. rewrite strip_idem in E. apply blank_strip in E. congruence.
Qed.

Section responses.

(** *** Provider responses *)

Lemma py_round_nonneg q : 0 <= Qnum q -> 0 <= py_round q.
Proof.
  intros Hq. unfold py_round. pose proof (Z.div_pos (Qnum q) (Zpos (Qden q)) Hq ltac:(lia)) as Hd.
  destruct (_ ?= _); [destruct (Z.even _)|..]; lia.
Qed.
Lemma qnum_nonneg q : (0 <= q)%Q <-> 0 <= Qnum q.
Proof. unfold Qle. simpl. lia. Qed.
Lemma binary64_nonneg q r : (0 <= q)%Q -> binary64 q = Some r -> (0 <= r)%Q.
Proof.
  intros Hq%qnum_nonneg. unfold binary64. rewrite (Z.abs_eq _ Hq). destruct (Qnum q =? 0) eqn:E0; [by intros [= <-]|].
  apply Z.eqb_neq in E0. rewrite (Z.sgn_pos (Qnum q)), Z.mul_1_l by lia. cbv zeta.
  set (p := Z.max _ _). destruct (_ && _); [done|]. intros [= <-].
  match goal with |- context [py_round ?x] => assert (0 <= py_round x) as Hm end.
  { apply py_round_nonneg. destruct (0 <=? p) eqn:Ep; simpl; [done|]. apply Z.mul_nonneg_nonneg; [done|]. apply Z.pow_nonneg. lia. }
  destruct (0 <=? p).
  - apply qnum_nonneg. simpl. apply Z.mul_nonneg_nonneg; [done|]. apply Z.pow_nonneg. lia.
  - rewrite Qred_correct. by apply qnum_nonneg.
Qed.
Lemma to_ms_nonneg q n : (0 <= q)%Q -> to_ms q = Ok n -> 0 <= n.
Proof.
  intros Hq. unfold to_ms, finite. destruct (binary64 _) as [r|] eqn:E; [|done]. intros [= <-].
  apply py_round_nonneg, qnum_nonneg. apply (binary64_nonneg _ _ ltac:(apply qnum_nonneg) E) || idtac.
  eapply binary64_nonneg; [|exact E]. apply qnum_nonneg in Hq. apply qnum_nonneg. simpl. lia.
Qed.
Lemma number_nonneg f v q : _number f v = Ok q -> (0 <= q)%Q.
Proof. unfold _number. intros (x & _ & [Hq [= <-]]%guard_or_ok)%bind_ok. by apply Qle_bool_iff. Qed.
(** A word the rest of the pipeline can use. *)
Record word_valid (w : TranscriptionWord) : Prop := {
  wv_text : blank (wd_text w) = false /\ py_strip (wd_text w) = wd_text w;
  wv_label : blank (wd_speaker_label w) = false /\ py_strip (wd_speaker_label w) = wd_speaker_label w;
  wv_times : 0 <= wd_start_ms w < wd_end_ms w;
  wv_confidence : match wd_confidence w with Some q => unit_interval q = true | None => True end
}.
Lemma parse_speaker_spec raw l : parse_speaker raw = Ok l -> blank l = false /\ py_strip l = l.
Proof.
  unfold parse_speaker. destruct raw as [[| |n| |s| |]|]; try done; intros [Hg [= <-]]%guard_or_ok.
  - apply Z.leb_le in Hg. pose proof (speaker_name_nospace n Hg) as Hs. split; [|by apply strip_nospace].
    apply nospace_nonblank; [done|done].
  - apply negb_true_iff in Hg. split; [by apply blank_of_strip|apply strip_idem].
Qed.
Lemma parse_confidence_spec raw c : parse_confidence raw = Ok c -> match c with Some q => unit_interval q = true | None => True end.
Proof.
  unfold parse_confidence. assert (forall r, (q ← _number "confidence" r; guard_or (cp "transcription confidence is outside 0..1") (Qle_bool q 1) (Ok (Some q))) = Ok c ->
    match c with Some q => unit_interval q = true | None => True end) as E.
  { intros r (q & Hq & [Hle [= <-]]%guard_or_ok)%bind_ok. unfold unit_interval. rewrite Hle, andb_true_r. apply Qle_bool_iff. by eapply number_nonneg. }
  destruct raw as [[]|]; try (by intros [= <-]); apply E.
Qed.
Lemma parse_word_spec previous raw w : parse_word previous raw = Ok w -> word_valid w /\ previous <= wd_start_ms w.
Proof.
  unfold parse_word. destruct raw as [| | | | | |d]; try done. destruct (match dict_get (cp "text") d with Some _ => _ | None => _ end) as [[| | | |text| |]|]; try done.
  intros [Ht (sp & Hsp & (st & Hst & (st_ms & Hms & (en & Hen & (en_ms & Hme & Hw)%bind_ok)%bind_ok)%bind_ok)%bind_ok)%bind_ok]%guard_or_ok.
  apply guard_or_ok in Hw as [Hlt%Z.ltb_lt Hw]. apply guard_or_ok in Hw as [Hle%Z.leb_le (c & Hc & [= <-])%bind_ok].
  apply negb_true_iff in Ht. split; [|done]. constructor; simpl.
  - split; [by apply blank_of_strip|apply strip_idem].
  - by eapply parse_speaker_spec.
  - pose proof (to_ms_nonneg st st_ms (number_nonneg _ _ _ Hst) Hms). lia.
  - by eapply parse_confidence_spec.
Qed.
Lemma parse_words_spec raws : forall previous ws, parse_words previous raws = Ok ws ->
  Forall word_valid ws /\ Sorted Z.le (previous :: (wd_start_ms <$> ws)).
Proof.
  induction raws as [|raw raws IH]; intros previous ws Hw; simpl in Hw; [simplify_eq; by repeat constructor|].
  apply bind_ok in Hw as (w & H1 & (rest & H2 & [= <-])%bind_ok). apply parse_word_spec in H1 as [Hv Hle].
  destruct (IH _ _ H2) as [Hvs Hs]. split; [by constructor|]. simpl. constructor; [done|by constructor].
Qed.
Definition word_fields (w : TranscriptionWord) : list (pystr * json) := match word_dict w with JObj d => d | _ => [] end.
Lemma word_fields_get w :
  dict_get (cp "text") (word_fields w) = Some (JStr (wd_text w)) /\ dict_get (cp "start_ms") (word_fields w) = Some (JInt (wd_start_ms w))
  /\ dict_get (cp "end_ms") (word_fields w) = Some (JInt (wd_end_ms w))
  /\ dict_get (cp "speaker_label") (word_fields w) = Some (JStr (wd_speaker_label w))
  /\ dict_get (cp "confidence") (word_fields w) = Some (match wd_confidence w with Some q => JFloat q | None => JNull end).
Proof. by split_and!. Qed.
Lemma stored_words_roundtrip ws : forall previous, Forall word_valid ws -> Sorted Z.le (previous :: (wd_start_ms <$> ws)) ->
  stored_words previous (word_dict <$> ws) = Ok ws.
Proof.
  induction ws as [|w ws IH]; intros previous Hv Hs; [done|]. apply Forall_cons in Hv as [[[Ht Et] [Hl El] Htm Hc] Hv].
  rewrite fmap_cons in Hs. apply Sorted_inv in Hs as [Hs Hle]. apply HdRel_inv in Hle. rewrite fmap_cons. cbn [stored_words].
  fold (word_fields w). destruct (word_fields_get w) as (-> & -> & -> & -> & ->).
  assert (stored_confidence (Some match wd_confidence w with Some q => JFloat q | None => JNull end) = Some (wd_confidence w)) as ->.
  { destruct (wd_confidence w) as [q|]; [|done]. simpl. by rewrite Hc. }
  apply guard_or_ok. rewrite Ht, Hl. rewrite (proj2 (Z.leb_le previous _)), (proj2 (Z.leb_le 0 _)), (proj2 (Z.ltb_lt (wd_start_ms w) _)) by lia.
  split; [done|]. rewrite IH by done. simpl. rewrite Et, El. by destruct w.
Qed.
End responses.

(** ** The theorems *)

Section transcript_theorems.
Context `{Unicode} `{MediaHost}.

(** C30: What a transcription provider answers is checked before it is paid evidence:
    an accepted response has words, in order of time; each has a text and a speaker
    label with no whitespace around them, a span of time that is not empty and a
    confidence between zero and one; and the checkpoint stored for it gives the same
    words back. *)
Theorem provider_words_checked payload model t : _parse_response payload model = Ok t ->
  tr_words t <> [] /\ tr_model t = model /\ Forall word_valid (tr_words t) /\ Sorted Z.le (wd_start_ms <$> tr_words t)
  /\ _checkpoint_result (_checkpoint_words t) (tr_language t) model
     = Ok (mk_transcription (py_join [32%N] (wd_text <$> tr_words t)) (tr_words t) (tr_language t) model).
Proof.
  unfold _parse_response. destruct payload as [| | | | | |d]; try done. destruct (dict_get (cp "text") d) as [[| | | |text| |]|]; try done.
  intros [_ Hp]%guard_or_ok. destruct (dict_get (cp "words") d) as [[| | | | |[|raw raws]|]|]; try done.
  apply bind_ok in Hp as (ws & Hws & Hp).
  assert (exists lang, t = mk_transcription (py_strip text) ws lang model) as [lang ->].
  { destruct (dict_get (cp "language") d) as [[]|]; try done; injection Hp as <-; by eexists. }
  destruct (parse_words_spec _ _ _ Hws) as [Hv Hs]. simpl.
  assert (ws <> []) as Hne. { intros ->. simpl in Hws. apply bind_ok in Hws as (? & _ & (? & _ & [=])%bind_ok). }
  split_and!; [done|done|done|by apply Sorted_inv in Hs as [? _]|]. unfold _checkpoint_result, _checkpoint_words. simpl.
  rewrite stored_words_roundtrip by done. simpl. by destruct ws.
Qed.

(** C26: A transcript is evidence from the provider's words to the chunks that are
    searched.  The segments built from a stitched transcript, with the names inferred
    for their speakers, pass every check of the transcript repository; each stitched
    word is in a segment of its speaker that spans its time.  The retrieval chunks are
    made without an error: each is the text between its offsets, lies inside the
    duration, spans the time of every segment it touches, names a segment or a speaker
    only where it touches no other, and a name only as inferred for that speaker; and
    every character of the transcript that is not whitespace is in one. *)
Theorem transcript_is_evidence ids chunks duration_ms gap size overlap ws segments :
  stitch_chunk_transcriptions chunks duration_ms = Ok ws -> build_transcript_segments ids ws gap = Ok segments ->
  0 < duration_ms -> 0 <= overlap < size -> (forall i j, ids i = ids j -> i = j) ->
  (forall c, c ∈ chunks -> Forall word_valid (tr_words (ct_result c))) ->
  let identities := infer_speaker_names segments in
  let text := py_join [10%N] (sg_text <$> segments) in
  (forall kind, kind ∈ [cp "audio"; cp "video"] -> validate_transcript kind (Some duration_ms) (speaker_input <$> identities) segments = Ok tt)
  /\ Forall (fun w => exists s, s ∈ segments /\ sg_speaker_id s = sw_speaker_id w /\ sg_start_ms s <= sw_start_ms w
                               /\ sw_end_ms w <= sg_end_ms s /\ py_substr (py_strip (sw_text w)) (sg_text s) = true) ws
  /\ transcript_text segments = Ok text
  /\ exists drafts, build_transcript_chunks segments identities duration_ms size overlap = Some (Ok drafts)
       /\ Forall (draft_ok duration_ms segments identities text) drafts
       /\ forall i c, text !! i = Some c -> py_isspace c = false ->
            exists td, td ∈ drafts /\ td_char_start td <= Z.of_nat i < td_char_end td.
Proof.
  intros Hst Hseg Hd Hov Hids Hvalid. destruct (stitch_result _ _ _ Hst) as (st & Hss & _ & Ews).
  destruct (keys_words _ _ _ Hss) as (ws' & Ew' & H2 & _). rewrite Ew' in Ews.
  assert (forall sw, sw ∈ ws -> confident sw /\ 0 <= sw_start_ms sw < sw_end_ms sw /\ sw_end_ms sw <= duration_ms) as Hws.
  { intros sw Hsw. rewrite Ews in Hsw. apply elem_of_py_sorted, list_elem_of_lookup in Hsw as [i Hi].
    destruct (Forall2_lookup_r _ _ _ _ _ H2 Hi) as (k & _ & w & Hw & _ & -> & -> & Ec). unfold word_of in Hw.
    apply bind_Some in Hw as (c & Hc & Hw). apply list_elem_of_lookup_2 in Hc, Hw. destruct (ss_words _ _ _ Hss c Hc) as [_ Hok].
    rewrite Forall_forall in Hok. split; [|by apply Hok]. unfold confident. rewrite Ec. unfold axis_words in Hw.
    apply list_elem_of_fmap in Hw as (tw & -> & Htw). simpl. unfold in_order in Hc. apply elem_of_py_sorted in Hc.
    specialize (Hvalid c Hc). rewrite Forall_forall in Hvalid. by apply (wv_confidence _ (Hvalid tw Htw)). }
  destruct (stitched_segments ids ws duration_ms gap segments Hids) as [Hok Hcov]; [apply Forall_forall; by intros ? [? _]%Hws| | |done|].
  { rewrite Ews. apply Sorted_StronglySorted; [intros ???; apply word_leb_trans|]. apply py_sorted_sorted, word_leb_total. }
  { apply Forall_forall. by intros ? [_ ?]%Hws. }
  cbv zeta. split_and!; [intros kind Hk; by apply transcript_accepted|done|by apply transcript_text_ok, so_layout with duration_ms|by apply drafts_ok].
Qed.
End transcript_theorems.

(** ** Examples *)

#[local] Existing Instance demo_unicode.
#[local] Existing Instance demo_media.

Definition demo_ids (i : nat) : uuid := N.of_nat (100 + i).
Definition demo_segments : list TranscriptSegmentDraft :=
  match build_transcript_segments demo_ids demo_words 1500 with Ok l => l | Err _ => [] end.

(** Names in the text. *)
Example demo_self : _self_name (cp "Hey! I'm Bob van Dyk") = None /\ _self_name (cp "ok. hello, i am Bob Smith, from Rome") = Some (cp "Bob Smith")
  /\ _self_name (cp "Oh, hi, my NAME is  O'Neil-Ray.") = Some (cp "O'Neil-Ray") /\ _self_name (cp "My name is Ana. My name is Eva.") = None
  /\ _self_name (cp "I am Bob") = None.
Proof. vm_compute. by split_and!. Qed.
Example demo_addressed : _addressed_name (cp "Thank you, Maria Lopez. ") = Some (cp "Maria Lopez")
  /\ _addressed_name (cp "Welcome everyone") = None /\ _addressed_name (cp "Bob, could you start?") = Some (cp "Bob")
  /\ _addressed_name (cp "Bob, cant") = None /\ _addressed_name (cp "Hello Everyone!") = None.
Proof. vm_compute. by split_and!. Qed.

Lemma demo_segments_built : build_transcript_segments demo_ids demo_words 1500 = Ok demo_segments.
Proof. by vm_compute. Qed.

Theorem inferred_names_backed_witness :
  exists i, i ∈ infer_speaker_names demo_segments /\ si_display_name i = Some (cp "Ana")
  /\ exists c, backed (by_ordinal demo_segments) (si_speaker_id i) c /\ cp "Ana" = nc_name c.
Proof.
  assert (exists i, head (infer_speaker_names demo_segments) = Some i /\ si_display_name i = Some (cp "Ana")) as (i & Hi & Hn).
  { eexists. split; [vm_compute; reflexivity|by vm_compute]. }
  exists i. assert (i ∈ infer_speaker_names demo_segments) as Hin by (apply head_Some_elem_of; exact Hi). split; [exact Hin|]. split; [exact Hn|].
  destruct (inferred_names_backed demo_segments i (cp "Ana") Hin Hn) as ((c & Hb & Hc & _) & _). exists c. split; [exact Hb|exact Hc].
Defined.

Lemma demo_valid : forall c, c ∈ [demo_second; demo_first] -> Forall word_valid (tr_words (ct_result c)).
Proof.
  intros c Hc. apply elem_of_cons in Hc as [->|Hc]; [|apply list_elem_of_singleton in Hc as ->].
  all: repeat (constructor; [constructor; [by vm_compute|by vm_compute|simpl; lia|by vm_compute]|]); constructor.
Qed.
Theorem transcript_is_evidence_witness :
  length demo_segments = 4%nat
  /\ validate_transcript (cp "audio") (Some 20000) (speaker_input <$> infer_speaker_names demo_segments) demo_segments = Ok tt.
Proof.
  split; [by vm_compute|].
  destruct (transcript_is_evidence demo_ids [demo_second; demo_first] 20000 1500 40 5 demo_words demo_segments demo_words_stitched demo_segments_built)
    as (Hv & _); [lia|lia| |exact demo_valid|].
  - intros i j. unfold demo_ids. lia.
  - apply Hv. by left.
Defined.

Definition demo_payload : json :=
  JObj [(cp "text", JStr (cp " Hi. ")); (cp "language", JStr []);
        (cp "words", JArr [JObj [(cp "word", JStr (cp " Hi.")); (cp "speaker", JInt 0); (cp "start", JFloat (1 # 2)); (cp "end", JFloat (7 # 10))]])].
Theorem provider_words_checked_witness :
  exists t, _parse_response demo_payload (cp "stt") = Ok t /\ Forall word_valid (tr_words t).
Proof.
  eexists. split; [vm_compute; reflexivity|]. apply (provider_words_checked demo_payload (cp "stt")). vm_compute. reflexivity.
Defined.
