(* ===== verification/Ingest.v ===== *)
(** * Document ingestion and its search index

    [backend/app/tasks/ingest.py] (the pipeline of a delivery and its Celery
    wrapper), [backend/app/tasks/index_sync.py] (the sync of one document's index
    entries), the ingestion operations of [DocumentRepository], [ChunkRepository],
    [SourceReconcileRepository] and [EmbeddingReconcileRepository]
    ([backend/app/db/repositories.py]), the writes of
    [backend/app/search/store.py] and [backend/app/ingestion/fingerprint.py].

    One document is modelled, with everything that works on it at once: any number
    of deliveries, generic index repairs, recovery sweeps, re-embedding
    reservations, connector refreshes and its deletion.  Each is a program of
    atomic operations (a database transaction or, between unlocked reads, a
    statement; a request to the engine, which may fail after any part of its
    effect); the operations of all programs interleave.  The engine has two
    states, as OpenSearch documents: what was written, and what the last refresh
    made visible, which is all that a search or a delete-by-query sees.

    Parameters: parsing and inspection of files, the object store, the embedding
    gateway, what ffprobe and the transcription provider answer, SHA-256 and the build
    metadata. *)

From stdpp Require Import base list strings gmap pretty.
From Stdlib Require Import Lia ZArith QArith.
From S2P Require Import Prelude Json Tools Permissions Retrieval Chunking Reasoning Context Media.
Open Scope Z_scope.

(** ** Programs *)

(** What the world answers to one operation: the outcome of a commit, a failed
    engine request with the chunks it reached, whether the engine refreshed on the
    way, the object, the embeddings, the contract check, the clock. *)
Inductive commit := CommitOk | CommitLost | CommitUnknown.
Inductive fault :=
| SQLAlchemyError
| IngestionError (code detail : pystr) (attempt : option Z)
| DependencyError (code : pystr)
| AppError (code : pystr)
| DocumentParseError (unsupported : bool) (detail : pystr)
| IngestionLeaseLost
| MediaError        (* MediaProcessingError, InvalidTranscriptionResponse, ValueError *)
| OSError
| OtherError.

(** What a collaborator raises. *)
Inductive outside := ODependency (code : pystr) | OApp (code : pystr) | OValue | OOs | OOther.
Definition raised (o : outside) : fault :=
  match o with
  | ODependency c => DependencyError c | OApp c => AppError c | OValue => MediaError | OOs => OSError | OOther => OtherError
  end.

Record Embedding := mk_embedding { em_vector : list Q; em_model : pystr }.

Record answer := mk_answer {
  a_now : Z;
  a_commit : commit;
  a_engine : option pystr;
  a_reached : uuid -> bool;
  a_refreshed : bool;
  a_object : res outside pystr;
  a_embeddings : res outside (list Embedding);
  a_contract : res outside unit;
  (** media: the size the store reports and that of the file; what ffprobe prints;
      a local file or FFmpeg run; what the transcription provider answers *)
  a_download : res outside (Z * Z);
  a_probe : res outside json;
  a_file : res outside unit;
  a_response : res outside json;
  a_ids : nat -> uuid;
  (** the heartbeats that are due before the operation, and whether the operation
      that one of them cancels had its effect *)
  a_beats : nat;
  a_cut : bool
}.

Section programs.
Context {world : Type}.

Inductive prog (A : Type) :=
| Ret (a : A)
| Op {B : Type} (f : answer -> world -> B * world) (k : B -> prog A).
Arguments Ret {A} a.
Arguments Op {A B} f k.

Fixpoint pbind {A B} (p : prog A) (k : A -> prog B) : prog B :=
  match p with Ret a => k a | Op f k' => Op f (fun b => pbind (k' b) k) end.

Definition M (A : Type) : Type := prog (res fault A).
Definition ret {A} (a : A) : M A := Ret (Ok a).
Definition raise {A} (e : fault) : M A := Ret (Err e).
Definition bind {A B} (m : M A) (k : A -> M B) : M B :=
  pbind m (fun r => match r with Ok a => k a | Err e => raise e end).
(** [try: m except e: h e] *)
Definition try_except {A} (m : M A) (h : fault -> M A) : M A :=
  pbind m (fun r => match r with Ok a => ret a | Err e => h e end).

(** One program alone, its [i]-th operation answered by [answers i]. *)
Fixpoint run {A} (answers : nat -> answer) (p : prog A) (i : nat) (w : world) : A * world :=
  match p with
  | Ret a => (a, w)
  | Op f k => let '(b, w) := f (answers i) w in run answers (k b) (S i) w
  end.
End programs.
Arguments prog world A : clear implicits.
Arguments Ret {world A} a.
Arguments Op {world A B} f k.
Arguments M world A : clear implicits.

Declare Scope prog_scope.
Delimit Scope prog_scope with prog.
Notation "'let!' x := m 'in' k" := (bind m (fun x => k))
  (at level 200, x pattern, m at level 100, k at level 200, right associativity) : prog_scope.
Notation "m ;; k" := (bind m (fun _ => k)) (at level 100, k at level 200, right associativity) : prog_scope.
Open Scope prog_scope.

(** ** The rows *)

Inductive DocumentStatus := PENDING | PROCESSING | READY | FAILED.
#[global] Instance DocumentStatus_eq_dec : EqDecision DocumentStatus.
Proof. solve_decision. Defined.
Inductive ExtractionOutcome := EMPTY | OUTCOME_FAILED | PARTIAL | UNSUPPORTED | INDEXED.

Definition status_value (s : DocumentStatus) : pystr :=
  match s with
  | PENDING => cp "pending" | PROCESSING => cp "processing" | READY => cp "ready" | FAILED => cp "failed"
  end.

Record failure := mk_failure {
  fl_code : pystr; fl_message : pystr; fl_attempt : Z; fl_correlation_id : option pystr
}.
(** [ingestion_metadata] *)
Record metadata := mk_metadata {
  mt_outcome : option ExtractionOutcome;
  mt_diagnostics : option json;
  mt_locations : list SourceLocation;
  mt_fingerprint : option json
}.

(** A row of [transcription_checkpoints]. *)
Record checkpoint := mk_checkpoint {
  ck_chunk_index : Z; ck_model : pystr; ck_start_ms : Z; ck_end_ms : Z; ck_language : option pystr; ck_words : list json
}.
(** The transcription columns, and the rows of the tables that hang on the document
    ([ON DELETE CASCADE]): its transcript and its checkpoints. *)
Record media_columns := mk_media_columns {
  mc_transcript_language : option pystr;
  mc_transcription_model : option pystr;
  mc_transcript : option (list TranscriptSpeakerInput * list TranscriptSegmentDraft);
  mc_checkpoints : list checkpoint
}.

(** A row of [documents].  [r_document] has its other columns; the status and the
    attempt it holds are those of the row ([to_document]). *)
Record row := mk_row {
  r_document : Document;
  r_status : DocumentStatus;
  r_attempts : Z;
  r_run_id : option uuid;
  r_updated_at : Z;
  r_error : option pystr;
  r_failure : option failure;
  r_metadata : metadata;
  r_source_text : option pystr;
  r_mime_type : pystr;
  r_size_bytes : Z;
  r_storage_key : pystr;
  r_media : media_columns
}.

Definition to_document (r : row) : Document :=
  let d := r_document r in
  mk_document (d_id d) (d_tenant_id d) (d_owner_id d) (d_collection_id d) (d_source_id d) (d_filename d)
    (d_kind d) (d_duration_ms d) (status_value (r_status r)) (r_attempts r) (d_acl_enforced d)
    (d_acl_principals d) (d_acl_synced_at d) (d_acl_scope_ids d).

(** A row of [chunks]. *)
Record chunk_row := mk_chunk_row {
  k_chunk : Chunk;
  k_embedding : option (list Q);
  k_legacy_embedding : option (list Q)
}.
Record archive_row := mk_archive {
  ar_chunk_id : uuid; ar_revision : pystr; ar_attempt : Z; ar_fingerprint : pystr;
  ar_ord : Z; ar_text : pystr; ar_char_start : Z; ar_char_end : Z; ar_embedding : list Q
}.

(** An entry of the index: a chunk, the document row it was projected from, its
    vector, its generation. *)
Record IndexedChunk := mk_indexed {
  ix_chunk : Chunk;
  ix_document : Document;
  ix_embedding : option (list Q);
  ix_ingestion_attempt : Z;
  ix_embedding_fingerprint : pystr
}.
(** By [_id]: the chunk and the attempt. *)
Notation engine := (gmap (N * Z) IndexedChunk).

Inductive audit_event := DocumentTranscribed (allowed : bool).

(** [w_claims] is history: the run that made each claim, and whether the document
    was audio or video then. *)
Record world := mk_world {
  w_row : option row;
  w_chunks : list chunk_row;
  w_archive : list archive_row;
  w_live : engine;
  w_seen : engine;
  w_audit : list audit_event;
  w_next_id : uuid;
  w_claims : list (uuid * bool)
}.

Definition set_row (r : option row) (w : world) : world :=
  mk_world r (w_chunks w) (w_archive w) (w_live w) (w_seen w) (w_audit w) (w_next_id w) (w_claims w).
Definition set_chunks (l : list chunk_row) (a : list archive_row) (next : uuid) (w : world) : world :=
  mk_world (w_row w) l a (w_live w) (w_seen w) (w_audit w) next (w_claims w).
Definition set_engine (live seen : engine) (w : world) : world :=
  mk_world (w_row w) (w_chunks w) (w_archive w) live seen (w_audit w) (w_next_id w) (w_claims w).
Definition add_audit (e : audit_event) (w : world) : world :=
  mk_world (w_row w) (w_chunks w) (w_archive w) (w_live w) (w_seen w) (w_audit w ++ [e]) (w_next_id w) (w_claims w).
Definition add_claim (c : uuid * bool) (w : world) : world :=
  mk_world (w_row w) (w_chunks w) (w_archive w) (w_live w) (w_seen w) (w_audit w) (w_next_id w) (w_claims w ++ [c]).

(** ** The repositories *)

Record config := mk_config {
  cf_tenant : uuid;
  cf_document : uuid;
  cf_chunk_size : Z;
  cf_chunk_overlap : Z;
  cf_embed_batch_size : nat;
  cf_space : pystr;          (* embedding_space_fingerprint *)
  cf_dimensions : nat;
  cf_max_retries : Z;
  cf_backoff_seconds : Z;
  cf_transcription_model : pystr;
  cf_transcription_chunk_seconds : Z;
  cf_transcription_chunk_overlap_seconds : Z;
  cf_media_max_duration_seconds : Z
}.

Definition _PDF : pystr := cp "application/pdf".
Definition _DOCX : pystr := cp "application/vnd.openxmlformats-officedocument.wordprocessingml.document".
Definition _PPTX : pystr := cp "application/vnd.openxmlformats-officedocument.presentationml.presentation".
Definition _XLSX : pystr := cp "application/vnd.openxmlformats-officedocument.spreadsheetml.sheet".
Definition SUPPORTED_MIME_TYPES : list pystr :=
  [_PDF; _DOCX; _PPTX; _XLSX; cp "text/plain"; cp "text/markdown"].

Record ParsedDocument := mk_parsed { pd_text : pystr; pd_locations : list SourceLocation }.
Inductive parse_error := UnsupportedMimeType (detail : pystr) | Unparsable (detail : pystr).

(** The libraries. *)
Class IngestHost := {
  parse_document_with_locations : pystr -> pystr -> res parse_error ParsedDocument;
  build_extraction_diagnostics : pystr -> pystr -> ParsedDocument -> res parse_error json;
  sha256 : pystr -> pystr;
  (** [json.dumps] of the rows of a revision *)
  dumps_revision : list (Z * pystr * Z * Z) -> pystr;
  (** the hashes of the parser and the chunker and the parser's dependency, where
      the build has them *)
  build_metadata : option pystr -> option (pystr * pystr * json)
}.

Section ingest.
Context `{Unicode} `{MediaHost} `{IngestHost}.
Variable cf : config.

Notation M := (M world).

Definition is_media (mime : pystr) : bool := mem (normalized_mime mime) (AUDIO_MIME_TYPES ++ VIDEO_MIME_TYPES).

(** *** Documents *)

(** A change of the row refreshes [updated_at] ([onupdate]). *)
Definition with_status (s : DocumentStatus) (error : option pystr) (f : option failure) (run : option uuid) (now : Z)
    (r : row) : row :=
  mk_row (r_document r) s (r_attempts r) run now error f (r_metadata r) (r_source_text r) (r_mime_type r)
    (r_size_bytes r) (r_storage_key r) (r_media r).
Definition with_metadata (m : metadata) (r : row) : row :=
  mk_row (r_document r) (r_status r) (r_attempts r) (r_run_id r) (r_updated_at r) (r_error r) (r_failure r) m
    (r_source_text r) (r_mime_type r) (r_size_bytes r) (r_storage_key r) (r_media r).
Definition with_source_text (text : pystr) (r : row) : row :=
  mk_row (r_document r) (r_status r) (r_attempts r) (r_run_id r) (r_updated_at r) (r_error r) (r_failure r)
    (r_metadata r) (Some text) (r_mime_type r) (r_size_bytes r) (r_storage_key r) (r_media r).
Definition with_outcome (o : option ExtractionOutcome) (r : row) : row :=
  let m := r_metadata r in
  with_metadata (mk_metadata o (mt_diagnostics m) (mt_locations m) (mt_fingerprint m)) r.
Definition with_updated_at (now : Z) (r : row) : row :=
  with_status (r_status r) (r_error r) (r_failure r) (r_run_id r) now r.
Definition next_attempt (r : row) : row :=
  mk_row (r_document r) (r_status r) (r_attempts r + 1) (r_run_id r) (r_updated_at r) (r_error r) (r_failure r)
    (r_metadata r) (r_source_text r) (r_mime_type r) (r_size_bytes r) (r_storage_key r) (r_media r).

(** The row that satisfies a [WHERE], changed; [None] where there is none. *)
Definition update_where (p : row -> bool) (f : row -> row) (w : world) : option row * world :=
  match w_row w with
  | Some r => if p r then (Some (f r), set_row (Some (f r)) w) else (None, w)
  | None => (None, w)
  end.

Definition owned_by_attempt (attempt : Z) (r : row) : bool :=
  bool_decide (r_status r = PROCESSING) && (r_attempts r =? attempt).
Definition owned_by_run (run : uuid) (r : row) : bool :=
  bool_decide (r_status r = PROCESSING) && bool_decide (r_run_id r = Some run).

Definition claimable (stale_before : Z) (allow_failed : bool) (r : row) : bool :=
  match r_status r with
  | PENDING | READY => true
  | FAILED => allow_failed
  | PROCESSING => r_updated_at r <? stale_before
  end.
Definition claim_ingestion (now : Z) (run : uuid) (stale_before : Z) (allow_failed : bool) (w : world)
    : option row * world :=
  match update_where (claimable stale_before allow_failed)
          (fun r => with_outcome None (next_attempt (with_status PROCESSING None None (Some run) now r))) w with
  | (Some r, w) => (Some r, add_claim (run, is_media (r_mime_type r)) w)
  | (None, w) => (None, w)
  end.
(** The fenced form, which every delivery uses. *)
Definition begin_ingestion (now : Z) (run : uuid) (stale_before : Z) (w : world) : option row * world :=
  claim_ingestion now run stale_before true w.

Definition touch_processing (now : Z) (run : uuid) (w : world) : bool * world :=
  let '(r, w) := update_where (owned_by_run run) (with_updated_at now) w in (bool_decide (is_Some r), w).
Definition get_claimed_for_update (run : uuid) (w : world) : option row :=
  match w_row w with Some r => if owned_by_run run r then Some r else None | None => None end.

Definition mark_ingestion_failed (now : Z) (expected_attempt : option Z) (code message : pystr)
    (correlation_id : option pystr) (outcome : option ExtractionOutcome) (w : world) : option row * world :=
  update_where (fun r => match expected_attempt with Some n => owned_by_attempt n r | None => true end)
    (fun r =>
       let r' := with_status FAILED (Some message)
                   (Some (mk_failure code message (r_attempts r)
                      (match correlation_id with Some (_ :: _) => correlation_id | _ => None end))) None now r in
       match outcome with Some o => with_outcome (Some o) r' | None => r' end) w.
Definition mark_ingestion_ready (now expected_attempt : Z) (outcome : option ExtractionOutcome) (w : world)
    : option row * world :=
  update_where (owned_by_attempt expected_attempt)
    (fun r => let r' := with_status READY None None None now r in
              match outcome with Some o => with_outcome (Some o) r' | None => r' end) w.

(** The merge of [{"extraction_diagnostics": value}]. *)
Definition update_ingestion_metadata (now : Z) (diagnostics : option json) (w : world) : option row * world :=
  update_where (fun _ => true)
    (fun r => let m := r_metadata r in
       with_metadata (mk_metadata (mt_outcome m) diagnostics (mt_locations m) (mt_fingerprint m)) (with_updated_at now r)) w.
Definition set_extraction (now : Z) (text : pystr) (locations : list SourceLocation) (fingerprint : json) (w : world)
    : option row * world :=
  update_where (fun _ => true)
    (fun r => let m := r_metadata r in
       with_source_text text (with_metadata (mk_metadata (mt_outcome m) (mt_diagnostics m) locations (Some fingerprint))
         (with_updated_at now r))) w.

(** *** Chunks *)

Record ChunkInput := mk_chunk_input {
  ci_text : pystr; ci_char_start : Z; ci_char_end : Z;
  ci_embedding : option (list Q);
  ci_source_locations : list SourceLocation;
  ci_time_start_ms : option Z; ci_time_end_ms : option Z;
  ci_transcript_segment_id : option uuid;
  ci_speaker_id : option pystr; ci_speaker_name : option pystr;
  ci_embedding_fingerprint : option pystr
}.

(** [models.Chunk(...)] at position [ord], under the id [id]. *)
Definition chunk_of (id : uuid) (ord : Z) (c : ChunkInput) : Chunk :=
  mk_chunk id (cf_tenant cf) (cf_document cf) ord (ci_text c) (ci_char_start c) (ci_char_end c)
    (ci_time_start_ms c) (ci_time_end_ms c) (ci_transcript_segment_id c) (ci_speaker_id c) (ci_speaker_name c)
    (ci_embedding_fingerprint c) (ci_source_locations c).
Fixpoint new_rows (id : uuid) (ord : Z) (chunks : list ChunkInput) : list chunk_row :=
  match chunks with
  | [] => []
  | c :: chunks => mk_chunk_row (chunk_of id ord c) (ci_embedding c) None :: new_rows (N.succ id) (ord + 1) chunks
  end.

Definition same_place (ord : Z) (k : chunk_row) (c : ChunkInput) : bool :=
  (c_ord (k_chunk k) =? ord) && bool_decide (c_text (k_chunk k) = ci_text c)
  && (c_char_start (k_chunk k) =? ci_char_start c) && (c_char_end (k_chunk k) =? ci_char_end c).
(** The lengths agree and each row matches its chunk. *)
Fixpoint same_shape (ord : Z) (existing : list chunk_row) (chunks : list ChunkInput) : bool :=
  match existing, chunks with
  | [], [] => true
  | k :: existing, c :: chunks => same_place ord k c && same_shape (ord + 1) existing chunks
  | _, _ => false
  end.
(** A row updated in place, its id and its legacy vector kept. *)
Definition refreshed (k : chunk_row) (c : ChunkInput) : chunk_row :=
  let old := k_chunk k in
  mk_chunk_row
    (mk_chunk (c_id old) (c_tenant_id old) (c_document_id old) (c_ord old) (c_text old) (c_char_start old)
       (c_char_end old) (ci_time_start_ms c) (ci_time_end_ms c) (ci_transcript_segment_id c) (ci_speaker_id c)
       (ci_speaker_name c) (ci_embedding_fingerprint c) (ci_source_locations c))
    (ci_embedding c) (k_legacy_embedding k).

Definition content_revision (rows : list chunk_row) : pystr :=
  sha256 (dumps_revision
    ((fun k => let c := k_chunk k in (c_ord c, c_text c, c_char_start c, c_char_end c))
       <$> py_sorted (fun a b => c_ord (k_chunk a) <=? c_ord (k_chunk b)) rows)).
Definition _archive_legacy_revision (rows : list chunk_row) (replacement_attempt : Z) (replacement_fingerprint : pystr)
    (archive : list archive_row) : list archive_row :=
  let revision := content_revision rows in
  let archived ord := existsb (fun a =>
    bool_decide (ar_revision a = revision) && (ar_attempt a =? replacement_attempt)
    && bool_decide (ar_fingerprint a = replacement_fingerprint) && (ar_ord a =? ord)) archive in
  archive ++ omap (fun k =>
    let c := k_chunk k in
    match k_legacy_embedding k with
    | Some v => if archived (c_ord c) then None
                else Some (mk_archive (c_id c) revision replacement_attempt replacement_fingerprint (c_ord c)
                             (c_text c) (c_char_start c) (c_char_end c) v)
    | None => None
    end) rows.

Definition has_legacy (rows : list chunk_row) : bool := existsb (fun k => bool_decide (is_Some (k_legacy_embedding k))) rows.
(** [_replace_for_document] for an ingestion generation. *)
Definition _replace_for_document (chunks : list ChunkInput) (archive_context : Z * pystr) (w : world)
    : list chunk_row * world :=
  let existing := w_chunks w in
  if has_legacy existing && same_shape 0 existing chunks then
    let rows := zip_with refreshed existing chunks in
    (rows, set_chunks rows (w_archive w) (w_next_id w) w)
  else
    let archive :=
      if has_legacy existing
      then _archive_legacy_revision existing archive_context.1 archive_context.2 (w_archive w) else w_archive w in
    let rows := new_rows (w_next_id w) 0 chunks in
    (rows, set_chunks rows archive (w_next_id w + N.of_nat (length chunks))%N w).

Definition replace_for_ingestion (chunks : list ChunkInput) (expected_attempt : Z) (embedding_fingerprint : pystr)
    (w : world) : res fault (option (list chunk_row) * world) :=
  match w_row w with
  | Some r =>
      if owned_by_attempt expected_attempt r then
        guard_or MediaError
          (negb (bool_decide (embedding_fingerprint = []))
           && forallb (fun c => bool_decide (ci_embedding_fingerprint c = Some embedding_fingerprint)) chunks)
          (let '(rows, w) := _replace_for_document chunks (expected_attempt, embedding_fingerprint) w in Ok (Some rows, w))
      else Ok (None, w)
  | None => Ok (None, w)
  end.

(** ** One operation *)

(** A transaction: what is raised inside rolls it back; a commit can fail, and can
    have happened all the same. *)
Definition tx {B} (f : Z -> world -> res fault (B * world)) : M B :=
  Op (fun a w =>
    match f (a_now a) w, a_commit a with
    | Err e, _ => (Err e, w)
    | Ok (b, w'), CommitOk => (Ok b, w')
    | Ok (b, _), CommitLost => (Err SQLAlchemyError, w)
    | Ok (_, w'), CommitUnknown => (Err SQLAlchemyError, w')
    end) Ret.
Definition read {B} (f : world -> B) : M B := tx (fun _ w => Ok (f w, w)).

(** A request to the engine: what it does to the entries it reaches. *)
Definition request (change : (uuid -> bool) -> world -> engine) (refresh : bool) : M unit :=
  Op (fun a w =>
    match a_engine a with
    | None => let live := change (fun _ => true) w in
              (Ok tt, set_engine live (if refresh || a_refreshed a then live else w_seen w) w)
    | Some code => let live := change (a_reached a) w in
              (Err (DependencyError code), set_engine live (if a_refreshed a then live else w_seen w) w)
    end) Ret.

(** ** The search store *)

Definition ensure_index : M unit := request (fun _ w => w_live w) false.

(** Delete-by-query: the visible entries that match. *)
Definition delete_by_query (matching : Z -> bool) (refresh : bool) : M unit :=
  request (fun reached w =>
    filter (fun e => negb (matching e.1.2 && bool_decide (is_Some (w_seen w !! e.1)) && reached e.1.1) = true) (w_live w))
    refresh.
Definition delete_document (refresh : bool) : M unit := delete_by_query (fun _ => true) refresh.
Definition delete_document_generation (attempt : Z) (refresh : bool) : M unit :=
  delete_by_query (fun n => n =? attempt) refresh.
Definition delete_older_document_generations (attempt : Z) (refresh : bool) : M unit :=
  delete_by_query (fun n => n <? attempt) refresh.

Inductive publication_refresh := NoRefresh | EachBatch | WaitFor.
Definition _BULK_BATCH_SIZE : nat := 32.
Fixpoint batches {A} (fuel n : nat) (l : list A) : list (list A) :=
  match fuel, l with
  | S fuel, _ :: _ => take n l :: batches fuel n (drop n l)
  | _, _ => []
  end.
Definition entry_key (c : IndexedChunk) : N * Z := (c_id (ix_chunk c), ix_ingestion_attempt c).
Definition entries (l : list IndexedChunk) : engine := list_to_map ((fun c => (entry_key c, c)) <$> l).
Definition _bulk_batch (l : list IndexedChunk) (refresh : bool) : M unit :=
  request (fun reached w => entries (List.filter (fun c => reached (c_id (ix_chunk c))) l) ∪ w_live w) refresh.
Fixpoint bulk_batches (bulks : list (list IndexedChunk)) (refresh : bool) : M unit :=
  match bulks with
  | [] => ret tt
  | b :: bulks => _bulk_batch b refresh ;; bulk_batches bulks refresh
  end.
Definition index_refresh : M unit := request (fun _ w => w_live w) true.

Fixpoint check_entries (l : list IndexedChunk) : option fault :=
  match l with
  | [] => None
  | c :: l =>
      if ix_ingestion_attempt c <? 0 then Some MediaError
      else if negb (bool_decide (ix_embedding_fingerprint c = cf_space cf))
      then Some (DependencyError (cp "embedding_space_mismatch"))
      else if match ix_embedding c with Some v => negb (bool_decide (length v = cf_dimensions cf)) | None => false end
      then Some (DependencyError (cp "embedding_dimension_mismatch"))
      else check_entries l
  end.
Definition upsert_chunks (l : list IndexedChunk) (refresh : publication_refresh) : M unit :=
  match check_entries l with
  | Some e => raise e
  | None =>
      bulk_batches (batches (length l) _BULK_BATCH_SIZE l)
        (match refresh with EachBatch => true | _ => false end) ;;
      match refresh, l with
      | WaitFor, _ :: _ => index_refresh
      | _, _ => ret tt
      end
  end.

(** ** The index sync (tasks/index_sync.py) *)

Record IndexSyncResult := mk_sync { is_indexed_count : nat; is_deleted : bool; is_superseded : bool }.

Definition _to_indexed (r : row) (chunks : list chunk_row) : res fault (list IndexedChunk) :=
  if existsb (fun k => negb (bool_decide (c_embedding_fingerprint (k_chunk k) = Some (cf_space cf)))) chunks
  then Err (DependencyError (cp "embedding_space_mismatch"))
  else Ok ((fun k => mk_indexed (k_chunk k) (to_document r) (k_embedding k) (r_attempts r)
              (default [] (c_embedding_fingerprint (k_chunk k)))) <$> chunks).

Definition get_document : M (option row) := read w_row.
Definition list_for_document : M (list chunk_row) := read w_chunks.

(** The last part: the entries of the snapshot, with the cleanup of a failed bulk. *)
Definition publish (r : row) (chunks : list chunk_row) (refresh visible : bool) : M unit :=
  match _to_indexed r chunks with
  | Err e => raise e
  | Ok indexed =>
      try_except
        (upsert_chunks indexed (if visible then WaitFor else if refresh then EachBatch else NoRefresh))
        (fun e => match e with
         | DependencyError _ =>
             try_except (delete_document_generation (r_attempts r) refresh)
               (fun e' => match e' with DependencyError _ => ret tt | _ => raise e' end) ;;
             raise e
         | _ => raise e
         end)
  end.

(** With an expected attempt: the publication of an ingestion. *)
Definition sync_attempt (expected_attempt : Z) (refresh visible : bool) : M IndexSyncResult :=
  let! document := get_document in
  match document with
  | Some r =>
      if owned_by_attempt expected_attempt r then
        let! chunks := list_for_document in
        ensure_index ;;
        match chunks with
        | [] =>
            delete_document_generation expected_attempt refresh ;;
            delete_older_document_generations expected_attempt refresh ;;
            ret (mk_sync 0 true false)
        | _ =>
            publish r chunks refresh visible ;;
            delete_older_document_generations expected_attempt refresh ;;
            ret (mk_sync (length chunks) false false)
        end
      else ret (mk_sync 0 false true)
  | None => ret (mk_sync 0 false true)
  end.
(** Without one: the generic repair. *)
Definition sync_current (refresh visible : bool) : M IndexSyncResult :=
  let! document := get_document in
  match document with
  | None => ensure_index ;; delete_document refresh ;; ret (mk_sync 0 true false)
  | Some r =>
      let! chunks := list_for_document in
      ensure_index ;;
      let snapshot := r_attempts r in
      if negb (bool_decide (r_status r = READY)) || bool_decide (chunks = [])
         || existsb (fun k => negb (bool_decide (c_embedding_fingerprint (k_chunk k) = Some (cf_space cf)))) chunks
      then
        (if bool_decide (r_status r = PROCESSING) then ret tt else delete_document_generation snapshot refresh) ;;
        delete_older_document_generations snapshot refresh ;;
        ret (mk_sync 0 true false)
      else
        delete_document_generation snapshot refresh ;;
        publish r chunks refresh visible ;;
        delete_older_document_generations snapshot refresh ;;
        let! current := get_document in
        if match current with
           | Some r' => bool_decide (r_status r' = READY) && (r_attempts r' =? snapshot)
           | None => false
           end
        then ret (mk_sync (length chunks) false false)
        else delete_document_generation snapshot refresh ;; ret (mk_sync 0 true true)
  end.
Definition sync_document_index_async (expected_attempt : option Z) (refresh visible : bool) : M IndexSyncResult :=
  match expected_attempt with
  | Some n => sync_attempt n refresh visible
  | None => sync_current refresh visible
  end.

(** ** A delivery (tasks/ingest.py) *)

Record IngestionResult := mk_result { ir_status : DocumentStatus; ir_chunk_count : nat; ir_error : option pystr }.

Definition current_result (document : option row) (chunk_count : nat) : IngestionResult :=
  match document with
  | None => mk_result FAILED 0 (Some (cp "document not found"))
  | Some r => mk_result (r_status r) chunk_count (r_error r)
  end.
Definition _current_ingestion_result : M IngestionResult :=
  let! document := get_document in
  match document with
  | Some r =>
      if bool_decide (r_status r = READY) then
        let! count := read (fun w => length (w_chunks w)) in ret (current_result document count)
      else ret (current_result document 0)
  | None => ret (current_result None 0)
  end.

Definition ask {B} (f : answer -> res outside B) : M B :=
  Op (fun a w => (match f a with Ok b => Ok b | Err o => Err (raised o) end, w)) Ret.
Definition superseded : IngestionResult := mk_result FAILED 0 (Some (cp "attempt superseded")).

Definition gateway_embed : M (list Embedding) := ask a_embeddings.
(** One call for each batch. *)
Fixpoint embed_batches (texts : list (list pystr)) : M (list Embedding) :=
  match texts with
  | [] => ret []
  | _ :: texts => let! e := gateway_embed in let! rest := embed_batches texts in ret (e ++ rest)
  end.
Definition _embed_in_batches (texts : list pystr) : M (list Embedding) :=
  embed_batches (batches (length texts) (cf_embed_batch_size cf) texts).

(** *** [_fail] and its bounded retry *)

Definition _fail (reason : pystr) (expected_attempt : option Z) (code : pystr) (outcome : ExtractionOutcome)
    (correlation_id : option pystr) (run : option uuid) : M IngestionResult :=
  let! document := tx (fun now w =>
    let mark n :=
      let '(r, w) := mark_ingestion_failed now n code reason correlation_id (Some outcome) w in
      match r with
      | Some r' => Ok (Some (Some r'), if bool_decide (mc_transcription_model (r_media r') = None) && is_media (r_mime_type r')
                                       then add_audit (DocumentTranscribed false) w else w)
      | None => Ok (Some None, w)
      end in
    match run with
    | Some id => match get_claimed_for_update id w with
                 | None => Ok (None, w)
                 | Some r => mark (Some (r_attempts r))
                 end
    | None => mark expected_attempt
    end) in
  match document with
  | Some (Some _) => ret (mk_result FAILED 0 (Some reason))
  | _ => _current_ingestion_result
  end.
Fixpoint finalize_tries (n : nat) (expected_attempt : Z) (p : M IngestionResult) : M IngestionResult :=
  try_except p (fun e =>
    match e, n with
    | SQLAlchemyError, O =>
        raise (IngestionError (cp "ingestion_finalize_database_error")
                 (cp "Document ingestion could not finalize its terminal state.") (Some expected_attempt))
    | SQLAlchemyError, S n => finalize_tries n expected_attempt p
    | _, _ => raise e
    end).
Definition _finalize_failure (reason : pystr) (expected_attempt : Z) (code : pystr) (correlation_id : option pystr)
    (outcome : ExtractionOutcome) : M IngestionResult :=
  finalize_tries 1 expected_attempt (_fail reason (Some expected_attempt) code outcome correlation_id None).

Definition ingestion_error (code detail : string) : fault := IngestionError (cp code) (cp detail) None.
(** [except DependencyError as exc], its own codes kept. *)
Definition translated (kept : list pystr) (code detail : string) (e : fault) : fault :=
  match e with
  | DependencyError c => IngestionError (if mem c kept then c else cp code) (cp detail) None
  | _ => e
  end.

Definition _sync_index (expected_attempt : Z) : M bool :=
  try_except
    (let! r := sync_document_index_async (Some expected_attempt) true true in ret (negb (is_superseded r)))
    (fun e => raise (translated [cp "embedding_dimension_mismatch"; cp "embedding_space_mismatch"]
                       "ingestion_index_error" "Document ingestion failed while updating the search index." e)).
Definition _discard_generation (attempt : Z) : M unit :=
  try_except (delete_document_generation attempt false)
    (fun e => match e with DependencyError _ => ret tt | _ => raise e end).

(** *** The text pipeline *)

Definition location_dict (l : SourceLocation) : json :=
  JObj [(cp "kind", JStr (loc_kind l)); (cp "name", JStr (loc_name l)); (cp "number", JInt (loc_number l));
        (cp "char_start", JInt (loc_char_start l)); (cp "char_end", JInt (loc_char_end l))].
Definition locations_for_span (p : ParsedDocument) (start end_ : Z) : res fault (list SourceLocation) :=
  guard_or MediaError ((0 <=? start) && (start <=? end_) && (end_ <=? Z.of_nat (length (pd_text p))))
    (Ok (if start =? end_ then []
         else List.filter (fun l => (loc_char_start l <? loc_char_end l) && (loc_char_start l <? end_)
                                    && (start <? loc_char_end l)) (pd_locations p))).
Definition native_outcome (p : ParsedDocument) : ExtractionOutcome :=
  if blank (pd_text p) then EMPTY
  else if existsb (fun l => bool_decide (loc_kind l = cp "page")
                            && blank (slice (pd_text p) (Z.to_nat (loc_char_start l)) (Z.to_nat (loc_char_end l))))
            (pd_locations p)
  then PARTIAL else INDEXED.

Definition distribution (mime : pystr) : option pystr :=
  if bool_decide (mime = _PDF) then Some (cp "pypdf") else if bool_decide (mime = _DOCX) then Some (cp "python-docx")
  else if bool_decide (mime = _PPTX) then Some (cp "python-pptx")
  else if bool_decide (mime = _XLSX) then Some (cp "openpyxl") else None.
(** The embeddings name one model and have one width. *)
Fixpoint one_space (known : option (pystr * nat)) (l : list Embedding) : res pystr (option (pystr * nat)) :=
  match l with
  | [] => Ok known
  | e :: l =>
      guard_or (cp "embedding result has no model identity") (negb (blank (em_model e)))
        (guard_or (cp "embedding result has no finite nonempty vector") (negb (bool_decide (em_vector e = [])))
          (match known with
           | None => one_space (Some (em_model e, length (em_vector e))) l
           | Some (model, dimension) =>
               guard_or (cp "embedding results disagree on model or dimension")
                 (bool_decide (em_model e = model) && Nat.eqb (length (em_vector e)) dimension) (one_space known l)
           end))
  end.
Definition build_ingestion_fingerprint (data mime : pystr) (embeddings : list Embedding) : res pystr json :=
  let normalized := normalized_mime mime in
  guard_or (cp "unsupported native parser MIME type") (mem normalized SUPPORTED_MIME_TYPES)
    (guard_or (cp "invalid chunker settings")
       ((0 <? cf_chunk_size cf) && (0 <=? cf_chunk_overlap cf) && (cf_chunk_overlap cf <? cf_chunk_size cf))
       (space ← one_space None embeddings;
        match build_metadata (distribution normalized) with
        | None => Err (cp "native implementation build metadata is unavailable")
        | Some (parser_hash, chunker_hash, dependencies) =>
            Ok (JObj [(cp "schema_version", JInt 1); (cp "source_sha256", JStr (sha256 data)); (cp "mime_type", JStr normalized);
                  (cp "parser_version", JStr (cp "native-1")); (cp "parser_code_sha256", JStr parser_hash);
                  (cp "parser_dependencies", dependencies); (cp "chunker_version", JStr (cp "boundary-1"));
                  (cp "chunker_code_sha256", JStr chunker_hash); (cp "chunk_size", JInt (cf_chunk_size cf));
                  (cp "chunk_overlap", JInt (cf_chunk_overlap cf));
                  (cp "embedding_model", match space with Some (m, _) => JStr m | None => JNull end);
                  (cp "embedding_dimension", match space with Some (_, n) => JInt (Z.of_nat n) | None => JNull end)])
        end)).
Definition fingerprint_or_raise (data mime : pystr) (embeddings : list Embedding) : M json :=
  match build_ingestion_fingerprint data mime embeddings with
  | Ok f => ret f
  | Err m => raise (IngestionError (cp "ingestion_error") (cp "could not fingerprint extraction: " ++ m) None)
  end.

Definition chunk_input (p : ParsedDocument) (c : TextChunk) (e : Embedding) : res fault ChunkInput :=
  locations ← locations_for_span p (Z.of_nat (ch_start c)) (Z.of_nat (ch_end c));
  Ok (mk_chunk_input (ch_text c) (Z.of_nat (ch_start c)) (Z.of_nat (ch_end c)) (Some (em_vector e)) locations
        None None None None None (Some (cf_space cf))).
Fixpoint chunk_inputs (p : ParsedDocument) (chunks : list TextChunk) (embeddings : list Embedding)
    : res fault (list ChunkInput) :=
  match chunks, embeddings with
  | c :: chunks, e :: embeddings =>
      i ← chunk_input p c e; rest ← chunk_inputs p chunks embeddings; Ok (i :: rest)
  | _, _ => Ok []
  end.

(** The transaction that replaces the chunks and retains the source. *)
Definition persist (chunks : list ChunkInput) (attempt : Z) (p : ParsedDocument) (fingerprint : json)
    : M (option (list chunk_row)) :=
  tx (fun now w =>
    r ← replace_for_ingestion chunks attempt (cf_space cf) w;
    match r with
    | (Some rows, w) => Ok (Some rows, (set_extraction now (pd_text p) (pd_locations p) fingerprint w).2)
    | (None, w) => Ok (None, w)
    end).

Definition ingest_empty (data mime : pystr) (attempt : Z) (p : ParsedDocument) (correlation_id : option pystr)
    : M IngestionResult :=
  let! fingerprint := fingerprint_or_raise data mime [] in
  let! persisted := persist [] attempt p fingerprint in
  match persisted with
  | None => ret superseded
  | Some _ =>
      let! published := _sync_index attempt in
      if negb published then ret superseded
      else _finalize_failure
             (cp "No native text was extracted. Use a text-bearing file or an OCR-enabled workflow.")
             attempt (cp "document_empty") correlation_id EMPTY
  end.

Definition ingest_chunks (data mime : pystr) (attempt : Z) (p : ParsedDocument) (chunks : list TextChunk) : M IngestionResult :=
  let! embeddings := try_except (_embed_in_batches (ch_text <$> chunks))
    (fun e => raise (translated [cp "embedding_dimension_mismatch"; cp "embedding_count_mismatch"]
                       "ingestion_embedding_error" "Document ingestion failed while creating embeddings." e)) in
  if negb (Nat.eqb (length embeddings) (length chunks))
  then raise (ingestion_error "embedding_count_mismatch" "Document ingestion received an unexpected embedding count.")
  else
    let! fingerprint := fingerprint_or_raise data mime embeddings in
    match chunk_inputs p chunks embeddings with
    | Err e => raise e
    | Ok inputs =>
        let! persisted := try_except (persist inputs attempt p fingerprint)
          (fun e => match e with
           | MediaError => raise (ingestion_error "legacy_chunk_shape_mismatch"
                                    "Document re-embedding would change legacy chunk boundaries.")
           | _ => raise e
           end) in
        match persisted with
        | None => ret superseded
        | Some rows =>
            let! published := _sync_index attempt in
            if negb published then ret superseded
            else
              let! ready := tx (fun now w => Ok (mark_ingestion_ready now attempt (Some (native_outcome p)) w)) in
              match ready with
              | None => _discard_generation attempt ;; ret superseded
              | Some _ => ret (mk_result READY (length rows) None)
              end
        end
    end.

Definition _ingest_claimed_document (r : row) (correlation_id : option pystr) : M IngestionResult :=
  let attempt := r_attempts r in
  let mime := r_mime_type r in
  let! data := try_except (ask a_object)
    (fun e => match e with
     | AppError _ | DependencyError _ =>
         raise (ingestion_error "ingestion_storage_error" "Document ingestion could not fetch the stored object.")
     | _ => raise e
     end) in
  match (p ← parse_document_with_locations data mime; d ← build_extraction_diagnostics data mime p; Ok (p, d)) with
  | Err e =>
      let '(detail, outcome) := match e with UnsupportedMimeType m => (m, UNSUPPORTED) | Unparsable m => (m, OUTCOME_FAILED) end in
      _finalize_failure detail attempt (cp "document_parse_error") correlation_id outcome
  | Ok (p, diagnostics) =>
      let! _ := tx (fun now w => Ok (update_ingestion_metadata now (Some diagnostics) w)) in
      match chunk_text (pd_text p) (cf_chunk_size cf) (cf_chunk_overlap cf) with
      | Some (Ok []) => ingest_empty data mime attempt p correlation_id
      | Some (Ok chunks) => ingest_chunks data mime attempt p chunks
      | Some (Err _) | None => raise MediaError   (* ValueError; it never runs out of fuel *)
      end
  end.

(** *** The media pipeline *)

Definition lift {A} (r : mres A) : M A := match r with Ok a => ret a | Err _ => raise MediaError end.
(** Nothing here runs out of fuel. *)
Definition lift_fuelled {A} (r : option (mres A)) : M A := match r with Some r => lift r | None => raise MediaError end.

Definition _require_ingestion_lease (run : uuid) : M unit :=
  let! held := tx (fun now w => Ok (touch_processing now run w)) in
  if held then ret tt else raise IngestionLeaseLost.
(** A transaction that first proves the lease. *)
Definition tx_leased {B} (run : uuid) (f : Z -> world -> res fault (B * world)) : M B :=
  tx (fun now w => let '(held, w) := touch_processing now run w in if held then f now w else Err IngestionLeaseLost).

Definition with_media (m : media_columns) (r : row) : row :=
  mk_row (r_document r) (r_status r) (r_attempts r) (r_run_id r) (r_updated_at r) (r_error r) (r_failure r) (r_metadata r)
    (r_source_text r) (r_mime_type r) (r_size_bytes r) (r_storage_key r) m.
Definition with_checkpoints (l : list checkpoint) (r : row) : row :=
  let m := r_media r in
  with_media (mk_media_columns (mc_transcript_language m) (mc_transcription_model m) (mc_transcript m) l) r.
Definition get_checkpoint (index : Z) (model : pystr) (w : world) : option checkpoint :=
  r ← w_row w; List.find (fun c => (ck_chunk_index c =? index) && bool_decide (ck_model c = model)) (mc_checkpoints (r_media r)).
Definition delete_other_models (run : uuid) (keep_model : pystr) (w : world) : option row * world :=
  update_where (owned_by_run run)
    (fun r => with_checkpoints (List.filter (fun c => bool_decide (ck_model c = keep_model)) (mc_checkpoints (r_media r))) r) w.
(** The row of this chunk and model is updated in place, or added. *)
Fixpoint put_checkpoint (c : checkpoint) (l : list checkpoint) : list checkpoint :=
  match l with
  | [] => [c]
  | d :: l => if (ck_chunk_index d =? ck_chunk_index c) && bool_decide (ck_model d = ck_model c) then c :: l else d :: put_checkpoint c l
  end.
Definition upsert_checkpoint (run : uuid) (c : checkpoint) (w : world) : option row * world :=
  update_where (owned_by_run run) (fun r => with_checkpoints (put_checkpoint c (mc_checkpoints (r_media r))) r) w.

Definition transcribe_span (run : uuid) (span : MediaSpan) : M ChunkTranscription :=
  let! stored := tx_leased run (fun _ w => Ok (get_checkpoint (sp_index span) (cf_transcription_model cf) w, w)) in
  match (c ← stored; if (ck_start_ms c =? sp_start_ms span) && (ck_end_ms c =? sp_end_ms span) then Some c else None) with
  | Some c => let! t := lift (_checkpoint_result (ck_words c) (ck_language c) (ck_model c)) in ret (mk_chunk_transcription span t)
  | None =>
      ask a_file ;;
      _require_ingestion_lease run ;;
      let! payload := ask a_response in
      let! result := lift (_parse_response payload (cf_transcription_model cf)) in
      let! kept := tx_leased run (fun _ w =>
        Ok (upsert_checkpoint run
              (mk_checkpoint (sp_index span) (tr_model result) (sp_start_ms span) (sp_end_ms span) (tr_language result)
                 (_checkpoint_words result)) w)) in
      match kept with
      | None => raise MediaError
      | Some _ => ask a_file ;; ret (mk_chunk_transcription span result)
      end
  end.
Fixpoint transcribe_spans (run : uuid) (spans : list MediaSpan) : M (list ChunkTranscription) :=
  match spans with
  | [] => ret []
  | span :: spans => let! t := transcribe_span run span in let! rest := transcribe_spans run spans in ret (t :: rest)
  end.
Definition _transcribe_chunks (run : uuid) (duration_ms : Z) : M (list ChunkTranscription) :=
  let! spans := lift_fuelled (plan_audio_chunks duration_ms (cf_transcription_chunk_seconds cf * 1000)
                                (cf_transcription_chunk_overlap_seconds cf * 1000)) in
  tx_leased run (fun _ w => Ok (tt, (delete_other_models run (cf_transcription_model cf) w).2)) ;;
  transcribe_spans run spans.

(** [update_media_metadata] *)
Definition with_media_metadata (kind : pystr) (duration_ms : Z) (language : option pystr) (now : Z) (r : row) : row :=
  let d := r_document r in
  let m := r_media r in
  mk_row (mk_document (d_id d) (d_tenant_id d) (d_owner_id d) (d_collection_id d) (d_source_id d) (d_filename d) kind
            (Some duration_ms) (d_status d) (d_ingestion_attempts d) (d_acl_enforced d) (d_acl_principals d)
            (d_acl_synced_at d) (d_acl_scope_ids d))
    (r_status r) (r_attempts r) (r_run_id r) now (r_error r) (r_failure r) (r_metadata r) (r_source_text r) (r_mime_type r)
    (r_size_bytes r) (r_storage_key r)
    (mk_media_columns language (Some (cf_transcription_model cf)) (mc_transcript m) (mc_checkpoints m)).
(** [TranscriptRepository.replace_for_document] on the row of this transaction. *)
Definition replace_transcript (speakers : list TranscriptSpeakerInput) (segments : list TranscriptSegmentDraft) (r : row)
    : res fault row :=
  match validate_transcript (d_kind (r_document r)) (d_duration_ms (r_document r)) speakers segments with
  | Err _ => Err MediaError
  | Ok _ =>
      let m := r_media r in
      Ok (with_media (mk_media_columns (mc_transcript_language m) (mc_transcription_model m) (Some (speakers, segments))
                        (mc_checkpoints m)) r)
  end.
Definition draft_input (d : TranscriptChunkDraft) (e : Embedding) : ChunkInput :=
  mk_chunk_input (td_text d) (td_char_start d) (td_char_end d) (Some (em_vector e)) [] (Some (td_time_start_ms d))
    (Some (td_time_end_ms d)) (td_transcript_segment_id d) (td_speaker_id d) (td_speaker_name d) (Some (cf_space cf)).
(** The transaction of [_persist_media_result]. *)
Definition media_tx (run : uuid) (kind : pystr) (duration_ms : Z) (language : option pystr) (speakers : list TranscriptSpeakerInput)
    (segments : list TranscriptSegmentDraft) (chunks : list ChunkInput) (now : Z) (w : world) : res fault (nat * world) :=
  match get_claimed_for_update run w with
  | None => Err IngestionLeaseLost
  | Some locked =>
      r ← replace_transcript speakers segments (with_media_metadata kind duration_ms language now locked);
      persisted ← replace_for_ingestion chunks (r_attempts locked) (cf_space cf) (set_row (Some r) w);
      match persisted with
      | (None, _) => Err IngestionLeaseLost
      | (Some rows, w) =>
          Ok (length rows, match mc_transcription_model (r_media locked) with
                           | None => add_audit (DocumentTranscribed true) w
                           | Some _ => w
                           end)
      end
  end.
Definition _persist_media_result (run : uuid) (kind : pystr) (duration_ms : Z) (language : option pystr)
    (segments : list TranscriptSegmentDraft) (drafts : list TranscriptChunkDraft) (embeddings : list Embedding) : M nat :=
  let identities := infer_speaker_names segments in
  if negb (Nat.eqb (length embeddings) (length drafts))
  then raise (IngestionError (cp "ingestion_error")
                (cp "embedding count " ++ cp (pretty (length embeddings)) ++ cp " != media chunk count " ++ cp (pretty (length drafts)))
                None)
  else if existsb (fun e => negb (Nat.eqb (length (em_vector e)) (cf_dimensions cf))) embeddings
  then raise (ingestion_error "embedding_dimension_mismatch" "Media ingestion received an unexpected embedding dimension.")
  else if existsb (fun d => match td_transcript_segment_id d with
                            | Some i => negb (mem i (sg_id <$> segments))
                            | None => false
                            end) drafts
  then raise MediaError
  else tx (media_tx run kind duration_ms language (speaker_input <$> identities) segments (zip_with draft_input drafts embeddings)).

Definition media_pipeline (run : uuid) (r : row) : M nat :=
  let! sizes := ask a_download in
  if negb ((sizes.2 =? r_size_bytes r) && (sizes.1 =? r_size_bytes r)) then raise MediaError
  else
    let! payload := ask a_probe in
    let! probe := lift (_parse_probe payload (r_mime_type r) (cf_media_max_duration_seconds cf * 1000)) in
    ask a_file ;;
    let! results := _transcribe_chunks run (mp_duration_ms probe) in
    let! stitched := lift (stitch_chunk_transcriptions results (mp_duration_ms probe)) in
    let! ids := ask (fun a => Ok (a_ids a)) in
    let! segments := lift (build_transcript_segments ids stitched 1500) in
    let! drafts := lift_fuelled (build_transcript_chunks segments (infer_speaker_names segments) (mp_duration_ms probe)
                                   (cf_chunk_size cf) (cf_chunk_overlap cf)) in
    let! embeddings := try_except (_embed_in_batches (td_text <$> drafts))
      (fun e => raise (translated [cp "embedding_dimension_mismatch"; cp "embedding_count_mismatch"]
                         "ingestion_embedding_error" "Media ingestion failed while creating embeddings." e)) in
    _persist_media_result run (mp_kind probe) (mp_duration_ms probe) (_detected_language results) segments drafts embeddings.

(** The heartbeat task runs beside the pipeline.  Before each operation, and before
    the end, those that are due prove the lease; the first that fails cancels the
    pipeline, whose operation in flight may still have its effect, and whose own
    exception, if that operation ends it with one, is the one raised. *)
Definition heartbeat (run : uuid) : M unit :=
  try_except (_require_ingestion_lease run)
    (fun e => match e with
     | IngestionLeaseLost => raise e
     | _ => raise (ingestion_error "ingestion_error" "media ingestion heartbeat failed")
     end).
Fixpoint heartbeats (n : nat) (run : uuid) : M unit :=
  match n with O => ret tt | S n => heartbeat run ;; heartbeats n run end.
Definition due_heartbeats {A} (run : uuid) (k : res fault unit -> prog world A) : prog world A :=
  Op (fun a w => (a_beats a, w)) (fun n => pbind (heartbeats n run) k).
Fixpoint with_heartbeat {A} (run : uuid) (p : prog world (res fault A)) : M A :=
  match p with
  | Ret (Err e) => raise e
  | Ret (Ok x) => due_heartbeats run (fun r => match r with Ok _ => ret x | Err e => raise e end)
  | Op f k => due_heartbeats run (fun r =>
      match r with
      | Ok _ => Op f (fun b => with_heartbeat run (k b))
      | Err e => Op (fun a w => if a_cut a then let '(b, w) := f a w in (Some b, w) else (None, w))
                    (fun o => match o with
                     | Some b => match k b with Ret (Err e') => raise e' | _ => raise e end
                     | None => raise e
                     end)
      end)
  end.
Definition _ingest_media (run : uuid) (r : row) : M nat :=
  try_except (with_heartbeat run (media_pipeline run r))
    (fun e => match e with
     | AppError code | DependencyError code =>
         raise (IngestionError (cp "ingestion_error") (cp "media dependency failed: " ++ code) None)
     | OSError => raise (ingestion_error "ingestion_error" "media worker file I/O failed")
     | _ => raise e
     end).

(** *** The delivery *)

Definition ingest_media_document (run : uuid) (r : row) : M IngestionResult :=
  let attempt := r_attempts r in
  let! count := _ingest_media run r in
  let! published := _sync_index attempt in
  if negb published then _current_ingestion_result
  else
    let! ready := tx (fun now w => Ok (mark_ingestion_ready now attempt None w)) in
    match ready with
    | None => _discard_generation attempt ;; _current_ingestion_result
    | Some _ => ret (mk_result READY count None)
    end.

(** The handlers around the claimed work. *)
Definition except_claimed (attempt : Z) (correlation_id : option pystr) (e : fault) : M IngestionResult :=
  let finalize detail code := _finalize_failure detail attempt code correlation_id OUTCOME_FAILED in
  let fail code detail :=
    finalize (cp detail) (cp code) ;; raise (IngestionError (cp code) (cp detail) (Some attempt)) in
  match e with
  | IngestionLeaseLost => _current_ingestion_result
  | MediaError => finalize (cp "Media could not be validated or transcribed.") (cp "media_ingestion_failed")
  | IngestionError code detail _ => finalize detail code ;; raise (IngestionError code detail (Some attempt))
  | SQLAlchemyError => fail "ingestion_database_error"%string "Document ingestion failed while saving chunks."%string
  | _ => fail "ingestion_internal_error"%string "Document ingestion failed unexpectedly."%string
  end.

(** The claim, with the clearing of the diagnostics in its transaction. *)
Definition claim (run : uuid) (stale_before : Z) : M (option row) :=
  tx (fun now w =>
    match begin_ingestion now run stale_before w with
    | (None, w) => Ok (None, w)
    | (Some r, w) => Ok (Some r, (update_ingestion_metadata now None w).2)
    end).
Definition ingest_document_async (run : uuid) (stale_before : Z) (correlation_id : option pystr) : M IngestionResult :=
  let! claimed := try_except
    (let! c := claim run stale_before in
     match c with
     | None => let! r := _current_ingestion_result in ret (inl r)
     | Some r => ret (inr r)
     end)
    (fun e => match e with
     | SQLAlchemyError => raise (ingestion_error "ingestion_claim_database_error"
                                   "Document ingestion could not claim the database row.")
     | _ => raise e
     end) in
  match claimed with
  | inl r => ret r
  | inr r =>
      try_except
        (if is_media (r_mime_type r) then ingest_media_document run r else _ingest_claimed_document r correlation_id)
        (except_claimed (r_attempts r) correlation_id)
  end.

(** *** The Celery task *)

Inductive task_end :=
| Returned (result : IngestionResult)
| Retry (countdown : Z)
| Crashed (e : fault).

Definition deferred (s : DocumentStatus) : task_end :=
  Returned (mk_result s 0 (Some (match s with
    | PENDING => cp "Embedding contract is not ready; ingestion deferred."
    | _ => cp "Terminal state deferred to stranded-work recovery." end))).
Definition preclaim_failure (e : fault) : bool :=
  match e with
  | DependencyError _ => true
  | IngestionError code _ _ =>
      mem code [cp "ingestion_claim_database_error"; cp "embedding_contract_preflight_failed"; cp "embedding_contract_unvalidated"]
  | _ => false
  end.
(** The retries are used up: the dead letter. *)
Definition exhausted (run : uuid) (retries : Z) (correlation_id : option pystr) (e : fault) : prog world task_end :=
  let attempt := match e with IngestionError _ _ n => n | _ => None end in
  if match attempt with None => preclaim_failure e | Some _ => false end then Ret (deferred PENDING)
  else
    pbind
      (_fail (cp "Document ingestion failed after " ++ cp (pretty retries) ++ cp " retries.") attempt
         (cp "ingestion_retries_exhausted") OUTCOME_FAILED
         (match correlation_id with Some (_ :: _) => correlation_id | _ => None end)
         (match attempt with None => Some run | Some _ => None end))
      (fun r => match r with
       | Ok result => Ret (Returned result)
       | Err SQLAlchemyError =>
           if retries <? cf_max_retries cf + 2 then Ret (Retry (cf_backoff_seconds cf * 2 ^ retries))
           else Ret (deferred PROCESSING)
       | Err e => Ret (Crashed e)
       end).
Definition ingest_document (run : uuid) (stale_before : Z) (retries : Z) (correlation_id : option pystr)
    : prog world task_end :=
  pbind (ask a_contract ;; ingest_document_async run stale_before correlation_id)
    (fun r => match r with
     | Ok result => Ret (Returned result)
     | Err (IngestionError _ _ _ as e) | Err (DependencyError _ as e) =>
         if cf_max_retries cf <=? retries then exhausted run retries correlation_id e
         else Ret (Retry (cf_backoff_seconds cf * 2 ^ retries))
     | Err e => Ret (Crashed e)
     end).

(** ** The others that work on a document *)

(** [reserve_stranded_ingestion_documents], as this document sees it. *)
Definition reserve_stranded (now older_than : Z) (w : world) : option row * world :=
  update_where (fun r => match r_status r with PENDING | PROCESSING => r_updated_at r <? older_than | _ => false end)
    (fun r => with_status PENDING (r_error r) (r_failure r) None now r) w.

(** [EmbeddingReconcileRepository] *)
Definition _requires_reembedding (target_fingerprint : pystr) (w : world) : bool :=
  existsb (fun k =>
    (bool_decide (is_Some (k_legacy_embedding k)) && bool_decide (k_embedding k = None))
    || negb (bool_decide (c_embedding_fingerprint (k_chunk k) = Some target_fingerprint))) (w_chunks w).
Definition reserve_reembedding (now : Z) (target_fingerprint : pystr) (w : world) : option row * world :=
  update_where (fun r => bool_decide (r_status r = READY) && _requires_reembedding target_fingerprint w)
    (fun r => with_status PENDING None None (r_run_id r) now r) w.
Definition release_reembedding (now : Z) (target_fingerprint : pystr) (w : world) : option row * world :=
  update_where (fun r => bool_decide (r_status r = PENDING) && _requires_reembedding target_fingerprint w)
    (fun r => with_status READY (r_error r) (r_failure r) (r_run_id r) now r) w.

(** [update_from_sync]: the row is read without a lock, and the flush writes the
    columns whose value differs from the one read. *)
Record source_update := mk_source_update {
  su_mime_type : pystr; su_size_bytes : Z; su_storage_key : pystr; su_document : Document -> Document
}.
Definition changed {A} `{EqDecision A} (read_value new current : A) : A := if decide (read_value = new) then current else new.
Definition flush_from_sync (now : Z) (seen : row) (u : source_update) (w : world) : option row * world :=
  update_where (fun _ => true) (fun r =>
    mk_row (su_document u (r_document r)) (changed (r_status seen) PENDING (r_status r)) (r_attempts r) (r_run_id r) now
      (changed (r_error seen) None (r_error r)) (r_failure r) (r_metadata r) (r_source_text r)
      (changed (r_mime_type seen) (su_mime_type u) (r_mime_type r))
      (changed (r_size_bytes seen) (su_size_bytes u) (r_size_bytes r))
      (changed (r_storage_key seen) (su_storage_key u) (r_storage_key r)) (r_media r)) w.

(** [DocumentRepository.delete] with its cascade. *)
Definition delete (w : world) : world :=
  match w_row w with
  | Some _ => set_row None (set_chunks [] (w_archive w) (w_next_id w) w)
  | None => w
  end.

(** *** The programs *)

Inductive job :=
| Deliver (run : uuid) (stale_before retries : Z) (correlation_id : option pystr)
| Repair (refresh : bool)                    (* sync_document_index, the re-index *)
| Sweep (older_than : Z)
| Reserve | Release
| Refresh (u : source_update)                (* a connector's upsert *)
| Mirror (f : Document -> Document)          (* a change of the other columns *)
| Delete
| EngineRefresh.

Definition program (j : job) : prog world unit :=
  let done {A} (p : prog world A) := pbind p (fun _ => Ret tt) in
  match j with
  | Deliver run stale_before retries correlation_id => done (ingest_document run stale_before retries correlation_id)
  | Repair refresh => done (sync_document_index_async None refresh false)
  | Sweep older_than => done (tx (fun now w => Ok (reserve_stranded now older_than w)))
  | Reserve => done (tx (fun now w => Ok (reserve_reembedding now (cf_space cf) w)))
  | Release => done (tx (fun now w => Ok (release_reembedding now (cf_space cf) w)))
  | Refresh u =>
      done (let! r := get_document in
            match r with
            | Some seen => let! _ := tx (fun now w => Ok (flush_from_sync now seen u w)) in ret tt
            | None => ret tt
            end)
  | Mirror f =>
      done (tx (fun now w => Ok (update_where (fun _ => true)
        (fun r => mk_row (f (r_document r)) (r_status r) (r_attempts r) (r_run_id r) now (r_error r) (r_failure r)
                    (r_metadata r) (r_source_text r) (r_mime_type r) (r_size_bytes r) (r_storage_key r)
                    (r_media r)) w)))
  | Delete => done (tx (fun _ w => Ok (tt, delete w)))
  | EngineRefresh => done index_refresh
  end.
End ingest.

(** ** Interleaving *)

Section system.
Context {world : Type}.

(** One operation of one program. *)
Inductive step : world * list (prog world unit) -> nat -> world * list (prog world unit) -> Prop :=
| step_op w ps i B (f : answer -> world -> B * world) k a :
    ps !! i = Some (Op f k) -> step (w, ps) i ((f a w).2, <[i := k (f a w).1]> ps).
Inductive steps : world * list (prog world unit) -> world * list (prog world unit) -> Prop :=
| steps_refl c : steps c c
| steps_more c i c' c'' : step c i c' -> steps c' c'' -> steps c c''.

(** A schedule, executed: who moves, and what the world answers. *)
Definition exec1 (c : world * list (prog world unit)) (m : nat * answer) : option (world * list (prog world unit)) :=
  match c.2 !! m.1 with
  | Some (Op f k) => let '(b, w) := f m.2 c.1 in Some (w, <[m.1 := k b]> c.2)
  | _ => None
  end.
Fixpoint exec (c : world * list (prog world unit)) (ms : list (nat * answer)) : option (world * list (prog world unit)) :=
  match ms with
  | [] => Some c
  | m :: ms => match exec1 c m with Some c' => exec c' ms | None => None end
  end.
Lemma exec1_step c m c' : exec1 c m = Some c' -> step c m.1 c'.
Proof.
  unfold exec1. destruct c as [w ps]. simpl. destruct (ps !! m.1) as [[a|B f k]|] eqn:E; try done.
  pose proof (step_op w ps m.1 B f k m.2 E) as Hs. destruct (f m.2 w) as [b w']. simpl in Hs. by intros [= <-].
Qed.
Lemma exec_steps c ms c' : exec c ms = Some c' -> steps c c'.
Proof.
  revert c. induction ms as [|m ms IH]; intros c; simpl; [intros [= <-]; constructor|].
  destruct (exec1 c m) as [c1|] eqn:E; [|done]. intros Hs. econstructor; [by apply (exec1_step _ m)|by apply IH].
Qed.
End system.
