(* ===== verification/IngestFence.v ===== *)
(** * Ingestion attempts are fenced

    The theorems of [Ingest] under interleaving: whatever deliveries, repairs,
    sweeps, reservations, refreshes and deletions work on a document at once, only
    the owner of the current attempt writes its chunks or ends it, and a document
    becomes ready only when the index shows exactly its chunks.

    The proof is by rely and guarantee: [wp] checks every operation of a program in
    every world the others can leave, and each operation against what the others
    rely on. *)

From stdpp Require Import base list strings gmap sorting.
From Stdlib Require Import Lia ZArith QArith.
From S2P Require Import Prelude Json Tools Permissions Retrieval Chunking Reasoning Context Media Stitching Ingest.
Open Scope Z_scope.

(** ** Rely and guarantee *)

Section wp.
Context {world : Type} (I : world -> Prop) (R G : world -> world -> Prop).
Context {R_refl : Reflexive R} {R_trans : Transitive R}.

Fixpoint wp {A} (p : prog world A) (Q : A -> world -> Prop) (w : world) : Prop :=
  match p with
  | Ret a => Q a w
  | Op f k => forall w', I w' -> R w w' -> forall a,
      I (f a w').2 /\ G w' (f a w').2 /\ wp (k (f a w').1) Q (f a w').2
  end.

Lemma wp_stable {A} (p : prog world A) (Q : A -> world -> Prop) w w' :
  (forall a, Q a w -> Q a w') -> wp p Q w -> R w w' -> wp p Q w'.
Proof. destruct p; simpl; intros HQ Hp Hr; [by apply HQ|]. intros w'' Hi Hr'. apply Hp; [done|]. by etrans. Qed.
Lemma wp_weaken {A} (p : prog world A) (Q Q' : A -> world -> Prop) w :
  (forall a w', Q a w' -> Q' a w') -> wp p Q w -> wp p Q' w.
Proof.
  intros HQ. revert w. induction p as [a|B f k IH]; intros w; simpl; [apply HQ|].
  intros Hp w' Hi Hr a. destruct (Hp w' Hi Hr a) as (? & ? & ?). eauto.
Qed.
Lemma wp_pbind {A B} (p : prog world A) (k : A -> prog world B) Q w :
  wp p (fun a w' => wp (k a) Q w') w -> wp (pbind p k) Q w.
Proof.
  revert w. induction p as [a|C f k' IH]; intros w; simpl; [done|].
  intros Hp w' Hi Hr a. destruct (Hp w' Hi Hr a) as (? & ? & ?). eauto.
Qed.
Lemma wp_prog_bind {A B} (m : M world A) (k : A -> M world B) Q w :
  wp m (fun r w' => match r with Ok a => wp (k a) Q w' | Err e => Q (Err e) w' end) w ->
  wp (bind m k) Q w.
Proof. intros Hm. apply wp_pbind. eapply wp_weaken; [|exact Hm]. by intros [a|e] w'. Qed.
Lemma wp_try {A} (m : M world A) (h : fault -> M world A) (Q : res fault A -> world -> Prop) w :
  wp m (fun r w' => match r with Ok a => Q (Ok a) w' | Err e => wp (h e) Q w' end) w ->
  wp (try_except m h) Q w.
Proof. intros Hm. apply wp_pbind. eapply wp_weaken; [|exact Hm]. by intros [a|e] w'. Qed.
End wp.

(** Programs that keep what each other relies on keep it together. *)
Section soundness.
Context {world job : Type} (I : world -> Prop) (R G : job -> world -> world -> Prop).
Context {R_refl : forall j, Reflexive (R j)} {R_trans : forall j, Transitive (R j)}.

Definition fine (js : list job) (c : world * list (prog world unit)) : Prop :=
  I c.1 /\ Forall2 (fun j p => wp I (R j) (G j) p (fun _ _ => True) c.1) js c.2.

Variable js : list job.
Hypothesis compatible : forall i j k k' w w',
  js !! i = Some k -> js !! j = Some k' -> i <> j -> G k w w' -> R k' w w'.

Lemma step_fine c i c' : fine js c -> step c i c' ->
  fine js c' /\ exists j, js !! i = Some j /\ G j c.1 c'.1.
Proof.
  intros [Hi Hw] Hs. destruct Hs as [w ps i B f k a Hp]. simpl in *.
  destruct (Forall2_lookup_r _ _ _ _ _ Hw Hp) as (j & Hj & Hwp).
  destruct (Hwp w Hi (reflexivity w) a) as (Hi' & Hg & Hk). split; [|by exists j]. split; [done|].
  simpl. apply Forall2_lookup. intros i'. rewrite Forall2_lookup in Hw. specialize (Hw i').
  destruct (decide (i = i')) as [<-|Hne].
  - rewrite list_lookup_insert_eq by (by eapply lookup_lt_Some). rewrite Hj. by constructor.
  - rewrite list_lookup_insert_ne by done. destruct (js !! i') as [j'|] eqn:Ej; inversion Hw; constructor.
    eapply wp_stable; [apply _|done|eassumption|]. by apply (compatible i i' j j').
Qed.
Lemma steps_fine c c' : fine js c -> steps c c' -> fine js c'.
Proof. intros Hf Hs. revert Hf. induction Hs as [c|c i c' c'' Hs _ IH]; [done|]. intros Hf. apply IH. by eapply step_fine. Qed.
End soundness.

(** ** What the programs rely on *)

Section fence.
Context {UC : Unicode} {MC : MediaHost} {IC : IngestHost}.
Variable cf : config.

(** The document is in status [s] at attempt [n]. *)
Definition at_ (s : DocumentStatus) (n : Z) (w : world) : Prop :=
  exists r, w_row w = Some r /\ r_status r = s /\ r_attempts r = n.
Definition count (w : world) : Z := Z.of_nat (length (w_claims w)).
(** Attempt [n] is the claim of [run]; the attempt is still going on. *)
Definition claimed (run : uuid) (n : Z) (w : world) : Prop :=
  1 <= n /\ exists m, w_claims w !! Z.to_nat (n - 1) = Some (run, m).
Definition own (run : uuid) (n : Z) (w : world) : Prop := at_ PROCESSING n w /\ claimed run n w.

Definition gen (n : Z) (e : engine) : engine := filter (fun x => x.1.2 = n) e.
Definition row_source (r : row) : option pystr * option (list TranscriptSpeakerInput * list TranscriptSegmentDraft) :=
  (r_source_text r, mc_transcript (r_media r)).
(** The retained source: the text, and the transcript. *)
Definition source (w : world) : option (option pystr * option (list TranscriptSpeakerInput * list TranscriptSegmentDraft)) :=
  row_source <$> w_row w.
Definition chunk_ids (w : world) : list uuid := (fun k => c_id (k_chunk k)) <$> w_chunks w.

Record inv (w : world) : Prop := {
  inv_attempts r : w_row w = Some r -> r_attempts r = count w;
  inv_run r : w_row w = Some r -> r_status r = PROCESSING ->
    exists run, r_run_id r = Some run /\ claimed run (count w) w;
  inv_entries k : is_Some (w_live w !! k) \/ is_Some (w_seen w !! k) -> k.2 <= count w;
  inv_ids : NoDup (chunk_ids w) /\ Forall (fun id => (id < w_next_id w)%N) (chunk_ids w)
}.

(** What the owner of attempt [n] finds as it left it. *)
Record frame (n : Z) (w w' : world) : Prop := {
  frame_chunks : w_chunks w' = w_chunks w;
  frame_source : source w' = source w;
  frame_live : gen n (w_live w') = gen n (w_live w);
  frame_seen : gen n (w_seen w') = gen n (w_seen w) \/ gen n (w_seen w') = gen n (w_live w);
  frame_claims : w_claims w `prefix_of` w_claims w'
}.
(** Attempts only grow, an attempt that ended is over, a deleted document is gone. *)
Record advances (new : list (uuid * bool)) (w w' : world) : Prop := {
  adv_claims : w_claims w' = w_claims w ++ new;
  adv_gone : w_row w = None -> w_row w' = None;
  adv_over n : n <= count w -> at_ PROCESSING n w' -> at_ PROCESSING n w
}.

Definition R (me : option uuid) (w w' : world) : Prop :=
  exists new, advances new w w' /\ (forall c, c ∈ new -> me <> Some c.1)
  /\ forall run n, me = Some run -> own run n w' -> frame n w w'.

(** The entries of chunks projected at attempt [n]. *)
Definition projected (n : Z) (d : Document) (chunks : list chunk_row) : engine :=
  entries ((fun k => mk_indexed (k_chunk k) d (k_embedding k) n (cf_space cf)) <$> chunks).
(** The chunks are those of the text, in order and at their places. *)
Definition cut_from (text : pystr) (chunks : list chunk_row) : Prop :=
  exists l, chunk_text text (cf_chunk_size cf) (cf_chunk_overlap cf) = Some (Ok l)
  /\ Forall2 (fun k c => c_text (k_chunk k) = ch_text c /\ c_char_start (k_chunk k) = Z.of_nat (ch_start c)
                         /\ c_char_end (k_chunk k) = Z.of_nat (ch_end c)) chunks l.
(** The chunks are the retrieval chunks of the transcript [segments]. *)
Definition cut_from_transcript (segments : list TranscriptSegmentDraft) (chunks : list chunk_row) : Prop :=
  exists duration_ms drafts,
    build_transcript_chunks segments (infer_speaker_names segments) duration_ms (cf_chunk_size cf) (cf_chunk_overlap cf) = Some (Ok drafts)
    /\ Forall2 (fun k d => c_text (k_chunk k) = td_text d /\ c_char_start (k_chunk k) = td_char_start d
                           /\ c_char_end (k_chunk k) = td_char_end d /\ c_time_start_ms (k_chunk k) = Some (td_time_start_ms d)
                           /\ c_time_end_ms (k_chunk k) = Some (td_time_end_ms d)
                           /\ c_transcript_segment_id (k_chunk k) = td_transcript_segment_id d
                           /\ c_speaker_id (k_chunk k) = td_speaker_id d /\ c_speaker_name (k_chunk k) = td_speaker_name d) chunks drafts.
Definition said_in_transcript (w : world) : Prop := exists text segments,
  source w = Some (text, Some (speaker_input <$> infer_speaker_names segments, segments)) /\ cut_from_transcript segments (w_chunks w).
Record published (n : Z) (w : world) : Prop := {
  pub_space : Forall (fun k => c_embedding_fingerprint (k_chunk k) = Some (cf_space cf)) (w_chunks w);
  pub_index : exists d, d_ingestion_attempts d = n /\ gen n (w_live w) = projected n d (w_chunks w)
              /\ gen n (w_seen w) = projected n d (w_chunks w);
  pub_text run : w_claims w !! Z.to_nat (n - 1) = Some (run, false) ->
    exists text transcript, source w = Some (Some text, transcript) /\ cut_from text (w_chunks w);
  pub_transcript run : w_claims w !! Z.to_nat (n - 1) = Some (run, true) -> said_in_transcript w
}.

Record G (me : option uuid) (w w' : world) : Prop := {
  g_advances : exists new, advances new w w' /\ forall c, c ∈ new -> me = Some c.1;
  g_frame run n : me <> Some run -> own run n w' -> frame n w w';
  g_chunks : w_chunks w' = w_chunks w \/ w_row w' = None \/ exists run n, me = Some run /\ own run n w;
  g_end n : at_ PROCESSING n w -> at_ PROCESSING n w' \/ at_ PENDING n w' \/ w_row w' = None
            \/ (exists n', n < n' /\ at_ PROCESSING n' w') \/ exists run, me = Some run /\ own run n w;
  g_ready n : at_ READY n w' -> at_ READY n w \/ (me = None /\ at_ PENDING n w /\ _requires_reembedding (cf_space cf) w = true)
            \/ exists run, me = Some run /\ own run n w /\ published n w'
}.

Lemma at_unique s s' n n' w : at_ s n w -> at_ s' n' w -> s = s' /\ n = n'.
Proof. intros (r & E & <- & <-) (r' & E' & <- & <-). by simplify_eq. Qed.
Lemma claimed_unique run run' n w : claimed run n w -> claimed run' n w -> run = run'.
Proof. intros (_ & m & E) (_ & m' & E'). by simplify_eq. Qed.
Lemma claimed_bound run n w : claimed run n w -> 1 <= n <= count w.
Proof. intros (Hn & m & E). apply lookup_lt_Some in E. unfold count. lia. Qed.
Lemma own_current run n w : inv w -> own run n w -> n = count w.
Proof. intros Hi ((r & E & _ & <-) & _). by apply (inv_attempts _ Hi). Qed.

Lemma advances_count new w w' : advances new w w' -> count w <= count w'.
Proof. intros Ha. unfold count. rewrite (adv_claims _ _ _ Ha), length_app. lia. Qed.
Lemma advances_claimed new w w' run n : advances new w w' -> claimed run n w -> claimed run n w'.
Proof.
  intros Ha (Hn & m & E). split; [done|]. exists m. rewrite (adv_claims _ _ _ Ha).
  by apply lookup_app_l_Some.
Qed.
(** A claim of one's own was there before the others moved. *)
Lemma advances_claimed_back new w w' run n :
  advances new w w' -> (forall c, c ∈ new -> Some run <> Some c.1) -> claimed run n w' -> claimed run n w.
Proof.
  intros Ha Hnew (Hn & m & E). split; [done|]. exists m. rewrite (adv_claims _ _ _ Ha) in E.
  apply lookup_app_Some in E as [E|[_ E]]; [done|]. apply list_elem_of_lookup_2 in E. by destruct (Hnew _ E).
Qed.
Lemma R_own run n w w' : R (Some run) w w' -> own run n w' -> own run n w /\ frame n w w'.
Proof.
  intros (new & Ha & Hnew & Hf) Ho. split; [|by apply (Hf run)]. destruct Ho as [Hp Hc].
  assert (claimed run n w) as Hc' by (eapply advances_claimed_back; [done| |done]; done).
  split; [|done]. apply (adv_over _ _ _ Ha); [|done]. by apply claimed_bound in Hc' as [_ ?].
Qed.
Lemma frame_refl n w : frame n w w.
Proof. constructor; auto. Qed.
Lemma frame_trans n w1 w2 w3 : frame n w1 w2 -> frame n w2 w3 -> frame n w1 w3.
Proof.
  intros [C1 S1 L1 V1 P1] [C2 S2 L2 V2 P2]. constructor; [congruence..| |by etrans].
  destruct V2 as [V2|V2]; rewrite V2; [destruct V1; auto|right; congruence].
Qed.
Lemma advances_refl w : advances [] w w.
Proof. constructor; [by rewrite app_nil_r|done..]. Qed.
Lemma advances_trans l l' w1 w2 w3 : advances l w1 w2 -> advances l' w2 w3 -> advances (l ++ l') w1 w3.
Proof.
  intros H1 H2. pose proof (advances_count _ _ _ H1) as Hc. destruct H1 as [C1 N1 O1], H2 as [C2 N2 O2]. constructor.
  - by rewrite C2, C1, app_assoc.
  - auto.
  - intros n Hn Hp. apply O1; [done|]. apply O2; [lia|done].
Qed.
#[global] Instance R_refl me : Reflexive (R me).
Proof.
  intros w. exists []. split; [apply advances_refl|]. split; [by intros c ?%elem_of_nil|]. intros. apply frame_refl.
Qed.
#[global] Instance R_trans me : Transitive (R me).
Proof.
  intros w1 w2 w3 H1 H2. pose proof H1 as (l & A1 & N1 & F1). pose proof H2 as (l' & A2 & N2 & F2).
  exists (l ++ l'). split; [by eapply advances_trans|]. split.
  - intros c [Hc|Hc]%elem_of_app; auto.
  - intros run n -> Ho. destruct (R_own _ _ _ _ H2 Ho) as [Ho2 Hf2]. eapply frame_trans; [|done]. by apply (F1 run n).
Qed.
Lemma G_R me me' w w' : G me w w' -> (me = None \/ me <> me') -> R me' w w'.
Proof.
  intros Hg Hne. destruct (g_advances _ _ _ Hg) as (new & Ha & Hnew). exists new. split; [done|]. split.
  - intros c Hc ->. apply Hnew in Hc. destruct Hne; congruence.
  - intros run n -> Ho. apply (g_frame _ _ _ Hg run); [|done]. destruct Hne; congruence.
Qed.

(** ** Operations *)

Notation wp me := (wp inv (R me) (G me)).

Lemma at_row w w' s n : w_row w' = w_row w -> at_ s n w' <-> at_ s n w.
Proof. unfold at_. by intros ->. Qed.
Lemma claimed_claims w w' run n : w_claims w' = w_claims w -> claimed run n w' <-> claimed run n w.
Proof. unfold claimed. by intros ->. Qed.
Lemma own_same w w' run n : w_row w' = w_row w -> w_claims w' = w_claims w -> own run n w' <-> own run n w.
Proof. intros Hr Hc. unfold own. by rewrite (at_row w w'), (claimed_claims w w'). Qed.

Lemma gen_lookup (n : Z) (e : engine) (k : N * Z) : gen n e !! k = if decide (k.2 = n) then e !! k else None.
Proof.
  unfold gen. rewrite map_lookup_filter. destruct (e !! k) as [x|]; simpl; [|by destruct (decide _)].
  destruct (decide (k.2 = n)); by rewrite ?option_guard_True, ?option_guard_False by done.
Qed.
Lemma gen_ext (n : Z) (e e' : engine) : (forall id, e !! (id, n) = e' !! (id, n)) <-> gen n e = gen n e'.
Proof.
  split.
  - intros Hk. apply map_eq. intros [id m]. rewrite !gen_lookup. simpl. destruct (decide _) as [->|]; [apply Hk|done].
  - intros Hk id. apply (f_equal (fun g => g !! (id, n))) in Hk. rewrite !gen_lookup in Hk. simpl in Hk.
    by destruct (decide (n = n)).
Qed.

(** A change of the engine alone. *)
Lemma G_engine (me : option uuid) (w : world) (live seen : engine) :
  inv w -> (forall k, is_Some (live !! k) -> k.2 <= count w) -> seen = w_seen w \/ seen = live ->
  (forall run n, me <> Some run -> own run n w -> gen n live = gen n (w_live w)) ->
  inv (set_engine live seen w) /\ G me w (set_engine live seen w).
Proof.
  intros Hi Hb Hs Hg. destruct Hi as [Ha Hr He Hids]. split.
  - constructor; [done|done| |done]. intros k [Hk|Hk]; [by apply Hb|]. simpl in Hk.
    destruct Hs as [->| ->]; [apply He; by right|by apply Hb].
  - constructor; [| |by left|intros n ?; by left|intros n ?; by left].
    + exists []. split; [|by intros c ?%elem_of_nil]. constructor; [by rewrite app_nil_r|done..].
    + intros run n Hne Ho. rewrite (own_same w) in Ho by done. specialize (Hg run n Hne Ho). constructor; [done|done|done| |done].
      simpl. destruct Hs as [->| ->]; [by left|by right].
Qed.
Lemma G_refl me w : G me w w.
Proof.
  constructor; [|intros; apply frame_refl|by left|intros n ?; by left|intros n ?; by left].
  exists []. split; [apply advances_refl|by intros c ?%elem_of_nil].
Qed.

Lemma wp_request me change refresh (Q : res fault unit -> world -> Prop) w :
  (forall w' reached, inv w' -> R me w w' ->
     (forall k, is_Some (change reached w' !! k) -> k.2 <= count w')
     /\ (forall run n, me <> Some run -> own run n w' -> gen n (change reached w') = gen n (w_live w'))
     /\ (forall seen code, seen = w_seen w' \/ seen = change reached w' ->
           Q (Err (DependencyError code)) (set_engine (change reached w') seen w'))) ->
  (forall w' seen, let live := change (fun _ => true) w' in inv w' -> R me w w' ->
     seen = w_seen w' \/ seen = live -> (refresh = true -> seen = live) -> Q (Ok tt) (set_engine live seen w')) ->
  wp me (request change refresh) Q w.
Proof.
  intros Herr Hok w' Hi Hr a. destruct (a_engine a) as [code|]; simpl.
  - destruct (Herr w' (a_reached a) Hi Hr) as (Hb & Hg & HQ).
    assert ((if a_refreshed a then change (a_reached a) w' else w_seen w') = w_seen w'
            \/ (if a_refreshed a then change (a_reached a) w' else w_seen w') = change (a_reached a) w') as Hs
      by (destruct (a_refreshed a); auto).
    destruct (G_engine me w' _ _ Hi Hb Hs Hg). auto.
  - destruct (Herr w' (fun _ => true) Hi Hr) as (Hb & Hg & HQ). set (live := change _ w') in *.
    assert ((if refresh || a_refreshed a then live else w_seen w') = w_seen w'
            \/ (if refresh || a_refreshed a then live else w_seen w') = live) as Hs
      by (destruct (_ || _); auto).
    destruct (G_engine me w' _ _ Hi Hb Hs Hg). split; [done|]. split; [done|].
    apply Hok; [done..|]. by intros ->.
Qed.

Lemma wp_tx {B} me (f : Z -> world -> res fault (B * world)) (Q : res fault B -> world -> Prop) w :
  (forall w' now, inv w' -> R me w w' -> Q (Err SQLAlchemyError) w'
     /\ match f now w' with
        | Err e => Q (Err e) w'
        | Ok (b, w2) => inv w2 /\ G me w' w2 /\ Q (Ok b) w2 /\ Q (Err SQLAlchemyError) w2
        end) ->
  wp me (tx f) Q w.
Proof.
  intros Hf w' Hi Hr a. destruct (Hf w' (a_now a) Hi Hr) as [Hlost Hok]. simpl.
  destruct (f (a_now a) w') as [[b w2]|e]; [|by split_and!; [|apply G_refl|]].
  destruct Hok as (? & ? & ? & ?). destruct (a_commit a); simpl; split_and!; try done. apply G_refl.
Qed.
Lemma wp_read {B} me (f : world -> B) (Q : res fault B -> world -> Prop) w :
  (forall w', inv w' -> R me w w' -> Q (Ok (f w')) w' /\ Q (Err SQLAlchemyError) w') -> wp me (read f) Q w.
Proof. intros Hf. apply wp_tx. intros w' now Hi Hr. destruct (Hf w' Hi Hr). split_and!; try done. apply G_refl. Qed.


Lemma published_same n w w' :
  w_chunks w' = w_chunks w -> w_live w' = w_live w -> w_seen w' = w_seen w -> source w' = source w ->
  w_claims w' = w_claims w -> published n w -> published n w'.
Proof.
  intros Ec El Es Et Ecl [Hs Hx Ht Hm]. constructor; [by rewrite Ec|by rewrite Ec, El, Es|..].
  - intros run. rewrite Ecl, Et, Ec. apply Ht.
  - intros run. unfold said_in_transcript. rewrite Ecl, Et, Ec. apply Hm.
Qed.

(** A change of the row alone. *)
Lemma G_row me w r r' :
  inv w -> w_row w = Some r -> r_attempts r' = r_attempts r -> row_source r' = row_source r ->
  (r_status r' = PROCESSING -> r_status r = PROCESSING /\ r_run_id r' = r_run_id r) ->
  (r_status r = PROCESSING -> r_status r' = PROCESSING \/ r_status r' = PENDING
     \/ exists run, me = Some run /\ claimed run (r_attempts r) w) ->
  (r_status r' = READY -> r_status r = READY
     \/ (me = None /\ r_status r = PENDING /\ _requires_reembedding (cf_space cf) w = true)
     \/ exists run, me = Some run /\ r_status r = PROCESSING /\ claimed run (r_attempts r) w /\ published (r_attempts r) w) ->
  inv (set_row (Some r') w) /\ G me w (set_row (Some r') w).
Proof.
  intros [Ha Hrun He Hids] Er Eat Esrc Hproc Hend Hready.
  assert (source (set_row (Some r') w) = source w) as Esource by (unfold source; rewrite Er; simpl; by rewrite Esrc).
  assert (forall n, at_ PROCESSING n (set_row (Some r') w) -> at_ PROCESSING n w) as Hback.
  { intros n (r0 & [= <-] & Es & <-). exists r. apply Hproc in Es as [Es _]. by rewrite Eat. }
  split; constructor.
  - intros r0 [= <-]. rewrite Eat. by apply Ha.
  - intros r0 [= <-] Es. destruct (Hproc Es) as [Es' ->]. by apply (Hrun r).
  - exact He.
  - exact Hids.
  - exists []. split; [|by intros c ?%elem_of_nil]. constructor; [by rewrite app_nil_r|by rewrite Er|by auto].
  - intros run n _ [Hp _]. constructor; [done|done|done|by left|done].
  - by left.
  - intros n (r0 & Er0 & Es & <-). simplify_eq. destruct (Hend Es) as [Es'|[Es'|(run & -> & Hc)]].
    + left. by exists r'.
    + right; left. by exists r'.
    + do 4 right. exists run. split; [done|]. split; [by exists r|done].
  - intros n (r0 & [= <-] & Es & <-). rewrite Eat. destruct (Hready Es) as [Es'|[(-> & Es' & Hreq)|(run & -> & Es' & Hc & Hp)]].
    + left. by exists r.
    + right; left. split; [done|]. split; [by exists r|done].
    + do 2 right. exists run. split; [done|]. split; [split; [by exists r|done]|]. by apply (published_same _ w).
Qed.

(** The same for everyone but the row's other columns. *)
Record same (w w' : world) : Prop := {
  same_chunks : w_chunks w' = w_chunks w;
  same_claims : w_claims w' = w_claims w;
  same_live : w_live w' = w_live w;
  same_seen : w_seen w' = w_seen w;
  same_source : source w' = source w;
  same_at s n : at_ s n w' <-> at_ s n w
}.
Lemma same_refl w : same w w.
Proof. by constructor. Qed.
Lemma same_own w w' run n : same w w' -> own run n w' <-> own run n w.
Proof. intros Hs. unfold own. by rewrite (same_at _ _ Hs), (claimed_claims w w') by apply (same_claims _ _ Hs). Qed.
Lemma same_trans w1 w2 w3 : same w1 w2 -> same w2 w3 -> same w1 w3.
Proof.
  intros [C1 K1 L1 V1 S1 A1] [C2 K2 L2 V2 S2 A2]. constructor; [congruence..|]. intros s n. by rewrite A2.
Qed.
Lemma same_frame n w w' : same w w' -> frame n w w'.
Proof. intros [Ec Ecl El Es Et _]. constructor; [done|done|by rewrite El|by rewrite Es; left|by rewrite Ecl]. Qed.
Lemma same_advances w w' : same w w' -> advances [] w w'.
Proof.
  intros Hs. constructor; [by rewrite app_nil_r, (same_claims _ _ Hs)| |by intros n _ ?%(same_at _ _ Hs)].
  intros E. destruct (w_row w') as [r|] eqn:E'; [|done].
  assert (at_ (r_status r) (r_attempts r) w) as (r' & E'' & _) by (apply (same_at _ _ Hs); by exists r). congruence.
Qed.
Lemma same_R me w w' : same w w' -> R me w w'.
Proof.
  intros Hs. exists []. split; [by apply same_advances|]. split; [by intros c ?%elem_of_nil|]. intros. by apply same_frame.
Qed.
Lemma same_G me w w' : same w w' -> G me w w'.
Proof.
  intros Hs. constructor.
  - exists []. split; [by apply same_advances|by intros c ?%elem_of_nil].
  - intros. by apply same_frame.
  - left. apply (same_chunks _ _ Hs).
  - intros n Hp. left. by apply (same_at _ _ Hs).
  - intros n Hp. left. by apply (same_at _ _ Hs).
Qed.

Definition quiet (f : row -> row) : Prop :=
  forall r, r_status (f r) = r_status r /\ r_attempts (f r) = r_attempts r /\ r_run_id (f r) = r_run_id r
            /\ row_source (f r) = row_source r.
Lemma update_quiet me p f w : quiet f -> inv w ->
  inv (update_where p f w).2 /\ G me w (update_where p f w).2 /\ same w (update_where p f w).2.
Proof.
  intros Hq Hi. unfold update_where. destruct (w_row w) as [r|] eqn:Er; [|split_and!; [done|apply G_refl|apply same_refl]].
  destruct (p r); [|split_and!; [done|apply G_refl|apply same_refl]]. destruct (Hq r) as (Es & Ea & Erun & Et). simpl.
  destruct (G_row me w r (f r)) as [Hi' Hg]; [done..| | | |].
  - rewrite Es. by auto.
  - rewrite Es. by auto.
  - rewrite Es. by auto.
  - split_and!; [done|done|]. constructor; try done.
    + unfold source. rewrite Er. simpl. by rewrite Et.
    + intros s n. split.
      * intros (r0 & [= <-] & <- & <-). exists r. by rewrite Es, Ea.
      * intros (r0 & Er0 & <- & <-). rewrite Er in Er0. injection Er0 as <-. exists (f r). by rewrite Es, Ea.
Qed.

Lemma owned_by_attempt_spec n r : owned_by_attempt n r = true <-> r_status r = PROCESSING /\ r_attempts r = n.
Proof. unfold owned_by_attempt. rewrite andb_true_iff, bool_decide_eq_true, Z.eqb_eq. done. Qed.
Lemma owned_by_run_spec run r : owned_by_run run r = true <-> r_status r = PROCESSING /\ r_run_id r = Some run.
Proof. unfold owned_by_run. by rewrite andb_true_iff, !bool_decide_eq_true. Qed.

(** The owner's failure. *)
Lemma mark_failed_ok run n now code message correlation outcome w : inv w -> claimed run n w ->
  inv (mark_ingestion_failed now (Some n) code message correlation outcome w).2
  /\ G (Some run) w (mark_ingestion_failed now (Some n) code message correlation outcome w).2
  /\ w_claims (mark_ingestion_failed now (Some n) code message correlation outcome w).2 = w_claims w.
Proof.
  intros Hi Hc. unfold mark_ingestion_failed, update_where. destruct (w_row w) as [r|] eqn:Er; [|by split_and!; [|apply G_refl|]].
  destruct (owned_by_attempt n r) eqn:Eo; [|by split_and!; [|apply G_refl|]]. apply owned_by_attempt_spec in Eo as [Es <-].
  refine ((fun Hg => conj (proj1 Hg) (conj (proj2 Hg) eq_refl)) _). apply (G_row _ w r); [done|done|..].
  - by destruct outcome.
  - by destruct outcome.
  - by destruct outcome.
  - intros _. do 2 right. by exists run.
  - by destruct outcome.
Qed.
(** The owner's publication. *)
Lemma mark_ready_ok run n now outcome w : inv w -> claimed run n w -> (own run n w -> published n w) ->
  inv (mark_ingestion_ready now n outcome w).2 /\ G (Some run) w (mark_ingestion_ready now n outcome w).2
  /\ w_claims (mark_ingestion_ready now n outcome w).2 = w_claims w.
Proof.
  intros Hi Hc Hp. unfold mark_ingestion_ready, update_where. destruct (w_row w) as [r|] eqn:Er; [|by split_and!; [|apply G_refl|]].
  destruct (owned_by_attempt n r) eqn:Eo; [|by split_and!; [|apply G_refl|]]. apply owned_by_attempt_spec in Eo as [Es <-].
  refine ((fun Hg => conj (proj1 Hg) (conj (proj2 Hg) eq_refl)) _). apply (G_row _ w r); [done|done|..].
  - by destruct outcome.
  - by destruct outcome.
  - by destruct outcome.
  - intros _. do 2 right. by exists run.
  - intros _. do 2 right. exists run. split_and!; [done..|]. apply Hp. split; [by exists r|done].
Qed.

Lemma same_source_row w w' : w_row w' = w_row w -> source w' = source w.
Proof. unfold source. by intros ->. Qed.
Lemma inv_same w w' : same w w' -> inv w -> w_next_id w' = w_next_id w ->
  (forall r', w_row w' = Some r' -> exists r, w_row w = Some r /\ r_attempts r' = r_attempts r
     /\ (r_status r' = PROCESSING -> r_status r = PROCESSING /\ r_run_id r' = r_run_id r)) -> inv w'.
Proof.
  intros [Ec Ecl El Es _ _] [Ha Hr He Hids] En Hrow.
  assert (count w' = count w) as Hcount by (unfold count; by rewrite Ecl). constructor.
  - intros r' (r & Er & -> & _)%Hrow. rewrite Hcount. by apply Ha.
  - intros r' (r & Er & _ & Hs)%Hrow Es'. destruct (Hs Es') as [Hst ->]. destruct (Hr r Er Hst) as (run & ? & Hc).
    exists run. split; [done|]. by rewrite Hcount, (claimed_claims w).
  - rewrite El, Es, Hcount. apply He.
  - unfold chunk_ids. by rewrite Ec, En.
Qed.

(** A claim: the next attempt is the claimant's, and no entry of it is in the index. *)
Lemma claim_ok run now stale_before allow_failed w : inv w ->
  let '(r, w') := claim_ingestion now run stale_before allow_failed w in
  inv w' /\ G (Some run) w w'
  /\ match r with
     | None => w' = w
     | Some r => claimed run (r_attempts r) w' /\ w_row w' = Some r
                 /\ w_claims w' !! Z.to_nat (r_attempts r - 1) = Some (run, is_media (r_mime_type r))
                 /\ gen (r_attempts r) (w_live w') = ∅ /\ gen (r_attempts r) (w_seen w') = ∅
     end.
Proof.
  intros Hi. unfold claim_ingestion, update_where.
  destruct (w_row w) as [r|] eqn:Er; [|split_and!; [done|apply G_refl|done]].
  destruct (claimable _ _ _); [|split_and!; [done|apply G_refl|done]].
  set (r' := with_outcome None _). set (c := (run, is_media (r_mime_type r'))). set (w' := add_claim c _).
  pose proof (inv_attempts _ Hi r Er) as Ha. assert (r_attempts r' = count w + 1) as Ha' by (simpl; lia).
  assert (count w' = count w + 1) as Hc' by (unfold count; simpl; rewrite length_app; simpl; lia).
  assert (0 <= count w) as Hpos by (unfold count; lia).
  assert (w_claims w' !! Z.to_nat (r_attempts r' - 1) = Some c) as Hlook.
  { simpl. apply lookup_app_Some. right. rewrite Ha. unfold count.
    replace (Z.to_nat _) with (length (w_claims w)) by lia. by rewrite Nat.sub_diag. }
  assert (claimed run (r_attempts r') w') as Hclaimed by (split; [lia|by eexists]).
  assert (forall e : engine, e = w_live w \/ e = w_seen w -> gen (r_attempts r') e = ∅) as Hgen.
  { intros e He. apply map_eq. intros k. rewrite gen_lookup, lookup_empty. destruct (decide _) as [E|]; [|done].
    destruct (e !! k) eqn:El; [|done]. pose proof (inv_entries _ Hi k) as Hk. rewrite E, Ha' in Hk.
    destruct He as [->| ->]; rewrite El in Hk; [specialize (Hk (or_introl (mk_is_Some _ _ eq_refl)))|
      specialize (Hk (or_intror (mk_is_Some _ _ eq_refl)))]; lia. }
  assert (forall n, at_ PROCESSING n w' -> n = count w + 1) as Hnew by (intros n (r0 & [= <-] & _ & <-); done).
  split_and!; [constructor|constructor|done..| |].
  - intros r0 [= <-]. lia.
  - intros r0 [= <-] _. exists run. rewrite Hc', <-Ha'. done.
  - intros k Hk. rewrite Hc'. assert (k.2 <= count w); [by apply (inv_entries _ Hi)|lia].
  - apply (inv_ids _ Hi).
  - exists [c]. split; [|by intros c' ->%list_elem_of_singleton]. constructor; [done|by rewrite Er|].
    intros n Hn Hp. apply Hnew in Hp. lia.
  - intros run' n Hne [Hp Hc]. apply Hnew in Hp as ->. rewrite <-Ha' in Hc.
    pose proof (claimed_unique _ _ _ _ Hclaimed Hc). congruence.
  - by left.
  - intros n (r0 & Er0 & _ & <-). simplify_eq. do 3 right. left. exists (r_attempts r'). split; [simpl; lia|]. by exists r'.
  - intros n (r0 & [= <-] & Es & _). done.
  - apply Hgen. by left.
  - apply Hgen. by right.
Qed.

Lemma new_rows_ids id ord chunks : (fun k => c_id (k_chunk k)) <$> new_rows cf id ord chunks
  = (fun i => (id + N.of_nat i)%N) <$> seq 0 (length chunks).
Proof.
  revert id ord. induction chunks as [|c chunks IH]; intros id ord; [done|]. simpl. rewrite IH. f_equal; [lia|].
  rewrite <-fmap_S_seq, <-list_fmap_compose. apply list_fmap_ext. intros i x _. simpl. lia.
Qed.
Lemma same_shape_length ord rows chunks : same_shape ord rows chunks = true -> length rows = length chunks.
Proof.
  revert ord chunks. induction rows as [|k rows IH]; intros ord [|c chunks]; simpl; try done.
  intros [_ Hs]%andb_true_iff. f_equal. by eapply IH.
Qed.
Lemma refreshed_ids rows chunks : length rows = length chunks ->
  (fun k => c_id (k_chunk k)) <$> zip_with refreshed rows chunks = (fun k => c_id (k_chunk k)) <$> rows.
Proof. revert chunks. induction rows as [|k rows IH]; intros [|c chunks]; simpl; try done. intros [= E]. by rewrite IH. Qed.

(** What a replacement leaves: the rows are the chunks, in order. *)
Definition rows_of (chunks : list ChunkInput) (rows : list chunk_row) : Prop :=
  Forall2 (fun k c => c_text (k_chunk k) = ci_text c /\ c_char_start (k_chunk k) = ci_char_start c
     /\ c_char_end (k_chunk k) = ci_char_end c /\ c_embedding_fingerprint (k_chunk k) = ci_embedding_fingerprint c
     /\ k_embedding k = ci_embedding c /\ c_time_start_ms (k_chunk k) = ci_time_start_ms c
     /\ c_time_end_ms (k_chunk k) = ci_time_end_ms c /\ c_transcript_segment_id (k_chunk k) = ci_transcript_segment_id c
     /\ c_speaker_id (k_chunk k) = ci_speaker_id c /\ c_speaker_name (k_chunk k) = ci_speaker_name c) rows chunks.
Lemma new_rows_of id ord chunks : rows_of chunks (new_rows cf id ord chunks).
Proof. revert id ord. induction chunks as [|c chunks IH]; intros id ord; simpl; constructor; [done|apply IH]. Qed.
Lemma refreshed_rows_of ord rows chunks : same_shape ord rows chunks = true -> rows_of chunks (zip_with refreshed rows chunks).
Proof.
  revert ord chunks. induction rows as [|k rows IH]; intros ord [|c chunks]; simpl; try done; [intros _; constructor|].
  unfold same_place. rewrite !andb_true_iff, bool_decide_eq_true, !Z.eqb_eq. intros ((((_ & Et) & Es) & Ee) & Hs).
  constructor; [done|by eapply IH].
Qed.
Lemma replace_rows chunks ctx w : let '(rows, w') := _replace_for_document cf chunks ctx w in
  w_chunks w' = rows /\ rows_of chunks rows /\ w_row w' = w_row w /\ w_claims w' = w_claims w
  /\ w_live w' = w_live w /\ w_seen w' = w_seen w
  /\ (NoDup (chunk_ids w) /\ Forall (fun id => (id < w_next_id w)%N) (chunk_ids w) ->
      NoDup (chunk_ids w') /\ Forall (fun id => (id < w_next_id w')%N) (chunk_ids w')).
Proof.
  unfold _replace_for_document. destruct (has_legacy _ && same_shape 0 (w_chunks w) chunks) eqn:E; simpl.
  - apply andb_true_iff in E as [_ Es]. split_and!; try done; [by eapply refreshed_rows_of|].
    unfold chunk_ids. simpl. by rewrite refreshed_ids by by eapply same_shape_length.
  - split_and!; try done; [apply new_rows_of|]. intros _. unfold chunk_ids. simpl. rewrite new_rows_ids. split.
    + apply NoDup_fmap_2_strong; [intros; lia|apply NoDup_seq].
    + apply Forall_fmap, Forall_seq. intros i Hi. simpl. lia.
Qed.

(** ** What the owner of an attempt knows *)

Definition steady (n : Z) (P : world -> Prop) : Prop := forall w w', frame n w w' -> P w -> P w'.
Definition knows (run : uuid) (n : Z) (P : world -> Prop) (w : world) : Prop :=
  claimed run n w /\ (own run n w -> P w).

Lemma R_claimed me w w' run n : R me w w' -> claimed run n w -> claimed run n w'.
Proof. intros (new & Ha & _). by apply (advances_claimed new). Qed.
Lemma knows_stable run n P w w' : steady n P -> knows run n P w -> R (Some run) w w' -> knows run n P w'.
Proof.
  intros Hs [Hc Hp] Hr. split; [by eapply R_claimed|]. intros Ho. destruct (R_own _ _ _ _ Hr Ho) as [Ho' Hf].
  apply (Hs w); auto.
Qed.
Lemma knows_mono run n (P P' : world -> Prop) w : (P w -> P' w) -> knows run n P w -> knows run n P' w.
Proof. intros Hi [Hc Hp]. split; auto. Qed.

(** Facts of the chunks and the source alone. *)
Definition of_db (C : world -> Prop) : Prop :=
  forall w w', w_chunks w' = w_chunks w -> source w' = source w -> w_claims w `prefix_of` w_claims w' -> C w -> C w'.
Definition live_is (n : Z) (e : engine) (w : world) : Prop := gen n (w_live w) = e.
Definition vis (n : Z) (w : world) : Prop := gen n (w_seen w) = gen n (w_live w).
Lemma steady_db n C : of_db C -> steady n C.
Proof. intros Hc w w' [Ec Es _ _]. by apply Hc. Qed.
Lemma steady_live n e : steady n (live_is n e).
Proof. intros w w' [_ _ El _ _]. unfold live_is. by rewrite El. Qed.
Lemma steady_vis n : steady n (vis n).
Proof. intros w w' [_ _ El [Es|Es] _]; unfold vis; rewrite El, Es; auto. Qed.
Lemma steady_and n P P' : steady n P -> steady n P' -> steady n (fun w => P w /\ P' w).
Proof. intros H1 H2 w w' Hf [? ?]. split; eauto. Qed.
Lemma of_db_engine (C : world -> Prop) (w : world) (live seen : engine) : of_db C -> C w -> C (set_engine live seen w).
Proof. intros Hc. by apply Hc. Qed.

(** Which kind of document the claim of an attempt was for. *)
Definition flagged (n : Z) (media : bool) (w : world) : Prop := exists run, w_claims w !! Z.to_nat (n - 1) = Some (run, media).
Lemma flagged_db n b : of_db (flagged n b).
Proof. intros w w' _ _ Hp (run & E). exists run. by eapply prefix_lookup_Some. Qed.
Lemma of_db_and C C' : of_db C -> of_db C' -> of_db (fun w => C w /\ C' w).
Proof. intros H1 H2 w w' ? ? ? [? ?]. split; [by apply (H1 w)|by apply (H2 w)]. Qed.

Lemma said_db : of_db said_in_transcript.
Proof. intros w w' Ec Es _ (text & segments & Hs & Hcut). exists text, segments. by rewrite Ec, Es. Qed.

Lemma own_others run n run' n' w : inv w -> claimed run n w -> own run' n' w -> run' <> run -> n < n'.
Proof.
  intros Hi Hc Ho Hne. pose proof (own_current _ _ _ Hi Ho) as ->. destruct Ho as [_ Hc'].
  apply claimed_bound in Hc as Hb. destruct (decide (n = count w)) as [->|]; [|lia].
  pose proof (claimed_unique _ _ _ _ Hc Hc'). congruence.
Qed.

(** A step of the owner's program: what it returns, and that an error it raises
    names no other attempt. *)
Definition blames (n : Z) (e : fault) : Prop := match e with IngestionError _ _ (Some m) => m = n | _ => True end.
Definition post {A} (run : uuid) (n : Z) (S : A -> world -> Prop) (r : res fault A) (w : world) : Prop :=
  claimed run n w /\ match r with Ok a => S a w | Err e => blames n e end.
Lemma post_mono {A} run n (S S' : A -> world -> Prop) r w :
  (forall a w, S a w -> S' a w) -> post run n S r w -> post run n S' r w.
Proof. intros Hs [Hc Hr]. split; [done|]. destruct r; auto. Qed.
Lemma bind_post {A B} run n (m : M world A) (k : A -> M world B) S S' w :
  wp (Some run) m (post run n S) w ->
  (forall a w', claimed run n w' -> S a w' -> wp (Some run) (k a) (post run n S') w') ->
  wp (Some run) (bind m k) (post run n S') w.
Proof. intros Hm Hk. apply wp_prog_bind. eapply wp_weaken; [|exact Hm]. intros [a|e] w' [Hc Hr]; [by apply Hk|by split]. Qed.
Lemma try_post {A} run n (m : M world A) (h : fault -> M world A) S w :
  wp (Some run) m (post run n S) w ->
  (forall e w', claimed run n w' -> blames n e -> wp (Some run) (h e) (post run n S) w') ->
  wp (Some run) (try_except m h) (post run n S) w.
Proof. intros Hm Hh. apply wp_try. eapply wp_weaken; [|exact Hm]. intros [a|e] w' [Hc Hr]; [by split|by apply Hh]. Qed.
Lemma ret_post {A} run n (a : A) (S : A -> world -> Prop) w : claimed run n w -> S a w -> wp (Some run) (ret a) (post run n S) w.
Proof. done. Qed.
Lemma raise_post {A} run n e (S : A -> world -> Prop) w : claimed run n w -> blames n e -> wp (Some run) (raise e) (post run n S) w.
Proof. done. Qed.
Lemma weaken_post {A} run n (m : M world A) (S S' : A -> world -> Prop) w :
  wp (Some run) m (post run n S) w -> (forall a w, S a w -> S' a w) -> wp (Some run) m (post run n S') w.
Proof. intros Hm Hs. eapply wp_weaken; [|exact Hm]. intros r w'. by apply post_mono. Qed.

Lemma wp_request_own run n change refresh (P P' : world -> Prop) w :
  steady n P -> knows run n P w ->
  (forall w' reached (k : N * Z), inv w' -> claimed run n w' -> is_Some (change reached w' !! k) -> k.2 <= count w') ->
  (forall w' reached n', n < n' -> gen n' (change reached w') = gen n' (w_live w')) ->
  (forall w' (seen : engine), let live := change (fun _ => true) w' in P w' -> seen = w_seen w' \/ seen = live ->
     (refresh = true -> seen = live) -> P' (set_engine live seen w')) ->
  wp (Some run) (request change refresh)
    (post run n (fun _ => knows run n P')) w.
Proof.
  intros Hs Hk Hb Hg Hp. apply wp_request.
  - intros w' reached Hi Hr. destruct (knows_stable _ _ _ _ _ Hs Hk Hr) as [Hc _]. split_and!.
    + intros k. by apply Hb.
    + intros run' n' Hne Ho. apply Hg. apply (own_others run n run' n' w' Hi Hc Ho). congruence.
    + intros seen code _. split; [by rewrite (claimed_claims w')|done].
  - intros w' seen live Hi Hr Hseen Hrefresh. destruct (knows_stable _ _ _ _ _ Hs Hk Hr) as [Hc Hpw].
    assert (claimed run n (set_engine live seen w')) as Hc' by (by rewrite (claimed_claims w')).
    split; [done|]. split; [done|]. intros Ho. apply Hp; [|done..]. apply Hpw. by rewrite <-(own_same w' (set_engine live seen w')).
Qed.

(** Deleting by generation. *)
Definition deleted (matching : Z -> bool) (reached : uuid -> bool) (w : world) : engine :=
  filter (fun e => negb (matching e.1.2 && bool_decide (is_Some (w_seen w !! e.1)) && reached e.1.1) = true) (w_live w).
Lemma deleted_lookup (matching : Z -> bool) (reached : uuid -> bool) (w : world) (k : N * Z) :
  deleted matching reached w !! k
  = if matching k.2 && bool_decide (is_Some (w_seen w !! k)) && reached k.1 then None else w_live w !! k.
Proof.
  unfold deleted. rewrite map_lookup_filter. destruct (w_live w !! k) as [x|]; simpl; [|by destruct (_ && _)].
  by destruct (_ && _).
Qed.
Lemma deleted_spares matching reached w n : matching n = false -> gen n (deleted matching reached w) = gen n (w_live w).
Proof. intros Hm. apply gen_ext. intros id. rewrite deleted_lookup. simpl. by rewrite Hm. Qed.
Lemma wp_delete_own run n matching refresh (P P' : world -> Prop) w :
  steady n P -> knows run n P w -> (forall n', n < n' -> matching n' = false) ->
  (forall w' (seen : engine), let live := deleted matching (fun _ => true) w' in P w' -> seen = w_seen w' \/ seen = live ->
     (refresh = true -> seen = live) -> P' (set_engine live seen w')) ->
  wp (Some run) (delete_by_query matching refresh)
    (post run n (fun _ => knows run n P')) w.
Proof.
  intros Hs Hk Hm Hp. apply (wp_request_own run n _ refresh P P'); [done|done| | |done].
  - intros w' reached k Hi _ Hk'. apply (inv_entries _ Hi). left. fold (deleted matching reached w') in Hk'.
    rewrite deleted_lookup in Hk'. destruct (_ && _); [by destruct Hk'|done].
  - intros w' reached n' Hn. by apply deleted_spares, Hm.
Qed.

(** Writing entries of the attempt. *)
Lemma entries_lookup_gen n l k : Forall (fun c => ix_ingestion_attempt c = n) l -> is_Some (entries l !! k) -> k.2 = n.
Proof.
  intros Hl [x Hx]. unfold entries in Hx. apply elem_of_list_to_map_2 in Hx.
  apply list_elem_of_fmap in Hx as (c & [= -> ->] & Hin). rewrite Forall_forall in Hl. by apply Hl.
Qed.
Lemma entries_other n l id n' : Forall (fun c => ix_ingestion_attempt c = n) l -> n' <> n -> entries l !! (id, n') = None.
Proof. intros Hl Hne. apply eq_None_not_Some. intros Hs. by apply (entries_lookup_gen n) in Hs. Qed.
Lemma entries_app l l' : NoDup (entry_key <$> l ++ l') -> entries (l ++ l') = entries l' ∪ entries l.
Proof.
  intros Hn. unfold entries. rewrite fmap_app, list_to_map_app. apply map_union_comm.
  rewrite fmap_app, NoDup_app in Hn. destruct Hn as (_ & Hdis & _).
  apply map_disjoint_list_to_map_l, Forall_fmap, Forall_forall. intros c Hc. simpl. apply not_elem_of_list_to_map_1.
  rewrite <-list_fmap_compose. intros Hc'. apply (Hdis (entry_key c)); [by apply list_elem_of_fmap_2|done].
Qed.
Lemma gen_written n l w : Forall (fun c => ix_ingestion_attempt c = n) l ->
  gen n (entries l ∪ w_live w) = entries l ∪ gen n (w_live w)
  /\ forall n', n' <> n -> gen n' (entries l ∪ w_live w) = gen n' (w_live w).
Proof.
  intros Hl. split.
  - apply map_eq. intros k. rewrite gen_lookup, !lookup_union, gen_lookup.
    destruct (decide (k.2 = n)) as [|Hne]; [done|]. destruct (entries l !! k) eqn:E; [|done].
    by pose proof (entries_lookup_gen n l k Hl (mk_is_Some _ _ E)).
  - intros n' Hne. apply gen_ext. intros id. rewrite lookup_union, (entries_other n l id n' Hl Hne). by destruct (w_live w !! _).
Qed.
Lemma wp_bulk_own run n l refresh (C : world -> Prop) e w :
  of_db C -> Forall (fun c => ix_ingestion_attempt c = n) l -> knows run n (fun w => C w /\ live_is n e w) w ->
  wp (Some run) (_bulk_batch l refresh)
    (post run n (fun _ => knows run n (fun w => C w /\ live_is n (entries l ∪ e) w))) w.
Proof.
  intros Hc Hl Hk.
  assert (forall reached, Forall (fun c => ix_ingestion_attempt c = n) (List.filter reached l)) as Hl'.
  { intros reached. rewrite Forall_forall in *. intros c [Hin _]%list_elem_of_In%filter_In. by apply Hl, list_elem_of_In. }
  assert (forall l, List.filter (fun _ : IndexedChunk => true) l = l) as Hall by (induction l0 as [|? ? IH]; simpl; congruence).
  apply (wp_request_own run n _ refresh (fun w => C w /\ live_is n e w)); [|done|..].
  - apply steady_and; [by apply steady_db|apply steady_live].
  - intros w' reached k Hi Hcl [x Hx]. rewrite lookup_union in Hx. destruct (entries _ !! k) eqn:E.
    + rewrite (entries_lookup_gen n _ k (Hl' _) (mk_is_Some _ _ E)). by apply claimed_bound in Hcl as [_ ?].
    + apply (inv_entries _ Hi). left. destruct (w_live w' !! k); [done|discriminate Hx].
  - intros w' reached n' Hn. apply (proj2 (gen_written n _ w' (Hl' _))). lia.
  - intros w' seen live [Hcw He] _ _. split; [by apply of_db_engine|]. unfold live_is, live. simpl.
    rewrite Hall. destruct (gen_written n l w' Hl) as [-> _]. by rewrite He.
Qed.

(** ** Publishing an attempt *)

Lemma batches_join {A} fuel n (l : list A) : (0 < n)%nat -> (length l <= fuel)%nat -> mjoin (batches fuel n l) = l.
Proof.
  intros Hn. revert l. induction fuel as [|fuel IH]; intros [|x l] Hl; simpl in *; try done; [lia|].
  rewrite IH; [by rewrite take_drop|]. rewrite length_drop. simpl. lia.
Qed.
Lemma bulks_own run n (C : world -> Prop) bulks : of_db C -> forall done refresh w,
  Forall (fun c => ix_ingestion_attempt c = n) (mjoin bulks) -> NoDup (entry_key <$> done ++ mjoin bulks) ->
  knows run n (fun w => C w /\ live_is n (entries done) w) w ->
  wp (Some run) (bulk_batches bulks refresh)
    (post run n (fun _ => knows run n (fun w => C w /\ live_is n (entries (done ++ mjoin bulks)) w))) w.
Proof.
  intros Hc. induction bulks as [|b bulks IH]; intros done refresh w Hn Hd Hk; cbn [bulk_batches mjoin list_join] in *.
  { rewrite app_nil_r. apply ret_post; [apply Hk|done]. }
  apply Forall_app in Hn as [Hb Hn]. rewrite app_assoc in Hd |- *.
  eapply bind_post; [by apply (wp_bulk_own run n b refresh C (entries done))|].
  intros [] w' _ Hk'. apply IH; [done|done|]. eapply knows_mono; [|exact Hk']. intros [Hcw He]. split; [done|].
  rewrite entries_app; [done|]. rewrite fmap_app, NoDup_app in Hd. apply Hd.
Qed.
Lemma upsert_own run n (C : world -> Prop) l w : of_db C ->
  Forall (fun c => ix_ingestion_attempt c = n) l -> NoDup (entry_key <$> l) -> l <> [] ->
  knows run n (fun w => C w /\ live_is n ∅ w) w ->
  wp (Some run) (upsert_chunks cf l WaitFor)
    (post run n (fun _ => knows run n (fun w => C w /\ live_is n (entries l) w /\ vis n w))) w.
Proof.
  intros Hc Hl Hd Hne Hk. unfold upsert_chunks. pose proof Hk as [Hcl _].
  destruct (check_entries cf l) as [e|] eqn:Ee.
  { apply raise_post; [done|]. revert Ee. clear. induction l as [|c l IH]; simpl; [done|].
    repeat (case_match; try (by intros [= <-])); try done. }
  eapply bind_post.
  - apply (bulks_own run n C _ Hc [] false w).
    + by rewrite batches_join by (unfold _BULK_BATCH_SIZE; lia || done).
    + simpl. by rewrite batches_join by (unfold _BULK_BATCH_SIZE; lia || done).
    + done.
  - simpl. rewrite batches_join by (unfold _BULK_BATCH_SIZE; lia || done). intros [] w' _ Hk'.
    destruct l as [|c l]; [done|]. apply (wp_request_own run n _ true (fun w => C w /\ live_is n (entries (c :: l)) w)).
    + apply steady_and; [by apply steady_db|apply steady_live].
    + done.
    + intros w2 reached k Hi _ Hs. apply (inv_entries _ Hi). by left.
    + done.
    + intros w2 seen live [Hcw He] _ Hseen. split_and!; [by apply of_db_engine|done|]. unfold vis. simpl. by rewrite (Hseen eq_refl).
Qed.

(** The index of an attempt. *)
Definition indexed (n : Z) (w : world) : Prop :=
  Forall (fun k => c_embedding_fingerprint (k_chunk k) = Some (cf_space cf)) (w_chunks w)
  /\ exists d, d_ingestion_attempts d = n /\ gen n (w_live w) = projected n d (w_chunks w)
     /\ gen n (w_seen w) = projected n d (w_chunks w).
Definition fresh_gen (n : Z) (w : world) : Prop := live_is n ∅ w /\ vis n w.

Lemma to_indexed_spec r chunks l : _to_indexed cf r chunks = Ok l ->
  Forall (fun k => c_embedding_fingerprint (k_chunk k) = Some (cf_space cf)) chunks
  /\ entries l = projected (r_attempts r) (to_document r) chunks
  /\ entry_key <$> l = (fun k => (c_id (k_chunk k), r_attempts r)) <$> chunks
  /\ Forall (fun c => ix_ingestion_attempt c = r_attempts r) l.
Proof.
  unfold _to_indexed. destruct (existsb _ chunks) eqn:E; [done|]. intros [= <-].
  assert (Forall (fun k => c_embedding_fingerprint (k_chunk k) = Some (cf_space cf)) chunks) as Hs.
  { apply Forall_forall. intros k Hk. apply list_elem_of_In in Hk. apply not_true_iff_false in E.
    destruct (decide (c_embedding_fingerprint (k_chunk k) = Some (cf_space cf))) as [|Hne]; [done|]. destruct E.
    apply existsb_exists. exists k. split; [done|]. by rewrite bool_decide_eq_false_2. }
  split_and!; [done| | |].
  - unfold projected. f_equal. apply list_fmap_ext. intros i k Hk. rewrite Forall_forall in Hs.
    by rewrite (Hs k) by by eapply list_elem_of_lookup_2.
  - by rewrite <-list_fmap_compose.
  - by apply Forall_fmap, Forall_true.
Qed.

Lemma publish_own run n (C : world -> Prop) r chunks w : of_db C -> r_attempts r = n -> chunks <> [] ->
  NoDup ((fun k => c_id (k_chunk k)) <$> chunks) -> (forall w, C w -> w_chunks w = chunks) ->
  knows run n (fun w => C w /\ live_is n ∅ w) w ->
  wp (Some run) (publish cf r chunks true true)
    (post run n (fun _ => knows run n (fun w => C w /\ indexed n w))) w.
Proof.
  intros Hc <- Hne Hd Hchunks Hk. unfold publish. pose proof Hk as [Hcl _].
  destruct (_to_indexed cf r chunks) as [l|e] eqn:El; [|apply raise_post; [done|]; unfold _to_indexed in El; by case_match; simplify_eq].
  destruct (to_indexed_spec _ _ _ El) as (Hs & Hent & Hkeys & Hatt).
  apply try_post.
  - eapply weaken_post; [apply (upsert_own run _ C l w Hc Hatt); [| |done]|].
    + rewrite Hkeys. replace ((fun k : chunk_row => (c_id (k_chunk k), r_attempts r)) <$> chunks)
        with ((fun i : uuid => (i, r_attempts r)) <$> ((fun k => c_id (k_chunk k)) <$> chunks))
        by (by rewrite <-list_fmap_compose). by apply NoDup_fmap_2_strong; [intros ???? [=]|].
    + intros ->. by destruct chunks.
    + intros [] w'. apply knows_mono. intros (Hcw & Hlive & Hvis). split; [done|]. split; [by rewrite (Hchunks _ Hcw)|].
      exists (to_document r). rewrite (Hchunks _ Hcw), <-Hent. unfold live_is, vis in *. by rewrite Hvis, Hlive.
  - intros e w' Hc' Hb. destruct e; try by apply raise_post.
    eapply (bind_post _ _ _ _ (fun _ _ => True)); [|by intros [] w2 Hc2 _; apply raise_post].
    apply try_post.
    + eapply weaken_post; [apply (wp_delete_own run _ _ _ (fun _ => True) (fun _ => True)); try done; intros n' Hn; lia|done].
    + intros e2 w2 Hc2 Hb2. destruct e2; try by apply raise_post. by apply ret_post.
Qed.

(** ** The owner's programs *)

(** A read or a pure answer: whatever it gives, the knowledge stays. *)
Lemma read_own {B} run n (f : world -> B) P w : steady n P -> knows run n P w ->
  wp (Some run) (read f) (post run n (fun b w' => inv w' /\ b = f w' /\ knows run n P w')) w.
Proof. intros Hs Hk. apply wp_read. intros w' Hi Hr. destruct (knows_stable _ _ _ _ _ Hs Hk Hr). done. Qed.
Lemma ask_own {B} run n (f : answer -> res outside B) P w : steady n P -> knows run n P w ->
  wp (Some run) (ask f) (post run n (fun _ => knows run n P)) w.
Proof.
  intros Hs Hk w' Hi Hr a. simpl. split_and!; [done|apply G_refl|]. destruct (knows_stable _ _ _ _ _ Hs Hk Hr) as [Hc Hp].
  split; [done|]. destruct (f a) as [|o]; [by split|by destruct o].
Qed.

Lemma fresh_steady n C : of_db C -> steady n (fun w => C w /\ fresh_gen n w).
Proof. intros Hc. apply steady_and; [by apply steady_db|]. apply steady_and; [apply steady_live|apply steady_vis]. Qed.
Lemma indexed_steady n C : of_db C -> steady n (fun w => C w /\ indexed n w).
Proof.
  intros Hc. apply steady_and; [by apply steady_db|]. intros w w' [Ec _ El Es _] (Hs & d & Hd & Hl & Hv). split; [by rewrite Ec|].
  exists d. rewrite Ec, El. split_and!; [done..|]. destruct Es as [->| ->]; congruence.
Qed.

Lemma match_nonempty {A B} (l : list A) (a b : B) : l <> [] -> match l with [] => a | _ :: _ => b end = b.
Proof. by destruct l. Qed.
Lemma sync_own run n (C : world -> Prop) w : of_db C -> knows run n (fun w => C w /\ fresh_gen n w) w ->
  wp (Some run) (sync_document_index_async cf (Some n) true true)
    (post run n (fun s w' => is_superseded s = false -> knows run n (fun w => C w /\ indexed n w) w')) w.
Proof.
  intros HC Hk. cbn [sync_document_index_async]. unfold sync_attempt.
  eapply bind_post; [by apply (read_own run n _ (fun w => C w /\ fresh_gen n w)); [apply fresh_steady|]|]. intros document w1 Hc1 (Hi1 & -> & Hk1).
  destruct (w_row w1) as [r|] eqn:Er; [|by apply ret_post].
  destruct (owned_by_attempt n r) eqn:Eo; [|by apply ret_post]. apply owned_by_attempt_spec in Eo as [Es Ea].
  eapply bind_post; [by apply (read_own run n _ (fun w => C w /\ fresh_gen n w)); [apply fresh_steady|]|]. intros chunks w2 Hc2 (Hi2 & -> & Hk2).
  set (chunks := w_chunks w2). destruct (inv_ids _ Hi2) as [Hnd _].
  set (C' := fun w => C w /\ w_chunks w = chunks).
  assert (of_db C') as HC'.
  { intros v v' Ec Esrc Ep [Hcv Hv]. split; [by apply (HC v)|by rewrite Ec]. }
  assert (knows run n (fun w => C' w /\ fresh_gen n w) w2) as Hk2'.
  { destruct Hk2 as [Hc Hp]. split; [done|]. intros Ho. destruct (Hp Ho). split; [by split|done]. }
  eapply (bind_post _ _ _ _ (fun _ => knows run n (fun w => C' w /\ fresh_gen n w))).
  { apply (wp_request_own run n _ false (fun w => C' w /\ fresh_gen n w)); [by apply fresh_steady|done| |done|].
    - intros w' _ k Hi _ Hs. apply (inv_entries _ Hi). by left.
    - intros w' seen live [Hcw [Hl Hv]] Hs _. split; [by apply of_db_engine|]. split; [done|]. unfold vis. simpl.
      destruct Hs as [->| ->]; [exact Hv|done]. }
  intros [] w3 Hc3 Hk3. assert (chunks = [] \/ chunks <> []) as [E|Hne] by (destruct chunks; auto).
  - rewrite E. eapply (bind_post _ _ _ _ (fun _ => knows run n (fun w => C' w /\ fresh_gen n w))).
    { apply (wp_delete_own run n _ true (fun w => C' w /\ fresh_gen n w)); [by apply fresh_steady|done|intros n' Hn; lia|].
      intros w' seen live [Hcw [Hl Hv]] _ Hs. split; [by apply of_db_engine|]. rewrite (Hs eq_refl).
      assert (gen n live = ∅) as Hl'.
      { apply map_eq. intros k. rewrite gen_lookup, lookup_empty. destruct (decide (k.2 = n)) as [E'|]; [|done].
        unfold live. rewrite deleted_lookup. apply (f_equal (fun g => g !! k)) in Hl. rewrite gen_lookup, lookup_empty in Hl.
        rewrite decide_True in Hl by done. rewrite Hl. by destruct (_ && _). }
      split; [done|]. unfold vis. simpl. done. }
    intros [] w4 Hc4 Hk4. eapply (bind_post _ _ _ _ (fun _ => knows run n (fun w => C' w /\ fresh_gen n w))).
    { apply (wp_delete_own run n _ true (fun w => C' w /\ fresh_gen n w)); [by apply fresh_steady|done|intros n' Hn; lia|].
      intros w' seen live [Hcw [Hl Hv]] _ Hs. split; [by apply of_db_engine|]. rewrite (Hs eq_refl).
      split; [|done]. unfold live_is. simpl. unfold live. rewrite deleted_spares; [done|lia]. }
    intros [] w5 Hc5 Hk5. apply ret_post; [done|]. intros _. eapply knows_mono; [|exact Hk5].
    intros [[Hcw Hrows] [Hl Hv]]. split; [done|]. split; [by rewrite Hrows, E|].
    exists (to_document r). rewrite Hrows, E. unfold live_is, vis in *. by rewrite Hv, Hl.
  - rewrite match_nonempty by done.
    eapply bind_post; [apply (publish_own run n C' r chunks w3 HC' Ea Hne Hnd)|].
    + by intros v [_ ?].
    + eapply knows_mono; [|exact Hk3]. by intros [? [? _]].
    + intros [] w4 Hc4 Hk4. eapply (bind_post _ _ _ _ (fun _ => knows run n (fun w => C' w /\ indexed n w))).
      { apply (wp_delete_own run n _ true (fun w => C' w /\ indexed n w)); [by apply indexed_steady|done|intros n' Hn; lia|].
        intros w' seen live [Hcw (Hs & d & Hd & Hl & Hv)] _ Hseen. split; [by apply of_db_engine|]. split; [done|].
        exists d. rewrite (Hseen eq_refl). simpl. unfold live. rewrite deleted_spares by lia. done. }
      intros [] w5 Hc5 Hk5. apply ret_post; [done|]. intros _. eapply knows_mono; [|exact Hk5]. by intros [[? _] ?].
Qed.
Lemma sync_index_own run n (C : world -> Prop) w : of_db C -> knows run n (fun w => C w /\ fresh_gen n w) w ->
  wp (Some run) (_sync_index cf n)
    (post run n (fun b w' => b = true -> knows run n (fun w => C w /\ indexed n w) w')) w.
Proof.
  intros HC Hk. unfold _sync_index. apply try_post.
  - eapply bind_post; [by apply sync_own|]. intros s w' Hc Hs. apply ret_post; [done|].
    intros E%negb_true_iff. by apply Hs.
  - intros e w' Hc Hb. apply raise_post; [done|]. by destruct e.
Qed.

(** The chunks and the source an attempt stored. *)
Definition stored (rows : list chunk_row) (text : pystr) (w : world) : Prop :=
  w_chunks w = rows /\ exists transcript, source w = Some (Some text, transcript).
Lemma stored_db rows text : of_db (stored rows text).
Proof. intros w w' Ec Es _ [Hr Ht]. split; [congruence|by rewrite Es]. Qed.

Lemma set_extraction_quiet now text locations fingerprint w r : w_row w = Some r ->
  exists r', (set_extraction now text locations fingerprint w).2 = set_row (Some r') w
    /\ r_status r' = r_status r /\ r_attempts r' = r_attempts r /\ r_run_id r' = r_run_id r /\ r_source_text r' = Some text.
Proof. intros Er. unfold set_extraction, update_where. rewrite Er. by eexists. Qed.

(** The owner rewrites the row, its attempt going on, and the chunks. *)
Lemma G_owner run n w w' r r' :
  inv w -> own run n w -> w_row w = Some r -> w_row w' = Some r' ->
  r_status r' = r_status r -> r_attempts r' = r_attempts r -> r_run_id r' = r_run_id r ->
  w_claims w' = w_claims w -> w_live w' = w_live w -> w_seen w' = w_seen w ->
  NoDup (chunk_ids w') /\ Forall (fun id => (id < w_next_id w')%N) (chunk_ids w') ->
  inv w' /\ G (Some run) w w' /\ own run n w'.
Proof.
  intros Hi Ho Er Er' Es Ea Erun Ecl El Ev Hids. pose proof Ho as [(r0 & Er0 & Est & <-) Hc].
  rewrite Er in Er0. injection Er0 as <-. set (n := r_attempts r) in *.
  assert (count w' = count w) as Hcount by (unfold count; by rewrite Ecl).
  assert (claimed run n w') as Hc' by (by rewrite (claimed_claims w)).
  assert (forall n', at_ PROCESSING n' w' -> n' = n) as Hat by (intros n' (r1 & E1 & _ & <-); rewrite Er' in E1; by injection E1 as <-).
  assert (own run n w') as Ho' by (split; [exists r'; split; [done|split; congruence]|done]).
  split; [constructor|split; [constructor|done]].
  - intros r1 E1. rewrite Er' in E1. injection E1 as <-. rewrite Ea, Hcount. by apply (inv_attempts _ Hi).
  - intros r1 E1 _. rewrite Er' in E1. injection E1 as <-. rewrite Erun, Hcount.
    destruct (inv_run _ Hi r Er Est) as (run' & ? & ?). exists run'. split; [done|]. by rewrite (claimed_claims w).
  - rewrite El, Ev, Hcount. apply (inv_entries _ Hi).
  - done.
  - exists []. split; [|by intros c ?%elem_of_nil]. constructor; [by rewrite app_nil_r|by rewrite Er|].
    intros n' _ Hp. apply Hat in Hp as ->. by exists r.
  - intros run' n' Hne [Hp Hcl]. apply Hat in Hp as ->. pose proof (claimed_unique _ _ _ _ Hc' Hcl). congruence.
  - do 2 right. by exists run, n.
  - intros n' (r1 & E1 & _ & <-). left. rewrite Er in E1. injection E1 as <-. apply Ho'.
  - intros n' (r1 & E1 & Est1 & _). rewrite Er' in E1. injection E1 as <-. congruence.
Qed.
(** The chunks of the owner, replaced. *)
Lemma replace_ok chunks n fingerprint w rows w' :
  replace_for_ingestion cf chunks n fingerprint w = Ok (Some rows, w') ->
  at_ PROCESSING n w /\ w_chunks w' = rows /\ rows_of chunks rows /\ w_row w' = w_row w /\ w_claims w' = w_claims w
  /\ w_live w' = w_live w /\ w_seen w' = w_seen w
  /\ (NoDup (chunk_ids w) /\ Forall (fun id => (id < w_next_id w)%N) (chunk_ids w) ->
      NoDup (chunk_ids w') /\ Forall (fun id => (id < w_next_id w')%N) (chunk_ids w')).
Proof.
  unfold replace_for_ingestion. destruct (w_row w) as [r|] eqn:Er; [|done].
  destruct (owned_by_attempt n r) eqn:Eo; [|done]. apply owned_by_attempt_spec in Eo as [Es Ea].
  unfold guard_or. destruct (_ && _); [|done]. pose proof (replace_rows chunks (n, fingerprint) w) as Hrep.
  destruct (_replace_for_document _ _ _ w) as [rows' w1]. rewrite Er in Hrep. intros [= -> ->].
  split; [by exists r|done].
Qed.
Lemma replace_none chunks n fingerprint w w' : replace_for_ingestion cf chunks n fingerprint w = Ok (None, w') -> w' = w.
Proof.
  unfold replace_for_ingestion. destruct (w_row w); [|by intros [= ->]]. destruct (owned_by_attempt _ _); [|by intros [= ->]].
  unfold guard_or. destruct (_ && _); [|done]. by destruct (_replace_for_document _ _ _ w).
Qed.
Lemma replace_err chunks n fingerprint w e : replace_for_ingestion cf chunks n fingerprint w = Err e -> e = MediaError.
Proof.
  unfold replace_for_ingestion. destruct (w_row w); [|done]. destruct (owned_by_attempt _ _); [|done].
  unfold guard_or. destruct (_ && _); [|by intros [= <-]]. by destruct (_replace_for_document _ _ _ w).
Qed.

(** The replacement, with the retained source, by the owner. *)
Lemma persist_ok run n b chunks p fingerprint w now : inv w -> knows run n (fun w => flagged n b w /\ fresh_gen n w) w ->
  match (r ← replace_for_ingestion cf chunks n (cf_space cf) w;
         match r with
         | (Some rows, w) => Ok (Some rows, (set_extraction now (pd_text p) (pd_locations p) fingerprint w).2)
         | (None, w) => Ok (None, w)
         end) with
  | Err e => blames n e
  | Ok (o, w') => inv w' /\ G (Some run) w w' /\ claimed run n w' /\
      match o with
      | Some rows => rows_of chunks rows
          /\ knows run n (fun w => (flagged n b w /\ stored rows (pd_text p) w) /\ fresh_gen n w) w'
      | None => True
      end
  end.
Proof.
  intros Hi [Hc Hk]. destruct (replace_for_ingestion cf chunks n (cf_space cf) w) as [[[rows|] w1]|e] eqn:Erep; simpl.
  2: { apply replace_none in Erep as ->. split_and!; [done|apply G_refl|done|done]. }
  2: { by apply replace_err in Erep as ->. }
  apply replace_ok in Erep as (Hp & Ech & Hrows & Erow & Ecl & El & Ev & Hids).
  pose proof Hp as (r & Er & Es & Ea). rewrite Er in Erow.
  destruct (set_extraction_quiet now (pd_text p) (pd_locations p) fingerprint w1 r Erow) as (r' & -> & Es' & Ea' & Erun & Et).
  destruct (G_owner run n w (set_row (Some r') w1) r r') as (Hi' & Hg & Ho'); try done; [by apply Hids, (inv_ids _ Hi)|].
  split_and!; [done|done|apply Ho'|done|]. split; [apply Ho'|]. intros _. destruct (Hk (conj Hp Hc)) as [(run' & Hf) [Hl Hv]].
  split; [split; [|split]|split].
  - exists run'. simpl. by rewrite Ecl.
  - exact Ech.
  - unfold source, row_source. simpl. rewrite Et. by eexists.
  - unfold live_is in *. simpl. by rewrite El.
  - unfold vis in *. simpl. by rewrite El, Ev.
Qed.
Lemma steady_fresh n : steady n (fresh_gen n).
Proof. apply steady_and; [apply steady_live|apply steady_vis]. Qed.
Lemma persist_own run n b chunks p fingerprint w : knows run n (fun w => flagged n b w /\ fresh_gen n w) w ->
  wp (Some run) (persist cf chunks n p fingerprint)
    (post run n (fun o w' => match o with
       | Some rows => rows_of chunks rows
           /\ knows run n (fun w => (flagged n b w /\ stored rows (pd_text p) w) /\ fresh_gen n w) w'
       | None => True end)) w.
Proof.
  intros Hk. apply wp_tx. intros w' now Hi Hr.
  pose proof (knows_stable _ _ _ _ _ (fresh_steady n _ (flagged_db n b)) Hk Hr) as Hk'.
  split; [by split; [apply Hk'|]|]. pose proof (persist_ok run n b chunks p fingerprint w' now Hi Hk') as Hp.
  destruct (r ← _; _) as [[o w2]|e]; [|by split; [apply Hk'|]]. destruct Hp as (? & ? & ? & ?). by split_and!.
Qed.

Definition nothing : world -> Prop := fun _ => True.
Lemma steady_nothing n : steady n nothing.
Proof. done. Qed.
Lemma knows_nothing run n w : claimed run n w -> knows run n nothing w.
Proof. done. Qed.

Lemma current_own run n w : claimed run n w ->
  wp (Some run) _current_ingestion_result (post run n (fun _ _ => True)) w.
Proof.
  intros Hc. unfold _current_ingestion_result.
  eapply bind_post; [by apply (read_own run n _ nothing)|]. intros document w1 Hc1 _.
  destruct document as [r|]; [|by apply ret_post]. destruct (bool_decide _); [|by apply ret_post].
  eapply bind_post; [by apply (read_own run n _ nothing)|]. intros c w2 Hc2 _. by apply ret_post.
Qed.

(** The terminal failure, by the attempt or by the run that owns it. *)
Lemma audit_ok me w w' e : inv w' -> G me w w' -> inv (add_audit e w') /\ G me w (add_audit e w').
Proof.
  intros [Ha Hr He Hids] [Hadv Hf Hch Hend Hrdy]. split; [by constructor|]. constructor.
  - destruct Hadv as (new & [? ? ?] & ?). exists new. split; [by constructor|done].
  - intros run n Hne Ho. destruct (Hf run n Hne Ho) as [? ? ? ? ?]. by constructor.
  - done.
  - done.
  - intros n Hat. destruct (Hrdy n Hat) as [?|[?|(run & ? & ? & Hp)]]; [by left|by right; left|].
    do 2 right. exists run. split_and!; [done..|]. by apply (published_same n w').
Qed.
Definition fail_tx (reason : pystr) (expected_attempt : option Z) (code : pystr) (outcome : ExtractionOutcome)
    (correlation_id : option pystr) (run : option uuid) (now : Z) (w : world) : res fault (option (option row) * world) :=
  let mark n :=
    let '(r, w) := mark_ingestion_failed now n code reason correlation_id (Some outcome) w in
    match r with
    | Some r' => Ok (Some (Some r'), if bool_decide (mc_transcription_model (r_media r') = None) && is_media (r_mime_type r')
                                     then add_audit (DocumentTranscribed false) w else w)
    | None => Ok (Some None, w)
    end in
  match run with
  | Some id => match get_claimed_for_update id w with
               | None => Ok (None, w)
               | Some r => mark (Some (r_attempts r))
               end
  | None => mark expected_attempt
  end.
Lemma fail_tx_ok me n reason code outcome correlation now w : inv w -> claimed me n w ->
  match fail_tx reason (Some n) code outcome correlation None now w with
  | Ok (_, w') => inv w' /\ G (Some me) w w' /\ w_claims w' = w_claims w
  | Err _ => False
  end.
Proof.
  intros Hi Hc. unfold fail_tx. destruct (mark_failed_ok me n now code reason correlation (Some outcome) w Hi Hc) as (Hi' & Hg & Ecl).
  destruct (mark_ingestion_failed _ _ _ _ _ _ w) as [[r'|] w']; [|done]. simpl in *.
  destruct (_ && _); [|done]. by destruct (audit_ok _ _ _ (DocumentTranscribed false) Hi' Hg).
Qed.
Lemma fail_tx_run me reason code outcome correlation now w : inv w ->
  match fail_tx reason None code outcome correlation (Some me) now w with
  | Ok (_, w') => inv w' /\ G (Some me) w w'
  | Err _ => False
  end.
Proof.
  intros Hi. unfold fail_tx, get_claimed_for_update. destruct (w_row w) as [r|] eqn:Er; [|split; [done|apply G_refl]].
  destruct (owned_by_run me r) eqn:Eo; [|split; [done|apply G_refl]]. apply owned_by_run_spec in Eo as [Es Erun].
  destruct (inv_run _ Hi r Er Es) as (run' & E & Hc). assert (run' = me) as -> by congruence.
  rewrite (inv_attempts _ Hi r Er). pose proof (fail_tx_ok me (count w) reason code outcome correlation now w Hi Hc) as Hf.
  unfold fail_tx in Hf. destruct (let '(_, _) := _ in _) as [[b w']|]; [|done]. tauto.
Qed.
Lemma fail_own run n reason code outcome correlation w : claimed run n w ->
  wp (Some run) (_fail reason (Some n) code outcome correlation None) (post run n (fun _ _ => True)) w.
Proof.
  intros Hc. unfold _fail. eapply (bind_post _ _ _ _ (fun _ _ => True)).
  - apply wp_tx. intros w' now Hi Hr. pose proof (R_claimed _ _ _ _ _ Hr Hc) as Hc'. split; [by split|].
    pose proof (fail_tx_ok run n reason code outcome correlation now w' Hi Hc') as Hf. unfold fail_tx in Hf.
    destruct (let '(_, _) := _ in _) as [[b w2]|]; [|done]. destruct Hf as (Hi2 & Hg & Ecl).
    assert (claimed run n w2) as Hc2 by (by rewrite (claimed_claims w')). by split_and!.
  - intros document w' Hc' _. destruct document as [[r|]|]; [by apply ret_post|by apply current_own..].
Qed.
Lemma finalize_own run n reason code outcome correlation w : claimed run n w ->
  wp (Some run) (_finalize_failure reason n code correlation outcome) (post run n (fun _ _ => True)) w.
Proof.
  intros Hc. unfold _finalize_failure. cbn [finalize_tries]. apply try_post; [by apply fail_own|].
  intros e w1 Hc1 Hb. destruct e; try by apply raise_post. apply try_post; [by apply fail_own|].
  intros e w2 Hc2 Hb2. destruct e; by apply raise_post.
Qed.

Lemma published_indexed n w :
  indexed n w ->
  (flagged n false w /\ exists text transcript, source w = Some (Some text, transcript) /\ cut_from text (w_chunks w))
  \/ (flagged n true w /\ said_in_transcript w) -> published n w.
Proof.
  intros (Hs & d & Hd) Ht. constructor; [done|by exists d|..]; intros run E.
  - destruct Ht as [[_ ?]|[(run' & E') _]]; [done|congruence].
  - destruct Ht as [[(run' & E') _]|[_ ?]]; [congruence|done].
Qed.
Lemma ready_own run n outcome w (C : world -> Prop) : of_db C ->
  (forall w, C w -> (flagged n false w /\ exists text transcript, source w = Some (Some text, transcript) /\ cut_from text (w_chunks w))
                   \/ (flagged n true w /\ said_in_transcript w)) ->
  knows run n (fun w => C w /\ indexed n w) w ->
  wp (Some run) (tx (fun now w => Ok (mark_ingestion_ready now n outcome w))) (post run n (fun _ _ => True)) w.
Proof.
  intros HC Ht Hk. apply wp_tx. intros w' now Hi Hr.
  destruct (knows_stable _ _ _ _ _ (indexed_steady n C HC) Hk Hr) as [Hc Hp]. split; [by split|].
  destruct (mark_ready_ok run n now outcome w' Hi Hc) as (Hi2 & Hg & Ecl).
  { intros Ho. destruct (Hp Ho) as [Hcw Hx]. apply published_indexed; auto. }
  destruct (mark_ingestion_ready _ _ _ w') as [b w2]. simpl in *.
  assert (claimed run n w2) by (by rewrite (claimed_claims w')). by split_and!.
Qed.
Lemma discard_own run n w : claimed run n w -> wp (Some run) (_discard_generation n) (post run n (fun _ _ => True)) w.
Proof.
  intros Hc. unfold _discard_generation. apply try_post.
  - eapply weaken_post; [apply (wp_delete_own run n _ false nothing nothing); [done|done|intros n' Hn; lia|done]|done].
  - intros e w' Hc' Hb. destruct e; try by apply raise_post. by apply ret_post.
Qed.

Lemma embed_own run n P l w : steady n P -> knows run n P w ->
  wp (Some run) (embed_batches l) (post run n (fun _ => knows run n P)) w.
Proof.
  intros Hs. revert w. induction l as [|b l IH]; intros w Hk; cbn [embed_batches]; [by apply ret_post; [apply Hk|]|].
  eapply bind_post; [by apply ask_own|]. intros e w1 _ Hk1. eapply bind_post; [by apply IH|].
  intros es w2 Hc2 Hk2. by apply ret_post.
Qed.
Lemma fingerprint_own run n P data mime es w : knows run n P w ->
  wp (Some run) (fingerprint_or_raise cf data mime es) (post run n (fun _ => knows run n P)) w.
Proof. intros Hk. unfold fingerprint_or_raise. destruct (build_ingestion_fingerprint _ _ _ _); [by apply ret_post; [apply Hk|]|by apply raise_post; [apply Hk|]]. Qed.

Lemma chunk_inputs_cut p chunks es inputs rows text : chunk_inputs cf p chunks es = Ok inputs ->
  length es = length chunks -> chunk_text text (cf_chunk_size cf) (cf_chunk_overlap cf) = Some (Ok chunks) ->
  rows_of inputs rows -> cut_from text rows.
Proof.
  intros Hin Hlen Ht Hrows. exists chunks. split; [done|]. clear Ht. revert es inputs rows Hin Hlen Hrows.
  induction chunks as [|c chunks IH]; intros [|e es] inputs rows; try done; cbn [chunk_inputs].
  - intros [= <-] _. inversion 1. constructor.
  - intros Hin [= Hlen] Hrows. apply bind_ok in Hin as (i & Hi & Hin). apply bind_ok in Hin as (rest & Hrest & [= <-]).
    inversion Hrows as [|k ? rows' ? (Et & Es & Ee & _) Hrows']; subst. constructor; [|by eapply IH].
    unfold chunk_input in Hi. apply bind_ok in Hi as (l & _ & [= <-]). done.
Qed.

Lemma ingest_chunks_own run n data mime p chunks w :
  chunk_text (pd_text p) (cf_chunk_size cf) (cf_chunk_overlap cf) = Some (Ok chunks) ->
  knows run n (fun w => flagged n false w /\ fresh_gen n w) w ->
  wp (Some run) (ingest_chunks cf data mime n p chunks) (post run n (fun _ _ => True)) w.
Proof.
  intros Ht Hk. unfold ingest_chunks. pose proof (fresh_steady n _ (flagged_db n false)) as HP.
  set (P := fun w => flagged n false w /\ fresh_gen n w) in *. eapply (bind_post _ _ _ _ (fun _ => knows run n P)).
  { apply try_post; [by apply embed_own|]. intros e w1 Hc1 Hb1. apply raise_post; [done|]. by destruct e. }
  intros es w1 Hc1 Hk1. destruct (Nat.eqb_spec (length es) (length chunks)) as [Hlen|]; simpl; [|by apply raise_post].
  eapply bind_post; [by apply (fingerprint_own run n P)|]. intros fp w2 Hc2 Hk2.
  destruct (chunk_inputs cf p chunks es) as [inputs|e] eqn:Ein.
  2: { apply raise_post; [done|]. revert Ein. clear. revert es. induction chunks as [|c chunks IH]; intros [|e' es]; try done.
       cbn [chunk_inputs]. intros Hin. apply bind_err in Hin as [Hin|(i & _ & Hin)].
       - unfold chunk_input, locations_for_span, guard_or in Hin. destruct (_ && _); [|by injection Hin as <-].
         by case_match.
       - apply bind_err in Hin as [Hin|(? & _ & [=])]. by eapply IH. }
  eapply bind_post.
  { apply try_post; [by apply (persist_own run n false)|]. intros e w3 Hc3 Hb3. destruct e; by apply raise_post. }
  intros b w3 Hc3 Hb. destruct b as [rows|]; [|by apply ret_post]. destruct Hb as [Hrows Hk3].
  set (C := fun w => flagged n false w /\ stored rows (pd_text p) w).
  assert (of_db C) as HC by (apply of_db_and; [apply flagged_db|apply stored_db]).
  eapply bind_post; [by apply (sync_index_own run n C)|]. intros ok w4 Hc4 Hk4. destruct ok; [|by apply ret_post]. cbn [negb]. specialize (Hk4 eq_refl).
  eapply bind_post.
  { apply (ready_own run n _ w4 C HC); [|done]. intros v (Hflag & <- & transcript & Hsrc). left. split; [done|].
    exists (pd_text p), transcript. split; [done|]. by eapply chunk_inputs_cut. }
  intros ready w5 Hc5 _. destruct ready; [by apply ret_post|]. eapply bind_post; [by apply discard_own|].
  intros [] w6 Hc6 _. by apply ret_post.
Qed.
Lemma ingest_empty_own run n data mime p correlation w : knows run n (fun w => flagged n false w /\ fresh_gen n w) w ->
  wp (Some run) (ingest_empty cf data mime n p correlation) (post run n (fun _ _ => True)) w.
Proof.
  intros Hk. unfold ingest_empty.
  eapply bind_post; [by apply (fingerprint_own run n (fun w => flagged n false w /\ fresh_gen n w))|]. intros fp w1 Hc1 Hk1.
  eapply bind_post; [by apply (persist_own run n false)|]. intros b w2 Hc2 Hb. destruct b as [rows|]; [|by apply ret_post].
  destruct Hb as [_ Hk2]. eapply bind_post.
  { apply (sync_index_own run n (fun w => flagged n false w /\ stored rows (pd_text p) w)); [|done].
    apply of_db_and; [apply flagged_db|apply stored_db]. }
  intros ok w3 Hc3 _. destruct ok; [by apply finalize_own|by apply ret_post].
Qed.

(** What changes only the row's other columns leaves the knowledge. *)
Lemma same_knows run n C w w' : of_db C -> same w w' -> knows run n (fun w => C w /\ fresh_gen n w) w ->
  knows run n (fun w => C w /\ fresh_gen n w) w'.
Proof. intros HC Hs Hk. eapply knows_stable; [by apply fresh_steady|exact Hk|by apply same_R]. Qed.

Lemma claimed_document_own run n r correlation w : r_attempts r = n -> knows run n (fun w => flagged n false w /\ fresh_gen n w) w ->
  wp (Some run) (_ingest_claimed_document cf r correlation) (post run n (fun _ _ => True)) w.
Proof.
  intros <- Hk. unfold _ingest_claimed_document. set (n := r_attempts r) in *.
  pose proof (fresh_steady n _ (flagged_db n false)) as HP. set (P := fun w => flagged n false w /\ fresh_gen n w) in *.
  eapply (bind_post _ _ _ _ (fun _ => knows run n P)).
  { apply try_post; [by apply ask_own|]. intros e w1 Hc1 Hb1. destruct e; by apply raise_post. }
  intros data w1 Hc1 Hk1. destruct (p ← parse_document_with_locations _ _; _) as [[p diagnostics]|e].
  2: { destruct e; by apply finalize_own. }
  eapply (bind_post _ _ _ _ (fun _ => knows run n P)).
  { apply wp_tx. intros w2 now Hi Hr. pose proof (knows_stable _ _ _ _ _ HP Hk1 Hr) as Hk2.
    split; [by split; [apply Hk2|]|]. unfold update_ingestion_metadata.
    match goal with |- context [update_where ?p ?f w2] => destruct (update_quiet (Some run) p f w2) as (Hi3 & Hg & Hs); [done|done|] end.
    destruct (update_where _ _ w2) as [b w3]. simpl in *.
    pose proof (same_knows _ _ _ _ _ (flagged_db n false) Hs Hk2) as Hk3.
    split_and!; [done|done| |by split; [apply Hk3|]]. by split; [apply Hk3|]. }
  intros b w2 Hc2 Hk2. destruct (chunk_text _ _ _) as [[chunks|m]|] eqn:Ec; [|by apply raise_post..].
  destruct chunks as [|c chunks]; [by apply ingest_empty_own|by apply ingest_chunks_own].
Qed.

(** *** The media pipeline *)

Lemma touch_ok now run w : inv w -> inv (touch_processing now run w).2 /\ same w (touch_processing now run w).2.
Proof.
  intros Hi. unfold touch_processing.
  destruct (update_quiet None (owned_by_run run) (with_updated_at now) w) as (Hi' & _ & Hs); [done|done|].
  by destruct (update_where _ _ w).
Qed.
(** What was stable before a lease check, a heartbeat, is so after it. *)
Definition untouched {A} (run : uuid) (n : Z) (w : world) (r : res fault A) (w' : world) : Prop :=
  R (Some run) w w' /\ match r with Ok _ => True | Err e => blames n e end.
Lemma lease_own run n w : wp (Some run) (_require_ingestion_lease run) (untouched run n w) w.
Proof.
  unfold _require_ingestion_lease. apply wp_prog_bind, wp_tx. intros w' now Hi Hr. split; [by split|].
  destruct (touch_ok now run w' Hi) as [Hi2 Hs]. destruct (touch_processing now run w') as [held w2]. simpl in *.
  assert (R (Some run) w w2) as Hr2 by (etrans; [exact Hr|by apply same_R]).
  split_and!; [done|by apply same_G| |by split]. by destruct held.
Qed.
Lemma lease_knows run n P w : steady n P -> knows run n P w ->
  wp (Some run) (_require_ingestion_lease run) (post run n (fun _ => knows run n P)) w.
Proof.
  intros Hs Hk. eapply wp_weaken; [|apply (lease_own run n)]. intros r w' [Hr Hb].
  pose proof (knows_stable _ _ _ _ _ Hs Hk Hr) as Hk'. split; [apply Hk'|]. by destruct r.
Qed.
(** A leased transaction that changes no more than the row's other columns. *)
Lemma leased_own {B} run n C (f : Z -> world -> res fault (B * world)) w :
  of_db C -> knows run n (fun w => C w /\ fresh_gen n w) w ->
  (forall now w', inv w' -> exists b w2, f now w' = Ok (b, w2) /\ inv w2 /\ same w' w2) ->
  wp (Some run) (tx_leased run f) (post run n (fun _ => knows run n (fun w => C w /\ fresh_gen n w))) w.
Proof.
  intros HC Hk Hf. apply wp_tx. intros w' now Hi Hr. pose proof (knows_stable _ _ _ _ _ (fresh_steady n C HC) Hk Hr) as Hk'.
  split; [by split; [apply Hk'|]|]. destruct (touch_ok now run w' Hi) as [Hi2 Hs].
  destruct (touch_processing now run w') as [held w2]. simpl in *. destruct held; [|by split; [apply Hk'|]].
  destruct (Hf now w2 Hi2) as (b & w3 & -> & Hi3 & Hs3). pose proof (same_trans _ _ _ Hs Hs3) as Hs'.
  pose proof (same_knows _ _ _ _ _ HC Hs' Hk') as Hk3.
  split_and!; [done|by apply same_G|by split; [apply Hk3|]|by split; [apply Hk3|]].
Qed.
Lemma read_leased {B} (f : world -> B) w : inv w ->
  exists b w2, (Ok (f w, w) : res fault (B * world)) = Ok (b, w2) /\ inv w2 /\ same w w2.
Proof. intros Hi. exists (f w), w. split_and!; [done..|apply same_refl]. Qed.

Lemma lift_own {A} run n (r : mres A) P w : knows run n P w ->
  wp (Some run) (lift r) (post run n (fun a w => r = Ok a /\ knows run n P w)) w.
Proof. intros Hk. destruct r; [by apply ret_post; [apply Hk|]|by apply raise_post; [apply Hk|]]. Qed.
Lemma lift_fuelled_own {A} run n (r : option (mres A)) P w : knows run n P w ->
  wp (Some run) (lift_fuelled r) (post run n (fun a w => r = Some (Ok a) /\ knows run n P w)) w.
Proof.
  intros Hk. destruct r as [r|]; [|by apply raise_post; [apply Hk|]].
  eapply weaken_post; [by apply (lift_own run n r P)|]. by intros a w' [-> ?].
Qed.

Lemma transcribe_span_own run n C span w : of_db C -> knows run n (fun w => C w /\ fresh_gen n w) w ->
  wp (Some run) (transcribe_span cf run span) (post run n (fun _ => knows run n (fun w => C w /\ fresh_gen n w))) w.
Proof.
  intros HC Hk. pose proof (fresh_steady n C HC) as HP.
  set (P := fun w => C w /\ fresh_gen n w) in *. unfold transcribe_span.
  eapply bind_post; [apply (leased_own run n C); [done|done|]|].
  { intros now w' Hi. by apply (read_leased (get_checkpoint (sp_index span) (cf_transcription_model cf))). }
  intros stored_ w1 Hc1 Hk1. destruct (c ← stored_; _) as [c|].
  - eapply bind_post; [by apply (lift_own run n _ P)|]. intros t w2 Hc2 [_ Hk2]. by apply ret_post.
  - eapply bind_post; [by apply (ask_own run n _ P)|]. intros ? w2 Hc2 Hk2.
    eapply bind_post; [by apply lease_knows|]. intros ? w3 Hc3 Hk3.
    eapply bind_post; [by apply (ask_own run n _ P)|]. intros payload w4 Hc4 Hk4.
    eapply bind_post; [by apply (lift_own run n _ P)|]. intros result w5 Hc5 [_ Hk5].
    eapply bind_post; [apply (leased_own run n C); [done|done|]|].
    { intros now w' Hi. unfold upsert_checkpoint.
      match goal with |- context [update_where ?p ?f w'] => destruct (update_quiet (Some run) p f w') as (? & _ & ?); [by intros r|done|] end.
      destruct (update_where _ _ w') as [b w2']. by exists b, w2'. }
    intros kept w6 Hc6 Hk6. destruct kept; [|by apply raise_post].
    eapply bind_post; [by apply (ask_own run n _ P)|]. intros ? w7 Hc7 Hk7. by apply ret_post.
Qed.
Lemma transcribe_own run n C duration_ms w : of_db C -> knows run n (fun w => C w /\ fresh_gen n w) w ->
  wp (Some run) (_transcribe_chunks cf run duration_ms) (post run n (fun _ => knows run n (fun w => C w /\ fresh_gen n w))) w.
Proof.
  intros HC Hk. set (P := fun w => C w /\ fresh_gen n w) in *. unfold _transcribe_chunks. eapply bind_post; [by apply (lift_fuelled_own run n _ P)|]. intros spans w1 Hc1 [_ Hk1].
  eapply bind_post; [apply (leased_own run n C); [done|done|]|].
  { intros now w' Hi. unfold delete_other_models.
    match goal with |- context [update_where ?p ?f w'] => destruct (update_quiet (Some run) p f w') as (? & _ & ?); [by intros r|done|] end.
    by exists tt, (update_where (owned_by_run run)
      (fun r => with_checkpoints (List.filter (fun c => bool_decide (ck_model c = cf_transcription_model cf)) (mc_checkpoints (r_media r))) r) w').2. }
  intros ? w2 Hc2 Hk2. clear Hk1 Hc1. revert w2 Hc2 Hk2. induction spans as [|span spans IH]; intros w2 Hc2 Hk2; cbn [transcribe_spans].
  - by apply ret_post.
  - eapply bind_post; [by apply transcribe_span_own|]. intros t w3 Hc3 Hk3.
    eapply bind_post; [by apply IH|]. intros ts w4 Hc4 Hk4. by apply ret_post.
Qed.

Lemma draft_rows drafts es rows : length es = length drafts -> rows_of (zip_with (draft_input cf) drafts es) rows ->
  Forall2 (fun k d => c_text (k_chunk k) = td_text d /\ c_char_start (k_chunk k) = td_char_start d
                      /\ c_char_end (k_chunk k) = td_char_end d /\ c_time_start_ms (k_chunk k) = Some (td_time_start_ms d)
                      /\ c_time_end_ms (k_chunk k) = Some (td_time_end_ms d)
                      /\ c_transcript_segment_id (k_chunk k) = td_transcript_segment_id d
                      /\ c_speaker_id (k_chunk k) = td_speaker_id d /\ c_speaker_name (k_chunk k) = td_speaker_name d) rows drafts.
Proof.
  revert es rows. induction drafts as [|d drafts IH]; intros [|e es] rows; try done; simpl.
  - intros _. inversion 1. constructor.
  - intros [= Hl] Hr. inversion Hr as [|k ? rows' ? Hk Hrest]; subst. constructor; [|by eapply IH].
    destruct Hk as (? & ? & ? & _ & _ & ? & ? & ? & ? & ?). done.
Qed.
(** The transcript and its chunks, stored by the owner. *)
Lemma media_tx_ok run n kind duration_ms language segments drafts es now w :
  inv w -> knows run n (fun w => flagged n true w /\ fresh_gen n w) w -> length es = length drafts ->
  build_transcript_chunks segments (infer_speaker_names segments) duration_ms (cf_chunk_size cf) (cf_chunk_overlap cf) = Some (Ok drafts) ->
  match media_tx cf run kind duration_ms language (speaker_input <$> infer_speaker_names segments) segments
          (zip_with (draft_input cf) drafts es) now w with
  | Err e => blames n e
  | Ok (_, w') => inv w' /\ G (Some run) w w' /\ claimed run n w'
      /\ knows run n (fun w => (flagged n true w /\ said_in_transcript w) /\ fresh_gen n w) w'
  end.
Proof.
  intros Hi [Hc Hk] Hlen Hdrafts. unfold media_tx, get_claimed_for_update.
  destruct (w_row w) as [r|] eqn:Er; [|done]. destruct (owned_by_run run r) eqn:Eo; [|done].
  apply owned_by_run_spec in Eo as [Es Erun]. destruct (inv_run _ Hi r Er Es) as (run' & E & Hcount).
  assert (run' = run) as -> by congruence. rewrite <-(inv_attempts _ Hi r Er) in Hcount.
  assert (own run (r_attempts r) w) as Ho by (split; [by exists r|done]).
  unfold replace_transcript. destruct (validate_transcript _ _ _ _); [|done]. cbn [mbind res_bind].
  set (r' := with_media _ _). destruct (replace_for_ingestion _ _ _ _ _) as [[[rows|] w1]|e] eqn:Erep; cbn [mbind res_bind].
  2: done.
  2: { by apply replace_err in Erep as ->. }
  apply replace_ok in Erep as (_ & Ech & Hrows & Erow & Ecl & El & Ev & Hids).
  destruct (G_owner run (r_attempts r) w w1 r r') as (Hi' & Hg & Ho'); try done; [by apply Hids, (inv_ids _ Hi)|].
  assert (claimed run n w1) as Hc1 by (by rewrite (claimed_claims w)).
  assert (knows run n (fun w => (flagged n true w /\ said_in_transcript w) /\ fresh_gen n w) w1) as Hk1.
  { split; [done|]. intros Hown. pose proof (own_current _ _ _ Hi' Hown) as En. pose proof (own_current _ _ _ Hi' Ho') as En'.
    destruct Hk as [(run'' & Hf) [Hl Hv]]; [by rewrite En, <-En'|].
    split; [split|split].
    - exists run''. by rewrite Ecl.
    - exists (r_source_text r), segments. split; [unfold source; by rewrite Erow|]. exists duration_ms, drafts. split; [done|].
      rewrite Ech. by eapply draft_rows.
    - unfold live_is in *. by rewrite El.
    - unfold vis in *. by rewrite El, Ev. }
  destruct (mc_transcription_model (r_media r)); [done|].
  destruct (audit_ok _ _ _ (DocumentTranscribed true) Hi' Hg) as [Hi2 Hg2]. done.
Qed.
Lemma media_pipeline_own run n r w : knows run n (fun w => flagged n true w /\ fresh_gen n w) w ->
  wp (Some run) (media_pipeline cf run r)
    (post run n (fun _ => knows run n (fun w => (flagged n true w /\ said_in_transcript w) /\ fresh_gen n w))) w.
Proof.
  intros Hk. pose proof (fresh_steady n _ (flagged_db n true)) as HP.
  set (P := fun w => flagged n true w /\ fresh_gen n w) in *. unfold media_pipeline.
  eapply bind_post; [by apply (ask_own run n _ P)|]. intros sizes w1 Hc1 Hk1. destruct (negb _); [by apply raise_post|].
  eapply bind_post; [by apply (ask_own run n _ P)|]. intros payload w2 Hc2 Hk2.
  eapply bind_post; [by apply (lift_own run n _ P)|]. intros probe w3 Hc3 [_ Hk3].
  eapply bind_post; [by apply (ask_own run n _ P)|]. intros ? w4 Hc4 Hk4.
  eapply bind_post; [by apply (transcribe_own run n _ _ _ (flagged_db n true))|]. intros results w5 Hc5 Hk5.
  eapply bind_post; [by apply (lift_own run n _ P)|]. intros stitched w6 Hc6 [_ Hk6].
  eapply bind_post; [by apply (ask_own run n _ P)|]. intros ids w7 Hc7 Hk7.
  eapply bind_post; [by apply (lift_own run n _ P)|]. intros segments w8 Hc8 [_ Hk8].
  eapply bind_post; [by apply (lift_fuelled_own run n _ P)|]. intros drafts w9 Hc9 [Hd Hk9].
  eapply bind_post.
  { apply try_post; [by apply (embed_own run n P _ _ HP)|]. intros e v Hcv Hb. apply raise_post; [done|]. by destruct e. }
  intros es w10 Hc10 Hk10. unfold _persist_media_result. destruct (Nat.eqb_spec (length es) (length drafts)) as [Hlen|]; simpl; [|by apply raise_post].
  destruct (existsb _ es); [by apply raise_post|]. destruct (existsb _ drafts); [by apply raise_post|].
  apply wp_tx. intros w' now Hi Hr. pose proof (knows_stable _ _ _ _ _ HP Hk10 Hr) as Hk'. split; [by split; [apply Hk'|]|].
  pose proof (media_tx_ok run n (mp_kind probe) (mp_duration_ms probe) (_detected_language results) segments drafts es now w' Hi Hk' Hlen Hd) as Hm.
  destruct (media_tx _ _ _ _ _ _ _ _ _ w') as [[b w2']|e]; [|by split; [apply Hk'|]]. destruct Hm as (? & ? & ? & ?). by split_and!.
Qed.

(** The heartbeats that run beside it prove the lease, and leave what it knows. *)
Lemma heartbeats_own run n m w : wp (Some run) (heartbeats m run) (untouched run n w) w.
Proof.
  revert w. induction m as [|m IH]; intros w; cbn [heartbeats]; [by split; [reflexivity|]|].
  apply wp_prog_bind. eapply (wp_weaken _ _ _ _ (untouched run n w)).
  - intros [[]|e] w' [Hr Hb]; [|by split]. eapply wp_weaken; [|apply IH]. intros r w2 [Hr2 Hb2]. split; [by etrans|done].
  - apply wp_try. eapply wp_weaken; [|apply (lease_own run n)]. intros [[]|e] w' [Hr Hb]; [by split|]. by destruct e.
Qed.
Lemma due_own {A} run n (k : res fault unit -> prog world A) (Q : A -> world -> Prop) w :
  (forall r w', untouched run n w r w' -> wp (Some run) (k r) Q w') -> wp (Some run) (due_heartbeats run k) Q w.
Proof.
  intros Hk w1 Hi1 Hr1 a. simpl. split_and!; [done|apply G_refl|].
  apply wp_pbind. eapply wp_weaken; [|by apply (heartbeats_own run n)]. intros r w2 [Hr2 Hb]. apply Hk. split; [by etrans|done].
Qed.
Lemma with_heartbeat_own {A} run n P (p : M world A) w : steady n P -> claimed run n w ->
  wp (Some run) p (post run n (fun _ => knows run n P)) w ->
  wp (Some run) (with_heartbeat run p) (post run n (fun _ => knows run n P)) w.
Proof.
  intros Hs. revert w. induction p as [[x|e]|B f k IH]; intros w Hc Hp; cbn [with_heartbeat].
  - destruct Hp as [_ Hk]. apply (due_own run n). intros r w' [Hr Hb]. pose proof (R_claimed _ _ _ _ _ Hr Hc) as Hc'.
    destruct r; [|by apply raise_post]. apply ret_post; [done|]. by eapply knows_stable.
  - done.
  - apply (due_own run n). intros r w1 [Hr1 Hb].
    assert (forall w2 a, inv w2 -> R (Some run) w1 w2 -> let w3 := (f a w2).2 in
              inv w3 /\ G (Some run) w2 w3 /\ claimed run n w2 /\ claimed run n w3
              /\ wp (Some run) (k (f a w2).1) (post run n (fun _ => knows run n P)) w3) as Hstep.
    { intros w2 a Hi2 Hr2. pose proof (transitivity Hr1 Hr2) as Hr. pose proof (R_claimed _ _ _ _ _ Hr Hc) as Hc2.
      destruct (Hp w2 Hi2 Hr a) as (Hi3 & Hg3 & Hk3). split_and!; [done..| |done].
      destruct (g_advances _ _ _ Hg3) as (new & Ha & _). by eapply advances_claimed. }
    destruct r as [[]|e]; intros w2 Hi2 Hr2 a; destruct (Hstep w2 a Hi2 Hr2) as (Hi3 & Hg3 & Hc2 & Hc3 & Hk3).
    + split_and!; [done..|]. by apply IH.
    + simpl. destruct (a_cut a); [|split_and!; [done|apply G_refl|by apply raise_post]].
      destruct (f a w2) as [b w3]. simpl in *. split_and!; [done..|].
      destruct (k b) as [[y|e']|]; [by apply raise_post|done|by apply raise_post].
Qed.
Lemma ingest_media_own run n r w : knows run n (fun w => flagged n true w /\ fresh_gen n w) w ->
  wp (Some run) (_ingest_media cf run r)
    (post run n (fun _ => knows run n (fun w => (flagged n true w /\ said_in_transcript w) /\ fresh_gen n w))) w.
Proof.
  intros Hk. unfold _ingest_media. apply try_post.
  - apply with_heartbeat_own; [|apply Hk|by apply media_pipeline_own].
    apply fresh_steady, of_db_and; [apply flagged_db|apply said_db].
  - intros e w' Hc Hb. destruct e; by apply raise_post.
Qed.

Lemma media_document_own run n r w : r_attempts r = n -> knows run n (fun w => flagged n true w /\ fresh_gen n w) w ->
  wp (Some run) (ingest_media_document cf run r) (post run n (fun _ _ => True)) w.
Proof.
  intros <- Hk. unfold ingest_media_document. set (n := r_attempts r) in *.
  set (C := fun w => flagged n true w /\ said_in_transcript w).
  assert (of_db C) as HC by (apply of_db_and; [apply flagged_db|apply said_db]).
  eapply bind_post; [by apply (ingest_media_own run n)|]. intros count' w1 Hc1 Hk1.
  eapply bind_post; [by apply (sync_index_own run n C)|]. intros ok w2 Hc2 Hk2.
  destruct ok; [|by apply current_own]. cbn [negb]. specialize (Hk2 eq_refl).
  eapply bind_post; [apply (ready_own run n _ w2 C HC); [by right|done]|].
  intros ready w3 Hc3 _. destruct ready; [by apply ret_post|]. eapply bind_post; [by apply discard_own|].
  intros [] w4 Hc4 _. by apply current_own.
Qed.

Lemma except_own run n correlation e w : claimed run n w -> blames n e ->
  wp (Some run) (except_claimed n correlation e) (post run n (fun _ _ => True)) w.
Proof.
  intros Hc Hb. unfold except_claimed. destruct e; try by apply current_own.
  all: try by apply finalize_own.
  all: eapply bind_post; [by apply finalize_own|]; intros r w' Hc' _; by apply raise_post.
Qed.

(** The delivery: before its claim it only reads; after it, it is the owner. *)
Definition delivered (run : uuid) {A} (r : res fault A) (w : world) : Prop :=
  match r with Err (IngestionError _ _ (Some n)) => claimed run n w | _ => True end.
Lemma post_delivered {A} run n (S : A -> world -> Prop) r w : post run n S r w -> delivered run r w.
Proof. intros [Hc Hr]. destruct r as [|e]; [done|]. destruct e; try done. simpl in *. case_match; [by subst|done]. Qed.

Lemma wp_current_result me w : wp me _current_ingestion_result (fun r _ => match r with Err e => e = SQLAlchemyError | _ => True end) w.
Proof.
  unfold _current_ingestion_result. apply wp_prog_bind. apply wp_read. intros w1 _ _. split; [|done].
  destruct (w_row w1) as [r|]; [|done]. destruct (bool_decide _); [|done]. apply wp_prog_bind, wp_read. done.
Qed.
Lemma claim_own run stale_before w :
  wp (Some run) (claim run stale_before)
    (fun r w' => match r with
     | Ok (Some row) => let n := r_attempts row in
         knows run n (fun w => flagged n (is_media (r_mime_type row)) w /\ fresh_gen n w) w'
     | Ok None => True
     | Err e => e = SQLAlchemyError
     end) w.
Proof.
  apply wp_tx. intros w' now Hi Hr. split; [done|]. pose proof (claim_ok run now stale_before true w' Hi) as Hc.
  unfold begin_ingestion. destruct (claim_ingestion _ _ _ _ w') as [[r|] w1]; [|by destruct Hc as (? & ? & _)].
  destruct Hc as (Hi1 & Hg1 & Hcl & Erow & Elook & Hl & Hv). unfold update_ingestion_metadata.
  match goal with |- context [update_where ?p ?f w1] => destruct (update_quiet None p f w1) as (Hi2 & Hg2 & Hs); [done|done|] end.
  set (w2 := (update_where _ _ w1).2) in *. clearbody w2.
  assert (claimed run (r_attempts r) w2) as Hcl2 by (rewrite (claimed_claims w1); [done|apply (same_claims _ _ Hs)]).
  split; [done|]. split; [|split; [|done]].
  - destruct Hg1 as [(new & [Acl Agone Aover] & Hnew) Hf Hch Hend Hrdy]. constructor.
    + exists new. split; [|done]. constructor.
      * by rewrite (same_claims _ _ Hs).
      * intros E. apply Agone in E. congruence.
      * intros n Hn Hp. apply Aover; [done|]. by apply (same_at _ _ Hs).
    + intros run' n Hne Ho. apply (same_own _ _ _ _ Hs) in Ho. specialize (Hf run' n Hne Ho).
      destruct Hf as [F1 F2 F3 F4 F5]. constructor.
      * by rewrite (same_chunks _ _ Hs).
      * by rewrite (same_source _ _ Hs).
      * by rewrite (same_live _ _ Hs).
      * by rewrite (same_seen _ _ Hs).
      * by rewrite (same_claims _ _ Hs).
    + rewrite (same_chunks _ _ Hs). destruct Hch as [?|[?|?]]; [by left|congruence|by right; right].
    + intros n Hp. destruct (Hend n Hp) as [?|[?|[?|[(m & ? & ?)|?]]]].
      * left. by apply (same_at _ _ Hs).
      * right; left. by apply (same_at _ _ Hs).
      * congruence.
      * do 3 right. left. exists m. split; [done|]. by apply (same_at _ _ Hs).
      * by do 4 right.
    + intros n Hp. apply (same_at _ _ Hs) in Hp. destruct (Hrdy n Hp) as [?|[?|(run' & ? & ? & ?)]]; [by left|by right; left|].
      do 2 right. exists run'. split_and!; [done..|].
      eapply published_same; [..|done]; [apply (same_chunks _ _ Hs)|apply (same_live _ _ Hs)|apply (same_seen _ _ Hs)|
        apply (same_source _ _ Hs)|apply (same_claims _ _ Hs)].
  - split; [done|]. intros _. split.
    + exists run. by rewrite (same_claims _ _ Hs).
    + unfold fresh_gen, live_is, vis. by rewrite (same_live _ _ Hs), (same_seen _ _ Hs), Hl, Hv.
Qed.
Lemma ingest_document_own run stale_before correlation w :
  wp (Some run) (ingest_document_async cf run stale_before correlation) (fun r w' => delivered run r w') w.
Proof.
  unfold ingest_document_async. apply wp_prog_bind.
  eapply (wp_weaken _ _ _ _ (fun r w' => match r with
     | Ok (inr row) => let n := r_attempts row in
         knows run n (fun w => flagged n (is_media (r_mime_type row)) w /\ fresh_gen n w) w'
     | Ok (inl _) => True
     | Err e => delivered (A := IngestionResult) run (Err e) w'
     end)).
  - intros [[r|row]|e] w'; [done| |done]. intros Hk. apply wp_try.
    assert (wp (Some run)
      (if is_media (r_mime_type row) then ingest_media_document cf run row else _ingest_claimed_document cf row correlation)
      (post run (r_attempts row) (fun _ _ => True)) w') as Hbody.
    { destruct (is_media (r_mime_type row)); [by apply media_document_own|by apply claimed_document_own]. }
    eapply wp_weaken; [|exact Hbody]. intros [a|e] w2 [Hc Hb]; [done|].
    eapply wp_weaken; [|by apply except_own]. intros r w3. apply post_delivered.
  - apply wp_try, wp_prog_bind. eapply wp_weaken; [|apply claim_own]. intros [[row|]|e] w'.
    + intros Hk. exact Hk.
    + intros _. apply wp_prog_bind. eapply wp_weaken; [|apply wp_current_result]. intros [r|e] w2; [done|]. by intros ->.
    + by intros ->.
Qed.

Lemma fail_run_own run reason code outcome correlation w :
  wp (Some run) (_fail reason None code outcome correlation (Some run)) (fun _ _ => True) w.
Proof.
  unfold _fail. apply wp_prog_bind. apply wp_tx. intros w' now Hi Hr. split; [done|].
  pose proof (fail_tx_run run reason code outcome correlation now w' Hi) as Hf. unfold fail_tx in Hf.
  destruct (get_claimed_for_update run w') as [r|].
  - destruct (let '(_, _) := _ in _) as [[b w2]|]; [|done]. destruct Hf. split_and!; [done|done| |done].
    destruct b as [[?|]|]; [done| |]; (eapply wp_weaken; [|apply wp_current_result]; done).
  - destruct Hf. split_and!; [done|done| |done]. eapply wp_weaken; [|apply wp_current_result]; done.
Qed.
Lemma wp_ask {B} me (f : answer -> res outside B) (Q : res fault B -> world -> Prop) w :
  (forall b w', Q (Ok b) w') -> (forall o w', Q (Err (raised o)) w') -> wp me (ask f) Q w.
Proof. intros Hok Herr w' Hi Hr a. simpl. split_and!; [done|apply G_refl|]. destruct (f a); auto. Qed.
Lemma task_own run stale_before retries correlation w :
  wp (Some run) (ingest_document cf run stale_before retries correlation) (fun _ _ => True) w.
Proof.
  unfold ingest_document. apply wp_pbind, wp_prog_bind, wp_ask; [intros [] w1|intros o w1].
  - eapply wp_weaken; [|by apply ingest_document_own]. intros [r|e] w2 Hd; [done|]. destruct (_ <=? _) eqn:Er; [|by destruct e].
    destruct e; try done. simpl in Hd. unfold exhausted. destruct attempt as [n|].
    + apply wp_pbind. eapply wp_weaken; [|by apply fail_own]. intros [r|e] w3 _; [done|]. destruct e; try done. by destruct (_ <? _).
    + destruct (preclaim_failure _); [done|]. apply wp_pbind. eapply wp_weaken; [|apply fail_run_own].
      intros [r|e] w3 _; [done|]. destruct e; try done. by destruct (_ <? _).
  - destruct o; try done. simpl. by destruct (_ <=? _).
Qed.
(** ** The programs of the others *)

Definition over (n : Z) (w : world) : Prop := n <= count w /\ ~ at_ PROCESSING n w.
Definition lasting (K : world -> Prop) : Prop :=
  (forall w w', R None w w' -> K w -> K w') /\ forall w (live seen : engine), K w -> K (set_engine live seen w).
Lemma over_lasting n : lasting (over n).
Proof.
  split; [|done]. intros w w' (new & Ha & _) [Hn Hp]. split; [pose proof (advances_count _ _ _ Ha); lia|].
  intros Hp'. by apply Hp, (adv_over _ _ _ Ha).
Qed.
Lemma count_lasting n : lasting (fun w => n <= count w).
Proof. split; [|done]. intros w w' (new & Ha & _) Hn. pose proof (advances_count _ _ _ Ha). lia. Qed.
Lemma gone_lasting : lasting (fun w => w_row w = None).
Proof. split; [|done]. intros w w' (new & Ha & _). apply (adv_gone _ _ _ Ha). Qed.

Lemma bind_lasting {A B} (K : world -> Prop) (m : M world A) (k : A -> M world B) w :
  wp None m (fun _ => K) w -> (forall a w', K w' -> wp None (k a) (fun _ => K) w') -> wp None (bind m k) (fun _ => K) w.
Proof. intros Hm Hk. apply wp_prog_bind. eapply wp_weaken; [|exact Hm]. intros [a|e] w' Hw; [by apply Hk|done]. Qed.
Lemma try_lasting {A} (K : world -> Prop) (m : M world A) h w :
  wp None m (fun _ => K) w -> (forall e w', K w' -> wp None (h e) (fun _ => K) w') -> wp None (try_except m h) (fun _ => K) w.
Proof. intros Hm Hh. apply wp_try. eapply wp_weaken; [|exact Hm]. intros [a|e] w' Hw; [done|by apply Hh]. Qed.
Lemma read_lasting {B} (K : world -> Prop) (f : world -> B) w : lasting K -> K w -> wp None (read f) (fun _ => K) w.
Proof. intros [HR _] Hk. apply wp_read. intros w' _ Hr. split; by apply (HR w). Qed.
Lemma request_lasting (K : world -> Prop) change refresh w : lasting K -> K w ->
  (forall w' reached (k : N * Z), inv w' -> K w' -> is_Some (change reached w' !! k) -> k.2 <= count w') ->
  (forall w' reached run n, inv w' -> K w' -> own run n w' -> gen n (change reached w') = gen n (w_live w')) ->
  wp None (request change refresh) (fun _ => K) w.
Proof.
  intros [HR HE] Hk Hb Hg. apply wp_request.
  - intros w' reached Hi Hr. specialize (HR w w' Hr Hk). split_and!; [intros k; by apply Hb|intros run n _; by apply Hg|].
    intros seen code _. by apply HE.
  - intros w' seen live Hi Hr _ _. apply HE. by apply (HR w).
Qed.
Lemma delete_lasting (K : world -> Prop) matching refresh w : lasting K -> K w ->
  (forall w' run n, inv w' -> K w' -> own run n w' -> matching n = false) ->
  wp None (delete_by_query matching refresh) (fun _ => K) w.
Proof.
  intros HK Hk Hm. apply request_lasting; [done|done| |].
  - intros w' reached k Hi _ Hs. apply (inv_entries _ Hi). left. fold (deleted matching reached w') in Hs.
    rewrite deleted_lookup in Hs. destruct (_ && _); [by destruct Hs|done].
  - intros w' reached run n Hi Hw Ho. apply (deleted_spares matching reached w' n). by apply (Hm w' run).
Qed.
Lemma ensure_lasting (K : world -> Prop) w : lasting K -> K w -> wp None ensure_index (fun _ => K) w.
Proof. intros HK Hk. apply request_lasting; [done|done| |done]. intros w' _ k Hi _ Hs. apply (inv_entries _ Hi). by left. Qed.

Lemma older_spares s w run n : inv w -> s <= count w -> own run n w -> (n <? s) = false.
Proof. intros Hi Hs Ho. apply Z.ltb_ge. by rewrite (own_current _ _ _ Hi Ho). Qed.
Lemma over_spares s w run n : over s w -> own run n w -> n <> s.
Proof. intros [_ Hs] [Hp _] ->. done. Qed.

Lemma bulk_over s l refresh w : over s w -> Forall (fun c => ix_ingestion_attempt c = s) l ->
  wp None (_bulk_batch l refresh) (fun _ => over s) w.
Proof.
  intros Hs Hl.
  assert (forall reached, Forall (fun c => ix_ingestion_attempt c = s) (List.filter reached l)) as Hl'.
  { intros reached. rewrite Forall_forall in *. intros c [Hin _]%list_elem_of_In%filter_In. by apply Hl, list_elem_of_In. }
  apply request_lasting; [apply over_lasting|done|..].
  - intros w' reached k Hi [Hc _] [x Hx]. rewrite lookup_union in Hx. destruct (entries _ !! k) eqn:E.
    + by rewrite (entries_lookup_gen s _ k (Hl' _) (mk_is_Some _ _ E)).
    + apply (inv_entries _ Hi). left. destruct (w_live w' !! k); [done|discriminate Hx].
  - intros w' reached run n Hi Ho Hown. apply (proj2 (gen_written s _ w' (Hl' _))). by eapply over_spares.
Qed.
Lemma Forall_mjoin_batches {A} (P : A -> Prop) fuel n l : Forall P l -> Forall (Forall P) (batches fuel n l).
Proof.
  revert l. induction fuel as [|fuel IH]; intros [|x l] Hl; simpl; try constructor; [by apply Forall_take|by apply IH, Forall_drop].
Qed.
Lemma bulks_over s bulks refresh w : over s w -> Forall (Forall (fun c => ix_ingestion_attempt c = s)) bulks ->
  wp None (bulk_batches bulks refresh) (fun _ => over s) w.
Proof.
  intros Hs Hb. revert w Hs. induction Hb as [|b bulks Hb _ IH]; intros w Hs; cbn [bulk_batches]; [done|].
  apply bind_lasting; [by apply bulk_over|]. intros _ w' Hs'. by apply IH.
Qed.
Lemma publish_over r chunks refresh visible w : over (r_attempts r) w ->
  wp None (publish cf r chunks refresh visible) (fun _ => over (r_attempts r)) w.
Proof.
  intros Ho. unfold publish. destruct (_to_indexed cf r chunks) as [l|e] eqn:El; [|done].
  destruct (to_indexed_spec _ _ _ El) as (_ & _ & _ & Hatt). pose proof (over_lasting (r_attempts r)) as HK.
  apply try_lasting.
  - unfold upsert_chunks. destruct (check_entries cf l); [done|]. apply bind_lasting.
    + by apply bulks_over, Forall_mjoin_batches.
    + intros _ w' Ho'. destruct visible, refresh; try done; destruct l as [|c l]; try done.
      all: apply request_lasting; [done|done| |done]; intros w2 _ k Hi _ Hs; apply (inv_entries _ Hi); by left.
  - intros e w' Ho'. destruct e; try done. apply bind_lasting; [|done]. apply try_lasting.
    + apply delete_lasting; [done|done|]. intros w2 run n Hi Ho2 Hown. apply Z.eqb_neq. by eapply over_spares.
    + intros e2 w2 Ho2. by destruct e2.
Qed.
Lemma repair_own refresh w : wp None (sync_current cf refresh false) (fun _ _ => True) w.
Proof.
  unfold sync_current. apply wp_prog_bind, wp_read. intros w1 Hi1 _. split; [|done].
  destruct (w_row w1) as [r|] eqn:Er.
  2: { eapply wp_weaken; [|apply (bind_lasting (fun w => w_row w = None))]; [done|by apply ensure_lasting; [apply gone_lasting|]|].
       intros _ w2 E2. apply bind_lasting; [|done]. apply delete_lasting; [apply gone_lasting|done|].
       intros w' run n _ E [(r & E' & _) _]. congruence. }
  assert (r_attempts r <= count w1) as Hcount by (rewrite (inv_attempts _ Hi1 r Er); lia).
  assert (bool_decide (r_status r = PROCESSING) = false -> over (r_attempts r) w1) as Hover.
  { intros Es%bool_decide_eq_false. split; [done|]. intros (r' & E & Es' & _). congruence. }
  destruct (bool_decide (r_status r = PROCESSING)) eqn:Es.
  - set (K := fun w => r_attempts r <= count w). pose proof (count_lasting (r_attempts r)) as HK.
    eapply wp_weaken; [|apply (bind_lasting K); [by apply read_lasting|]]; [done|]. intros chunks w2 H2.
    apply bind_lasting; [by apply ensure_lasting|]. intros _ w3 H3.
    rewrite (bool_decide_eq_false_2 (r_status r = READY)) by (apply bool_decide_eq_true in Es; congruence).
    cbn [negb orb]. apply bind_lasting; [done|]. intros _ w4 H4.
    apply bind_lasting; [|done]. apply delete_lasting; [done|done|]. intros w' run n Hi Hw. by apply older_spares.
  - specialize (Hover eq_refl). pose proof (over_lasting (r_attempts r)) as HK.
    assert (forall w, over (r_attempts r) w ->
      wp None (delete_older_document_generations (r_attempts r) refresh) (fun _ => over (r_attempts r)) w) as Holder.
    { intros w2 H2. apply delete_lasting; [done|done|]. intros w' run n Hi [Hw _]. by apply older_spares. }
    assert (forall w, over (r_attempts r) w ->
      wp None (delete_document_generation (r_attempts r) refresh) (fun _ => over (r_attempts r)) w) as Hexact.
    { intros w2 H2. apply delete_lasting; [done|done|]. intros w' run n Hi Hw Hown. apply Z.eqb_neq. by eapply over_spares. }
    eapply wp_weaken; [|apply (bind_lasting (over (r_attempts r))); [by apply read_lasting|]]; [done|]. intros chunks w2 H2.
    apply bind_lasting; [by apply ensure_lasting|]. intros _ w3 H3. destruct (_ || _).
    + apply bind_lasting; [by apply Hexact|]. intros _ w4 H4. apply bind_lasting; [by apply Holder|done].
    + apply bind_lasting; [by apply Hexact|]. intros _ w4 H4. apply bind_lasting; [by apply publish_over|]. intros _ w5 H5.
      apply bind_lasting; [by apply Holder|]. intros _ w6 H6. apply bind_lasting; [by apply read_lasting|].
      intros current w7 H7. destruct current as [r'|]; [destruct (_ && _); [done|]|]; (apply bind_lasting; [by apply Hexact|done]).
Qed.

(** A change of the row by the others. *)
Lemma others_row p f w :
  (forall r, r_attempts (f r) = r_attempts r /\ row_source (f r) = row_source r
     /\ ((r_status (f r) = r_status r /\ r_run_id (f r) = r_run_id r) \/ r_status (f r) = PENDING
         \/ (r_status (f r) = READY /\ (p r = true -> r_status r = PENDING /\ _requires_reembedding (cf_space cf) w = true)))) ->
  inv w -> inv (update_where p f w).2 /\ G None w (update_where p f w).2.
Proof.
  intros Hf Hi. unfold update_where. destruct (w_row w) as [r|] eqn:Er; [|split; [done|apply G_refl]].
  destruct (p r) eqn:Ep; [|split; [done|apply G_refl]]. destruct (Hf r) as (Ea & Et & Hs).
  apply (G_row None w r (f r)); try done.
  - destruct Hs as [[-> ->]|[->|[-> _]]]; [by auto|done|done].
  - destruct Hs as [[-> _]|[->|[-> Hp]]]; [by auto|by auto|]. intros Es. destruct (Hp Ep). congruence.
  - destruct Hs as [[-> _]|[->|[-> Hp]]]; [by auto|done|]. intros _. right; left. by destruct (Hp Ep).
Qed.
Lemma others_tx {B} (f : Z -> world -> B * world) w :
  (forall now w', inv w' -> inv (f now w').2 /\ G None w' (f now w').2) ->
  wp None (tx (fun now w => Ok (f now w))) (fun _ _ => True) w.
Proof. intros Hf. apply wp_tx. intros w' now Hi _. destruct (Hf now w' Hi). destruct (f now w'). done. Qed.
Lemma delete_row_ok w : inv w -> inv (delete w) /\ G None w (delete w).
Proof.
  intros Hi. unfold delete. destruct (w_row w) as [r0|] eqn:Er; [|split; [done|apply G_refl]].
  destruct Hi as [Ha Hr He Hids]. split; [constructor; try done|].
  - by split; constructor.
  - constructor.
    + exists []. split; [|by intros c ?%elem_of_nil]. constructor; [by rewrite app_nil_r|done|by intros n _ (r & [=] & _)].
    + intros run n _ [(r & [=] & _) _].
    + by right; left.
    + intros n _. by do 2 right; left.
    + intros n (r & [=] & _).
Qed.

Definition runner (j : job) : option uuid := match j with Deliver run _ _ _ => Some run | _ => None end.
Lemma changed_or {A} `{EqDecision A} (seen new current : A) : changed seen new current = current \/ changed seen new current = new.
Proof. unfold changed. destruct (decide _); auto. Qed.
Lemma program_own j w :
  wp (runner j) (program cf j) (fun _ _ => True) w.
Proof.
  unfold program.
  destruct j; simpl runner; apply wp_pbind; apply (wp_weaken _ _ _ _ (fun _ _ => True)); try (intros ? ? _; exact I).
  - by apply task_own.
  - apply repair_own.
  - apply others_tx. intros now w' Hi. apply others_row; [|done]. intros r. simpl. auto.
  - apply others_tx. intros now w' Hi. apply others_row; [|done]. intros r. simpl. auto.
  - apply others_tx. intros now w' Hi. apply others_row; [|done]. intros r. simpl.
    split_and!; [done|done|]. do 2 right. split; [done|]. by intros [?%bool_decide_eq_true ?]%andb_true_iff.
  - apply wp_prog_bind, wp_read. intros w1 Hi1 _. split; [|done]. destruct (w_row w1) as [seen|]; [|done].
    apply wp_prog_bind, (wp_weaken _ _ _ _ (fun _ _ => True)); [by intros []|].
    apply (others_tx (fun now w => flush_from_sync now seen u w)). intros now w' Hi. apply others_row; [|done].
    intros r. simpl. split_and!; [done|done|]. destruct (changed_or (r_status seen) PENDING (r_status r)) as [->| ->]; auto.
  - apply others_tx. intros now w' Hi. apply others_row; [|done]. intros r. simpl. auto.
  - apply (others_tx (fun _ w => (tt, delete w))). intros now w' Hi. by apply delete_row_ok.
  - apply (request_lasting (fun _ => True)); try done. intros w' _ k Hi _ Hs. apply (inv_entries _ Hi). by left.
Qed.

(** ** The theorems *)

Definition runs (js : list job) : list uuid := omap runner js.

End fence.

(** ** A delivery, a repair and a sweep at once *)

#[local] Existing Instance demo_unicode.
#[local] Existing Instance demo_media.
#[local] Instance demo_host : IngestHost := {|
  parse_document_with_locations data _ := Ok (mk_parsed data []);
  build_extraction_diagnostics _ _ _ := Ok JNull;
  sha256 := take 8;
  dumps_revision _ := [];
  build_metadata _ := Some (cp "parser", cp "chunker", JNull)
|}.
Definition demo_config : config := mk_config 1 2 40 10 16 (cp "space") 1 3 5 (cp "stt") 600 10 3600.
Definition demo_row (mime : pystr) : row :=
  mk_row (mk_document 2 1 3 4 None (cp "a") (cp "file") None [] 0 false None None None) PENDING 0 None 10 None None
    (mk_metadata None None [] None) None mime 5 (cp "key") (mk_media_columns None None None []).
Definition demo_world (mime : pystr) : world := mk_world (Some (demo_row mime)) [] [] ∅ ∅ [] 500 [].
Definition demo_text : pystr := cp "Ana wrote the contract. Bo signed it on Friday afternoon.".
Definition demo_probe : json :=
  JObj [(cp "format", JObj [(cp "format_name", JStr (cp "wav")); (cp "duration", JFloat (4 # 1))]);
        (cp "streams", JArr [JObj [(cp "codec_type", JStr (cp "audio"))]])].
Definition demo_spoken (t : string) (start stop : QArith_base.Q) : json :=
  JObj [(cp "word", JStr (cp t)); (cp "start", JFloat start); (cp "end", JFloat stop); (cp "speaker", JInt 0)].
Definition demo_response : json :=
  JObj [(cp "text", JStr (cp "Hello, my name is Ana."));
        (cp "words", JArr [demo_spoken "Hello," (1 # 1) (3 # 2); demo_spoken "my" (3 # 2) (7 # 4); demo_spoken "name" (2 # 1) (9 # 4);
                            demo_spoken "is" (9 # 4) (5 # 2); demo_spoken "Ana." (5 # 2) (3 # 1)])].
Definition demo_answer (vectors : nat) : answer :=
  mk_answer 100 CommitOk None (fun _ => true) false (Ok demo_text) (Ok (replicate vectors (mk_embedding [(1 # 1)%Q] (cp "m")))) (Ok tt)
    (Ok (5, 5)) (Ok demo_probe) (Ok tt) (Ok demo_response) (fun i => N.of_nat (100 + i)) 1 false.

Definition demo_jobs : list job := [Deliver 7 0 0 None; Repair true; Sweep 50].
Definition demo_start (mime : pystr) : world * list (prog world unit) := (demo_world mime, program demo_config <$> demo_jobs).
Definition demo_moves (n : nat) (i : nat) : list (nat * answer) := replicate n (i, demo_answer 1).
(** The recording is transcribed, with a sweep before and a repair in the middle, up
    to the commit that makes it ready; that commit. *)
Definition demo_schedule : list (nat * answer) :=
  demo_moves 1 2 ++ demo_moves 20 0 ++ demo_moves 2 1 ++ demo_moves 20 0 ++ demo_moves 2 1 ++ demo_moves 9 0.
Definition demo_before : world * list (prog world unit) :=
  default (demo_start (cp "audio/wav")) (exec (demo_start (cp "audio/wav")) demo_schedule).
Definition demo_after : world * list (prog world unit) := default demo_before (exec1 demo_before (0%nat, demo_answer 1)).

Lemma demo_inv mime : inv (demo_world mime).
Proof.
  constructor; simpl.
  - by intros r [= <-].
  - by intros r [= <-].
  - intros k. rewrite lookup_empty. by intros [[]|[]].
  - split; constructor.
Qed.
Lemma demo_schedule_runs : exec (demo_start (cp "audio/wav")) demo_schedule = Some demo_before
  /\ exec1 demo_before (0%nat, demo_answer 1) = Some demo_after.
Proof.
  assert (match exec (demo_start (cp "audio/wav")) demo_schedule with Some _ => true | None => false end = true) as H1
    by (vm_compute; reflexivity).
  assert (match exec1 demo_before (0%nat, demo_answer 1) with Some _ => true | None => false end = true) as H2
    by (vm_compute; reflexivity).
  unfold demo_after. destruct (exec1 demo_before _) as [c'|]; [|done]. unfold demo_before.
  destruct (exec (demo_start _) demo_schedule) as [c|]; [done|discriminate H1].
Qed.
Lemma row_at s n w : (fun r => (r_status r, r_attempts r)) <$> w_row w = Some (s, n) -> at_ s n w.
Proof. intros (r & Hr & E)%fmap_Some. injection E as -> ->. by exists r. Qed.
Lemma demo_states : at_ PROCESSING 1 demo_before.1 /\ at_ READY 1 demo_after.1.
Proof. split; apply row_at; vm_compute; reflexivity. Qed.
(** A text document, delivered alone: three chunks. *)
Example demo_text_delivered :
  let w := (run (fun _ => demo_answer 3) (ingest_document demo_config 7 0 0 None) 0 (demo_world (cp "text/plain"))).2 in
  r_status <$> w_row w = Some READY
  /\ (fun k => slice demo_text (Z.to_nat (c_char_start (k_chunk k))) (Z.to_nat (c_char_end (k_chunk k)))) <$> w_chunks w
     = (fun k => c_text (k_chunk k)) <$> w_chunks w
  /\ length (w_chunks w) = 3%nat /\ size (w_seen w) = 3%nat.
Proof. vm_compute. auto. Qed.

(** A refresh that read the row as pending before a worker claimed it: the row is at
    the worker's attempt with the new object, the worker has the old one. *)
Example refresh_hides_in_attempt :
  let w := (begin_ingestion 100 7 0 (demo_world (cp "text/plain"))) in
  let u := mk_source_update (cp "text/plain") 9 (cp "new key") (fun d => d) in
  let refreshed := (flush_from_sync 101 (demo_row (cp "text/plain")) u w.2) in
  r_storage_key <$> w.1 = Some (cp "key")
  /\ (fun r => (r_status r, r_attempts r, r_run_id r, r_storage_key r)) <$> refreshed.1 = Some (PROCESSING, 1, Some 7%N, cp "new key")
  /\ (fun r => (r_status r, r_storage_key r)) <$> (mark_ingestion_ready 102 1 None refreshed.2).1 = Some (READY, cp "new key").
Proof. vm_compute. auto. Qed.

