(* ===== verification/Uploads.v ===== *)
(** * Direct multipart uploads

    [backend/app/storage/validation.py] (the declared type and the size),
    the multipart methods of [backend/app/storage/object_store.py],
    [DocumentUploadService] of [backend/app/services/document_upload_service.py],
    the endpoints of [backend/app/api/v2/uploads.py] with their transactions and
    the per-session body of [backend/app/tasks/upload_janitor.py].

    One upload session is modelled: its row, its document, its audit events and
    the object store.  Every statement of the session's row lock holds a request
    to one transaction at a time, so a request is one step, except [complete],
    which commits (and releases the lock) in the middle.  A request meets faults
    at its calls to the store and at its commits: an outage or the death of the
    process, before or after the call took effect.  The deletions of the document
    ([backend/app/services/document_service.py]) and of its collection
    ([backend/app/services/collections_service.py]) are requests too; they delete the
    object before they commit. *)

From stdpp Require Import base list strings sets.
From Stdlib Require Import Lia ZArith.
From S2P Require Import Prelude Json AuditLog Keys.
Open Scope Z_scope.

(** ** Errors *)

Inductive kind : Type :=
| Validation | Conflict | NotFound | Forbidden | Dependency | PayloadTooLarge | UnsupportedMediaType
| ProviderNotFound                    (** [UploadProviderNotFound] *)
| Rejected.                           (** [UploadCompletionRejected] *)

Global Instance kind_eq : EqDecision kind.
Proof. solve_decision. Defined.

Inductive exn : Type :=
| AppError (k : kind) (code : pystr)
| OtherError                          (** any other [Exception] *)
| Died.                               (** the process is gone *)

(** ** Declared types *)

Inductive DocumentKind : Type := DOCUMENT | AUDIO | VIDEO.
Global Instance DocumentKind_eq : EqDecision DocumentKind.
Proof. solve_decision. Defined.

Definition AUDIO_CONTENT_TYPES : list pystr :=
  [cp "audio/wav"; cp "audio/x-wav"; cp "audio/mpeg"; cp "audio/mp4"; cp "audio/aac";
   cp "audio/flac"; cp "audio/ogg"; cp "audio/webm"].
Definition VIDEO_CONTENT_TYPES : list pystr := [cp "video/mp4"; cp "video/webm"].

Definition _EXTENSION_CONTENT_TYPES : list (pystr * list pystr) :=
  [(cp "pdf", [cp "application/pdf"]);
   (cp "docx", [cp "application/vnd.openxmlformats-officedocument.wordprocessingml.document"]);
   (cp "pptx", [cp "application/vnd.openxmlformats-officedocument.presentationml.presentation"]);
   (cp "xlsx", [cp "application/vnd.openxmlformats-officedocument.spreadsheetml.sheet"]);
   (cp "txt", [cp "text/plain"]); (cp "md", [cp "text/markdown"]); (cp "wav", [cp "audio/wav"]);
   (cp "mp3", [cp "audio/mpeg"]); (cp "m4a", [cp "audio/mp4"]); (cp "aac", [cp "audio/aac"]);
   (cp "flac", [cp "audio/flac"]); (cp "ogg", [cp "audio/ogg"]);
   (cp "mp4", [cp "video/mp4"; cp "audio/mp4"]); (cp "webm", [cp "video/webm"; cp "audio/webm"])].
Definition _EXTENSION_MIME_ALIASES : list (pystr * list (pystr * pystr)) :=
  [(cp "m4a", [(cp "audio/x-m4a", cp "audio/mp4"); (cp "audio/m4a", cp "audio/mp4")]);
   (cp "mp3", [(cp "audio/mp3", cp "audio/mpeg")]);
   (cp "wav", [(cp "audio/vnd.wave", cp "audio/wav"); (cp "audio/x-wav", cp "audio/wav");
               (cp "audio/wave", cp "audio/wav")])].

Definition OCTET_STREAM : pystr := cp "application/octet-stream".

(** [s.rpartition(".")], when there is a dot: what is before and after the last. *)
Fixpoint rpartition_dot (s : pystr) : option (pystr * pystr) :=
  match s with
  | [] => None
  | c :: s' =>
      match rpartition_dot s' with
      | Some (a, b) => Some (c :: a, b)
      | None => if N.eqb c dot then Some ([], s') else None
      end
  end.

Section types.
Context (lower : pystr -> pystr).        (** [str.lower] *)

Definition normalize_content_type (content_type : pystr) : pystr :=
  lower (py_strip (py_partition 59%N content_type).1).

Definition canonical_content_type_for_filename (filename content_type : pystr)
    : res exn pystr :=
  let unsupported := Err (AppError Validation (cp "filename_extension_not_allowed")) in
  match rpartition_dot filename with
  | None => unsupported
  | Some (stem, extension) =>
      let extension := lower extension in
      match dict_get extension _EXTENSION_CONTENT_TYPES with
      | Some (first :: more) =>
          if bool_decide (stem = []) then unsupported
          else
            let declared := normalize_content_type content_type in
            if bool_decide (declared = OCTET_STREAM) then Ok first
            else if mem declared (first :: more) then Ok declared
            else match dict_get declared (default [] (dict_get extension _EXTENSION_MIME_ALIASES)) with
                 | Some alias => Ok alias
                 | None => Err (AppError Validation (cp "filename_content_type_mismatch"))
                 end
      | _ => unsupported
      end
  end.

Definition document_kind_for_content_type (content_type : pystr) : DocumentKind :=
  let declared := normalize_content_type content_type in
  if mem declared AUDIO_CONTENT_TYPES then AUDIO
  else if mem declared VIDEO_CONTENT_TYPES then VIDEO
  else DOCUMENT.

Definition validate_upload (size_bytes : Z) (content_type : pystr) (allowed : list pystr)
    (max_bytes : Z) : res exn unit :=
  if negb (mem (normalize_content_type content_type) (lower <$> allowed))
  then Err (AppError Validation (cp "content_type_not_allowed"))
  else if size_bytes <=? 0 then Err (AppError Validation (cp "empty_upload"))
  else if max_bytes <? size_bytes then Err (AppError Validation (cp "upload_too_large"))
  else Ok tt.
End types.

(** [_map_validation] *)
Definition _map_validation (e : exn) : exn :=
  match e with
  | AppError Validation code =>
      if mem code [cp "content_type_not_allowed"; cp "filename_extension_not_allowed"]
      then AppError UnsupportedMediaType code
      else if bool_decide (code = cp "upload_too_large") then AppError PayloadTooLarge code
      else e
  | _ => e
  end.
Definition map_err {A} (f : exn -> exn) (r : res exn A) : res exn A :=
  match r with Err e => Err (f e) | Ok a => Ok a end.

(** ** The session's rows *)

Inductive DocumentUploadState : Type :=
  INITIATED | COMPLETING | COMPLETED | ABORTED | EXPIRED | FAILED.
Global Instance DocumentUploadState_eq : EqDecision DocumentUploadState.
Proof. solve_decision. Defined.

Record DocumentUpload := mk_upload {
  u_id : uuid;
  u_document_id : uuid;
  u_owner_id : uuid;
  u_collection_id : uuid;
  u_filename : pystr;
  u_mime_type : pystr;
  u_size_bytes : Z;
  u_storage_key : pystr;
  u_provider_upload_id : pystr;
  u_state : DocumentUploadState;
  u_part_size_bytes : Z;
  u_part_count : Z;
  u_expires_at : Z;
  u_error : option pystr
}.

(** A [documents] row, created [PENDING]. *)
Record Document := mk_document {
  d_id : uuid;
  d_owner_id : uuid;
  d_collection_id : uuid;
  d_filename : pystr;
  d_mime_type : pystr;
  d_size_bytes : Z;
  d_storage_key : pystr;
  d_kind : DocumentKind;
  d_acl_enforced : bool
}.

(** An audit event: its resource, and the reason code or the [recovered] flag
    of its metadata. *)
Record event := mk_event {
  e_action : AuditAction;
  e_outcome : AuditOutcome;
  e_resource : uuid;
  e_code : option pystr
}.

Record db := mk_db {
  db_upload : option DocumentUpload;
  db_document : option Document;
  db_events : list event
}.

Definition set_state_of (s : DocumentUploadState) (error : option pystr) (u : DocumentUpload)
    : DocumentUpload :=
  mk_upload (u_id u) (u_document_id u) (u_owner_id u) (u_collection_id u) (u_filename u)
    (u_mime_type u) (u_size_bytes u) (u_storage_key u) (u_provider_upload_id u) s
    (u_part_size_bytes u) (u_part_count u) (u_expires_at u) error.

(** ** The object store *)

Record UploadedPart := mk_part { p_number : Z; p_etag : pystr; p_size_bytes : Z }.
Record StoredObjectMetadata := mk_stored {
  s_size_bytes : Z;
  s_content_type : pystr;
  s_metadata : list (pystr * pystr)
}.

(** S3 itself.  An absent upload or object is [None]. *)
Class ObjectStorage (store : Type) := {
  s3_create : pystr -> pystr -> list (pystr * pystr) -> store -> pystr * store;
  s3_put_part : pystr -> pystr -> UploadedPart -> store -> store;
  s3_list_parts : pystr -> pystr -> store -> option (list UploadedPart);
  s3_complete : pystr -> pystr -> list (Z * pystr) -> store -> option store;
  s3_abort : pystr -> pystr -> store -> store;
  s3_head : pystr -> store -> option StoredObjectMetadata;
  s3_delete : pystr -> store -> store
}.

(** What befalls a call: an outage or a death, before or after its effect. *)
Inductive fault : Type := Works | Down | DownAfter | DiesBefore | DiesAfter.

(** ** Requests

    A request reads and writes its transaction [w_db]; [w_committed] is what is
    durable.  [w_listeners] are the after-commit enqueues registered on its
    session, [w_queue] the ingestion jobs sent, [w_denials] the permission
    denials, which have transactions of their own. *)

Record world (store : Type) := mk_world {
  w_db : db;
  w_committed : db;
  w_store : store;
  w_listeners : list (uuid * bool);
  w_queue : list (uuid * bool);
  w_denials : list pystr;
  w_faults : list fault
}.
Arguments mk_world {store}.
Arguments w_db {store}. Arguments w_committed {store}. Arguments w_store {store}.
Arguments w_listeners {store}. Arguments w_queue {store}. Arguments w_denials {store}.
Arguments w_faults {store}.

Definition M (store A : Type) : Type := world store -> res exn A * world store.

Section monad.
Context {store : Type}.

Definition ret {A} (a : A) : M store A := fun w => (Ok a, w).
Definition raise {A} (e : exn) : M store A := fun w => (Err e, w).
Definition bind {A B} (m : M store A) (k : A -> M store B) : M store B :=
  fun w => match m w with
           | (Ok a, w) => k a w
           | (Err e, w) => (Err e, w)
           end.
(** [try: m except ...: handler]; the handler re-raises what it does not catch. *)
Definition catch {A} (m : M store A) (handler : exn -> M store A) : M store A :=
  fun w => match m w with
           | (Err e, w) => handler e w
           | r => r
           end.
Definition lift {A} (r : res exn A) : M store A := fun w => (r, w).

Definition read : M store db := fun w => (Ok (w_db w), w).
Definition rollback : M store unit := fun w =>
  (Ok tt, mk_world (w_committed w) (w_committed w) (w_store w) (w_listeners w) (w_queue w)
            (w_denials w) (w_faults w)).
(** [event.listen(session, "after_commit", ..., once=True)] *)
Definition listen (job : uuid * bool) : M store unit := fun w =>
  (Ok tt, mk_world (w_db w) (w_committed w) (w_store w) (w_listeners w ++ [job]) (w_queue w)
            (w_denials w) (w_faults w)).
Definition deny (action : pystr) : M store unit := fun w =>
  (Ok tt, mk_world (w_db w) (w_committed w) (w_store w) (w_listeners w) (w_queue w)
            (w_denials w ++ [action]) (w_faults w)).

Definition next_fault (w : world store) : fault * list fault :=
  match w_faults w with [] => (Works, []) | f :: fs => (f, fs) end.

(** [session.commit()].  The jobs are sent by the listeners, after the commit. *)
Definition commit : M store unit := fun w =>
  let '(f, fs) := next_fault w in
  let committed jobs := mk_world (w_db w) (w_db w) (w_store w) [] (w_queue w ++ jobs)
                          (w_denials w) fs in
  let failed := mk_world (w_db w) (w_committed w) (w_store w) (w_listeners w) (w_queue w)
                  (w_denials w) fs in
  match f with
  | Works => (Ok tt, committed (w_listeners w))
  | Down => (Err OtherError, failed)
  | DownAfter => (Err OtherError, committed [])
  | DiesBefore => (Err Died, failed)
  | DiesAfter => (Err Died, committed [])
  end.

(** A statement that is flushed to the database: it can fail, or be the last. *)
Definition flush (f : db -> db) : M store unit := fun w =>
  let '(ft, fs) := next_fault w in
  let done d := mk_world d (w_committed w) (w_store w) (w_listeners w) (w_queue w)
                  (w_denials w) fs in
  match ft with
  | Works => (Ok tt, done (f (w_db w)))
  | Down | DownAfter => (Err OtherError, done (w_db w))
  | DiesBefore | DiesAfter => (Err Died, done (w_db w))
  end.

(** A call to S3. *)
Definition provider {A} (call : store -> A * store) : M store A := fun w =>
  let '(f, fs) := next_fault w in
  let '(a, s) := call (w_store w) in
  let done s := mk_world (w_db w) (w_committed w) s (w_listeners w) (w_queue w)
                  (w_denials w) fs in
  match f with
  | Works => (Ok a, done s)
  | Down => (Err (AppError Dependency (cp "storage_unavailable")), done (w_store w))
  | DownAfter => (Err (AppError Dependency (cp "storage_unavailable")), done s)
  | DiesBefore => (Err Died, done (w_store w))
  | DiesAfter => (Err Died, done s)
  end.
End monad.

Global Instance M_ret store : MRet (M store) := @ret store.
Global Instance M_bind store : MBind (M store) := fun A B k m => bind m k.

Section service.
Context {store : Type} `{ObjectStorage store}.
Context (lower nfkc : pystr -> pystr) (str_uuid : uuid -> pystr).
(** The tenant of the service, as a string. *)
Context (tenant : pystr).

Abbreviation M := (M store).

(** ** The adapter *)

Definition key_exn (e : key_error) : exn :=
  match e with
  | InvalidTenantId => AppError Validation (cp "invalid_tenant_id")
  | CrossTenantDenied => AppError Forbidden (cp "cross_tenant_denied")
  end.
Definition key_ok (r : res key_error pystr) : res exn pystr :=
  match r with Ok k => Ok k | Err e => Err (key_exn e) end.
Definition owned (key : pystr) : M unit :=
  lift (match assert_key_owned_by key tenant with Ok _ => Ok tt | Err e => Err (key_exn e) end).

Definition object_metadata (upload_id document_id : uuid) : list (pystr * pystr) :=
  [(cp "lumen-upload-id", str_uuid upload_id); (cp "lumen-document-id", str_uuid document_id)].

Definition create_multipart_upload (document_id upload_id : uuid) (filename content_type : pystr)
    : M (pystr * pystr) :=
  key ← lift (key_ok (build_quarantine_key nfkc tenant (str_uuid document_id) filename));
  pid ← provider (s3_create key content_type (object_metadata upload_id document_id));
  ret (key, pid).

Definition list_multipart_parts (key pid : pystr) : M (list UploadedPart) :=
  owned key;;
  r ← provider (fun s => (s3_list_parts key pid s, s));
  match r with
  | Some parts => ret parts
  | None => raise (AppError NotFound (cp "multipart_upload_not_found"))
  end.

Definition head (key : pystr) : M StoredObjectMetadata :=
  owned key;;
  r ← provider (fun s => (s3_head key s, s));
  match r with
  | Some m => ret m
  | None => raise (AppError NotFound (cp "object_not_found"))
  end.

Definition complete_multipart_upload (key pid : pystr) (parts : list (Z * pystr))
    : M StoredObjectMetadata :=
  owned key;;
  r ← provider (fun s => match s3_complete key pid parts s with
                         | Some s' => (true, s')
                         | None => (false, s)
                         end);
  if (r : bool) then head key
  else raise (AppError NotFound (cp "multipart_upload_not_found")).

Definition abort_multipart_upload (key pid : pystr) : M unit :=
  owned key;; provider (fun s => (tt, s3_abort key pid s)).

Definition delete (key : pystr) : M unit :=
  owned key;; provider (fun s => (tt, s3_delete key s)).

(** [_storage_operation] *)
Definition _storage_operation {A} (operation : M A) : M A :=
  catch operation (fun e =>
    match e with
    | AppError NotFound code => raise (AppError ProviderNotFound code)
    | _ => raise e
    end).

(** ** Repositories *)

Definition get_for_owner (upload_id owner_id : uuid) : M (option DocumentUpload) :=
  d ← read;
  ret (match db_upload d with
       | Some u => if bool_decide (u_id u = upload_id) && bool_decide (u_owner_id u = owner_id)
                   then Some u else None
       | None => None
       end).

Definition set_state (upload_id owner_id : uuid) (state : DocumentUploadState)
    (error : option pystr) : M (option DocumentUpload) :=
  o ← get_for_owner upload_id owner_id;
  match o with
  | None => ret None
  | Some u =>
      let u := set_state_of state error u in
      flush (fun d => mk_db (Some u) (db_document d) (db_events d));;
      ret (Some u)
  end.

Definition documents_get (document_id : uuid) : M (option Document) :=
  d ← read;
  ret (match db_document d with
       | Some doc => if bool_decide (d_id doc = document_id) then Some doc else None
       | None => None
       end).

Definition emit (action : AuditAction) (outcome : AuditOutcome) (resource : uuid)
    (code : option pystr) : M unit :=
  flush (fun d => mk_db (db_upload d) (db_document d)
                    (db_events d ++ [mk_event action outcome resource code])).

(** ** Validation *)

Definition _is_valid_etag (etag : pystr) : bool :=
  (1 <=? length etag)%nat && (length etag <=? 512)%nat
  && forallb (fun c => (32 <=? c)%N && negb (N.eqb c 127)) etag.

Definition validation {A} (code : string) : res exn A := Err (AppError Validation (cp code)).

(** The first part that [_validate_provider_part_layout] refuses, from the part
    at [index] on. *)
Fixpoint check_layout (u : DocumentUpload) (index : Z) (provider : list UploadedPart)
    : res exn unit :=
  match provider with
  | [] => Ok tt
  | p :: provider =>
      let expected_size :=
        if index =? u_part_count u - 1
        then u_size_bytes u - u_part_size_bytes u * (u_part_count u - 1)
        else u_part_size_bytes u in
      if negb (p_number p =? index + 1) || negb (p_size_bytes p =? expected_size)
      then validation "invalid_provider_part_layout"
      else if negb (_is_valid_etag (p_etag p)) then validation "invalid_provider_part_etag"
      else check_layout u (index + 1) provider
  end.
Definition _validate_provider_part_layout (u : DocumentUpload) (provider : list UploadedPart)
    : res exn unit :=
  if negb (Z.of_nat (length provider) =? u_part_count u)
  then validation "incomplete_provider_parts"
  else check_layout u 0 provider.

(** The client's manifest: part numbers and ETags. *)
Abbreviation manifest := (list (Z * pystr)).

(** [zip(submitted, provider, strict=True)] *)
Fixpoint check_etags (submitted : manifest) (provider : list UploadedPart) : res exn unit :=
  match submitted, provider with
  | [], [] => Ok tt
  | c :: submitted, p :: provider =>
      if negb (bool_decide (p_etag p = c.2)) then validation "part_etag_mismatch"
      else check_etags submitted provider
  | _, _ => Err OtherError
  end.
Definition _validate_provider_parts (u : DocumentUpload) (submitted : manifest)
    (provider : list UploadedPart) : res exn unit :=
  _ ← _validate_provider_part_layout u provider; check_etags submitted provider.

Definition _validate_completion_manifest (u : DocumentUpload) (parts : manifest) : res exn unit :=
  if negb (bool_decide (parts.*1 = seqZ 1 (u_part_count u))) then validation "invalid_part_manifest"
  else if existsb (fun p => negb (_is_valid_etag p.2)) parts then validation "invalid_part_etag"
  else Ok tt.

(** ** The service

    The caller is [owner]; [now] is the clock of the request. *)

(** The deployment's settings; [admission] is the reason the process refuses
    new ingestion work, if it does. *)
Record settings := mk_settings {
  allowed_content_types : list pystr;
  max_document_bytes : Z;
  max_media_bytes : Z;
  part_size_bytes : Z;
  max_parts : Z;
  sign_batch_size : Z;
  session_ttl_seconds : Z;
  admission : option pystr
}.
Context (cfg : settings).

Record UploadSessionView := mk_view {
  v_upload : DocumentUpload;
  v_completed_parts : list UploadedPart;
  v_document : option Document
}.

(** [audited_resource(..., missing_result=True)] *)
Definition audited {A} (action : string) (operation : M (option A)) : M (option A) :=
  r ← catch operation (fun e =>
        match e with
        | AppError NotFound _ | AppError Forbidden _ => deny (cp action);; raise e
        | _ => raise e
        end);
  match r with
  | None => deny (cp action);; ret None
  | Some _ => ret r
  end.

Definition _is_expired (now : Z) (u : DocumentUpload) : bool :=
  (u_expires_at u <=? now) && mem (u_state u) [INITIATED; COMPLETING].

Definition _expire_if_needed (owner : uuid) (now : Z) (u : DocumentUpload) : M DocumentUpload :=
  if negb (_is_expired now u) then ret u
  else
    abort_multipart_upload (u_storage_key u) (u_provider_upload_id u);;
    delete (u_storage_key u);;
    expired ← set_state (u_id u) owner EXPIRED (Some (cp "upload_session_expired"));
    match expired with
    | None => raise OtherError
    | Some expired => emit DOCUMENT_UPLOAD_EXPIRED ERROR (u_id u) None;; ret expired
    end.

Definition _fail_completion (owner : uuid) (u : DocumentUpload) (code : string) : M unit :=
  set_state (u_id u) owner FAILED (Some (cp code));; delete (u_storage_key u).

Definition media (k : DocumentKind) : bool := match k with DOCUMENT => false | _ => true end.

Definition _finalize_verified (owner : uuid) (u : DocumentUpload) (stored : StoredObjectMetadata)
    (recovered : bool) : M Document :=
  if negb (s_size_bytes stored =? u_size_bytes u) then
    _fail_completion owner u "stored_size_mismatch";;
    raise (AppError Rejected (cp "stored_size_mismatch"))
  else if
    negb (bool_decide (normalize_content_type lower (s_content_type stored) = u_mime_type u))
    || negb (bool_decide (dict_get (cp "lumen-upload-id") (s_metadata stored)
                          = Some (str_uuid (u_id u))))
    || negb (bool_decide (dict_get (cp "lumen-document-id") (s_metadata stored)
                          = Some (str_uuid (u_document_id u))))
  then
    _fail_completion owner u "stored_metadata_mismatch";;
    raise (AppError Rejected (cp "stored_metadata_mismatch"))
  else
    existing ← documents_get (u_document_id u);
    match existing with
    | Some d => set_state (u_id u) owner COMPLETED None;; ret d
    | None =>
        let kind := document_kind_for_content_type lower (u_mime_type u) in
        let d := mk_document (u_document_id u) owner (u_collection_id u) (u_filename u)
                   (u_mime_type u) (s_size_bytes stored) (u_storage_key u) kind false in
        flush (fun t => mk_db (db_upload t) (Some d) (db_events t));;
        set_state (u_id u) owner COMPLETED None;;
        emit DOCUMENT_UPLOADED ALLOWED (d_id d) (if recovered then Some (cp "recovered") else None);;
        listen (d_id d, media kind);;
        ret d
    end.

(** [head], or else complete the provider's upload from parts that [manifest_of]
    accepts. *)
Definition head_or_complete (u : DocumentUpload)
    (manifest_of : list UploadedPart -> res exn manifest) : M StoredObjectMetadata :=
  catch (head (u_storage_key u)) (fun e =>
    match e with
    | AppError NotFound _ =>
        provider_parts ← _storage_operation
          (list_multipart_parts (u_storage_key u) (u_provider_upload_id u));
        parts ← lift (manifest_of provider_parts);
        _storage_operation
          (complete_multipart_upload (u_storage_key u) (u_provider_upload_id u) parts)
    | _ => raise e
    end).

Definition _complete_from_completing (owner : uuid) (u : DocumentUpload) (parts : manifest)
    (recovered : bool) : M Document :=
  stored ← head_or_complete u (fun provider =>
             _ ← _validate_provider_parts u parts provider; Ok parts);
  _finalize_verified owner u stored recovered.

Definition _recover_completing_upload (owner : uuid) (u : DocumentUpload) : M Document :=
  stored ← head_or_complete u (fun provider =>
             _ ← _validate_provider_part_layout u provider;
             Ok ((fun p => (p_number p, p_etag p)) <$> provider));
  _finalize_verified owner u stored true.

(** [recover_completing], the janitor's entry *)
Definition recover_completing (owner upload_id : uuid) : M (option Document) :=
  audited "document_upload.recover" (
    o ← get_for_owner upload_id owner;
    match o with
    | None => ret None
    | Some u =>
        match u_state u with
        | COMPLETED => documents_get (u_document_id u)
        | COMPLETING => d ← _recover_completing_upload owner u; ret (Some d)
        | _ => raise (AppError Conflict (cp "upload_state_conflict"))
        end
    end).

Definition _view (u : DocumentUpload) : M UploadSessionView :=
  document ← (if bool_decide (u_state u = COMPLETED) then documents_get (u_document_id u)
              else ret None);
  completed ← (if bool_decide (u_state u = INITIATED)
               then _storage_operation
                      (list_multipart_parts (u_storage_key u) (u_provider_upload_id u))
               else ret []);
  ret (mk_view u completed document).

(** [get] and [_prepare]: the session, recovered or expired when that is due. *)
Definition current (owner : uuid) (now : Z) (upload_id : uuid)
    (view : DocumentUpload -> M UploadSessionView) : M (option UploadSessionView) :=
  o ← get_for_owner upload_id owner;
  match o with
  | None => ret None
  | Some u =>
      if bool_decide (u_state u = COMPLETING) then
        d ← _recover_completing_upload owner u;
        refreshed ← get_for_owner (u_id u) owner;
        match refreshed with
        | None => raise OtherError
        | Some u => ret (Some (mk_view u [] (Some d)))
        end
      else
        u ← _expire_if_needed owner now u;
        v ← view u;
        ret (Some v)
  end.
Definition get (owner : uuid) (now : Z) (upload_id : uuid) : M (option UploadSessionView) :=
  audited "document_upload.read" (current owner now upload_id _view).
Definition prepare (action : string) (owner : uuid) (now : Z) (upload_id : uuid)
    : M (option UploadSessionView) :=
  audited action (current owner now upload_id (fun u => ret (mk_view u [] None))).

(** [sign_parts]: the part numbers that get a signed URL. *)
Definition sign_parts (owner : uuid) (now : Z) (upload_id : uuid) (part_numbers : list Z)
    : M (option (list Z)) :=
  audited "document_upload.sign_parts" (
    o ← get_for_owner upload_id owner;
    match o with
    | None => ret None
    | Some u =>
        if _is_expired now u then raise (AppError Conflict (cp "upload_session_expired"))
        else if negb (bool_decide (u_state u = INITIATED))
        then raise (AppError Conflict (cp "upload_state_conflict"))
        else if bool_decide (part_numbers = [])
                || (sign_batch_size cfg <? Z.of_nat (length part_numbers))
                || negb (Nat.eqb (length (remove_dups part_numbers)) (length part_numbers))
        then lift (validation "invalid_part_batch")
        else if existsb (fun p => (p <? 1) || (u_part_count u <? p)) part_numbers
        then lift (validation "part_number_out_of_range")
        else owned (u_storage_key u);; ret (Some part_numbers)
    end).

Definition abort (owner upload_id : uuid) : M (option unit) :=
  audited "document_upload.abort" (
    o ← get_for_owner upload_id owner;
    match o with
    | None => ret None
    | Some u =>
        match u_state u with
        | COMPLETED => raise (AppError Conflict (cp "upload_state_conflict"))
        | ABORTED | EXPIRED => ret (Some tt)
        | _ =>
            abort_multipart_upload (u_storage_key u) (u_provider_upload_id u);;
            delete (u_storage_key u);;
            set_state (u_id u) owner ABORTED None;;
            emit DOCUMENT_UPLOAD_ABORTED ALLOWED (u_id u) None;;
            ret (Some tt)
        end
    end).

(** [complete], up to its commit of the [COMPLETING] state (the result is
    [inr tt] then) ... *)
Definition complete_begin (owner : uuid) (now : Z) (upload_id : uuid) (parts : manifest)
    : M (option (Document + unit)) :=
  o ← get_for_owner upload_id owner;
  match o with
  | None => ret None
  | Some u =>
      if bool_decide (u_state u = COMPLETED)
      then d ← documents_get (u_document_id u); ret (inl <$> d)
      else if _is_expired now u then raise (AppError Conflict (cp "upload_session_expired"))
      else
        lift (_validate_completion_manifest u parts);;
        match u_state u with
        | COMPLETING => d ← _complete_from_completing owner u parts true; ret (Some (inl d))
        | INITIATED =>
            provider_parts ← _storage_operation
              (list_multipart_parts (u_storage_key u) (u_provider_upload_id u));
            lift (_validate_provider_parts u parts provider_parts);;
            set_state (u_id u) owner COMPLETING None;;
            commit;;
            ret (Some (inr tt))
        | _ => raise (AppError Conflict (cp "upload_state_conflict"))
        end
  end.

(** ... and from there, with the lock taken again. *)
Definition complete_finish (owner upload_id : uuid) (parts : manifest) : M (option Document) :=
  o ← get_for_owner upload_id owner;
  match o with
  | None => ret None
  | Some u =>
      match u_state u with
      | COMPLETED => documents_get (u_document_id u)
      | COMPLETING => d ← _complete_from_completing owner u parts false; ret (Some d)
      | _ => raise (AppError Conflict (cp "upload_state_conflict"))
      end
  end.

Record initiation := mk_initiation {
  i_collection_id : uuid;
  i_filename : pystr;
  i_mime_type : pystr;
  i_size_bytes : Z;
  i_upload_id : uuid;               (** the two [uuid4()] *)
  i_document_id : uuid
}.

(** [math.ceil(size_bytes / part_size)], which is exact below 2^53. *)
Definition ceil_div (a b : Z) : Z := - (- a / b).

(** The checks of [initiate]: the type and the number of parts. *)
Definition admit_upload (i : initiation) : res exn (pystr * pystr * Z) :=
  if (512 <? length (i_filename i))%nat then validation "invalid_filename"
  else if (255 <? length (i_mime_type i))%nat then validation "invalid_mime_type"
  else
    let filename := py_strip (i_filename i) in
    if bool_decide (filename = []) then validation "missing_filename"
    else
      mime_type ← map_err _map_validation
                    (canonical_content_type_for_filename lower filename (i_mime_type i));
      let cap := if media (document_kind_for_content_type lower mime_type)
                 then max_media_bytes cfg else max_document_bytes cfg in
      _ ← map_err _map_validation
            (validate_upload lower (i_size_bytes i) mime_type (allowed_content_types cfg) cap);
      let part_count := ceil_div (i_size_bytes i) (part_size_bytes cfg) in
      if max_parts cfg <? part_count
      then Err (AppError PayloadTooLarge (cp "too_many_upload_parts"))
      else match admission cfg with
           | Some code => Err (AppError Dependency code)
           | None => Ok (filename, mime_type, part_count)
           end.

(** [collection_owner] is the owner of the locked collection, if it exists. *)
Definition initiate (owner : uuid) (now : Z) (collection_owner : option uuid) (i : initiation)
    : M (option UploadSessionView) :=
  audited "document.upload" (
    if negb (bool_decide (collection_owner = Some owner)) then ret None
    else
      a ← lift (admit_upload i);
      let '(filename, mime_type, part_count) := a in
      m ← create_multipart_upload (i_document_id i) (i_upload_id i) filename
            (normalize_content_type lower mime_type);
      let '(key, pid) := m in
      let u := mk_upload (i_upload_id i) (i_document_id i) owner (i_collection_id i) filename
                 (normalize_content_type lower mime_type) (i_size_bytes i) key pid INITIATED
                 (part_size_bytes cfg) part_count (now + session_ttl_seconds cfg) None in
      catch
        (flush (fun d => mk_db (Some u) (db_document d) (db_events d));;
         emit DOCUMENT_UPLOAD_STARTED ALLOWED (i_upload_id i) None;;
         ret (Some (mk_view u [] None)))
        (fun e => match e with
                  | Died => raise e
                  | _ => abort_multipart_upload key pid;; raise e
                  end)).

(** ** The endpoints *)

(** [audit_rejection] *)
Definition audit_rejection (action : AuditAction) (resource : uuid) (code : pystr) : M unit :=
  emit action ERROR resource (Some code).

Definition _commit_rejection (action : AuditAction) (resource : uuid) (code : pystr)
    (permission_denied preserve_transaction : bool) : M unit :=
  (if preserve_transaction then ret tt else rollback);;
  if permission_denied then ret tt
  else audit_rejection action resource code;; commit.

(** A service call of an endpoint: its [except] clauses and its 404. *)
Definition guarded {A} (action : AuditAction) (resource : uuid) (call : M (option A)) : M A :=
  r ← catch call (fun e =>
        match e with
        | AppError Rejected code => _commit_rejection action resource code false true;; raise e
        | AppError _ code => _commit_rejection action resource code false false;; raise e
        | _ => raise e
        end);
  match r with
  | Some a => ret a
  | None => _commit_rejection action resource (cp "not_found") true false;;
            raise (AppError NotFound (cp "not_found"))
  end.

(** A conflict that commits what the preparation did. *)
Definition conflict {A} (action : AuditAction) (resource : uuid) (code : string) : M A :=
  audit_rejection action resource (cp code);; commit;; raise (AppError Conflict (cp code)).

Definition initiate_upload (owner : uuid) (now : Z) (collection_owner : option uuid)
    (i : initiation) : M UploadSessionView :=
  v ← guarded DOCUMENT_UPLOAD_STARTED (i_collection_id i) (initiate owner now collection_owner i);
  catch (commit;; ret v) (fun e =>
    match e with
    | Died => raise e
    | _ => rollback;;
           abort_multipart_upload (u_storage_key (v_upload v)) (u_provider_upload_id (v_upload v));;
           raise e
    end).

Definition get_upload (owner : uuid) (now : Z) (upload_id : uuid) : M UploadSessionView :=
  v ← guarded DOCUMENT_VIEWED upload_id (get owner now upload_id);
  commit;;
  ret v.

Definition sign_parts_endpoint (owner : uuid) (now : Z) (upload_id : uuid) (part_numbers : list Z)
    : M (list Z) :=
  let action := DOCUMENT_UPLOAD_STARTED in
  v ← guarded action upload_id (prepare "document_upload.sign_parts" owner now upload_id);
  match u_state (v_upload v) with
  | EXPIRED => conflict action upload_id "upload_session_expired"
  | COMPLETED => conflict action upload_id "upload_state_conflict"
  | _ => guarded action upload_id (sign_parts owner now upload_id part_numbers)
  end.

Definition abort_upload (owner : uuid) (now : Z) (upload_id : uuid) : M unit :=
  let action := DOCUMENT_UPLOAD_ABORTED in
  v ← guarded action upload_id (prepare "document_upload.abort" owner now upload_id);
  match u_state (v_upload v) with
  | EXPIRED => commit
  | COMPLETED => conflict action upload_id "upload_state_conflict"
  | _ => guarded action upload_id (abort owner upload_id);; commit
  end.

(** [complete_upload], up to the commit in the middle of [complete] ... *)
Definition complete_upload_begin (owner : uuid) (now : Z) (upload_id : uuid) (parts : manifest)
    : M (Document + unit) :=
  let action := DOCUMENT_UPLOADED in
  v ← guarded action upload_id (prepare "document_upload.complete" owner now upload_id);
  match u_state (v_upload v) with
  | EXPIRED => conflict action upload_id "upload_session_expired"
  | _ =>
      r ← guarded action upload_id
            (audited "document_upload.complete" (complete_begin owner now upload_id parts));
      match r with
      | inl d => commit;; ret (inl d)
      | inr _ => ret (inr tt)
      end
  end.
(** ... and from there. *)
Definition complete_upload_finish (owner upload_id : uuid) (parts : manifest) : M Document :=
  d ← guarded DOCUMENT_UPLOADED upload_id
        (audited "document_upload.complete" (complete_finish owner upload_id parts));
  commit;;
  ret d.
Definition complete_upload (owner : uuid) (now : Z) (upload_id : uuid) (parts : manifest)
    : M Document :=
  r ← complete_upload_begin owner now upload_id parts;
  match r with
  | inl d => ret d
  | inr _ => complete_upload_finish owner upload_id parts
  end.

(** ** The janitor *)

Definition permanent_codes : list pystr :=
  [cp "incomplete_provider_parts"; cp "invalid_provider_part_layout";
   cp "invalid_provider_part_etag"].

(** The recovery of an expired session that is completing: [None] when the
    candidate is done with, else the reason it expires for. *)
Definition sweep_recovery (owner upload_id : uuid) : M (option pystr) :=
  catch (recover_completing owner upload_id;; ret None) (fun e =>
    match e with
    | AppError NotFound _ | AppError ProviderNotFound _ => ret (Some (cp "upload_session_expired"))
    | AppError Validation code => if mem code permanent_codes then ret (Some code) else raise e
    | AppError Rejected code => audit_rejection DOCUMENT_UPLOADED upload_id code;; ret None
    | _ => raise e
    end).

(** One candidate of [sweep_expired_uploads_async], in its transaction. *)
Definition sweep_one (owner : uuid) (moment : Z) (upload_id : uuid) : M unit :=
  catch
    (o ← get_for_owner upload_id owner;
     match o with
     | None => ret tt
     | Some u =>
         if negb (mem (u_state u) [INITIATED; COMPLETING]) || (moment <? u_expires_at u) then ret tt
         else
           reason ← (if bool_decide (u_state u = COMPLETING)
                     then sweep_recovery owner upload_id
                     else ret (Some (cp "upload_session_expired")));
           match reason with
           | None => ret tt
           | Some reason =>
               abort_multipart_upload (u_storage_key u) (u_provider_upload_id u);;
               delete (u_storage_key u);;
               set_state (u_id u) owner EXPIRED (Some reason);;
               emit DOCUMENT_UPLOAD_EXPIRED ERROR (u_id u)
                 (if bool_decide (reason = cp "upload_session_expired") then None else Some reason)
           end
     end;;
     commit)
    (fun e => match e with AppError Dependency _ => ret tt | _ => raise e end).

(** ** Deletion of the collection

    [CollectionsService.delete] and its endpoint, as far as this session goes: an
    active upload is aborted at the provider before its row goes; then the cascade
    takes the row and the document, whose object is deleted, as far as the store
    answers, before the endpoint commits. *)
Definition drop_session (owner collection : uuid) : M unit :=
  d ← read;
  (match db_upload d with
   | Some u =>
       if mem (u_state u) [INITIATED; COMPLETING] then
         abort_multipart_upload (u_storage_key u) (u_provider_upload_id u);;
         delete (u_storage_key u);;
         set_state (u_id u) owner ABORTED (Some (cp "collection_deleted"));;
         emit DOCUMENT_UPLOAD_ABORTED ALLOWED (u_id u) (Some (cp "collection_deleted"));;
         flush (fun d => mk_db None (db_document d) (db_events d))
       else ret tt
   | None => ret tt
   end);;
  d ← read;
  flush (fun d => mk_db None None (db_events d));;
  emit COLLECTION_DELETED ALLOWED collection None;;
  (match db_document d with
   | Some doc =>
       emit DOCUMENT_DELETED ALLOWED (d_id doc) None;;
       catch (delete (d_storage_key doc)) (fun e =>
         match e with Died => raise e | _ => ret tt end)
   | None => ret tt
   end);;
  commit.

(** ** Deletion of the document

    [DocumentService.delete] and its endpoint: the row of the document and the
    session's go in one flush, then the object, whose failure is the request's, and
    the endpoint commits.  A direct upload's key is its own, so no other document
    refers to the object. *)
Definition delete_document (owner document_id : uuid) : M unit :=
  r ← audited "document.delete"
        (o ← documents_get document_id;
         match o with
         | None => ret None
         | Some doc =>
             if bool_decide (d_owner_id doc = owner) then
               flush (fun d => mk_db (match db_upload d with
                                      | Some u => if bool_decide (u_document_id u = document_id)
                                                  then None else Some u
                                      | None => None
                                      end) None (db_events d));;
               delete (d_storage_key doc);;
               emit DOCUMENT_DELETED ALLOWED document_id None;;
               ret (Some tt)
             else ret None
         end);
  match r with
  | None => raise (AppError NotFound (cp "not_found"))
  | Some _ => commit
  end.

(** ** Steps *)

(** A request in a session of its own: its transaction starts from what is
    committed, and what it leaves uncommitted is lost. *)
Definition run {A} (m : M A) (faults : list fault) (w : world store) : res exn A * world store :=
  let '(r, w) := m (mk_world (w_committed w) (w_committed w) (w_store w) [] (w_queue w)
                      (w_denials w) faults) in
  (r, mk_world (w_committed w) (w_committed w) (w_store w) [] (w_queue w) (w_denials w) []).

(** A [complete] that has committed [COMPLETING] and waits for the lock. *)
Record inflight := mk_inflight { f_owner : uuid; f_upload_id : uuid; f_parts : manifest }.

Record system := mk_system {
  y_world : world store;
  y_inflight : list inflight;
  y_gone : bool   (** a deletion of the document, or of the collection with the
                      session in it, was begun *)
}.

(** Whether a deletion that took the rows from [before] to [after] was begun: it
    found a document, or it took the session away. *)
Definition begun (before after : db) (gone : bool) : bool :=
  match db_upload before, db_upload after with
  | None, _ => gone
  | Some _, None => true
  | Some u, Some _ => gone || bool_decide (u_state u = COMPLETED)
  end.

Inductive sys_step : system -> system -> Prop :=
| y_initiate owner now collection_owner i faults w fl :
    db_upload (w_committed w) = None ->
    sys_step (mk_system w fl false)
         (mk_system (run (initiate_upload owner now collection_owner i) faults w).2 fl false)
| y_put_part u part w fl gone :
    db_upload (w_committed w) = Some u ->
    sys_step (mk_system w fl gone)
         (mk_system (mk_world (w_db w) (w_committed w)
            (s3_put_part (u_storage_key u) (u_provider_upload_id u) part (w_store w))
            (w_listeners w) (w_queue w) (w_denials w) (w_faults w)) fl gone)
| y_get owner now id faults w fl gone :
    sys_step (mk_system w fl gone) (mk_system (run (get_upload owner now id) faults w).2 fl gone)
| y_sign owner now id parts faults w fl gone :
    sys_step (mk_system w fl gone)
         (mk_system (run (sign_parts_endpoint owner now id parts) faults w).2 fl gone)
| y_abort owner now id faults w fl gone :
    sys_step (mk_system w fl gone) (mk_system (run (abort_upload owner now id) faults w).2 fl gone)
| y_complete owner now id parts faults w w' r fl gone :
    run (complete_upload_begin owner now id parts) faults w = (r, w') ->
    sys_step (mk_system w fl gone)
         (mk_system w' (match r with Ok (inr _) => mk_inflight owner id parts :: fl | _ => fl end) gone)
| y_finish f faults w fl fl' gone :
    sys_step (mk_system w (fl ++ f :: fl') gone)
         (mk_system (run (complete_upload_finish (f_owner f) (f_upload_id f) (f_parts f)) faults w).2
            (fl ++ fl') gone)
| y_sweep owner moment id faults w fl gone :
    sys_step (mk_system w fl gone) (mk_system (run (sweep_one owner moment id) faults w).2 fl gone)
| y_drop owner collection faults w fl gone :
    (* the owner of the collection, who opened the session *)
    (forall u, db_upload (w_committed w) = Some u -> u_owner_id u = owner) ->
    let w' := (run (drop_session owner collection) faults w).2 in
    sys_step (mk_system w fl gone) (mk_system w' fl (begun (w_committed w) (w_committed w') gone))
| y_delete owner id faults w fl gone :
    let w' := (run (delete_document owner id) faults w).2 in
    sys_step (mk_system w fl gone) (mk_system w' fl (begun (w_committed w) (w_committed w') gone)).

Inductive sys_reachable (s : store) : system -> Prop :=
| y_start : let d := mk_db None None [] in
    sys_reachable s (mk_system (mk_world d d s [] [] [] []) [] false)
| y_more y y' : sys_reachable s y -> sys_step y y' -> sys_reachable s y'.
End service.

(** What the development relies on of S3: deleting and aborting are final, a
    part of an upload that is gone is refused, and completing an upload from all
    of its parts makes an object of their bytes with what it was created with.
    [s3_live] is the declaration of an upload that is neither aborted nor
    completed. *)
Class ObjectStorageLaws (store : Type) `{ObjectStorage store} := {
  s3_live : pystr -> pystr -> store -> option (pystr * list (pystr * pystr));
  head_delete k s : s3_head k (s3_delete k s) = None;
  head_abort k p s : s3_head k (s3_abort k p s) = s3_head k s;
  head_put k p part s : s3_head k (s3_put_part k p part s) = s3_head k s;
  list_live k p s : s3_list_parts k p s = None <-> s3_live k p s = None;
  live_create k ct meta s : let '(p, s') := s3_create k ct meta s in
    s3_live k p s' = Some (ct, meta);
  live_put k p part s : s3_live k p (s3_put_part k p part s) = s3_live k p s;
  live_delete k p s : s3_live k p (s3_delete k s) = s3_live k p s;
  live_abort k p s : s3_live k p (s3_abort k p s) = None;
  live_complete k p l s s' : s3_complete k p l s = Some s' -> s3_live k p s' = None;
  complete_all k p s parts ct meta :
    s3_list_parts k p s = Some parts -> parts <> [] -> s3_live k p s = Some (ct, meta) ->
    exists s', s3_complete k p ((fun x => (p_number x, p_etag x)) <$> parts) s = Some s'
      /\ s3_head k s' = Some (mk_stored (foldr Z.add 0 (p_size_bytes <$> parts)) ct meta)
}.

(** ** Hoare-style rules for requests *)

Section rules.
Context {store : Type} `{ObjectStorage store}.
Abbreviation M := (M store).
Abbreviation world := (world store).

Definition wp {A} (m : M A) (Q : res exn A -> world -> Prop) (w : world) : Prop :=
  let '(r, w') := m w in Q r w'.

Lemma up_bind {A B} (m : M A) (k : A -> M B) Q w :
  wp m (fun r w => match r with Ok a => wp (k a) Q w | Err e => Q (Err e) w end) w ->
  wp (m ≫= k) Q w.
Proof.
  unfold wp, mbind, M_bind, bind. intros Hm. destruct (m w) as [[a|e] w']; [|done].
  by destruct (k a w').
Qed.

Lemma up_catch {A} (m : M A) h Q w :
  wp m (fun r w => match r with Ok a => Q (Ok a) w | Err e => wp (h e) Q w end) w ->
  wp (catch m h) Q w.
Proof.
  unfold wp, catch. intros Hm. destruct (m w) as [[a|e] w']; [done|]. by destruct (h e w').
Qed.

Lemma up_mono {A} (m : M A) (Q Q' : res exn A -> world -> Prop) w :
  wp m Q w -> (forall r w, Q r w -> Q' r w) -> wp m Q' w.
Proof. unfold wp. destruct (m w). auto. Qed.

Lemma wp_flush f Q d c s l q n fs :
  (forall fs, Q (Ok tt) (mk_world (f d) c s l q n fs)) ->
  (forall fs e, (forall k code, e <> AppError k code) -> Q (Err e) (mk_world d c s l q n fs)) ->
  wp (flush f) Q (mk_world d c s l q n fs).
Proof.
  intros Hok Herr. unfold wp, flush, next_fault. simpl.
  destruct fs as [|[] fs]; simpl; auto; by apply Herr.
Qed.

Lemma wp_commit Q d c s l q n fs :
  (forall fs, Q (Ok tt) (mk_world d d s [] (q ++ l) n fs)) ->
  (forall fs e, (forall k code, e <> AppError k code) -> Q (Err e) (mk_world d c s l q n fs)) ->
  (forall fs e, (forall k code, e <> AppError k code) -> Q (Err e) (mk_world d d s [] (q ++ []) n fs)) ->
  wp commit Q (mk_world d c s l q n fs).
Proof.
  intros Hok Hno Hyes. unfold wp, commit, next_fault. simpl.
  destruct fs as [|[] fs]; simpl; auto; first [by apply Hno | by apply Hyes].
Qed.

(** A call to the store answers, fails with an outage, or is the last; the store
    is left as it was or as the call leaves it. *)
Lemma wp_provider {A} (call : store -> A * store) Q d c s l q n fs :
  (forall fs, Q (Ok (call s).1) (mk_world d c (call s).2 l q n fs)) ->
  (forall fs e s', s' = s \/ s' = (call s).2 ->
     e = AppError Dependency (cp "storage_unavailable") \/ e = Died ->
     Q (Err e) (mk_world d c s' l q n fs)) ->
  wp (provider call) Q (mk_world d c s l q n fs).
Proof.
  intros Hok Herr. unfold wp, provider, next_fault. simpl. destruct (call s) as [a s'].
  destruct fs as [|[] fs]; simpl; auto.
Qed.
End rules.

(** ** What holds of the session at every commit *)

Section invariant.
Context {store : Type} `{ObjectStorageLaws store}.
Context (lower nfkc : pystr -> pystr) (str_uuid : uuid -> pystr) (tenant : pystr) (cfg : settings).
Abbreviation M := (M store).
Abbreviation world := (world store).

(** The parts of the session cover its size: all full but the last, which is not
    empty. *)
Definition geometry (u : DocumentUpload) : Prop :=
  0 < u_part_size_bytes u /\ 0 < u_size_bytes u
  /\ (u_part_count u - 1) * u_part_size_bytes u < u_size_bytes u
     <= u_part_count u * u_part_size_bytes u.

Definition document_of (u : DocumentUpload) : Document :=
  mk_document (u_document_id u) (u_owner_id u) (u_collection_id u) (u_filename u)
    (u_mime_type u) (u_size_bytes u) (u_storage_key u)
    (document_kind_for_content_type lower (u_mime_type u)) false.
Definition job_of (u : DocumentUpload) : uuid * bool :=
  (u_document_id u, media (document_kind_for_content_type lower (u_mime_type u))).

Definition uploaded_events (es : list event) : nat :=
  length (List.filter (fun e => match e_action e, e_outcome e with
                                | DOCUMENT_UPLOADED, ALLOWED => true | _, _ => false end) es).

(** The object the session is for. *)
Definition object_of (u : DocumentUpload) (m : StoredObjectMetadata) : Prop :=
  s_size_bytes m = u_size_bytes u
  /\ normalize_content_type lower (s_content_type m) = u_mime_type u
  /\ dict_get (cp "lumen-upload-id") (s_metadata m) = Some (str_uuid (u_id u))
  /\ dict_get (cp "lumen-document-id") (s_metadata m) = Some (str_uuid (u_document_id u)).

Definition gone_object (u : DocumentUpload) (s : store) : Prop :=
  s3_head (u_storage_key u) s = None.
Definition gone_parts (u : DocumentUpload) (s : store) : Prop :=
  s3_live (u_storage_key u) (u_provider_upload_id u) s = None.

(** What goes with each state; [jobs] are the ingestion jobs.  The object of a
    document goes only where a deletion was begun. *)
Definition state_ok (gone : bool) (u : DocumentUpload) (d : db) (s : store) (jobs : list (uuid * bool)) : Prop :=
  match u_state u with
  | COMPLETED =>
      db_document d = Some (document_of u) /\ uploaded_events (db_events d) = 1%nat
      /\ (jobs = [] \/ jobs = [job_of u])
      /\ ((exists m, s3_head (u_storage_key u) s = Some m /\ object_of u m)
          \/ gone = true /\ gone_object u s)
  | st =>
      db_document d = None /\ uploaded_events (db_events d) = 0%nat /\ jobs = []
      /\ match st with
         | ABORTED | EXPIRED => gone_object u s /\ gone_parts u s
         | FAILED => gone_object u s
         | _ => True
         end
  end.

Definition declared_ok (u : DocumentUpload) (s : store) : Prop :=
  forall ct meta, s3_live (u_storage_key u) (u_provider_upload_id u) s = Some (ct, meta) ->
    ct = u_mime_type u /\ meta = object_metadata str_uuid (u_id u) (u_document_id u).

Definition session_ok (gone : bool) (d : db) (s : store) (jobs : list (uuid * bool)) : Prop :=
  match db_upload d with
  | Some u =>
      geometry u /\ assert_key_owned_by (u_storage_key u) tenant = Ok tt
      /\ normalize_content_type lower (u_mime_type u) = u_mime_type u
      /\ declared_ok u s /\ state_ok gone u d s jobs
  | None =>
      db_document d = None
      /\ (gone = false -> uploaded_events (db_events d) = 0%nat /\ jobs = [])
  end.

(** The moves of one transaction; [dropping], it is one that drops the session. *)
Definition allowed (s s' : DocumentUploadState) : bool :=
  match s, s' with
  | INITIATED, (INITIATED | COMPLETING | ABORTED | EXPIRED) => true
  | COMPLETING, (COMPLETING | COMPLETED | FAILED | EXPIRED) => true
  | FAILED, (FAILED | ABORTED) => true
  | COMPLETED, COMPLETED | ABORTED, ABORTED | EXPIRED, EXPIRED => true
  | _, _ => false
  end.
Definition moved (dropping : bool) (d d' : db) : Prop :=
  match db_upload d with
  | Some u =>
      (exists s e, db_upload d' = Some (set_state_of s e u)
                   /\ allowed (u_state u) s || dropping = true)
      \/ dropping = true /\ db_upload d' = None
  | None => True
  end.

Section transaction.
(** The committed rows at the start of the request. *)
Context (gone dropping : bool) (d0 : db).

(** Nothing written yet. *)
Definition clean (w : world) : Prop :=
  w_db w = w_committed w /\ db_upload (w_committed w) = db_upload d0 /\ w_listeners w = []
  /\ session_ok gone (w_committed w) (w_store w) (w_queue w).
(** What is committed is in order, ... *)
Definition held (w : world) : Prop :=
  moved dropping d0 (w_committed w) /\ session_ok gone (w_committed w) (w_store w) (w_queue w).
(** ... and so is what would be committed now. *)
Definition good (w : world) : Prop :=
  held w /\ moved dropping d0 (w_db w)
  /\ session_ok gone (w_db w) (w_store w) (w_queue w ++ w_listeners w).

Definition failed (e : exn) (w : world) : Prop :=
  match e with
  | AppError Rejected _ => good w
  | AppError Dependency _ => held w /\ w_listeners w = []
  | AppError _ _ => clean w
  | _ => held w
  end.
Definition post {A} (Q : A -> world -> Prop) (r : res exn A) (w : world) : Prop :=
  match r with Ok a => Q a w | Err e => failed e w end.

Lemma set_state_of_same u : set_state_of (u_state u) (u_error u) u = u.
Proof. by destruct u. Qed.
Lemma allowed_refl s : allowed s s = true.
Proof. by destruct s. Qed.
Lemma moved_refl d : db_upload d = db_upload d0 -> moved dropping d0 d.
Proof.
  unfold moved. intros ->. destruct (db_upload d0) as [u|]; [|done].
  left. exists (u_state u), (u_error u). by rewrite set_state_of_same, allowed_refl.
Qed.

Lemma clean_held w : clean w -> held w.
Proof. intros (_ & Hd & _ & Hok). split; [by apply moved_refl|done]. Qed.
Lemma clean_good w : clean w -> good w.
Proof.
  intros Hc. pose proof (clean_held _ Hc). destruct Hc as (Hdb & Hd & Hl & Hok).
  split; [done|]. rewrite Hdb, Hl, app_nil_r. split; [by apply moved_refl|done].
Qed.
Lemma clean_failed k code w : clean w -> failed (AppError k code) w.
Proof.
  intros Hc. destruct k; simpl; auto using clean_good.
  split; [by apply clean_held|]. apply Hc.
Qed.
Lemma held_failed e w : (forall k code, e <> AppError k code) -> held w -> failed e w.
Proof. destruct e; simpl; [|done..]. intros H1. by destruct (H1 k code). Qed.

Lemma wp_bind_post {A B} (m : M A) (k : A -> M B) (R : A -> world -> Prop) Q w :
  wp m (post R) w -> (forall a w, R a w -> wp (k a) (post Q) w) -> wp (m ≫= k) (post Q) w.
Proof.
  intros Hm Hk. apply up_bind. eapply up_mono; [exact Hm|]. intros [a|e] w'; simpl; auto.
Qed.

(** The store may change under a session that is not over. *)
Lemma session_ok_store d u s s' jobs :
  db_upload d = Some u -> u_state u ∈ [INITIATED; COMPLETING; FAILED] ->
  declared_ok u s' -> (u_state u = FAILED -> gone_object u s') ->
  session_ok gone d s jobs -> session_ok gone d s' jobs.
Proof.
  unfold session_ok. intros -> Hst Hdecl Hgone (? & ? & ? & ? & Hok). split_and!; auto.
  unfold state_ok in *. destruct (u_state u) eqn:Hu; try set_solver; naive_solver.
Qed.

(** A clean world whose row is [u], which is not over. *)
Definition open (u : DocumentUpload) (w : world) : Prop :=
  clean w /\ db_upload (w_db w) = Some u /\ u_state u ∈ [INITIATED; COMPLETING; FAILED].

Lemma clean_store d u s s' q n fs fs' :
  open u (mk_world d d s [] q n fs) -> declared_ok u s' -> (u_state u = FAILED -> gone_object u s') ->
  open u (mk_world d d s' [] q n fs').
Proof.
  intros ((_ & Hd & _ & Hok) & Hu & Hst) Hdecl Hg. simpl in *.
  split; [|by split]. split; [done|]. split; [done|]. split; [done|]. simpl.
  by eapply session_ok_store.
Qed.

Lemma open_world u w : open u w -> exists d s q n fs, w = mk_world d d s [] q n fs
  /\ session_ok gone d s q /\ db_upload d = Some u /\ db_upload d0 = Some u.
Proof.
  intros ((Hdb & Hd & Hl & Hok) & Hu & Hst). destruct w as [d c s l q n fs]; simpl in *.
  subst d l. eexists _, _, _, _, _. split; [done|]. split_and!; auto. congruence.
Qed.

Lemma wp_owned {A} u (k : M A) Q w :
  open u w -> wp k Q w -> wp (owned tenant (u_storage_key u);; k) Q w.
Proof.
  intros Ho HQ. apply open_world in Ho as (d & s & q & n & fs & -> & Hok & Hu & _).
  unfold session_ok in Hok. rewrite Hu in Hok. destruct Hok as (_ & Hk & _).
  apply up_bind. unfold wp at 1, owned, lift. by rewrite Hk.
Qed.

(** A call to the store that leaves the session open. *)
Lemma wp_call {A} (call : store -> A * store) (Q : A -> world -> Prop) u w :
  open u w ->
  (declared_ok u (w_store w) -> declared_ok u (call (w_store w)).2) ->
  (u_state u = FAILED -> gone_object u (w_store w) -> gone_object u (call (w_store w)).2) ->
  (forall w', open u w' -> w_store w' = (call (w_store w)).2 -> Q (call (w_store w)).1 w') ->
  wp (provider call) (post Q) w.
Proof.
  intros Ho Hdecl Hgone HQ.
  pose proof Ho as (d & s & q & n & fs & -> & Hok & Hu & _)%open_world. simpl in *.
  assert (declared_ok u s /\ (u_state u = FAILED -> gone_object u s)) as [Hd Hg].
  { unfold session_ok in Hok. rewrite Hu in Hok. destruct Hok as (_ & _ & _ & Hd & Hst).
    split; [done|]. intros HF. unfold state_ok in Hst. rewrite HF in Hst. naive_solver. }
  apply wp_provider.
  - intros fs'. apply HQ; [|done]. apply clean_store with (s := s) (fs := fs); auto.
  - intros fs' e s' Hs' He.
    assert (open u (mk_world d d s' [] q n fs')) as Ho'.
    { apply clean_store with (s := s) (fs := fs); [done|..]; destruct Hs' as [->| ->]; auto. }
    destruct Ho' as (Hc & _). destruct He as [->| ->]; simpl; [split|]; auto using clean_held.
Qed.

Lemma wp_abort_upload (Q : unit -> world -> Prop) u w :
  open u w ->
  (forall w', open u w' -> gone_parts u (w_store w') ->
     s3_head (u_storage_key u) (w_store w') = s3_head (u_storage_key u) (w_store w) -> Q tt w') ->
  wp (abort_multipart_upload tenant (u_storage_key u) (u_provider_upload_id u)) (post Q) w.
Proof.
  intros Ho HQ. apply wp_owned; [done|]. apply wp_call with (u := u); [done|..]; simpl.
  - intros _ ct meta. by rewrite live_abort.
  - intros _. unfold gone_object. by rewrite head_abort.
  - intros w' Ho' Hs. apply HQ; [done|..]; rewrite Hs; [apply live_abort | apply head_abort].
Qed.

Lemma wp_delete (Q : unit -> world -> Prop) u w :
  open u w ->
  (forall w', open u w' -> gone_object u (w_store w') ->
     (gone_parts u (w_store w) -> gone_parts u (w_store w')) -> Q tt w') ->
  wp (delete tenant (u_storage_key u)) (post Q) w.
Proof.
  intros Ho HQ. apply wp_owned; [done|]. apply wp_call with (u := u); [done|..]; simpl.
  - intros Hd ct meta. rewrite live_delete. apply Hd.
  - intros _ _. apply head_delete.
  - intros w' Ho' Hs. apply HQ; [done|..]; rewrite Hs; [apply head_delete|].
    unfold gone_parts. by rewrite live_delete.
Qed.

(** What fails because something is not there leaves everything as it was. *)
Lemma wp_list_parts (Q : list UploadedPart -> world -> Prop) u w :
  open u w ->
  (forall parts w', open u w' -> w_store w' = w_store w ->
     s3_list_parts (u_storage_key u) (u_provider_upload_id u) (w_store w) = Some parts ->
     Q parts w') ->
  wp (list_multipart_parts tenant (u_storage_key u) (u_provider_upload_id u)) (post Q) w.
Proof.
  intros Ho HQ. apply wp_owned; [done|].
  eapply (wp_bind_post _ _ (fun r w' => open u w' /\ w_store w' = w_store w
    /\ r = s3_list_parts (u_storage_key u) (u_provider_upload_id u) (w_store w))).
  - apply wp_call with (u := u); simpl; auto.
  - intros [parts|] w' (Ho' & Hs & Hr); [by apply HQ|]. by apply clean_failed, Ho'.
Qed.

Lemma wp_head (Q : res exn StoredObjectMetadata -> world -> Prop) u w :
  open u w ->
  (forall m w', open u w' -> w_store w' = w_store w ->
     s3_head (u_storage_key u) (w_store w) = Some m -> Q (Ok m) w') ->
  (forall e w', open u w' -> w_store w' = w_store w ->
     (e = AppError NotFound (cp "object_not_found") /\ s3_head (u_storage_key u) (w_store w) = None
      \/ e = AppError Dependency (cp "storage_unavailable") \/ e = Died) -> Q (Err e) w') ->
  wp (head tenant (u_storage_key u)) Q w.
Proof.
  intros Ho HQ HE. apply wp_owned; [done|]. apply up_bind.
  pose proof Ho as (d & s & q & n & fs & -> & Hok & Hu & _)%open_world. simpl in *.
  assert (forall fs', open u (mk_world d d s [] q n fs')) as Ho' by (intros; by destruct Ho).
  apply wp_provider; simpl.
  - intros fs'. destruct (s3_head _ _) eqn:Hh; [by apply HQ|]. apply HE; auto.
  - intros fs' e s' Hs' He. assert (s' = s) as -> by (by destruct Hs'). apply HE; auto.
Qed.

Lemma wp_storage_operation {A} (m : M A) (Q : A -> world -> Prop) w :
  wp m (post Q) w -> wp (_storage_operation m) (post Q) w.
Proof.
  intros Hm. apply up_catch. eapply up_mono; [exact Hm|].
  intros [a|e] w'; simpl; [done|]. intros He. by destruct e as [[] code| |].
Qed.

Lemma wp_complete_upload parts (Q : StoredObjectMetadata -> world -> Prop) u w :
  open u w -> u_state u = COMPLETING ->
  (forall m w', open u w' -> s3_head (u_storage_key u) (w_store w') = Some m -> Q m w') ->
  wp (complete_multipart_upload tenant (u_storage_key u) (u_provider_upload_id u) parts) (post Q) w.
Proof.
  intros Ho Hst HQ. apply wp_owned; [done|].
  eapply (wp_bind_post _ _ (fun _ w' => open u w')).
  - apply wp_call with (u := u); auto; [|congruence].
    destruct (s3_complete _ _ _ _) as [s'|] eqn:Hc; simpl; [|done].
    intros _ ct meta. by rewrite (live_complete _ _ _ _ _ Hc).
  - intros [] w' Ho'; [|by apply clean_failed, Ho'].
    apply wp_head with (u := u); [done|..].
    + intros m w'' Ho'' Hs Hh. apply HQ; [done|]. by rewrite Hs.
    + intros e w'' Ho'' _ He. destruct Ho'' as (Hc & _).
      destruct He as [[-> _]|[->| ->]]; [by apply clean_failed..|by apply clean_held].
Qed.

(** A manifest is refused before anything is written. *)
Definition checks {A} (r : res exn A) : Prop :=
  forall e, r = Err e -> (exists code, e = AppError Validation code) \/ e = OtherError.

Lemma wp_lift {A} (r : res exn A) (Q : A -> world -> Prop) w :
  checks r -> clean w -> (forall a, r = Ok a -> Q a w) -> wp (lift r) (post Q) w.
Proof.
  intros Hr Hc HQ. unfold wp, lift. destruct r as [a|e]; simpl; [by apply HQ|].
  destruct (Hr e eq_refl) as [[code ->]| ->]; [by apply clean_failed|by apply clean_held].
Qed.

Lemma wp_head_or_complete manifest_of (Q : StoredObjectMetadata -> world -> Prop) u w :
  open u w -> u_state u = COMPLETING -> (forall l, checks (manifest_of l)) ->
  (forall m w', open u w' -> s3_head (u_storage_key u) (w_store w') = Some m -> Q m w') ->
  wp (head_or_complete tenant u manifest_of) (post Q) w.
Proof.
  intros Ho Hst Hman HQ. apply up_catch, wp_head with (u := u); [done|..].
  - intros m w' Ho' Hs Hh. apply HQ; [done|]. by rewrite Hs.
  - intros e w' Ho' _ [[-> _]|[->| ->]]; [|by apply clean_failed, Ho'|by apply clean_held, Ho'].
    eapply (wp_bind_post _ _ (fun _ w' => open u w')).
    { apply wp_storage_operation, wp_list_parts; auto. }
    intros parts w1 Ho1. eapply (wp_bind_post _ _ (fun _ w' => open u w')).
    { apply wp_lift; [apply Hman|apply Ho1|auto]. }
    intros l w2 Ho2. apply wp_storage_operation, wp_complete_upload; auto.
Qed.

(** ** Writing the row *)

Definition with_upload (u : DocumentUpload) (d : db) : db :=
  mk_db (Some u) (db_document d) (db_events d).

Lemma wp_get_for_owner id owner Q d c s l q n fs :
  Q (Ok (match db_upload d with
         | Some u => if bool_decide (u_id u = id) && bool_decide (u_owner_id u = owner)
                     then Some u else None
         | None => None
         end)) (mk_world d c s l q n fs) ->
  wp (get_for_owner (store := store) id owner) Q (mk_world d c s l q n fs).
Proof. done. Qed.

Lemma wp_set_state u state error Q d c s l q n fs :
  db_upload d = Some u ->
  (forall fs, Q (Ok (Some (set_state_of state error u)))
                (mk_world (with_upload (set_state_of state error u) d) c s l q n fs)) ->
  (forall fs e, (forall k code, e <> AppError k code) -> Q (Err e) (mk_world d c s l q n fs)) ->
  wp (set_state (store := store) (u_id u) (u_owner_id u) state error) Q (mk_world d c s l q n fs).
Proof.
  intros Hu Hok Herr. apply up_bind, wp_get_for_owner. rewrite Hu, !bool_decide_eq_true_2 by done.
  simpl. apply up_bind, wp_flush; [apply Hok|apply Herr].
Qed.

Lemma uploaded_events_snoc es e :
  uploaded_events (es ++ [e]) =
  (uploaded_events es + match e_action e, e_outcome e with DOCUMENT_UPLOADED, ALLOWED => 1 | _, _ => 0 end)%nat.
Proof.
  unfold uploaded_events. rewrite List.filter_app, length_app. simpl.
  by destruct (e_action e), (e_outcome e).
Qed.

(** An audit event other than the upload's changes nothing. *)
Lemma session_ok_event g d s jobs e :
  (e_action e, e_outcome e) <> (DOCUMENT_UPLOADED, ALLOWED) ->
  session_ok g d s jobs ->
  session_ok g (mk_db (db_upload d) (db_document d) (db_events d ++ [e])) s jobs.
Proof.
  intros He. unfold session_ok, state_ok. simpl. rewrite uploaded_events_snoc.
  replace (match e_action e, e_outcome e with DOCUMENT_UPLOADED, ALLOWED => 1 | _, _ => 0 end)%nat
    with 0%nat by (destruct (e_action e), (e_outcome e); done).
  by rewrite Nat.add_0_r.
Qed.

Lemma wp_emit action outcome resource code (Q : unit -> world -> Prop) w :
  (action, outcome) <> (DOCUMENT_UPLOADED, ALLOWED) -> good w ->
  (forall w', good w' ->
     w_db w' = mk_db (db_upload (w_db w)) (db_document (w_db w))
                 (db_events (w_db w) ++ [mk_event action outcome resource code]) ->
     w_committed w' = w_committed w -> w_listeners w' = w_listeners w -> Q tt w') ->
  wp (emit (store := store) action outcome resource code) (post Q) w.
Proof.
  intros He (Hheld & Hmoved & Hok) HQ. destruct w as [d c s l q n fs]. simpl in *.
  apply wp_flush.
  - intros fs'. apply HQ; try done. split; [done|]. split; [done|]. by apply session_ok_event.
  - intros fs' e Hne. by apply held_failed.
Qed.

(** A crash after the commit loses the job. *)
Lemma session_ok_jobs g d s q l : session_ok g d s (q ++ l) -> session_ok g d s q.
Proof.
  assert (forall j, q ++ l = [] \/ q ++ l = [j] -> q = [] \/ q = [j]) as Hone.
  { intros j [[-> _]%app_eq_nil|Hj]; [by left|]. destruct q as [|x q]; [by left|right].
    injection Hj as -> [-> _]%app_eq_nil. done. }
  assert (q ++ l = [] -> q = []) as Hnone by (by intros [-> _]%app_eq_nil).
  unfold session_ok, state_ok. destruct (db_upload d) as [u|]; [|naive_solver].
  destruct (u_state u); naive_solver.
Qed.

Lemma wp_commit_good (Q : unit -> world -> Prop) w :
  good w ->
  (forall w', held w' -> w_db w' = w_committed w' -> w_listeners w' = [] ->
     w_committed w' = w_db w -> Q tt w') ->
  wp (commit (store := store)) (post Q) w.
Proof.
  intros (Hheld & Hmoved & Hok) HQ. destruct w as [d c s l q n fs]. simpl in *.
  apply wp_commit.
  - intros fs'. by apply HQ.
  - intros fs' e Hne. by apply held_failed.
  - intros fs' e Hne. apply held_failed; [done|]. split; [done|]. simpl. rewrite app_nil_r.
    by eapply session_ok_jobs.
Qed.

(** ** The operations *)

(** The session is over in [state], as far as this transaction goes. *)
Definition ended (u : DocumentUpload) (state : DocumentUploadState) (w : world) : Prop :=
  good w /\ exists e, db_upload (w_db w) = Some (set_state_of state e u).

Lemma open_session u w : open u w ->
  geometry u /\ assert_key_owned_by (u_storage_key u) tenant = Ok tt
  /\ normalize_content_type lower (u_mime_type u) = u_mime_type u
  /\ declared_ok u (w_store w) /\ state_ok gone u (w_db w) (w_store w) (w_queue w).
Proof.
  intros (d & s & q & n & fs & -> & Hok & Hu & _)%open_world.
  unfold session_ok in Hok. by rewrite Hu in Hok.
Qed.

(** What the row's state says of the rest. *)
Lemma good_move u state e d c s q l n fs :
  held (mk_world d c s l q n fs) -> db_upload d0 = Some u -> allowed (u_state u) state || dropping = true ->
  geometry u /\ assert_key_owned_by (u_storage_key u) tenant = Ok tt
  /\ normalize_content_type lower (u_mime_type u) = u_mime_type u /\ declared_ok u s ->
  state_ok gone (set_state_of state e u) d s (q ++ l) ->
  good (mk_world (with_upload (set_state_of state e u) d) c s l q n fs).
Proof.
  intros Hheld Hd0 Hmove (? & ? & ? & ?) Hok. split; [done|]. split; simpl.
  - unfold moved. rewrite Hd0. left. by exists state, e.
  - unfold session_ok. simpl. by split_and!.
Qed.

Lemma wp_fail_completion code (Q : unit -> world -> Prop) u w :
  open u w -> u_state u = COMPLETING ->
  (forall w', ended u FAILED w' -> Q tt w') ->
  wp (_fail_completion tenant (u_owner_id u) u code) (post Q) w.
Proof.
  intros Ho Hst HQ. pose proof (open_session _ _ Ho) as (Hg & Hk & Hm & Hd & Hok).
  pose proof Ho as (d & s & q & n & fs & -> & Hs & Hu & Hd0)%open_world. simpl in *.
  assert (held (mk_world d d s [] q n fs)) as Hheld by apply clean_held, Ho.
  apply up_bind, wp_set_state; [done|..].
  2:{ intros fs' e Hne. by apply held_failed. }
  intros fs1. apply up_bind. unfold owned, lift, wp at 1. simpl. rewrite Hk.
  apply wp_provider; simpl.
  - intros fs2. apply HQ. split; [|by eexists]. apply good_move; auto.
    + destruct Hheld. split; [done|]. simpl in *. eapply session_ok_store; eauto; [set_solver|..].
      * intros ct meta. rewrite live_delete. apply Hd.
      * congruence.
    + by rewrite Hst.
    + split_and!; auto. intros ct meta. rewrite live_delete. apply Hd.
    + unfold state_ok in *. rewrite Hst in Hok. simpl. destruct Hok as (-> & -> & -> & _).
      split_and!; auto. apply head_delete.
  - intros fs2 e s' Hs' He.
    assert (held (mk_world (with_upload (set_state_of FAILED (Some (cp code)) u) d) d s' [] q n fs2)).
    { destruct Hheld. split; [done|]. simpl in *. destruct Hs' as [->| ->]; [done|].
      eapply session_ok_store; eauto; [set_solver|..]; [|congruence].
      intros ct meta. rewrite live_delete. apply Hd. }
    destruct He as [->| ->]; simpl; [split; [exact H1|reflexivity]|exact H1].
Qed.

Lemma wp_finalize stored recovered (Q : Document -> world -> Prop) u w :
  open u w -> u_state u = COMPLETING -> s3_head (u_storage_key u) (w_store w) = Some stored ->
  (forall w', ended u COMPLETED w' -> Q (document_of u) w') ->
  wp (_finalize_verified lower str_uuid tenant (u_owner_id u) u stored recovered) (post Q) w.
Proof.
  intros Ho Hst Hh HQ. unfold _finalize_verified.
  assert (forall code, wp (_fail_completion tenant (u_owner_id u) u code;;
    raise (AppError Rejected (cp code))) (post Q) w) as Hfail.
  { intros code. apply (wp_bind_post _ _ (fun _ => ended u FAILED)); [by apply wp_fail_completion|].
    intros _ w' Hw'. simpl. exact (proj1 Hw'). }
  destruct (s_size_bytes stored =? u_size_bytes u) eqn:Hsize; simpl; [|apply Hfail].
  destruct (bool_decide (normalize_content_type _ _ = _)) eqn:Hct; simpl; [|apply Hfail].
  destruct (bool_decide (dict_get (cp "lumen-upload-id") _ = _)) eqn:H1; simpl; [|apply Hfail].
  destruct (bool_decide (dict_get (cp "lumen-document-id") _ = _)) eqn:H2; simpl; [|apply Hfail].
  apply Z.eqb_eq in Hsize. apply bool_decide_eq_true in Hct, H1, H2.
  pose proof (open_session _ _ Ho) as (Hg & Hk & Hm & Hd & Hok).
  unfold state_ok in Hok. rewrite Hst in Hok. destruct Hok as (Hdoc & Hev & Hq & _).
  pose proof Ho as (d & s & q & n & fs & -> & Hs & Hu & Hd0)%open_world. simpl in *. subst q.
  assert (held (mk_world d d s [] [] n fs)) as Hheld by apply clean_held, Ho.
  assert (forall d' l fs', held (mk_world d' d s l [] n fs')) as Hheld' by done.
  assert (forall code fs', good (mk_world
    (mk_db (Some (set_state_of COMPLETED None u)) (Some (document_of u))
       (db_events d ++ [mk_event DOCUMENT_UPLOADED ALLOWED (u_document_id u) code]))
    d s [job_of u] [] n fs')) as Hgood.
  { intros code fs'. apply (good_move u COMPLETED None (mk_db (db_upload d) (Some (document_of u))
      (db_events d ++ [mk_event DOCUMENT_UPLOADED ALLOWED (u_document_id u) code]))); auto.
    - by rewrite Hst.
    - unfold state_ok. simpl. rewrite uploaded_events_snoc, Hev. split_and!; auto.
      left. exists stored. split; [done|]. by split_and!. }
  apply up_bind. unfold documents_get. apply up_bind. unfold wp at 1 2, read, ret. simpl.
  rewrite Hdoc. simpl.
  apply up_bind, wp_flush; [|intros; by apply held_failed]. intros fs1. simpl. rewrite Hu.
  apply up_bind, wp_set_state; [done| |intros; by apply held_failed]. intros fs2.
  apply up_bind, wp_flush; [|intros; by apply held_failed]. intros fs3.
  unfold with_upload; simpl. apply up_bind. unfold wp at 1, listen. simpl. unfold wp, ret. simpl.
  rewrite Hsize.
  apply HQ. split; [apply Hgood|by eexists].
Qed.

Lemma checks_ok {A} (a : A) : checks (Ok a).
Proof. by intros e. Qed.
Lemma checks_validation {A} code : checks (A := A) (validation code).
Proof. intros e [= <-]. eauto. Qed.
Lemma checks_bind {A B} (r : res exn A) (k : A -> res exn B) :
  checks r -> (forall a, checks (k a)) -> checks (r ≫= k).
Proof. intros Hr Hk e [He|(a & _ & He)]%bind_err; [by apply Hr|by apply (Hk a)]. Qed.
Lemma checks_layout u ps : checks (_validate_provider_part_layout u ps).
Proof.
  unfold _validate_provider_part_layout. case_match; [apply checks_validation|]. clear.
  generalize 0. induction ps as [|p ps IH]; intros i; simpl; [apply checks_ok|].
  destruct (_ || _); [apply checks_validation|].
  destruct (negb _); [apply checks_validation|apply IH].
Qed.
Lemma checks_etags cs ps : checks (check_etags cs ps).
Proof.
  revert ps. induction cs as [|c cs IH]; intros [|p ps]; simpl; try apply checks_ok.
  1, 2: intros e [= <-]; by right.
  case_match; [apply checks_validation|apply IH].
Qed.
Lemma checks_provider u cs ps : checks (_validate_provider_parts u cs ps).
Proof. apply checks_bind; [apply checks_layout|intros; apply checks_etags]. Qed.
Lemma checks_manifest u parts : checks (_validate_completion_manifest u parts).
Proof.
  unfold _validate_completion_manifest. repeat case_match; auto using checks_ok, checks_validation.
Qed.
Hint Resolve checks_ok checks_validation checks_bind checks_layout checks_provider
  checks_manifest : core.

Lemma wp_recover (Q : Document -> world -> Prop) u w :
  open u w -> u_state u = COMPLETING ->
  (forall w', ended u COMPLETED w' -> Q (document_of u) w') ->
  wp (_recover_completing_upload lower str_uuid tenant (u_owner_id u) u) (post Q) w.
Proof.
  intros Ho Hst HQ.
  apply (wp_bind_post _ _ (fun m w' => open u w' /\ s3_head (u_storage_key u) (w_store w') = Some m)).
  - apply wp_head_or_complete; auto.
  - intros m w' [Ho' Hh]. by apply wp_finalize.
Qed.

Lemma wp_complete_from parts recovered (Q : Document -> world -> Prop) u w :
  open u w -> u_state u = COMPLETING ->
  (forall w', ended u COMPLETED w' -> Q (document_of u) w') ->
  wp (_complete_from_completing lower str_uuid tenant (u_owner_id u) u parts recovered) (post Q) w.
Proof.
  intros Ho Hst HQ.
  apply (wp_bind_post _ _ (fun m w' => open u w' /\ s3_head (u_storage_key u) (w_store w') = Some m)).
  - apply wp_head_or_complete; auto.
  - intros m w' [Ho' Hh]. by apply wp_finalize.
Qed.

(** An open session is closed at the provider and in its row. *)
Lemma wp_close {A} state error (k : option DocumentUpload -> M A) (Q : A -> world -> Prop) u w :
  open u w -> state = EXPIRED \/ state = ABORTED -> allowed (u_state u) state || dropping = true ->
  (forall w', good w' -> db_upload (w_db w') = Some (set_state_of state error u) ->
     wp (k (Some (set_state_of state error u))) (post Q) w') ->
  wp (abort_multipart_upload tenant (u_storage_key u) (u_provider_upload_id u);;
      delete tenant (u_storage_key u);;
      r ← set_state (u_id u) (u_owner_id u) state error; k r) (post Q) w.
Proof.
  intros Ho Hstate Hmove Hk.
  apply (wp_bind_post _ _ (fun _ w' => open u w' /\ gone_parts u (w_store w'))).
  { apply wp_abort_upload; auto. }
  intros _ w1 [Ho1 Hp1].
  apply (wp_bind_post _ _ (fun _ w' => open u w' /\ gone_parts u (w_store w')
    /\ gone_object u (w_store w'))).
  { apply wp_delete; auto. }
  intros _ w2 (Ho2 & Hp2 & Hg2). pose proof (open_session _ _ Ho2) as (Hg & Hkey & Hm & Hd & Hok).
  pose proof Ho2 as (d & s & q & n & fs & -> & Hs & Hu & Hd0)%open_world. simpl in *.
  assert (held (mk_world d d s [] q n fs)) as Hheld by apply clean_held, Ho2.
  apply up_bind, wp_set_state; [done| |intros; by apply held_failed]. intros fs1.
  apply Hk; [|done].
  apply good_move; auto. unfold state_ok in *. rewrite app_nil_r.
  assert (db_document d = None /\ uploaded_events (db_events d) = 0%nat /\ q = []) as (Hdoc & Hev & Hq).
  { destruct Ho2 as (_ & _ & Hst). destruct (u_state u); set_solver. }
  destruct Hstate as [-> | ->]; simpl; by split_and!.
Qed.

Lemma clean_open u w :
  clean w -> db_upload (w_db w) = Some u -> u_state u ∈ [INITIATED; COMPLETING; FAILED] -> open u w.
Proof. by split. Qed.

Lemma wp_lookup {A} id owner (k : option DocumentUpload -> M A) Q w :
  (forall o, o = None \/ (exists u, o = Some u /\ db_upload (w_db w) = Some u
                           /\ u_id u = id /\ u_owner_id u = owner) -> wp (k o) Q w) ->
  wp (get_for_owner id owner ≫= k) Q w.
Proof.
  intros Hk. destruct w as [d c s l q n fs]. apply up_bind, wp_get_for_owner, Hk. simpl.
  destruct (db_upload d) as [u|]; [|by left].
  destruct (bool_decide (u_id u = id)) eqn:Hid, (bool_decide (u_owner_id u = owner)) eqn:Ho;
    simpl; auto.
  apply bool_decide_eq_true in Hid, Ho. right. eauto.
Qed.

(** A session that a preparation has looked at: over, or untouched. *)
Definition looked (u : DocumentUpload) (w : world) : Prop :=
  db_upload (w_db w) = Some u /\ u_state u <> COMPLETING /\ good w
  /\ (clean w \/ u_state u ∈ [EXPIRED; COMPLETED]).

Lemma wp_expire_if_needed now u w :
  clean w -> db_upload (w_db w) = Some u -> u_state u <> COMPLETING ->
  wp (_expire_if_needed tenant (u_owner_id u) now u) (post looked) w.
Proof.
  intros Hc Hu Hst. unfold _expire_if_needed, _is_expired.
  destruct (u_expires_at u <=? now); simpl; [|by split; auto using clean_good].
  destruct (mem (u_state u) _) eqn:Hin; simpl; [|by split; auto using clean_good].
  apply mem_true in Hin. assert (u_state u = INITIATED) as HI by (set_unfold; naive_solver).
  apply wp_close; [apply clean_open; auto; set_solver|by left|by rewrite HI|].
  intros w1 Hg Hup. apply (wp_bind_post _ _ (fun _ w' => good w'
    /\ db_upload (w_db w') = Some (set_state_of EXPIRED (Some (cp "upload_session_expired")) u))).
  { apply wp_emit; [done..|]. by intros w' ? -> _ _. }
  intros _ w2 [Hg2 Hup2]. split; [done|]. split_and!; [done..|]. right. set_solver.
Qed.

Lemma wp_current id owner now view w :
  clean w ->
  (forall u w, looked u w ->
     wp (view u) (post (fun v w' => v_upload v = u /\ looked u w')) w) ->
  wp (current lower str_uuid tenant owner now id view)
    (post (fun o w' => match o with
                       | None => clean w'
                       | Some v => looked (v_upload v) w' /\ u_id (v_upload v) = id
                                   /\ u_owner_id (v_upload v) = owner
                       end)) w.
Proof.
  intros Hc Hview. apply wp_lookup. intros o [->|(u & -> & Hu & Hid & Hown)]; [done|].
  subst id owner. destruct (decide (u_state u = COMPLETING)) as [Hst|Hst].
  - rewrite bool_decide_eq_true_2 by done.
    apply (wp_bind_post _ _ (fun _ => ended u COMPLETED)).
    { apply wp_recover; auto. apply clean_open; auto. set_solver. }
    intros d w1 [Hg (e & Hup)]. apply wp_lookup.
    intros o [->|(u' & -> & Hu' & _)]; [apply Hg|]. simplify_eq.
    split; simpl; [|done]. split_and!; auto. right. set_solver.
  - rewrite bool_decide_eq_false_2 by done.
    apply (wp_bind_post _ _ (fun u' w' => looked u' w' /\ u_id u' = u_id u
                               /\ u_owner_id u' = u_owner_id u)).
    + eapply up_mono; [by apply wp_expire_if_needed|]. intros [u'|e] w'; [|done]. simpl.
      intros Hl. split; [done|]. destruct Hl as (Hl & _ & (Hheld & Hmoved & _) & _).
      destruct Hc as (Hdb & Hd0 & _). unfold moved in Hmoved.
      rewrite <- Hd0, <- Hdb, Hu in Hmoved.
      destruct Hmoved as [(? & ? & Hm & _)|[_ Hm]]; by simplify_eq.
    + intros u' w1 (Hl & Hid & Hown).
      apply (wp_bind_post _ _ (fun v w' => v_upload v = u' /\ looked u' w')); [by apply Hview|].
      intros v w2 [<- Hl2]. done.
Qed.

Lemma failed_denied e d c s l q n n' fs :
  failed e (mk_world d c s l q n fs) -> failed e (mk_world d c s l q n' fs).
Proof. by destruct e as [[] ?| |]. Qed.

Lemma wp_audited {A} action (m : M (option A)) (Q : option A -> world -> Prop) w :
  (forall d c s l q n n' fs, Q None (mk_world d c s l q n fs) -> Q None (mk_world d c s l q n' fs)) ->
  wp m (post Q) w -> wp (audited action m) (post Q) w.
Proof.
  intros HQ Hm. apply up_bind, up_catch. eapply up_mono; [exact Hm|].
  intros [[a|]|e] [d c s l q n fs] Hr; [done|by eapply HQ|].
  destruct e as [[] ?| |]; try done; unfold wp, mbind, M_bind, bind, deny, raise; simpl in *;
    exact Hr.
Qed.

Lemma wp_prepare action id owner now w :
  clean w ->
  wp (prepare lower str_uuid tenant action owner now id)
    (post (fun o w' => match o with
                       | None => clean w'
                       | Some v => looked (v_upload v) w' /\ u_id (v_upload v) = id
                                   /\ u_owner_id (v_upload v) = owner
                       end)) w.
Proof.
  intros Hc. apply wp_audited; [done|]. apply wp_current; [done|]. by intros u w' Hl.
Qed.

Lemma up_get id owner now w :
  clean w ->
  wp (get lower str_uuid tenant owner now id)
    (post (fun o w' => match o with
                       | None => clean w'
                       | Some v => looked (v_upload v) w' /\ u_id (v_upload v) = id
                                   /\ u_owner_id (v_upload v) = owner
                       end)) w.
Proof.
  intros Hc. apply wp_audited; [done|]. apply wp_current; [done|]. intros u w' Hl.
  apply (wp_bind_post _ _ (fun _ => looked u)); [by destruct (bool_decide (u_state u = COMPLETED))|].
  clear w' Hl. intros d w' Hl.
  apply (wp_bind_post _ _ (fun _ => looked u)); [|done].
  destruct (decide (u_state u = INITIATED)) as [HI|HI];
    [rewrite bool_decide_eq_true_2 by done|by rewrite bool_decide_eq_false_2 by done].
  apply wp_storage_operation.
  destruct Hl as (Hu & Hne & Hg & [Hcl|Hin]); [|rewrite HI in Hin; set_unfold in Hin; naive_solver].
  apply wp_list_parts; [apply clean_open; auto; set_solver|].
  intros parts w2 (Hc2 & Hu2 & _) _ _. split_and!; auto using clean_good.
Qed.

Lemma wp_abort id owner w :
  clean w -> (forall u, db_upload (w_db w) = Some u -> u_state u <> COMPLETING) ->
  wp (abort tenant owner id) (post (fun o w' => match o with None => held w' | Some _ => good w' end)) w.
Proof.
  intros Hc Hne. apply wp_audited; [done|].
  apply wp_lookup. intros o [->|(u & -> & Hu & <- & <-)]; [by apply clean_held|].
  specialize (Hne _ Hu). destruct (u_state u) eqn:Hst; try done;
    try (by apply clean_failed); try (by apply clean_good).
  all: apply wp_close; [apply clean_open; auto; rewrite Hst; set_solver|by right|by rewrite Hst|].
  all: intros w1 Hg _; apply (wp_bind_post _ _ (fun _ => good)); [by apply wp_emit|done].
Qed.

Lemma wp_sign_parts id owner now parts w :
  clean w ->
  wp (sign_parts tenant cfg owner now id parts) (post (fun _ => clean)) w.
Proof.
  intros Hc. apply wp_audited; [done|].
  apply wp_lookup. intros o [->|(u & -> & Hu & <- & <-)]; [done|].
  destruct (_is_expired now u); [by apply clean_failed|].
  destruct (decide (u_state u = INITIATED)) as [HI|HI];
    [rewrite bool_decide_eq_true_2 by done|rewrite bool_decide_eq_false_2 by done; by apply clean_failed].
  simpl. destruct (_ || _); [by apply clean_failed|]. destruct (existsb _ _); [by apply clean_failed|].
  apply wp_owned; [apply clean_open; auto; set_solver|done].
Qed.

Lemma good_completed u w :
  good w -> db_upload (w_db w) = Some u -> u_state u = COMPLETED ->
  db_document (w_db w) = Some (document_of u).
Proof.
  intros (_ & _ & Hok) Hu Hst. unfold session_ok in Hok. rewrite Hu in Hok.
  destruct Hok as (_ & _ & _ & _ & Hok). unfold state_ok in Hok. rewrite Hst in Hok. apply Hok.
Qed.

(** Reading the document of a completed session. *)
Lemma wp_documents_get (Q : res exn (option Document) -> world -> Prop) u w :
  good w -> db_upload (w_db w) = Some u -> u_state u = COMPLETED ->
  Q (Ok (Some (document_of u))) w -> wp (documents_get (u_document_id u)) Q w.
Proof.
  intros Hg Hu Hst Hk. pose proof (good_completed _ _ Hg Hu Hst) as Hd.
  apply up_bind. unfold wp at 1 2, read, ret. simpl.
  rewrite Hd. simpl. by rewrite bool_decide_eq_true_2.
Qed.

Lemma wp_complete_begin id owner now parts w u :
  looked u w -> u_state u <> EXPIRED -> u_id u = id -> u_owner_id u = owner ->
  wp (complete_begin lower str_uuid tenant owner now id parts)
  (post (fun o w' => match o with
                     | Some (inl d) => good w'
                     | _ => held w'
                     end)) w.
Proof.
  intros (Hu & Hne & Hg & Hcl) HnE <- <-. apply wp_lookup.
  intros o [->|(u' & -> & Hu' & _)]; [apply Hg|]. assert (u' = u) as -> by congruence.
  destruct (decide (u_state u = COMPLETED)) as [HC|HC];
  [rewrite bool_decide_eq_true_2 by done|rewrite bool_decide_eq_false_2 by done].
  { by apply up_bind, wp_documents_get. }
  assert (clean w) as Hc by (destruct Hcl; set_unfold; naive_solver).
  destruct (_is_expired now u); [by apply clean_failed|].
  apply (wp_bind_post _ _ (fun _ w' => w' = w)); [apply wp_lift; auto|]. intros _ w' ->.
  destruct (u_state u) eqn:Hst; try done; try (by apply clean_failed).
  apply (wp_bind_post _ _ (fun _ => open u)).
  { apply wp_storage_operation, wp_list_parts; auto. apply clean_open; auto. rewrite Hst. set_solver. }
  intros ps w1 Ho1. apply (wp_bind_post _ _ (fun _ => open u)).
  { apply wp_lift; auto. apply Ho1. }
  intros _ w2 Ho2. pose proof (open_session _ _ Ho2) as (Hgeo & Hkey & Hm & Hd & Hok).
  pose proof Ho2 as (d & s & q & n & fs & -> & Hs & Hup & Hd0)%open_world. simpl in *.
  assert (held (mk_world d d s [] q n fs)) as Hheld by apply clean_held, Ho2.
  apply up_bind, wp_set_state; [done| |intros; by apply held_failed]. intros fs1.
  apply (wp_bind_post _ _ (fun _ => held)); [|done].
  apply wp_commit_good; [|auto]. apply good_move; auto; [by rewrite Hst|].
  unfold state_ok in *. rewrite Hst in Hok. simpl. rewrite app_nil_r. naive_solver.
Qed.

Lemma wp_complete_finish id owner parts w :
  clean w ->
  wp (complete_finish lower str_uuid tenant owner id parts)
    (post (fun o w' => match o with Some _ => good w' | None => held w' end)) w.
Proof.
  intros Hc. apply wp_lookup. intros o [->|(u & -> & Hu & <- & <-)]; [by apply clean_held|].
  destruct (u_state u) eqn:Hst; try (by apply clean_failed).
  - apply (wp_bind_post _ _ (fun _ => ended u COMPLETED)); [|by intros d w' [Hg _]].
    apply wp_complete_from; auto. apply clean_open; auto. rewrite Hst. set_solver.
  - pose proof (clean_good _ Hc) as Hg. by apply wp_documents_get.
Qed.

(** ** The endpoints *)

(** An endpoint leaves what is committed in order, however it ends. *)
Definition fin {A} (Q : A -> world -> Prop) (r : res exn A) (w : world) : Prop :=
  match r with Ok a => Q a w | Err _ => held w end.

Lemma failed_held e w : failed e w -> held w.
Proof.
  destruct e as [[] ?| |]; simpl; try done; try apply clean_held; [by intros [? _]|by intros [? _]].
Qed.
Lemma post_fin {A} (m : M A) (Q : A -> world -> Prop) w : wp m (post Q) w -> wp m (fin Q) w.
Proof.
  intros Hm. eapply up_mono; [exact Hm|]. intros [a|e] w'; [done|]. apply failed_held.
Qed.
Lemma wp_bind_fin {A B} (m : M A) (k : A -> M B) (R : A -> world -> Prop) Q w :
  wp m (fin R) w -> (forall a w, R a w -> wp (k a) (fin Q) w) -> wp (m ≫= k) (fin Q) w.
Proof.
  intros Hm Hk. apply up_bind. eapply up_mono; [exact Hm|]. intros [a|e] w'; simpl; auto.
Qed.

Lemma good_rolled_back d c s q n fs :
  held (mk_world d c s [] q n fs) -> good (mk_world c c s [] q n fs).
Proof. intros [Hm Hs]. split; [done|]. simpl in *. by rewrite app_nil_r. Qed.

Lemma wp_rejection action id code w (preserve : bool) :
  (if preserve then good w else held w /\ w_listeners w = []) ->
  wp (_commit_rejection (store := store) action id code false preserve) (fun _ => held) w.
Proof.
  intros Hw. apply up_bind.
  assert (forall w', good w' -> wp (audit_rejection action id code;; commit) (fun _ => held) w') as Hrest.
  { intros w' Hg. eapply up_mono with (Q := fin (fun _ => held)); [|by intros [] ?].
    apply post_fin. apply (wp_bind_post _ _ (fun _ => good)); [by apply wp_emit|].
    intros _ w2 Hg2. by apply wp_commit_good. }
  destruct preserve; [by apply Hrest|]. destruct w as [d c s l q n fs]. simpl in *.
  destruct Hw as [Hh ->]. apply Hrest. by eapply good_rolled_back.
Qed.

Lemma wp_rejected {A} action id code preserve e (Q : res exn A -> world -> Prop) w :
  (if preserve : bool then good w else held w /\ w_listeners w = []) ->
  (forall e w', held w' -> Q (Err e) w') ->
  wp (_commit_rejection action id code false preserve;; raise e) Q w.
Proof.
  intros Hw HQ. apply up_bind. eapply up_mono; [by apply wp_rejection|].
  intros [] w' Hw'; by apply HQ.
Qed.

Lemma wp_guarded {A} action id (m : M (option A)) (R : option A -> world -> Prop) w :
  (forall w, R None w -> held w) -> wp m (post R) w ->
  wp (guarded action id m) (fin (fun a => R (Some a))) w.
Proof.
  intros HN Hm. apply up_bind, up_catch. eapply up_mono; [exact Hm|].
  intros [[a|]|e] w' Hr; simpl; [done|..].
  - destruct w'. by apply HN in Hr.
  - destruct e as [k code| |]; [|exact Hr..]. destruct (decide (k = Rejected)) as [->|Hne].
    + apply wp_rejected; [exact Hr|done].
    + assert (held w' /\ w_listeners w' = []) as Hw'.
      { destruct k; try done; (split; [by apply clean_held|apply Hr]). }
      destruct k; try done; by apply wp_rejected.
Qed.

Lemma wp_conflict {A} action id code (Q : A -> world -> Prop) w :
  good w -> wp (conflict action id code) (fin Q) w.
Proof.
  intros Hg. apply (wp_bind_fin _ _ (fun _ => good)); [by apply post_fin, wp_emit|].
  intros _ w1 Hg1. apply (wp_bind_fin _ _ (fun _ => held)); [|done].
  apply post_fin. by apply wp_commit_good.
Qed.

(** ** Every request leaves what is committed in order *)

Definition ends_well {A} (m : M A) : Prop := forall w, clean w -> wp m (fun _ => held) w.

Lemma fin_held {A} (m : M A) w : wp m (fin (fun _ => held)) w -> wp m (fun _ => held) w.
Proof. intros Hm. eapply up_mono; [exact Hm|]. by intros []. Qed.

Lemma wp_commit_fin w : good w -> wp commit (fin (fun _ => held)) w.
Proof. intros. apply post_fin. by apply wp_commit_good. Qed.

Lemma get_ends_well owner now id : ends_well (get_upload lower str_uuid tenant owner now id).
Proof.
  intros w Hc. apply fin_held. eapply wp_bind_fin; [eapply wp_guarded; [|by apply up_get]|].
  { apply clean_held. }
  intros v w1 ((_ & _ & Hg & _) & _). eapply wp_bind_fin; [by apply wp_commit_fin|done].
Qed.

Lemma sign_ends_well owner now id parts :
  ends_well (sign_parts_endpoint lower str_uuid tenant cfg owner now id parts).
Proof.
  intros w Hc. apply fin_held. eapply wp_bind_fin; [eapply wp_guarded; [|by apply wp_prepare]|].
  { apply clean_held. }
  intros v w1 ((Hu & Hne & Hg & Hcl) & _). simpl in *.
  destruct (u_state (v_upload v)) eqn:Hst; try done; try (by apply wp_conflict).
  all: destruct Hcl as [Hcl|Hin]; [|set_unfold in Hin; naive_solver].
  all: eapply up_mono; [eapply wp_guarded; [|by apply wp_sign_parts]; apply clean_held|].
  all: intros [] w2 Hw2; [by apply clean_held|done].
Qed.

Lemma abort_ends_well owner now id : ends_well (abort_upload lower str_uuid tenant owner now id).
Proof.
  intros w Hc. apply fin_held. eapply wp_bind_fin; [eapply wp_guarded; [|by apply wp_prepare]|].
  { apply clean_held. }
  intros v w1 ((Hu & Hne & Hg & Hcl) & _). simpl in *.
  destruct (u_state (v_upload v)) eqn:Hst; try done; try (by apply wp_conflict); try (by apply wp_commit_fin).
  all: destruct Hcl as [Hcl|Hin]; [|set_unfold in Hin; naive_solver].
  all: eapply wp_bind_fin; [eapply wp_guarded; [|apply wp_abort; [done|by intros; simplify_eq; rewrite Hst]]|].
  all: try done; intros a w2 Hg2; by apply wp_commit_fin.
Qed.

Lemma complete_begin_ends_well owner now id parts :
  ends_well (complete_upload_begin lower str_uuid tenant owner now id parts).
Proof.
  intros w Hc. apply fin_held. eapply wp_bind_fin; [eapply wp_guarded; [|by apply wp_prepare]|].
  { apply clean_held. }
  intros v w1 (Hl & Hid & Hown). simpl in *.
  destruct (u_state (v_upload v)) eqn:Hst; try (by apply wp_conflict, Hl).
  all: eapply wp_bind_fin; [eapply wp_guarded; [|apply wp_audited; [|by eapply wp_complete_begin; [|rewrite Hst|..]]]|]; try done.
  all: intros [d|[]] w2 Hw2; [|done]; (eapply wp_bind_fin; [by apply wp_commit_fin|done]).
Qed.

Lemma complete_finish_ends_well owner id parts :
  ends_well (complete_upload_finish lower str_uuid tenant owner id parts).
Proof.
  intros w Hc. apply fin_held.
  eapply wp_bind_fin; [eapply wp_guarded; [|apply wp_audited; [|by apply wp_complete_finish]]|]; try done.
  intros d w1 Hg. eapply wp_bind_fin; [by apply wp_commit_fin|done].
Qed.

Lemma wp_recover_completing u w :
  open u w -> u_state u = COMPLETING ->
  wp (recover_completing lower str_uuid tenant (u_owner_id u) (u_id u))
    (post (fun _ => good)) w.
Proof.
  intros Ho Hst. apply wp_audited; [done|]. apply wp_lookup.
  intros o [->|(u' & -> & Hu' & _)]; [by apply clean_good, Ho|].
  assert (u' = u) as -> by (destruct Ho as (_ & Hu & _); congruence). rewrite Hst.
  apply (wp_bind_post _ _ (fun _ => ended u COMPLETED)); [by apply wp_recover|by intros d w' [Hg _]].
Qed.

Lemma wp_sweep_recovery u w :
  open u w -> u_state u = COMPLETING ->
  wp (sweep_recovery lower str_uuid tenant (u_owner_id u) (u_id u))
    (fin (fun o w' => match o with None => good w' | Some _ => open u w' end)) w.
Proof.
  intros Ho Hst. apply up_catch.
  apply up_bind. eapply up_mono; [by apply wp_recover_completing|].
  intros [a|e] w' Hr; [exact Hr|]. simpl.
  assert (clean w' -> open u w') as Hopen.
  { intros (Hdb & Hd0 & Hl & Hok). destruct Ho as ((Hdb' & Hd0' & _) & Hu & ?).
    split; [done|]. split; [congruence|done]. }
  assert (held w') as Hheld by (eapply failed_held; exact Hr).
  destruct e as [k code| |]; [|done..].
  destruct k; try done; try (by apply Hopen).
  - destruct (mem code permanent_codes); [by apply Hopen|done].
  - apply (wp_bind_fin _ _ (fun _ => good)); [|done]. by apply post_fin, wp_emit.
Qed.

Lemma sweep_ends_well owner moment id :
  ends_well (sweep_one lower str_uuid tenant owner moment id).
Proof.
  intros w Hc. apply up_catch.
  eapply up_mono with (Q := fin (fun _ => held)).
  2:{ intros [a|e] w' Hw'; [done|]. by destruct e as [[] ?| |]. }
  apply wp_lookup. intros o Hlook.
  apply (wp_bind_fin _ _ (fun _ => good)); [|intros; by apply wp_commit_fin].
  destruct Hlook as [->|(u & -> & Hu & <- & <-)]; [by apply clean_good|].
  destruct (mem (u_state u) _) eqn:Hin; simpl; [|by apply clean_good].
  destruct (moment <? u_expires_at u); [by apply clean_good|].
  apply mem_true in Hin.
  assert (open u w) as Ho by (apply clean_open; auto; set_solver).
  apply (wp_bind_fin _ _ (fun o w' => match o with None => good w' | Some _ => open u w' end)).
  { case_bool_decide; [by apply wp_sweep_recovery|done]. }
  intros [reason|] w1 Hw1; [|done].
  apply post_fin, wp_close; [done|by left|set_unfold; destruct (u_state u); naive_solver|].
  intros w2 Hg2 _. by apply wp_emit.
Qed.

(** ** The first and the last request *)

Definition table_types : list pystr :=
  (_EXTENSION_CONTENT_TYPES.*2 ≫= id) ++ (_EXTENSION_MIME_ALIASES ≫= fun p => p.2.*2).
(** [str.lower] on the (lower-case ASCII) types of the table. *)
Context (lower_table : forall c, c ∈ table_types -> lower c = c).
Context (part_size_pos : 0 < part_size_bytes cfg).

Lemma canonical_in_table filename mime c :
  canonical_content_type_for_filename lower filename mime = Ok c -> c ∈ table_types.
Proof.
  unfold canonical_content_type_for_filename. destruct (rpartition_dot filename) as [[stem ext]|]; [|done].
  destruct (dict_get (lower ext) _EXTENSION_CONTENT_TYPES) as [[|first more]|] eqn:He; try done.
  assert (forall x, x ∈ first :: more -> x ∈ table_types) as Hin.
  { intros x Hx. apply elem_of_app. left. apply list_elem_of_bind. exists (first :: more).
    split; [done|]. apply list_elem_of_fmap. exists (lower ext, first :: more).
    split; [done|]. by apply dict_get_In. }
  case_bool_decide; [done|]. case_bool_decide; [intros [= <-]; apply Hin; set_solver|].
  destruct (mem _ _) eqn:Hm; [apply mem_true in Hm; intros [= <-]; by apply Hin|].
  destruct (dict_get _ (default _ _)) as [alias|] eqn:Ha; [|done]. intros [= <-].
  destruct (dict_get (lower ext) _EXTENSION_MIME_ALIASES) as [al|] eqn:Hal; [|done]. simpl in Ha.
  apply elem_of_app. right. apply list_elem_of_bind. exists (lower ext, al).
  split; [|by apply dict_get_In]. apply list_elem_of_fmap. eexists (_, alias).
  split; [done|]. by apply dict_get_In.
Qed.

Lemma table_normal c : c ∈ table_types -> normalize_content_type lower c = c.
Proof.
  intros Hc. unfold normalize_content_type. pose proof (lower_table c Hc) as Hl.
  assert (forallb (fun c => bool_decide (py_strip (py_partition 59%N c).1 = c)) table_types = true)
    as Hall by (vm_compute; reflexivity).
  rewrite forallb_forall in Hall. apply list_elem_of_In in Hc. specialize (Hall _ Hc).
  apply bool_decide_eq_true in Hall. by rewrite Hall.
Qed.

Lemma ceil_div_spec a b : 0 < b -> (ceil_div a b - 1) * b < a <= ceil_div a b * b.
Proof.
  intros Hb. unfold ceil_div. pose proof (Z.div_mod (- a) b ltac:(lia)).
  pose proof (Z.mod_pos_bound (- a) b Hb). lia.
Qed.

Lemma admitted_upload i filename mime n :
  admit_upload lower cfg i = Ok (filename, mime, n) ->
  mime ∈ table_types /\ n = ceil_div (i_size_bytes i) (part_size_bytes cfg) /\ 0 < i_size_bytes i
  /\ n <= max_parts cfg.
Proof.
  unfold admit_upload. do 2 (case_match; [done|]). case_bool_decide; [done|].
  intros (c & Hc & Hk)%bind_ok. apply bind_ok in Hk as (t & Hv & Hk).
  destruct (canonical_content_type_for_filename _ _ _) as [c'|] eqn:Hcan; [|done].
  injection Hc as <-.
  destruct (validate_upload _ _ _ _ _) as [?|] eqn:Hval; [|done].
  unfold validate_upload in Hval. destruct (negb _) in Hval; [done|].
  destruct (i_size_bytes i <=? 0) eqn:Hpos; [done|].
  destruct (max_parts cfg <? _) eqn:Hmax; [done|]. destruct (admission cfg); [done|].
  injection Hk as <- <- <-. split_and!; auto; [by eapply canonical_in_table|lia..].
Qed.

Lemma quarantine_owned document_id filename key :
  build_quarantine_key nfkc tenant document_id filename = Ok key ->
  assert_key_owned_by key tenant = Ok tt.
Proof.
  intros (t & Hv & Hk)%bind_ok. pose proof (tenant_segment _ _ Hv) as (-> & _ & Hn).
  apply bind_ok in Hk as (d & _ & [= <-]). by apply owned_iff.
Qed.

(** The row of a new session, not over yet, or no row at all: the store may
    lose the upload. *)
Definition fresh_row (u : DocumentUpload) (d : db) : Prop :=
  db_upload d = None \/ db_upload d = Some u.

Lemma session_ok_fresh d u s s' jobs :
  fresh_row u d -> u_state u = INITIATED -> declared_ok u s' ->
  session_ok gone d s jobs -> session_ok gone d s' jobs.
Proof.
  intros [Hn|Hu] HI Hd; [unfold session_ok; by rewrite Hn|].
  eapply session_ok_store; eauto; [rewrite HI; set_solver|by rewrite HI].
Qed.

Lemma wp_abort_raise {A} u e (Q : res exn A -> world -> Prop) w :
  assert_key_owned_by (u_storage_key u) tenant = Ok tt -> held w ->
  fresh_row u (w_committed w) -> u_state u = INITIATED ->
  (forall e' w', e' = e \/ e' = AppError Dependency (cp "storage_unavailable") \/ e' = Died ->
     held w' -> w_listeners w' = w_listeners w -> Q (Err e') w') ->
  wp (abort_multipart_upload tenant (u_storage_key u) (u_provider_upload_id u);; raise e) Q w.
Proof.
  intros Hk Hh Hf HI HQ. apply up_bind, up_bind. unfold wp at 1, owned, lift. rewrite Hk.
  destruct w as [d c s l q n fs]. destruct Hh as [Hm Hok]. simpl in *.
  assert (forall s' fs', s' = s \/ s' = s3_abort (u_storage_key u) (u_provider_upload_id u) s ->
    held (mk_world d c s' l q n fs')) as Hheld.
  { intros s' fs' [->| ->]; (split; [done|]); [done|].
    apply session_ok_fresh with (u := u) (s := s); auto. intros ct meta. simpl. by rewrite live_abort. }
  apply wp_provider; simpl.
  - intros fs'. apply HQ; auto.
  - intros fs' e' s' Hs' He. apply HQ; auto.
Qed.

Lemma wp_initiate owner now collection_owner i w :
  gone = false -> clean w -> db_upload (w_db w) = None ->
  wp (initiate lower nfkc str_uuid tenant cfg owner now collection_owner i)
    (post (fun o w' => match o with
                       | None => held w'
                       | Some v => good w' /\ w_listeners w' = []
                           /\ db_upload (w_db w') = Some (v_upload v)
                           /\ db_upload (w_committed w') = None
                           /\ u_state (v_upload v) = INITIATED
                       end)) w.
Proof.
  intros Hgone Hc Hnone. apply wp_audited; [done|].
  destruct (negb _); [by apply clean_held|].
  apply (wp_bind_post _ _ (fun a w' => w' = w /\ admit_upload lower cfg i = Ok a)).
  { unfold wp, lift. destruct (admit_upload lower cfg i) as [a|e] eqn:Ha; [done|]. simpl.
    destruct e; [by apply clean_failed|by apply clean_held..]. }
  intros [[filename mime] parts] w' [-> Ha]. apply admitted_upload in Ha as (Hmime & -> & Hsize & _).
  unfold create_multipart_upload.
  destruct (build_quarantine_key _ _ _ _) as [key|e] eqn:Hkey.
  2:{ apply up_bind, up_bind. destruct e; exact Hc. }
  destruct w as [d c s l q n fs]. pose proof Hc as (Hdb & Hd0 & Hl & Hok). simpl in *. subst c l.
  rewrite Hnone in Hd0. assert (forall s', session_ok gone d s' q) as Hok'.
  { intros s'. unfold session_ok in *. by rewrite Hnone in *. }
  assert (forall d' s' l fs', held (mk_world d' d s' l q n fs')) as Hheld.
  { intros. split; [apply moved_refl; simpl; congruence|apply Hok']. }
  apply up_bind, up_bind. unfold wp at 1, lift. simpl.
  apply up_bind, wp_provider; simpl.
  2:{ intros fs' e s' _ [->| ->]; simpl; [split|]; auto. }
  intros fs1. unfold ret at 1, wp at 1.
  pose proof (live_create key (normalize_content_type lower mime)
    (object_metadata str_uuid (i_upload_id i) (i_document_id i)) s) as Hlive.
  destruct (s3_create _ _ _ _) as [pid s1]. simpl in *.
  set (u := mk_upload _ _ _ _ _ _ _ _ _ _ _ _ _ _).
  assert (assert_key_owned_by key tenant = Ok tt) as Hown by by eapply quarantine_owned.
  assert (good (mk_world (mk_db (Some u) (db_document d) (db_events d)) d s1 [] q n fs1)) as Hg.
  { split; [done|]. split; [unfold moved; by rewrite <- Hd0|]. simpl. rewrite app_nil_r.
    unfold session_ok in Hok. rewrite Hnone in Hok. destruct Hok as (Hdoc & Hev).
    destruct (Hev Hgone) as [Hev' ->].
    unfold session_ok; simpl. split_and!; auto.
    - split; [done|]. split; [done|]. by apply ceil_div_spec.
    - by rewrite !(table_normal mime Hmime).
    - intros ct meta Hl. unfold declared_ok in Hl. simpl in Hl. rewrite Hlive in Hl. by injection Hl as <- <-.
    - by unfold state_ok. }
  assert (forall e d' fs' (P : option UploadSessionView -> world -> Prop),
    (forall k code, e <> AppError k code) ->
    wp (match e with
        | Died => raise e
        | _ => abort_multipart_upload tenant key pid;; raise e
        end) (post P) (mk_world d' d s1 [] q n fs')) as Hundo.
  { intros e d' fs' P He.
    assert (forall e' w', e' = e \/ e' = AppError Dependency (cp "storage_unavailable") \/ e' = Died ->
      held w' -> w_listeners w' = [] -> failed e' w') as Hf.
    { intros e' w' [->|[->| ->]] Hh Hls; [by apply held_failed|by split|done]. }
    destruct e as [k code| |]; [by destruct (He k code)| |by apply Hf; auto].
    apply (wp_abort_raise u); [done|apply Hheld|by left|done|]. intros e' w' He' Hh Hls. by apply Hf. }
  apply up_catch, up_bind, wp_flush; [|intros; by apply Hundo]. intros fs2.
  apply up_bind, wp_flush; [|intros; by apply Hundo]. intros fs3.
  split; [|done]. destruct Hg as (_ & Hm & Hg). split; [done|]. split; [exact Hm|].
  apply session_ok_event; [done|exact Hg].
Qed.

Lemma initiate_ends_well owner now collection_owner i :
  gone = false -> db_upload d0 = None ->
  ends_well (initiate_upload lower nfkc str_uuid tenant cfg owner now collection_owner i).
Proof.
  intros Hgone Hnone w Hc. assert (db_upload (w_db w) = None) as Hn by (destruct Hc as (-> & -> & _); done).
  apply fin_held. eapply wp_bind_fin; [eapply wp_guarded; [|by apply wp_initiate]; done|].
  intros v w1 (Hg & Hl & Hup & Hcom & HI). simpl in *.
  assert (assert_key_owned_by (u_storage_key (v_upload v)) tenant = Ok tt) as Hown.
  { destruct Hg as (_ & _ & Hok). unfold session_ok in Hok. rewrite Hup in Hok. apply Hok. }
  apply up_catch, up_bind. destruct w1 as [d c s l q n fs]. simpl in *. subst l.
  assert (forall e c' fs', (forall k code, e <> AppError k code) ->
    (c' = c \/ c' = d) -> held (mk_world d c' s [] q n fs') ->
    wp (match e with
        | Died => raise e
        | _ => rollback;; abort_multipart_upload tenant (u_storage_key (v_upload v))
                 (u_provider_upload_id (v_upload v));; raise e
        end) (fin (fun _ : UploadSessionView => held)) (mk_world d c' s [] q n fs')) as Hundo.
  { intros e c' fs' He Hc' Hh. destruct e as [k code| |]; [by destruct (He k code)| |done].
    apply up_bind. unfold wp at 1, rollback. simpl. apply (wp_abort_raise (v_upload v)); auto.
    destruct Hc' as [->| ->]; [by left|by right]. }
  pose proof Hg as (Hheld & Hm & Hok). simpl in *. rewrite app_nil_r in Hok.
  apply wp_commit; simpl.
  - intros fs'. split; [done|]. simpl. by rewrite app_nil_r.
  - intros fs' e He. apply Hundo; auto.
  - intros fs' e He. rewrite app_nil_r. apply Hundo; auto. by split.
Qed.

(** *** Deletions *)

(** The row of a session being deleted, whose object may go. *)
Definition doomed (u : DocumentUpload) (w : world) : Prop :=
  gone = true /\ db_upload (w_committed w) = Some u /\ u_state u = COMPLETED /\ db_upload (w_db w) = None.

Lemma session_ok_deleted d u s jobs :
  gone = true -> db_upload d = Some u -> u_state u = COMPLETED ->
  session_ok gone d s jobs -> session_ok gone d (s3_delete (u_storage_key u) s) jobs.
Proof.
  unfold session_ok, state_ok, declared_ok. intros Hgone -> -> (? & ? & ? & Hd & ? & ? & ? & _).
  split_and!; try done.
  - intros ct meta. rewrite live_delete. apply Hd.
  - right. split; [done|]. apply head_delete.
Qed.

Lemma wp_delete_object (Q : res exn unit -> world -> Prop) u w :
  doomed u w -> good w ->
  (forall r w', good w' -> w_listeners w' = w_listeners w -> w_db w' = w_db w ->
     r = Ok tt \/ r = Err Died \/ (exists code, r = Err (AppError Dependency code)) -> Q r w') ->
  wp (delete tenant (u_storage_key u)) Q w.
Proof.
  intros (Hgone & Hcu & Hst & Hdu) ([Hm Hs] & Hm' & Hs') HQ. destruct w as [d c s l q n fs]. simpl in *.
  assert (assert_key_owned_by (u_storage_key u) tenant = Ok tt) as Hkey.
  { unfold session_ok in Hs. rewrite Hcu in Hs. apply Hs. }
  apply up_bind. unfold wp at 1, owned, lift. rewrite Hkey.
  assert (forall s' fs', s' = s \/ s' = s3_delete (u_storage_key u) s -> good (mk_world d c s' l q n fs')) as Hgood.
  { intros s' fs' Hs''. split; [split; simpl; [done|]|split; simpl; [done|]].
    - destruct Hs'' as [->| ->]; [done|]. by apply session_ok_deleted.
    - unfold session_ok in *. by rewrite Hdu in *. }
  apply wp_provider; simpl.
  - intros fs'. apply HQ; auto.
  - intros fs' e s' Hs'' [->| ->]; apply HQ; eauto.
Qed.

(** The rows are taken away. *)
Lemma good_erased d c s l q n fs es :
  (gone = true /\ dropping = true \/ db_upload d0 = None /\ db_upload d = None) ->
  uploaded_events es = uploaded_events (db_events d) ->
  good (mk_world d c s l q n fs) -> good (mk_world (mk_db None None es) c s l q n fs).
Proof.
  intros Hcase Hes (Hh & Hm & Hok). simpl in *. split; [exact Hh|]. split; simpl.
  - unfold moved. destruct Hcase as [[_ ->]|[-> _]]; [|done]. destruct (db_upload d0); [by right|done].
  - unfold session_ok in *. simpl. rewrite Hes. split; [done|].
    destruct Hcase as [[-> _]|[_ Hd]]; [done|]. rewrite Hd in Hok. apply Hok.
Qed.

(** The end of the deletion of a collection. *)
Lemma wp_cascade collection od w :
  good w ->
  (gone = true /\ dropping = true \/ db_upload d0 = None /\ db_upload (w_db w) = None) ->
  (forall doc, od = Some doc -> exists u, gone = true /\ db_upload (w_committed w) = Some u
     /\ u_state u = COMPLETED /\ d_storage_key doc = u_storage_key u) ->
  wp (flush (fun d => mk_db None None (db_events d));;
      emit COLLECTION_DELETED ALLOWED collection None;;
      (match od with
       | Some doc =>
           emit DOCUMENT_DELETED ALLOWED (d_id doc) None;;
           catch (delete tenant (d_storage_key doc)) (fun e =>
             match e with Died => raise e | _ => ret tt end)
       | None => ret tt
       end);;
      commit) (fin (fun _ => held)) w.
Proof.
  intros Hg Hcase Hdoc. destruct w as [d c s l q n fs]. simpl in *.
  apply up_bind, wp_flush; [|intros; apply Hg]. intros fs1.
  apply (wp_bind_fin _ _ (fun _ w' => good w' /\ db_upload (w_db w') = None /\ w_committed w' = c)).
  { apply post_fin, wp_emit; [done|by apply (good_erased d)|]. intros w' Hg' -> -> _. done. }
  intros _ w2 (Hg2 & Hu2 & Hc2). apply (wp_bind_fin _ _ (fun _ => good)); [|by intros _ w3; apply wp_commit_fin].
  destruct od as [doc|]; [|done]. destruct (Hdoc doc eq_refl) as (u & Hgone & Hu & Hst & ->).
  apply (wp_bind_fin _ _ (fun _ w' => good w' /\ doomed u w')).
  { apply post_fin, wp_emit; [done|done|]. intros w' Hg' Hd' Hc' _. split; [done|].
    unfold doomed. by rewrite Hc', Hc2, Hd'. }
  intros _ w3 [Hg3 Hd3]. apply up_catch. apply (wp_delete_object _ u); [done|done|].
  intros r w4 Hg4 _ _ [->|[->|[code ->]]]; [done|apply Hg4|done].
Qed.

Lemma drop_ends_well owner collection :
  (gone = true /\ dropping = true \/ db_upload d0 = None) ->
  (forall u, db_upload d0 = Some u -> u_owner_id u = owner) ->
  ends_well (drop_session tenant owner collection).
Proof.
  intros Hcase Hown w Hc. apply fin_held. apply up_bind. unfold wp at 1, read.
  pose proof Hc as (Hdb & Hd0 & Hl & Hok).
  destruct (db_upload (w_db w)) as [u|] eqn:Hu.
  2:{ apply up_bind. unfold wp at 1, ret. simpl. apply up_bind. unfold wp at 1, read.
      apply wp_cascade; [by apply clean_good|right; split; congruence|].
      intros doc Hdoc. unfold session_ok in Hok. rewrite <-Hdb, Hu in Hok. destruct Hok. congruence. }
  assert (gone = true /\ dropping = true) as [Hgone Hdrop].
  { destruct Hcase as [?|Hn]; [done|]. congruence. }
  destruct (mem _ _) eqn:Hin.
  - apply mem_true in Hin. assert (u_owner_id u = owner) as <- by (apply Hown; congruence).
    apply (wp_bind_fin _ _ (fun _ w' => good w' /\ db_document (w_db w') = None)).
    2:{ intros _ w1 [Hg1 Hn1]. apply up_bind. unfold wp at 1, read. apply wp_cascade; [done|by left|].
        rewrite Hn1. done. }
    apply post_fin. apply wp_close; [apply clean_open; auto; set_solver|by right|by rewrite Hdrop, orb_true_r|].
    intros w' Hg' Hu'. eapply wp_bind_post; [apply (wp_emit _ _ _ _ (fun _ w'' => good w''
      /\ db_document (w_db w'') = None)); [done|done|]|].
    { intros w'' Hg'' -> _ _. split; [done|]. simpl. destruct Hg' as (_ & _ & Hs'). unfold session_ok in Hs'.
      rewrite Hu' in Hs'. destruct Hs' as (_ & _ & _ & _ & Hs'). apply Hs'. }
    intros _ w'' [Hg'' Hn'']. destruct w'' as [d c s l q n fs]. simpl in *.
    apply wp_flush; [|intros; by apply held_failed; [|apply Hg'']]. intros fs'. split; [|done].
    simpl. rewrite Hn''. apply (good_erased d); auto.
  - apply up_bind. unfold wp at 1, ret. simpl. apply up_bind. unfold wp at 1, read.
    apply wp_cascade; [by apply clean_good|by left|]. intros doc Hdoc. exists u.
    unfold session_ok in Hok. rewrite <-Hdb, Hu in Hok. destruct Hok as (_ & _ & _ & _ & Hok).
    unfold state_ok in Hok. destruct (u_state u) eqn:Hst; try (destruct Hok; congruence).
    destruct Hok as [Hd _]. split_and!; [done|congruence|done|]. assert (doc = document_of u) as -> by congruence.
    done.
Qed.

Lemma delete_ends_well owner id :
  (forall u, db_upload d0 = Some u -> u_state u = COMPLETED -> gone = true /\ dropping = true) ->
  ends_well (delete_document tenant owner id).
Proof.
  intros Hcase w Hc. apply fin_held. pose proof Hc as (Hdb & Hd0 & Hl & Hok).
  apply (wp_bind_fin _ _ (fun o w' => match o with Some _ => good w' | None => held w' end)).
  2:{ intros [[]|] w' Hw'; [by apply wp_commit_fin|done]. }
  apply post_fin, wp_audited; [done|]. apply up_bind. unfold documents_get. apply up_bind.
  unfold wp at 1 2, read, ret. simpl. destruct (db_document (w_db w)) as [doc|] eqn:Hdoc; [|by apply clean_held].
  destruct (bool_decide (d_id doc = id)) eqn:Hid; [|by apply clean_held].
  apply bool_decide_eq_true in Hid as <-. destruct (bool_decide (d_owner_id doc = owner)); [|by apply clean_held].
  rewrite <-Hdb in Hok. unfold session_ok in Hok. destruct (db_upload (w_db w)) as [u|] eqn:Hu;
    [|destruct Hok; congruence].
  destruct Hok as (_ & _ & _ & _ & Hok). unfold state_ok in Hok.
  destruct (u_state u) eqn:Hst; try (destruct Hok; congruence).
  destruct Hok as [Hd _]. rewrite Hd in Hdoc. injection Hdoc as <-.
  destruct (Hcase u ltac:(congruence) Hst) as [Hgone Hdrop]. pose proof (clean_good _ Hc) as Hg.
  destruct w as [d c s l q n fs]. simpl in *.
  apply up_bind, wp_flush; [|intros; by apply held_failed; [|apply Hg]]. intros fs1. rewrite Hu.
  rewrite bool_decide_eq_true_2 by done. apply up_bind.
  apply (wp_delete_object _ u).
  - split_and!; simpl; [done|congruence|done|done].
  - apply (good_erased d); auto.
  - intros r w1 Hg1 Hl1 Hd1 [->|[->|[code ->]]]; simpl in *.
    + eapply wp_bind_post; [apply (wp_emit _ _ _ _ (fun _ => good)); [done|done|auto]|]. done.
    + apply Hg1.
    + split; [apply Hg1|congruence].
Qed.
End transaction.

(** ** Reachable systems *)

Definition world_ok (gone : bool) (w : world) : Prop :=
  session_ok gone (w_committed w) (w_store w) (w_queue w).

Lemma run_ok {A} (m : M A) gone dropping faults w :
  ends_well gone dropping (w_committed w) m -> world_ok gone w ->
  world_ok gone (run m faults w).2 /\ moved dropping (w_committed w) (w_committed (run m faults w).2).
Proof.
  intros Hm Hok. unfold run.
  pose proof (Hm (mk_world (w_committed w) (w_committed w) (w_store w) [] (w_queue w)
    (w_denials w) faults) (conj eq_refl (conj eq_refl (conj eq_refl Hok)))) as Hw.
  unfold wp in Hw. destruct (m _) as [r w']. simpl. destruct Hw as [Hmv Hok']. by split.
Qed.

Lemma session_ok_gone d s jobs gone : session_ok gone d s jobs -> session_ok true d s jobs.
Proof.
  unfold session_ok, state_ok. destruct (db_upload d) as [u|]; [|by intros [? _]].
  destruct (u_state u); try done. naive_solver.
Qed.

(** Only the row's absence and a document's object depend on a deletion. *)
Lemma session_ok_row d u s jobs gone gone' :
  db_upload d = Some u -> u_state u <> COMPLETED -> session_ok gone d s jobs -> session_ok gone' d s jobs.
Proof. intros Hu Hst. unfold session_ok, state_ok. rewrite Hu. by destruct (u_state u). Qed.

Lemma put_part_ok gone d s jobs u part :
  db_upload d = Some u -> session_ok gone d s jobs ->
  session_ok gone d (s3_put_part (u_storage_key u) (u_provider_upload_id u) part s) jobs.
Proof.
  unfold session_ok, declared_ok, state_ok, gone_object, gone_parts. intros ->.
  rewrite live_put, head_put. done.
Qed.

Section reachable.
Context (lower_table : forall c, c ∈ table_types -> lower c = c).
Context (part_size_pos : 0 < part_size_bytes cfg).

Abbreviation step := (sys_step lower nfkc str_uuid tenant cfg).
Abbreviation reachable := (sys_reachable lower nfkc str_uuid tenant cfg).

Lemma moved_self d : moved false d d.
Proof. by apply moved_refl. Qed.

(** What does not commit. *)
Definition keeps {A} (m : M A) : Prop :=
  forall w, wp m (fun _ w' => w_committed w' = w_committed w) w.

Lemma keeps_bind {A B} (m : M A) (k : A -> M B) : keeps m -> (forall a, keeps (k a)) -> keeps (m ≫= k).
Proof.
  intros Hm Hk w. apply up_bind. eapply up_mono; [apply Hm|].
  intros [a|e] w' Hw'; [|done]. simpl in *. rewrite <- Hw'. apply Hk.
Qed.
Lemma keeps_ret {A} (a : A) : keeps (ret a).
Proof. by intros w. Qed.
Lemma keeps_flush f : keeps (flush f).
Proof. intros []. by apply wp_flush. Qed.
Lemma keeps_provider {A} (call : store -> A * store) : keeps (provider call).
Proof. intros []. by apply wp_provider. Qed.
Lemma keeps_owned key : keeps (owned tenant key).
Proof. by intros w. Qed.
Lemma keeps_lookup id owner : keeps (get_for_owner id owner).
Proof. by intros w. Qed.
Hint Resolve keeps_bind keeps_ret keeps_flush keeps_provider keeps_owned keeps_lookup : core.

Lemma keeps_set_state id owner s e : keeps (set_state id owner s e).
Proof. apply keeps_bind; [auto|]. intros [u|]; auto. Qed.
Hint Resolve keeps_set_state : core.

(** What leaves the rows taken away, before anything is committed. *)
Definition pending_erasure (c : db) (w : world) : Prop :=
  w_committed w = c /\ db_upload (w_db w) = None.
Definition erasing {A} (m : M A) : Prop :=
  forall c w, pending_erasure c w -> wp m (fun _ => pending_erasure c) w.

Lemma erasing_bind {A B} (m : M A) (k : A -> M B) :
  erasing m -> (forall a, erasing (k a)) -> erasing (m ≫= k).
Proof.
  intros Hm Hk c w Hw. apply up_bind. eapply up_mono; [by apply (Hm c)|]. intros [a|e] w' Hw'; [by apply Hk|done].
Qed.
Lemma erasing_catch {A} (m : M A) h : erasing m -> (forall e, erasing (h e)) -> erasing (catch m h).
Proof.
  intros Hm Hh c w Hw. apply up_catch. eapply up_mono; [by apply (Hm c)|]. intros [a|e] w' Hw'; [done|by apply Hh].
Qed.
Lemma erasing_ret {A} (a : A) : erasing (ret a).
Proof. by intros c w. Qed.
Lemma erasing_raise {A} e : erasing (raise (A := A) e).
Proof. by intros c w. Qed.
Lemma erasing_emit action outcome resource code : erasing (emit action outcome resource code).
Proof. intros c [] [Hc Hd]. by apply wp_flush. Qed.
Lemma erasing_delete key : erasing (delete tenant key).
Proof.
  intros c [] [Hc Hd]. apply up_bind. unfold wp at 1, owned, lift.
  destruct (assert_key_owned_by key tenant); [|done]. by apply wp_provider.
Qed.
Hint Resolve erasing_bind erasing_catch erasing_ret erasing_raise erasing_emit erasing_delete : core.

Definition undone_or_erased (c : db) {A} (r : res exn A) (w' : world) : Prop :=
  w_committed w' = c \/ db_upload (w_committed w') = None.

Lemma commit_erasure {A} (m : M A) (k : A -> M unit) c w :
  erasing m -> pending_erasure c w -> (forall a, k a = commit \/ exists e, k a = raise e) ->
  wp (m ≫= k) (undone_or_erased c) w.
Proof.
  intros Hm Hw Hk. apply up_bind. eapply up_mono; [by apply (Hm c)|].
  intros [a|e] w1 [Hc Hd]; [|by left]. destruct (Hk a) as [->|[e ->]]; [|by left].
  destruct w1. simpl in *. apply wp_commit; unfold undone_or_erased; simpl; auto.
Qed.

Lemma drop_commits_once owner collection faults w :
  let w' := (run (drop_session tenant owner collection) faults w).2 in
  w_committed w' = w_committed w \/ db_upload (w_committed w') = None.
Proof.
  set (w0 := mk_world (w_committed w) (w_committed w) (w_store w) [] (w_queue w) (w_denials w) faults).
  enough (wp (drop_session tenant owner collection) (undone_or_erased (w_committed w0)) w0) as Hw.
  { unfold run, wp in *. fold w0. by destruct (drop_session _ _ _ _). }
  apply up_bind. unfold wp at 1, read. apply up_bind. eapply up_mono.
  { destruct (db_upload (w_db w0)) as [u|]; [destruct (mem _ _)|]; [|apply keeps_ret..].
    apply keeps_bind; [apply keeps_bind; auto|intros _]. apply keeps_bind; [apply keeps_bind; auto|intros _].
    apply keeps_bind; [auto|intros _]. apply keeps_bind; [unfold emit; auto|intros _]. auto. }
  intros [a|e] w1 Hw1; [|by left]. simpl in *. apply up_bind. unfold wp at 1, read.
  destruct w1 as [d c s l q n fs]. simpl in *. subst c.
  apply up_bind, wp_flush; [|by left]. intros fs1.
  apply up_bind. eapply up_mono; [by apply (erasing_emit _ _ _ _ (w_committed w))|].
  intros [b|e] w2 Hw2; [|by left; apply Hw2]. apply commit_erasure; [|done|by left].
  destruct (db_document d); [|auto]. apply erasing_bind; [auto|]. intros _. apply erasing_catch; [auto|].
  intros []; auto.
Qed.

Lemma delete_commits_once owner id faults w :
  (forall u doc, db_upload (w_committed w) = Some u -> db_document (w_committed w) = Some doc ->
     d_id doc = u_document_id u) ->
  let w' := (run (delete_document tenant owner id) faults w).2 in
  w_committed w' = w_committed w \/ db_upload (w_committed w') = None.
Proof.
  intros Hown. set (w0 := mk_world (w_committed w) (w_committed w) (w_store w) [] (w_queue w) (w_denials w) faults).
  enough (wp (delete_document tenant owner id) (undone_or_erased (w_committed w)) w0) as Hw.
  { unfold run, wp in *. fold w0. by destruct (delete_document _ _ _). }
  set (c := w_committed w) in *.
  set (P := fun (r : res exn (option unit)) (w' : world) =>
    w_committed w' = c /\ (forall u, r = Ok (Some u) -> db_upload (w_db w') = None)).
  apply up_bind. eapply (up_mono _ P).
  2:{ intros [[u|]|e] w1 [Hc1 Hd1]; [|by left|by left]. specialize (Hd1 u eq_refl).
      destruct w1. simpl in *. apply wp_commit; unfold undone_or_erased; simpl; auto. }
  apply up_bind, up_catch. eapply (up_mono _ P).
  2:{ intros [[u|]|e] w1 HP; [done|destruct w1; exact HP|].
      destruct e as [[] ?| |]; try exact HP; destruct w1; exact HP. }
  apply up_bind. unfold documents_get. apply up_bind. unfold wp at 1 2, read, ret. simpl. fold c.
  destruct (db_document c) as [doc|] eqn:Hdoc; [|done].
  destruct (bool_decide (d_id doc = id)) eqn:Hid; [|done]. apply bool_decide_eq_true in Hid as <-.
  destruct (bool_decide (d_owner_id doc = owner)); [|done].
  apply up_bind, wp_flush; [|done]. intros fs1.
  assert (pending_erasure c (mk_world (mk_db (match db_upload c with
    | Some u => if bool_decide (u_document_id u = d_id doc) then None else Some u
    | None => None end) None (db_events c)) c (w_store w) [] (w_queue w) (w_denials w) fs1)) as Hp.
  { split; [done|]. simpl. destruct (db_upload c) as [u|] eqn:Hu; [|done].
    by rewrite bool_decide_eq_true_2 by (by erewrite Hown). }
  apply up_bind. eapply up_mono; [by apply (erasing_delete _ c)|]. intros [b|e] w1 Hw1; [|by split; [apply Hw1|]].
  apply up_bind. eapply up_mono; [by apply (erasing_emit _ _ _ _ c)|].
  intros [b'|e] w2 [Hc2 Hd2]; by split.
Qed.

(** A step that is not a deletion moves the row one state at most; a deletion takes
    the row away or leaves it. *)
Lemma step_ok y y' :
  world_ok (y_gone y) (y_world y) -> step y y' ->
  world_ok (y_gone y') (y_world y')
  /\ (is_Some (db_upload (w_committed (y_world y'))) ->
      moved false (w_committed (y_world y)) (w_committed (y_world y'))).
Proof.
  intros Hok Hstep. assert (forall A (m : M A) faults gone w,
    ends_well gone false (w_committed w) m -> world_ok gone w ->
    world_ok gone (run m faults w).2 /\ (is_Some (db_upload (w_committed (run m faults w).2)) ->
      moved false (w_committed w) (w_committed (run m faults w).2))) as Hrun.
  { intros A m faults gone w Hm Hw. destruct (run_ok m gone false faults w Hm Hw). done. }
  assert (forall A (m : M A) faults gone w, world_ok gone w ->
    ends_well (begun (w_committed w) (mk_db None None []) gone) true (w_committed w) m ->
    (w_committed (run m faults w).2 = w_committed w \/ db_upload (w_committed (run m faults w).2) = None) ->
    world_ok (begun (w_committed w) (w_committed (run m faults w).2) gone) (run m faults w).2
    /\ (is_Some (db_upload (w_committed (run m faults w).2)) ->
        moved false (w_committed w) (w_committed (run m faults w).2))) as Hdel.
  { intros A m faults gone w Hw Hm Honce.
    destruct (run_ok m _ true faults w Hm) as [Hw' _].
    { unfold world_ok, begun in *. destruct (db_upload (w_committed w)); [by eapply session_ok_gone|done]. }
    split.
    - unfold world_ok, begun in *. destruct (db_upload (w_committed w)) as [u|] eqn:Hu; [|done]. simpl in Hw'.
      destruct (db_upload (w_committed (run m faults w).2)) as [u'|] eqn:Hu'; [|done].
      destruct Honce as [Hc|Hc]; [|congruence]. assert (u' = u) as -> by congruence.
      destruct (decide (u_state u = COMPLETED)) as [HC|HC].
      + by rewrite bool_decide_eq_true_2, orb_true_r.
      + rewrite bool_decide_eq_false_2, orb_false_r by done. by eapply session_ok_row.
    - intros [u Hu]. destruct Honce as [->|Hc]; [apply moved_self|congruence]. }
  destruct Hstep; simpl in *; try (apply Hrun; [|done]).
  - by apply initiate_ends_well.
  - split; [by apply put_part_ok|intros; apply moved_self].
  - apply get_ends_well.
  - apply sign_ends_well.
  - apply abort_ends_well.
  - apply (f_equal snd) in H1. simpl in H1. subst w'. apply Hrun; [apply complete_begin_ends_well|done].
  - apply complete_finish_ends_well.
  - apply sweep_ends_well.
  - apply (Hdel _ (drop_session tenant owner collection)); [done| |apply drop_commits_once]. apply drop_ends_well; [done|done| |done].
    unfold begun. destruct (db_upload _); [by left|by right].
  - apply (Hdel _ (delete_document tenant owner id)); [done| |apply delete_commits_once].
    + apply delete_ends_well. intros u Hu _. unfold begun. by rewrite Hu.
    + intros u doc Hu Hdoc. unfold world_ok, session_ok in Hok. rewrite Hu in Hok.
      destruct Hok as (_ & _ & _ & _ & Hok). unfold state_ok in Hok.
      destruct (u_state u); destruct Hok as [Hd _]; rewrite Hd in Hdoc; by simplify_eq.
Qed.

Lemma reachable_ok s y :
  reachable s y -> world_ok (y_gone y) (y_world y).
Proof. induction 1 as [|y y' _ IH Hstep]; [done|]. by destruct (step_ok _ _ IH Hstep). Qed.

(** C24: the session's row, its document, its ingestion job and its object agree
    at every moment, whatever requests, retries, deletions, outages and crashes came
    before: the parts cover the size exactly; there is a document just when the
    session is [COMPLETED], it is the one that was announced, and one event and at
    most one job report it; its object is in the store, verified, as long as no
    deletion of the document or of its collection was begun, and is never anything
    but that object; a session that ended otherwise has no object, and no upload
    once aborted or expired.  A deletion takes the object before it commits, so one
    that fails then can leave the document without it, see
    [failed_deletion_keeps_the_row]. *)
Theorem upload_sessions_well_formed s y u
    (Hreach : reachable s y)
    (Hrow : db_upload (w_committed (y_world y)) = Some u) :
  let d := w_committed (y_world y) in
  let st := w_store (y_world y) in
  let jobs := w_queue (y_world y) in
  geometry u
  /\ (is_Some (db_document d) <-> u_state u = COMPLETED)
  /\ (forall doc, db_document d = Some doc -> doc = document_of u
       /\ ((exists m, s3_head (u_storage_key u) st = Some m /\ object_of u m)
           \/ y_gone y = true /\ s3_head (u_storage_key u) st = None))
  /\ uploaded_events (db_events d) = (if decide (u_state u = COMPLETED) then 1 else 0)%nat
  /\ (jobs = [] \/ jobs = [job_of u] /\ u_state u = COMPLETED)
  /\ (u_state u ∈ [ABORTED; EXPIRED; FAILED] -> s3_head (u_storage_key u) st = None)
  /\ (u_state u ∈ [ABORTED; EXPIRED] ->
       s3_list_parts (u_storage_key u) (u_provider_upload_id u) st = None).
Proof.
  pose proof (reachable_ok _ _ Hreach) as Hok. unfold world_ok, session_ok in Hok.
  rewrite Hrow in Hok. destruct Hok as (Hg & _ & _ & _ & Hok). simpl. split; [done|].
  unfold state_ok, gone_object, gone_parts in Hok.
  destruct (u_state u) eqn:Hst; destruct Hok as (Hdoc & Hev & Hq & Hrest); rewrite Hdoc;
    split_and!; try done; try (by left); try (intros Hin; set_unfold in Hin; naive_solver);
    try (split; [by intros [? ?]|done]).
  - naive_solver.
  - destruct Hq as [->| ->]; auto.
  - intros _. apply list_live, Hrest.
  - intros _. apply list_live, Hrest.
Qed.

(** A session moves one state at a time and only forwards: [COMPLETED],
    [ABORTED] and [EXPIRED] are final, only a session that is completing
    completes, and no request changes what the session was opened with. *)
Theorem upload_states_progress s y y' u u'
    (Hreach : reachable s y) (Hstep : step y y')
    (Hrow : db_upload (w_committed (y_world y)) = Some u)
    (Hrow' : db_upload (w_committed (y_world y')) = Some u') :
  allowed (u_state u) (u_state u') = true
  /\ u' = set_state_of (u_state u') (u_error u') u
  /\ (u_state u = COMPLETED ->
      db_document (w_committed (y_world y')) = db_document (w_committed (y_world y))).
Proof.
  pose proof (reachable_ok _ _ Hreach) as Hok.
  destruct (step_ok _ _ Hok Hstep) as [Hok' Hmove].
  specialize (Hmove (ex_intro _ u' Hrow')). unfold moved in Hmove. rewrite Hrow, Hrow' in Hmove.
  destruct Hmove as [(st & e & Heq & Ha)|[? _]]; [|done]. injection Heq as ->.
  rewrite orb_false_r in Ha. split; [done|]. split; [done|]. intros HC. rewrite HC in Ha.
  unfold world_ok, session_ok, state_ok in *. rewrite Hrow in Hok. rewrite Hrow' in Hok'.
  destruct Hok as (_ & _ & _ & _ & Hok). destruct Hok' as (_ & _ & _ & _ & Hok').
  rewrite HC in Hok. simpl in Ha. destruct st; try done. simpl in Hok'.
  destruct Hok as [-> _], Hok' as [-> _]. done.
Qed.

(** ** Without faults *)

Lemma bind_run {A B} (m : M A) (k : A -> M B) w a w' : m w = (Ok a, w') -> (m ≫= k) w = k a w'.
Proof. unfold mbind, M_bind, bind. by intros ->. Qed.
Lemma catch_run {A} (m : M A) h w a w' : m w = (Ok a, w') -> catch m h w = (Ok a, w').
Proof. unfold catch. by intros ->. Qed.
Lemma bind_fail {A B} (m : M A) (k : A -> M B) w e w' :
  m w = (Err e, w') -> (m ≫= k) w = (Err e, w').
Proof. unfold mbind, M_bind, bind. by intros ->. Qed.
Lemma catch_fail {A} (m : M A) h w e w' : m w = (Err e, w') -> catch m h w = h e w'.
Proof. unfold catch. by intros ->. Qed.
Lemma owned_run {A} key (k : M A) w :
  assert_key_owned_by key tenant = Ok tt -> (owned tenant key;; k) w = k w.
Proof.
  intros Hk. apply (bind_run _ (fun _ => k) w tt w). unfold owned, lift. by rewrite Hk.
Qed.

(** A layout that is accepted covers the declared size. *)
Lemma layout_size u parts :
  _validate_provider_part_layout u parts = Ok tt ->
  Z.of_nat (length parts) = u_part_count u
  /\ (0 < u_part_count u -> foldr Z.add 0 (p_size_bytes <$> parts) = u_size_bytes u).
Proof.
  unfold _validate_provider_part_layout. destruct (_ =? _) eqn:Hlen; [|done]. simpl.
  apply Z.eqb_eq in Hlen. intros Hl. split; [done|].
  assert (forall i, Z.of_nat (length parts) = u_part_count u - i -> 0 <= i < u_part_count u ->
    check_layout u i parts = Ok tt ->
    foldr Z.add 0 (p_size_bytes <$> parts) = u_size_bytes u - u_part_size_bytes u * i) as Hsum.
  { clear Hlen Hl. induction parts as [|p parts IH]; intros i Hlen Hi Hc; [simpl in *; lia|].
    rewrite fmap_cons. cbn [foldr check_layout length] in *.
    destruct (negb (p_number p =? i + 1) || negb (p_size_bytes p =? _)) eqn:Hp in Hc; [done|].
    apply orb_false_iff in Hp as [_ Hp]. apply negb_false_iff, Z.eqb_eq in Hp.
    destruct (negb _) in Hc; [done|]. rewrite Hp. destruct (i =? u_part_count u - 1) eqn:Hi1.
    - apply Z.eqb_eq in Hi1. assert (parts = []) as -> by (destruct parts; [done|simpl in Hlen; lia]).
      simpl. subst i. lia.
    - apply Z.eqb_neq in Hi1. rewrite (IH (i + 1)); [lia..|exact Hc]. }
  intros Hpos. rewrite (Hsum 0); [lia..|done].
Qed.

Lemma head_run key d c s l q n :
  assert_key_owned_by key tenant = Ok tt ->
  head tenant key (mk_world d c s l q n []) =
  (match s3_head key s with Some m => Ok m | None => Err (AppError NotFound (cp "object_not_found")) end,
   mk_world d c s l q n []).
Proof.
  intros Hk. unfold head. rewrite owned_run by done. erewrite bind_run by reflexivity. simpl.
  by destruct (s3_head key s).
Qed.

Lemma head_or_complete_run u parts d c s l q n :
  assert_key_owned_by (u_storage_key u) tenant = Ok tt -> geometry u ->
  normalize_content_type lower (u_mime_type u) = u_mime_type u -> declared_ok u s ->
  (forall m, s3_head (u_storage_key u) s = Some m -> object_of u m) ->
  (s3_head (u_storage_key u) s = None ->
     s3_list_parts (u_storage_key u) (u_provider_upload_id u) s = Some parts
     /\ _validate_provider_part_layout u parts = Ok tt) ->
  exists m s', object_of u m /\ s3_head (u_storage_key u) s' = Some m
    /\ head_or_complete tenant u (fun provider =>
         _ ← _validate_provider_part_layout u provider;
         Ok ((fun p => (p_number p, p_etag p)) <$> provider)) (mk_world d c s l q n [])
       = (Ok m, mk_world d c s' l q n []).
Proof.
  intros Hk (Hps & Hpos & Hgeo) Hmime Hdecl Hobj Hparts. unfold head_or_complete, catch at 1.
  rewrite head_run by done. destruct (s3_head (u_storage_key u) s) as [m|] eqn:Hh.
  { exists m, s. split; [by apply Hobj|]. by split. }
  destruct (Hparts eq_refl) as [Hlist Hlay]. apply layout_size in Hlay as Hsize.
  destruct Hsize as [Hlen Hsum]. specialize (Hsum ltac:(nia)).
  destruct (s3_live (u_storage_key u) (u_provider_upload_id u) s) as [[ct meta]|] eqn:Hlive;
    [|apply list_live in Hlive; congruence].
  destruct (Hdecl _ _ Hlive) as [-> ->].
  destruct (complete_all _ _ _ _ _ _ Hlist ltac:(intros ->; simpl in Hlen; nia) Hlive)
    as (s' & Hcomp & Hh').
  eexists _, s'. split; [|split; [exact Hh'|]].
  - split; [exact Hsum|]. split; [exact Hmime|]. split; reflexivity.
  - erewrite bind_run.
    2:{ apply catch_run. unfold list_multipart_parts. rewrite owned_run by done.
        erewrite bind_run by reflexivity. simpl. rewrite Hlist. reflexivity. }
    erewrite bind_run by (unfold lift; by rewrite Hlay).
    apply catch_run. unfold complete_multipart_upload. rewrite owned_run by done.
    erewrite bind_run by (unfold provider; simpl; by rewrite Hcomp). simpl.
    rewrite head_run by done. by rewrite Hh'.
Qed.

Definition finished (u : DocumentUpload) (recovered : bool) (d : db) : db :=
  mk_db (Some (set_state_of COMPLETED None u)) (Some (document_of u))
    (db_events d ++ [mk_event DOCUMENT_UPLOADED ALLOWED (u_document_id u)
                       (if recovered then Some (cp "recovered") else None)]).

Lemma finalize_run u m recovered d c s l q n :
  object_of u m -> db_upload d = Some u -> db_document d = None ->
  _finalize_verified lower str_uuid tenant (u_owner_id u) u m recovered (mk_world d c s l q n [])
  = (Ok (document_of u), mk_world (finished u recovered d) c s (l ++ [job_of u]) q n []).
Proof.
  intros (Hsize & Hct & H1 & H2) Hu Hdoc. unfold _finalize_verified.
  rewrite (proj2 (Z.eqb_eq _ _) Hsize), !bool_decide_eq_true_2 by done. simpl.
  erewrite bind_run by reflexivity. simpl. rewrite Hdoc. rewrite Hsize.
  erewrite bind_run by reflexivity. simpl. erewrite bind_run.
  2:{ unfold set_state. erewrite bind_run by reflexivity. simpl. rewrite Hu.
      rewrite !bool_decide_eq_true_2 by done. simpl. erewrite bind_run by reflexivity. reflexivity. }
  reflexivity.
Qed.

(** What a recovery needs: the object is there and is the right one, or else
    all of its parts are. *)
Definition recoverable (u : DocumentUpload) (s : store) : Prop :=
  (forall m, s3_head (u_storage_key u) s = Some m -> object_of u m)
  /\ (s3_head (u_storage_key u) s = None -> exists parts,
        s3_list_parts (u_storage_key u) (u_provider_upload_id u) s = Some parts
        /\ _validate_provider_part_layout u parts = Ok tt).

Lemma recover_run u d c s l q n :
  assert_key_owned_by (u_storage_key u) tenant = Ok tt -> geometry u ->
  normalize_content_type lower (u_mime_type u) = u_mime_type u -> declared_ok u s ->
  recoverable u s -> db_upload d = Some u -> db_document d = None ->
  exists s', _recover_completing_upload lower str_uuid tenant (u_owner_id u) u (mk_world d c s l q n [])
  = (Ok (document_of u), mk_world (finished u true d) c s' (l ++ [job_of u]) q n []).
Proof.
  intros Hk Hg Hm Hd [Hobj Hparts] Hu Hdoc.
  assert (exists parts, s3_head (u_storage_key u) s = None ->
    s3_list_parts (u_storage_key u) (u_provider_upload_id u) s = Some parts
    /\ _validate_provider_part_layout u parts = Ok tt) as [parts Hp].
  { destruct (s3_head (u_storage_key u) s); [by exists []|].
    destruct (Hparts eq_refl) as [parts Hp]. by exists parts. }
  destruct (head_or_complete_run u parts d c s l q n Hk Hg Hm Hd Hobj Hp) as (m & s' & Hom & _ & Hrun).
  exists s'. unfold _recover_completing_upload. erewrite bind_run by exact Hrun.
  by apply finalize_run.
Qed.

Lemma audited_run {A} action (m : M (option A)) w a w' :
  m w = (Ok (Some a), w') -> audited action m w = (Ok (Some a), w').
Proof. intros Hm. unfold audited. by erewrite bind_run by (by apply catch_run). Qed.
Lemma audited_fail {A} action (m : M (option A)) w e w' :
  m w = (Err e, w') -> (forall code, e <> AppError NotFound code /\ e <> AppError Forbidden code) ->
  audited action m w = (Err e, w').
Proof.
  intros Hm He. unfold audited. apply bind_fail. erewrite catch_fail by exact Hm.
  destruct e as [[] code| |]; try done; by destruct (He code).
Qed.
Lemma guarded_run {A} action id (m : M (option A)) w a w' :
  m w = (Ok (Some a), w') -> guarded action id m w = (Ok a, w').
Proof. intros Hm. unfold guarded. by erewrite bind_run by (by apply catch_run). Qed.
Lemma lookup_run u d c s l q n fs :
  db_upload d = Some u ->
  get_for_owner (u_id u) (u_owner_id u) (mk_world (store := store) d c s l q n fs)
  = (Ok (Some u), mk_world d c s l q n fs).
Proof.
  intros Hu. unfold get_for_owner. erewrite bind_run by reflexivity. simpl.
  by rewrite Hu, !bool_decide_eq_true_2.
Qed.

(** C25: a [complete] that crashed on either side of the provider's completion
    is finished by any later read of its owner: the document is created, its
    job is sent, and nobody has to send the parts again. *)
Theorem recovery_completes s y u now
    (Hreach : reachable s y)
    (Hrow : db_upload (w_committed (y_world y)) = Some u)
    (Hstate : u_state u = COMPLETING)
    (Hthere : recoverable u (w_store (y_world y))) :
  exists v w',
    run (get_upload lower str_uuid tenant (u_owner_id u) now (u_id u)) [] (y_world y) = (Ok v, w')
    /\ v_document v = Some (document_of u)
    /\ db_upload (w_committed w') = Some (set_state_of COMPLETED None u)
    /\ db_document (w_committed w') = Some (document_of u)
    /\ w_queue w' = [job_of u].
Proof.
  pose proof (reachable_ok _ _ Hreach) as Hok. destruct (y_world y) as [d0 d st l0 q n fs]. simpl in *.
  unfold world_ok, session_ok, state_ok in Hok. simpl in Hok. rewrite Hrow, Hstate in Hok.
  destruct Hok as (Hg & Hk & Hm & Hd & Hdoc & _ & -> & _).
  destruct (recover_run u d d st [] [] n Hk Hg Hm Hd Hthere Hrow Hdoc) as (s' & Hrun).
  unfold run, get_upload. simpl. erewrite bind_run.
  2:{ apply guarded_run, audited_run. unfold current. erewrite bind_run by (by apply lookup_run).
      cbn beta iota. rewrite bool_decide_eq_true_2 by done. erewrite bind_run by exact Hrun.
      erewrite bind_run by (by apply (lookup_run (set_state_of COMPLETED None u))).
      reflexivity. }
  erewrite bind_run by reflexivity. simpl. eexists _, _. by split_and!.
Qed.

Lemma layout_codes u parts code :
  _validate_provider_part_layout u parts = Err (AppError Validation code) -> code ∈ permanent_codes.
Proof.
  unfold _validate_provider_part_layout. case_match; [intros [= <-]; set_solver|]. clear.
  generalize 0. induction parts as [|p parts IH]; intros i; simpl; [done|].
  destruct (_ || _); [intros [= <-]; set_solver|].
  destruct (negb _); [intros [= <-]; set_solver|apply IH].
Qed.

Lemma fail_run u code d c s l q n :
  assert_key_owned_by (u_storage_key u) tenant = Ok tt -> db_upload d = Some u ->
  _fail_completion tenant (u_owner_id u) u code (mk_world d c s l q n [])
  = (Ok tt, mk_world (with_upload (set_state_of FAILED (Some (cp code)) u) d) c
              (s3_delete (u_storage_key u) s) l q n []).
Proof.
  intros Hk Hu. unfold _fail_completion. erewrite bind_run.
  2:{ unfold set_state. erewrite bind_run by (by apply lookup_run). cbn beta iota.
      erewrite bind_run by reflexivity. reflexivity. }
  unfold delete. by rewrite owned_run.
Qed.

(** What becomes of a recovery when nothing else goes wrong. *)
Lemma recover_outcome u d c s n :
  assert_key_owned_by (u_storage_key u) tenant = Ok tt -> geometry u ->
  normalize_content_type lower (u_mime_type u) = u_mime_type u -> declared_ok u s ->
  db_upload d = Some u -> db_document d = None ->
  exists s', let w' d' l := mk_world d' c s' l [] n [] in
  let r := _recover_completing_upload lower str_uuid tenant (u_owner_id u) u (mk_world d c s [] [] n []) in
  r = (Ok (document_of u), w' (finished u true d) [job_of u])
  \/ (exists code e, r = (Err (AppError Rejected code), w' (with_upload (set_state_of FAILED e u) d) []))
  \/ (exists code, r = (Err (AppError ProviderNotFound code), w' d [])
                   \/ r = (Err (AppError Validation code), w' d []) /\ code ∈ permanent_codes).
Proof.
  intros Hk Hg Hm Hd Hu Hdoc. destruct (s3_head (u_storage_key u) s) as [m|] eqn:Hh.
  - assert (forall code,
      (_fail_completion tenant (u_owner_id u) u code;; raise (A := Document) (AppError Rejected (cp code)))
        (mk_world d c s [] [] n [])
      = (Err (AppError Rejected (cp code)), mk_world
           (with_upload (set_state_of FAILED (Some (cp code)) u) d) c
           (s3_delete (u_storage_key u) s) [] [] n [])) as Hfail.
    { intros code. by erewrite bind_run by (by apply fail_run). }
    assert (head_or_complete tenant u (fun provider =>
       _ ← _validate_provider_part_layout u provider;
       Ok ((fun p => (p_number p, p_etag p)) <$> provider)) (mk_world d c s [] [] n [])
      = (Ok m, mk_world d c s [] [] n [])) as Hhead.
    { unfold head_or_complete. apply catch_run. rewrite head_run by done. by rewrite Hh. }
    destruct (decide (s_size_bytes m = u_size_bytes u)) as [Hsize|Hsize].
    + destruct (decide (object_of u m)) as [Hobj|Hobj].
      * exists s. left. unfold _recover_completing_upload. erewrite bind_run by exact Hhead.
        by apply finalize_run.
      * exists (s3_delete (u_storage_key u) s). right; left. exists (cp "stored_metadata_mismatch"), (Some (cp "stored_metadata_mismatch")).
        unfold _recover_completing_upload. erewrite bind_run by exact Hhead.
        unfold _finalize_verified. rewrite (proj2 (Z.eqb_eq _ _) Hsize). cbn [negb].
        case_bool_decide; [|apply Hfail]. case_bool_decide; [|apply Hfail].
        case_bool_decide; [|apply Hfail]. by destruct Hobj.
    + exists (s3_delete (u_storage_key u) s). right; left. exists (cp "stored_size_mismatch"), (Some (cp "stored_size_mismatch")).
      unfold _recover_completing_upload. erewrite bind_run by exact Hhead.
      unfold _finalize_verified. rewrite (proj2 (Z.eqb_neq _ _) Hsize). apply Hfail.
  - destruct (s3_list_parts (u_storage_key u) (u_provider_upload_id u) s) as [parts|] eqn:Hl.
    + destruct (_validate_provider_part_layout u parts) as [[]|e] eqn:Hlay.
      * destruct (recover_run u d c s [] [] n Hk Hg Hm Hd) as (s' & Hrun); auto.
        { split; [intros m; congruence|]. intros _. by exists parts. }
        exists s'. by left.
      * exists s. right; right.
        assert (exists code, e = AppError Validation code) as [code ->].
        { revert Hlay. unfold _validate_provider_part_layout. case_match; [intros [= <-]; eauto|]. clear.
          generalize 0. induction parts as [|p parts IH]; intros i; simpl; [done|].
          destruct (_ || _); [intros [= <-]; eauto|]. destruct (negb _); [intros [= <-]; eauto|apply IH]. }
        exists code. right. split; [|by eapply layout_codes].
        unfold _recover_completing_upload, head_or_complete, mbind, M_bind, bind at 1, catch at 1.
        rewrite head_run, Hh by done.
        unfold _storage_operation, catch, list_multipart_parts, mbind, M_bind, bind, owned, lift.
        rewrite Hk. simpl. rewrite Hl. simpl. rewrite Hlay. done.
    + exists s. right; right. exists (cp "multipart_upload_not_found"). left.
      unfold _recover_completing_upload, head_or_complete, mbind, M_bind, bind at 1, catch at 1.
      rewrite head_run, Hh by done.
      unfold _storage_operation, catch, list_multipart_parts, mbind, M_bind, bind, owned, lift.
      rewrite Hk. simpl. by rewrite Hl.
Qed.

Lemma close_run u reason code d c s q n :
  assert_key_owned_by (u_storage_key u) tenant = Ok tt -> db_upload d = Some u ->
  (abort_multipart_upload tenant (u_storage_key u) (u_provider_upload_id u);;
   delete tenant (u_storage_key u);;
   set_state (u_id u) (u_owner_id u) EXPIRED (Some reason);;
   emit DOCUMENT_UPLOAD_EXPIRED ERROR (u_id u) code) (mk_world d c s [] q n [])
  = (Ok tt, mk_world (mk_db (Some (set_state_of EXPIRED (Some reason) u)) (db_document d)
                        (db_events d ++ [mk_event DOCUMENT_UPLOAD_EXPIRED ERROR (u_id u) code]))
              c (s3_delete (u_storage_key u) (s3_abort (u_storage_key u) (u_provider_upload_id u) s))
              [] q n []).
Proof.
  intros Hk Hu. erewrite bind_run by (unfold abort_multipart_upload; by rewrite owned_run).
  erewrite bind_run by (unfold delete; by rewrite owned_run).
  erewrite bind_run.
  2:{ unfold set_state. erewrite bind_run by (by apply lookup_run). cbn beta iota.
      erewrite bind_run by reflexivity. reflexivity. }
  reflexivity.
Qed.

Definition sweep_reason (u : DocumentUpload) : M (option pystr) :=
  if bool_decide (u_state u = COMPLETING)
  then sweep_recovery lower str_uuid tenant (u_owner_id u) (u_id u)
  else ret (Some (cp "upload_session_expired")).

Lemma sweep_run u moment d s n o w1 :
  db_upload d = Some u -> u_state u ∈ [INITIATED; COMPLETING] -> u_expires_at u <= moment ->
  assert_key_owned_by (u_storage_key u) tenant = Ok tt ->
  sweep_reason u (mk_world d d s [] [] n []) = (Ok o, w1) -> w_faults w1 = [] ->
  (o <> None -> w_db w1 = d /\ w_committed w1 = d /\ w_listeners w1 = []) ->
  exists w2,
    sweep_one lower str_uuid tenant (u_owner_id u) moment (u_id u) (mk_world d d s [] [] n []) = (Ok tt, w2)
    /\ db_upload (w_committed w2) =
       match o with
       | None => db_upload (w_db w1)
       | Some reason => Some (set_state_of EXPIRED (Some reason) u)
       end.
Proof.
  intros Hu Hst Hdue Hk Hreason Hf Ho.
  assert (exists w2, (reason ← sweep_reason u;
    match reason with
    | None => ret tt
    | Some reason =>
        abort_multipart_upload tenant (u_storage_key u) (u_provider_upload_id u);;
        delete tenant (u_storage_key u);;
        set_state (u_id u) (u_owner_id u) EXPIRED (Some reason);;
        emit DOCUMENT_UPLOAD_EXPIRED ERROR (u_id u)
          (if bool_decide (reason = cp "upload_session_expired") then None else Some reason)
    end) (mk_world d d s [] [] n []) = (Ok tt, w2) /\ w_faults w2 = []
    /\ db_upload (w_db w2) = match o with
       | None => db_upload (w_db w1) | Some r => Some (set_state_of EXPIRED (Some r) u) end)
    as (w2 & Hbody & Hf2 & Hup).
  { erewrite bind_run by exact Hreason. destruct o as [reason|]; [|by eexists].
    destruct (Ho ltac:(done)) as (Hdb & Hc & Hl). destruct w1 as [d1 c1 s1 l1 q1 n1 fs1].
    simpl in *. subst. eexists. split; [by apply close_run|]. done. }
  destruct w2 as [d2 c2 s2 l2 q2 n2 fs2]. simpl in *. subst fs2. eexists. split.
  - unfold sweep_one. apply catch_run. erewrite bind_run by (by apply lookup_run). cbn beta iota.
    rewrite (proj2 (mem_true _ _) Hst), (proj2 (Z.ltb_ge _ _) Hdue). cbn [negb orb].
    erewrite bind_run by exact Hbody. reflexivity.
  - done.
Qed.

(** No session stays open for ever: a sweep of the janitor that meets no
    fault ends every session whose time is up, by finishing it where its bytes
    are all there. *)
Theorem sweep_ends_sessions s y u moment
    (Hreach : reachable s y)
    (Hrow : db_upload (w_committed (y_world y)) = Some u)
    (Hactive : u_state u ∈ [INITIATED; COMPLETING])
    (Hdue : u_expires_at u <= moment) :
  exists u' w',
    run (sweep_one lower str_uuid tenant (u_owner_id u) moment (u_id u)) [] (y_world y) = (Ok tt, w')
    /\ db_upload (w_committed w') = Some u'
    /\ u_state u' ∈ [COMPLETED; FAILED; EXPIRED]
    /\ (u_state u = COMPLETING -> recoverable u (w_store (y_world y)) -> u_state u' = COMPLETED).
Proof.
  pose proof (reachable_ok _ _ Hreach) as Hok. destruct (y_world y) as [d0 d st l0 q n fs]. simpl in *.
  unfold world_ok, session_ok in Hok. simpl in Hok. rewrite Hrow in Hok.
  destruct Hok as (Hg & Hk & Hm & Hd & Hok).
  assert (db_document d = None /\ q = []) as [Hdoc ->].
  { unfold state_ok in Hok. destruct (u_state u); set_unfold; naive_solver. }
  assert (forall o w1, sweep_reason u (mk_world d d st [] [] n []) = (Ok o, w1) -> w_faults w1 = [] ->
    (o <> None -> w_db w1 = d /\ w_committed w1 = d /\ w_listeners w1 = []) ->
    forall u', match o with
               | None => db_upload (w_db w1)
               | Some reason => Some (set_state_of EXPIRED (Some reason) u)
               end = Some u' -> u_state u' ∈ [COMPLETED; FAILED; EXPIRED] ->
    (u_state u = COMPLETING -> recoverable u st -> u_state u' = COMPLETED) ->
    exists u' w', run (sweep_one lower str_uuid tenant (u_owner_id u) moment (u_id u)) []
      (mk_world d0 d st l0 [] n fs) = (Ok tt, w') /\ db_upload (w_committed w') = Some u'
      /\ u_state u' ∈ [COMPLETED; FAILED; EXPIRED]
      /\ (u_state u = COMPLETING -> recoverable u st -> u_state u' = COMPLETED)) as Hend.
  { intros o w1 Hreason Hf Ho u' Hu' Hs Hr.
    destruct (sweep_run u moment d st n o w1) as (w2 & Hrun & Hup); auto.
    exists u'. eexists. split; [unfold run; simpl; by rewrite Hrun|]. split_and!; auto. simpl. congruence. }
  unfold sweep_reason in Hend. destruct (decide (u_state u = COMPLETING)) as [HC|HC].
  2:{ rewrite bool_decide_eq_false_2 in Hend by done.
      eapply Hend; [reflexivity|done..|simpl; set_solver|done]. }
  rewrite bool_decide_eq_true_2 in Hend by done.
  destruct (recover_outcome u d d st n) as (s' & Hout); auto.
  assert (forall r w', _recover_completing_upload lower str_uuid tenant (u_owner_id u) u
      (mk_world d d st [] [] n []) = (r, w') ->
    (forall code, r <> Err (AppError NotFound code) /\ r <> Err (AppError Forbidden code)) ->
    recover_completing lower str_uuid tenant (u_owner_id u) (u_id u) (mk_world d d st [] [] n [])
    = (match r with Ok doc => Ok (Some doc) | Err e => Err e end, w')) as Hrec.
  { intros r w' Hr Hne. unfold recover_completing.
    destruct r as [doc|e]; [apply audited_run|apply audited_fail; [|intros code; split; intros ->; by destruct (Hne code)]].
    all: erewrite bind_run by (by apply lookup_run); cbn beta iota; rewrite HC.
    - by erewrite bind_run by exact Hr.
    - by erewrite bind_fail by exact Hr. }
  assert (recoverable u st -> forall e w', _recover_completing_upload lower str_uuid tenant
      (u_owner_id u) u (mk_world d d st [] [] n []) <> (Err e, w')) as Hcan.
  { intros Hre e w'. destruct (recover_run u d d st [] [] n Hk Hg Hm Hd Hre Hrow Hdoc) as (? & ->). done. }
  destruct Hout as [Hout|[(code & e & Hout)|(code & [Hout|[Hout Hcode]])]];
    pose proof Hout as Hout'; apply Hrec in Hout; try done.
  - eapply (Hend None); [unfold sweep_recovery; apply catch_run; by erewrite bind_run by exact Hout|..];
      simpl; try done; set_solver.
  - eapply (Hend None); [unfold sweep_recovery; erewrite catch_fail by (by apply bind_fail); reflexivity|..];
      simpl; try done; [set_solver|]. intros _ Hre. by apply Hcan in Hout'.
  - eapply (Hend (Some _)); [unfold sweep_recovery; erewrite catch_fail by (by apply bind_fail); reflexivity|..];
      simpl; try done; [set_solver|]. intros _ Hre. by apply Hcan in Hout'.
  - eapply (Hend (Some _)); [unfold sweep_recovery; erewrite catch_fail by (by apply bind_fail); cbn beta iota;
      rewrite (proj2 (mem_true _ _) Hcode); reflexivity|..];
      simpl; try done; [set_solver|]. intros _ Hre. by apply Hcan in Hout'.
Qed.


(** Someone else's session answers as one that does not exist: the caller gets
    the 404, one denial is recorded, and nothing else happens. *)
Lemma foreign_upload_hidden owner now id parts numbers faults w
    (Hforeign : forall u, db_upload (w_committed w) = Some u -> u_id u <> id \/ u_owner_id u <> owner) :
  let hidden action := mk_world (w_committed w) (w_committed w) (w_store w) [] (w_queue w)
                         (w_denials w ++ [cp action]) [] in
  let not_found {A} : res exn A := Err (AppError NotFound (cp "not_found")) in
  run (get_upload lower str_uuid tenant owner now id) faults w
    = (not_found, hidden "document_upload.read")
  /\ run (sign_parts_endpoint lower str_uuid tenant cfg owner now id numbers) faults w
    = (not_found, hidden "document_upload.sign_parts")
  /\ run (abort_upload lower str_uuid tenant owner now id) faults w
    = (not_found, hidden "document_upload.abort")
  /\ run (complete_upload_begin lower str_uuid tenant owner now id parts) faults w
    = (not_found, hidden "document_upload.complete").
Proof.
  set (w0 := mk_world (w_committed w) (w_committed w) (w_store w) [] (w_queue w) (w_denials w) faults).
  assert (get_for_owner id owner w0 = (Ok None, w0)) as Hnone.
  { unfold get_for_owner. erewrite bind_run by reflexivity. simpl.
    destruct (db_upload (w_committed w)) as [u|]; [|done].
    destruct (Hforeign u eq_refl); [rewrite bool_decide_eq_false_2 by done|
      rewrite (bool_decide_eq_false_2 (u_owner_id u = owner)), andb_false_r by done]; done. }
  assert (forall view, current lower str_uuid tenant owner now id view w0 = (Ok None, w0)) as Hcur.
  { intros view. unfold current. by erewrite bind_run by exact Hnone. }
  assert (forall A action resource (m : M (option A)) name, m w0 = (Ok None, w0) ->
    guarded action resource (audited name m) w0 =
    (Err (AppError NotFound (cp "not_found")), mk_world (w_committed w) (w_committed w) (w_store w)
       [] (w_queue w) (w_denials w ++ [cp name]) faults)) as Hguard.
  { intros A action resource m name Hm. unfold guarded. erewrite bind_run.
    2:{ apply catch_run. unfold audited. erewrite bind_run by (by apply catch_run). reflexivity. }
    reflexivity. }
  unfold run, get_upload, sign_parts_endpoint, abort_upload, complete_upload_begin. fold w0.
  split_and!; (erewrite bind_fail by (by apply Hguard)); reflexivity.
Qed.
End reachable.

End invariant.

(** ** A store for the witnesses *)

Section demo.

(** Every upload has the same provider id; an upload is its declaration and its
    parts. *)
Record demo_store := mk_demo {
  demo_objects : pystr -> option StoredObjectMetadata;
  demo_uploads : pystr -> pystr -> option (pystr * list (pystr * pystr) * list UploadedPart)
}.
Definition demo_set {V} (k : pystr) (v : option V) (f : pystr -> option V) : pystr -> option V :=
  fun k' => if decide (k' = k) then v else f k'.
Definition demo_set2 {V} (k p : pystr) (v : option V) (f : pystr -> pystr -> option V) :
    pystr -> pystr -> option V :=
  fun k' p' => if decide (k' = k /\ p' = p) then v else f k' p'.

Definition manifest_of (parts : list UploadedPart) : list (Z * pystr) :=
  (fun x => (p_number x, p_etag x)) <$> parts.

#[local] Instance demo_storage : ObjectStorage demo_store := {
  s3_create k ct meta s :=
    (cp "pid", mk_demo (demo_objects s) (demo_set2 k (cp "pid") (Some (ct, meta, [])) (demo_uploads s)));
  s3_put_part k p part s :=
    mk_demo (demo_objects s)
      (demo_set2 k p ((fun '(ct, meta, parts) => (ct, meta, parts ++ [part])) <$> demo_uploads s k p)
         (demo_uploads s));
  s3_list_parts k p s := snd <$> demo_uploads s k p;
  s3_complete k p l s :=
    match demo_uploads s k p with
    | Some (ct, meta, parts) =>
        if decide (manifest_of parts = l) then
          Some (mk_demo
            (demo_set k (Some (mk_stored (foldr Z.add 0 (p_size_bytes <$> parts)) ct meta)) (demo_objects s))
            (demo_set2 k p None (demo_uploads s)))
        else None
    | None => None
    end;
  s3_abort k p s := mk_demo (demo_objects s) (demo_set2 k p None (demo_uploads s));
  s3_head k s := demo_objects s k;
  s3_delete k s := mk_demo (demo_set k None (demo_objects s)) (demo_uploads s)
}.

#[local] Instance demo_laws : ObjectStorageLaws demo_store.
Proof.
  refine {| s3_live k p s := fst <$> demo_uploads s k p |}; simpl; unfold demo_set, demo_set2; intros.
  - by rewrite decide_True.
  - done.
  - done.
  - by destruct (demo_uploads s k p).
  - by rewrite decide_True.
  - rewrite decide_True by done. by destruct (demo_uploads s k p) as [[[ct meta] parts]|].
  - done.
  - by rewrite decide_True.
  - destruct (demo_uploads s k p) as [[[ct meta] parts]|]; [|done].
    case_decide; [|done]. injection H as <-. simpl. by rewrite decide_True.
  - destruct (demo_uploads s k p) as [[[ct' meta'] parts']|]; [|done]. simpl in *.
    injection H as ->. injection H1 as -> ->. rewrite decide_True by done.
    eexists. split; [done|]. simpl. by rewrite decide_True.
Defined.

Definition demo_cfg : settings := mk_settings [cp "text/plain"] 100 1000 5 10 10 3600 None.
Definition demo_uuid (n : uuid) : pystr := [(48 + n)%N].
Definition demo_tenant : pystr := cp "t1".
Definition demo_initiation : initiation := mk_initiation 1%N (cp "a.txt") (cp "text/plain") 8 2%N 3%N.

Abbreviation demo_step := (sys_step (store := demo_store) id id demo_uuid demo_tenant demo_cfg).
Abbreviation demo_reachable := (sys_reachable (store := demo_store) id id demo_uuid demo_tenant demo_cfg).

Definition demo_start : demo_store := mk_demo (fun _ => None) (fun _ _ => None).
Definition demo_w0 : world demo_store :=
  mk_world (mk_db None None []) (mk_db None None []) demo_start [] [] [] [].
Definition demo_w1 : world demo_store :=
  (run (initiate_upload id id demo_uuid demo_tenant demo_cfg 7%N 0 (Some 7%N) demo_initiation) [] demo_w0).2.
Definition demo_row (s : DocumentUploadState) : DocumentUpload :=
  mk_upload 2%N 3%N 7%N 1%N (cp "a.txt") (cp "text/plain") 8
    (cp "t1/quarantine/3/a.txt") (cp "pid") s 5 2 3600 None.
Definition demo_put (part : UploadedPart) (w : world demo_store) : world demo_store :=
  mk_world (w_db w) (w_committed w)
    (s3_put_part (u_storage_key (demo_row INITIATED)) (u_provider_upload_id (demo_row INITIATED)) part
       (w_store w)) (w_listeners w) (w_queue w) (w_denials w) (w_faults w).
Definition demo_w2 : world demo_store :=
  demo_put (mk_part 2 (cp "e2") 3) (demo_put (mk_part 1 (cp "e1") 5) demo_w1).
Definition demo_parts : list (Z * pystr) := [(1, cp "e1"); (2, cp "e2")].
(** The process that completes dies in the middle. *)
Definition demo_w3 : world demo_store :=
  (run (complete_upload_begin id demo_uuid demo_tenant 7%N 10 2%N demo_parts) [] demo_w2).2.
Definition demo_y3 : system := mk_system demo_w3 [mk_inflight 7%N 2%N demo_parts] false.

Lemma demo_y3_reachable : demo_reachable demo_start demo_y3.
Proof.
  eapply y_more; [eapply y_more; [eapply y_more; [eapply y_more; [apply y_start|]|]|]|].
  - by apply (y_initiate _ _ _ _ _ 7%N 0 (Some 7%N) demo_initiation []).
  - apply (y_put_part _ _ _ _ _ (demo_row INITIATED) (mk_part 1 (cp "e1") 5)). by vm_compute.
  - apply (y_put_part _ _ _ _ _ (demo_row INITIATED) (mk_part 2 (cp "e2") 3)). by vm_compute.
  - apply (y_complete _ _ _ _ _ 7%N 10 2%N demo_parts [] demo_w2 demo_w3 (Ok (inr tt))).
    unfold demo_w3. destruct (run _ _ _) as [r w] eqn:Hr. apply (f_equal fst) in Hr.
    vm_compute in Hr. simpl in *. by subst r.
Qed.

Lemma demo_y3_row : db_upload (w_committed (y_world demo_y3)) = Some (demo_row COMPLETING).
Proof. by vm_compute. Qed.

Lemma demo_lower c : c ∈ table_types -> id c = c.
Proof. done. Qed.

Lemma demo_recoverable : recoverable id demo_uuid (demo_row COMPLETING) (w_store (y_world demo_y3)).
Proof.
  split; [by intros m Hm; vm_compute in Hm|]. intros _.
  exists [mk_part 1 (cp "e1") 5; mk_part 2 (cp "e2") 3]. split; by vm_compute.
Qed.

(** The next read finishes the completion. *)
Definition demo_w4 : world demo_store := (run (get_upload id demo_uuid demo_tenant 7%N 20 2%N) [] demo_w3).2.
Definition demo_y4 : system := mk_system demo_w4 [mk_inflight 7%N 2%N demo_parts] false.
Lemma demo_y4_reachable : demo_reachable demo_start demo_y4.
Proof. eapply y_more; [exact demo_y3_reachable|]. apply (y_get _ _ _ _ _ 7%N 20 2%N []). Qed.
Lemma demo_y4_row : db_upload (w_committed (y_world demo_y4)) = Some (demo_row COMPLETED).
Proof. by vm_compute. Qed.

Lemma upload_sessions_well_formed_witness :
  (db_document (w_committed (y_world demo_y3)) = None /\ w_queue (y_world demo_y3) = [])
  /\ db_document (w_committed (y_world demo_y4)) = Some (document_of id (demo_row COMPLETED))
  /\ exists m, s3_head (cp "t1/quarantine/3/a.txt") (w_store (y_world demo_y4)) = Some m
       /\ object_of id demo_uuid (demo_row COMPLETED) m.
Proof.
  split.
  - destruct (upload_sessions_well_formed id id demo_uuid demo_tenant demo_cfg demo_lower eq_refl
      demo_start demo_y3 (demo_row COMPLETING) demo_y3_reachable demo_y3_row)
      as (_ & Hdoc & _ & _ & Hq & _).
    split; [|by destruct Hq as [?|[_ ?]]].
    destruct (db_document _) as [doc|]; [|done]. discriminate (proj1 Hdoc (ex_intro _ doc eq_refl)).
  - destruct (upload_sessions_well_formed id id demo_uuid demo_tenant demo_cfg demo_lower eq_refl
      demo_start demo_y4 (demo_row COMPLETED) demo_y4_reachable demo_y4_row)
      as (_ & Hdoc & Hobj & _).
    destruct (db_document _) as [doc|]; [|by destruct (proj2 Hdoc eq_refl)].
    destruct (Hobj doc eq_refl) as [-> [Hm|[Hg _]]]; [by split|done].
Defined.

(** The owner deletes the document, the object goes, and the process dies before the
    commit. *)
Definition demo_w5 : world demo_store :=
  (run (delete_document demo_tenant 7%N 3%N) [Works; Works; Works; DiesBefore] demo_w4).2.
Definition demo_y5 : system :=
  mk_system demo_w5 [mk_inflight 7%N 2%N demo_parts]
    (begun (w_committed demo_w4) (w_committed demo_w5) false).
Lemma failed_deletion_keeps_the_row :
  demo_reachable demo_start demo_y5
  /\ db_upload (w_committed (y_world demo_y5)) = Some (demo_row COMPLETED)
  /\ db_document (w_committed (y_world demo_y5)) = Some (document_of id (demo_row COMPLETED))
  /\ s3_head (cp "t1/quarantine/3/a.txt") (w_store (y_world demo_y5)) = None.
Proof.
  split; [|split_and!; by vm_compute]. eapply y_more; [exact demo_y4_reachable|].
  exact (y_delete _ _ _ _ _ 7%N 3%N [Works; Works; Works; DiesBefore] demo_w4
    [mk_inflight 7%N 2%N demo_parts] false).
Qed.

Lemma upload_states_progress_witness : allowed COMPLETING COMPLETED = true.
Proof.
  exact (proj1 (upload_states_progress id id demo_uuid demo_tenant demo_cfg demo_lower eq_refl
    demo_start demo_y3 demo_y4 (demo_row COMPLETING) (demo_row COMPLETED) demo_y3_reachable
    (y_get _ _ _ _ _ 7%N 20 2%N [] demo_w3 _ false) demo_y3_row
    ltac:(vm_compute; reflexivity))).
Defined.

Lemma recovery_completes_witness : exists v w',
  run (get_upload id demo_uuid demo_tenant 7%N 20 2%N) [] demo_w3 = (Ok v, w')
  /\ v_document v = Some (document_of id (demo_row COMPLETING))
  /\ w_queue w' = [(3%N, false)].
Proof.
  destruct (recovery_completes id id demo_uuid demo_tenant demo_cfg demo_lower eq_refl
    demo_start demo_y3 (demo_row COMPLETING) 20 demo_y3_reachable demo_y3_row eq_refl
    demo_recoverable) as (v & w' & Hrun & Hv & _ & _ & Hq).
  exists v, w'. by split_and!.
Defined.

Lemma sweep_ends_sessions_witness : exists u' w',
  run (sweep_one id demo_uuid demo_tenant 7%N 4000 2%N) [] demo_w3 = (Ok tt, w')
  /\ db_upload (w_committed w') = Some u' /\ u_state u' = COMPLETED.
Proof.
  destruct (sweep_ends_sessions id id demo_uuid demo_tenant demo_cfg demo_lower eq_refl
    demo_start demo_y3 (demo_row COMPLETING) 4000 demo_y3_reachable demo_y3_row
    ltac:(vm_compute; set_solver) ltac:(vm_compute; discriminate))
    as (u' & w' & Hrun & Hu & _ & Hc).
  exists u', w'. split; [done|]. split; [done|]. apply Hc; [done|apply demo_recoverable].
Defined.
End demo.
